(* ===== verification/_CoqProject ===== *)
-Q . S2P
Prelude.v
Words.v
Utf8.v
Float32.v
Format.v
Decimal.v
Errors.v
Types.v
Message.v
Transport.v
Descriptor.v
Keyboard.v
Mouse.v
Gamepad.v
Coalesce.v
Sink.v
Session.v
Touch.v
Refinement.v
SessionInv.v
Vocabulary.v
Lifecycle.v
Gestures.v
Typing.v
Batches.v
Faults.v
GamepadRing.v
Commands.v
Dispatcher.v
Service.v
Runtime.v
Client.v
FrameBatchers.v
Barrier.v
ClientGestures.v
GamepadBatchers.v
RingClient.v
Utf8Lossy.v
FloatBits.v
Io.v
IoWrite.v
AiSummary.v
Device.v
DevicePump.v
LatestFrame.v
AsyncDevice.v
Frame.v
Verb.v
ErrorFrame.v
Kvs.v
KernelTypes.v
Bounded.v
StreamEngine.v
PredicateEngine.v
PredicateWait.v
PlanExecutor.v
PlanRefinement.v
StateModel.v
SessionState.v
Egress.v
ChunkPlanner.v
Memory.v
KernelFrame.v
Bridge.v
BridgeRefinement.v
Bench.v
Capability.v
ScenarioLibrary.v
MockFixtures.v
UiRepr.v
MemoryStore.v
Threads.v
AdkText.v
AdkDaemon.v
AdkRequest.v
AdkWorld.v
AdkService.v
AdkReplies.v
AdkPool.v
AdkEnds.v
