(* ===== verification/Prelude.v ===== *)
(** * Verification of the control core of [android-hid-connect] (root file)

    The program drives an Android device as a keyboard, mouse and gamepad: it writes scrcpy
    control messages (UHID create, input and destroy, touches, text, intents) to a byte
    transport.  This library models the crate under [src/src/] from the bytes up to the
    multi-threaded client, the line protocol of its daemon, and the planning kernel above
    both, and proves what each layer promises the one above.

    ** Parts and how they interact

    A [HidSession] owns three HID drivers and a [CoalescingWriter].  A call of the session
    asks a driver for a report, wraps it in a [ControlMessage] and pushes it into the writer,
    which buffers droppable messages and sends critical ones at once through
    [TransportWrite].  A [HidClient] queues [HidCommand]s on a bounded channel; the dispatcher
    thread owns the session and runs them.  In gamepad mode a lock-free ring and a consumer
    thread replace channel and dispatcher.  Batchers collect frames on the caller's side.
    In the other direction messages and AI events are decoded from any byte stream, by the
    caller, by threads over a channel, or by a pump that keeps the latest frame.  The
    protocol crate is separate: frames, the verbs and key-value pairs of a command, and
    error frames.  The kernel runs [Plan]s of [Action]s: its executor waits for predicates on
    the observations the host drains, which go to the subscribers of a stream engine, and
    has the host perform each action; a bridge performs actions on a [HidSession].  Around it
    are the memory of screens, the state of a task, the scenario library, the filter of what
    may leave the device, and the frames between host and daemon.  The daemon [adk] serves
    any number of connections at once, each on a thread: it reads a request, performs it
    through the bridge or with the [adb] command, and writes its replies.

    ** Files and sources

    - [Prelude]: outcomes of Rust computations ([Ok], [Err], or an unwind), the
      state-and-error monad [cmd] in which every method is written, its laws and the rules
      for invariants; [Words], [Utf8], [Float32]: machine integers, [str], [f32] and [f64].
    - [Errors] ([error.rs]), [Types], [Vocabulary] ([types.rs]), [Message] ([control/message.rs]),
      [Transport] ([transport/mod.rs]), [Descriptor] ([hid/descriptor.rs], [hid/mod.rs]),
      [Keyboard], [Mouse], [Gamepad] ([hid/]), [Coalesce] ([coalesce.rs]).
    - [Session], [Touch] ([session.rs], [multitouch.rs]): the session's methods over the
      interface [MessageSink] of [Sink], which the writer and the list of messages
      [MsgLog] both implement.
    - [GamepadRing] ([gamepad_ring.rs]): the ring's accesses and its two threads.
    - [Commands], [Dispatcher], [Runtime], [Client], [FrameBatchers], [GamepadBatchers],
      [ClientGestures] ([client.rs]): the commands, the thread that runs
      them, channel, ring and the other threads as an arbitrary schedule, and the methods of
      the client.
    - [Format], [Decimal], [Utf8Lossy], [FloatBits], [Io]: printing integers and decimals,
      decoding strings, the bits of an [f32], and parsers over a byte stream with the rules
      to reason about them; [IoWrite]: transports from [io::Write], and [open_tcp].
    - [AiSummary] ([ai/mod.rs]), [Device], [DevicePump], [LatestFrame] ([device.rs]),
      [AsyncDevice] ([async_device.rs]): what the device sends, the threads that receive it
      over the interface [Sender], and the latest-frame receivers.
    - [Frame], [Verb], [ErrorFrame], [Kvs]: the files of the same names under
      [android-hid-protocol/src/] ([ErrorFrame] is [error.rs]).
    - Of [ai-device-kernel/src/]: [KernelTypes] ([ids.rs], [observation.rs], [predicate.rs],
      [action.rs], [plan.rs]); [StreamEngine], [PredicateEngine], [PredicateWait],
      [PlanExecutor], [ChunkPlanner], [Egress], [Memory], [Capability], [UiRepr] (the files
      of the same names); [StateModel] ([state.rs]); [SessionState] ([session_state.rs],
      [selector_cache.rs]); [KernelFrame] ([protocol.rs]); [ScenarioLibrary] (its file,
      [cold_start.rs] and the language-model adapters), [MockFixtures] (the fixtures of
      [mock_llm.rs], read with [json.rs] over the interfaces [Files] and [SerdeJson]);
      [Bridge] ([bridge.rs]), over the interface [MessageSink] like the session it drives.
      [Bounded] holds what a bounded queue keeps, [MemoryStore] is [memory_sqlite.rs] over
      the interfaces [Sqlite] and [Postcard]; [PlanRefinement] and [BridgeRefinement] specify
      the executor and the bridge; [Bench] is the benchmark tool ([bin/adk-bench.rs]), which
      runs the bridge.
    - The daemon ([bin/adk.rs]): [AdkText] is what it reads out of the output of processes,
      [AdkDaemon] its flags, actions, observations, the handler of a connection and the
      accept loop, over the interfaces [Host] (processes and clock), [Sqlite] and [Socket].
      A handler is a program of atomic accesses to the state the connections share
      ([Threads], which also has the pool of threads and a rely-guarantee logic for them).
      [AdkWorld] states what is assumed of host and socket and has an instance of each;
      [AdkRequest], [AdkService], [AdkReplies], [AdkPool] and [AdkEnds] hold the theorems.

    A method keeps its name, prefixed by its type where two types share it ([Mouse_new]); a
    struct is a record with the source's fields (capacities of buffers left out), an enum an
    inductive type with the source's constructors.  [&mut self] is the state of a [cmd].

    ** What the theorems show

    - Bytes: serialization round-trips through a decoder written from the format table, its
      errors and panics are characterized ([Message]); reports conform to their descriptors
      ([Keyboard], [Mouse], [Gamepad]).
    - Drivers: each is a refinement of an abstract state ([Keyboard] held keys, [Gamepad]
      pads and slot allocation, [Mouse] residues that conserve motion).
    - Transports: every [io::Write] that keeps its contract is lawful, short writes and
      interruptions included ([IoWrite]).
    - Writer: however messages are grouped, flushed and dropped, the bytes on the wire are
      the messages pushed, in order; buffer bounds; what a failure keeps ([Coalesce]).
    - Session: over a healthy transport it behaves like its message log ([Refinement],
      [SessionInv], [Lifecycle]); creates and destroys pair up; gestures leave no finger
      ([Gestures]); text is typed as written ([Typing]); batches are their frames
      ([Batches]); guards release what they pressed when the transport fails ([Faults]).
    - Ring: under every interleaving and stale load frames come out once, in order, and a
      pop terminates; what the relaxed load leaves unordered ([GamepadRing]).
    - Client: the dispatcher delivers the commands it receives and closes ([Service]);
      what a flush barrier answers and when it never does ([Dispatcher], [Barrier]);
      batchers keep their frames over any lawful client ([FrameBatchers],
      [GamepadBatchers]); gestures queue their frames ([ClientGestures]); what goes wrong
      over a full ring ([RingClient]).
    - Device: the decoders read exactly the layouts, a cut-off message is an end of file,
      and errors are the reader's or name what was consumed ([AiSummary], [Device]); a
      receiver thread delivers in order, and when it never ends ([DevicePump]); a wait
      returns the newest acceptable frame, and always returns if it has a deadline
      ([LatestFrame], [AsyncDevice]).
    - Protocol: frames and error frames read back what was written and nothing else; key-value
      lines too, with the values for which they do not left out; no line makes their parser
      unwind or loop ([Frame], [ErrorFrame], [Kvs]).
    - Kernel: the runs of the executor are exactly the traces of a specification without
      engines or state, and it returns if the observations end ([PlanRefinement]); how a wait
      ends ([PredicateWait]); what a subscriber receives ([StreamEngine]); the actions of a
      batch become the messages their meaning says, up to the first failure, and an outcome
      each ([BridgeRefinement]); the memory is an LRU cache ([Memory]) and survives a
      restart ([MemoryStore]); the bounded histories keep the newest ([StateModel],
      [SessionState]); added scenarios are found until they are evicted ([ScenarioLibrary]);
      filtered observations tell nothing a policy denies ([Egress]); every action of the
      benchmark lands and its exit tells whether the objective was met ([Bench]); plans are cut into
      chunks without loss ([ChunkPlanner]); a capability for every action can be registered
      ([Capability]); frames and the HTML of a screen read back, and what decoding gives on
      any bytes ([KernelFrame], [UiRepr]).
    - Daemon: a request is read as it was written, or is an error or a panic on known
      conditions ([AdkRequest]); what an action leaves in the daemon ([AdkService]); however
      the connections interleave, a handler that ends well has written exactly the frames that
      answer its request, and no number is given out twice ([AdkReplies], [AdkPool]); and none
      waits for ever where time passes ([AdkEnds]).

    ** Bounds, fuel and assumptions

    Integers are [Z] with the source's widths and wrap-around written out; the release
    profile has no overflow checks. The loops over slices take fuel one more than the
    length, and every turn takes a frame, so the fuel is never used up; [wait_turns] runs
    one turn of the dispatcher per command in the channel, after which nobody can wake the
    caller; [chars] and the decoders take the length of their input; a receiver thread takes
    a turn per message, and a message is at least a byte, so the length of the stream is
    enough; a kernel wait takes a turn per observation, a host that drains at most [n]
    before it ends needs [n + 1], a [write_all] a turn per byte and per interruption, of
    which a lawful writer has finitely many, and varints have at most ten groups; a wait of
    the daemon sleeps in every turn and gives up after 5 seconds, for which 51 turns are
    enough.
    Readers are arbitrary, or lawful, or streams that fail only at their end. Transports are
    arbitrary, or lawful ([LawfulTransport]: the documented contract of [io::Write]), or
    healthy ([ReliableTransport]: no error); [MockTransport] is all three. The clock is an
    arbitrary function (for [AdkEnds] one that passes, [LawfulHost]), a host of the kernel
    arbitrary closures over a state of its own, a [HashMap] is walked in any order
    ([LawfulHashOrder]), and [postcard] and [blake3] are parameters, a database is a table
    that keeps what was written ([LawfulSqlite]). A panic unwinds, as in the test profile; a
    release build aborts instead, which is what ends a pool of [Threads]. What the daemon does
    under a lock is one access.

    ** Not modelled

    The diagnostics of [adk], the schemas of [json.rs] and the serde implementations (calls
    into other crates), [Debug] formatting, and the thread of the ring's consumer after it is
    joined.  Sockets, files and [semver] are parameters. *)

From Stdlib Require Export ZArith Lia.
From stdpp Require Export base tactics option list numbers decidable strings sets.

(** ** Outcomes of Rust computations

    A Rust function that returns [Result<A, E>] either returns [Ok a], returns
    [Err e], or unwinds (an [assert!], an index out of bounds, a slice of a
    [str] inside a character).  [outcome] is that sum. *)

Inductive outcome (E A : Type) : Type :=
  | Ok (a : A)
  | Err (e : E)
  | Panicked.
Arguments Ok {E A} a.
Arguments Err {E A} e.
Arguments Panicked {E A}.

#[export] Instance outcome_eq_dec {E A} `{EqDecision E, EqDecision A} :
  EqDecision (outcome E A).
Proof. solve_decision. Defined.
#[export] Instance outcome_ret {E} : MRet (outcome E) := λ A a, Ok a.
#[export] Instance outcome_bind {E} : MBind (outcome E) := λ A B k o,
  match o with
  | Ok a => k a
  | Err e => Err e
  | Panicked => Panicked
  end.

(** [opt.ok_or(e)] of the Rust standard library. *)
Definition ok_or {E A : Type} (o : option A) (e : E) : outcome E A :=
  match o with
  | Some a => Ok a
  | None => Err e
  end.

(** Array indexing [a[i]] and [opt.expect(..)]: they unwind when there is no
    such element. *)
Definition or_panic {E A : Type} (o : option A) : outcome E A :=
  match o with
  | Some a => Ok a
  | None => Panicked
  end.

Definition is_ok {E A : Type} (o : outcome E A) : bool :=
  match o with
  | Ok _ => true
  | _ => false
  end.

(** ** Commands: methods taking [&mut self]

    [cmd S E A] is a method on a mutable receiver of type [S].  The state after
    an error or an unwind is kept: Rust keeps it too, and [Drop] sees it. *)

Definition cmd (S E A : Type) : Type := S → outcome E A * S.

#[export] Instance cmd_ret {S E} : MRet (cmd S E) := λ A a s, (Ok a, s).
#[export] Instance cmd_bind {S E} : MBind (cmd S E) := λ A B k c s,
  match c s with
  | (Ok a, s') => k a s'
  | (Err e, s') => (Err e, s')
  | (Panicked, s') => (Panicked, s')
  end.

Definition read {S E A : Type} (f : S → A) : cmd S E A := λ s, (Ok (f s), s).
Definition modify {S E : Type} (f : S → S) : cmd S E unit := λ s, (Ok tt, f s).
Definition raise {S E A : Type} (e : E) : cmd S E A := λ s, (Err e, s).
Definition unwind {S E A : Type} : cmd S E A := λ s, (Panicked, s).

(** Run a computation that does not touch the receiver. *)
Definition lift {S E A : Type} (o : outcome E A) : cmd S E A := λ s, (o, s).

(** Run a method of a field of the receiver. *)
Definition zoom {S F E A : Type} (get : S → F) (set : F → S → S)
    (c : cmd F E A) : cmd S E A :=
  λ s, let '(o, f) := c (get s) in (o, set f s).

(** A guard whose [Drop] runs [cleanup] unless the body completed and disarmed
    it; the cleanup's own error is discarded ([let _ = ..]), its unwind is not. *)
Definition guarded {S E A : Type} (c : cmd S E A) (cleanup : cmd S E unit) :
    cmd S E A :=
  λ s, match c s with
       | (Ok a, s') => (Ok a, s')
       | (o, s') =>
           match cleanup s' with
           | (Panicked, s'') => (Panicked, s'')
           | (_, s'') => (o, s'')
           end
       end.

(** [let _ = c;] on a [Result], as statements that discard an error do. *)
Definition ignore_err {S E A : Type} (c : cmd S E A) : cmd S E unit :=
  λ s, match c s with
       | (Panicked, s') => (Panicked, s')
       | (_, s') => (Ok tt, s')
       end.

(** [for x in xs { body(x)?; }] *)
Fixpoint for_each {S E X : Type} (xs : list X) (body : X → cmd S E unit) :
    cmd S E unit :=
  match xs with
  | [] => mret tt
  | x :: xs' => body x ≫= λ _, for_each xs' body
  end.

(** [c.map_err(..)], where the closure may unwind. *)
Definition catch {S E E' A} (c : cmd S E A) (h : E → cmd S E' A) : cmd S E' A := λ s,
  match c s with
  | (Ok a, s') => (Ok a, s')
  | (Err e, s') => h e s'
  | (Panicked, s') => (Panicked, s')
  end.
Definition map_err {S E E' A} (f : E → E') (c : cmd S E A) : cmd S E' A :=
  catch c (λ e, raise (f e)).

Arguments read {S E A} f s /.
Arguments modify {S E} f s /.
Arguments raise {S E A} e s /.
Arguments unwind {S E A} s /.
Arguments lift {S E A} o s /.


(** ** Notations of the development *)

Declare Scope rust_scope.
Delimit Scope rust_scope with rust.

(** Two methods that behave alike from every state. *)
Definition cmd_equiv {S E A : Type} (c d : cmd S E A) : Prop := ∀ s, c s = d s.

(** Partial-correctness triples over the outcome and the final state. *)
Definition triple {S E A : Type} (P : S → Prop) (c : cmd S E A)
    (Q : outcome E A → S → Prop) : Prop :=
  ∀ s, P s → Q (c s).1 (c s).2.

(** [stable R c]: whatever its outcome, [c] moves the state along [R]. *)
Definition stable {S E A : Type} (R : S → S → Prop) (c : cmd S E A) : Prop :=
  ∀ s, R s (c s).2.

Notation "c ≅ d" := (cmd_equiv c d) (at level 70, no associativity) : rust_scope.
Notation "P ⟪ c ⟫ Q" := (triple P c Q)
  (at level 70, c at level 200, no associativity) : rust_scope.
#[global] Open Scope rust_scope.

(** ** The command monad: laws, setoid rewriting *)

#[export] Instance cmd_equiv_equivalence {S E A} :
  Equivalence (@cmd_equiv S E A).
Proof.
  split.
  - intros c s; done.
  - intros c d H s; by rewrite H.
  - intros c d e H1 H2 s; by rewrite H1.
Qed.

#[export] Instance cmd_bind_proper {S E A B} :
  Proper (pointwise_relation A (@cmd_equiv S E B) ==> cmd_equiv ==> cmd_equiv)
    (mbind (M := cmd S E)).
Proof.
  intros k1 k2 Hk c1 c2 Hc s. unfold mbind, cmd_bind. rewrite Hc.
  destruct (c2 s) as [[a|e|] s']; [apply Hk|done|done].
Qed.

Section CmdLaws.
Context {S E : Type}.

Lemma cmd_ret_bind {A B} (a : A) (k : A → cmd S E B) : (mret a ≫= k) ≅ k a.
Proof. intros s; done. Qed.

Lemma cmd_bind_ret {A} (c : cmd S E A) : (c ≫= mret) ≅ c.
Proof. intros s. unfold mbind, cmd_bind. by destruct (c s) as [[]]. Qed.

Lemma cmd_bind_assoc {A B C} (c : cmd S E A) (k : A → cmd S E B) (h : B → cmd S E C) :
  ((c ≫= k) ≫= h) ≅ (c ≫= λ a, k a ≫= h).
Proof. intros s. unfold mbind, cmd_bind. by destruct (c s) as [[]]. Qed.

Lemma bind_ok {A B} (c : cmd S E A) (k : A → cmd S E B) s a s' :
  c s = (Ok a, s') → (c ≫= k) s = k a s'.
Proof. intros H. unfold mbind, cmd_bind. by rewrite H. Qed.

Lemma bind_err {A B} (c : cmd S E A) (k : A → cmd S E B) s e s' :
  c s = (Err e, s') → (c ≫= k) s = (Err e, s').
Proof. intros H. unfold mbind, cmd_bind. by rewrite H. Qed.

Lemma bind_ok_inv {A B} (c : cmd S E A) (k : A → cmd S E B) s b s'' :
  (c ≫= k) s = (Ok b, s'') → ∃ a s', c s = (Ok a, s') ∧ k a s' = (Ok b, s'').
Proof.
  unfold mbind, cmd_bind. destruct (c s) as [[a|e|] s']; intros H; simplify_eq.
  eauto.
Qed.

Lemma for_each_cons {X} (x : X) (xs : list X) (body : X → cmd S E unit) s :
  for_each (x :: xs) body s =
  match body x s with
  | (Ok _, s') => for_each xs body s'
  | (Err e, s') => (Err e, s')
  | (Panicked, s') => (Panicked, s')
  end.
Proof. done. Qed.

Lemma for_each_app {X} (l l' : list X) (f : X → cmd S E unit) :
  for_each (l ++ l') f ≅ (for_each l f;; for_each l' f).
Proof.
  induction l as [|x l IH]; intros s; cbn [app for_each]; [done|].
  rewrite (cmd_bind_assoc (f x) _ _ s). unfold mbind, cmd_bind.
  destruct (f x s) as [[a|e|] s']; [|done..]. apply IH.
Qed.

(** Rules for triples. *)
Lemma triple_ret {A} (P : S → Prop) (a : A) (Q : outcome E A → S → Prop) :
  (∀ s, P s → Q (Ok a) s) → P ⟪ mret a ⟫ Q.
Proof. intros H s Hs. by apply H. Qed.

Lemma triple_bind {A B} (P : S → Prop) (c : cmd S E A) (k : A → cmd S E B)
    (R : A → S → Prop) (Q : outcome E B → S → Prop) :
  P ⟪ c ⟫ (λ o s, match o with Ok a => R a s | Err e => Q (Err e) s
               | Panicked => Q Panicked s end) →
  (∀ a, R a ⟪ k a ⟫ Q) →
  P ⟪ c ≫= k ⟫ Q.
Proof.
  intros Hc Hk s Hs. specialize (Hc s Hs). unfold mbind, cmd_bind.
  destruct (c s) as [[a|e|] s']; [by apply Hk|done|done].
Qed.

Lemma triple_conseq {A} (P P' : S → Prop) (c : cmd S E A) (Q Q' : outcome E A → S → Prop) :
  P' ⟪ c ⟫ Q' → (∀ s, P s → P' s) → (∀ o s, Q' o s → Q o s) → P ⟪ c ⟫ Q.
Proof. intros H HP HQ s Hs. by apply HQ, H, HP. Qed.

(** Rules for stability along a preorder. *)
Section Stable.
Context (R : S → S → Prop) `{!PreOrder R}.

Lemma stable_ret {A} (a : A) : stable (E := E) R (mret a).
Proof. intros s. cbn. reflexivity. Qed.

Lemma stable_bind {A B} (c : cmd S E A) (k : A → cmd S E B) :
  stable R c → (∀ a, stable R (k a)) → stable R (c ≫= k).
Proof.
  intros Hc Hk s. specialize (Hc s). unfold mbind, cmd_bind.
  destruct (c s) as [[a|e|] s']; [|done|done].
  etrans; [apply Hc|apply Hk].
Qed.

Lemma stable_raise {A} (e : E) : stable (A := A) R (raise e).
Proof. intros s; cbn; reflexivity. Qed.

Lemma stable_lift {A} (o : outcome E A) : stable R (lift o).
Proof. intros s; cbn; reflexivity. Qed.

Lemma stable_read {A} (f : S → A) : stable (E := E) R (read f).
Proof. intros s; cbn; reflexivity. Qed.

Lemma stable_guarded {A} (c : cmd S E A) (d : cmd S E unit) :
  stable R c → stable R d → stable R (guarded c d).
Proof.
  intros Hc Hd s. specialize (Hc s). unfold guarded.
  destruct (c s) as [[a|e|] s']; [done| |];
    (specialize (Hd s'); destruct (d s') as [[]]; etrans; eauto).
Qed.

Lemma stable_ignore_err {A} (c : cmd S E A) : stable R c → stable R (ignore_err c).
Proof. intros Hc s. specialize (Hc s). unfold ignore_err. by destruct (c s) as [[]]. Qed.

Lemma stable_for_each {X} (xs : list X) (body : X → cmd S E unit) :
  (∀ x, stable R (body x)) → stable R (for_each xs body).
Proof. intros Hb. induction xs; cbn; [apply stable_ret|by apply stable_bind]. Qed.
End Stable.

(** [keeps I Q c]: [c] preserves the invariant [I], and its result satisfies [Q]. *)
Definition keeps {A} (I : S → Prop) (Q : A → Prop) (c : cmd S E A) : Prop :=
  ∀ s, I s → I (c s).2 ∧ ∀ a, (c s).1 = Ok a → Q a.

Section Keeps.
Context (I : S → Prop).

Lemma keeps_ret {A} (Q : A → Prop) a : Q a → keeps I Q (mret a).
Proof. intros H s Hs. split; [done|]. by intros b [= <-]. Qed.

Lemma keeps_raise {A} (Q : A → Prop) (e : E) : keeps I Q (raise e).
Proof. by intros s Hs. Qed.

Lemma keeps_unwind {A} (Q : A → Prop) : keeps I Q unwind.
Proof. by intros s Hs. Qed.

Lemma keeps_lift {A} (Q : A → Prop) (o : outcome E A) :
  (∀ a, o = Ok a → Q a) → keeps I Q (lift o).
Proof. by intros H s Hs. Qed.

Lemma keeps_read {A} (Q : A → Prop) (f : S → A) :
  (∀ s, I s → Q (f s)) → keeps I Q (read f).
Proof. intros H s Hs. split; [done|]. intros a [= <-]. by apply H. Qed.

Lemma keeps_modify (f : S → S) : (∀ s, I s → I (f s)) → keeps I (λ _, True) (modify f).
Proof. intros H s Hs. split; [by apply H|done]. Qed.

Lemma keeps_bind {A B} (Q : A → Prop) (Q' : B → Prop) (c : cmd S E A) (k : A → cmd S E B) :
  keeps I Q c → (∀ a, Q a → keeps I Q' (k a)) → keeps I Q' (c ≫= k).
Proof.
  intros Hc Hk s Hs. destruct (Hc s Hs) as [HI HQ]. unfold mbind, cmd_bind.
  destruct (c s) as [[a|e|] s']; [|done|done]. by apply Hk; [apply HQ|].
Qed.

Lemma keeps_weaken {A} (Q Q' : A → Prop) (c : cmd S E A) :
  keeps I Q c → (∀ a, Q a → Q' a) → keeps I Q' c.
Proof. intros Hc H s Hs. destruct (Hc s Hs) as [? HQ]. split; [done|]. eauto. Qed.

Lemma keeps_for_each {X} (xs : list X) (body : X → cmd S E unit) :
  Forall (λ x, keeps I (λ _, True) (body x)) xs → keeps I (λ _, True) (for_each xs body).
Proof.
  induction 1; cbn; [by apply keeps_ret|]. eapply keeps_bind; [done|]. by intros _ _.
Qed.

Lemma keeps_ignore_err {A} (Q : A → Prop) (c : cmd S E A) :
  keeps I Q c → keeps I (λ _, True) (ignore_err c).
Proof.
  intros Hc s Hs. destruct (Hc s Hs) as [HI _]. unfold ignore_err.
  by destruct (c s) as [[a|e|] s'].
Qed.

Lemma keeps_guarded {A} (Q : A → Prop) Q' (c : cmd S E A) (d : cmd S E unit) :
  keeps I Q c → keeps I Q' d → keeps I Q (guarded c d).
Proof.
  intros Hc Hd s Hs. destruct (Hc s Hs) as [HI HQ]. unfold guarded.
  destruct (c s) as [[a|e|] s']; [done|..]; destruct (Hd s' HI) as [HI' _];
    by destruct (d s') as [[b|e'|] s''].
Qed.
End Keeps.
End CmdLaws.

(** An invariant of a field's method is one of the receiver's. *)
Lemma keeps_zoom {S F E A} (I : S → Prop) (J : F → Prop) (Q : A → Prop)
    (get : S → F) (set : F → S → S) (c : cmd F E A) :
  (∀ s, I s → J (get s)) → (∀ s f, I s → J f → I (set f s)) →
  keeps J Q c → keeps I Q (zoom get set c).
Proof.
  intros Hget Hset Hc s Hs. destruct (Hc (get s) (Hget s Hs)) as [HJ HQ]. unfold zoom.
  destruct (c (get s)) as [o f]. split; [by apply Hset|done].
Qed.

Lemma stable_zoom {S F E A} (RF : F → F → Prop) (R : S → S → Prop)
    (get : S → F) (set : F → S → S) (c : cmd F E A) :
  (∀ s f, RF (get s) f → R s (set f s)) → stable RF c → stable R (zoom get set c).
Proof.
  intros HR Hc s. specialize (Hc (get s)). unfold zoom.
  destruct (c (get s)) as [o f]. by apply HR.
Qed.

Create HintDb rust.
Create Rewrite HintDb rust.
#[export] Hint Resolve stable_ret stable_bind stable_raise stable_lift stable_read
  stable_guarded stable_ignore_err stable_for_each : rust.

(** ** Automation *)

(** Case analysis on every scrutinee of the goal, dropping the impossible cases. *)
Ltac split_cases :=
  repeat first [case_match | case_decide]; simplify_eq/=; try done.

(** Peel the successful prefix of a run [(c ≫= k) s = (Ok a, s')]. *)
Ltac ok_inv H :=
  lazymatch type of H with
  | (_ ≫= _) _ = (Ok _, _) =>
      let a := fresh "a" in let s := fresh "s" in
      let H1 := fresh "Hrun" in let H2 := fresh "Hrest" in
      apply bind_ok_inv in H as (a & s & H1 & H2)
  end.

(** Execute the commands at the head of a run. *)
Ltac run :=
  unfold mbind, cmd_bind, mret, cmd_ret, modify, read, lift, raise, unwind; cbn beta iota.

(** ** Lists *)

(** Proof by exhaustion over the integers of an interval starting at 0: the
    premise is a closed boolean, decided by evaluation. *)
Definition below (n : nat) : list Z := Z.of_nat <$> seq 0 n.

Lemma forall_below (n : nat) (P : Z → Prop) `{∀ z, Decision (P z)} :
  forallb (λ z, bool_decide (P z)) (below n) = true →
  ∀ z, (0 ≤ z < Z.of_nat n)%Z → P z.
Proof.
  intros HF z Hz. rewrite forallb_forall in HF.
  apply (bool_decide_unpack _). rewrite HF; [done|].
  unfold below. apply in_map_iff. exists (Z.to_nat z).
  split; [by rewrite Z2Nat.id by lia|]. apply in_seq. lia.
Qed.

(** [exhaust n]: the goal is [∀ z, 0 ≤ z < n → P z] with [P] decidable. *)
Ltac exhaust n :=
  lazymatch goal with
  | |- ∀ z : Z, @?R z → @?P z =>
      refine (@forall_below n P _ _); vm_compute; reflexivity
  end.

Lemma filter_all {A} (P : A → Prop) `{∀ x, Decision (P x)} (l : list A) :
  Forall P l → filter P l = l.
Proof. induction 1; [done|]. rewrite filter_cons_True by done. by f_equal. Qed.
