(* ===== verification/Words.v ===== *)
(** * Machine integers and their byte encodings

    Rust's fixed-width integers are values of [Z] with their range; an [as] cast
    is reduction modulo the width ([wrap], [swrap]).  [be_bytes]/[le_bytes] are
    [to_be_bytes]/[to_le_bytes], [be_val]/[le_val] their inverses.  Bytes are
    values of [Z] in [0, 256). *)

From S2P Require Import Prelude.
Local Open Scope Z_scope.

Abbreviation byte := Z (only parsing).
Abbreviation bytes := (list Z) (only parsing).

(** ** Widths *)

(** The value of [z as uN]. *)
Definition wrap (w : Z) (z : Z) : Z := z mod 2 ^ w.

(** The value of [z as iN]. *)
Definition swrap (w : Z) (z : Z) : Z :=
  let u := wrap w z in if u <? 2 ^ (w - 1) then u else u - 2 ^ w.

Definition in_unsigned (w z : Z) : Prop := 0 ≤ z < 2 ^ w.
Definition in_signed (w z : Z) : Prop := - 2 ^ (w - 1) ≤ z < 2 ^ (w - 1).

Abbreviation u8 := (in_unsigned 8).
Abbreviation u16 := (in_unsigned 16).
Abbreviation u32 := (in_unsigned 32).
Abbreviation u64 := (in_unsigned 64).
Abbreviation i16 := (in_signed 16).
Abbreviation i32 := (in_signed 32).

Definition is_bytes (l : bytes) : Prop := Forall (λ b, u8 b) l.

#[export] Instance in_unsigned_dec w z : Decision (in_unsigned w z).
Proof. unfold in_unsigned. apply _. Defined.
#[export] Instance in_signed_dec w z : Decision (in_signed w z).
Proof. unfold in_signed. apply _. Defined.
#[export] Instance is_bytes_dec l : Decision (is_bytes l).
Proof. unfold is_bytes. apply _. Defined.

(** Make the numeric bounds of the common widths visible to [lia]. *)
Ltac widths :=
  unfold in_unsigned, in_signed in *;
  change (2 ^ 8) with 256 in *; change (2 ^ 16) with 65536 in *;
  change (2 ^ (16 - 1)) with 32768 in *;
  change (2 ^ 32) with 4294967296 in *; change (2 ^ (32 - 1)) with 2147483648 in *;
  change (2 ^ 64) with 18446744073709551616 in *.

Lemma wrap_range w z : 0 ≤ w → in_unsigned w (wrap w z).
Proof. intros. apply Z.mod_pos_bound. by apply Z.pow_pos_nonneg. Qed.

Lemma wrap_small w z : in_unsigned w z → wrap w z = z.
Proof. apply Z.mod_small. Qed.

Lemma wrap_add w z n : 0 ≤ w → wrap w (wrap w z + n) = wrap w (z + n).
Proof. intros Hw. unfold wrap. rewrite Z.add_mod_idemp_l; [done|]. by apply Z.pow_nonzero. Qed.

Lemma swrap_range w z : 0 < w → in_signed w (swrap w z).
Proof.
  intros Hw. unfold swrap, in_signed.
  pose proof (wrap_range w z ltac:(lia)) as [H1 H2].
  assert (2 ^ w = 2 * 2 ^ (w - 1)) as Hp.
  { rewrite <-Z.pow_succ_r by lia. f_equal; lia. }
  destruct (Z.ltb_spec (wrap w z) (2 ^ (w - 1))); lia.
Qed.

Lemma swrap_small w z : 0 < w → in_signed w z → swrap w z = z.
Proof.
  intros Hw [H1 H2]. unfold swrap, wrap.
  assert (2 ^ w = 2 * 2 ^ (w - 1)) as Hp.
  { rewrite <-Z.pow_succ_r by lia. f_equal; lia. }
  destruct (decide (0 ≤ z)).
  - rewrite Z.mod_small by lia. destruct (Z.ltb_spec z (2 ^ (w - 1))); lia.
  - replace (z mod 2 ^ w) with (z + 2 ^ w).
    + destruct (Z.ltb_spec (z + 2 ^ w) (2 ^ (w - 1))); lia.
    + apply (Z.mod_unique_pos _ _ (-1)); lia.
Qed.

Lemma swrap_wrap w z : 0 < w → swrap w (wrap w z) = swrap w z.
Proof.
  intros. unfold swrap, wrap. by rewrite Z.mod_mod by (apply Z.pow_nonzero; lia).
Qed.

Lemma wrap_swrap w z : 0 < w → in_unsigned w z → wrap w (swrap w z) = z.
Proof.
  intros Hw Hz. unfold swrap. rewrite (wrap_small w z) by done. cbv zeta. destruct (Z.ltb_spec z (2 ^ (w - 1))).
  - by apply wrap_small.
  - unfold wrap, in_unsigned in *. symmetry. apply (Z.mod_unique_pos _ _ (-1)); lia.
Qed.

(** ** Big-endian and little-endian bytes *)

Fixpoint le_bytes (n : nat) (z : Z) : bytes :=
  match n with
  | O => []
  | S n' => z mod 256 :: le_bytes n' (z / 256)
  end.

Fixpoint le_val (l : bytes) : Z :=
  match l with
  | [] => 0
  | b :: l' => b + 256 * le_val l'
  end.

Definition be_bytes (n : nat) (z : Z) : bytes := reverse (le_bytes n z).
Definition be_val (l : bytes) : Z := le_val (reverse l).

Lemma length_le_bytes n z : length (le_bytes n z) = n.
Proof. revert z; induction n; intros; cbn; auto. Qed.

Lemma length_be_bytes n z : length (be_bytes n z) = n.
Proof. unfold be_bytes. by rewrite length_reverse, length_le_bytes. Qed.

Lemma is_bytes_le_bytes n z : is_bytes (le_bytes n z).
Proof.
  unfold is_bytes. revert z; induction n; intros; cbn; constructor; [|done].
  apply Z.mod_pos_bound; lia.
Qed.

Lemma is_bytes_be_bytes n z : is_bytes (be_bytes n z).
Proof. apply Forall_reverse, is_bytes_le_bytes. Qed.

Lemma le_val_bytes n z : le_val (le_bytes n z) = z mod 256 ^ Z.of_nat n.
Proof.
  revert z; induction n as [|n IH]; intros z; cbn [le_bytes le_val].
  { by rewrite Z.mod_1_r. }
  rewrite IH, Nat2Z.inj_succ, Z.pow_succ_r by lia.
  rewrite Z.rem_mul_r; [lia|lia|apply Z.pow_pos_nonneg; lia].
Qed.

Lemma be_val_bytes n z : be_val (be_bytes n z) = z mod 256 ^ Z.of_nat n.
Proof. unfold be_val, be_bytes. by rewrite reverse_involutive, le_val_bytes. Qed.

Lemma le_bytes_val l : is_bytes l → le_bytes (length l) (le_val l) = l.
Proof.
  induction 1 as [|b l Hb _ IH]; cbn [length le_bytes le_val]; [done|].
  unfold in_unsigned in Hb. change (2 ^ 8) with 256 in Hb. f_equal.
  - rewrite Z.mul_comm, Z.mod_add by lia. by apply Z.mod_small.
  - rewrite Z.mul_comm, Z.div_add, Z.div_small by lia. done.
Qed.

Lemma be_bytes_val l : is_bytes l → be_bytes (length l) (be_val l) = l.
Proof.
  intros H. unfold be_bytes, be_val.
  rewrite <-(length_reverse l), le_bytes_val, reverse_involutive; [done|].
  by apply Forall_reverse.
Qed.

Lemma le_val_range l : is_bytes l → 0 ≤ le_val l < 256 ^ Z.of_nat (length l).
Proof.
  induction 1 as [|b l Hb _ IH]; cbn [length le_val]; [done|].
  rewrite Nat2Z.inj_succ, Z.pow_succ_r by lia.
  unfold in_unsigned in Hb. change (2 ^ 8) with 256 in Hb. lia.
Qed.

Lemma be_val_bytes_id n z : 0 ≤ z < 256 ^ Z.of_nat n → be_val (be_bytes n z) = z.
Proof. intros. rewrite be_val_bytes. by apply Z.mod_small. Qed.

Lemma le_val_bytes_id n z : 0 ≤ z < 256 ^ Z.of_nat n → le_val (le_bytes n z) = z.
Proof. intros. rewrite le_val_bytes. by apply Z.mod_small. Qed.

Lemma be_bytes_1 z : u8 z → be_bytes 1 z = [z].
Proof.
  intros H. unfold be_bytes. cbn [le_bytes]. by rewrite Z.mod_small by (widths; lia).
Qed.

(** Reading [n] bytes off the front of a stream. *)
Definition split_bytes (n : nat) (l : bytes) : option (bytes * bytes) :=
  if decide (n ≤ length l)%nat then Some (take n l, drop n l) else None.

Lemma split_bytes_app n l1 l2 :
  length l1 = n → split_bytes n (l1 ++ l2) = Some (l1, l2).
Proof.
  intros <-. unfold split_bytes. rewrite decide_True by (rewrite length_app; lia).
  by rewrite take_app_length, drop_app_length.
Qed.

Lemma split_bytes_inv n l l1 l2 :
  split_bytes n l = Some (l1, l2) → l = l1 ++ l2 ∧ length l1 = n.
Proof.
  unfold split_bytes. intros; case_decide; simplify_eq.
  rewrite length_take, take_drop. split; [done|lia].
Qed.

#[global] Arguments be_bytes : simpl never.
#[global] Arguments le_bytes : simpl never.
#[global] Arguments wrap : simpl never.
#[global] Arguments swrap : simpl never.
#[export] Hint Resolve is_bytes_be_bytes is_bytes_le_bytes wrap_range swrap_range : rust.
#[export] Hint Rewrite length_be_bytes length_le_bytes : rust.
