(* ===== verification/Utf8.v ===== *)
(** * Rust strings as bytes

    A [str] is a byte list that is the UTF-8 encoding of a list of [char]s
    (Unicode scalar values).  What the crate uses of [str]: its bytes and length,
    [&s[..n]] (which unwinds when [n] is not on a character boundary), [chars()],
    and [String::from_utf8]. *)

From S2P Require Import Prelude Words.
Local Open Scope Z_scope.

Abbreviation str := (list Z) (only parsing).

(** A [char]: a code point below 0x110000 outside the surrogate range. *)
Definition is_char (c : Z) : Prop := 0 ≤ c < 0xD800 ∨ 0xE000 ≤ c < 0x110000.
#[export] Instance is_char_dec c : Decision (is_char c).
Proof. unfold is_char. apply _. Defined.

(** [char::encode_utf8]. *)
Definition encode_char (c : Z) : bytes :=
  if c <? 0x80 then [c]
  else if c <? 0x800 then [0xC0 + c / 64; 0x80 + c mod 64]
  else if c <? 0x10000 then
    [0xE0 + c / 4096; 0x80 + (c / 64) mod 64; 0x80 + c mod 64]
  else
    [0xF0 + c / 262144; 0x80 + (c / 4096) mod 64; 0x80 + (c / 64) mod 64;
     0x80 + c mod 64].

Definition encode (cs : list Z) : str := cs ≫= encode_char.

Definition is_str (s : str) : Prop := ∃ cs, Forall is_char cs ∧ s = encode cs.

(** One step of a strict UTF-8 decoder: the first character and the rest. *)
Definition continuation (b : Z) : option Z :=
  if (0x80 <=? b) && (b <? 0xC0) then Some (b - 0x80) else None.

Definition next_char (s : bytes) : option (Z * bytes) :=
  match s with
  | [] => None
  | b :: s =>
      if b <? 0x80 then Some (b, s)
      else if b <? 0xC0 then None
      else if b <? 0xE0 then
        match s with
        | y :: s =>
            y ← continuation y;
            let c := (b - 0xC0) * 64 + y in
            if 0x80 <=? c then Some (c, s) else None
        | _ => None
        end
      else if b <? 0xF0 then
        match s with
        | y :: z :: s =>
            y ← continuation y; z ← continuation z;
            let c := (b - 0xE0) * 4096 + y * 64 + z in
            if (0x800 <=? c) && bool_decide (is_char c) then Some (c, s) else None
        | _ => None
        end
      else
        match s with
        | y :: z :: w :: s =>
            y ← continuation y; z ← continuation z; w ← continuation w;
            let c := (b - 0xF0) * 262144 + y * 4096 + z * 64 + w in
            if (0x10000 <=? c) && bool_decide (is_char c) then Some (c, s) else None
        | _ => None
        end
  end.

(** [s.chars()], and [None] where [String::from_utf8] refuses [s].  Each step
    consumes a byte, so the length is enough fuel. *)
Fixpoint chars_fuel (fuel : nat) (s : bytes) : option (list Z) :=
  match fuel, s with
  | _, [] => Some []
  | O, _ => None
  | S fuel, _ =>
      '(c, s) ← next_char s;
      cs ← chars_fuel fuel s;
      Some (c :: cs)
  end.
Definition chars (s : bytes) : option (list Z) := chars_fuel (length s) s.

(** [s.is_char_boundary(n)]: the ends, or a byte that starts a character. *)
Definition is_char_boundary (s : str) (n : nat) : bool :=
  match n with
  | O => true
  | _ => match s !! n with
         | None => Nat.eqb n (length s)
         | Some b => (b <? 0x80) || (0xC0 <=? b)
         end
  end.

(** [&s[..n]] *)
Definition str_prefix {E} (s : str) (n : nat) : outcome E str :=
  if is_char_boundary s n then Ok (take n s) else Panicked.

(** ** Lemmas *)

Lemma encode_cons c cs : encode (c :: cs) = encode_char c ++ encode cs.
Proof. done. Qed.

Lemma encode_char_nonempty c : encode_char c ≠ [].
Proof. unfold encode_char. by repeat case_match. Qed.

Lemma encode_char_bytes c : is_char c → is_bytes (encode_char c).
Proof.
  unfold is_char, encode_char, is_bytes. intros Hc.
  repeat (case_match; [|]);
    repeat match goal with
      | H : (_ <? _) = true |- _ => apply Z.ltb_lt in H
      | H : (_ <? _) = false |- _ => apply Z.ltb_ge in H end;
    repeat (apply Forall_cons; split); try apply Forall_nil; trivial;
    widths; Z.div_mod_to_equations; lia.
Qed.

Lemma encode_bytes cs : Forall is_char cs → is_bytes (encode cs).
Proof.
  induction 1 as [|c cs Hc _ IH]; [by constructor|].
  rewrite encode_cons. apply Forall_app. split; [by apply encode_char_bytes|done].
Qed.

Lemma continuation_mod c : continuation (0x80 + c mod 64) = Some (c mod 64).
Proof.
  unfold continuation. pose proof (Z.mod_pos_bound c 64).
  rewrite (proj2 (Z.leb_le _ _)), (proj2 (Z.ltb_lt _ _)) by lia. cbn. f_equal. lia.
Qed.

Lemma next_char_encode c s : is_char c → next_char (encode_char c ++ s) = Some (c, s).
Proof.
  intros Hc. unfold encode_char.
  destruct (Z.ltb_spec c 0x80) as [H1|H1]; cbn.
  { by rewrite (proj2 (Z.ltb_lt _ _) H1). }
  destruct (Z.ltb_spec c 0x800) as [H2|H2]; cbn.
  { rewrite (proj2 (Z.ltb_ge (0xC0 + _) 0x80)), (proj2 (Z.ltb_ge (0xC0 + _) 0xC0)),
      (proj2 (Z.ltb_lt (0xC0 + _) _)) by (Z.div_mod_to_equations; lia).
    rewrite continuation_mod. cbn.
    replace ((0xC0 + c / 64 - 0xC0) * 64 + c mod 64) with c
      by (Z.div_mod_to_equations; lia).
    by rewrite (proj2 (Z.leb_le _ _) H1). }
  destruct (Z.ltb_spec c 0x10000) as [H3|H3]; cbn.
  { rewrite (proj2 (Z.ltb_ge (0xE0 + _) 0x80)), (proj2 (Z.ltb_ge (0xE0 + _) 0xC0)),
      (proj2 (Z.ltb_ge (0xE0 + _) 0xE0)), (proj2 (Z.ltb_lt (0xE0 + _) _)) by (Z.div_mod_to_equations; unfold is_char in Hc; lia).
    rewrite !continuation_mod. cbn.
    replace ((0xE0 + c / 4096 - 0xE0) * 4096 + (c / 64) mod 64 * 64 + c mod 64) with c
      by (Z.div_mod_to_equations; lia).
    by rewrite (proj2 (Z.leb_le _ _) H2), bool_decide_eq_true_2. }
  rewrite (proj2 (Z.ltb_ge (0xF0 + _) 0x80)), (proj2 (Z.ltb_ge (0xF0 + _) 0xC0)),
    (proj2 (Z.ltb_ge (0xF0 + _) 0xE0)), (proj2 (Z.ltb_ge (0xF0 + _) 0xF0)) by (Z.div_mod_to_equations; unfold is_char in Hc; lia).
  rewrite !continuation_mod. cbn.
  replace ((0xF0 + c / 262144 - 0xF0) * 262144 + (c / 4096) mod 64 * 4096
           + (c / 64) mod 64 * 64 + c mod 64) with c
    by (Z.div_mod_to_equations; lia).
  by rewrite (proj2 (Z.leb_le _ _) H3), bool_decide_eq_true_2.
Qed.

Lemma length_encode cs : (length cs ≤ length (encode cs))%nat.
Proof.
  induction cs as [|c cs IH]; [done|]. rewrite encode_cons, length_app.
  destruct (encode_char c) eqn:E; [by apply encode_char_nonempty in E|cbn; lia].
Qed.

Lemma chars_fuel_encode cs fuel :
  (length cs ≤ fuel)%nat → Forall is_char cs → chars_fuel fuel (encode cs) = Some cs.
Proof.
  intros Hf H. revert fuel Hf. induction H as [|c cs Hc _ IH]; intros fuel Hf.
  { by destruct fuel. }
  destruct fuel as [|fuel]; [cbn in Hf; lia|].
  rewrite encode_cons. cbn [chars_fuel]. destruct (encode_char c ++ encode cs) as [|b l] eqn:E.
  { by apply app_nil in E as [?%encode_char_nonempty _]. }
  rewrite <-E, next_char_encode by done. cbn. rewrite IH; [done|cbn in Hf; lia].
Qed.

(** Decoding inverts encoding. *)
Lemma chars_encode cs : Forall is_char cs → chars (encode cs) = Some cs.
Proof. intros. apply chars_fuel_encode; [apply length_encode|done]. Qed.

(** ASCII text is its own encoding, and every position is a boundary. *)
Definition is_ascii (s : bytes) : Prop := Forall (λ b, 0 ≤ b < 0x80) s.

Lemma encode_ascii s : is_ascii s → encode s = s.
Proof.
  induction 1 as [|c s Hc _ IH]; [done|]. rewrite encode_cons, IH.
  unfold encode_char. by rewrite (proj2 (Z.ltb_lt _ _)) by lia.
Qed.

Lemma ascii_is_str s : is_ascii s → is_str s.
Proof.
  intros H. exists s. rewrite encode_ascii by done. split; [|done].
  eapply Forall_impl; [done|]. unfold is_char. cbn. lia.
Qed.

Lemma ascii_boundary s n : is_ascii s → (n ≤ length s)%nat → is_char_boundary s n = true.
Proof.
  intros H Hn. unfold is_char_boundary. destruct n as [|n]; [done|].
  destruct (s !! S n) as [b|] eqn:E.
  - apply orb_true_iff. left. apply Z.ltb_lt.
    by apply (Forall_lookup_1 _ _ _ _ H E).
  - apply lookup_ge_None in E. apply Nat.eqb_eq. lia.
Qed.

Lemma str_is_bytes s : is_str s → is_bytes s.
Proof. intros (cs & Hcs & ->). by apply encode_bytes. Qed.
