(* ===== verification/Float32.v ===== *)
(** * [f32], and the operations of [f64]

    Rust's [f32] is IEEE binary32 with round-to-nearest-even arithmetic: the
    executable [spec_float] of the Standard Library at precision 24, [emax] 128
    (NaN payloads are not modelled; the crate never looks at them).  [as] casts
    truncate and saturate, NaN becomes 0.

    [val x] is the number a finite [x] stands for, in units of [2^-149], an
    integer; the [*_exact] lemmas say when an operation does not round, the [*_near] lemmas
    by how much it may. *)

From Stdlib Require Export SpecFloat.
From S2P Require Import Prelude Words.
Local Open Scope Z_scope.

Abbreviation f32 := spec_float (only parsing).

Definition fadd : f32 → f32 → f32 := SFadd 24 128.
Definition fsub : f32 → f32 → f32 := SFsub 24 128.
Definition fmul : f32 → f32 → f32 := SFmul 24 128.
Definition fdiv : f32 → f32 → f32 := SFdiv 24 128.
Definition flt : f32 → f32 → bool := SFltb.

(** [z as f32] *)
Definition f32_of_Z (z : Z) : f32 := binary_normalize 24 128 z 0 false.

(** [f32::clamp]: two comparisons, so that NaN stays NaN. *)
Definition fclamp (x lo hi : f32) : f32 :=
  let x := if flt x lo then lo else x in
  if flt hi x then hi else x.

(** The integer part, towards zero. *)
Definition to_Z (x : f32) : Z :=
  match x with
  | S754_finite s m e => cond_Zopp s (Z.shiftl (Z.pos m) e)
  | _ => 0
  end.

(** [f32::trunc] *)
Definition ftrunc (x : f32) : f32 :=
  match x with
  | S754_finite s m e => if 0 <=? e then x else binary_normalize 24 128 (to_Z x) 0 s
  | _ => x
  end.

(** [f32::round]: to the nearest integer, halves away from zero. *)
Definition fround (x : f32) : f32 :=
  match x with
  | S754_finite s m e =>
      if 0 <=? e then x
      else
        let n := (2 * Z.pos m + Z.shiftl 1 (- e)) / Z.shiftl 1 (1 - e) in
        binary_normalize 24 128 (cond_Zopp s n) 0 s
  | _ => x
  end.

(** [x as iN]/[x as uN] with range [lo, hi]. *)
Definition cast_sat (lo hi : Z) (x : f32) : Z :=
  match x with
  | S754_nan => 0
  | S754_infinity s => if s then lo else hi
  | _ => Z.max lo (Z.min hi (to_Z x))
  end.

Definition f32_as_u16 : f32 → Z := cast_sat 0 65535.
Definition f32_as_i16 : f32 → Z := cast_sat (-32768) 32767.
Definition f32_as_i8 : f32 → Z := cast_sat (-128) 127.
Definition f32_as_i32 : f32 → Z := cast_sat (-2147483648) 2147483647.

(** ** [f64]: binary64, at precision 53 *)

Abbreviation f64 := spec_float (only parsing).
Definition f64_of_Z (z : Z) : f64 := binary_normalize 53 1024 z 0 false.
Definition f64_add : f64 → f64 → f64 := SFadd 53 1024.
Definition f64_sub : f64 → f64 → f64 := SFsub 53 1024.
Definition f64_mul : f64 → f64 → f64 := SFmul 53 1024.
Definition f64_div : f64 → f64 → f64 := SFdiv 53 1024.

(** [f64::round] *)
Definition f64_round (x : f64) : f64 :=
  match x with
  | S754_finite s m e =>
      if 0 <=? e then x
      else binary_normalize 53 1024 (cond_Zopp s ((2 * Z.pos m + Z.shiftl 1 (- e)) / Z.shiftl 1 (1 - e))) 0 s
  | _ => x
  end.
Definition f64_as_usize : f64 → Z := cast_sat 0 (2 ^ 64 - 1).

#[export] Instance spec_float_eq_dec : EqDecision spec_float.
Proof. solve_decision. Defined.

Lemma cast_sat_range lo hi x : lo ≤ 0 ≤ hi → lo ≤ cast_sat lo hi x ≤ hi.
Proof. intros. destruct x as [[]|[]| |[]]; cbn -[to_Z]; lia. Qed.

(** ** Values *)

(** Finite and in canonical form, which every operation's result is. *)
Definition finite32 (x : f32) : Prop :=
  match x with
  | S754_zero _ => True
  | S754_finite _ _ _ => valid_binary 24 128 x = true
  | _ => False
  end.
#[export] Instance finite32_dec x : Decision (finite32 x).
Proof. destruct x; apply _. Defined.

Definition unit32 : Z := 2 ^ 149.

Definition val (x : f32) : Z :=
  match x with
  | S754_finite s m e => cond_Zopp s (Z.pos m * 2 ^ (e + 149))
  | _ => 0
  end.

(** A number with a 24-bit mantissa, in range. *)
Definition representable (v : Z) : Prop :=
  ∃ m k, v = m * 2 ^ k ∧ Z.abs m < 2 ^ 24 ∧ 0 ≤ k ≤ 253.

Lemma digits_log2 p : Z.pos (digits2_pos p) = Z.log2 (Z.pos p) + 1.
Proof.
  induction p as [p IH|p IH|]; [| |done]; cbn [digits2_pos];
    rewrite Pos2Z.inj_succ, IH.
  - rewrite (Pos2Z.inj_xI p), Z.log2_succ_double; lia.
  - rewrite (Pos2Z.inj_xO p), Z.log2_double; lia.
Qed.

Lemma fexp_eq e : fexp 24 128 e = Z.max (e - 24) (-149).
Proof. done. Qed.

Lemma finite32_bounds s m e :
  finite32 (S754_finite s m e) →
  Z.pos m < 2 ^ 24 ∧ -149 ≤ e ≤ 104 ∧ (e = -149 ∨ 2 ^ 23 ≤ Z.pos m).
Proof.
  cbn. unfold bounded, canonical_mantissa. rewrite fexp_eq, digits_log2.
  intros [H1%Z.eqb_eq H2%Z.leb_le]%andb_true_iff.
  pose proof (Z.log2_spec (Z.pos m) ltac:(lia)) as [Hl Hh].
  split_and!; [|lia|lia|].
  - eapply Z.lt_le_trans; [exact Hh|]. apply Z.pow_le_mono_r; lia.
  - destruct (decide (e = -149)); [by left|right].
    etrans; [|exact Hl]. apply Z.pow_le_mono_r; lia.
Qed.

Lemma finite32_intro s m e :
  Z.pos m < 2 ^ 24 → -149 ≤ e ≤ 104 → (e = -149 ∨ 2 ^ 23 ≤ Z.pos m) →
  finite32 (S754_finite s m e).
Proof.
  intros Hm He Hc. cbn. unfold bounded, canonical_mantissa.
  rewrite fexp_eq, digits_log2. apply andb_true_iff.
  rewrite Z.eqb_eq, Z.leb_le. split; [|lia].
  assert (Z.log2 (Z.pos m) < 24) by (apply Z.log2_lt_pow2; lia).
  destruct Hc as [->|Hc]; [lia|].
  apply Z.log2_le_mono in Hc. rewrite Z.log2_pow2 in Hc by lia. lia.
Qed.

(** ** Rounding leaves a representable number unchanged *)

Lemma shl_align_val m e e' :
  -149 ≤ e' ≤ e →
  Z.pos (shl_align m e e').1 = Z.pos m * 2 ^ (e - e') ∧ (shl_align m e e').2 = e'.
Proof.
  intros H. unfold shl_align. destruct (e' - e) as [|d|d] eqn:E; [|lia|].
  - replace (e - e') with 0 by lia. cbn. split; lia.
  - replace (e - e') with (Z.pos d) by lia. cbn [fst snd]. split; [|done].
    clear. induction d using Pos.peano_ind.
    + cbn. lia.
    + rewrite Pos.iter_succ, Pos2Z.inj_xO, IHd, Pos2Z.inj_succ, Z.pow_succ_r by lia. lia.
Qed.

Lemma shl_align_ge m e e' : e ≤ e' → shl_align m e e' = (m, e).
Proof. intros. unfold shl_align. destruct (e' - e) eqn:E; [done|done|lia]. Qed.

Lemma iter_pos_iter {A} (f : A → A) n x : SpecFloat.iter_pos f n x = Pos.iter f x n.
Proof.
  revert x. induction n as [n IH|n IH|]; intros x; cbn; [|by rewrite !IH|done].
  by rewrite !IH, <-!Pos.iter_swap.
Qed.

Lemma shr_exact n m :
  Pos.iter shr_1 {| shr_m := Z.pos m * 2 ^ Z.pos n; shr_r := false; shr_s := false |} n
  = {| shr_m := Z.pos m; shr_r := false; shr_s := false |}.
Proof.
  revert m. induction n using Pos.peano_ind; intros m.
  - by replace (Z.pos m * 2 ^ 1) with (Z.pos m~0) by lia.
  - rewrite Pos.iter_succ, Pos2Z.inj_succ, Z.pow_succ_r, Z.mul_assoc by lia.
    change (Z.pos m * 2) with (Z.pos (m * 2)). rewrite IHn.
    replace (m * 2)%positive with (m~0)%positive by lia. done.
Qed.

Definition exact_rec (m : Z) : shr_record :=
  {| shr_m := m; shr_r := false; shr_s := false |}.

Lemma shr_fexp_aligned s m e :
  finite32 (S754_finite s m e) →
  shr_fexp 24 128 (Z.pos m) e loc_Exact = (exact_rec (Z.pos m), e).
Proof.
  intros H. unfold shr_fexp. cbn in H. unfold bounded, canonical_mantissa in H.
  apply andb_true_iff in H as [H%Z.eqb_eq _]. cbn [Zdigits2]. by rewrite H, Z.sub_diag.
Qed.

Lemma shr_fexp_down m q e n :
  fexp 24 128 (Z.pos (digits2_pos m) + e) = e + Z.pos n →
  Z.pos m = Z.pos q * 2 ^ Z.pos n →
  shr_fexp 24 128 (Z.pos m) e loc_Exact = (exact_rec (Z.pos q), e + Z.pos n).
Proof.
  intros He Hm. unfold shr_fexp. cbn [Zdigits2]. rewrite He.
  replace (e + Z.pos n - e) with (Z.pos n) by lia. unfold shr.
  cbn [shr_record_of_loc]. f_equal. rewrite iter_pos_iter, Hm. apply shr_exact.
Qed.

(** The rounding step on a mantissa whose excess low bits are zero. *)
Lemma round_aux_exact s m e q e' :
  shr_fexp 24 128 (Z.pos m) e loc_Exact = (exact_rec (Z.pos q), e') →
  finite32 (S754_finite s q e') →
  binary_round_aux 24 128 s (Z.pos m) e loc_Exact = S754_finite s q e'.
Proof.
  intros E H. unfold binary_round_aux. rewrite E.
  cbn [exact_rec shr_m loc_of_shr_record round_nearest_even].
  rewrite (shr_fexp_aligned s) by done. cbn [exact_rec shr_m].
  apply finite32_bounds in H as (_ & H & _).
  change (128 - 24) with 104. by rewrite (proj2 (Z.leb_le _ _)) by lia.
Qed.

(** [binary_round] is exact on representable values. *)
Lemma binary_round_exact s m e :
  -149 ≤ e → representable (Z.pos m * 2 ^ (e + 149)) →
  ∃ x, binary_round 24 128 s m e = x ∧ finite32 x ∧
       val x = cond_Zopp s (Z.pos m * 2 ^ (e + 149)).
Proof.
  intros He (m0 & k & Heq & Hm0 & Hk). eexists; split; [done|].
  set (e' := fexp 24 128 (Z.pos (digits2_pos m) + e)).
  pose proof (fexp_eq (Z.pos (digits2_pos m) + e)) as He'. fold e' in He'.
  rewrite digits_log2 in He'.
  assert (0 < m0) as Hpos by nia.
  assert (Z.log2 (Z.pos m) + (e + 149) = Z.log2 m0 + k) as Hlog.
  { rewrite (Z.add_comm _ (e + 149)), (Z.add_comm _ k), <-!Z.log2_mul_pow2 by lia.
    by rewrite Heq. }
  assert (Z.log2 m0 < 24) by (apply Z.log2_lt_pow2; lia).
  pose proof (Z.log2_spec (Z.pos m) ltac:(lia)) as [Hl Hh].
  destruct (decide (e' ≤ e)) as [Hle|Hgt].
  - unfold binary_round. fold e'.
    destruct (shl_align_val m e e' ltac:(lia)) as [Hv Hv'].
    destruct (shl_align m e e') as [mz ez]; cbn [fst snd] in *; subst ez.
    assert (Z.log2 (Z.pos mz) = Z.log2 (Z.pos m) + (e - e')) as Hlz.
    { rewrite Hv, Z.log2_mul_pow2; lia. }
    assert (finite32 (S754_finite s mz e')) as Hf.
    { apply finite32_intro; [|lia|].
      - apply Z.log2_lt_pow2; lia.
      - destruct (decide (e' = -149)); [by left|right].
        apply Z.log2_le_pow2; lia. }
    rewrite (round_aux_exact s mz e' mz e') by eauto using shr_fexp_aligned. split; [done|].
    cbn [val]. rewrite Hv, <-Z.mul_assoc, <-Z.pow_add_r by lia.
    by replace (e - e' + (e' + 149)) with (e + 149) by lia.
  - unfold binary_round. fold e'. rewrite shl_align_ge by lia.
    assert (∃ q, Z.pos m = Z.pos q * 2 ^ (e' - e)) as [q Hq].
    { exists (Z.to_pos (m0 * 2 ^ (k - (e' + 149)))).
      rewrite Z2Pos.id by (apply Z.mul_pos_pos; [lia|apply Z.pow_pos_nonneg; lia]).
      apply (Z.mul_reg_r _ _ (2 ^ (e + 149))); [apply Z.pow_nonzero; lia|].
      rewrite Heq, <-!Z.mul_assoc, <-!Z.pow_add_r by lia. do 2 f_equal. lia. }
    destruct (e' - e) as [|n|n] eqn:En; [lia| |lia].
    assert (Z.log2 (Z.pos m) = Z.pos n + Z.log2 (Z.pos q)) as Hlq.
    { by rewrite Hq, Z.log2_mul_pow2. }
    assert (finite32 (S754_finite s q e')) as Hf.
    { apply finite32_intro; [|lia|].
      - apply Z.log2_lt_pow2; lia.
      - destruct (decide (e' = -149)); [by left|right].
        apply Z.log2_le_pow2; lia. }
    rewrite (round_aux_exact s m e q e'); [| |done].
    2: { replace e' with (e + Z.pos n) by lia. apply shr_fexp_down; [|done].
         fold e'. lia. }
    split; [done|]. cbn [val].
    rewrite Hq, <-Z.mul_assoc, <-Z.pow_add_r by lia.
    by replace (Z.pos n + (e + 149)) with (e' + 149) by lia.
Qed.

Lemma cond_Zopp_abs s z : Z.abs (cond_Zopp s z) = Z.abs z.
Proof. destruct s; cbn; lia. Qed.

Lemma representable_opp v : representable v → representable (- v).
Proof. intros (m & k & -> & Hm & Hk). exists (- m), k. split_and!; lia. Qed.

Lemma binary_normalize_exact m e s :
  -149 ≤ e → representable (m * 2 ^ (e + 149)) →
  finite32 (binary_normalize 24 128 m e s) ∧
  val (binary_normalize 24 128 m e s) = m * 2 ^ (e + 149).
Proof.
  intros He Hr. destruct m as [|m|m]; cbn [binary_normalize].
  - split; [done|cbn; lia].
  - destruct (binary_round_exact false m e He Hr) as (x & -> & Hf & ->). done.
  - apply representable_opp in Hr.
    replace (- (Z.neg m * 2 ^ (e + 149))) with (Z.pos m * 2 ^ (e + 149)) in Hr by lia.
    destruct (binary_round_exact true m e He Hr) as (x & -> & Hf & ->).
    split; [done|]. cbn [cond_Zopp]. lia.
Qed.

(** The mantissa of a summand, aligned to an exponent [ez] below its own. *)
Lemma aligned_val s m e ez :
  -149 ≤ ez ≤ e →
  cond_Zopp s (Z.pos (shl_align m e ez).1) * 2 ^ (ez + 149) = val (S754_finite s m e).
Proof.
  intros H. destruct (shl_align_val m e ez H) as [-> _]. cbn [val].
  replace (e + 149) with ((e - ez) + (ez + 149)) by lia.
  rewrite (Z.pow_add_r 2 (e - ez)) by lia. destruct s; cbn [cond_Zopp]; ring.
Qed.

Lemma val_nonzero s m e : finite32 (S754_finite s m e) → val (S754_finite s m e) ≠ 0.
Proof.
  intros (_ & He & _)%finite32_bounds. cbn [val].
  assert (0 < 2 ^ (e + 149)) by (apply Z.pow_pos_nonneg; lia). destruct s; cbn [cond_Zopp]; nia.
Qed.

Lemma fadd_exact x y :
  finite32 x → finite32 y → representable (val x + val y) →
  finite32 (fadd x y) ∧ val (fadd x y) = val x + val y.
Proof.
  intros Hx Hy Hr.
  destruct x as [sx| | |sx mx ex], y as [sy| | |sy my ey]; try done.
  - by destruct sx, sy.
  - split; [done|]. exact (eq_sym (Z.add_0_r _)).
  - pose proof (finite32_bounds _ _ _ Hx) as (_ & Hex & _).
    pose proof (finite32_bounds _ _ _ Hy) as (_ & Hey & _).
    cbn [fadd SFadd]. set (ez := Z.min ex ey).
    rewrite <-(aligned_val sx mx ex ez), <-(aligned_val sy my ey ez) in * by lia.
    rewrite <-Z.mul_add_distr_r in *. apply binary_normalize_exact; [lia|done].
Qed.

Lemma fsub_exact x y :
  finite32 x → finite32 y → representable (val x - val y) →
  finite32 (fsub x y) ∧ val (fsub x y) = val x - val y.
Proof.
  intros Hx Hy Hr.
  destruct x as [sx| | |sx mx ex], y as [sy| | |sy my ey]; try done.
  - by destruct sx, sy.
  - split; [done|]. cbn [fsub SFsub val]. destruct sy; cbn [negb cond_Zopp]; lia.
  - split; [done|]. exact (eq_sym (Z.sub_0_r _)).
  - pose proof (finite32_bounds _ _ _ Hx) as (_ & Hex & _).
    pose proof (finite32_bounds _ _ _ Hy) as (_ & Hey & _).
    cbn [fsub SFsub]. set (ez := Z.min ex ey).
    rewrite <-(aligned_val sx mx ex ez), <-(aligned_val sy my ey ez) in * by lia.
    rewrite <-Z.mul_sub_distr_r in *. apply binary_normalize_exact; [lia|done].
Qed.

Lemma f32_of_Z_exact z :
  Z.abs z < 2 ^ 24 → finite32 (f32_of_Z z) ∧ val (f32_of_Z z) = z * unit32.
Proof.
  intros Hz. apply (binary_normalize_exact z 0 false); [lia|].
  exists z, 149. split_and!; [done|done|lia|lia].
Qed.

(** ** Comparison *)

Lemma compare_pos m1 e1 m2 e2 s1 s2 :
  finite32 (S754_finite s1 m1 e1) → finite32 (S754_finite s2 m2 e2) →
  (Z.pos m1 * 2 ^ (e1 + 149) ?= Z.pos m2 * 2 ^ (e2 + 149)) =
  match e1 ?= e2 with Eq => Pos.compare_cont Eq m1 m2 | c => c end.
Proof.
  intros (Hm1 & He1 & Hc1)%finite32_bounds (Hm2 & He2 & Hc2)%finite32_bounds.
  destruct (Z.compare_spec e1 e2) as [->|Hlt|Hgt].
  - rewrite <-Zmult_compare_compat_r by (apply Z.lt_gt, Z.pow_pos_nonneg; lia). done.
  - apply Z.compare_lt_iff. destruct Hc2 as [->|Hc2]; [lia|].
    apply Z.lt_le_trans with (2 ^ 24 * 2 ^ (e1 + 149)).
    { apply Z.mul_lt_mono_pos_r; [apply Z.pow_pos_nonneg; lia|done]. }
    apply Z.le_trans with (2 ^ 23 * 2 ^ (e2 + 149)).
    + rewrite <-!Z.pow_add_r by lia. apply Z.pow_le_mono_r; lia.
    + apply Z.mul_le_mono_nonneg_r; [apply Z.pow_nonneg; lia|done].
  - apply Z.compare_gt_iff. destruct Hc1 as [->|Hc1]; [lia|].
    apply Z.lt_le_trans with (2 ^ 24 * 2 ^ (e2 + 149)).
    { apply Z.mul_lt_mono_pos_r; [apply Z.pow_pos_nonneg; lia|done]. }
    apply Z.le_trans with (2 ^ 23 * 2 ^ (e1 + 149)).
    + rewrite <-!Z.pow_add_r by lia. apply Z.pow_le_mono_r; lia.
    + apply Z.mul_le_mono_nonneg_r; [apply Z.pow_nonneg; lia|done].
Qed.

Lemma compare_val x y :
  finite32 x → finite32 y → SFcompare x y = Some (val x ?= val y).
Proof.
  intros Hx Hy.
  destruct x as [sx| | |sx mx ex], y as [sy| | |sy my ey]; try done.
  - pose proof (finite32_bounds _ _ _ Hy) as (_ & Hey & _).
    assert (0 < 2 ^ (ey + 149)) by (apply Z.pow_pos_nonneg; lia).
    cbn [SFcompare val]. f_equal. symmetry. destruct sy; cbn [cond_Zopp].
    + apply Z.compare_gt_iff; nia.
    + apply Z.compare_lt_iff; nia.
  - pose proof (finite32_bounds _ _ _ Hx) as (_ & Hex & _).
    assert (0 < 2 ^ (ex + 149)) by (apply Z.pow_pos_nonneg; lia).
    cbn [SFcompare val]. f_equal. symmetry. destruct sx; cbn [cond_Zopp].
    + apply Z.compare_lt_iff; nia.
    + apply Z.compare_gt_iff; nia.
  - pose proof (compare_pos _ _ _ _ _ _ Hx Hy) as Hc.
    pose proof (finite32_bounds _ _ _ Hx) as (_ & Hex & _).
    pose proof (finite32_bounds _ _ _ Hy) as (_ & Hey & _).
    assert (0 < 2 ^ (ex + 149)) by (apply Z.pow_pos_nonneg; lia).
    assert (0 < 2 ^ (ey + 149)) by (apply Z.pow_pos_nonneg; lia).
    cbn [SFcompare val]. f_equal. destruct sx, sy; cbn [cond_Zopp].
    + rewrite Z.compare_opp, (Z.compare_antisym (Z.pos mx * _)), Hc. by destruct (ex ?= ey).
    + symmetry. apply Z.compare_lt_iff; nia.
    + symmetry. apply Z.compare_gt_iff; nia.
    + by rewrite Hc.
Qed.

Lemma flt_val x y : finite32 x → finite32 y → flt x y = (val x <? val y).
Proof. intros. unfold flt, SFltb, Z.ltb. by rewrite compare_val. Qed.

(** Clamping between finite bounds gives a finite result, infinities included. *)
Lemma fclamp_val x lo hi :
  finite32 x → finite32 lo → finite32 hi → val lo ≤ val hi →
  finite32 (fclamp x lo hi) ∧ val (fclamp x lo hi) = Z.max (val lo) (Z.min (val hi) (val x)).
Proof.
  intros. unfold fclamp. rewrite (flt_val x lo) by done.
  destruct (Z.ltb_spec (val x) (val lo)); rewrite flt_val by done;
    (destruct (Z.ltb_spec (val hi) (val lo)) + destruct (Z.ltb_spec (val hi) (val x)));
    (split; [done|lia]).
Qed.

(** ** Truncation *)

Lemma to_Z_val x : finite32 x → to_Z x = Z.quot (val x) unit32.
Proof.
  destruct x as [| | |s m e]; try done. intros (Hm & He & _)%finite32_bounds.
  unfold unit32. cbn [to_Z val].
  assert (Z.shiftl (Z.pos m) e = Z.quot (Z.pos m * 2 ^ (e + 149)) (2 ^ 149)) as Hq.
  { destruct (decide (0 ≤ e)).
    - rewrite Z.pow_add_r, Z.mul_assoc, Z.quot_mul, Z.shiftl_mul_pow2 by lia. done.
    - rewrite <-(Z.opp_involutive e), Z.shiftl_opp_r, Z.shiftr_div_pow2 by lia.
      replace (2 ^ 149) with (2 ^ (- e) * 2 ^ (- - e + 149))
        by (rewrite <-Z.pow_add_r by lia; f_equal; lia).
      rewrite Z.quot_mul_cancel_r by (apply Z.pow_nonzero; lia).
      rewrite Z.quot_div_nonneg; [done|lia|apply Z.pow_pos_nonneg; lia]. }
  destruct s; cbn [cond_Zopp]; rewrite Hq; [|done].
  by rewrite Z.quot_opp_l.
Qed.

Lemma to_Z_small s m e :
  finite32 (S754_finite s m e) → e < 0 → Z.abs (to_Z (S754_finite s m e)) < 2 ^ 24.
Proof.
  intros (Hm & He & _)%finite32_bounds Hneg. cbn [to_Z]. rewrite cond_Zopp_abs.
  rewrite <-(Z.opp_involutive e), Z.shiftl_opp_r, Z.shiftr_div_pow2 by lia.
  assert (0 < 2 ^ (- e)) by (apply Z.pow_pos_nonneg; lia).
  pose proof (Z.div_pos (Z.pos m) (2 ^ (- e)) ltac:(lia) ltac:(lia)).
  assert (Z.pos m / 2 ^ (- e) ≤ Z.pos m) by (apply Z.div_le_upper_bound; nia).
  lia.
Qed.

Lemma ftrunc_val x :
  finite32 x → finite32 (ftrunc x) ∧ val (ftrunc x) = to_Z x * unit32.
Proof.
  intros Hx. destruct x as [| | |s m e]; try done. cbn [ftrunc].
  destruct (Z.leb_spec 0 e) as [He|He].
  - split; [done|]. cbn [val to_Z]. unfold unit32.
    rewrite Z.shiftl_mul_pow2, Z.pow_add_r by lia. destruct s; cbn [cond_Zopp]; ring.
  - apply (binary_normalize_exact (to_Z _) 0 s); [lia|].
    exists (to_Z (S754_finite s m e)), 149.
    split_and!; [done|by apply to_Z_small|lia|lia].
Qed.

Lemma to_Z_ftrunc x : finite32 x → to_Z (ftrunc x) = to_Z x.
Proof.
  intros Hx. destruct (ftrunc_val x Hx) as [Hf Hv].
  rewrite to_Z_val, Hv by done. apply Z.quot_mul. done.
Qed.

Lemma to_Z_bound x n : 0 ≤ n → finite32 x → Z.abs (val x) ≤ n * unit32 → Z.abs (to_Z x) ≤ n.
Proof.
  intros Hn Hx H. rewrite to_Z_val by done. rewrite <-Z.quot_abs by done.
  change (Z.abs unit32) with unit32.
  apply Z.quot_le_upper_bound; [done|]. lia.
Qed.

Lemma cast_sat_finite lo hi x :
  finite32 x → cast_sat lo hi x = Z.max lo (Z.min hi (to_Z x)).
Proof. by destruct x. Qed.

(** ** Multiplication by a power of two *)

Definition f32_pow2 (k : Z) : f32 := S754_finite false 8388608 (k - 23).

Lemma shr_fexp_exact s m e q n :
  0 ≤ n → Z.pos m = Z.pos q * 2 ^ n → finite32 (S754_finite s q (e + n)) →
  shr_fexp 24 128 (Z.pos m) e loc_Exact = (exact_rec (Z.pos q), e + n).
Proof.
  intros Hn Hm Hf.
  assert (fexp 24 128 (Z.pos (digits2_pos m) + e) = e + n) as He.
  { cbn in Hf. unfold bounded, canonical_mantissa in Hf.
    apply andb_true_iff in Hf as [Hf%Z.eqb_eq _].
    rewrite digits_log2, Hm, Z.log2_mul_pow2 by lia. rewrite digits_log2 in Hf.
    etrans; [|exact Hf]. f_equal. lia. }
  destruct n as [|n|n]; [| |lia].
  - rewrite Z.add_0_r in *. replace m with q by lia. by apply (shr_fexp_aligned s).
  - by apply shr_fexp_down.
Qed.

Lemma fmul_pow2 x k :
  finite32 x → 0 ≤ k → Z.abs (val x) * 2 ^ k < 2 ^ 277 →
  finite32 (fmul x (f32_pow2 k)) ∧ val (fmul x (f32_pow2 k)) = val x * 2 ^ k.
Proof.
  intros Hx Hk Hov. destruct x as [s| | |s m e]; try done.
  pose proof (finite32_bounds _ _ _ Hx) as (Hm & He & _).
  unfold fmul, f32_pow2. cbn [SFmul]. rewrite xorb_false_r.
  assert (Z.log2 (Z.pos m) < 24) by (apply Z.log2_lt_pow2; lia).
  pose proof (Z.log2_nonneg (Z.pos m)).
  set (n := Z.max (Z.log2 (Z.pos m)) (-126 - e - k)).
  assert (Z.log2 (Z.pos m) + (e + 149 + k) < 277) as Hlog.
  { replace (Z.log2 (Z.pos m) + (e + 149 + k)) with (e + 149 + k + Z.log2 (Z.pos m)) by lia.
    rewrite <-Z.log2_mul_pow2 by lia. apply Z.log2_lt_pow2.
    { apply Z.mul_pos_pos; [lia|apply Z.pow_pos_nonneg; lia]. }
    cbn [val] in Hov. rewrite cond_Zopp_abs, Z.abs_eq in Hov
      by (apply Z.mul_nonneg_nonneg; [lia|apply Z.pow_nonneg; lia]).
    by rewrite Z.pow_add_r, Z.mul_assoc by lia. }
  assert (∃ q, Z.pos q = Z.pos m * 2 ^ (23 - n)) as [q Hq].
  { exists (Z.to_pos (Z.pos m * 2 ^ (23 - n))). rewrite Z2Pos.id; [done|].
    apply Z.mul_pos_pos; [lia|apply Z.pow_pos_nonneg; lia]. }
  assert (Z.log2 (Z.pos q) = 23 - n + Z.log2 (Z.pos m)) as Hlq.
  { rewrite Hq. apply Z.log2_mul_pow2; lia. }
  assert (finite32 (S754_finite s q (e + (k - 23) + n))) as Hf.
  { apply finite32_intro; [apply Z.log2_lt_pow2; lia|lia|].
    destruct (decide (e + (k - 23) + n = -149)); [by left|right].
    apply Z.log2_le_pow2; lia. }
  rewrite (round_aux_exact s _ _ q (e + (k - 23) + n)); [split; [done|]| |done].
  - cbn [val]. rewrite Hq, <-Z.mul_assoc, <-Z.pow_add_r by lia.
    replace (23 - n + (e + (k - 23) + n + 149)) with (e + 149 + k) by lia.
    rewrite Z.pow_add_r by lia. destruct s; cbn [cond_Zopp]; ring.
  - apply (shr_fexp_exact s); [lia| |done].
    rewrite Hq, <-Z.mul_assoc, <-Z.pow_add_r by lia.
    replace (23 - n + n) with 23 by lia. lia.
Qed.

(** ** Rounding to nearest

    An operation whose result is not representable is off by at most half a unit in the
    last place of a number of the same magnitude. *)

Lemma shr_1_div m r s :
  0 ≤ m →
  shr_1 {| shr_m := m; shr_r := r; shr_s := s |} =
  {| shr_m := m / 2; shr_r := Z.odd m; shr_s := r || s |}.
Proof.
  intros Hm. destruct m as [|[p|p|]|]; [done| | |done|lia]; cbn; f_equal.
  - by rewrite Pos2Z.inj_xI, (Z.mul_comm 2), Z.div_add_l, Z.add_0_r.
  - by rewrite Pos2Z.inj_xO, Z.mul_comm, Z.div_mul.
Qed.

Lemma shr_iter m n :
  0 ≤ m →
  Pos.iter shr_1 (exact_rec m) n =
  {| shr_m := m / 2 ^ Z.pos n; shr_r := Z.odd (m / 2 ^ (Z.pos n - 1));
     shr_s := negb (m mod 2 ^ (Z.pos n - 1) =? 0) |}.
Proof.
  intros Hm. induction n as [|n IH] using Pos.peano_ind.
  - cbn [Pos.iter]. unfold exact_rec. rewrite shr_1_div by done. cbn [Z.sub Z.add Z.pos_sub Pos.pred_double].
    change (2 ^ (1 - 1)) with 1. by rewrite Z.div_1_r, Z.mod_1_r.
  - rewrite Pos.iter_succ, IH. assert (0 < 2 ^ Z.pos n) as Hp by (apply Z.pow_pos_nonneg; lia).
    assert (0 < 2 ^ (Z.pos n - 1)) as Hh by (apply Z.pow_pos_nonneg; lia).
    rewrite shr_1_div by (apply Z.div_pos; lia).
    replace (Z.pos (Pos.succ n) - 1) with (Z.pos n) by lia. rewrite Pos2Z.inj_succ, Z.pow_succ_r by lia.
    rewrite (Z.mul_comm 2), <-Z.div_div by lia. f_equal.
    set (h := 2 ^ (Z.pos n - 1)) in *.
    assert (2 ^ Z.pos n = h * 2) as E.
    { unfold h. rewrite Z.mul_comm, <-Z.pow_succ_r by lia. f_equal. lia. }
    rewrite E, Z.rem_mul_r by lia. pose proof (Z.mod_pos_bound m h Hh) as Hb.
    rewrite Zmod_odd. destruct (Z.odd (m / h)); cbn [orb].
    + symmetry. apply negb_true_iff, Z.eqb_neq. lia.
    + f_equal. rewrite Z.mul_0_r, Z.add_0_r. done.
Qed.

Lemma nearest_even m n :
  0 ≤ m →
  let r := Pos.iter shr_1 (exact_rec m) n in
  let q := round_nearest_even (shr_m r) (loc_of_shr_record r) in
  Z.abs (q * 2 ^ Z.pos n - m) * 2 ≤ 2 ^ Z.pos n ∧ m / 2 ^ Z.pos n ≤ q ≤ m / 2 ^ Z.pos n + 1.
Proof.
  intros Hm r q. subst r q. rewrite shr_iter by done. cbn [shr_m loc_of_shr_record].
  assert (0 < 2 ^ (Z.pos n - 1)) as Hh by (apply Z.pow_pos_nonneg; lia). set (h := 2 ^ (Z.pos n - 1)) in *.
  assert (2 ^ Z.pos n = h * 2) as E.
  { unfold h. rewrite Z.mul_comm, <-Z.pow_succ_r by lia. f_equal. lia. }
  rewrite E, <-Z.div_div by lia.
  pose proof (Z.div_mod m h ltac:(lia)) as D1. pose proof (Z.mod_pos_bound m h Hh) as D2.
  pose proof (Z.div_mod (m / h) 2 ltac:(lia)) as D3. rewrite Zmod_odd in D3.
  set (b := m mod h) in *. set (c := m / h / 2) in *. rewrite D3 in D1.
  destruct (Z.odd (m / h)), (Z.eqb_spec b 0) as [Hb|Hb]; cbn [negb round_nearest_even];
    try case_match; nia.
Qed.

(** What [binary_round_aux] does behind the rounding. *)
Definition round_end (s : bool) (r : shr_record * Z) : f32 :=
  match shr_m r.1 with
  | 0 => S754_zero s
  | Z.pos m => if r.2 <=? 104 then S754_finite s m r.2 else S754_infinity s
  | Z.neg _ => S754_nan
  end.

Lemma round_aux_end s m e l r e' :
  shr_fexp 24 128 m e l = (r, e') →
  binary_round_aux 24 128 s m e l =
  round_end s (shr_fexp 24 128 (round_nearest_even (shr_m r) (loc_of_shr_record r)) e' loc_Exact).
Proof. intros E. unfold binary_round_aux. rewrite E. unfold round_end. by destruct (shr_fexp _ _ _ e' _). Qed.

Lemma round_end_val s q e :
  2 ^ 23 ≤ q ≤ 2 ^ 24 → -149 ≤ e ≤ 103 →
  finite32 (round_end s (shr_fexp 24 128 q e loc_Exact)) ∧
  val (round_end s (shr_fexp 24 128 q e loc_Exact)) = cond_Zopp s (q * 2 ^ (e + 149)).
Proof.
  intros Hq He.
  assert (∃ k q', 0 ≤ k ≤ 1 ∧ q = Z.pos q' * 2 ^ k ∧ finite32 (S754_finite s q' (e + k))) as (k & q' & Hk & Eq & Hf).
  { destruct (decide (q = 2 ^ 24)) as [E|Hne].
    - exists 1, 8388608%positive. split; [lia|]. split; [by rewrite E|]. apply finite32_intro; lia.
    - exists 0, (Z.to_pos q). rewrite Z2Pos.id by lia. split; [lia|]. split; [lia|].
      apply finite32_intro; rewrite ?Z2Pos.id; lia. }
  assert (q = Z.pos (Z.to_pos q)) as Eqp by (rewrite Z2Pos.id; lia).
  assert (shr_fexp 24 128 q e loc_Exact = (exact_rec (Z.pos q'), e + k)) as ->.
  { rewrite Eqp. apply (shr_fexp_exact s); [lia| |done]. by rewrite <-Eqp. }
  unfold round_end. cbn [fst snd exact_rec shr_m].
  rewrite (proj2 (Z.leb_le _ _)) by lia. split; [done|]. cbn [val]. f_equal.
  rewrite Eq, <-Z.mul_assoc, <-Z.pow_add_r by lia. do 2 f_equal. lia.
Qed.

(** The rounding step when there are bits to drop. *)
Lemma round_aux_near s m e :
  -149 ≤ e → 24 ≤ Z.log2 (Z.pos m) → Z.log2 (Z.pos m) + e < 100 →
  let x := binary_round_aux 24 128 s (Z.pos m) e loc_Exact in
  finite32 x ∧
  Z.abs (val x - cond_Zopp s (Z.pos m * 2 ^ (e + 149))) * 2 ≤ 2 ^ (Z.log2 (Z.pos m) + e + 126).
Proof.
  intros He Hl Hu. destruct (Z.log2 (Z.pos m) - 23) as [|n|n] eqn:En; [lia| |lia].
  set (L := Z.log2 (Z.pos m)) in *.
  destruct (nearest_even (Z.pos m) n ltac:(lia)) as [Hq Hr].
  set (r := Pos.iter shr_1 (exact_rec (Z.pos m)) n) in *.
  set (q := round_nearest_even (shr_m r) (loc_of_shr_record r)) in *.
  pose proof (Z.log2_spec (Z.pos m) ltac:(lia)) as [Hm1 Hm2]. fold L in Hm1, Hm2.
  assert (0 < 2 ^ Z.pos n) as Hp by (apply Z.pow_pos_nonneg; lia).
  assert (2 ^ 23 ≤ Z.pos m / 2 ^ Z.pos n < 2 ^ 24) as [Hd1 Hd2].
  { split; [apply Z.div_le_lower_bound; [done|]|apply Z.div_lt_upper_bound; [done|]].
    - rewrite <-Z.pow_add_r by lia. by replace (Z.pos n + 23) with L by lia.
    - rewrite <-Z.pow_add_r by lia. by replace (Z.pos n + 24) with (Z.succ L) by lia. }
  assert (shr_fexp 24 128 (Z.pos m) e loc_Exact = (r, e + Z.pos n)) as E1.
  { unfold shr_fexp. cbn [Zdigits2]. rewrite fexp_eq, digits_log2. fold L.
    replace (Z.max (L + 1 + e - 24) (-149) - e) with (Z.pos n) by lia.
    cbn [shr shr_record_of_loc]. by rewrite iter_pos_iter. }
  rewrite (round_aux_end _ _ _ _ _ _ E1). fold q. cbv zeta.
  destruct (round_end_val s q (e + Z.pos n)) as [Hf ->]; [lia..|]. split; [done|].
  replace (q * 2 ^ (e + Z.pos n + 149)) with (q * 2 ^ Z.pos n * 2 ^ (e + 149)).
  2: { rewrite <-Z.mul_assoc, <-Z.pow_add_r by lia. do 2 f_equal. lia. }
  replace (L + e + 126) with (Z.pos n + (e + 149)) by lia. rewrite (Z.pow_add_r 2 (Z.pos n)) by lia.
  assert (0 < 2 ^ (e + 149)) by (apply Z.pow_pos_nonneg; lia).
  set (u := 2 ^ (e + 149)) in *. set (v := q * 2 ^ Z.pos n) in *. clearbody u v.
  destruct s; cbn [cond_Zopp]; nia.
Qed.

Lemma binary_normalize_near m e s :
  -149 ≤ e → Z.log2 (Z.abs m) + e < 100 → e < 100 →
  finite32 (binary_normalize 24 128 m e s) ∧
  Z.abs (val (binary_normalize 24 128 m e s) - m * 2 ^ (e + 149)) * 2 ≤ 2 ^ (Z.log2 (Z.abs m) + e + 126).
Proof.
  intros He Hl He'. destruct (decide (Z.log2 (Z.abs m) < 24)) as [Hs|Hs].
  - assert (representable (m * 2 ^ (e + 149))) as Hr.
    { exists m, (e + 149). split_and!; [done| |lia|lia]. destruct (decide (m = 0)) as [->|]; [done|].
      apply Z.log2_lt_pow2; lia. }
    destruct (binary_normalize_exact m e s He Hr) as [? ->]. split; [done|].
    rewrite Z.sub_diag. apply Z.pow_nonneg. lia.
  - destruct m as [|m|m]; [done| |]; cbn [binary_normalize];
      change (Z.abs _) with (Z.pos m) in Hs, Hl |- * at 2;
      unfold binary_round; rewrite shl_align_ge by (rewrite fexp_eq, digits_log2; lia).
    + apply (round_aux_near false m e); lia.
    + destruct (round_aux_near true m e) as [? Hx]; [lia..|]. split; [done|].
      replace (Z.neg m * 2 ^ (e + 149)) with (cond_Zopp true (Z.pos m * 2 ^ (e + 149))) by (cbn [cond_Zopp]; lia).
      done.
Qed.

Lemma log2_below m c k :
  m ≠ 0 → 0 ≤ k → Z.abs m * 2 ^ k < 2 ^ c → Z.log2 (Z.abs m) + k < c.
Proof.
  intros Hm Hk Hv. assert (0 < 2 ^ k) by (apply Z.pow_pos_nonneg; lia).
  destruct (decide (0 ≤ c)); [|rewrite (Z.pow_neg_r 2 c) in Hv by lia; nia].
  apply Z.log2_lt_pow2 in Hv; [|nia]. rewrite Z.log2_mul_pow2 in Hv by lia. lia.
Qed.

(** A sum below [2^c] is off by at most [2^(c - 25)]. *)
Lemma fadd_near x y c :
  finite32 x → finite32 y → Z.abs (val x + val y) < 2 ^ (c + 149) → 0 ≤ c ≤ 90 →
  finite32 (fadd x y) ∧ Z.abs (val (fadd x y) - (val x + val y)) * 2 ≤ 2 ^ (c + 125).
Proof.
  intros Hx Hy Hv Hc. assert (0 < 2 ^ (c + 125)) by (apply Z.pow_pos_nonneg; lia).
  destruct x as [sx| | |sx mx ex], y as [sy| | |sy my ey]; try done.
  1: by destruct sx, sy; cbn; (split; [done|lia]).
  1, 2: split; [done|]; cbn [fadd SFadd val]; lia.
  pose proof (finite32_bounds _ _ _ Hx) as (_ & Hex & _).
  pose proof (finite32_bounds _ _ _ Hy) as (_ & Hey & _).
  cbn [fadd SFadd]. set (ez := Z.min ex ey).
  rewrite <-(aligned_val sx mx ex ez), <-(aligned_val sy my ey ez) in * by lia.
  rewrite <-Z.mul_add_distr_r in *. set (m := _ + _) in *.
  destruct (decide (m = 0)) as [E|Hne].
  { rewrite E. cbn. split; [done|lia]. }
  assert (0 < 2 ^ (ez + 149)) by (apply Z.pow_pos_nonneg; lia).
  rewrite Z.abs_mul, (Z.abs_eq (2 ^ _)) in Hv by lia.
  pose proof (log2_below m (c + 149) (ez + 149) Hne ltac:(lia) Hv) as Hl.
  pose proof (Z.log2_nonneg (Z.abs m)).
  destruct (binary_normalize_near m ez false) as [? Hb]; [lia..|]. split; [done|].
  etrans; [exact Hb|]. apply Z.pow_le_mono_r; lia.
Qed.

(** A product below [2^c] of numbers that are not tiny is off by at most [2^(c - 25)]. *)
Lemma fmul_near x y c :
  finite32 x → finite32 y → 2 ^ 100 ≤ Z.abs (val x) → 2 ^ 100 ≤ Z.abs (val y) →
  Z.abs (val x * val y) < 2 ^ (c + 298) → 0 ≤ c ≤ 90 →
  finite32 (fmul x y) ∧
  Z.abs (val (fmul x y) * 2 ^ 149 - val x * val y) * 2 ≤ 2 ^ (c + 125) * 2 ^ 149.
Proof.
  intros Hx Hy Hbx Hby Hv Hc. destruct x as [sx| | |sx mx ex], y as [sy| | |sy my ey]; try done.
  assert (∀ s m e, finite32 (S754_finite s m e) → 2 ^ 100 ≤ Z.abs (val (S754_finite s m e)) →
    2 ^ 23 ≤ Z.pos m < 2 ^ 24 ∧ -73 ≤ e) as Hbig.
  { intros s m e (Hm & He & Hn)%finite32_bounds Hb. cbn [val] in Hb. rewrite cond_Zopp_abs in Hb.
    assert (-73 ≤ e) as He'.
    { destruct (decide (-73 ≤ e)); [done|]. exfalso.
      assert (2 ^ (e + 149) ≤ 2 ^ 75) by (apply Z.pow_le_mono_r; lia).
      assert (0 ≤ 2 ^ (e + 149)) by (apply Z.pow_nonneg; lia).
      change (2 ^ 100) with (2 ^ 25 * 2 ^ 75) in Hb. nia. }
    split; [|done]. destruct Hn; lia. }
  destruct (Hbig _ _ _ Hx Hbx) as [Hmx Hex]. destruct (Hbig _ _ _ Hy Hby) as [Hmy Hey]. clear Hbig.
  unfold fmul. cbn [SFmul]. set (m := (mx * my)%positive).
  assert (val (S754_finite sx mx ex) * val (S754_finite sy my ey) =
          cond_Zopp (xorb sx sy) (Z.pos m * 2 ^ (ex + ey + 149)) * 2 ^ 149) as Eprod.
  { cbn [val]. subst m. rewrite Pos2Z.inj_mul.
    replace (2 ^ (ex + ey + 149) * 2 ^ 149) with (2 ^ (ex + 149) * 2 ^ (ey + 149))
      by (rewrite <-!Z.pow_add_r by lia; f_equal; lia).
    replace (cond_Zopp (xorb sx sy) (Z.pos mx * Z.pos my * 2 ^ (ex + ey + 149)) * 2 ^ 149) with
      (cond_Zopp (xorb sx sy) (Z.pos mx * Z.pos my * (2 ^ (ex + 149) * 2 ^ (ey + 149)))).
    2: { rewrite <-!Z.pow_add_r by lia. replace (ex + 149 + (ey + 149)) with (ex + ey + 149 + 149) by lia.
         rewrite (Z.pow_add_r 2 (ex + ey + 149)) by lia. destruct sx, sy; cbn [xorb cond_Zopp]; ring. }
    destruct sx, sy; cbn [xorb cond_Zopp]; ring. }
  rewrite Eprod in *. clear Eprod.
  assert (46 ≤ Z.log2 (Z.pos m)) as Hl by (apply Z.log2_le_pow2; [lia|]; subst m; rewrite Pos2Z.inj_mul; nia).
  assert (Z.log2 (Z.pos m) + (ex + ey) < c) as Hlc.
  { rewrite Z.abs_mul, cond_Zopp_abs, (Z.abs_eq (2 ^ 149)), Z.abs_mul, (Z.abs_eq (2 ^ _)) in Hv
      by (apply Z.pow_nonneg; lia).
    rewrite <-Z.mul_assoc, <-(Z.pow_add_r 2 (ex + ey + 149) 149) in Hv by lia.
    pose proof (log2_below (Z.pos m) (c + 298) (ex + ey + 149 + 149) ltac:(done) ltac:(lia) Hv). change (Z.abs (Z.pos m)) with (Z.pos m) in *. lia. }
  destruct (round_aux_near (xorb sx sy) m (ex + ey)) as [? Hb]; [lia..|]. split; [done|].
  rewrite <-Z.mul_sub_distr_r, Z.abs_mul, (Z.abs_eq (2 ^ 149)) by done.
  set (d := Z.abs _) in *. set (u := 2 ^ 149). assert (0 < u) by done.
  assert (2 ^ (Z.log2 (Z.pos m) + (ex + ey) + 126) ≤ 2 ^ (c + 125)) by (apply Z.pow_le_mono_r; lia).
  clearbody d u. nia.
Qed.

(** [round] goes to an integer at most a half away. *)
Lemma fround_near x :
  finite32 x → Z.abs (val x) < 2 ^ 22 * unit32 →
  finite32 (fround x) ∧ ∃ n, val (fround x) = n * unit32 ∧ Z.abs (n * unit32 - val x) * 2 ≤ unit32.
Proof.
  intros Hx Hv. destruct x as [s| | |s m e]; try done; cbn [fround].
  { split; [done|]. by exists 0. }
  pose proof (finite32_bounds _ _ _ Hx) as (Hm & He & _).
  destruct (Z.leb_spec 0 e) as [He0|He0].
  - split; [done|]. exists (cond_Zopp s (Z.pos m * 2 ^ e)).
    assert (val (S754_finite s m e) = cond_Zopp s (Z.pos m * 2 ^ e) * unit32) as E.
    { cbn [val]. unfold unit32. rewrite Z.pow_add_r by lia. destruct s; cbn [cond_Zopp]; ring. }
    rewrite E, Z.sub_diag. done.
  - rewrite !Z.shiftl_mul_pow2, !Z.mul_1_l by lia.
    replace (1 - e) with (- e + 1) by lia. rewrite Z.pow_add_r by lia. change (2 ^ 1) with 2.
    set (p := 2 ^ (- e)). assert (0 < p) as Hp by (apply Z.pow_pos_nonneg; lia).
    set (n := (2 * Z.pos m + p) / (p * 2)).
    assert (Z.abs (n * p - Z.pos m) * 2 ≤ p ∧ 0 ≤ n ≤ Z.pos m) as [Hn Hr].
    { pose proof (Z.div_mod (2 * Z.pos m + p) (p * 2) ltac:(lia)) as D. fold n in D.
      pose proof (Z.mod_pos_bound (2 * Z.pos m + p) (p * 2) ltac:(lia)) as B. split; [nia|].
      assert (2 ≤ p) by (subst p; apply (Z.pow_le_mono_r 2 1); lia). split; nia. }
    destruct (binary_normalize_exact (cond_Zopp s n) 0 s) as [Hf E]; [lia| |].
    { exists (cond_Zopp s n), 149. rewrite cond_Zopp_abs. split_and!; lia. }
    split; [done|]. exists (cond_Zopp s n). split; [exact E|]. cbn [val].
    assert (unit32 = p * 2 ^ (e + 149)) as Eu.
    { unfold unit32, p. rewrite <-Z.pow_add_r by lia. f_equal. lia. }
    assert (0 < 2 ^ (e + 149)) by (apply Z.pow_pos_nonneg; lia).
    rewrite Eu. set (u := 2 ^ (e + 149)) in *. clearbody u p n. destruct s; cbn [cond_Zopp]; nia.
Qed.

(** A quotient of two numbers with full mantissas, off by at most three units in the last
    place. *)
Lemma nearest_even_up m l : m ≤ round_nearest_even m l ≤ m + 1.
Proof. destruct l as [|[]]; cbn; try case_match; lia. Qed.

Lemma record_of_loc_m m l : shr_m (shr_record_of_loc m l) = m.
Proof. by destruct l as [|[]]. Qed.

Lemma fdiv_near m1 e1 m2 e2 :
  2 ^ 23 ≤ Z.pos m1 < 2 ^ 24 → 2 ^ 23 ≤ Z.pos m2 < 2 ^ 24 → -30 ≤ e1 - e2 ≤ 0 →
  let t := fdiv (S754_finite false m1 e1) (S754_finite false m2 e2) in
  finite32 t ∧ 2 ^ (e1 - e2 + 148) ≤ val t ≤ 2 ^ (e1 - e2 + 150) ∧
  Z.abs (val t * Z.pos m2 - Z.pos m1 * 2 ^ (e1 - e2 + 149)) ≤ 3 * Z.pos m2 * 2 ^ (e1 - e2 + 125).
Proof.
  intros H1 H2 HD. cbv zeta. unfold fdiv. cbn [SFdiv xorb]. unfold SFdiv_core_binary.
  assert (∀ m, 2 ^ 23 ≤ Z.pos m < 2 ^ 24 → Z.log2 (Z.pos m) = 23) as Hlog
    by (intros m Hm; apply Z.log2_unique; lia).
  cbn [Zdigits2]. rewrite fexp_eq, !digits_log2, !Hlog by done.
  replace (Z.min _ (e1 - e2)) with (e1 - e2 - 24) by lia.
  replace (e1 - e2 - (e1 - e2 - 24)) with 24 by lia.
  rewrite Z.shiftl_mul_pow2 by done. set (D := e1 - e2) in *.
  destruct (Z.div_eucl (Z.pos m1 * 2 ^ 24) (Z.pos m2)) as [q r] eqn:Edv.
  pose proof (Z_div_mod (Z.pos m1 * 2 ^ 24) (Z.pos m2) ltac:(done)) as Hqr. rewrite Edv in Hqr.
  destruct Hqr as [Eq Hr]. set (l := new_location _ _). clearbody l.
  assert (2 ^ 23 ≤ q < 2 ^ 25) as Hq by nia.
  assert (∃ k rec, 0 ≤ k ≤ 1 ∧ shr_fexp 24 128 q (D - 24) l = (rec, D - 24 + k) ∧
            shr_m rec = q / 2 ^ k ∧ 2 ^ 23 ≤ q / 2 ^ k < 2 ^ 24) as (k & rec & Hk & E1 & Em & Hqk).
  { unfold shr_fexp. destruct q as [|q|q]; [lia| |lia]. cbn [Zdigits2]. rewrite fexp_eq, digits_log2.
    destruct (decide (Z.pos q < 2 ^ 24)) as [Hs|Hs].
    - rewrite Hlog by lia. replace (_ - (D - 24)) with 0 by lia. cbn [shr].
      exists 0, (shr_record_of_loc (Z.pos q) l). rewrite record_of_loc_m, Z.add_0_r.
      change (2 ^ 0) with 1. rewrite Z.div_1_r. split_and!; (done || lia).
    - assert (Z.log2 (Z.pos q) = 24) as -> by (apply Z.log2_unique; lia).
      replace (_ - (D - 24)) with 1 by lia. cbn [shr SpecFloat.iter_pos].
      exists 1, (shr_1 (shr_record_of_loc (Z.pos q) l)). split; [lia|]. split; [done|].
      change (2 ^ 1) with 2. split; [|split; [apply Z.div_le_lower_bound|apply Z.div_lt_upper_bound]; lia].
      pose proof (record_of_loc_m (Z.pos q) l) as Hm. destruct (shr_record_of_loc _ l) as [m' r' s'].
      cbn [shr_m] in Hm. subst m'. by rewrite shr_1_div. }
  rewrite (round_aux_end _ _ _ _ _ _ E1), Em.
  pose proof (nearest_even_up (q / 2 ^ k) (loc_of_shr_record rec)) as HQ.
  set (Q := round_nearest_even _ _) in *. clearbody Q.
  destruct (round_end_val false Q (D - 24 + k)) as [Hf ->]; [lia..|]. split; [done|]. cbn [cond_Zopp].
  replace (D - 24 + k + 149) with (k + (D + 125)) by lia. rewrite (Z.pow_add_r 2 k) by lia.
  assert (Q * (2 ^ k * 2 ^ (D + 125)) = Q * 2 ^ k * 2 ^ (D + 125)) as -> by ring.
  replace (D + 149) with (24 + (D + 125)) by lia. replace (D + 148) with (23 + (D + 125)) by lia.
  replace (D + 150) with (25 + (D + 125)) by lia. rewrite !(Z.pow_add_r 2 _ (D + 125)) by lia.
  assert (0 < 2 ^ (D + 125)) as Hu by (apply Z.pow_pos_nonneg; lia).
  set (u := 2 ^ (D + 125)) in *. clearbody u.
  assert (2 ^ 23 ≤ Q * 2 ^ k ≤ 2 ^ 25 ∧ q - 2 ≤ Q * 2 ^ k ≤ q + 2) as [HQ1 HQ2].
  { assert (k = 0 ∨ k = 1) as [-> | ->] by lia; change (2 ^ 0) with 1 in *; change (2 ^ 1) with 2 in *.
    - rewrite Z.div_1_r in *. lia.
    - pose proof (Z.div_mod q 2 ltac:(done)). pose proof (Z.mod_pos_bound q 2 ltac:(done)). lia. }
  set (w := Q * 2 ^ k) in *. clearbody w. split; [nia|].
  replace (w * u * Z.pos m2 - Z.pos m1 * (2 ^ 24 * u)) with ((w * Z.pos m2 - Z.pos m1 * 2 ^ 24) * u) by ring.
  rewrite Z.abs_mul, (Z.abs_eq u) by lia. apply Z.mul_le_mono_nonneg_r; [lia|]. rewrite Eq. nia.
Qed.

(** An integer that is not zero has a full mantissa. *)
Lemma f32_of_pos z :
  0 < z < 2 ^ 24 → ∃ m e, f32_of_Z z = S754_finite false m e ∧ 2 ^ 23 ≤ Z.pos m < 2 ^ 24 ∧
    e ≤ 0 ∧ Z.pos m = z * 2 ^ (- e) ∧ -149 ≤ e.
Proof.
  intros Hz. destruct (f32_of_Z_exact z ltac:(lia)) as [Hf Hv].
  destruct (f32_of_Z z) as [| | |s m e]; try done; [cbn in Hv; unfold unit32 in Hv; lia|].
  pose proof (finite32_bounds _ _ _ Hf) as (Hm & He & Hn). cbn [val] in Hv. unfold unit32 in Hv.
  assert (0 < 2 ^ (e + 149)) as Hp by (apply Z.pow_pos_nonneg; lia).
  destruct s; cbn [cond_Zopp] in Hv; [nia|].
  assert (2 ^ 23 ≤ Z.pos m) as Hm'.
  { destruct Hn as [->|?]; [|done]. cbn in Hv. lia. }
  assert (e ≤ 0) as He0.
  { destruct (decide (e ≤ 0)); [done|]. exfalso.
    assert (2 ^ 150 ≤ 2 ^ (e + 149)) by (apply Z.pow_le_mono_r; lia). change (2 ^ 150) with (2 * 2 ^ 149) in *. nia. }
  exists m, e. split; [done|]. split; [lia|]. split; [lia|]. split; [|lia].
  apply (Z.mul_reg_r _ _ (2 ^ (e + 149))); [lia|].
  rewrite Hv, <-Z.mul_assoc, <-Z.pow_add_r by lia. do 2 f_equal. lia.
Qed.

(** The fractions of up to 256 steps. *)
Lemma fraction_near i n :
  1 ≤ i < n → n ≤ 256 →
  let t := fdiv (f32_of_Z i) (f32_of_Z n) in
  finite32 t ∧ 2 ^ 120 ≤ val t ≤ 2 * unit32 ∧ Z.abs (val t * n - i * unit32) ≤ 3 * n * 2 ^ 125.
Proof.
  intros Hi Hn. destruct (f32_of_pos i) as (m1 & e1 & -> & Hm1 & He1 & E1 & _); [lia|].
  destruct (f32_of_pos n) as (m2 & e2 & -> & Hm2 & He2 & E2 & _); [lia|].
  assert (0 < 2 ^ (- e1)) as P1 by (apply Z.pow_pos_nonneg; lia).
  assert (0 < 2 ^ (- e2)) as P2 by (apply Z.pow_pos_nonneg; lia).
  assert (-10 ≤ e1 - e2 ≤ 0) as HD.
  { split.
    - destruct (decide (-10 ≤ e1 - e2)); [done|]. exfalso.
      assert (2 ^ (- e2) * 2 ^ 11 ≤ 2 ^ (- e1)) by (rewrite <-Z.pow_add_r by lia; apply Z.pow_le_mono_r; lia). nia.
    - destruct (decide (e1 - e2 ≤ 0)); [done|]. exfalso.
      assert (2 ^ (- e1) * 2 ^ 1 ≤ 2 ^ (- e2)) by (rewrite <-Z.pow_add_r by lia; apply Z.pow_le_mono_r; lia). nia. }
  destruct (fdiv_near m1 e1 m2 e2 Hm1 Hm2 ltac:(lia)) as (Hf & [Hv1 Hv2] & Hn').
  set (t := fdiv _ _) in *. cbv zeta. split; [done|]. split.
  { split; [etrans; [|exact Hv1]|etrans; [exact Hv2|]; change (2 * unit32) with (2 ^ 150)]; apply Z.pow_le_mono_r; lia. }
  assert (Z.pos m1 * 2 ^ (e1 - e2 + 149) = i * unit32 * 2 ^ (- e2)) as Ei.
  { rewrite E1. unfold unit32. rewrite <-!Z.mul_assoc, <-!Z.pow_add_r by lia. do 2 f_equal. lia. }
  rewrite Ei, E2 in Hn'.
  replace (val t * (n * 2 ^ (- e2)) - i * unit32 * 2 ^ (- e2)) with ((val t * n - i * unit32) * 2 ^ (- e2)) in Hn' by ring.
  rewrite Z.abs_mul, (Z.abs_eq (2 ^ _)) in Hn' by lia.
  assert (2 ^ (e1 - e2 + 125) ≤ 2 ^ 125) as Hle by (apply Z.pow_le_mono_r; lia).
  assert (0 ≤ 2 ^ (e1 - e2 + 125)) by (apply Z.pow_nonneg; lia).
  apply (Z.mul_le_mono_pos_r _ _ _ P2). etrans; [exact Hn'|].
  set (A := 2 ^ (e1 - e2 + 125)) in *. set (B := 2 ^ 125) in *. set (C := 2 ^ (- e2)) in *. clearbody A B C.
  replace (3 * (n * C) * A) with (3 * n * A * C) by ring. apply Z.mul_le_mono_nonneg_r; [lia|]. nia.
Qed.
