(* ===== verification/Format.v ===== *)
(** * [format!] of integers in hexadecimal (decimal is stdpp's [pretty]), the bytes of an
    ASCII literal, and [parse] of unsigned integers *)

From S2P Require Import Prelude.
From Stdlib Require Import Ascii.
From stdpp Require Export pretty.
Local Open Scope Z_scope.

Definition hex_digit (n : Z) : string :=
  match n with
  | 10 => "a" | 11 => "b" | 12 => "c" | 13 => "d" | 14 => "e" | 15 => "f"
  | n => pretty n
  end.

(** [{:02x}] of a byte. *)
Definition hex2 (b : Z) : string := hex_digit (b / 16) +:+ hex_digit (b mod 16).

(** [{:#x}] of a [u16]: no leading zeros. *)
Fixpoint hex_digits (fuel : nat) (n : Z) (acc : string) : string :=
  match fuel with
  | O => acc
  | S fuel =>
      let acc := hex_digit (n mod 16) +:+ acc in
      if n / 16 =? 0 then acc else hex_digits fuel (n / 16) acc
  end.
Definition hex_u16 (n : Z) : string := "0x" +:+ hex_digits 4 n "".

Example hex_u16_example : hex_u16 0x1F4 = "0x1f4" ∧ hex_u16 0 = "0x0".
Proof. split; reflexivity. Qed.

(** The bytes of a string literal. *)
Fixpoint ascii_bytes (s : string) : list Z :=
  match s with
  | EmptyString => []
  | String a s => Z.of_N (N_of_ascii a) :: ascii_bytes s
  end.

(** [str::parse] of an unsigned integer of [w] bits. *)
Definition digit (b : Z) : option Z := if (48 <=? b) && (b <=? 57) then Some (b - 48) else None.
Fixpoint parse_digits (w acc : Z) (s : list Z) : option Z :=
  match s with
  | [] => Some acc
  | b :: s =>
      match digit b with
      | Some d => if 10 * acc + d <? 2 ^ w then parse_digits w (10 * acc + d) s else None
      | None => None
      end
  end.
Definition PLUS : Z := 43.
Definition parse_unsigned (w : Z) (s : list Z) : option Z :=
  match s with
  | [] => None
  | b :: rest =>
      let digits := if b =? PLUS then rest else s in
      match digits with [] => None | _ => parse_digits w 0 digits end
  end.
