(* ===== verification/Decimal.v ===== *)
(** * [format!] of an [f32] with a number of decimals

    [{:.p}] prints the value exactly rounded to [p] decimals, halves to the even digit. *)

From S2P Require Import Prelude Words Float32 Format.
Local Open Scope Z_scope.

(** The integer nearest to [n / d]. *)
Definition nearest (n d : Z) : Z :=
  let q := n / d in
  let r := n mod d in
  if 2 * r <? d then q else if d <? 2 * r then q + 1 else if Z.even q then q else q + 1.

Fixpoint decimals (p : nat) (n : Z) : string :=
  match p with
  | O => ""
  | S p => decimals p (n / 10) +:+ pretty (n mod 10)
  end.

(** [n] tenth powers: [n / 10^p] with [p] decimals. *)
Definition fixed (p : nat) (n : Z) : string :=
  let scale := 10 ^ Z.of_nat p in
  pretty (n / scale) +:+ match p with O => "" | S _ => "." +:+ decimals p (n mod scale) end.

(** [m * 2^e] in units of [10^-p]. *)
Definition scaled (p : nat) (m : positive) (e : Z) : Z :=
  let n := Z.pos m * 10 ^ Z.of_nat p in
  if 0 <=? e then Z.shiftl n e else nearest n (Z.shiftl 1 (- e)).

Definition minus (s : bool) : string := if s then "-" else "".

Definition fmt_fixed (p : nat) (x : f32) : string :=
  match x with
  | S754_nan => "NaN"
  | S754_infinity s => minus s +:+ "inf"
  | S754_zero s => minus s +:+ fixed p 0
  | S754_finite s m e => minus s +:+ fixed p (scaled p m e)
  end.

Example fmt_fixed_examples :
  fmt_fixed 1 (S754_finite false 8388608 (-25)) = "0.2" ∧          (* 0.25 *)
  fmt_fixed 1 (S754_finite true 12582912 (-24)) = "-0.8" ∧         (* -0.75 *)
  fmt_fixed 2 (f32_of_Z 30) = "30.00" ∧ fmt_fixed 1 (S754_zero true) = "-0.0".
Proof. vm_compute. auto. Qed.

(** What is printed is as near to the value as [p] decimals can be. *)
Lemma nearest_near n d : 0 < d → 2 * Z.abs (nearest n d * d - n) ≤ d.
Proof.
  intros Hd. unfold nearest. pose proof (Z.div_mod n d ltac:(lia)) as E. pose proof (Z.mod_pos_bound n d Hd) as Hr.
  destruct (Z.ltb_spec (2 * (n mod d)) d); [nia|]. destruct (Z.ltb_spec d (2 * (n mod d))); [nia|].
  destruct (Z.even (n / d)); nia.
Qed.

Lemma scaled_near p m e :
  e < 0 → 2 * Z.abs (scaled p m e * 2 ^ (- e) - Z.pos m * 10 ^ Z.of_nat p) ≤ 2 ^ (- e).
Proof.
  intros He. unfold scaled. rewrite (proj2 (Z.leb_gt _ _)) by lia. rewrite Z.shiftl_1_l.
  apply nearest_near. apply Z.pow_pos_nonneg; lia.
Qed.
