(* ===== verification/Errors.v ===== *)
(** * The crate's error type and transport trait ([src/src/error.rs]) *)

From S2P Require Import Prelude Words Format.
Local Open Scope Z_scope.

(** [error::Error].  Sizes are [usize] values; the [String] of [Transport] is
    whatever the transport's [io::Error] prints. *)
Inductive Error : Set :=
  | ScancodeOutOfRange (sc : Z)
  | ControlMessageTooLarge (size max : Z)
  | NameTooLong (size : Z)
  | ReportDescTooLong (size : Z)
  | UnknownGamepad (id : Z)
  | NoGamepadSlot
  | Transport (msg : string)
  | BufferFullCritical
  | SessionLifecycle (what : string)
  | PointerIdOutOfRange (id max : Z)
  | PointerNotActive (id : Z)
  | PointerAlreadyDown (id : Z)
  | DispatcherDown (what : string)
  | AgentTimeout (what : string).

#[export] Instance Error_eq_dec : EqDecision Error.
Proof. solve_decision. Defined.

(** The [Display] that [thiserror] derives from the [#[error(..)]] attributes. *)
Definition Error_display (e : Error) : string :=
  match e with
  | ScancodeOutOfRange sc => "scancode " +:+ hex_u16 sc +:+ " is out of HID keyboard range"
  | ControlMessageTooLarge size max =>
      "control message too large: " +:+ pretty size +:+ " bytes (max " +:+ pretty max +:+ ")"
  | NameTooLong size => "device name too long: " +:+ pretty size +:+ " bytes (max 127)"
  | ReportDescTooLong size =>
      "report descriptor too long: " +:+ pretty size +:+ " bytes (max 65535)"
  | UnknownGamepad id => "unknown gamepad id " +:+ pretty id
  | NoGamepadSlot => "no free gamepad slot (max 8)"
  | Transport msg => "transport error: " +:+ msg
  | BufferFullCritical => "control buffer full; cannot drop non-droppable message"
  | SessionLifecycle what => "session lifecycle error: " +:+ what
  | PointerIdOutOfRange id max =>
      "multitouch pointer id " +:+ pretty id +:+ " is out of range (max " +:+ pretty max +:+ ")"
  | PointerNotActive id => "multitouch pointer " +:+ pretty id +:+ " is not active"
  | PointerAlreadyDown id => "multitouch pointer " +:+ pretty id +:+ " is already down"
  | DispatcherDown what => "hid dispatcher not running: " +:+ what
  | AgentTimeout what => "agent wait timed out: " +:+ what
  end.

(** ** [error::TransportWrite]

    [write_all] and [flush] are the two methods of the trait; the transport's
    own state [T] is what they mutate. *)
Class TransportWrite (T : Type) := {
  write_all : bytes → cmd T Error unit;
  flush : cmd T Error unit;
}.

(** What [std::io::Write] documents, and what every theorem about bytes on the
    wire relies on: [wire] is the byte sequence the peer has been sent; a
    successful [write_all] appends the whole buffer, a failing (or unwinding) one
    may have appended any prefix of it; [flush] sends nothing new. *)
Class LawfulTransport (T : Type) `{!TransportWrite T} := {
  wire : T → bytes;
  write_all_ok t b t' : write_all b t = (Ok tt, t') → wire t' = wire t ++ b;
  write_all_fail t b o t' :
    write_all b t = (o, t') → o ≠ Ok tt →
    ∃ n, wire t' = wire t ++ take n b;
  flush_wire t : wire (flush t).2 = wire t;
}.

(** A transport both of whose methods always succeed. *)
Class ReliableTransport (T : Type) `{!TransportWrite T} := {
  write_all_reliable t b : (write_all b t).1 = Ok tt;
  flush_reliable t : (flush t).1 = Ok tt;
}.

Section Laws.
Context {T : Type} `{!TransportWrite T, !LawfulTransport T}.

(** Bytes on the wire are never taken back. *)
Definition wire_grows (t t' : T) : Prop := wire t `prefix_of` wire t'.

#[export] Instance wire_grows_preorder : PreOrder wire_grows.
Proof. split; [intros t|intros t1 t2 t3]; unfold wire_grows; [done|by etrans]. Qed.

Lemma write_all_grows b : stable wire_grows (write_all b).
Proof.
  intros t. unfold wire_grows. destruct (write_all b t) as [o t'] eqn:E; cbn.
  destruct (decide (o = Ok tt)) as [->|Hne].
  - rewrite (write_all_ok _ _ _ E). by eexists.
  - destruct (write_all_fail _ _ _ _ E Hne) as [n ->]. by eexists.
Qed.

Lemma flush_grows : stable wire_grows flush.
Proof. intros t. unfold wire_grows. by rewrite flush_wire. Qed.
End Laws.

#[export] Hint Resolve write_all_grows flush_grows : rust.
