(* ===== verification/Types.v ===== *)
(** * Common enums and constants ([src/src/types.rs])

    The scancode, modifier, button and axis vocabularies, the dpad-to-hat table,
    the character-to-scancode map and the scancode validation. *)

From S2P Require Import Prelude Words Errors.
Local Open Scope Z_scope.

(** ** Constants *)

Definition HID_MAX_SIZE : nat := 15.
Definition MAX_GAMEPADS : nat := 8.
Definition GAMEPAD_ID_INVALID : Z := 0.
Definition HID_ID_KEYBOARD : Z := 1.
Definition HID_ID_MOUSE : Z := 2.
Definition HID_ID_GAMEPAD_FIRST : Z := 3.
Definition HID_ID_GAMEPAD_LAST : Z := HID_ID_GAMEPAD_FIRST + Z.of_nat MAX_GAMEPADS - 1.

(** ** Scancodes *)

Inductive Scancode : Set :=
  | Sc_A | Sc_B | Sc_C | Sc_D | Sc_E | Sc_F | Sc_G | Sc_H | Sc_I | Sc_J | Sc_K | Sc_L
  | Sc_M | Sc_N | Sc_O | Sc_P | Sc_Q | Sc_R | Sc_S | Sc_T | Sc_U | Sc_V | Sc_W | Sc_X
  | Sc_Y | Sc_Z | Sc_D1 | Sc_D2 | Sc_D3 | Sc_D4 | Sc_D5 | Sc_D6 | Sc_D7 | Sc_D8 | Sc_D9
  | Sc_D0 | Sc_Enter | Sc_Escape | Sc_Backspace | Sc_Tab | Sc_Space | Sc_Minus
  | Sc_Equals | Sc_LeftBrace | Sc_RightBrace | Sc_Backslash | Sc_NonUsHash
  | Sc_Semicolon | Sc_Apostrophe | Sc_Grave | Sc_Comma | Sc_Period | Sc_Slash
  | Sc_CapsLock | Sc_F1 | Sc_F2 | Sc_F3 | Sc_F4 | Sc_F5 | Sc_F6 | Sc_F7 | Sc_F8 | Sc_F9
  | Sc_F10 | Sc_F11 | Sc_F12 | Sc_PrintScreen | Sc_ScrollLock | Sc_Pause | Sc_Insert
  | Sc_Home | Sc_PageUp | Sc_Delete | Sc_End | Sc_PageDown | Sc_Right | Sc_Left
  | Sc_Down | Sc_Up | Sc_NumLockClear | Sc_KpDivide | Sc_KpMultiply | Sc_KpMinus
  | Sc_KpPlus | Sc_KpEnter | Sc_Kp1 | Sc_Kp2 | Sc_Kp3 | Sc_Kp4 | Sc_Kp5 | Sc_Kp6
  | Sc_Kp7 | Sc_Kp8 | Sc_Kp9 | Sc_Kp0 | Sc_KpPeriod | Sc_Reserved64 | Sc_Reserved65
  | Sc_LeftCtrl | Sc_LeftShift | Sc_LeftAlt | Sc_LeftGui | Sc_RightCtrl | Sc_RightShift
  | Sc_RightAlt | Sc_RightGui.

(** The discriminant: [self as u16] of the [repr(u16)] enum. *)
Definition Scancode_as_u16 (s : Scancode) : Z :=
  match s with
  | Sc_A => 0x04 | Sc_B => 0x05 | Sc_C => 0x06 | Sc_D => 0x07 | Sc_E => 0x08
  | Sc_F => 0x09 | Sc_G => 0x0A | Sc_H => 0x0B | Sc_I => 0x0C | Sc_J => 0x0D
  | Sc_K => 0x0E | Sc_L => 0x0F | Sc_M => 0x10 | Sc_N => 0x11 | Sc_O => 0x12
  | Sc_P => 0x13 | Sc_Q => 0x14 | Sc_R => 0x15 | Sc_S => 0x16 | Sc_T => 0x17
  | Sc_U => 0x18 | Sc_V => 0x19 | Sc_W => 0x1A | Sc_X => 0x1B | Sc_Y => 0x1C
  | Sc_Z => 0x1D | Sc_D1 => 0x1E | Sc_D2 => 0x1F | Sc_D3 => 0x20 | Sc_D4 => 0x21
  | Sc_D5 => 0x22 | Sc_D6 => 0x23 | Sc_D7 => 0x24 | Sc_D8 => 0x25 | Sc_D9 => 0x26
  | Sc_D0 => 0x27 | Sc_Enter => 0x28 | Sc_Escape => 0x29 | Sc_Backspace => 0x2A
  | Sc_Tab => 0x2B | Sc_Space => 0x2C | Sc_Minus => 0x2D | Sc_Equals => 0x2E
  | Sc_LeftBrace => 0x2F | Sc_RightBrace => 0x30 | Sc_Backslash => 0x31
  | Sc_NonUsHash => 0x32 | Sc_Semicolon => 0x33 | Sc_Apostrophe => 0x34
  | Sc_Grave => 0x35 | Sc_Comma => 0x36 | Sc_Period => 0x37 | Sc_Slash => 0x38
  | Sc_CapsLock => 0x39 | Sc_F1 => 0x3A | Sc_F2 => 0x3B | Sc_F3 => 0x3C | Sc_F4 => 0x3D
  | Sc_F5 => 0x3E | Sc_F6 => 0x3F | Sc_F7 => 0x40 | Sc_F8 => 0x41 | Sc_F9 => 0x42
  | Sc_F10 => 0x43 | Sc_F11 => 0x44 | Sc_F12 => 0x45 | Sc_PrintScreen => 0x46
  | Sc_ScrollLock => 0x47 | Sc_Pause => 0x48 | Sc_Insert => 0x49 | Sc_Home => 0x4A
  | Sc_PageUp => 0x4B | Sc_Delete => 0x4C | Sc_End => 0x4D | Sc_PageDown => 0x4E
  | Sc_Right => 0x4F | Sc_Left => 0x50 | Sc_Down => 0x51 | Sc_Up => 0x52
  | Sc_NumLockClear => 0x53 | Sc_KpDivide => 0x54 | Sc_KpMultiply => 0x55
  | Sc_KpMinus => 0x56 | Sc_KpPlus => 0x57 | Sc_KpEnter => 0x58 | Sc_Kp1 => 0x59
  | Sc_Kp2 => 0x5A | Sc_Kp3 => 0x5B | Sc_Kp4 => 0x5C | Sc_Kp5 => 0x5D | Sc_Kp6 => 0x5E
  | Sc_Kp7 => 0x5F | Sc_Kp8 => 0x60 | Sc_Kp9 => 0x61 | Sc_Kp0 => 0x62
  | Sc_KpPeriod => 0x63 | Sc_Reserved64 => 0x64 | Sc_Reserved65 => 0x65
  | Sc_LeftCtrl => 0xE0 | Sc_LeftShift => 0xE1 | Sc_LeftAlt => 0xE2
  | Sc_LeftGui => 0xE3 | Sc_RightCtrl => 0xE4 | Sc_RightShift => 0xE5
  | Sc_RightAlt => 0xE6 | Sc_RightGui => 0xE7
  end.

Definition to_u8 (s : Scancode) : Z := wrap 8 (Scancode_as_u16 s).

Definition is_modifier (s : Scancode) : bool :=
  let v := Scancode_as_u16 s in (0xE0 <=? v) && (v <=? 0xE7).

(** [Scancode::from_u8]. *)
Definition from_u8 (b : Z) : option Scancode :=
  match b with
  | 0x04 => Some Sc_A | 0x05 => Some Sc_B | 0x06 => Some Sc_C | 0x07 => Some Sc_D
  | 0x08 => Some Sc_E | 0x09 => Some Sc_F | 0x0A => Some Sc_G | 0x0B => Some Sc_H
  | 0x0C => Some Sc_I | 0x0D => Some Sc_J | 0x0E => Some Sc_K | 0x0F => Some Sc_L
  | 0x10 => Some Sc_M | 0x11 => Some Sc_N | 0x12 => Some Sc_O | 0x13 => Some Sc_P
  | 0x14 => Some Sc_Q | 0x15 => Some Sc_R | 0x16 => Some Sc_S | 0x17 => Some Sc_T
  | 0x18 => Some Sc_U | 0x19 => Some Sc_V | 0x1A => Some Sc_W | 0x1B => Some Sc_X
  | 0x1C => Some Sc_Y | 0x1D => Some Sc_Z | 0x1E => Some Sc_D1 | 0x1F => Some Sc_D2
  | 0x20 => Some Sc_D3 | 0x21 => Some Sc_D4 | 0x22 => Some Sc_D5 | 0x23 => Some Sc_D6
  | 0x24 => Some Sc_D7 | 0x25 => Some Sc_D8 | 0x26 => Some Sc_D9 | 0x27 => Some Sc_D0
  | 0x28 => Some Sc_Enter | 0x29 => Some Sc_Escape | 0x2A => Some Sc_Backspace
  | 0x2B => Some Sc_Tab | 0x2C => Some Sc_Space | 0x2D => Some Sc_Minus
  | 0x2E => Some Sc_Equals | 0x2F => Some Sc_LeftBrace | 0x30 => Some Sc_RightBrace
  | 0x31 => Some Sc_Backslash | 0x32 => Some Sc_NonUsHash | 0x33 => Some Sc_Semicolon
  | 0x34 => Some Sc_Apostrophe | 0x35 => Some Sc_Grave | 0x36 => Some Sc_Comma
  | 0x37 => Some Sc_Period | 0x38 => Some Sc_Slash | 0x39 => Some Sc_CapsLock
  | 0x3A => Some Sc_F1 | 0x3B => Some Sc_F2 | 0x3C => Some Sc_F3 | 0x3D => Some Sc_F4
  | 0x3E => Some Sc_F5 | 0x3F => Some Sc_F6 | 0x40 => Some Sc_F7 | 0x41 => Some Sc_F8
  | 0x42 => Some Sc_F9 | 0x43 => Some Sc_F10 | 0x44 => Some Sc_F11
  | 0x45 => Some Sc_F12 | 0x46 => Some Sc_PrintScreen | 0x47 => Some Sc_ScrollLock
  | 0x48 => Some Sc_Pause | 0x49 => Some Sc_Insert | 0x4A => Some Sc_Home
  | 0x4B => Some Sc_PageUp | 0x4C => Some Sc_Delete | 0x4D => Some Sc_End
  | 0x4E => Some Sc_PageDown | 0x4F => Some Sc_Right | 0x50 => Some Sc_Left
  | 0x51 => Some Sc_Down | 0x52 => Some Sc_Up | 0x53 => Some Sc_NumLockClear
  | 0x54 => Some Sc_KpDivide | 0x55 => Some Sc_KpMultiply | 0x56 => Some Sc_KpMinus
  | 0x57 => Some Sc_KpPlus | 0x58 => Some Sc_KpEnter | 0x59 => Some Sc_Kp1
  | 0x5A => Some Sc_Kp2 | 0x5B => Some Sc_Kp3 | 0x5C => Some Sc_Kp4
  | 0x5D => Some Sc_Kp5 | 0x5E => Some Sc_Kp6 | 0x5F => Some Sc_Kp7
  | 0x60 => Some Sc_Kp8 | 0x61 => Some Sc_Kp9 | 0x62 => Some Sc_Kp0
  | 0x63 => Some Sc_KpPeriod | 0xE0 => Some Sc_LeftCtrl | 0xE1 => Some Sc_LeftShift
  | 0xE2 => Some Sc_LeftAlt | 0xE3 => Some Sc_LeftGui | 0xE4 => Some Sc_RightCtrl
  | 0xE5 => Some Sc_RightShift | 0xE6 => Some Sc_RightAlt | 0xE7 => Some Sc_RightGui
  | _ => None
  end.

(** Every constructor, in declaration order. *)
Definition all_scancodes : list Scancode :=
  [Sc_A; Sc_B; Sc_C; Sc_D; Sc_E; Sc_F; Sc_G; Sc_H; Sc_I; Sc_J; Sc_K; Sc_L; Sc_M; Sc_N;
  Sc_O; Sc_P; Sc_Q; Sc_R; Sc_S; Sc_T; Sc_U; Sc_V; Sc_W; Sc_X; Sc_Y; Sc_Z; Sc_D1; Sc_D2;
  Sc_D3; Sc_D4; Sc_D5; Sc_D6; Sc_D7; Sc_D8; Sc_D9; Sc_D0; Sc_Enter; Sc_Escape;
  Sc_Backspace; Sc_Tab; Sc_Space; Sc_Minus; Sc_Equals; Sc_LeftBrace; Sc_RightBrace;
  Sc_Backslash; Sc_NonUsHash; Sc_Semicolon; Sc_Apostrophe; Sc_Grave; Sc_Comma;
  Sc_Period; Sc_Slash; Sc_CapsLock; Sc_F1; Sc_F2; Sc_F3; Sc_F4; Sc_F5; Sc_F6; Sc_F7;
  Sc_F8; Sc_F9; Sc_F10; Sc_F11; Sc_F12; Sc_PrintScreen; Sc_ScrollLock; Sc_Pause;
  Sc_Insert; Sc_Home; Sc_PageUp; Sc_Delete; Sc_End; Sc_PageDown; Sc_Right; Sc_Left;
  Sc_Down; Sc_Up; Sc_NumLockClear; Sc_KpDivide; Sc_KpMultiply; Sc_KpMinus; Sc_KpPlus;
  Sc_KpEnter; Sc_Kp1; Sc_Kp2; Sc_Kp3; Sc_Kp4; Sc_Kp5; Sc_Kp6; Sc_Kp7; Sc_Kp8; Sc_Kp9;
  Sc_Kp0; Sc_KpPeriod; Sc_Reserved64; Sc_Reserved65; Sc_LeftCtrl; Sc_LeftShift;
  Sc_LeftAlt; Sc_LeftGui; Sc_RightCtrl; Sc_RightShift; Sc_RightAlt; Sc_RightGui].

Lemma Scancode_lookup s :
  find (λ s', Scancode_as_u16 s' =? Scancode_as_u16 s) all_scancodes = Some s.
Proof. by destruct s. Qed.

#[export] Instance Scancode_as_u16_inj : Inj (=) (=) Scancode_as_u16.
Proof.
  intros s1 s2 H. pose proof (Scancode_lookup s1) as H1. rewrite H in H1.
  rewrite Scancode_lookup in H1. congruence.
Qed.

#[export] Instance Scancode_eq_dec : EqDecision Scancode.
Proof.
  intros s1 s2. destruct (decide (Scancode_as_u16 s1 = Scancode_as_u16 s2)) as [H|H].
  - left. by apply (inj Scancode_as_u16).
  - right. congruence.
Defined.

(** [Scancode::from_u16_unchecked]: a transmute, defined exactly on the
    discriminants of the enum ([None] is undefined behaviour). *)
Definition from_u16_unchecked (v : Z) : option Scancode :=
  head (filter (λ s, Scancode_as_u16 s = v) all_scancodes).

(** ** Modifiers (a [u8] bitmask newtype) *)

Abbreviation Modifiers := Z (only parsing).
Definition Modifiers_empty : Modifiers := 0.
Definition LCTRL : Modifiers := Z.shiftl 1 0.
Definition LSHIFT : Modifiers := Z.shiftl 1 1.
Definition LALT : Modifiers := Z.shiftl 1 2.
Definition LGUI : Modifiers := Z.shiftl 1 3.
Definition RCTRL : Modifiers := Z.shiftl 1 4.
Definition RSHIFT : Modifiers := Z.shiftl 1 5.
Definition RALT : Modifiers := Z.shiftl 1 6.
Definition RGUI : Modifiers := Z.shiftl 1 7.

Definition Modifiers_bits (m : Modifiers) : Z := m.
Definition Modifiers_contains (m other : Modifiers) : bool := Z.land m other =? other.
Definition Modifiers_bitor (m other : Modifiers) : Modifiers := Z.lor m other.
Definition Modifiers_bitand (m other : Modifiers) : Modifiers := Z.land m other.
Definition Modifiers_bitxor (m other : Modifiers) : Modifiers := Z.lxor m other.

(** [Scancode::try_from_char]: the new value of [*mods] and the result.  A
    [char] is its code point; ['a'] is 97, ['A'] 65, ['1'] 49. *)
Definition try_from_char (c : Z) : Modifiers * option Scancode :=
  if (97 <=? c) && (c <=? 122) then
    (Modifiers_empty, from_u8 (wrap 8 c - 97 + 0x04))
  else if (65 <=? c) && (c <=? 90) then
    (LSHIFT, from_u8 (wrap 8 c - 65 + 0x04))
  else if (49 <=? c) && (c <=? 57) then
    (Modifiers_empty, from_u8 (wrap 8 c - 49 + 0x1E))
  else
    match c with
    | 48 => (Modifiers_empty, Some Sc_D0) | 32 => (Modifiers_empty, Some Sc_Space)
    | 10 => (Modifiers_empty, Some Sc_Enter) | 9 => (Modifiers_empty, Some Sc_Tab)
    | 8 => (Modifiers_empty, Some Sc_Backspace)
    | 27 => (Modifiers_empty, Some Sc_Escape) | 33 => (LSHIFT, Some Sc_D1)
    | 64 => (LSHIFT, Some Sc_D2) | 35 => (LSHIFT, Some Sc_D3)
    | 36 => (LSHIFT, Some Sc_D4) | 37 => (LSHIFT, Some Sc_D5)
    | 94 => (LSHIFT, Some Sc_D6) | 38 => (LSHIFT, Some Sc_D7)
    | 42 => (LSHIFT, Some Sc_D8) | 40 => (LSHIFT, Some Sc_D9)
    | 41 => (LSHIFT, Some Sc_D0) | 45 => (Modifiers_empty, Some Sc_Minus)
    | 95 => (LSHIFT, Some Sc_Minus) | 61 => (Modifiers_empty, Some Sc_Equals)
    | 43 => (LSHIFT, Some Sc_Equals) | 91 => (Modifiers_empty, Some Sc_LeftBrace)
    | 123 => (LSHIFT, Some Sc_LeftBrace) | 93 => (Modifiers_empty, Some Sc_RightBrace)
    | 125 => (LSHIFT, Some Sc_RightBrace) | 92 => (Modifiers_empty, Some Sc_Backslash)
    | 124 => (LSHIFT, Some Sc_Backslash) | 59 => (Modifiers_empty, Some Sc_Semicolon)
    | 58 => (LSHIFT, Some Sc_Semicolon) | 39 => (Modifiers_empty, Some Sc_Apostrophe)
    | 34 => (LSHIFT, Some Sc_Apostrophe) | 96 => (Modifiers_empty, Some Sc_Grave)
    | 126 => (LSHIFT, Some Sc_Grave) | 44 => (Modifiers_empty, Some Sc_Comma)
    | 60 => (LSHIFT, Some Sc_Comma) | 46 => (Modifiers_empty, Some Sc_Period)
    | 62 => (LSHIFT, Some Sc_Period) | 47 => (Modifiers_empty, Some Sc_Slash)
    | 63 => (LSHIFT, Some Sc_Slash)
    | _ => (Modifiers_empty, None)
    end.

(** ** Android key, clipboard and touch vocabularies (newtypes over integers) *)

Definition KEYCODE_HOME : Z := 3.
Definition KEYCODE_BACK : Z := 4.
Definition KEYCODE_VOLUME_UP : Z := 24.
Definition KEYCODE_VOLUME_DOWN : Z := 25.
Definition KEYCODE_VOLUME_MUTE : Z := 164.
Definition KEYCODE_APP_SWITCH : Z := 187.
Definition KEY_ACTION_DOWN : Z := 0.
Definition KEY_ACTION_UP : Z := 1.
Definition COPY_KEY_NONE : Z := 0.
Definition TOUCH_CANCEL : Z := 3.

(** ** Mouse buttons *)

Inductive MouseButton : Set := MB_Left | MB_Right | MB_Middle | MB_X1 | MB_X2.

Definition MouseButton_as_u8 (b : MouseButton) : Z :=
  match b with
  | MB_Left => Z.shiftl 1 0
  | MB_Right => Z.shiftl 1 1
  | MB_Middle => Z.shiftl 1 2
  | MB_X1 => Z.shiftl 1 3
  | MB_X2 => Z.shiftl 1 4
  end.

(** [MouseButton::state]: the loop [s |= *b as u8]. *)
Definition MouseButton_state (buttons : list MouseButton) : Z :=
  foldl (λ s b, Z.lor s (MouseButton_as_u8 b)) 0 buttons.

(** ** Gamepad axes and buttons *)

Inductive GamepadAxis : Set :=
  | LeftX | LeftY | RightX | RightY | LeftTrigger | RightTrigger.

Definition GamepadAxis_as_i16 (a : GamepadAxis) : Z :=
  match a with
  | LeftX => 0 | LeftY => 1 | RightX => 2 | RightY => 3
  | LeftTrigger => 4 | RightTrigger => 5
  end.

Inductive GamepadButton : Set :=
  | South | East | West | North | Back | Start | Guide | LeftStick | RightStick
  | LeftShoulder | RightShoulder | DpadUp | DpadDown | DpadLeft | DpadRight.

Definition GamepadButton_as_u32 (b : GamepadButton) : Z :=
  match b with
  | South => 0x0001 | East => 0x0002 | West => 0x0008 | North => 0x0010
  | Back => 0x0400 | Start => 0x0800 | Guide => 0x1000
  | LeftStick => 0x2000 | RightStick => 0x4000
  | LeftShoulder => 0x0040 | RightShoulder => 0x0080
  | DpadUp => 0x00010000 | DpadDown => 0x00020000
  | DpadLeft => 0x00040000 | DpadRight => 0x00080000
  end.

#[export] Instance MouseButton_eq_dec : EqDecision MouseButton.
Proof. solve_decision. Defined.
#[export] Instance GamepadAxis_eq_dec : EqDecision GamepadAxis.
Proof. solve_decision. Defined.
#[export] Instance GamepadButton_eq_dec : EqDecision GamepadButton.
Proof. solve_decision. Defined.

Definition DPAD_MASK : Z :=
  Z.lor (Z.lor (Z.lor (GamepadButton_as_u32 DpadUp) (GamepadButton_as_u32 DpadDown))
               (GamepadButton_as_u32 DpadLeft))
        (GamepadButton_as_u32 DpadRight).

Definition DPAD_HAT_LOOKUP : list Z := [0; 1; 5; 0; 7; 8; 6; 0; 3; 2; 4; 0; 0; 0; 0; 0].

(** [dpad_hat_value].  The index is below 16 for every [u32]
    ([dpad_index_range]), so the array access never unwinds. *)
Definition dpad_index (buttons : Z) : Z := Z.shiftr (Z.land buttons DPAD_MASK) 16.
Definition dpad_hat_value (buttons : Z) : Z :=
  nth (Z.to_nat (dpad_index buttons)) DPAD_HAT_LOOKUP 0.

(** ** Scancode validation *)

Definition validate_scancode (scancode : Z) : outcome Error Z :=
  if 0xFF <? scancode then Err (ScancodeOutOfRange scancode)
  else
    let b := wrap 8 scancode in
    if (0x65 <? b) && negb ((0xE0 <=? b) && (b <=? 0xE7))
    then Err (ScancodeOutOfRange scancode)
    else Ok b.

(** ** Theorems *)

Lemma Scancode_as_u16_u8 s : u8 (Scancode_as_u16 s).
Proof. destruct s; split; cbn; lia. Qed.

Lemma to_u8_as_u16 s : to_u8 s = Scancode_as_u16 s.
Proof. apply wrap_small, Scancode_as_u16_u8. Qed.

(** [from_u8] inverts [to_u8] on every scancode but the two reserved usages. *)
Lemma from_u8_to_u8 s :
  from_u8 (to_u8 s) = if decide (s = Sc_Reserved64 ∨ s = Sc_Reserved65) then None else Some s.
Proof. destruct s; vm_compute; done. Qed.

Lemma from_u8_sound b s : u8 b → from_u8 b = Some s → to_u8 s = b.
Proof.
  intros Hb H.
  assert (match from_u8 b with Some s => bool_decide (to_u8 s = b) | None => true end = true)
    as Hc.
  { clear s H. revert b Hb. exhaust 256%nat. }
  rewrite H in Hc. by apply bool_decide_eq_true in Hc.
Qed.

Lemma dpad_index_testbits buttons :
  dpad_index buttons = Z.land (Z.shiftr buttons 16) 15.
Proof.
  unfold dpad_index. change DPAD_MASK with (Z.shiftl 15 16).
  rewrite Z.shiftr_land. f_equal.
Qed.

Lemma dpad_index_range buttons : 0 ≤ dpad_index buttons < 16.
Proof.
  rewrite dpad_index_testbits. change 15 with (Z.ones 4).
  rewrite Z.land_ones by lia. apply Z.mod_pos_bound; lia.
Qed.

(** [dpad_hat_value] against the geometry of a hat switch: 0 is released, 1..8
    are the eight directions clockwise from up.  Opposite buttons held together
    are no direction. *)
Definition dpad_held (buttons : Z) (b : GamepadButton) : bool :=
  Z.testbit buttons (Z.log2 (GamepadButton_as_u32 b)).

Definition hat_of_direction (x y : Z) : Z :=
  match x, y with
  | 0, -1 => 1 | 1, -1 => 2 | 1, 0 => 3 | 1, 1 => 4
  | 0, 1 => 5 | -1, 1 => 6 | -1, 0 => 7 | -1, -1 => 8
  | _, _ => 0
  end.

Definition dpad_opposed (buttons : Z) : bool :=
  (dpad_held buttons DpadUp && dpad_held buttons DpadDown)
  || (dpad_held buttons DpadLeft && dpad_held buttons DpadRight).

Definition dpad_direction (buttons : Z) : Z :=
  hat_of_direction
    (Z.b2z (dpad_held buttons DpadRight) - Z.b2z (dpad_held buttons DpadLeft))
    (Z.b2z (dpad_held buttons DpadDown) - Z.b2z (dpad_held buttons DpadUp)).

Lemma dpad_held_index buttons b :
  b ∈ [DpadUp; DpadDown; DpadLeft; DpadRight] →
  dpad_held buttons b =
  Z.testbit (dpad_index buttons) (Z.log2 (GamepadButton_as_u32 b) - 16).
Proof.
  intros Hb. rewrite dpad_index_testbits. unfold dpad_held.
  change 15 with (Z.ones 4).
  rewrite Z.land_spec, Z.ones_spec_low, andb_true_r, Z.shiftr_spec.
  - f_equal. lia.
  - set_unfold in Hb; destruct_or!; subst; cbn; lia.
  - set_unfold in Hb; destruct_or!; subst; cbn; lia.
Qed.

Lemma dpad_hat_geometry buttons :
  dpad_hat_value buttons = if dpad_opposed buttons then 0 else dpad_direction buttons.
Proof.
  unfold dpad_opposed, dpad_direction, dpad_hat_value.
  rewrite !dpad_held_index by set_solver.
  pose proof (dpad_index_range buttons) as Hr. revert Hr.
  generalize (dpad_index buttons). exhaust 16%nat.
Qed.

Lemma dpad_hat_range buttons : 0 ≤ dpad_hat_value buttons ≤ 8.
Proof.
  unfold dpad_hat_value. pose proof (dpad_index_range buttons) as Hr. revert Hr.
  generalize (dpad_index buttons). exhaust 16%nat.
Qed.

(** [validate_scancode] accepts exactly the keyboard usages 0..0x65 and the
    modifier usages 0xE0..0xE7. *)
Definition valid_usage (sc : Z) : Prop := 0 ≤ sc ≤ 0x65 ∨ 0xE0 ≤ sc ≤ 0xE7.
#[export] Instance valid_usage_dec sc : Decision (valid_usage sc).
Proof. unfold valid_usage. apply _. Defined.

Lemma validate_scancode_spec sc :
  u16 sc →
  validate_scancode sc =
  if decide (valid_usage sc) then Ok sc else Err (ScancodeOutOfRange sc).
Proof.
  intros H. unfold validate_scancode, valid_usage. widths.
  destruct (Z.ltb_spec 0xFF sc); cbn.
  { rewrite decide_False by lia. done. }
  rewrite wrap_small by (widths; lia).
  destruct (Z.ltb_spec 0x65 sc), (Z.leb_spec 0xE0 sc), (Z.leb_spec sc 0xE7); cbn;
    case_decide; done || lia.
Qed.

Lemma Scancode_valid s : valid_usage (Scancode_as_u16 s).
Proof. unfold valid_usage. destruct s; cbn; lia. Qed.

Lemma validate_Scancode s : validate_scancode (Scancode_as_u16 s) = Ok (Scancode_as_u16 s).
Proof. by destruct s. Qed.

(** ** The US layout the device applies to a boot-keyboard usage *)

Definition us_plain : list Z :=
  [97; 98; 99; 100; 101; 102; 103; 104; 105; 106; 107; 108; 109; 110; 111; 112; 113;
   114; 115; 116; 117; 118; 119; 120; 121; 122; 49; 50; 51; 52; 53; 54; 55; 56; 57; 48;
   10; 27; 8; 9; 32; 45; 61; 91; 93; 92; 35; 59; 39; 96; 44; 46; 47].
Definition us_shifted : list Z :=
  [65; 66; 67; 68; 69; 70; 71; 72; 73; 74; 75; 76; 77; 78; 79; 80; 81; 82; 83; 84; 85;
   86; 87; 88; 89; 90; 33; 64; 35; 36; 37; 94; 38; 42; 40; 41;
   10; 27; 8; 9; 32; 95; 43; 123; 125; 124; 126; 58; 34; 126; 60; 62; 63].

(** What the device types for modifier byte [m] and usage [u]. *)
Definition us_layout (m u : Z) : option Z :=
  if decide (4 ≤ u) then
    (if Modifiers_contains m LSHIFT then us_shifted else us_plain) !! Z.to_nat (u - 4)
  else None.

(** The characters with a key: the printable ASCII and four controls. *)
Definition typeable (c : Z) : Prop := 32 ≤ c ≤ 126 ∨ c = 8 ∨ c = 9 ∨ c = 10 ∨ c = 27.
#[export] Instance typeable_dec c : Decision (typeable c).
Proof. unfold typeable. apply _. Defined.

(** Pressing the key and modifiers chosen for a character types that character,
    and every typeable character has such a key; nothing else has one. *)
Definition char_ok (c : Z) : bool :=
  match try_from_char c with
  | (m, Some s) => bool_decide (typeable c ∧ us_layout m (to_u8 s) = Some c
                                ∧ (m = 0 ∨ m = LSHIFT) ∧ u8 m)
  | (m, None) => bool_decide (¬ typeable c ∧ m = Modifiers_empty)
  end.

Lemma try_from_char_high c : 128 ≤ c → try_from_char c = (Modifiers_empty, None).
Proof.
  intros Hc. unfold try_from_char.
  rewrite !(proj2 (Z.leb_gt c _)), !andb_false_r by lia.
  destruct c as [|p|p]; [done| |done].
  do 7 (destruct p as [p|p|]; try done; try (exfalso; lia)).
Qed.

Lemma char_ok_all c : 0 ≤ c → char_ok c = true.
Proof.
  intros Hc. destruct (Z_lt_ge_dec c 128).
  - assert (0 ≤ c < 128) as H by lia. revert H; generalize c. exhaust 128%nat.
  - unfold char_ok. rewrite try_from_char_high by lia.
    apply bool_decide_eq_true. unfold typeable. split; [lia|done].
Qed.

Lemma try_from_char_typeable c :
  0 ≤ c → typeable c →
  ∃ m s, try_from_char c = (m, Some s) ∧ us_layout m (to_u8 s) = Some c
         ∧ (m = Modifiers_empty ∨ m = LSHIFT).
Proof.
  intros Hc Ht. pose proof (char_ok_all c Hc) as H. unfold char_ok in H.
  destruct (try_from_char c) as [m [s|]]; apply bool_decide_eq_true in H; [|tauto].
  exists m, s. tauto.
Qed.

Lemma try_from_char_untypeable c :
  0 ≤ c → ¬ typeable c → try_from_char c = (Modifiers_empty, None).
Proof.
  intros Hc Ht. pose proof (char_ok_all c Hc) as H. unfold char_ok in H.
  destruct (try_from_char c) as [m [s|]]; apply bool_decide_eq_true in H; [tauto|].
  f_equal. tauto.
Qed.

(** ** Properties *)

(** [Scancode::try_from_char] is a right inverse of the US layout: for every
    typeable character (printable ASCII, backspace, tab, newline, escape) it returns a
    key and either no modifier or Shift that make the device type that very character;
    for every other [char] it returns nothing and leaves the modifiers empty. *)
Theorem try_from_char_us_layout (c : Z) (Hc : 0 ≤ c) :
  if decide (typeable c) then
    ∃ m s, try_from_char c = (m, Some s) ∧ us_layout m (to_u8 s) = Some c ∧
           (m = Modifiers_empty ∨ m = LSHIFT)
  else try_from_char c = (Modifiers_empty, None).
Proof.
  case_decide; [by apply try_from_char_typeable|by apply try_from_char_untypeable].
Qed.

Lemma try_from_char_us_layout_witness :
  0 ≤ 63 ∧
  if decide (typeable 63) then
    ∃ m s, try_from_char 63 = (m, Some s) ∧ us_layout m (to_u8 s) = Some 63 ∧
           (m = Modifiers_empty ∨ m = LSHIFT)
  else try_from_char 63 = (Modifiers_empty, None).
Proof. split; [lia|]. exact (try_from_char_us_layout 63 ltac:(lia)). Defined.

(** for every button bitmap, [dpad_hat_value] is the hat position (1 to 8,
    clockwise from up) of the direction the four dpad buttons point to, and 0
    (released) when none points anywhere or two opposite ones are held together. *)
Theorem dpad_hat_value_direction (buttons : Z) :
  dpad_hat_value buttons = (if dpad_opposed buttons then 0 else dpad_direction buttons) ∧
  0 ≤ dpad_hat_value buttons ≤ 8.
Proof. split; [apply dpad_hat_geometry|apply dpad_hat_range]. Qed.
