(* ===== verification/Message.v ===== *)
(** * Control messages ([src/src/control/message.rs])

    The message vocabulary and its serialization to the scrcpy control wire
    format.  A serializer is a method on the output buffer ([cmd bytes Error _]):
    it only ever appends, an error rolls the buffer back, an unwind does not.

    The device's side is a reference decoder ([decode]) written from the format
    table at the top of the source file; the theorems relate the two. *)

From S2P Require Import Prelude Words Errors Types Utf8 Float32.
Local Open Scope Z_scope.

Definition CONTROL_MSG_MAX_SIZE : Z := 262144.
Definition INJECT_TEXT_MAX_LENGTH : Z := 300.

(** ** Data *)

Inductive ControlMsgType : Set :=
  | Ty_InjectKeycode | Ty_InjectText | Ty_InjectTouchEvent | Ty_InjectScrollEvent
  | Ty_BackOrScreenOn | Ty_ExpandNotification | Ty_ExpandSettings | Ty_CollapsePanels
  | Ty_GetClipboard | Ty_SetClipboard | Ty_SetDisplayPower | Ty_RotateDevice
  | Ty_UhidCreate | Ty_UhidInput | Ty_UhidDestroy | Ty_OpenHardKbSettings
  | Ty_StartApp | Ty_ResetVideo | Ty_CameraSetTorch | Ty_CameraZoomIn
  | Ty_CameraZoomOut | Ty_ResizeDisplay | Ty_AiConfig | Ty_AiQuery | Ty_AiPause.

Definition ControlMsgType_as_u8 (t : ControlMsgType) : Z :=
  match t with
  | Ty_InjectKeycode => 0 | Ty_InjectText => 1 | Ty_InjectTouchEvent => 2
  | Ty_InjectScrollEvent => 3 | Ty_BackOrScreenOn => 4 | Ty_ExpandNotification => 5
  | Ty_ExpandSettings => 6 | Ty_CollapsePanels => 7 | Ty_GetClipboard => 8
  | Ty_SetClipboard => 9 | Ty_SetDisplayPower => 10 | Ty_RotateDevice => 11
  | Ty_UhidCreate => 12 | Ty_UhidInput => 13 | Ty_UhidDestroy => 14
  | Ty_OpenHardKbSettings => 15 | Ty_StartApp => 16 | Ty_ResetVideo => 17
  | Ty_CameraSetTorch => 18 | Ty_CameraZoomIn => 19 | Ty_CameraZoomOut => 20
  | Ty_ResizeDisplay => 21 | Ty_AiConfig => 22 | Ty_AiQuery => 23 | Ty_AiPause => 24
  end.

Definition AI_FLAG_KEYFRAMES : Z := Z.shiftl 1 0.
Definition AI_FLAG_FEATURES : Z := Z.shiftl 1 1.
Definition AI_FLAG_MOTION : Z := Z.shiftl 1 2.
Definition AI_FLAG_OBJECTS : Z := Z.shiftl 1 3.
Definition AI_FLAG_TEXT : Z := Z.shiftl 1 4.

Record AiConfig : Set := mkAiConfig
  { ac_flags : Z; ac_sample_interval_ms : Z; ac_feature_dim : Z }.
Record AiQuery : Set := mkAiQuery { aq_since_timestamp_ms : Z }.
Record UhidCreate : Set := mkUhidCreate
  { uc_id : Z; uc_vendor_id : Z; uc_product_id : Z;
    uc_name : option str; uc_report_desc : bytes }.
(** [ui_data] has [HID_MAX_SIZE] bytes. *)
Record UhidInput : Set := mkUhidInput { ui_id : Z; ui_size : Z; ui_data : bytes }.
Record UhidDestroy : Set := mkUhidDestroy { ud_id : Z }.
Record InjectKeycode : Set := mkInjectKeycode
  { ik_action : Z; ik_keycode : Z; ik_repeat : Z; ik_metastate : Z }.
Record InjectText : Set := mkInjectText { it_text : str }.
Record InjectTouchEvent : Set := mkInjectTouchEvent
  { te_action : Z; te_pointer_id : Z; te_x : Z; te_y : Z; te_screen_w : Z;
    te_screen_h : Z; te_pressure : f32; te_action_button : Z; te_buttons : Z }.
Record InjectScrollEvent : Set := mkInjectScrollEvent
  { se_x : Z; se_y : Z; se_screen_w : Z; se_screen_h : Z;
    se_hscroll : f32; se_vscroll : f32; se_buttons : Z }.
Record SetClipboard : Set := mkSetClipboard
  { sc_sequence : Z; sc_paste : bool; sc_text : str }.

(** The structs of one field ([BackOrScreenOn], [GetClipboard],
    [SetDisplayPower], [StartApp], [CameraSetTorch]) are their field. *)
Inductive ControlMessage : Set :=
  | Cm_UhidCreate (c : UhidCreate)
  | Cm_UhidInput (i : UhidInput)
  | Cm_UhidDestroy (d : UhidDestroy)
  | Cm_InjectKeycode (k : InjectKeycode)
  | Cm_InjectText (t : InjectText)
  | Cm_InjectTouchEvent (t : InjectTouchEvent)
  | Cm_InjectScrollEvent (s : InjectScrollEvent)
  | Cm_BackOrScreenOn (action : Z)
  | Cm_GetClipboard (copy_key : Z)
  | Cm_SetClipboard (s : SetClipboard)
  | Cm_SetDisplayPower (on : bool)
  | Cm_StartApp (name : str)
  | Cm_CameraSetTorch (on : bool)
  | Cm_ResizeDisplay (width height : Z)
  | Cm_ExpandNotificationPanel
  | Cm_ExpandSettingsPanel
  | Cm_CollapsePanels
  | Cm_RotateDevice
  | Cm_OpenHardKeyboardSettings
  | Cm_ResetVideo
  | Cm_CameraZoomIn
  | Cm_CameraZoomOut
  | Cm_AiConfig (c : AiConfig)
  | Cm_AiQuery (q : AiQuery)
  | Cm_AiPause.

#[export] Instance UhidCreate_eq_dec : EqDecision UhidCreate.
Proof. solve_decision. Defined.
#[export] Instance UhidInput_eq_dec : EqDecision UhidInput.
Proof. solve_decision. Defined.
#[export] Instance UhidDestroy_eq_dec : EqDecision UhidDestroy.
Proof. solve_decision. Defined.
#[export] Instance InjectKeycode_eq_dec : EqDecision InjectKeycode.
Proof. solve_decision. Defined.
#[export] Instance InjectText_eq_dec : EqDecision InjectText.
Proof. solve_decision. Defined.
#[export] Instance InjectTouchEvent_eq_dec : EqDecision InjectTouchEvent.
Proof. solve_decision. Defined.
#[export] Instance InjectScrollEvent_eq_dec : EqDecision InjectScrollEvent.
Proof. solve_decision. Defined.
#[export] Instance SetClipboard_eq_dec : EqDecision SetClipboard.
Proof. solve_decision. Defined.
#[export] Instance AiConfig_eq_dec : EqDecision AiConfig.
Proof. solve_decision. Defined.
#[export] Instance AiQuery_eq_dec : EqDecision AiQuery.
Proof. solve_decision. Defined.
#[export] Instance ControlMessage_eq_dec : EqDecision ControlMessage.
Proof. solve_decision. Defined.

Definition msg_type (m : ControlMessage) : ControlMsgType :=
  match m with
  | Cm_InjectKeycode _ => Ty_InjectKeycode
  | Cm_InjectText _ => Ty_InjectText
  | Cm_InjectTouchEvent _ => Ty_InjectTouchEvent
  | Cm_InjectScrollEvent _ => Ty_InjectScrollEvent
  | Cm_BackOrScreenOn _ => Ty_BackOrScreenOn
  | Cm_ExpandNotificationPanel => Ty_ExpandNotification
  | Cm_ExpandSettingsPanel => Ty_ExpandSettings
  | Cm_CollapsePanels => Ty_CollapsePanels
  | Cm_GetClipboard _ => Ty_GetClipboard
  | Cm_SetClipboard _ => Ty_SetClipboard
  | Cm_SetDisplayPower _ => Ty_SetDisplayPower
  | Cm_RotateDevice => Ty_RotateDevice
  | Cm_UhidCreate _ => Ty_UhidCreate
  | Cm_UhidInput _ => Ty_UhidInput
  | Cm_UhidDestroy _ => Ty_UhidDestroy
  | Cm_OpenHardKeyboardSettings => Ty_OpenHardKbSettings
  | Cm_StartApp _ => Ty_StartApp
  | Cm_ResetVideo => Ty_ResetVideo
  | Cm_CameraSetTorch _ => Ty_CameraSetTorch
  | Cm_CameraZoomIn => Ty_CameraZoomIn
  | Cm_CameraZoomOut => Ty_CameraZoomOut
  | Cm_ResizeDisplay _ _ => Ty_ResizeDisplay
  | Cm_AiConfig _ => Ty_AiConfig
  | Cm_AiQuery _ => Ty_AiQuery
  | Cm_AiPause => Ty_AiPause
  end.

Definition is_critical (m : ControlMessage) : bool :=
  match m with
  | Cm_UhidCreate _ | Cm_UhidDestroy _ => true
  | _ => false
  end.

(** ** Serializers *)

Abbreviation writer := (cmd bytes Error) (only parsing).

(** [buf.push(b)] and [buf.extend_from_slice(l)]. *)
Definition push (b : Z) : writer unit := modify (λ buf, buf ++ [b]).
Definition extend (l : bytes) : writer unit := modify (λ buf, buf ++ l).

Definition write_u16_be (v : Z) : writer unit := extend (be_bytes 2 v).
Definition write_u32_be (v : Z) : writer unit := extend (be_bytes 4 v).
Definition write_u64_be (v : Z) : writer unit := extend (be_bytes 8 v).

Definition write_tiny_string (s : str) (max_len : nat) : writer unit :=
  if Nat.ltb 0xFF max_len then unwind
  else if Nat.ltb max_len (length s) then raise (NameTooLong (Z.of_nat (length s)))
  else push (wrap 8 (Z.of_nat (length s)));; extend s.

Definition write_string (s : str) : writer unit :=
  extend (be_bytes 4 (wrap 32 (Z.of_nat (length s))));; extend s.

Definition write_position (x y w h : Z) : writer unit :=
  write_u32_be (wrap 32 x);; write_u32_be (wrap 32 y);; write_u16_be w;; write_u16_be h.

Definition serialize_uhid_create (c : UhidCreate) : writer unit :=
  write_u16_be (uc_id c);;
  write_u16_be (uc_vendor_id c);;
  write_u16_be (uc_product_id c);;
  match uc_name c with
  | Some n => write_tiny_string n 127
  | None => push 0
  end;;
  if decide (65535 < Z.of_nat (length (uc_report_desc c))) then
    raise (ReportDescTooLong (Z.of_nat (length (uc_report_desc c))))
  else
    write_u16_be (wrap 16 (Z.of_nat (length (uc_report_desc c))));;
    extend (uc_report_desc c).

Definition HID_MSG_BUDGET : Z := 5 + Z.of_nat HID_MAX_SIZE.

(** [&i.data[..i.size]]: unwinds when [size] exceeds the array. *)
Definition serialize_uhid_input (i : UhidInput) : writer unit :=
  write_u16_be (ui_id i);;
  if decide (Z.of_nat HID_MAX_SIZE < ui_size i) then
    raise (ControlMessageTooLarge (ui_size i + 5) HID_MSG_BUDGET)
  else
    write_u16_be (ui_size i);;
    if decide (ui_size i ≤ Z.of_nat (length (ui_data i)))
    then extend (take (Z.to_nat (ui_size i)) (ui_data i)) else unwind.

Definition serialize_uhid_destroy (d : UhidDestroy) : writer unit := write_u16_be (ud_id d).

Definition serialize_inject_keycode (k : InjectKeycode) : writer unit :=
  push (ik_action k);;
  write_u32_be (ik_keycode k);;
  write_u32_be (ik_repeat k);;
  write_u32_be (ik_metastate k).

(** [if text.len() > max { &text[..max] } else { &text[..] }] *)
Definition str_truncated (text : str) (max : Z) : writer str :=
  if decide (max < Z.of_nat (length text))
  then lift (str_prefix text (Z.to_nat max))
  else mret text.

Definition serialize_inject_text (t : InjectText) : writer unit :=
  truncated ← str_truncated (it_text t) INJECT_TEXT_MAX_LENGTH;
  write_string truncated.

(** [(pressure.clamp(0.0, 1.0) * 65536.0) as u16] *)
Definition pressure_fixed (p : f32) : Z :=
  f32_as_u16 (fmul (fclamp p (f32_of_Z 0) (f32_of_Z 1)) (f32_of_Z 65536)).

(** [((v / 16.0).clamp(-1.0, 1.0) * 32768.0) as i16 as u16] *)
Definition scroll_fixed (v : f32) : Z :=
  let norm := fclamp (fdiv v (f32_of_Z 16)) (f32_of_Z (-1)) (f32_of_Z 1) in
  wrap 16 (f32_as_i16 (fmul norm (f32_of_Z 32768))).

Definition serialize_inject_touch (t : InjectTouchEvent) : writer unit :=
  push (te_action t);;
  write_u64_be (te_pointer_id t);;
  write_position (te_x t) (te_y t) (te_screen_w t) (te_screen_h t);;
  write_u16_be (pressure_fixed (te_pressure t));;
  write_u32_be (te_action_button t);;
  write_u32_be (te_buttons t).

Definition serialize_inject_scroll (s : InjectScrollEvent) : writer unit :=
  write_position (se_x s) (se_y s) (se_screen_w s) (se_screen_h s);;
  write_u16_be (scroll_fixed (se_hscroll s));;
  write_u16_be (scroll_fixed (se_vscroll s));;
  write_u32_be (se_buttons s).

Definition SET_CLIPBOARD_TEXT_MAX : Z := CONTROL_MSG_MAX_SIZE - 14.

Definition serialize_set_clipboard (s : SetClipboard) : writer unit :=
  write_u64_be (sc_sequence s);;
  push (Z.b2z (sc_paste s));;
  truncated ← str_truncated (sc_text s) SET_CLIPBOARD_TEXT_MAX;
  write_string truncated.

Definition serialize_start_app (name : str) : writer unit := write_tiny_string name 255.

(** The payload after the type byte: the [match] of [serialize_into]. *)
Definition serialize_payload (m : ControlMessage) : writer unit :=
  match m with
  | Cm_UhidCreate c => serialize_uhid_create c
  | Cm_UhidInput i => serialize_uhid_input i
  | Cm_UhidDestroy d => serialize_uhid_destroy d
  | Cm_InjectKeycode k => serialize_inject_keycode k
  | Cm_InjectText t => serialize_inject_text t
  | Cm_InjectTouchEvent t => serialize_inject_touch t
  | Cm_InjectScrollEvent s => serialize_inject_scroll s
  | Cm_BackOrScreenOn action => push action
  | Cm_GetClipboard copy_key => push copy_key
  | Cm_SetClipboard s => serialize_set_clipboard s
  | Cm_SetDisplayPower on => push (Z.b2z on)
  | Cm_StartApp name => serialize_start_app name
  | Cm_CameraSetTorch on => push (Z.b2z on)
  | Cm_ResizeDisplay width height =>
      extend (be_bytes 2 width);; extend (be_bytes 2 height)
  | Cm_AiConfig c =>
      push (ac_flags c);;
      extend (be_bytes 2 (ac_sample_interval_ms c));;
      extend (be_bytes 2 (ac_feature_dim c))
  | Cm_AiQuery q => extend (be_bytes 8 (aq_since_timestamp_ms q))
  | Cm_AiPause
  | Cm_ExpandNotificationPanel | Cm_ExpandSettingsPanel | Cm_CollapsePanels
  | Cm_RotateDevice | Cm_OpenHardKeyboardSettings | Cm_ResetVideo
  | Cm_CameraZoomIn | Cm_CameraZoomOut => mret tt
  end.

(** [ControlMessage::serialize_into]: rolls the buffer back on an error. *)
Definition serialize_into (m : ControlMessage) : writer Z := λ buf,
  let start := length buf in
  match (push (ControlMsgType_as_u8 (msg_type m));; serialize_payload m) buf with
  | (Err err, buf') => (Err err, take start buf')
  | (Panicked, buf') => (Panicked, buf')
  | (Ok _, buf') =>
      let written := Z.of_nat (length buf') - Z.of_nat start in
      if CONTROL_MSG_MAX_SIZE <? written
      then (Err (ControlMessageTooLarge written CONTROL_MSG_MAX_SIZE), take start buf')
      else (Ok written, buf')
  end.

(** [ControlMessage::serialize] *)
Definition serialize (m : ControlMessage) : outcome Error bytes :=
  match serialize_into m [] with
  | (Ok _, buf) => Ok buf
  | (Err e, _) => Err e
  | (Panicked, _) => Panicked
  end.

(** ** Well-formed messages: what the Rust types guarantee *)

Definition ControlMessage_wf (m : ControlMessage) : Prop :=
  match m with
  | Cm_UhidCreate c =>
      u16 (uc_id c) ∧ u16 (uc_vendor_id c) ∧ u16 (uc_product_id c) ∧
      match uc_name c with Some n => is_str n | None => True end ∧
      is_bytes (uc_report_desc c)
  | Cm_UhidInput i =>
      u16 (ui_id i) ∧ u16 (ui_size i) ∧ length (ui_data i) = HID_MAX_SIZE ∧
      is_bytes (ui_data i)
  | Cm_UhidDestroy d => u16 (ud_id d)
  | Cm_InjectKeycode k =>
      u8 (ik_action k) ∧ u32 (ik_keycode k) ∧ u32 (ik_repeat k) ∧ u32 (ik_metastate k)
  | Cm_InjectText t => is_str (it_text t)
  | Cm_InjectTouchEvent t =>
      u8 (te_action t) ∧ u64 (te_pointer_id t) ∧ i32 (te_x t) ∧ i32 (te_y t) ∧
      u16 (te_screen_w t) ∧ u16 (te_screen_h t) ∧ u32 (te_action_button t) ∧
      u32 (te_buttons t)
  | Cm_InjectScrollEvent s =>
      i32 (se_x s) ∧ i32 (se_y s) ∧ u16 (se_screen_w s) ∧ u16 (se_screen_h s) ∧
      u32 (se_buttons s)
  | Cm_BackOrScreenOn a | Cm_GetClipboard a => u8 a
  | Cm_SetClipboard s => u64 (sc_sequence s) ∧ is_str (sc_text s)
  | Cm_StartApp n => is_str n
  | Cm_ResizeDisplay w h => u16 w ∧ u16 h
  | Cm_AiConfig c =>
      u8 (ac_flags c) ∧ u16 (ac_sample_interval_ms c) ∧ u16 (ac_feature_dim c)
  | Cm_AiQuery q => u64 (aq_since_timestamp_ms q)
  | _ => True
  end.

(** The messages the serializer accepts: names and descriptors within their
    length fields, truncation points on character boundaries. *)
Definition text_fits (text : str) (max : Z) : Prop :=
  Z.of_nat (length text) ≤ max ∨ is_char_boundary text (Z.to_nat max) = true.

Definition encodable (m : ControlMessage) : Prop :=
  match m with
  | Cm_UhidCreate c =>
      match uc_name c with Some n => (length n ≤ 127)%nat | None => True end ∧
      Z.of_nat (length (uc_report_desc c)) ≤ 65535
  | Cm_UhidInput i => ui_size i ≤ 15
  | Cm_InjectText t => text_fits (it_text t) INJECT_TEXT_MAX_LENGTH
  | Cm_SetClipboard s => text_fits (sc_text s) SET_CLIPBOARD_TEXT_MAX
  | Cm_StartApp n => (length n ≤ 255)%nat
  | _ => True
  end.

#[export] Instance encodable_dec m : Decision (encodable m).
Proof. destruct m; cbn; try apply _; unfold text_fits; try apply _.
  destruct (uc_name c); apply _. Defined.

(** ** The device's reader *)

Inductive Wire : Set :=
  | W_UhidCreate (id vendor_id product_id : Z) (name report_desc : bytes)
  | W_UhidInput (id : Z) (data : bytes)
  | W_UhidDestroy (id : Z)
  | W_InjectKeycode (action keycode repeat metastate : Z)
  | W_InjectText (text : bytes)
  | W_InjectTouch (action pointer_id x y w h pressure action_button buttons : Z)
  | W_InjectScroll (x y w h hscroll vscroll buttons : Z)
  | W_SetClipboard (sequence : Z) (paste : bool) (text : bytes)
  | W_StartApp (name : bytes)
  | W_ResizeDisplay (w h : Z)
  | W_AiConfig (flags interval dim : Z)
  | W_AiQuery (since : Z)
  | W_Byte (t b : Z)
  | W_Tag (t : Z).

Definition get_be (n : nat) (s : bytes) : option (Z * bytes) :=
  '(b, s) ← split_bytes n s; Some (be_val b, s).

Definition get_prefixed (n : nat) (s : bytes) : option (bytes * bytes) :=
  '(len, s) ← get_be n s; split_bytes (Z.to_nat len) s.

Definition get_position (s : bytes) : option (Z * Z * Z * Z * bytes) :=
  '(x, s) ← get_be 4 s; '(y, s) ← get_be 4 s;
  '(w, s) ← get_be 2 s; '(h, s) ← get_be 2 s;
  Some (swrap 32 x, swrap 32 y, w, h, s).

Definition decode_payload (t : Z) (s : bytes) : option (Wire * bytes) :=
  match t with
  | 12 =>
      '(id, s) ← get_be 2 s; '(v, s) ← get_be 2 s; '(p, s) ← get_be 2 s;
      '(name, s) ← get_prefixed 1 s; '(desc, s) ← get_prefixed 2 s;
      Some (W_UhidCreate id v p name desc, s)
  | 13 =>
      '(id, s) ← get_be 2 s; '(data, s) ← get_prefixed 2 s;
      Some (W_UhidInput id data, s)
  | 14 => '(id, s) ← get_be 2 s; Some (W_UhidDestroy id, s)
  | 0 =>
      '(a, s) ← get_be 1 s; '(k, s) ← get_be 4 s; '(r, s) ← get_be 4 s;
      '(m, s) ← get_be 4 s; Some (W_InjectKeycode a k r m, s)
  | 1 => '(text, s) ← get_prefixed 4 s; Some (W_InjectText text, s)
  | 2 =>
      '(a, s) ← get_be 1 s; '(p, s) ← get_be 8 s;
      '(x, y, w, h, s) ← get_position s;
      '(pr, s) ← get_be 2 s; '(ab, s) ← get_be 4 s; '(b, s) ← get_be 4 s;
      Some (W_InjectTouch a p x y w h pr ab b, s)
  | 3 =>
      '(x, y, w, h, s) ← get_position s;
      '(hs, s) ← get_be 2 s; '(vs, s) ← get_be 2 s; '(b, s) ← get_be 4 s;
      Some (W_InjectScroll x y w h (swrap 16 hs) (swrap 16 vs) b, s)
  | 9 =>
      '(q, s) ← get_be 8 s; '(p, s) ← get_be 1 s; '(text, s) ← get_prefixed 4 s;
      Some (W_SetClipboard q (negb (p =? 0)) text, s)
  | 16 => '(name, s) ← get_prefixed 1 s; Some (W_StartApp name, s)
  | 21 => '(w, s) ← get_be 2 s; '(h, s) ← get_be 2 s; Some (W_ResizeDisplay w h, s)
  | 22 =>
      '(f, s) ← get_be 1 s; '(i, s) ← get_be 2 s; '(d, s) ← get_be 2 s;
      Some (W_AiConfig f i d, s)
  | 23 => '(q, s) ← get_be 8 s; Some (W_AiQuery q, s)
  | 4 | 8 | 10 | 18 => '(b, s) ← get_be 1 s; Some (W_Byte t b, s)
  | 5 | 6 | 7 | 11 | 15 | 17 | 19 | 20 | 24 => Some (W_Tag t, s)
  | _ => None
  end.

Definition decode (s : bytes) : option (Wire * bytes) :=
  '(t, s) ← get_be 1 s; decode_payload t s.

(** A whole control stream; each frame has at least its type byte, so the length
    is enough fuel. *)
Fixpoint decode_fuel (fuel : nat) (s : bytes) : option (list Wire) :=
  match fuel, s with
  | _, [] => Some []
  | O, _ => None
  | S fuel, _ => '(w, s) ← decode s; ws ← decode_fuel fuel s; Some (w :: ws)
  end.
Definition decode_all (s : bytes) : option (list Wire) := decode_fuel (length s) s.

(** The abstract meaning of a message. *)
Definition signed_scroll (v : f32) : Z := swrap 16 (scroll_fixed v).
Definition text_of (text : str) (max : Z) : str :=
  if decide (max < Z.of_nat (length text)) then take (Z.to_nat max) text else text.

Definition wire_of (m : ControlMessage) : Wire :=
  match m with
  | Cm_UhidCreate c =>
      W_UhidCreate (uc_id c) (uc_vendor_id c) (uc_product_id c)
        (default [] (uc_name c)) (uc_report_desc c)
  | Cm_UhidInput i => W_UhidInput (ui_id i) (take (Z.to_nat (ui_size i)) (ui_data i))
  | Cm_UhidDestroy d => W_UhidDestroy (ud_id d)
  | Cm_InjectKeycode k =>
      W_InjectKeycode (ik_action k) (ik_keycode k) (ik_repeat k) (ik_metastate k)
  | Cm_InjectText t => W_InjectText (text_of (it_text t) INJECT_TEXT_MAX_LENGTH)
  | Cm_InjectTouchEvent t =>
      W_InjectTouch (te_action t) (te_pointer_id t) (te_x t) (te_y t) (te_screen_w t)
        (te_screen_h t) (pressure_fixed (te_pressure t)) (te_action_button t)
        (te_buttons t)
  | Cm_InjectScrollEvent s =>
      W_InjectScroll (se_x s) (se_y s) (se_screen_w s) (se_screen_h s)
        (signed_scroll (se_hscroll s)) (signed_scroll (se_vscroll s)) (se_buttons s)
  | Cm_SetClipboard s =>
      W_SetClipboard (sc_sequence s) (sc_paste s)
        (text_of (sc_text s) SET_CLIPBOARD_TEXT_MAX)
  | Cm_StartApp n => W_StartApp n
  | Cm_ResizeDisplay w h => W_ResizeDisplay w h
  | Cm_AiConfig c => W_AiConfig (ac_flags c) (ac_sample_interval_ms c) (ac_feature_dim c)
  | Cm_AiQuery q => W_AiQuery (aq_since_timestamp_ms q)
  | Cm_BackOrScreenOn a => W_Byte 4 a
  | Cm_GetClipboard k => W_Byte 8 k
  | Cm_SetDisplayPower on => W_Byte 10 (Z.b2z on)
  | Cm_CameraSetTorch on => W_Byte 18 (Z.b2z on)
  | m => W_Tag (ControlMsgType_as_u8 (msg_type m))
  end.

(** ** Serializers only append *)

Definition appends {A} (c : writer A) : Prop :=
  ∀ buf, c buf = ((c []).1, buf ++ (c []).2).

Lemma appends_bind {A B} (c : writer A) (k : A → writer B) :
  appends c → (∀ a, appends (k a)) → appends (c ≫= k).
Proof.
  intros Hc Hk buf. unfold mbind, cmd_bind. rewrite (Hc buf).
  destruct (c []) as [[a|e|] l] eqn:E; cbn; [|done|done].
  rewrite (Hk a (buf ++ l)), (Hk a l). cbn. by rewrite app_assoc.
Qed.

Lemma appends_ret {A} (a : A) : appends (mret a).
Proof. intros buf. cbn. by rewrite app_nil_r. Qed.

Lemma appends_lift {A} (o : outcome Error A) : appends (lift o).
Proof. intros buf. cbn. by rewrite app_nil_r. Qed.

Lemma appends_raise {A} e : appends (A := A) (raise e).
Proof. intros buf. cbn. by rewrite app_nil_r. Qed.

Lemma appends_unwind {A} : appends (A := A) unwind.
Proof. intros buf. cbn. by rewrite app_nil_r. Qed.

Lemma appends_extend l : appends (extend l).
Proof. intros buf. done. Qed.

Lemma appends_push b : appends (push b).
Proof. intros buf. done. Qed.

Create HintDb appends.
#[local] Hint Resolve appends_bind appends_ret appends_lift appends_raise
  appends_unwind appends_extend appends_push : appends.

Ltac appends := repeat first [case_match | case_decide]; eauto 20 with appends.

Lemma appends_write_tiny_string s n : appends (write_tiny_string s n).
Proof. unfold write_tiny_string. appends. Qed.

Lemma appends_write_string s : appends (write_string s).
Proof. unfold write_string. appends. Qed.

Lemma appends_str_truncated s n : appends (str_truncated s n).
Proof. unfold str_truncated. appends. Qed.

Lemma appends_write_position x y w h : appends (write_position x y w h).
Proof. unfold write_position, write_u32_be, write_u16_be. appends. Qed.

#[local] Hint Resolve appends_write_tiny_string appends_write_string
  appends_str_truncated appends_write_position : appends.

Lemma appends_payload m : appends (serialize_payload m).
Proof.
  destruct m; cbn [serialize_payload];
    unfold serialize_uhid_create, serialize_uhid_input, serialize_uhid_destroy,
      serialize_inject_keycode, serialize_inject_text, serialize_inject_touch,
      serialize_inject_scroll, serialize_set_clipboard, serialize_start_app,
      write_u16_be, write_u32_be, write_u64_be; appends;
    repeat (apply appends_bind; [|intros]); appends.
Qed.

Lemma appends_message m :
  appends (push (ControlMsgType_as_u8 (msg_type m));; serialize_payload m).
Proof. auto using appends_payload with appends. Qed.

(** ** What a payload serializer writes *)

Lemma extend_run l buf : extend l buf = (Ok tt, buf ++ l).
Proof. done. Qed.

Lemma write_tiny_string_run s n buf :
  (n ≤ 255)%nat →
  write_tiny_string s n buf =
  if decide (length s ≤ n)%nat
  then (Ok tt, buf ++ be_bytes 1 (Z.of_nat (length s)) ++ s)
  else (Err (NameTooLong (Z.of_nat (length s))), buf).
Proof.
  intros Hn. unfold write_tiny_string.
  destruct (Nat.ltb_spec 0xFF n); [lia|].
  case_decide; destruct (Nat.ltb_spec n (length s)); try lia; [|done].
  unfold push, extend. run. rewrite wrap_small by (widths; lia).
  rewrite be_bytes_1 by (widths; lia). by rewrite <-app_assoc.
Qed.

Lemma write_string_run s buf :
  Z.of_nat (length s) < 2 ^ 32 →
  write_string s buf = (Ok tt, buf ++ be_bytes 4 (Z.of_nat (length s)) ++ s).
Proof.
  intros Hs. unfold write_string. unfold extend. run.
  rewrite wrap_small by (widths; lia). by rewrite app_assoc.
Qed.

Lemma str_truncated_run text max buf :
  str_truncated text max buf =
  if decide (text_fits text max) then (Ok (text_of text max), buf) else (Panicked, buf).
Proof.
  unfold str_truncated, text_fits, text_of, str_prefix.
  destruct (decide (max < Z.of_nat (length text))) as [H|H].
  - cbn. destruct (is_char_boundary text (Z.to_nat max)).
    + rewrite decide_True by auto. done.
    + rewrite decide_False; [done|]. intros [?|?]; [lia|done].
  - rewrite decide_True by lia. done.
Qed.

Lemma length_text_of text max : 0 ≤ max → Z.of_nat (length (text_of text max)) ≤ max.
Proof. intros. unfold text_of. case_decide; [rewrite length_take|]; lia. Qed.

(** ** What the serializers emit and what the reader makes of it *)

Definition emits (c : writer unit) (l : bytes) : Prop := ∀ buf, c buf = (Ok tt, buf ++ l).

Lemma emits_bind {A} (c : writer A) (a : A) (k : A → writer unit) l1 l2 :
  (∀ buf, c buf = (Ok a, buf ++ l1)) → emits (k a) l2 → emits (c ≫= k) (l1 ++ l2).
Proof.
  intros Hc Hk buf. unfold mbind, cmd_bind. rewrite Hc, (Hk (buf ++ l1)).
  by rewrite app_assoc.
Qed.

Lemma emits_seq (c k : writer unit) l1 l2 :
  emits c l1 → emits k l2 → emits (c;; k) (l1 ++ l2).
Proof. intros Hc Hk. by apply (emits_bind c tt). Qed.

Lemma emits_ret : emits (mret tt) [].
Proof. intros buf. cbn. by rewrite app_nil_r. Qed.

Lemma emits_extend l : emits (extend l) l.
Proof. done. Qed.

Lemma emits_push b : u8 b → emits (push b) (be_bytes 1 b).
Proof. intros Hb buf. by rewrite be_bytes_1. Qed.

Lemma emits_write_tiny_string s n :
  (length s ≤ n)%nat → (n ≤ 255)%nat →
  emits (write_tiny_string s n) (be_bytes 1 (Z.of_nat (length s)) ++ s).
Proof. intros Hs Hn buf. by rewrite write_tiny_string_run, decide_True. Qed.

Lemma emits_truncated text max :
  text_fits text max → 0 ≤ max < 2 ^ 32 →
  emits (t ← str_truncated text max; write_string t)
    (be_bytes 4 (Z.of_nat (length (text_of text max))) ++ text_of text max).
Proof.
  intros Hf Hmax buf. unfold mbind, cmd_bind.
  rewrite str_truncated_run, decide_True by done.
  apply write_string_run. pose proof (length_text_of text max). lia.
Qed.

Lemma emits_write_position x y w h :
  emits (write_position x y w h)
    (be_bytes 4 (wrap 32 x) ++ be_bytes 4 (wrap 32 y) ++ be_bytes 2 w ++ be_bytes 2 h).
Proof. unfold write_position. repeat apply emits_seq; apply emits_extend. Qed.

Lemma get_be_app n v s :
  0 ≤ v < 256 ^ Z.of_nat n → get_be n (be_bytes n v ++ s) = Some (v, s).
Proof.
  intros Hv. unfold get_be. rewrite split_bytes_app by apply length_be_bytes.
  cbn. by rewrite be_val_bytes_id.
Qed.

Lemma get_prefixed_app n l s :
  Z.of_nat (length l) < 256 ^ Z.of_nat n →
  get_prefixed n (be_bytes n (Z.of_nat (length l)) ++ l ++ s) = Some (l, s).
Proof.
  intros Hl. unfold get_prefixed. rewrite get_be_app by lia. cbn.
  by rewrite Nat2Z.id, split_bytes_app.
Qed.

Lemma get_position_app x y w h s :
  i32 x → i32 y → u16 w → u16 h →
  get_position (be_bytes 4 (wrap 32 x) ++ be_bytes 4 (wrap 32 y)
                ++ be_bytes 2 w ++ be_bytes 2 h ++ s) = Some (x, y, w, h, s).
Proof.
  intros Hx Hy Hw Hh. unfold get_position.
  rewrite (get_be_app 4) by (apply wrap_range; lia). cbn.
  rewrite (get_be_app 4) by (apply wrap_range; lia). cbn.
  rewrite (get_be_app 2) by (widths; lia). cbn.
  rewrite (get_be_app 2) by (widths; lia). cbn.
  by rewrite !swrap_wrap, !swrap_small by (done || lia).
Qed.

Lemma pressure_fixed_range p : u16 (pressure_fixed p).
Proof.
  unfold pressure_fixed, f32_as_u16. widths.
  pose proof (cast_sat_range 0 65535
    (fmul (fclamp p (f32_of_Z 0) (f32_of_Z 1)) (f32_of_Z 65536))). lia.
Qed.

Lemma scroll_fixed_range v : u16 (scroll_fixed v).
Proof. apply wrap_range. lia. Qed.

Lemma msg_type_u8 m : u8 (ControlMsgType_as_u8 (msg_type m)).
Proof. destruct m; split; cbn; lia. Qed.

Lemma b2z_u8 b : u8 (Z.b2z b).
Proof. destruct b; split; cbn; lia. Qed.

#[export] Hint Resolve msg_type_u8 b2z_u8 pressure_fixed_range scroll_fixed_range : rust.

(** The core of the round trip: what an accepted message's payload is, and that the
    reader recovers the message's meaning from it, leaving the rest alone. *)
Definition payload_ok (m : ControlMessage) (l : bytes) : Prop :=
  emits (serialize_payload m) l ∧ Z.of_nat (length l) < CONTROL_MSG_MAX_SIZE ∧
  ∀ rest, decode_payload (ControlMsgType_as_u8 (msg_type m)) (l ++ rest)
          = Some (wire_of m, rest).

Ltac emit :=
  repeat first
    [ apply emits_seq | apply emits_push | apply emits_extend | apply emits_ret
    | apply emits_write_position | apply emits_truncated
    | apply emits_write_tiny_string ].

Ltac reads :=
  repeat first
    [ rewrite (get_be_app 1) by (widths; change (Z.of_nat 1) with 1; lia)
    | rewrite (get_be_app 2) by (widths; lia)
    | rewrite (get_be_app 4) by (widths; lia)
    | rewrite (get_be_app 8) by (widths; lia)
    | rewrite get_prefixed_app by lia
    | rewrite get_position_app by done
    | progress cbn [mbind option_bind] ].

Ltac sizes := rewrite ?length_app, ?length_be_bytes; cbn [length]; unfold CONTROL_MSG_MAX_SIZE in *; lia.

Lemma payload_uhid_create c :
  ControlMessage_wf (Cm_UhidCreate c) → encodable (Cm_UhidCreate c) →
  ∃ l, payload_ok (Cm_UhidCreate c) l.
Proof.
  intros (Hid & Hv & Hp & Hn & Hd) [Hlen Hdesc].
  eexists. split_and!.
  - cbn [serialize_payload]. unfold serialize_uhid_create, write_u16_be. emit.
    2: { rewrite decide_False by lia. rewrite wrap_small by (widths; lia). emit. }
    instantiate (1 := be_bytes 1 (Z.of_nat (length (default [] (uc_name c))))
                      ++ default [] (uc_name c)).
    destruct (uc_name c); cbn [default]; emit; done || (widths; lia).
  - assert (length (default [] (uc_name c)) ≤ 127)%nat by (destruct (uc_name c); cbn; lia).
    sizes.
  - intros rest. rewrite <-!app_assoc.
    cbn [decode_payload msg_type ControlMsgType_as_u8].
    assert (length (default [] (uc_name c)) ≤ 127)%nat by (destruct (uc_name c); cbn; lia).
    reads. done.
Qed.

Lemma payload_uhid_input i :
  ControlMessage_wf (Cm_UhidInput i) → encodable (Cm_UhidInput i) →
  ∃ l, payload_ok (Cm_UhidInput i) l.
Proof.
  intros (Hid & Hs & Hl & Hd) Hsz. cbn in Hsz. unfold HID_MAX_SIZE in Hl.
  pose proof Hs as Hs'. widths.
  assert (length (take (Z.to_nat (ui_size i)) (ui_data i)) = Z.to_nat (ui_size i)) as Ht.
  { rewrite length_take. lia. }
  eexists. split_and!.
  - cbn [serialize_payload]. unfold serialize_uhid_input, write_u16_be, HID_MAX_SIZE. emit.
    rewrite decide_False by lia. rewrite decide_True by lia. emit.
  - sizes.
  - intros rest. rewrite <-!app_assoc. cbn [decode_payload msg_type ControlMsgType_as_u8].
    replace (ui_size i) with (Z.of_nat (length (take (Z.to_nat (ui_size i)) (ui_data i))))
      at 1 by lia.
    reads. done.
Qed.

Lemma payload_touch t :
  ControlMessage_wf (Cm_InjectTouchEvent t) → ∃ l, payload_ok (Cm_InjectTouchEvent t) l.
Proof.
  intros (Ha & Hp & Hx & Hy & Hw & Hh & Hab & Hb).
  pose proof (pressure_fixed_range (te_pressure t)).
  eexists. split_and!.
  - cbn [serialize_payload].
    unfold serialize_inject_touch, write_u16_be, write_u32_be, write_u64_be. emit. done.
  - sizes.
  - intros rest. rewrite <-!app_assoc. cbn [decode_payload msg_type ControlMsgType_as_u8].
    reads. done.
Qed.

Lemma payload_scroll s :
  ControlMessage_wf (Cm_InjectScrollEvent s) → ∃ l, payload_ok (Cm_InjectScrollEvent s) l.
Proof.
  intros (Hx & Hy & Hw & Hh & Hb).
  pose proof (scroll_fixed_range (se_hscroll s)).
  pose proof (scroll_fixed_range (se_vscroll s)).
  eexists. split_and!.
  - cbn [serialize_payload]. unfold serialize_inject_scroll, write_u16_be, write_u32_be. emit.
  - sizes.
  - intros rest. rewrite <-!app_assoc. cbn [decode_payload msg_type ControlMsgType_as_u8].
    reads. done.
Qed.

Lemma payload_set_clipboard s :
  ControlMessage_wf (Cm_SetClipboard s) → encodable (Cm_SetClipboard s) →
  ∃ l, payload_ok (Cm_SetClipboard s) l.
Proof.
  intros (Hq & Hs) Hf.
  pose proof (length_text_of (sc_text s) SET_CLIPBOARD_TEXT_MAX ltac:(done)) as Hlen.
  assert (SET_CLIPBOARD_TEXT_MAX = 262130) by done.
  pose proof (b2z_u8 (sc_paste s)).
  eexists. split_and!.
  - cbn [serialize_payload]. unfold serialize_set_clipboard, write_u64_be.
    emit; done || (split; done) || auto using b2z_u8.
  - sizes.
  - intros rest. rewrite <-!app_assoc. cbn [decode_payload msg_type ControlMsgType_as_u8].
    reads. cbn [wire_of]. by destruct (sc_paste s).
Qed.

Lemma payload_inject_text t :
  encodable (Cm_InjectText t) → ∃ l, payload_ok (Cm_InjectText t) l.
Proof.
  intros Hf.
  pose proof (length_text_of (it_text t) INJECT_TEXT_MAX_LENGTH ltac:(done)) as Hlen.
  assert (INJECT_TEXT_MAX_LENGTH = 300) by done.
  eexists. split_and!.
  - cbn [serialize_payload]. unfold serialize_inject_text.
    emit; done || (split; done).
  - sizes.
  - intros rest. rewrite <-!app_assoc. cbn [decode_payload msg_type ControlMsgType_as_u8].
    reads. done.
Qed.

Lemma payload_correct m :
  ControlMessage_wf m → encodable m → ∃ l, payload_ok m l.
Proof.
  intros Hwf He. destruct m;
    eauto using payload_uhid_create, payload_uhid_input, payload_touch, payload_scroll,
      payload_set_clipboard, payload_inject_text;
    cbn in Hwf, He; destruct_and?; try destruct on; eexists; (split_and!;
    [ cbn [serialize_payload];
      unfold serialize_uhid_destroy, serialize_inject_keycode, serialize_start_app,
        write_u16_be, write_u32_be; emit; auto using b2z_u8
    | sizes
    | intros rest; rewrite <-?app_assoc;
      cbn [decode_payload msg_type ControlMsgType_as_u8]; reads; done ]).
Qed.

(** ** Serialization as a whole *)

Lemma message_run m buf :
  (push (ControlMsgType_as_u8 (msg_type m));; serialize_payload m) buf =
  ((serialize_payload m []).1, buf ++ ControlMsgType_as_u8 (msg_type m) :: (serialize_payload m []).2).
Proof.
  unfold push. run. rewrite (appends_payload m (buf ++ _)). by rewrite <-app_assoc.
Qed.

(** What [serialize_into] does to a buffer is what [serialize] returns. *)
Lemma serialize_into_run m buf :
  match serialize m with
  | Ok f => serialize_into m buf = (Ok (Z.of_nat (length f)), buf ++ f)
  | Err e => serialize_into m buf = (Err e, buf)
  | Panicked => ∃ partial, serialize_into m buf = (Panicked, buf ++ partial)
  end.
Proof.
  unfold serialize, serialize_into. rewrite !message_run.
  set (f := ControlMsgType_as_u8 (msg_type m) :: (serialize_payload m []).2).
  rewrite app_nil_l, length_app.
  replace (Z.of_nat (length buf + length f) - Z.of_nat (length buf))
    with (Z.of_nat (length f)) by lia.
  replace (Z.of_nat (length f) - Z.of_nat (length (A:=Z) []))
    with (Z.of_nat (length f)) by (cbn [length]; lia).
  destruct ((serialize_payload m []).1) as [u|e|].
  - destruct (CONTROL_MSG_MAX_SIZE <? Z.of_nat (length f)); [|done].
    by rewrite take_app_length.
  - by rewrite take_app_length.
  - by eexists.
Qed.

Lemma serialize_ok_into m f buf :
  serialize m = Ok f → serialize_into m buf = (Ok (Z.of_nat (length f)), buf ++ f).
Proof. intros H. pose proof (serialize_into_run m buf) as Hr. by rewrite H in Hr. Qed.

Lemma serialize_err_into m e buf :
  serialize m = Err e → serialize_into m buf = (Err e, buf).
Proof. intros H. pose proof (serialize_into_run m buf) as Hr. by rewrite H in Hr. Qed.

Lemma serialize_correct m :
  ControlMessage_wf m → encodable m →
  ∃ f, serialize m = Ok f ∧ f ≠ [] ∧ Z.of_nat (length f) ≤ CONTROL_MSG_MAX_SIZE ∧
       ∀ rest, decode (f ++ rest) = Some (wire_of m, rest).
Proof.
  intros Hwf He. destruct (payload_correct m Hwf He) as (l & Hem & Hlen & Hdec).
  exists (ControlMsgType_as_u8 (msg_type m) :: l).
  pose proof (msg_type_u8 m) as Ht. split_and!.
  - unfold serialize, serialize_into. rewrite message_run, (Hem [] : serialize_payload m [] = (Ok tt, l)).
    cbn [app length fst snd].
    rewrite (proj2 (Z.ltb_ge _ _)); [done|]. rewrite Z.sub_0_r. lia.
  - done.
  - cbn [length]. lia.
  - intros rest. unfold decode. rewrite <-app_comm_cons.
    replace (ControlMsgType_as_u8 (msg_type m) :: l ++ rest)
      with (be_bytes 1 (ControlMsgType_as_u8 (msg_type m)) ++ l ++ rest)
      by (rewrite be_bytes_1 by done; done).
    rewrite (get_be_app 1) by (widths; change (Z.of_nat 1) with 1; lia).
    cbn [mbind option_bind]. apply Hdec.
Qed.

(** How the serializer refuses a message that is not [encodable]. *)
Definition rejection (m : ControlMessage) : outcome Error bytes :=
  match m with
  | Cm_UhidCreate c =>
      match uc_name c with
      | Some n =>
          if decide (127 < length n)%nat then Err (NameTooLong (Z.of_nat (length n)))
          else Err (ReportDescTooLong (Z.of_nat (length (uc_report_desc c))))
      | None => Err (ReportDescTooLong (Z.of_nat (length (uc_report_desc c))))
      end
  | Cm_UhidInput i => Err (ControlMessageTooLarge (ui_size i + 5) 20)
  | Cm_StartApp n => Err (NameTooLong (Z.of_nat (length n)))
  | _ => Panicked
  end.

Lemma serialize_run_1 m o l :
  serialize_payload m [] = (o, l) → is_ok o = false →
  serialize m = match o with Ok _ => Panicked | Err e => Err e | Panicked => Panicked end.
Proof.
  intros H Ho. unfold serialize, serialize_into. rewrite message_run, H. by destruct o.
Qed.

Lemma serialize_rejected m :
  ControlMessage_wf m → ¬ encodable m → serialize m = rejection m.
Proof.
  intros Hwf He.
  destruct m as [c|i| | |t| | | | |s| |n| | | | | | | | | | | | |]; cbn in He; try tauto;
    cbn [rejection].
  - destruct (serialize_payload (Cm_UhidCreate c) []) as [o l] eqn:E.
    pose proof (serialize_run_1 _ _ _ E) as Hs. revert E.
    cbn [serialize_payload]. unfold serialize_uhid_create, write_u16_be, extend. run.
    destruct (uc_name c) as [n|]; rewrite ?write_tiny_string_run by lia;
      repeat case_decide; unfold push; run; intros [= <- <-];
      try (by apply Hs); try lia; try tauto.
  - destruct (serialize_payload (Cm_UhidInput i) []) as [o l] eqn:E.
    pose proof (serialize_run_1 _ _ _ E) as Hs. revert E.
    cbn [serialize_payload]. unfold serialize_uhid_input, write_u16_be, extend. run.
    rewrite decide_True by (unfold HID_MAX_SIZE; lia). run. intros [= <- <-]. by apply Hs.
  - destruct (serialize_payload (Cm_InjectText t) []) as [o l] eqn:E.
    pose proof (serialize_run_1 _ _ _ E) as Hs. revert E.
    cbn [serialize_payload]. unfold serialize_inject_text. run.
    rewrite str_truncated_run, decide_False by done. intros [= <- <-]. by apply Hs.
  - destruct (serialize_payload (Cm_SetClipboard s) []) as [o l] eqn:E.
    pose proof (serialize_run_1 _ _ _ E) as Hs. revert E.
    cbn [serialize_payload].
    unfold serialize_set_clipboard, write_u64_be, extend, push. run.
    rewrite str_truncated_run, decide_False by done. intros [= <- <-]. by apply Hs.
  - destruct (serialize_payload (Cm_StartApp n) []) as [o l] eqn:E.
    pose proof (serialize_run_1 _ _ _ E) as Hs. revert E.
    cbn [serialize_payload]. unfold serialize_start_app.
    rewrite write_tiny_string_run, decide_False by lia. intros [= <- <-]. by apply Hs.
Qed.

(** [pressure] in 1/65536ths, rounded down and saturated. *)
Lemma pressure_fixed_val p :
  finite32 p →
  pressure_fixed p =
  Z.min 65535 (Z.max 0 (Z.min unit32 (val p)) * 65536 / unit32).
Proof.
  intros Hp. unfold pressure_fixed.
  destruct (fclamp_val p (f32_of_Z 0) (f32_of_Z 1)) as [Hf Hv]; [done|done|done|by vm_compute|].
  change (val (f32_of_Z 0)) with 0 in Hv.
  change (val (f32_of_Z 1)) with unit32 in Hv.
  set (x := fclamp p (f32_of_Z 0) (f32_of_Z 1)) in *.
  assert (0 < unit32) as Hu by done.
  change (f32_of_Z 65536) with (f32_pow2 16).
  destruct (fmul_pow2 x 16) as [Hf' Hv']; [done|lia| |].
  { rewrite Hv. apply Z.le_lt_trans with (unit32 * 2 ^ 16).
    - apply Z.mul_le_mono_nonneg_r; lia.
    - done. }
  unfold f32_as_u16. rewrite cast_sat_finite, to_Z_val, Hv', Hv by done.
  change (2 ^ 16) with 65536. assert (0 ≤ Z.max 0 (Z.min unit32 (val p)) * 65536) by lia.
  rewrite Z.quot_div_nonneg by lia.
  pose proof (Z.div_pos (Z.max 0 (Z.min unit32 (val p)) * 65536) unit32). lia.
Qed.

(** ** Properties *)

(** C1: serialization round-trips through the device's reader.  Every well-formed
    message whose name, descriptor and report fit their fields and whose text can be
    truncated serializes to a frame of at most 256 KiB, from which the reference reader,
    whatever bytes follow, recovers exactly the message's meaning and those bytes: the
    format is unambiguous and self-delimiting. *)
Theorem serialize_roundtrip (m : ControlMessage)
    (Hwf : ControlMessage_wf m) (He : encodable m) :
  ∃ f, serialize m = Ok f ∧ f ≠ [] ∧ Z.of_nat (length f) ≤ CONTROL_MSG_MAX_SIZE ∧
       ∀ rest, decode (f ++ rest) = Some (wire_of m, rest).
Proof. by apply serialize_correct. Qed.

Definition sample_create : ControlMessage :=
  Cm_UhidCreate (mkUhidCreate 3 0x045e 0x028e (Some [80; 97; 100]) [5; 1; 9; 5]).

Lemma sample_create_ok : ControlMessage_wf sample_create ∧ encodable sample_create.
Proof.
  split.
  - cbn. split_and!; try by (split; cbn; lia).
    + exists [80; 97; 100]. split; [|done]. by apply (bool_decide_unpack _); vm_compute.
    + by apply (bool_decide_unpack _); vm_compute.
  - by apply (bool_decide_unpack _); vm_compute.
Qed.

Lemma serialize_roundtrip_witness :
  ∃ f, serialize sample_create = Ok f ∧ f ≠ [] ∧
       Z.of_nat (length f) ≤ CONTROL_MSG_MAX_SIZE ∧
       ∀ rest, decode (f ++ rest) = Some (wire_of sample_create, rest).
Proof.
  exact (serialize_roundtrip sample_create (proj1 sample_create_ok) (proj2 sample_create_ok)).
Defined.

(** C2: [serialize_into] on any buffer: an accepted message is appended and its length
    returned; a name over 127 (255) bytes, a descriptor over 65535 bytes or a report
    over 15 bytes gives the matching error with the buffer exactly as it was; and the
    call unwinds precisely when the text of [InjectText] or [SetClipboard] is over its
    limit and the limit falls inside a character.  The 256 KiB error of the final size
    check never occurs. *)
Theorem serialize_into_outcomes (m : ControlMessage) (buf : bytes)
    (Hwf : ControlMessage_wf m) :
  match serialize_into m buf with
  | (Ok n, buf') =>
      encodable m ∧ ∃ f, serialize m = Ok f ∧ buf' = buf ++ f ∧ n = Z.of_nat (length f)
  | (Err e, buf') => ¬ encodable m ∧ rejection m = Err e ∧ buf' = buf
  | (Panicked, _) =>
      ¬ encodable m ∧
      match m with
      | Cm_InjectText t => is_char_boundary (it_text t) 300 = false
      | Cm_SetClipboard s => is_char_boundary (sc_text s) (Z.to_nat 262130) = false
      | _ => False
      end
  end.
Proof.
  pose proof (serialize_into_run m buf) as Hrun.
  destruct (decide (encodable m)) as [He|He].
  - destruct (serialize_correct m Hwf He) as (f & Hf & _).
    rewrite Hf in Hrun. rewrite Hrun. eauto.
  - pose proof (serialize_rejected m Hwf He) as Hrej. rewrite Hrej in Hrun.
    destruct (rejection m) as [f|e|] eqn:E.
    + exfalso. destruct m; cbn in E; try done. repeat case_match; done.
    + by rewrite Hrun.
    + destruct Hrun as [p ->]. split; [done|]. destruct m; try (by cbn in He).
      * cbn in E. repeat case_match; done.
      * destruct (is_char_boundary (it_text t) 300) eqn:Eb; [|done].
        exfalso. apply He. by right.
      * change 262130 with SET_CLIPBOARD_TEXT_MAX.
        destruct (is_char_boundary (sc_text s) (Z.to_nat SET_CLIPBOARD_TEXT_MAX)) eqn:Eb;
          [|done]. exfalso. apply He. by right.
Qed.

(** 299 letters and a two-byte character: the cut at 300 is inside it. *)
Definition straddling_text : str := replicate 299 97 ++ [0xC3; 0xA9].

Lemma straddling_is_str : is_str straddling_text.
Proof.
  exists (replicate 299 97 ++ [0xE9]). split; [|by vm_compute].
  by apply (bool_decide_unpack _); vm_compute.
Qed.

Lemma serialize_into_outcomes_witness :
  (serialize_into (Cm_InjectText (mkInjectText straddling_text)) []).1 = Panicked ∧
  match serialize_into (Cm_InjectText (mkInjectText straddling_text)) [] with
  | (Panicked, _) => is_char_boundary straddling_text 300 = false
  | _ => False
  end.
Proof.
  split; [by vm_compute|].
  pose proof (serialize_into_outcomes (Cm_InjectText (mkInjectText straddling_text)) []
    straddling_is_str) as H.
  destruct (serialize_into (Cm_InjectText (mkInjectText straddling_text)) [])
    as [[n|e|] b] eqn:E; [vm_compute in E; discriminate E|vm_compute in E; discriminate E|].
  exact (proj2 H).
Defined.

(** The touch pressure on the wire is [pressure] clamped to [0, 1], in 1/65536ths,
    rounded down, with 1.0 saturating at 65535: the float clamp, product and cast lose
    nothing else; a NaN pressure is sent as 0.  In particular it is monotone. *)
Theorem pressure_fixed_point (p : f32) (Hp : finite32 p) :
  pressure_fixed p = Z.min 65535 (Z.max 0 (Z.min unit32 (val p)) * 65536 / unit32) ∧
  (∀ q, finite32 q → val p ≤ val q → pressure_fixed p ≤ pressure_fixed q) ∧
  pressure_fixed S754_nan = 0.
Proof.
  split; [by apply pressure_fixed_val|]. split; [|by vm_compute].
  intros q Hq Hle. rewrite !pressure_fixed_val by done.
  apply Z.min_le_compat_l, Z.div_le_mono; [done|]. lia.
Qed.

Lemma pressure_fixed_point_witness :
  finite32 (f32_of_Z 1) ∧
  pressure_fixed (f32_of_Z 1) =
    Z.min 65535 (Z.max 0 (Z.min unit32 (val (f32_of_Z 1))) * 65536 / unit32).
Proof. split; [done|]. exact (proj1 (pressure_fixed_point (f32_of_Z 1) eq_refl)). Defined.
