(* ===== verification/Transport.v ===== *)
(** * Transport helpers ([src/src/transport/mod.rs])

    [send_one] and [send_batch] over any [TransportWrite], the in-memory
    [MockTransport], and a scriptable transport that fails on demand, used to
    exercise the error paths. *)

From S2P Require Import Prelude Words Errors Types Utf8 Float32 Message.
Local Open Scope Z_scope.

Section Send.
Context {W : Type} `{!TransportWrite W}.

(** The receiver is the pair of [transport] and the reused [buf]. *)
Definition send_one_with_buf (msg : ControlMessage) : cmd (W * bytes) Error unit :=
  modify (λ s, (s.1, []));;
  _ ← zoom snd (λ buf s, (s.1, buf)) (serialize_into msg);
  buf ← read snd;
  zoom fst (λ t s, (t, s.2)) (write_all buf);;
  zoom fst (λ t s, (t, s.2)) flush.

Definition send_one (msg : ControlMessage) : cmd W Error unit :=
  λ t, let '(o, (t', _)) := send_one_with_buf msg (t, []) in (o, t').

(** The loop [for m in msgs { m.serialize_into(&mut buf)?; }]. *)
Definition serialize_each (msgs : list ControlMessage) : writer unit :=
  for_each msgs (λ m, _ ← serialize_into m; mret tt).

Definition send_batch (msgs : list ControlMessage) : cmd W Error unit :=
  λ t, match serialize_each msgs [] with
       | (Ok _, buf) =>
           match buf with
           | [] => (Ok tt, t)
           | _ => (write_all buf;; flush) t
           end
       | (Err e, _) => (Err e, t)
       | (Panicked, _) => (Panicked, t)
       end.
End Send.

(** ** [MockTransport] *)

Record MockTransport : Set := mkMock { mock_bytes : bytes }.

Definition Mock_new : MockTransport := mkMock [].
Definition into_bytes (t : MockTransport) : bytes := mock_bytes t.

(** [io::Write::write] accepts the whole buffer, so the provided [write_all] is a
    single call of it. *)
Definition mock_write (buf : bytes) : cmd MockTransport Error Z :=
  modify (λ t, mkMock (mock_bytes t ++ buf));; mret (Z.of_nat (length buf)).
Definition mock_flush : cmd MockTransport Error unit := mret tt.

#[export] Instance Mock_transport : TransportWrite MockTransport := {
  write_all buf := mock_write buf;; mret tt;
  flush := mock_flush;
}.

Lemma mock_write_all_run buf t :
  write_all buf t = (Ok tt, mkMock (mock_bytes t ++ buf)).
Proof. done. Qed.

#[export] Instance Mock_lawful : LawfulTransport MockTransport.
Proof.
  refine {| wire := mock_bytes |}.
  - intros t b t' H. rewrite mock_write_all_run in H. by simplify_eq.
  - intros t b o t' H Hne. rewrite mock_write_all_run in H. by simplify_eq.
  - done.
Defined.

#[export] Instance Mock_reliable : ReliableTransport MockTransport.
Proof. by split. Qed.

(** ** A transport that follows a script

    One entry per call: [Some n] makes a [write_all] fail after [n] bytes (and a
    [flush] fail), [None] lets the call through; an exhausted script never fails. *)
Record Scripted : Set := mkScripted { sd_bytes : bytes; sd_script : list (option nat) }.

#[export] Instance Scripted_transport : TransportWrite Scripted := {
  write_all buf := λ t,
    match sd_script t with
    | Some n :: rest => (Err (Transport "scripted"), mkScripted (sd_bytes t ++ take n buf) rest)
    | _ => (Ok tt, mkScripted (sd_bytes t ++ buf) (tail (sd_script t)))
    end;
  flush := λ t,
    match sd_script t with
    | Some _ :: rest => (Err (Transport "scripted"), mkScripted (sd_bytes t) rest)
    | _ => (Ok tt, mkScripted (sd_bytes t) (tail (sd_script t)))
    end;
}.

#[export] Instance Scripted_lawful : LawfulTransport Scripted.
Proof.
  refine {| wire := sd_bytes |}.
  - intros [l [|[n|] s]] b t' H; cbn in H; by simplify_eq.
  - intros [l [|[n|] s]] b o t' H Hne; cbn in H; simplify_eq; eauto.
  - by intros [l [|[n|] s]].
Defined.

(** ** Theorems *)

Lemma serialize_each_cons m msgs buf :
  serialize_each (m :: msgs) buf =
  match serialize m with
  | Ok f => serialize_each msgs (buf ++ f)
  | Err e => (Err e, buf)
  | Panicked => (Panicked, (serialize_into m buf).2)
  end.
Proof.
  unfold serialize_each. cbn [for_each]. run.
  pose proof (serialize_into_run m buf) as H. destruct (serialize m) as [f|e|].
  - by rewrite H.
  - by rewrite H.
  - destruct H as [p ->]. done.
Qed.

(** The frames of a batch, when every message is accepted. *)
Fixpoint frames (msgs : list ControlMessage) : outcome Error bytes :=
  match msgs with
  | [] => Ok []
  | m :: msgs => f ← serialize m; fs ← frames msgs; Ok (f ++ fs)
  end.

Lemma serialize_each_frames msgs buf :
  match frames msgs with
  | Ok fs => serialize_each msgs buf = (Ok tt, buf ++ fs)
  | Err e => (serialize_each msgs buf).1 = Err e
  | Panicked => (serialize_each msgs buf).1 = Panicked
  end.
Proof.
  revert buf. induction msgs as [|m msgs IH]; intros buf; cbn [frames].
  { cbn. by rewrite app_nil_r. }
  rewrite serialize_each_cons. destruct (serialize m) as [f|e|]; cbn; [|done|done].
  specialize (IH (buf ++ f)). destruct (frames msgs) as [fs|e|]; cbn; [|done|done].
  by rewrite IH, app_assoc.
Qed.

Lemma frames_app ms1 ms2 :
  frames (ms1 ++ ms2) = (f1 ← frames ms1; f2 ← frames ms2; Ok (f1 ++ f2)).
Proof.
  induction ms1 as [|m ms1 IH]; cbn.
  { unfold mbind, outcome_bind. by destruct (frames ms2). }
  destruct (serialize m); cbn; [|done|done]. rewrite IH.
  destruct (frames ms1); cbn; [|done|done]. destruct (frames ms2); cbn; [|done|done].
  by rewrite app_assoc.
Qed.

Lemma decode_fuel_frames msgs n :
  Forall ControlMessage_wf msgs → Forall encodable msgs →
  ∃ fs, frames msgs = Ok fs ∧
        (length fs ≤ n → decode_fuel n fs = Some (wire_of <$> msgs))%nat.
Proof.
  intros Hwf He. revert n.
  induction msgs as [|m msgs IH]; intros n; inversion Hwf; inversion He; subst.
  { exists []. split; [done|]. by destruct n. }
  destruct (serialize_correct m) as (f & Hf & Hne & _ & Hdec); [done|done|].
  destruct (IH ltac:(done) ltac:(done) (pred n)) as (fs & Hfs & Hall).
  exists (f ++ fs). cbn [frames]. rewrite Hf, Hfs. split; [done|].
  intros Hlen. rewrite length_app in Hlen.
  destruct f as [|b f]; [done|]. cbn [length] in Hlen.
  destruct n as [|n]; [lia|]. cbn [decode_fuel app].
  cbn [Nat.pred] in Hall.
  rewrite app_comm_cons, Hdec. cbn. rewrite Hall by lia. done.
Qed.

(** The concatenated frames of accepted messages decode to their meanings. *)
Lemma decode_frames msgs :
  Forall ControlMessage_wf msgs → Forall encodable msgs →
  ∃ fs, frames msgs = Ok fs ∧ decode_all fs = Some (wire_of <$> msgs).
Proof.
  intros Hwf He. destruct (decode_fuel_frames msgs 0 Hwf He) as (fs & Hfs & _).
  exists fs. split; [done|].
  destruct (decode_fuel_frames msgs (length fs) Hwf He) as (fs' & Hfs' & Hd).
  rewrite Hfs in Hfs'. simplify_eq. by apply Hd.
Qed.

Section SendLaws.
Context {W : Type} `{!TransportWrite W, !LawfulTransport W}.

Lemma send_one_run m (t : W) :
  send_one m t =
  match serialize m with
  | Ok f => (write_all f;; flush) t
  | Err e => (Err e, t)
  | Panicked => (Panicked, t)
  end.
Proof.
  unfold send_one, send_one_with_buf. run. cbn [fst snd]. unfold zoom. cbn [fst snd].
  pose proof (serialize_into_run m []) as H. destruct (serialize m) as [f|e|].
  - rewrite H. cbn [fst snd]. rewrite app_nil_l.
    destruct (write_all f t) as [[]]; cbn; [|done|done].
    by destruct (flush _) as [[]].
  - by rewrite H.
  - by destruct H as [p ->].
Qed.

Lemma send_batch_run msgs (t : W) :
  send_batch msgs t =
  match frames msgs with
  | Ok [] => (Ok tt, t)
  | Ok fs => (write_all fs;; flush) t
  | Err e => (Err e, t)
  | Panicked => (Panicked, t)
  end.
Proof.
  unfold send_batch. pose proof (serialize_each_frames msgs []) as H.
  destruct (frames msgs) as [fs|e|].
  - by rewrite H.
  - destruct (serialize_each msgs []) as [o b]; cbn in H; by subst.
  - destruct (serialize_each msgs []) as [o b]; cbn in H; by subst.
Qed.

(** Whatever happens, only a prefix of [l] reaches the wire. *)
Lemma write_flush_wire (l : bytes) (t : W) :
  ∃ n, wire ((write_all l;; flush) t).2 = wire t ++ take n l.
Proof.
  run. destruct (write_all l t) as [o t'] eqn:E.
  destruct (decide (o = Ok tt)) as [->|Hne].
  - exists (length l). rewrite flush_wire, (write_all_ok _ _ _ E).
    by rewrite firstn_all.
  - destruct (write_all_fail _ _ _ _ E Hne) as [n Hn]. exists n. by destruct o as [[]| |].
Qed.

Lemma write_flush_ok (l : bytes) (t t' : W) :
  (write_all l;; flush) t = (Ok tt, t') → wire t' = wire t ++ l.
Proof.
  intros H. ok_inv H. destruct a. rewrite <-(write_all_ok _ _ _ Hrun).
  rewrite <-(flush_wire s). by rewrite Hrest.
Qed.

Lemma write_flush_reliable `{!ReliableTransport W} (l : bytes) (t : W) :
  ((write_all l;; flush) t).1 = Ok tt.
Proof.
  run. pose proof (write_all_reliable t l) as H. destruct (write_all l t) as [o t'].
  cbn in H. subst. apply flush_reliable.
Qed.
End SendLaws.

(** ** Properties *)

(** [send_batch] over any lawful transport.  If every message is accepted, then a
    successful call has put exactly the batch on the wire, in order and unambiguously
    (the peer's reader recovers the list of messages from the bytes), and a failed one
    at most a prefix of it; over a transport that never fails, the call succeeds.  If
    some message is refused, the call fails (or unwinds) and the transport is not
    touched: nothing of the batch is sent. *)
Theorem send_batch_all_or_prefix {W : Type} `{!TransportWrite W, !LawfulTransport W}
    (msgs : list ControlMessage) (t : W) (Hwf : Forall ControlMessage_wf msgs) :
  if decide (Forall encodable msgs) then
    ∃ stream, decode_all stream = Some (wire_of <$> msgs) ∧
      (∃ n, wire (send_batch msgs t).2 = wire t ++ take n stream) ∧
      ((send_batch msgs t).1 = Ok tt → wire (send_batch msgs t).2 = wire t ++ stream) ∧
      (ReliableTransport W → (send_batch msgs t).1 = Ok tt)
  else is_ok (send_batch msgs t).1 = false ∧ (send_batch msgs t).2 = t.
Proof.
  case_decide as He.
  - destruct (decode_frames msgs Hwf He) as (fs & Hfs & Hdec). exists fs.
    split; [done|]. rewrite send_batch_run, Hfs. destruct fs as [|b fs].
    { split_and!; try done; [exists 0%nat|intros _]; by rewrite app_nil_r. }
    split; [apply write_flush_wire|]. split; [|intros; by apply write_flush_reliable].
    intros Hok. apply write_flush_ok. by apply injective_projections.
  - rewrite send_batch_run.
    assert (is_ok (frames msgs) = false) as Hf.
    { clear t. induction msgs as [|m msgs IH]; [by destruct He|].
      apply Forall_cons in Hwf as [Hm Hms]. cbn [frames].
      destruct (decide (encodable m)) as [Hme|Hme].
      - destruct (serialize_correct m Hm Hme) as (f & -> & _). cbn.
        assert (is_ok (frames msgs) = false) as H.
        { apply IH; [done|]. intros H. apply He. by constructor. }
        destruct (frames msgs); done.
      - rewrite (serialize_rejected m Hm Hme).
        destruct m; cbn in Hme |- *; try done; repeat case_match; done. }
    by destruct (frames msgs).
Qed.

Lemma send_batch_all_or_prefix_witness :
  Forall ControlMessage_wf [sample_create; Cm_RotateDevice] ∧
  ∃ stream, decode_all stream = Some (wire_of <$> [sample_create; Cm_RotateDevice]) ∧
    wire (send_batch [sample_create; Cm_RotateDevice] Mock_new).2 = stream.
Proof.
  assert (Forall ControlMessage_wf [sample_create; Cm_RotateDevice]) as Hwf.
  { constructor; [exact (proj1 sample_create_ok)|]. by repeat constructor. }
  split; [exact Hwf|].
  pose proof (send_batch_all_or_prefix [sample_create; Cm_RotateDevice] Mock_new Hwf) as H.
  rewrite decide_True in H.
  - destruct H as (stream & Hd & _ & Hok & Hrel). exists stream. split; [exact Hd|].
    exact (Hok (Hrel _)).
  - constructor; [exact (proj2 sample_create_ok)|]. by repeat constructor.
Defined.
