(* ===== verification/Descriptor.v ===== *)
(** * HID report descriptors ([src/src/hid/descriptor.rs], [src/src/hid/mod.rs])

    The three byte tables, the input report and the device interface of the
    drivers, and an interpreter of the HID item language that reads off what
    fields a descriptor declares, so that the drivers' reports can be checked
    against it. *)

From S2P Require Import Prelude Words Errors Types Utf8 Float32 Message.
Local Open Scope Z_scope.

(** ** Tables *)

Definition KEYBOARD_REPORT_DESC : bytes :=
  [0x05; 0x01; 0x09; 0x06; 0xA1; 0x01; 0x05; 0x07; 0x19; 0xE0; 0x29; 0xE7;
   0x15; 0x00; 0x25; 0x01; 0x75; 0x01; 0x95; 0x08; 0x81; 0x02; 0x75; 0x08;
   0x95; 0x01; 0x81; 0x01; 0x05; 0x08; 0x19; 0x01; 0x29; 0x05; 0x75; 0x01;
   0x95; 0x05; 0x91; 0x02; 0x75; 0x03; 0x95; 0x01; 0x91; 0x01; 0x05; 0x07;
   0x19; 0x00; 0x29; 0x65; 0x15; 0x00; 0x25; 0x65; 0x75; 0x08; 0x95; 0x06;
   0x81; 0x00; 0xC0].

Definition MOUSE_REPORT_DESC : bytes :=
  [0x05; 0x01; 0x09; 0x02; 0xA1; 0x01; 0x09; 0x01; 0xA1; 0x00; 0x05; 0x09;
   0x19; 0x01; 0x29; 0x05; 0x15; 0x00; 0x25; 0x01; 0x95; 0x05; 0x75; 0x01;
   0x81; 0x02; 0x95; 0x01; 0x75; 0x03; 0x81; 0x01; 0x05; 0x01; 0x09; 0x30;
   0x09; 0x31; 0x09; 0x38; 0x15; 0x81; 0x25; 0x7F; 0x75; 0x08; 0x95; 0x03;
   0x81; 0x06; 0x05; 0x0C; 0x0A; 0x38; 0x02; 0x15; 0x81; 0x25; 0x7F; 0x75;
   0x08; 0x95; 0x01; 0x81; 0x06; 0xC0; 0xC0].

Definition GAMEPAD_REPORT_DESC : bytes :=
  [0x05; 0x01; 0x09; 0x05; 0xA1; 0x01; 0xA1; 0x00; 0x05; 0x01; 0x09; 0x30;
   0x09; 0x31; 0x09; 0x33; 0x09; 0x34; 0x15; 0x00; 0x27; 0xFF; 0xFF; 0x00;
   0x00; 0x75; 0x10; 0x95; 0x04; 0x81; 0x02; 0x05; 0x01; 0x09; 0x32; 0x09;
   0x35; 0x15; 0x00; 0x26; 0xFF; 0x7F; 0x75; 0x10; 0x95; 0x02; 0x81; 0x02;
   0x05; 0x09; 0x19; 0x01; 0x29; 0x10; 0x15; 0x00; 0x25; 0x01; 0x95; 0x10;
   0x75; 0x01; 0x81; 0x02; 0x05; 0x01; 0x09; 0x39; 0x15; 0x01; 0x25; 0x08;
   0x75; 0x04; 0x95; 0x01; 0x81; 0x42; 0xC0; 0xC0].

(** ** [HidReport] and the driver interface *)

Record HidReport : Set := mkHidReport { hr_hid_id : Z; hr_size : Z; hr_data : bytes }.

(** [buf[..n].copy_from_slice(&data[..n])] on a zeroed [HID_MAX_SIZE] buffer. *)
Definition fixed_data (n : nat) (data : bytes) : bytes :=
  take n data ++ replicate (HID_MAX_SIZE - n) 0.

Definition HidReport_new (hid_id : Z) (data : bytes) : HidReport :=
  let n := Nat.min (length data) HID_MAX_SIZE in
  mkHidReport hid_id (Z.of_nat n) (fixed_data n data).

(** The conversion shared by the keyboard and the mouse driver, after their
    [assert_eq!] on the id. *)
Definition report_to_input (report : HidReport) : ControlMessage :=
  let n := Nat.min (Z.to_nat (hr_size report)) HID_MAX_SIZE in
  Cm_UhidInput (mkUhidInput (hr_hid_id report) (Z.of_nat n) (fixed_data n (hr_data report))).

Class HidDevice (D : Type) := {
  hid_id : D → Z;
  open_message : D → option str → outcome Error ControlMessage;
  close_message : D → outcome Error ControlMessage;
}.

(** What the session relies on: a device announces and removes itself under its
    own id with messages the serializer accepts. *)
Class LawfulHidDevice (D : Type) `{!HidDevice D} := {
  open_message_ok d name :
    ∃ c, open_message d name = Ok (Cm_UhidCreate c) ∧ uc_id c = hid_id d ∧
         ControlMessage_wf (Cm_UhidCreate c) ∧ encodable (Cm_UhidCreate c);
  close_message_ok d : close_message d = Ok (Cm_UhidDestroy (mkUhidDestroy (hid_id d)));
  hid_id_range d : u16 (hid_id d);
}.

(** ** The item language

    A short item is a prefix byte (tag, type, payload size) and its payload. *)

Record Field : Set := mkField
  { f_page : Z; f_bits : Z; f_count : Z; f_min : Z; f_max : Z; f_flags : Z }.

Record ItemState : Set := mkItemState
  { it_page : Z; it_min : Z; it_max : Z; it_size : Z; it_count : Z; it_depth : Z }.

Definition item_data (l : bytes) : Z := swrap (8 * Z.of_nat (length l)) (le_val l).

(** The input fields of a descriptor, in order; [None] when it is malformed or a
    collection is left open. *)
Fixpoint items (fuel : nat) (s : ItemState) (l : bytes) : option (list Field) :=
  match fuel, l with
  | _, [] => if it_depth s =? 0 then Some [] else None
  | O, _ => None
  | S fuel, prefix :: l =>
      let n := match Z.land prefix 3 with 3 => 4%nat | k => Z.to_nat k end in
      '(data, l) ← split_bytes n l;
      let v := item_data data in
      let u := le_val data in
      match Z.land prefix 0xFC with
      | 0x80 =>
          fs ← items fuel s l;
          Some (mkField (it_page s) (it_size s) (it_count s) (it_min s) (it_max s) u :: fs)
      | 0xA0 => items fuel (mkItemState (it_page s) (it_min s) (it_max s) (it_size s)
                              (it_count s) (it_depth s + 1)) l
      | 0xC0 => items fuel (mkItemState (it_page s) (it_min s) (it_max s) (it_size s)
                              (it_count s) (it_depth s - 1)) l
      | 0x04 => items fuel (mkItemState u (it_min s) (it_max s) (it_size s)
                              (it_count s) (it_depth s)) l
      | 0x14 => items fuel (mkItemState (it_page s) v (it_max s) (it_size s)
                              (it_count s) (it_depth s)) l
      | 0x24 => items fuel (mkItemState (it_page s) (it_min s) v (it_size s)
                              (it_count s) (it_depth s)) l
      | 0x74 => items fuel (mkItemState (it_page s) (it_min s) (it_max s) u
                              (it_count s) (it_depth s)) l
      | 0x94 => items fuel (mkItemState (it_page s) (it_min s) (it_max s) (it_size s)
                              u (it_depth s)) l
      | _ => items fuel s l
      end
  end.

Definition input_fields (desc : bytes) : option (list Field) :=
  items (length desc) (mkItemState 0 0 0 0 0 0) desc.

Definition field_bits (f : Field) : Z := f_bits f * f_count f.
Definition input_bits (desc : bytes) : option Z :=
  fs ← input_fields desc; Some (foldr (λ f n, field_bits f + n) 0 fs).

(** ** Reports against fields *)

Definition is_constant (f : Field) : bool := Z.testbit (f_flags f) 0.
Definition has_null (f : Field) : bool := Z.testbit (f_flags f) 6.

(** The value of the [bits]-wide element at bit [off] of a report. *)
Definition element (data : bytes) (off bits : Z) (signed : bool) : Z :=
  let u := Z.shiftr (le_val data) off mod 2 ^ bits in
  if signed then swrap bits u else u.

Definition element_ok (f : Field) (data : bytes) (off : Z) : bool :=
  let v := element data off (f_bits f) (f_min f <? 0) in
  is_constant f || has_null f || ((f_min f <=? v) && (v <=? f_max f)).

Definition field_ok (f : Field) (data : bytes) (off : Z) : bool :=
  forallb (λ i, element_ok f data (off + i * f_bits f)) (below (Z.to_nat (f_count f))).

Fixpoint fields_ok (fs : list Field) (data : bytes) (off : Z) : bool :=
  match fs with
  | [] => true
  | f :: fs => field_ok f data off && fields_ok fs data (off + field_bits f)
  end.

(** A report of [desc]: long enough for the declared fields, with every element of
    a data field in its logical range (or a null value where the field has one). *)
Definition conforms (desc data : bytes) : Prop :=
  ∃ fs n, input_fields desc = Some fs ∧ input_bits desc = Some n ∧
    n ≤ 8 * Z.of_nat (length data) < n + 8 ∧ fields_ok fs data 0 = true.

(** ** Lemmas *)

Lemma length_fixed_data n data :
  (n ≤ length data)%nat → (n ≤ HID_MAX_SIZE)%nat → length (fixed_data n data) = HID_MAX_SIZE.
Proof.
  intros. unfold fixed_data. rewrite length_app, length_take, length_replicate. lia.
Qed.

Lemma is_bytes_fixed_data n data : is_bytes data → is_bytes (fixed_data n data).
Proof.
  intros. apply Forall_app. split; [by apply Forall_take|].
  apply Forall_replicate. split; [done|]. lia.
Qed.

Lemma take_fixed_data n data : (n ≤ length data)%nat → take n (fixed_data n data) = take n data.
Proof. intros. unfold fixed_data. rewrite take_app_le, take_take; [f_equal; lia|]. rewrite length_take; lia. Qed.

Lemma report_to_input_new id data :
  (length data ≤ HID_MAX_SIZE)%nat →
  report_to_input (HidReport_new id data) =
  Cm_UhidInput (mkUhidInput id (Z.of_nat (length data)) (fixed_data (length data) data)).
Proof.
  intros H. unfold report_to_input, HidReport_new. cbn [hr_size hr_hid_id hr_data].
  rewrite Nat2Z.id, !Nat.min_l by lia. do 2 f_equal.
  set (n := length data). transitivity (take n (fixed_data n data) ++ replicate (HID_MAX_SIZE - n) 0).
  { done. }
  by rewrite take_fixed_data by lia.
Qed.

Lemma input_message_ok id data :
  u16 id → is_bytes data → (length data ≤ HID_MAX_SIZE)%nat →
  let m := Cm_UhidInput (mkUhidInput id (Z.of_nat (length data))
                           (fixed_data (length data) data)) in
  ControlMessage_wf m ∧ encodable m ∧ wire_of m = W_UhidInput id data.
Proof.
  intros Hid Hd Hl m. unfold HID_MAX_SIZE in Hl.
  assert (length (fixed_data (length data) data) = HID_MAX_SIZE).
  { rewrite length_fixed_data; unfold HID_MAX_SIZE; lia. }
  refine (conj (conj Hid (conj _ (conj _ _))) (conj _ _)); cbn.
  - widths; lia.
  - done.
  - by apply is_bytes_fixed_data.
  - lia.
  - by rewrite Nat2Z.id, take_fixed_data, firstn_all by lia.
Qed.

(** Elements at byte boundaries. *)
Lemma le_val_drop k l :
  is_bytes l → Z.shiftr (le_val l) (8 * Z.of_nat k) = le_val (drop k l).
Proof.
  intros Hl. revert k. induction Hl as [|b l Hb Hl IH]; intros k.
  { rewrite drop_nil. apply Z.shiftr_0_l. }
  destruct k as [|k]; [by rewrite Z.shiftr_0_r|].
  cbn [drop le_val]. rewrite <-IH.
  replace (8 * Z.of_nat (S k)) with (8 + 8 * Z.of_nat k) by lia.
  rewrite <-Z.shiftr_shiftr by lia. f_equal.
  rewrite Z.shiftr_div_pow2 by lia. widths. change (2 ^ 8) with 256.
  rewrite Z.mul_comm, Z.div_add, Z.div_small by lia. done.
Qed.

Lemma le_val_mod l : is_bytes l → le_val l mod 256 = nth 0 l 0.
Proof.
  intros [|b l' Hb _]; cbn [le_val nth]; [done|].
  widths. rewrite Z.mul_comm, Z.mod_add by lia. by apply Z.mod_small.
Qed.

Lemma element_byte data k signed :
  is_bytes data →
  element data (8 * Z.of_nat k) 8 signed =
  if signed then swrap 8 (nth k data 0) else nth k data 0.
Proof.
  intros H. unfold element. rewrite le_val_drop by done. change (2 ^ 8) with 256.
  rewrite le_val_mod by (by apply Forall_drop). by rewrite nth_skipn, Nat.add_0_r.
Qed.

(** Fields every value of which is in range, and byte fields. *)
Lemma field_full f data off :
  0 ≤ f_bits f → f_min f = 0 → 2 ^ f_bits f - 1 ≤ f_max f → field_ok f data off = true.
Proof.
  intros Hb Hmin Hmax. apply forallb_forall. intros i _. unfold element_ok, element.
  rewrite Hmin. cbn [Z.ltb Z.compare].
  pose proof (Z.mod_pos_bound (Z.shiftr (le_val data) (off + i * f_bits f)) (2 ^ f_bits f)
    ltac:(by apply Z.pow_pos_nonneg)).
  rewrite !(proj2 (Z.leb_le _ _)) by lia. by rewrite orb_true_r.
Qed.

Lemma field_free f data off :
  is_constant f || has_null f = true → field_ok f data off = true.
Proof.
  intros H. apply forallb_forall. intros i _. unfold element_ok. by rewrite H.
Qed.

Lemma field_byte_range f data k :
  f_bits f = 8 → is_bytes data →
  (∀ i, (k ≤ i < k + Z.to_nat (f_count f))%nat →
    let b := nth i data 0 in
    f_min f ≤ (if f_min f <? 0 then swrap 8 b else b) ≤ f_max f) →
  field_ok f data (8 * Z.of_nat k) = true.
Proof.
  intros Hb Hd Hr. apply forallb_forall. intros i Hi.
  apply in_map_iff in Hi as (j & <- & Hj%in_seq). unfold element_ok. rewrite Hb.
  replace (8 * Z.of_nat k + Z.of_nat j * 8) with (8 * Z.of_nat (k + j)) by lia.
  rewrite element_byte by done. specialize (Hr (k + j)%nat ltac:(lia)). cbn in Hr.
  rewrite !(proj2 (Z.leb_le _ _)) by apply Hr. by rewrite orb_true_r.
Qed.

(** A little-endian integer inside a report. *)
Lemma le_val_app l1 l2 : le_val (l1 ++ l2) = le_val l1 + 256 ^ Z.of_nat (length l1) * le_val l2.
Proof.
  induction l1 as [|b l1 IH]; [cbn; lia|].
  cbn [app le_val length]. rewrite IH, Nat2Z.inj_succ, Z.pow_succ_r by lia. ring.
Qed.

Lemma element_le pre n v rest :
  is_bytes pre → is_bytes rest →
  element (pre ++ le_bytes n v ++ rest) (8 * Z.of_nat (length pre)) (8 * Z.of_nat n) false
  = v mod 256 ^ Z.of_nat n.
Proof.
  intros Hpre Hrest. unfold element.
  rewrite le_val_drop.
  2: { apply Forall_app_2; [done|]. apply Forall_app_2; [apply is_bytes_le_bytes|done]. }
  rewrite drop_app_length, le_val_app, length_le_bytes, le_val_bytes.
  rewrite Z.pow_mul_r by lia. change (2 ^ 8) with 256.
  rewrite (Z.mul_comm (256 ^ _)), Z.mod_add by (apply Z.pow_nonzero; lia).
  by rewrite Z.mod_mod by (apply Z.pow_nonzero; lia).
Qed.
