(* ===== verification/Keyboard.v ===== *)
(** * The keyboard driver ([src/src/hid/keyboard.rs])

    [KeyboardHid]: the held-key table and the modifier byte, its operations, the
    8-byte report with the rollover state, and what the reports mean. *)

From Stdlib Require Import Sorted.
From S2P Require Import Prelude Words Errors Types Utf8 Float32 Message Descriptor.
Local Open Scope Z_scope.

Definition KEYBOARD_REPORT_SIZE : nat := 8.
Definition KEYBOARD_MAX_KEYS : nat := 6.
Definition SC_HID_ERROR_ROLL_OVER : Z := 1.

(** [keys] has 0x66 entries. *)
Record KeyboardHid : Set := mkKeyboard { keys : list bool; device_mod : Modifiers }.

Definition Keyboard_new : KeyboardHid := mkKeyboard (replicate 0x66 false) Modifiers_empty.

Definition pressed_count (kb : KeyboardHid) : nat := length (filter Is_true (keys kb)).

(** [self.keys[sc] = pressed] unwinds out of range. *)
Definition set_key (scancode : Z) (pressed : bool) : cmd KeyboardHid Error unit := λ kb,
  if (0x65 <? scancode) && negb ((0xE0 <=? scancode) && (scancode <=? 0xE7))
  then (Err (ScancodeOutOfRange scancode), kb)
  else if scancode <=? 0x65 then
    match keys kb !! Z.to_nat scancode with
    | Some _ =>
        (Ok tt, mkKeyboard (<[Z.to_nat scancode := pressed]> (keys kb)) (device_mod kb))
    | None => (Panicked, kb)
    end
  else (Ok tt, kb).

Definition set_modifiers (m : Modifiers) : cmd KeyboardHid Error Modifiers := λ kb,
  (Ok (device_mod kb), mkKeyboard (keys kb) m).

Definition modifiers (kb : KeyboardHid) : Modifiers := device_mod kb.

Definition hid_modifier_byte (m : Modifiers) : Z := Modifiers_bits m.

(** The loop of [build_report] over [keys.iter().enumerate()], from key [sc] and
    slot [slot]; the sixth further key returns the phantom state at once. *)
Fixpoint fill_slots (ks : list bool) (sc : Z) (slot : nat) (data : bytes) : bytes :=
  match ks with
  | [] => data
  | held :: ks =>
      if negb held then fill_slots ks (sc + 1) slot data
      else if Nat.leb KEYBOARD_MAX_KEYS slot then
        take 2 data ++ replicate (length data - 2) SC_HID_ERROR_ROLL_OVER
      else fill_slots ks (sc + 1) (S slot) (<[(2 + slot)%nat := wrap 8 sc]> data)
  end.

Definition build_report (kb : KeyboardHid) (mods : Modifiers) : HidReport :=
  let data := <[0%nat := hid_modifier_byte mods]> (replicate KEYBOARD_REPORT_SIZE 0) in
  HidReport_new HID_ID_KEYBOARD (fill_slots (keys kb) 0 0 data).

Definition inject_key (scancode : Z) (pressed : bool) (mods : Modifiers) :
    cmd KeyboardHid Error HidReport :=
  set_key scancode pressed;;
  modify (λ kb, mkKeyboard (keys kb) mods);;
  read (λ kb, build_report kb mods).

Definition to_input_message (report : HidReport) : outcome Error ControlMessage :=
  if decide (hr_hid_id report = HID_ID_KEYBOARD)
  then Ok (report_to_input report) else Panicked.

Definition key_event (scancode : Z) (pressed : bool) (mods : Modifiers) :
    cmd KeyboardHid Error ControlMessage :=
  report ← inject_key scancode pressed mods;
  lift (to_input_message report).

(** [mods_sync_message]: a full [HID_MAX_SIZE] buffer, announced as 8 bytes. *)
Definition mods_sync_message (mods : Modifiers) : option ControlMessage :=
  let data := replicate HID_MAX_SIZE 0 in
  let data := if negb (mods =? 0) then <[0%nat := Modifiers_bits mods]> data else data in
  let '(data, slot) :=
    if negb (Z.land (Modifiers_bits mods) 1 =? 0)
    then (<[2%nat := 0x39]> data, 1%nat) else (data, 0%nat) in
  let '(data, slot) :=
    if negb (Z.land (Modifiers_bits mods) 2 =? 0)
    then (<[(2 + slot)%nat := 0x53]> data, S slot) else (data, slot) in
  if Nat.eqb slot 0 && (nth 0 data 0 =? 0) then None
  else Some (Cm_UhidInput (mkUhidInput HID_ID_KEYBOARD (Z.of_nat KEYBOARD_REPORT_SIZE) data)).

Definition hid_mod_from_sdl_keymod (m : Z) : Z :=
  let bit mask md mods := if negb (Z.land m mask =? 0) then Z.lor mods md else mods in
  bit 0x80 (Z.shiftl 1 7) (bit 0x40 (Z.shiftl 1 6) (bit 0x20 (Z.shiftl 1 5)
  (bit 0x10 (Z.shiftl 1 4) (bit 8 (Z.shiftl 1 3) (bit 4 (Z.shiftl 1 2)
  (bit 2 (Z.shiftl 1 1) (bit 1 (Z.shiftl 1 0) 0))))))).

#[export] Instance Keyboard_device : HidDevice KeyboardHid := {
  hid_id _ := HID_ID_KEYBOARD;
  open_message _ _ :=
    Ok (Cm_UhidCreate (mkUhidCreate HID_ID_KEYBOARD 0 0 None KEYBOARD_REPORT_DESC));
  close_message _ := Ok (Cm_UhidDestroy (mkUhidDestroy HID_ID_KEYBOARD));
}.

#[export] Instance Keyboard_lawful : LawfulHidDevice KeyboardHid.
Proof.
  split; intros d.
  - intros name. eexists. split_and!; try done.
    by apply (bool_decide_unpack _); vm_compute.
  - done.
  - done.
Qed.

(** ** The held keys *)

Definition keyboard_wf (kb : KeyboardHid) : Prop :=
  length (keys kb) = 0x66%nat ∧ u8 (device_mod kb).

(** The usages held in a table that starts at usage [sc], in ascending order. *)
Fixpoint held_from (ks : list bool) (sc : Z) : list Z :=
  match ks with
  | [] => []
  | true :: ks => sc :: held_from ks (sc + 1)
  | false :: ks => held_from ks (sc + 1)
  end.
Definition held_keys (kb : KeyboardHid) : list Z := held_from (keys kb) 0.

(** The six key slots of a report: the held keys, or the rollover code. *)
Definition key_slots (held : list Z) : bytes :=
  if decide (length held ≤ KEYBOARD_MAX_KEYS)%nat
  then held ++ replicate (KEYBOARD_MAX_KEYS - length held) 0
  else replicate KEYBOARD_MAX_KEYS SC_HID_ERROR_ROLL_OVER.

Definition keyboard_report (held : list Z) (mods : Modifiers) : bytes :=
  mods :: 0 :: key_slots held.

Lemma elem_of_held_from ks sc k :
  k ∈ held_from ks sc ↔ sc ≤ k ∧ ks !! Z.to_nat (k - sc) = Some true.
Proof.
  revert sc. induction ks as [|h ks IH]; intros sc; cbn [held_from].
  { rewrite elem_of_nil, lookup_nil. split; [done|by intros [_ ?]]. }
  assert (k ∈ held_from ks (sc + 1) ↔
          sc < k ∧ (h :: ks) !! Z.to_nat (k - sc) = Some true) as IH'.
  { rewrite IH. split; intros [H1 H2]; (split; [lia|]);
      replace (Z.to_nat (k - sc)) with (S (Z.to_nat (k - (sc + 1)))) in * by lia; done. }
  destruct (decide (k = sc)) as [->|Hne].
  - rewrite Z.sub_diag. cbn. destruct h.
    + rewrite elem_of_cons. split; [intros; split; [lia|done]|by left].
    + rewrite IH'. split; [lia|]. intros [_ [=]].
  - destruct h; [rewrite elem_of_cons|]; rewrite IH'; intuition lia.
Qed.

Lemma elem_of_held kb k :
  k ∈ held_keys kb ↔ 0 ≤ k ∧ keys kb !! Z.to_nat k = Some true.
Proof. unfold held_keys. by rewrite elem_of_held_from, Z.sub_0_r. Qed.

Lemma held_from_sorted ks sc :
  StronglySorted Z.lt (held_from ks sc) ∧ Forall (λ k, sc ≤ k) (held_from ks sc).
Proof.
  revert sc. induction ks as [|h ks IH]; intros sc; cbn [held_from].
  { split; constructor. }
  destruct (IH (sc + 1)) as [IH1 IH2].
  assert (Forall (λ k, sc < k) (held_from ks (sc + 1))) as IH3.
  { eapply Forall_impl; [exact IH2|]. cbn. lia. }
  destruct h; (split; [|]).
  - by constructor.
  - constructor; [lia|]. eapply Forall_impl; [exact IH3|]. cbn. lia.
  - done.
  - eapply Forall_impl; [exact IH3|]. cbn. lia.
Qed.

Lemma held_from_bound ks sc :
  Forall (λ k, k < sc + Z.of_nat (length ks)) (held_from ks sc).
Proof.
  apply Forall_forall. intros k [Hk Hl]%elem_of_held_from.
  apply lookup_lt_Some in Hl. lia.
Qed.

Lemma held_range kb : keyboard_wf kb → Forall (λ k, 0 ≤ k ≤ 0x65) (held_keys kb).
Proof.
  intros [Hl _]. pose proof (held_from_bound (keys kb) 0) as H1.
  pose proof (proj2 (held_from_sorted (keys kb) 0)) as H2. unfold held_keys.
  rewrite Hl in H1. rewrite Forall_forall in *. intros k Hk.
  specialize (H1 k Hk). specialize (H2 k Hk). cbn in *. lia.
Qed.

(** ** The report *)

Lemma fill_slots_spec ks sc slot pre :
  0 ≤ sc → sc + Z.of_nat (length ks) ≤ 256 →
  length pre = (2 + slot)%nat → (slot ≤ 6)%nat →
  fill_slots ks sc slot (pre ++ replicate (6 - slot) 0) =
  if decide (slot + length (held_from ks sc) ≤ 6)%nat
  then pre ++ held_from ks sc ++ replicate (6 - slot - length (held_from ks sc)) 0
  else take 2 pre ++ replicate 6 SC_HID_ERROR_ROLL_OVER.
Proof.
  revert sc slot pre. induction ks as [|h ks IH]; intros sc slot pre H0 Hsc Hpre Hslot.
  { cbn [fill_slots held_from length]. rewrite decide_True by lia.
    by rewrite app_nil_l, Nat.sub_0_r. }
  cbn [length] in Hsc. cbn [fill_slots held_from].
  destruct h; cbn [negb]; [|apply IH; lia].
  cbn [length]. unfold KEYBOARD_MAX_KEYS. destruct (Nat.leb_spec 6 slot) as [Hge|Hlt].
  - assert (slot = 6)%nat as -> by lia. rewrite decide_False by lia.
    rewrite length_app, length_replicate, Hpre. rewrite take_app_le by lia. done.
  - replace (<[(2 + slot)%nat := wrap 8 sc]> (pre ++ replicate (6 - slot) 0))
      with ((pre ++ [sc]) ++ replicate (6 - S slot) 0).
    2: { rewrite insert_app_r_alt by lia. rewrite Hpre, Nat.sub_diag.
         replace (6 - slot)%nat with (S (6 - S slot)) by lia.
         cbn [replicate]. rewrite wrap_small by (widths; lia). cbn. by rewrite <-app_assoc. }
    rewrite IH; [|lia|lia|rewrite length_app; cbn; lia|lia].
    destruct (decide (slot + S (length (held_from ks (sc + 1))) ≤ 6)%nat).
    + rewrite decide_True by lia. rewrite <-app_assoc. cbn [app]. do 4 f_equal. lia.
    + rewrite decide_False by lia. by rewrite take_app_le by lia.
Qed.

Lemma build_report_spec kb mods :
  keyboard_wf kb →
  build_report kb mods = HidReport_new HID_ID_KEYBOARD (keyboard_report (held_keys kb) mods).
Proof.
  intros [Hl _]. unfold build_report. f_equal.
  change (<[0%nat:=hid_modifier_byte mods]> (replicate KEYBOARD_REPORT_SIZE 0))
    with ([mods; 0] ++ replicate (6 - 0) 0).
  rewrite fill_slots_spec by (rewrite ?Hl; done || lia).
  unfold keyboard_report, key_slots, held_keys, KEYBOARD_MAX_KEYS.
  cbn [plus app take]. rewrite Nat.sub_0_r. case_decide; done.
Qed.

Lemma length_key_slots held : length (key_slots held) = 6%nat.
Proof.
  unfold key_slots, KEYBOARD_MAX_KEYS. case_decide; [|done].
  rewrite length_app, length_replicate. lia.
Qed.

Lemma key_slots_range held :
  Forall (λ k, 0 ≤ k ≤ 0x65) held → Forall (λ k, 0 ≤ k ≤ 0x65) (key_slots held).
Proof.
  intros H. unfold key_slots. case_decide.
  - apply Forall_app. split; [done|]. apply Forall_replicate. lia.
  - apply Forall_replicate. unfold SC_HID_ERROR_ROLL_OVER. lia.
Qed.

Lemma keyboard_report_bytes held mods :
  Forall (λ k, 0 ≤ k ≤ 0x65) held → u8 mods → is_bytes (keyboard_report held mods).
Proof.
  intros Hh Hm. unfold keyboard_report. repeat constructor; [apply Hm|apply Hm|done|].
  eapply Forall_impl; [by apply key_slots_range|]. cbn. widths. lia.
Qed.

Lemma keyboard_report_conforms held mods :
  Forall (λ k, 0 ≤ k ≤ 0x65) held → u8 mods →
  conforms KEYBOARD_REPORT_DESC (keyboard_report held mods).
Proof.
  intros Hh Hm. pose proof (keyboard_report_bytes held mods Hh Hm) as Hb.
  eexists _, _. split; [by vm_compute|]. split; [by vm_compute|]. split.
  { unfold keyboard_report. cbn [length]. rewrite length_key_slots. done. }
  cbn [fields_ok]. rewrite (field_full (mkField _ _ _ _ _ _)) by done.
  rewrite (field_free (mkField _ _ _ _ _ 1)) by done.
  change (0 + _ + _) with (8 * Z.of_nat 2). rewrite field_byte_range; [done|done|done|].
  cbn [f_min f_max f_count Z.ltb Z.compare]. intros i Hi.
  pose proof (key_slots_range held Hh) as Hs. rewrite Forall_lookup in Hs.
  destruct i as [|[|i]]; [lia|lia|]. unfold keyboard_report. cbn [nth].
  destruct (lookup_lt_is_Some_2 (key_slots held) i) as [k Hk].
  { rewrite length_key_slots. lia. }
  rewrite (nth_lookup_Some _ _ _ _ Hk). by apply (Hs i).
Qed.

(** ** Operations *)

Lemma set_key_run sc pressed kb :
  keyboard_wf kb → u8 sc →
  set_key sc pressed kb =
  if decide (valid_usage sc) then
    (Ok tt, if decide (sc ≤ 0x65)
            then mkKeyboard (<[Z.to_nat sc := pressed]> (keys kb)) (device_mod kb) else kb)
  else (Err (ScancodeOutOfRange sc), kb).
Proof.
  intros [Hl _] Hsc. unfold set_key, valid_usage. widths.
  destruct (Z.ltb_spec 0x65 sc).
  - destruct (Z.leb_spec 0xE0 sc), (Z.leb_spec sc 0xE7); cbn [negb andb];
      repeat case_decide; try lia; try done;
      rewrite (proj2 (Z.leb_gt sc 0x65)) by lia; done.
  - cbn [andb]. rewrite (proj2 (Z.leb_le sc 0x65)) by lia.
    destruct (lookup_lt_is_Some_2 (keys kb) (Z.to_nat sc)) as [x ->]; [rewrite Hl; lia|].
    rewrite !decide_True by lia. done.
Qed.

Lemma inject_key_run sc pressed mods kb :
  keyboard_wf kb → u8 sc →
  inject_key sc pressed mods kb =
  if decide (valid_usage sc) then
    let kb' := mkKeyboard (if decide (sc ≤ 0x65) then <[Z.to_nat sc := pressed]> (keys kb)
                           else keys kb) mods in
    (Ok (build_report kb' mods), kb')
  else (Err (ScancodeOutOfRange sc), kb).
Proof.
  intros Hwf Hsc. unfold inject_key. run. rewrite set_key_run by done.
  repeat case_decide; done.
Qed.

Lemma inject_key_wf sc pressed mods kb :
  keyboard_wf kb → u8 sc → u8 mods → keyboard_wf (inject_key sc pressed mods kb).2.
Proof.
  intros Hwf Hsc Hm. rewrite inject_key_run by done.
  case_decide; [|done]. destruct Hwf as [Hl _]. cbn [snd].
  split; [|done]. cbn [keys]. case_decide; by rewrite ?length_insert.
Qed.

(** Only the key of the event changes. *)
Lemma inject_key_held sc pressed mods kb k :
  keyboard_wf kb → u8 sc → 
  k ∈ held_keys (inject_key sc pressed mods kb).2 ↔
  if decide (k = sc ∧ 0 ≤ k ≤ 0x65) then pressed = true else k ∈ held_keys kb.
Proof.
  intros Hwf Hsc. pose proof Hwf as [Hl _]. widths.
  rewrite inject_key_run by done. unfold valid_usage.
  destruct (decide (0 ≤ sc ≤ 0x65 ∨ 0xE0 ≤ sc ≤ 0xE7)); cbn [snd]; rewrite !elem_of_held; cbn [keys].
  - destruct (decide (sc ≤ 0x65)).
    + destruct (decide (k = sc ∧ 0 ≤ k ≤ 0x65)) as [[-> ?]|Hne].
      * rewrite list_lookup_insert_eq by (rewrite Hl; lia).
        split; [by intros [_ [= ->]]|intros ->; split; [lia|done]].
      * rewrite ?elem_of_held. destruct (decide (0 ≤ k)); [|split; intros [??]; lia].
        rewrite list_lookup_insert_ne by lia. done.
    + rewrite decide_False by lia. by rewrite ?elem_of_held.
  - rewrite decide_False by lia. by rewrite ?elem_of_held.
Qed.

Lemma key_event_run sc pressed mods kb :
  keyboard_wf kb → u8 sc → u8 mods →
  let '(o, kb') := key_event sc pressed mods kb in
  kb' = (inject_key sc pressed mods kb).2 ∧
  o = if decide (valid_usage sc) then
        let data := keyboard_report (held_keys kb') mods in
        Ok (Cm_UhidInput (mkUhidInput HID_ID_KEYBOARD 8 (fixed_data 8 data)))
      else Err (ScancodeOutOfRange sc).
Proof.
  intros Hwf Hsc Hm. pose proof (inject_key_wf sc pressed mods kb Hwf Hsc Hm) as Hwf'.
  unfold key_event. run. rewrite inject_key_run in * by done.
  case_decide; [|done]. cbn [snd] in Hwf'. split; [done|].
  rewrite build_report_spec by done. unfold to_input_message.
  rewrite decide_True by done.
  assert (∀ h, length (keyboard_report h mods) = 8%nat) as Hlen.
  { intros h. unfold keyboard_report. cbn [length]. by rewrite length_key_slots. }
  rewrite report_to_input_new by (rewrite Hlen; unfold HID_MAX_SIZE; lia).
  by rewrite Hlen.
Qed.

(** ** Histories of key events *)

Record KeyEvent : Set := mkKeyEvent { ke_sc : Z; ke_pressed : bool; ke_mods : Modifiers }.

Definition key_event_ok (e : KeyEvent) : Prop := u8 (ke_sc e) ∧ u8 (ke_mods e).

(** Errors are discarded, as a caller that drops an out-of-range event does. *)
Definition play (evs : list KeyEvent) (kb : KeyboardHid) : KeyboardHid :=
  foldl (λ kb e, (key_event (ke_sc e) (ke_pressed e) (ke_mods e) kb).2) kb evs.

(** The last event of key [k]. *)
Definition last_event (k : Z) (evs : list KeyEvent) : option bool :=
  foldl (λ r e, if decide (ke_sc e = k) then Some (ke_pressed e) else r) None evs.

Lemma key_event_state sc pressed mods kb :
  (key_event sc pressed mods kb).2 = (inject_key sc pressed mods kb).2.
Proof.
  unfold key_event. run. by destruct (inject_key sc pressed mods kb) as [[]].
Qed.

Lemma play_snoc evs e kb :
  play (evs ++ [e]) kb = (inject_key (ke_sc e) (ke_pressed e) (ke_mods e) (play evs kb)).2.
Proof. unfold play. rewrite foldl_app. cbn. apply key_event_state. Qed.

Lemma Keyboard_new_wf : keyboard_wf Keyboard_new.
Proof. split; [done|]. by split. Qed.

Lemma play_wf evs : Forall key_event_ok evs → keyboard_wf (play evs Keyboard_new).
Proof.
  induction evs as [|e evs IH] using rev_ind; intros H; [apply Keyboard_new_wf|].
  apply Forall_app in H as [H [He _]%Forall_cons].
  rewrite play_snoc. by apply inject_key_wf; [apply IH|apply He..].
Qed.

Lemma play_held evs k :
  Forall key_event_ok evs →
  k ∈ held_keys (play evs Keyboard_new) ↔ 0 ≤ k ≤ 0x65 ∧ last_event k evs = Some true.
Proof.
  induction evs as [|e evs IH] using rev_ind; intros H.
  { split; [|by intros [_ ?]]. intros [_ Hk]%elem_of_held. exfalso.
    unfold Keyboard_new in Hk. cbn [keys play foldl] in Hk.
    by apply lookup_replicate in Hk as []. }
  apply Forall_app in H as [H [He _]%Forall_cons].
  rewrite play_snoc, inject_key_held by (apply play_wf, H || apply He).
  unfold last_event. rewrite foldl_app. cbn [foldl]. fold (last_event k evs).
  destruct (decide (ke_sc e = k)) as [->|Hne].
  - case_decide as Hc.
    + split; [intros ->|intros [_ [=]]]; [split; [apply Hc|]|]; done.
    + rewrite IH by done. split; intros [? _]; exfalso; apply Hc; split; done || lia.
  - rewrite decide_False by (intros [? _]; congruence). apply IH, H.
Qed.

(** [mods_sync_message] says nothing exactly when no modifier is set, and its
    first two lock keys follow the Ctrl and Shift bits. *)
Lemma mods_sync_run m :
  u8 m →
  mods_sync_message m =
  if decide (m = 0) then None
  else Some (Cm_UhidInput (mkUhidInput HID_ID_KEYBOARD 8
    (fixed_data 4 (m :: 0 :: (if Z.testbit m 0 then [0x39] else []) ++
                   (if Z.testbit m 1 then [0x53] else []) ++ [0; 0])))).
Proof.
  revert m.
  enough (∀ m, 0 ≤ m < 256 → mods_sync_message m =
    if decide (m = 0) then None
    else Some (Cm_UhidInput (mkUhidInput HID_ID_KEYBOARD 8
      (fixed_data 4 (m :: 0 :: (if Z.testbit m 0 then [0x39] else []) ++
                   (if Z.testbit m 1 then [0x53] else []) ++ [0; 0]))))) as H.
  { intros m Hm. apply H. widths. lia. }
  exhaust 256%nat.
Qed.

(** ** Properties *)

(** C30: after any history of key events, an event with a usage of 0..=0x65 or
    0xE0..=0xE7 yields a UHID_INPUT for the keyboard whose 8-byte report is the event's
    modifiers, a zero byte, and the keys now held: in ascending order without repetition,
    padded with zeros, or six rollover codes when more than six are held.  Any other is
    refused as out of range and changes nothing.  The keys held are exactly the usages up
    to 0x65, 0..=3 among them, whose last event was a press. *)
Theorem key_event_reports_held_keys (evs : list KeyEvent) (e : KeyEvent)
    (Hevs : Forall key_event_ok (evs ++ [e])) :
  let kb := play evs Keyboard_new in
  let kb' := play (evs ++ [e]) Keyboard_new in
  (if decide (0 ≤ ke_sc e ≤ 0x65 ∨ 0xE0 ≤ ke_sc e ≤ 0xE7) then
     key_event (ke_sc e) (ke_pressed e) (ke_mods e) kb =
       (Ok (Cm_UhidInput (mkUhidInput HID_ID_KEYBOARD 8
              (fixed_data 8 (ke_mods e :: 0 :: key_slots (held_keys kb'))))), kb')
   else
     key_event (ke_sc e) (ke_pressed e) (ke_mods e) kb = (Err (ScancodeOutOfRange (ke_sc e)), kb) ∧
     kb' = kb) ∧
  StronglySorted Z.lt (held_keys kb') ∧
  ∀ k, k ∈ held_keys kb' ↔ 0 ≤ k ≤ 0x65 ∧ last_event k (evs ++ [e]) = Some true.
Proof.
  intros kb kb'. split; [|split; [apply held_from_sorted|intros k; by apply play_held]].
  apply Forall_app in Hevs as [Hevs [[Hsc Hm] _]%Forall_cons].
  pose proof (play_wf evs Hevs) as Hwf. fold kb in Hwf.
  pose proof (key_event_run (ke_sc e) (ke_pressed e) (ke_mods e) kb Hwf Hsc Hm) as Hrun.
  assert (kb' = (key_event (ke_sc e) (ke_pressed e) (ke_mods e) kb).2) as Hkb'.
  { unfold kb', kb, play. by rewrite foldl_app. }
  rewrite Hkb'. destruct (key_event _ _ _ _) as [o kb1] eqn:E in Hrun |- *. cbn [snd].
  destruct Hrun as [Hkb ->]. fold (valid_usage (ke_sc e)). rewrite inject_key_run in Hkb by done.
  destruct (decide (valid_usage (ke_sc e))); [done|]. cbn in Hkb. by subst kb1.
Qed.

(** Two keys held; and a usage between the keys and the modifiers is refused. *)
Lemma key_event_reports_held_keys_witness :
  let evs := [mkKeyEvent 4 true 0; mkKeyEvent 6 true 0; mkKeyEvent 4 false 2] in
  let e := mkKeyEvent 5 true 2 in
  held_keys (play (evs ++ [e]) Keyboard_new) = [5; 6] ∧
  (key_event 5 true 2 (play evs Keyboard_new)).1 =
    Ok (Cm_UhidInput (mkUhidInput HID_ID_KEYBOARD 8
          (fixed_data 8 [2; 0; 5; 6; 0; 0; 0; 0]))) ∧
  key_event 0x66 true 0 (play evs Keyboard_new) = (Err (ScancodeOutOfRange 0x66), play evs Keyboard_new).
Proof.
  intros evs e. split; [by vm_compute|].
  assert (Forall key_event_ok (evs ++ [e])) as H by (repeat constructor; cbn; lia).
  assert (Forall key_event_ok (evs ++ [mkKeyEvent 0x66 true 0])) as H' by (repeat constructor; cbn; lia).
  split; [|exact (proj1 (proj1 (key_event_reports_held_keys evs _ H')))].
  etrans; [exact (f_equal fst (proj1 (key_event_reports_held_keys evs e H)))|by vm_compute].
Defined.

(** Every report the keyboard can build conforms to the report descriptor it
    announces: it has exactly the declared 64 bits, and every key byte is in the
    declared logical range 0..101. *)
Theorem build_report_conforms (kb : KeyboardHid) (mods : Modifiers)
    (Hkb : keyboard_wf kb) (Hm : u8 mods) :
  hr_size (build_report kb mods) = 8 ∧
  conforms KEYBOARD_REPORT_DESC (take 8 (hr_data (build_report kb mods))).
Proof.
  rewrite build_report_spec by done. unfold HidReport_new. cbn [hr_size hr_data].
  assert (length (keyboard_report (held_keys kb) mods) = 8%nat) as ->.
  { unfold keyboard_report. cbn [length]. by rewrite length_key_slots. }
  split; [done|].
  change (take 8 (fixed_data (Nat.min 8 HID_MAX_SIZE) (keyboard_report (held_keys kb) mods)))
    with (take 8 (fixed_data 8 (keyboard_report (held_keys kb) mods))).
  assert (length (keyboard_report (held_keys kb) mods) = 8%nat) as Hl.
  { unfold keyboard_report. cbn [length]. by rewrite length_key_slots. }
  rewrite take_fixed_data, take_ge by (rewrite Hl; done).
  apply keyboard_report_conforms; [by apply held_range|done].
Qed.

Lemma build_report_conforms_witness :
  keyboard_wf Keyboard_new ∧
  conforms KEYBOARD_REPORT_DESC (take 8 (hr_data (build_report Keyboard_new 2))).
Proof.
  split; [exact Keyboard_new_wf|].
  exact (proj2 (build_report_conforms Keyboard_new 2 Keyboard_new_wf ltac:(by split))).
Defined.
