(* ===== verification/Mouse.v ===== *)
(** * The mouse driver ([src/src/hid/mouse.rs])

    [MouseHid]: the two fractional scroll residues, the 5-byte reports, and the
    accounting of a run of scroll events. *)

From S2P Require Import Prelude Words Errors Types Utf8 Float32 Message Descriptor.
Local Open Scope Z_scope.

Definition MOUSE_REPORT_SIZE : nat := 5.
Definition BTN_LEFT : Z := Z.shiftl 1 0.
Definition BTN_RIGHT : Z := Z.shiftl 1 1.
Definition BTN_MIDDLE : Z := Z.shiftl 1 2.
Definition BTN_X1 : Z := Z.shiftl 1 3.
Definition BTN_X2 : Z := Z.shiftl 1 4.

Definition buttons_byte (buttons_state : Z) : Z :=
  let bit c btn := if negb (Z.land buttons_state btn =? 0) then Z.lor c btn else c in
  bit (bit (bit (bit (bit 0 BTN_LEFT) BTN_RIGHT) BTN_MIDDLE) BTN_X1) BTN_X2.

Definition clamp_i8 (v : Z) : Z :=
  if v <? -127 then -127 else if 127 <? v then 127 else swrap 8 v.

(** The consumed byte and the new residue. *)
Definition consume_scroll_integer (scroll : f32) : Z * f32 :=
  let value := fclamp scroll (f32_of_Z (-127)) (f32_of_Z 127) in
  let consume := f32_as_i8 (ftrunc value) in
  (consume, fsub value (f32_of_Z consume)).

Record MouseHid : Set := mkMouse { residual_hscroll : f32; residual_vscroll : f32 }.

Definition Mouse_new : MouseHid := mkMouse (f32_of_Z 0) (f32_of_Z 0).

Definition generate_input_from_motion (xrel yrel buttons_state : Z) : HidReport :=
  let data := replicate MOUSE_REPORT_SIZE 0 in
  let data := <[0%nat := buttons_byte buttons_state]> data in
  let data := <[1%nat := wrap 8 (clamp_i8 xrel)]> data in
  let data := <[2%nat := wrap 8 (clamp_i8 yrel)]> data in
  HidReport_new HID_ID_MOUSE data.

Definition generate_input_from_click (buttons_state : Z) : HidReport :=
  HidReport_new HID_ID_MOUSE
    (<[0%nat := buttons_byte buttons_state]> (replicate MOUSE_REPORT_SIZE 0)).

Definition generate_input_from_scroll (hscroll vscroll : f32) (s : MouseHid) :
    option HidReport * MouseHid :=
  let rh := fadd (residual_hscroll s) hscroll in
  let rv := fadd (residual_vscroll s) vscroll in
  let '(h, rh) := consume_scroll_integer rh in
  let '(v, rv) := consume_scroll_integer rv in
  let s' := mkMouse rh rv in
  if (h =? 0) && (v =? 0) then (None, s')
  else
    let data := replicate MOUSE_REPORT_SIZE 0 in
    let data := <[0%nat := 0]> data in
    let data := <[3%nat := wrap 8 v]> data in
    let data := <[4%nat := wrap 8 h]> data in
    (Some (HidReport_new HID_ID_MOUSE data), s').

Definition to_input_message (report : HidReport) : outcome Error ControlMessage :=
  if decide (hr_hid_id report = HID_ID_MOUSE)
  then Ok (report_to_input report) else Panicked.

Definition click_message (buttons_state : Z) : outcome Error ControlMessage :=
  to_input_message (generate_input_from_click buttons_state).

Definition motion_message (xrel yrel buttons_state : Z) : outcome Error ControlMessage :=
  to_input_message (generate_input_from_motion xrel yrel buttons_state).

#[export] Instance Mouse_device : HidDevice MouseHid := {
  hid_id _ := HID_ID_MOUSE;
  open_message _ _ :=
    Ok (Cm_UhidCreate (mkUhidCreate HID_ID_MOUSE 0 0 None MOUSE_REPORT_DESC));
  close_message _ := Ok (Cm_UhidDestroy (mkUhidDestroy HID_ID_MOUSE));
}.

#[export] Instance Mouse_lawful : LawfulHidDevice MouseHid.
Proof.
  split; intros d.
  - intros name. eexists. split_and!; try done.
    by apply (bool_decide_unpack _); vm_compute.
  - done.
  - done.
Qed.

(** ** Reports *)

Definition mouse_report (buttons x y wheel pan : Z) : bytes :=
  [buttons; wrap 8 x; wrap 8 y; wrap 8 wheel; wrap 8 pan].

Definition clamp127 (v : Z) : Z := Z.max (-127) (Z.min 127 v).

Lemma clamp_i8_spec v : clamp_i8 v = clamp127 v.
Proof.
  unfold clamp_i8, clamp127.
  destruct (Z.ltb_spec v (-127)); [lia|]. destruct (Z.ltb_spec 127 v); [lia|].
  rewrite swrap_small; [lia|lia|]. unfold in_signed. change (2 ^ (8 - 1)) with 128. lia.
Qed.

Lemma buttons_byte_spec b : u8 b → buttons_byte b = Z.land b 31.
Proof.
  revert b. enough (∀ b, 0 ≤ b < 256 → buttons_byte b = Z.land b 31) as H.
  { intros b Hb. apply H. widths. lia. }
  exhaust 256%nat.
Qed.

Lemma buttons_byte_range b : u8 b → 0 ≤ buttons_byte b < 32.
Proof.
  intros H. rewrite buttons_byte_spec by done. change 31 with (Z.ones 5).
  rewrite Z.land_ones by lia. apply Z.mod_pos_bound. lia.
Qed.

Lemma motion_report_spec x y b :
  generate_input_from_motion x y b =
  HidReport_new HID_ID_MOUSE (mouse_report (buttons_byte b) (clamp127 x) (clamp127 y) 0 0).
Proof. unfold generate_input_from_motion. by rewrite !clamp_i8_spec. Qed.

Lemma click_report_spec b :
  generate_input_from_click b = HidReport_new HID_ID_MOUSE (mouse_report (buttons_byte b) 0 0 0 0).
Proof. done. Qed.

Lemma to_input_mouse_report b x y w p :
  to_input_message (HidReport_new HID_ID_MOUSE (mouse_report b x y w p)) =
  Ok (Cm_UhidInput (mkUhidInput HID_ID_MOUSE 5 (fixed_data 5 (mouse_report b x y w p)))).
Proof. done. Qed.

Lemma mouse_report_bytes b x y w p : 0 ≤ b < 32 → is_bytes (mouse_report b x y w p).
Proof.
  intros Hb. repeat constructor; try (apply wrap_range; lia); widths; lia.
Qed.

Lemma mouse_report_conforms b x y w p :
  0 ≤ b < 32 → Forall (λ v, -127 ≤ v ≤ 127) [x; y; w; p] →
  conforms MOUSE_REPORT_DESC (mouse_report b x y w p).
Proof.
  intros Hb Hf. pose proof (mouse_report_bytes b x y w p Hb) as Hbytes.
  eexists _, _. split; [by vm_compute|]. split; [by vm_compute|]. split; [done|].
  cbn [fields_ok]. rewrite (field_full (mkField _ _ _ _ _ _)) by done.
  rewrite (field_free (mkField _ _ _ _ _ 1)) by done.
  repeat (apply Forall_cons in Hf as [? Hf]).
  assert (∀ v, -127 ≤ v ≤ 127 → -127 ≤ swrap 8 (wrap 8 v) ≤ 127) as Hs.
  { intros v Hv. rewrite swrap_wrap by lia. rewrite swrap_small; [lia|lia|].
    unfold in_signed. change (2 ^ (8 - 1)) with 128. lia. }
  change (0 + _ + _) with (8 * Z.of_nat 1). rewrite field_byte_range; [|done|done|].
  2: { cbn [f_min f_max f_count Z.ltb Z.compare]. intros i Hi.
       destruct i as [|[|[|[|i]]]]; try (exfalso; lia); cbn [nth mouse_report]; auto. }
  change (8 * Z.of_nat 1 + _) with (8 * Z.of_nat 4). rewrite field_byte_range; [done|done|done|].
  cbn [f_min f_max f_count Z.ltb Z.compare]. intros i Hi.
  assert (i = 4)%nat as -> by lia. cbn [nth mouse_report]; auto.
Qed.

(** ** Scrolling *)

(** One axis: what [consume_scroll_integer] does to a finite residue. *)
Definition clamp_scroll (v : Z) : Z :=
  Z.max (-127 * unit32) (Z.min (127 * unit32) v).

Lemma unit32_pos : 0 < unit32.
Proof. done. Qed.

Lemma val_127 : val (f32_of_Z 127) = 127 * unit32.
Proof. by vm_compute. Qed.
Lemma val_m127 : val (f32_of_Z (-127)) = -127 * unit32.
Proof. by vm_compute. Qed.

(** The residue of a clamped value has few enough digits to be exact. *)
Lemma frac_representable x k :
  finite32 x → Z.abs (val x) ≤ 127 * unit32 → k = Z.quot (val x) unit32 →
  representable (val x - k * unit32).
Proof.
  intros Hx Hb ->. pose proof unit32_pos as Hu.
  replace (val x - Z.quot (val x) unit32 * unit32) with (Z.rem (val x) unit32)
    by (pose proof (Z.quot_rem (val x) unit32); lia).
  destruct x as [s| | |s m e]; try done.
  { exists 0, 0. split; [done|lia]. }
  pose proof (finite32_bounds _ _ _ Hx) as (Hm & He & _). cbn [val].
  assert (∃ r, Z.rem (Z.pos m * 2 ^ (e + 149)) unit32 = r * 2 ^ (e + 149) ∧ 0 ≤ r < 2 ^ 24)
    as (r & Hr & Hrb).
  { unfold unit32. destruct (decide (0 ≤ e)).
    - exists 0. split; [|lia].
      replace (e + 149) with (e + 149) by lia. rewrite Z.pow_add_r, Z.mul_assoc by lia.
      rewrite Z.rem_mul by done. done.
    - exists (Z.rem (Z.pos m) (2 ^ (- e))).
      replace (2 ^ 149) with (2 ^ (- e) * 2 ^ (e + 149))
        by (rewrite <-Z.pow_add_r by lia; f_equal; lia).
      assert (0 < 2 ^ (- e)) by (apply Z.pow_pos_nonneg; lia).
      rewrite Z.mul_rem_distr_r by (apply Z.pow_nonzero; lia || lia).
      split; [done|]. pose proof (Z.rem_bound_pos (Z.pos m) (2 ^ (- e))).
      rewrite Z.rem_mod_nonneg in * by lia.
      pose proof (Z.mod_le (Z.pos m) (2 ^ (- e))). lia. }
  destruct s; cbn [cond_Zopp].
  - rewrite Z.rem_opp_l by lia. rewrite Hr. exists (- r), (e + 149). split_and!; lia.
  - rewrite Hr. exists r, (e + 149). split_and!; lia.
Qed.

Lemma consume_spec x :
  finite32 x →
  let '(k, r) := consume_scroll_integer x in
  let v := clamp_scroll (val x) in
  finite32 r ∧ k = Z.quot v unit32 ∧ v = k * unit32 + val r ∧
  Z.abs (val r) < unit32 ∧ -127 ≤ k ≤ 127.
Proof.
  intros Hx. unfold consume_scroll_integer. pose proof unit32_pos as Hu.
  destruct (fclamp_val x (f32_of_Z (-127)) (f32_of_Z 127)) as [Hf Hv];
    [done|done|done|by vm_compute|].
  rewrite val_127, val_m127 in Hv. fold (clamp_scroll (val x)) in Hv.
  set (y := fclamp x (f32_of_Z (-127)) (f32_of_Z 127)) in *.
  assert (Z.abs (val y) ≤ 127 * unit32) as Hy by (rewrite Hv; unfold clamp_scroll; lia).
  pose proof (to_Z_bound y 127 ltac:(lia) Hf Hy) as Hk.
  destruct (ftrunc_val y Hf) as [Hft _].
  unfold f32_as_i8. rewrite cast_sat_finite, to_Z_ftrunc by done.
  replace (Z.max (-128) (Z.min 127 (to_Z y))) with (to_Z y) by lia.
  set (k := to_Z y) in *.
  destruct (f32_of_Z_exact k) as [Hkf Hkv]; [lia|].
  assert (k = Z.quot (val y) unit32) as Hq by (by apply to_Z_val).
  destruct (fsub_exact y (f32_of_Z k)) as [Hrf Hrv]; [done|done| |].
  { rewrite Hkv. by apply frac_representable. }
  rewrite Hkv in Hrv. cbn zeta. rewrite <-Hv. split_and!; try done.
  - lia.
  - rewrite Hrv, Hq.
    replace (val y - Z.quot (val y) unit32 * unit32) with (Z.rem (val y) unit32)
      by (pose proof (Z.quot_rem (val y) unit32); lia).
    apply Z.rem_bound_abs. lia.
  - lia.
  - lia.
Qed.

(** *** Runs of scroll events *)

Fixpoint scroll_run (evs : list (f32 * f32)) (s : MouseHid) : list HidReport * MouseHid :=
  match evs with
  | [] => ([], s)
  | (h, v) :: evs =>
      let '(r, s) := generate_input_from_scroll h v s in
      let '(rs, s) := scroll_run evs s in
      (option_list r ++ rs, s)
  end.

(** The wheel and pan motion a report carries, as the host reads it. *)
Definition wheel_of (r : HidReport) : Z := swrap 8 (nth 3 (hr_data r) 0).
Definition pan_of (r : HidReport) : Z := swrap 8 (nth 4 (hr_data r) 0).
Definition total (f : HidReport → Z) (rs : list HidReport) : Z := foldr (λ r n, f r + n) 0 rs.
Definition sum_val (l : list f32) : Z := foldr (λ x n, val x + n) 0 l.

(** Deltas on the 2^-16 grid, of at most 126 lines: such sums never round. *)
Definition grid : Z := 2 ^ 133.
Definition on_grid (x : f32) (bound : Z) : Prop :=
  finite32 x ∧ (grid | val x) ∧ Z.abs (val x) ≤ bound * unit32.

Lemma grid_representable v :
  (grid | v) → Z.abs v ≤ 127 * unit32 → representable v.
Proof.
  intros [m ->] Hb. exists m, 133. split; [done|]. split; [|lia].
  unfold unit32 in Hb. assert (2 ^ 149 = 2 ^ 16 * grid) as E by (by vm_compute).
  rewrite E in Hb. rewrite Z.abs_mul in Hb.
  assert (0 < grid) by done. change (Z.abs grid) with grid in Hb.
  assert (Z.abs m ≤ 127 * 2 ^ 16) by nia. lia.
Qed.

(** One axis of one event. *)
Lemma scroll_axis r d :
  on_grid r 1 → Z.abs (val r) < unit32 → on_grid d 126 →
  let '(k, r') := consume_scroll_integer (fadd r d) in
  on_grid r' 1 ∧ Z.abs (val r') < unit32 ∧ -127 ≤ k ≤ 127 ∧
  val r + val d = k * unit32 + val r'.
Proof.
  intros (Hr & Hrg & _) Hrb (Hd & Hdg & Hdb). pose proof unit32_pos.
  assert (grid | val r + val d) as Hg by (by apply Z.divide_add_r).
  assert (Z.abs (val r + val d) ≤ 127 * unit32) as Hb by lia.
  destruct (fadd_exact r d Hr Hd (grid_representable _ Hg Hb)) as [Hf Hv].
  pose proof (consume_spec _ Hf) as Hc.
  destruct (consume_scroll_integer (fadd r d)) as [k r'].
  destruct Hc as (Hf' & _ & Hsum & Habs & Hk).
  rewrite Hv in Hsum. unfold clamp_scroll in Hsum.
  replace (Z.max (-127 * unit32) (Z.min (127 * unit32) (val r + val d)))
    with (val r + val d) in Hsum by lia.
  split; [|split_and!; lia]. split; [done|]. split; [|lia].
  replace (val r') with (val r + val d - k * unit32) by lia.
  apply Z.divide_sub_r; [done|]. apply Z.divide_mul_r. by exists 65536.
Qed.

Lemma scroll_report_values h v :
  -127 ≤ h ≤ 127 → -127 ≤ v ≤ 127 →
  let r := HidReport_new HID_ID_MOUSE (mouse_report 0 0 0 v h) in
  wheel_of r = v ∧ pan_of r = h.
Proof.
  intros Hh Hv r.
  assert (∀ v, -127 ≤ v ≤ 127 → swrap 8 (wrap 8 v) = v) as Hs.
  { intros w Hw. rewrite swrap_wrap, swrap_small; try lia.
    unfold in_signed. change (2 ^ (8 - 1)) with 128. lia. }
  split; cbn; by apply Hs.
Qed.

(** The report of one scroll event from its two consumed bytes. *)
Definition scroll_report (kh kv : Z) : option HidReport :=
  if (kh =? 0) && (kv =? 0) then None
  else Some (HidReport_new HID_ID_MOUSE (mouse_report 0 0 0 kv kh)).

Lemma generate_scroll_spec h v s :
  generate_input_from_scroll h v s =
  let '(kh, rh) := consume_scroll_integer (fadd (residual_hscroll s) h) in
  let '(kv, rv) := consume_scroll_integer (fadd (residual_vscroll s) v) in
  (scroll_report kh kv, mkMouse rh rv).
Proof.
  unfold generate_input_from_scroll, scroll_report.
  destruct (consume_scroll_integer (fadd (residual_hscroll s) h)) as [kh rh].
  destruct (consume_scroll_integer (fadd (residual_vscroll s) v)) as [kv rv].
  by destruct ((kh =? 0) && (kv =? 0)).
Qed.

Lemma total_one f r : total f (option_list (Some r)) = f r.
Proof. exact (Z.add_0_r _). Qed.

Lemma scroll_report_total kh kv :
  -127 ≤ kh ≤ 127 → -127 ≤ kv ≤ 127 →
  total wheel_of (option_list (scroll_report kh kv)) = kv ∧
  total pan_of (option_list (scroll_report kh kv)) = kh.
Proof.
  intros Hh Hv. unfold scroll_report.
  destruct (Z.eqb_spec kh 0), (Z.eqb_spec kv 0); cbn [andb]; [by subst|..].
  all: rewrite !total_one; by apply scroll_report_values.
Qed.

Definition residues_ok (s : MouseHid) : Prop :=
  on_grid (residual_hscroll s) 1 ∧ Z.abs (val (residual_hscroll s)) < unit32 ∧
  on_grid (residual_vscroll s) 1 ∧ Z.abs (val (residual_vscroll s)) < unit32.

Lemma scroll_step h v s :
  residues_ok s → on_grid h 126 → on_grid v 126 →
  let '(r, s') := generate_input_from_scroll h v s in
  residues_ok s' ∧
  total wheel_of (option_list r) * unit32 + val (residual_vscroll s')
    = val (residual_vscroll s) + val v ∧
  total pan_of (option_list r) * unit32 + val (residual_hscroll s')
    = val (residual_hscroll s) + val h.
Proof.
  intros (Hh & Hha & Hv & Hva) Hhd Hvd. rewrite generate_scroll_spec.
  pose proof (scroll_axis _ _ Hh Hha Hhd) as Hch.
  pose proof (scroll_axis _ _ Hv Hva Hvd) as Hcv.
  destruct (consume_scroll_integer (fadd (residual_hscroll s) h)) as [kh rh].
  destruct (consume_scroll_integer (fadd (residual_vscroll s) v)) as [kv rv].
  destruct Hch as (Hgh & Hbh & Hkh & Hsh), Hcv as (Hgv & Hbv & Hkv & Hsv).
  destruct (scroll_report_total kh kv Hkh Hkv) as [-> ->].
  split; [done|]. cbn [residual_vscroll residual_hscroll]. lia.
Qed.

Lemma total_app f rs1 rs2 : total f (rs1 ++ rs2) = total f rs1 + total f rs2.
Proof. unfold total. induction rs1 as [|r rs1 IH]; [done|]. cbn [app foldr]. rewrite IH. lia. Qed.

Lemma scroll_run_spec evs s :
  residues_ok s → Forall (λ e, on_grid e.1 126 ∧ on_grid e.2 126) evs →
  let '(rs, s') := scroll_run evs s in
  residues_ok s' ∧
  total wheel_of rs * unit32 + val (residual_vscroll s')
    = val (residual_vscroll s) + sum_val evs.*2 ∧
  total pan_of rs * unit32 + val (residual_hscroll s')
    = val (residual_hscroll s) + sum_val evs.*1.
Proof.
  intros Hs H. revert s Hs.
  induction H as [|[h v] evs [Hh Hv] _ IH]; intros s Hs; cbn [scroll_run].
  { split; [done|]. cbn. lia. }
  pose proof (scroll_step h v s Hs Hh Hv) as Hstep.
  destruct (generate_input_from_scroll h v s) as [r s1]. destruct Hstep as (Hs1 & Hw & Hp).
  specialize (IH s1 Hs1). destruct (scroll_run evs s1) as [rs s2].
  destruct IH as (Hs2 & Hw2 & Hp2). split; [done|].
  rewrite !total_app. cbn [fmap list_fmap sum_val foldr fst snd].
  fold (sum_val evs.*1) (sum_val evs.*2). lia.
Qed.

Lemma Mouse_new_residues : residues_ok Mouse_new.
Proof.
  assert (on_grid (f32_of_Z 0) 1) by (split; [done|split; [by exists 0|done]]).
  split_and!; done.
Qed.

(** A NaN delta disables its axis for good. *)
Lemma consume_nan : consume_scroll_integer S754_nan = (0, S754_nan).
Proof. done. Qed.

Lemma fadd_nan_l x : fadd S754_nan x = S754_nan.
Proof. by destruct x. Qed.

Lemma scroll_run_nan evs h :
  residual_vscroll (scroll_run evs (mkMouse h S754_nan)).2 = S754_nan ∧
  Forall (λ r, wheel_of r = 0) (scroll_run evs (mkMouse h S754_nan)).1.
Proof.
  revert h. induction evs as [|[dh dv] evs IH]; intros h; cbn [scroll_run].
  { by split. }
  rewrite generate_scroll_spec. cbn [residual_vscroll residual_hscroll].
  rewrite fadd_nan_l, consume_nan.
  destruct (consume_scroll_integer (fadd h dh)) as [kh rh].
  specialize (IH rh). destruct (scroll_run evs (mkMouse rh S754_nan)) as [rs s].
  destruct IH as [IH1 IH2]. split; [done|]. apply Forall_app. split; [|done].
  unfold scroll_report. destruct (kh =? 0); cbn; [done|]. by repeat constructor.
Qed.

(** ** Properties *)

(** C31: scrolling loses nothing.  Over any run of scroll events whose deltas are
    multiples of 2^-16 of at most 126 lines, the wheel (and pan) motion of the reports
    sent plus the residue kept equals the sum of the deltas exactly, in spite of the
    f32 arithmetic, and the residue stays below one line: no fraction is dropped,
    duplicated or left to grow. *)
Theorem scroll_conserves_motion (evs : list (f32 * f32))
    (Hevs : Forall (λ e, on_grid e.1 126 ∧ on_grid e.2 126) evs) :
  let '(reports, s) := scroll_run evs Mouse_new in
  total wheel_of reports * unit32 + val (residual_vscroll s) = sum_val evs.*2 ∧
  total pan_of reports * unit32 + val (residual_hscroll s) = sum_val evs.*1 ∧
  Z.abs (val (residual_vscroll s)) < unit32 ∧ Z.abs (val (residual_hscroll s)) < unit32.
Proof.
  pose proof (scroll_run_spec evs Mouse_new Mouse_new_residues Hevs) as H.
  destruct (scroll_run evs Mouse_new) as [rs s].
  destruct H as ((Hh & Hha & Hv & Hva) & Hw & Hp).
  change (val (residual_vscroll Mouse_new)) with 0 in Hw.
  change (val (residual_hscroll Mouse_new)) with 0 in Hp. lia.
Qed.

(** Three events of half a line: 0.5 as an f32. *)
Definition half_line : f32 := S754_finite false 8388608 (-24).

Lemma half_line_on_grid : on_grid half_line 126.
Proof.
  split; [done|]. split; [|by vm_compute].
  exists 32768. by vm_compute.
Qed.

Lemma scroll_conserves_motion_witness :
  let evs := replicate 3 (f32_of_Z 0, half_line) in
  total wheel_of (scroll_run evs Mouse_new).1 = 1 ∧
  total wheel_of (scroll_run evs Mouse_new).1 * unit32
    + val (residual_vscroll (scroll_run evs Mouse_new).2) = sum_val evs.*2.
Proof.
  intros evs. split; [by vm_compute|].
  assert (Forall (λ e, on_grid e.1 126 ∧ on_grid e.2 126) evs) as H.
  { apply Forall_replicate. split; [|exact half_line_on_grid].
    split; [done|]. split; [by exists 0|by vm_compute]. }
  pose proof (scroll_conserves_motion evs H) as Hs.
  destruct (scroll_run evs Mouse_new) as [rs s]. exact (proj1 Hs).
Defined.

(** One NaN scroll delta disables its axis for the life of the session: once the
    residue is NaN it stays NaN, and no later report carries any motion on that axis,
    whatever is scrolled. *)
Theorem scroll_nan_is_sticky (h : f32) (d : f32) (s : MouseHid) (evs : list (f32 * f32)) :
  let s1 := (generate_input_from_scroll h S754_nan s).2 in
  residual_vscroll s1 = S754_nan ∧
  residual_vscroll (scroll_run evs s1).2 = S754_nan ∧
  Forall (λ r, wheel_of r = 0) (scroll_run evs s1).1.
Proof.
  intros s1.
  assert (residual_vscroll s1 = S754_nan) as E.
  { unfold s1. rewrite generate_scroll_spec.
    destruct (consume_scroll_integer (fadd (residual_hscroll s) h)) as [kh rh].
    replace (fadd (residual_vscroll s) S754_nan) with S754_nan; [done|].
    by destruct (residual_vscroll s). }
  split; [done|]. destruct s1 as [rh rv]. cbn in E. subst rv. apply scroll_run_nan.
Qed.

(** a motion or click report carries the five button bits and each motion axis
    clamped to -127..127 in two's complement, with no wheel motion, and conforms to the
    mouse descriptor (40 bits, axes in their logical range). *)
Theorem motion_report_clamped (xrel yrel buttons_state : Z) (Hb : u8 buttons_state) :
  let data := mouse_report (Z.land buttons_state 31) (clamp127 xrel) (clamp127 yrel) 0 0 in
  motion_message xrel yrel buttons_state =
    Ok (Cm_UhidInput (mkUhidInput HID_ID_MOUSE 5 (fixed_data 5 data))) ∧
  conforms MOUSE_REPORT_DESC data ∧
  click_message buttons_state = motion_message 0 0 buttons_state.
Proof.
  intros data. unfold motion_message, click_message.
  rewrite !motion_report_spec, click_report_spec, !to_input_mouse_report.
  pose proof (buttons_byte_range _ Hb). rewrite buttons_byte_spec in * by done.
  split; [done|]. split; [|done]. apply mouse_report_conforms; [done|].
  repeat constructor; unfold clamp127; lia.
Qed.

Lemma motion_report_clamped_witness :
  u8 0xFF ∧
  motion_message 1000 (-5) 0xFF =
    Ok (Cm_UhidInput (mkUhidInput HID_ID_MOUSE 5
          (fixed_data 5 [31; 127; 251; 0; 0]))).
Proof.
  split; [by split|].
  etrans; [exact (proj1 (motion_report_clamped 1000 (-5) 0xFF ltac:(by split)))|].
  by vm_compute.
Defined.
