(* ===== verification/Gamepad.v ===== *)
(** * The gamepad driver ([src/src/hid/gamepad.rs])

    [GamepadHid]: eight slots, the allocation of HID ids, the state-changing events
    with their redundant-update suppression, and the 15-byte report.  [Pad] is the
    abstract state of one gamepad and [apply_op] what an event means for it; the
    theorems relate the slots to it. *)

From S2P Require Import Prelude Words Errors Types Utf8 Float32 Message Descriptor.
Local Open Scope Z_scope.

Definition GAMEPAD_REPORT_SIZE : nat := 15.
Definition BUTTONS_MASK : Z := 0xFFFF.
Definition BUTTONS_ALL_MASK : Z := Z.lor BUTTONS_MASK 0x000F0000.
Definition SLOT_FREE_BUTTONS : Z := 0.

Record GamepadSlot : Set := mkSlot
  { gamepad_id : Z; buttons : Z;
    axis_left_x : Z; axis_left_y : Z; axis_right_x : Z; axis_right_y : Z;
    axis_left_trigger : Z; axis_right_trigger : Z }.

#[export] Instance GamepadSlot_eq_dec : EqDecision GamepadSlot.
Proof. solve_decision. Defined.

(** [slots] has [MAX_GAMEPADS] entries. *)
Record GamepadHid : Set := mkGamepads { slots : list GamepadSlot }.

Definition GamepadSlot_default : GamepadSlot := mkSlot 0 0 0 0 0 0 0 0.

Definition Gamepad_new : GamepadHid :=
  mkGamepads (replicate MAX_GAMEPADS GamepadSlot_default).

Definition axis_rescale (v : Z) : Z := wrap 16 (v + 0x8000).

(** [(v.max(0) as u16).min(0x7FFF)] *)
Definition trigger_rescale (v : Z) : Z := Z.min (wrap 16 (Z.max v 0)) 0x7FFF.

Definition slot_hid_id (slot_idx : nat) : Z :=
  wrap 16 (HID_ID_GAMEPAD_FIRST + wrap 16 (Z.of_nat slot_idx)).

(** [iter().position(..)] *)
Definition free_slot (g : GamepadHid) : option nat :=
  fst <$> list_find (λ s, gamepad_id s = GAMEPAD_ID_INVALID) (slots g).

Definition find_slot (g : GamepadHid) (id : Z) : option nat :=
  fst <$> list_find (λ s, gamepad_id s = id) (slots g).

(** [self.slots[slot_idx]], read and written; both unwind out of range. *)
Definition get_slot (slot_idx : nat) : cmd GamepadHid Error GamepadSlot :=
  o ← read (λ g, slots g !! slot_idx); lift (or_panic o).
Definition set_slot (slot_idx : nat) (s : GamepadSlot) : cmd GamepadHid Error unit :=
  _ ← get_slot slot_idx; modify (λ g, mkGamepads (<[slot_idx := s]> (slots g))).

(** ** Reports *)

(** [data[12..14]] holds the low 16 buttons, [data[14]] the hat. *)
Definition slot_to_payload (s : GamepadSlot) : bytes :=
  le_bytes 2 (axis_left_x s) ++ le_bytes 2 (axis_left_y s)
  ++ le_bytes 2 (axis_right_x s) ++ le_bytes 2 (axis_right_y s)
  ++ le_bytes 2 (axis_left_trigger s) ++ le_bytes 2 (axis_right_trigger s)
  ++ le_bytes 2 (wrap 16 (Z.land (buttons s) BUTTONS_MASK))
  ++ [dpad_hat_value (buttons s)].

Definition gamepad_to_input_message (report : HidReport) : ControlMessage := report_to_input report.

(** [data[..GAMEPAD_REPORT_SIZE].copy_from_slice(&payload)] *)
Definition slot_to_input_message_from_payload (hid_id : Z) (payload : bytes) : ControlMessage :=
  Cm_UhidInput (mkUhidInput hid_id (Z.of_nat GAMEPAD_REPORT_SIZE)
    (payload ++ replicate (HID_MAX_SIZE - GAMEPAD_REPORT_SIZE) 0)).

Definition slot_to_input_message (hid_id : Z) (s : GamepadSlot) : ControlMessage :=
  Cm_UhidInput (mkUhidInput hid_id (Z.of_nat GAMEPAD_REPORT_SIZE)
    (slot_to_payload s ++ replicate (HID_MAX_SIZE - GAMEPAD_REPORT_SIZE) 0)).

Definition slot_to_input_message_from_slot_idx (slot_idx : nat) :
    cmd GamepadHid Error ControlMessage :=
  s ← get_slot slot_idx; mret (slot_to_input_message (slot_hid_id slot_idx) s).

(** ** Opening and closing *)

Definition build_create (hid_id : Z) (name : option str) : ControlMessage :=
  Cm_UhidCreate (mkUhidCreate hid_id 0x045e 0x028e name GAMEPAD_REPORT_DESC).

Definition open (id : Z) (name : option str) : cmd GamepadHid Error (Z * ControlMessage) :=
  if decide (id = GAMEPAD_ID_INVALID) then raise (UnknownGamepad id)
  else
    found ← read (λ g, find_slot g id);
    match found with
    | Some idx => mret (slot_hid_id idx, build_create (slot_hid_id idx) name)
    | None =>
        free ← read free_slot;
        slot_idx ← lift (ok_or free NoGamepadSlot);
        set_slot slot_idx
          (mkSlot id SLOT_FREE_BUTTONS (axis_rescale 0) (axis_rescale 0)
             (axis_rescale 0) (axis_rescale 0) 0 0);;
        mret (slot_hid_id slot_idx, build_create (slot_hid_id slot_idx) name)
    end.

Definition set_gamepad_id (id : Z) (s : GamepadSlot) : GamepadSlot :=
  mkSlot id (buttons s) (axis_left_x s) (axis_left_y s) (axis_right_x s)
    (axis_right_y s) (axis_left_trigger s) (axis_right_trigger s).

Definition close (id : Z) : cmd GamepadHid Error ControlMessage :=
  if decide (id = GAMEPAD_ID_INVALID) then raise (UnknownGamepad id)
  else
    found ← read (λ g, find_slot g id);
    slot_idx ← lift (ok_or found (UnknownGamepad id));
    s ← get_slot slot_idx;
    set_slot slot_idx (set_gamepad_id GAMEPAD_ID_INVALID s);;
    mret (Cm_UhidDestroy (mkUhidDestroy (slot_hid_id slot_idx))).

Definition close_slot_idx (slot_idx : nat) : cmd GamepadHid Error ControlMessage :=
  if decide (MAX_GAMEPADS ≤ slot_idx)%nat then raise (UnknownGamepad 0)
  else
    s ← get_slot slot_idx;
    if decide (gamepad_id s = GAMEPAD_ID_INVALID) then raise (UnknownGamepad 0)
    else
      set_slot slot_idx (set_gamepad_id GAMEPAD_ID_INVALID s);;
      mret (Cm_UhidDestroy (mkUhidDestroy (slot_hid_id slot_idx))).

(** ** Events on a slot

    The [*_slot_idx_raw] methods share their shape: borrow the slot, compute the new
    fields, return [None] when they equal the old ones, else store them and return
    the id and the payload.  [raw_update] is that shape; the callback is the part
    that differs. *)

Definition raw_update (slot_idx : nat) (next : GamepadSlot → option GamepadSlot) :
    cmd GamepadHid Error (option (Z * bytes)) :=
  s ← get_slot slot_idx;
  match next s with
  | None => mret None
  | Some s' =>
      set_slot slot_idx s';;
      mret (Some (slot_hid_id slot_idx, slot_to_payload s'))
  end.

Definition set_buttons (b : Z) (s : GamepadSlot) : GamepadSlot :=
  mkSlot (gamepad_id s) b (axis_left_x s) (axis_left_y s) (axis_right_x s)
    (axis_right_y s) (axis_left_trigger s) (axis_right_trigger s).
Definition set_left (x y : Z) (s : GamepadSlot) : GamepadSlot :=
  mkSlot (gamepad_id s) (buttons s) x y (axis_right_x s) (axis_right_y s)
    (axis_left_trigger s) (axis_right_trigger s).
Definition set_right (x y : Z) (s : GamepadSlot) : GamepadSlot :=
  mkSlot (gamepad_id s) (buttons s) (axis_left_x s) (axis_left_y s) x y
    (axis_left_trigger s) (axis_right_trigger s).
Definition set_triggers (l r : Z) (s : GamepadSlot) : GamepadSlot :=
  mkSlot (gamepad_id s) (buttons s) (axis_left_x s) (axis_left_y s) (axis_right_x s)
    (axis_right_y s) l r.

Definition full_state_event_slot_idx_raw (slot_idx : nat)
    (btns left_x left_y right_x right_y left_trigger right_trigger : Z) :
    cmd GamepadHid Error (option (Z * bytes)) :=
  raw_update slot_idx (λ slot,
    let next_buttons := Z.land btns BUTTONS_ALL_MASK in
    let lx := axis_rescale left_x in
    let ly := axis_rescale left_y in
    let rx := axis_rescale right_x in
    let ry := axis_rescale right_y in
    let lt := trigger_rescale left_trigger in
    let rt := trigger_rescale right_trigger in
    if (buttons slot =? next_buttons) && (axis_left_x slot =? lx)
       && (axis_left_y slot =? ly) && (axis_right_x slot =? rx)
       && (axis_right_y slot =? ry) && (axis_left_trigger slot =? lt)
       && (axis_right_trigger slot =? rt)
    then None
    else Some (set_triggers lt rt (set_right rx ry (set_left lx ly
                (set_buttons next_buttons slot))))).

Definition buttons_event_slot_idx_raw (slot_idx : nat) (btns : Z) :
    cmd GamepadHid Error (option (Z * bytes)) :=
  raw_update slot_idx (λ slot,
    let next := Z.land btns BUTTONS_ALL_MASK in
    if buttons slot =? next then None else Some (set_buttons next slot)).

Definition button_event_slot_idx_raw (slot_idx : nat) (button : GamepadButton)
    (pressed : bool) : cmd GamepadHid Error (option (Z * bytes)) :=
  raw_update slot_idx (λ slot,
    let bit := GamepadButton_as_u32 button in
    let currently_pressed := negb (Z.land (buttons slot) bit =? 0) in
    if Bool.eqb currently_pressed pressed then None
    else if pressed then Some (set_buttons (Z.lor (buttons slot) bit) slot)
    else Some (set_buttons (Z.land (buttons slot) (wrap 32 (Z.lnot bit))) slot)).

Definition axis_event_slot_idx_raw (slot_idx : nat) (axis : GamepadAxis) (value : Z) :
    cmd GamepadHid Error (option (Z * bytes)) :=
  raw_update slot_idx (λ slot,
    match axis with
    | LeftX =>
        let new := axis_rescale value in
        if axis_left_x slot =? new then None
        else Some (set_left new (axis_left_y slot) slot)
    | LeftY =>
        let new := axis_rescale value in
        if axis_left_y slot =? new then None
        else Some (set_left (axis_left_x slot) new slot)
    | RightX =>
        let new := axis_rescale value in
        if axis_right_x slot =? new then None
        else Some (set_right new (axis_right_y slot) slot)
    | RightY =>
        let new := axis_rescale value in
        if axis_right_y slot =? new then None
        else Some (set_right (axis_right_x slot) new slot)
    | LeftTrigger =>
        let new := trigger_rescale value in
        if axis_left_trigger slot =? new then None
        else Some (set_triggers new (axis_right_trigger slot) slot)
    | RightTrigger =>
        let new := trigger_rescale value in
        if axis_right_trigger slot =? new then None
        else Some (set_triggers (axis_left_trigger slot) new slot)
    end).

Definition left_stick_raw_slot_idx_raw (slot_idx : nat) (x y : Z) :
    cmd GamepadHid Error (option (Z * bytes)) :=
  raw_update slot_idx (λ slot,
    let lx := axis_rescale x in
    let ly := axis_rescale y in
    if (axis_left_x slot =? lx) && (axis_left_y slot =? ly) then None
    else Some (set_left lx ly slot)).

Definition right_stick_raw_slot_idx_raw (slot_idx : nat) (x y : Z) :
    cmd GamepadHid Error (option (Z * bytes)) :=
  raw_update slot_idx (λ slot,
    let rx := axis_rescale x in
    let ry := axis_rescale y in
    if (axis_right_x slot =? rx) && (axis_right_y slot =? ry) then None
    else Some (set_right rx ry slot)).

Definition triggers_raw_slot_idx_raw (slot_idx : nat) (left right : Z) :
    cmd GamepadHid Error (option (Z * bytes)) :=
  raw_update slot_idx (λ slot,
    let lt := trigger_rescale left in
    let rt := trigger_rescale right in
    if (axis_left_trigger slot =? lt) && (axis_right_trigger slot =? rt) then None
    else Some (set_triggers lt rt slot)).

Definition set_sticks_raw_slot_idx_raw (slot_idx : nat)
    (left_x left_y right_x right_y left_trigger right_trigger : Z) :
    cmd GamepadHid Error (option (Z * bytes)) :=
  raw_update slot_idx (λ slot,
    let lx := axis_rescale left_x in
    let ly := axis_rescale left_y in
    let rx := axis_rescale right_x in
    let ry := axis_rescale right_y in
    let lt := trigger_rescale left_trigger in
    let rt := trigger_rescale right_trigger in
    if (axis_left_x slot =? lx) && (axis_left_y slot =? ly)
       && (axis_right_x slot =? rx) && (axis_right_y slot =? ry)
       && (axis_left_trigger slot =? lt) && (axis_right_trigger slot =? rt)
    then None
    else Some (set_triggers lt rt (set_right rx ry (set_left lx ly slot)))).

(** [.map(|(id, payload)| self.slot_to_input_message_from_payload(id, payload))]:
    the [*_slot_idx] methods are their [*_raw] twins followed by this. *)
Definition map_message (raw : cmd GamepadHid Error (option (Z * bytes))) :
    cmd GamepadHid Error (option ControlMessage) :=
  r ← raw;
  mret ((λ p, slot_to_input_message_from_payload p.1 p.2) <$> r).

Definition full_state_event_slot_idx (slot_idx : nat) (b lx ly rx ry lt rt : Z) :=
  map_message (full_state_event_slot_idx_raw slot_idx b lx ly rx ry lt rt).
Definition buttons_event_slot_idx (slot_idx : nat) (b : Z) :=
  map_message (buttons_event_slot_idx_raw slot_idx b).
Definition button_event_slot_idx (slot_idx : nat) (button : GamepadButton) (pressed : bool) :=
  map_message (button_event_slot_idx_raw slot_idx button pressed).
Definition axis_event_slot_idx (slot_idx : nat) (axis : GamepadAxis) (value : Z) :=
  map_message (axis_event_slot_idx_raw slot_idx axis value).
Definition left_stick_raw_slot_idx (slot_idx : nat) (x y : Z) :=
  map_message (left_stick_raw_slot_idx_raw slot_idx x y).
Definition right_stick_raw_slot_idx (slot_idx : nat) (x y : Z) :=
  map_message (right_stick_raw_slot_idx_raw slot_idx x y).
Definition triggers_raw_slot_idx (slot_idx : nat) (l r : Z) :=
  map_message (triggers_raw_slot_idx_raw slot_idx l r).
Definition set_sticks_raw_slot_idx (slot_idx : nat) (lx ly rx ry lt rt : Z) :=
  map_message (set_sticks_raw_slot_idx_raw slot_idx lx ly rx ry lt rt).

(** ** Events by gamepad id

    Look the slot up, run the slot's method, fall back to a report of the unchanged
    slot. *)
Definition by_id (id : Z) (event : nat → cmd GamepadHid Error (option ControlMessage)) :
    cmd GamepadHid Error ControlMessage :=
  found ← read (λ g, find_slot g id);
  slot_idx ← lift (ok_or found (UnknownGamepad id));
  m ← event slot_idx;
  match m with
  | Some m => mret m
  | None => slot_to_input_message_from_slot_idx slot_idx
  end.

Definition button_event (id : Z) (button : GamepadButton) (pressed : bool) :=
  by_id id (λ i, button_event_slot_idx i button pressed).
Definition buttons_event (id : Z) (b : Z) := by_id id (λ i, buttons_event_slot_idx i b).
Definition full_state_event (id : Z) (b lx ly rx ry lt rt : Z) :=
  by_id id (λ i, full_state_event_slot_idx i b lx ly rx ry lt rt).
Definition axis_event (id : Z) (axis : GamepadAxis) (value : Z) :=
  by_id id (λ i, axis_event_slot_idx i axis value).
Definition left_stick_raw (id x y : Z) := by_id id (λ i, left_stick_raw_slot_idx i x y).
Definition right_stick_raw (id x y : Z) := by_id id (λ i, right_stick_raw_slot_idx i x y).
Definition triggers_raw (id l r : Z) := by_id id (λ i, triggers_raw_slot_idx i l r).
Definition set_sticks_raw (id lx ly rx ry lt rt : Z) :=
  by_id id (λ i, set_sticks_raw_slot_idx i lx ly rx ry lt rt).

(** ** The rest of the interface *)

Definition active_count (g : GamepadHid) : nat :=
  length (filter (λ s, gamepad_id s ≠ GAMEPAD_ID_INVALID) (slots g)).

Definition create_message (hid_id : Z) (name : option str) : ControlMessage :=
  Cm_UhidCreate (mkUhidCreate hid_id 0x045e 0x028e name GAMEPAD_REPORT_DESC).

Definition slot_from_hid_id (hid_id : Z) : option nat :=
  if (HID_ID_GAMEPAD_FIRST <=? hid_id) && (hid_id <=? HID_ID_GAMEPAD_LAST)
  then Some (Z.to_nat (hid_id - HID_ID_GAMEPAD_FIRST)) else None.

(** ["Microsoft X-Box 360 Pad"] *)
Definition XBOX_NAME : str :=
  [77; 105; 99; 114; 111; 115; 111; 102; 116; 32; 88; 45; 66; 111; 120; 32; 51; 54; 48;
   32; 80; 97; 100].

#[export] Instance Gamepad_device : HidDevice GamepadHid := {
  hid_id g :=
    match list_find (λ s, gamepad_id s ≠ GAMEPAD_ID_INVALID) (slots g) with
    | Some _ => slot_hid_id 0
    | None => 0
    end;
  open_message _ _ := Ok (create_message HID_ID_GAMEPAD_FIRST (Some XBOX_NAME));
  close_message _ := Ok (Cm_UhidDestroy (mkUhidDestroy HID_ID_GAMEPAD_FIRST));
}.

(** ** Abstract gamepads *)

(** Sticks are signed, triggers run from 0 to 0x7FFF. *)
Record Pad : Set := mkPad
  { p_buttons : Z; p_left : Z * Z; p_right : Z * Z; p_triggers : Z * Z }.

Definition pad_of (s : GamepadSlot) : Pad :=
  mkPad (buttons s) (axis_left_x s - 0x8000, axis_left_y s - 0x8000)
    (axis_right_x s - 0x8000, axis_right_y s - 0x8000)
    (axis_left_trigger s, axis_right_trigger s).

Definition pad_reset : Pad := mkPad 0 (0, 0) (0, 0) (0, 0).

Inductive GamepadOp : Set :=
  | OpButton (b : GamepadButton) (pressed : bool)
  | OpButtons (b : Z)
  | OpFull (b lx ly rx ry lt rt : Z)
  | OpAxis (axis : GamepadAxis) (v : Z)
  | OpLeft (x y : Z)
  | OpRight (x y : Z)
  | OpTriggers (l r : Z)
  | OpSticks (lx ly rx ry lt rt : Z).

(** What each event means. *)
Definition apply_op (op : GamepadOp) (p : Pad) : Pad :=
  match op with
  | OpButton b pressed =>
      let bit := Z.log2 (GamepadButton_as_u32 b) in
      mkPad (if pressed then Z.setbit (p_buttons p) bit else Z.clearbit (p_buttons p) bit)
        (p_left p) (p_right p) (p_triggers p)
  | OpButtons b => mkPad (b mod 2 ^ 20) (p_left p) (p_right p) (p_triggers p)
  | OpFull b lx ly rx ry lt rt =>
      mkPad (b mod 2 ^ 20) (lx, ly) (rx, ry) (Z.max 0 lt, Z.max 0 rt)
  | OpAxis LeftX v => mkPad (p_buttons p) (v, (p_left p).2) (p_right p) (p_triggers p)
  | OpAxis LeftY v => mkPad (p_buttons p) ((p_left p).1, v) (p_right p) (p_triggers p)
  | OpAxis RightX v => mkPad (p_buttons p) (p_left p) (v, (p_right p).2) (p_triggers p)
  | OpAxis RightY v => mkPad (p_buttons p) (p_left p) ((p_right p).1, v) (p_triggers p)
  | OpAxis LeftTrigger v =>
      mkPad (p_buttons p) (p_left p) (p_right p) (Z.max 0 v, (p_triggers p).2)
  | OpAxis RightTrigger v =>
      mkPad (p_buttons p) (p_left p) (p_right p) ((p_triggers p).1, Z.max 0 v)
  | OpLeft x y => mkPad (p_buttons p) (x, y) (p_right p) (p_triggers p)
  | OpRight x y => mkPad (p_buttons p) (p_left p) (x, y) (p_triggers p)
  | OpTriggers l r => mkPad (p_buttons p) (p_left p) (p_right p) (Z.max 0 l, Z.max 0 r)
  | OpSticks lx ly rx ry lt rt =>
      mkPad (p_buttons p) (lx, ly) (rx, ry) (Z.max 0 lt, Z.max 0 rt)
  end.

(** The method that carries the event out. *)
Definition run_op (id : Z) (op : GamepadOp) : cmd GamepadHid Error ControlMessage :=
  match op with
  | OpButton b pressed => button_event id b pressed
  | OpButtons b => buttons_event id b
  | OpFull b lx ly rx ry lt rt => full_state_event id b lx ly rx ry lt rt
  | OpAxis axis v => axis_event id axis v
  | OpLeft x y => left_stick_raw id x y
  | OpRight x y => right_stick_raw id x y
  | OpTriggers l r => triggers_raw id l r
  | OpSticks lx ly rx ry lt rt => set_sticks_raw id lx ly rx ry lt rt
  end.

(** The same on a slot, by index. *)
Definition raw_op (op : GamepadOp) : nat → cmd GamepadHid Error (option (Z * bytes)) :=
  match op with
  | OpButton b pressed => λ i, button_event_slot_idx_raw i b pressed
  | OpButtons b => λ i, buttons_event_slot_idx_raw i b
  | OpFull b lx ly rx ry lt rt => λ i, full_state_event_slot_idx_raw i b lx ly rx ry lt rt
  | OpAxis axis v => λ i, axis_event_slot_idx_raw i axis v
  | OpLeft x y => λ i, left_stick_raw_slot_idx_raw i x y
  | OpRight x y => λ i, right_stick_raw_slot_idx_raw i x y
  | OpTriggers l r => λ i, triggers_raw_slot_idx_raw i l r
  | OpSticks lx ly rx ry lt rt => λ i, set_sticks_raw_slot_idx_raw i lx ly rx ry lt rt
  end.

(** Arguments in the range of their Rust types. *)
Definition op_wf (op : GamepadOp) : Prop :=
  match op with
  | OpButton _ _ => True
  | OpButtons b => u32 b
  | OpFull b lx ly rx ry lt rt =>
      u32 b ∧ i16 lx ∧ i16 ly ∧ i16 rx ∧ i16 ry ∧ i16 lt ∧ i16 rt
  | OpAxis _ v => i16 v
  | OpLeft x y | OpRight x y | OpTriggers x y => i16 x ∧ i16 y
  | OpSticks lx ly rx ry lt rt => i16 lx ∧ i16 ly ∧ i16 rx ∧ i16 ry ∧ i16 lt ∧ i16 rt
  end.

(** ** Invariant *)

Definition slot_wf (s : GamepadSlot) : Prop :=
  u32 (gamepad_id s) ∧ 0 ≤ buttons s < 2 ^ 20 ∧
  (u16 (axis_left_x s) ∧ u16 (axis_left_y s) ∧ u16 (axis_right_x s) ∧
   u16 (axis_right_y s)) ∧
  0 ≤ axis_left_trigger s ≤ 0x7FFF ∧ 0 ≤ axis_right_trigger s ≤ 0x7FFF.

(** Eight slots, and no gamepad bound twice. *)
Definition gamepads_wf (g : GamepadHid) : Prop :=
  length (slots g) = MAX_GAMEPADS ∧ Forall slot_wf (slots g) ∧
  ∀ i j s s', slots g !! i = Some s → slots g !! j = Some s' →
    gamepad_id s = gamepad_id s' → gamepad_id s ≠ GAMEPAD_ID_INVALID → i = j.

(** The gamepad bound to [id], if any: its slot and state. *)
Definition bound (g : GamepadHid) (id : Z) : option (nat * Pad) :=
  if decide (id = GAMEPAD_ID_INVALID) then None
  else i ← find_slot g id; s ← slots g !! i; Some (i, pad_of s).

(** ** Lemmas on slots *)

Lemma find_slot_Some g id i :
  find_slot g id = Some i ↔
  ∃ s, slots g !! i = Some s ∧ gamepad_id s = id ∧
       ∀ j s', slots g !! j = Some s' → (j < i)%nat → gamepad_id s' ≠ id.
Proof.
  unfold find_slot. split.
  - intros ([j s] & H & E)%fmap_Some_1. cbn in E. subst j.
    apply list_find_Some in H as (H1 & H2 & H3). eauto.
  - intros (s & H1 & H2 & H3).
    apply fmap_Some. exists (i, s). split; [|done]. apply list_find_Some. split_and!; [done|done|]. intros j s' Hj Hlt. by eapply H3.
Qed.

Lemma find_slot_None g id :
  find_slot g id = None ↔ ∀ i s, slots g !! i = Some s → gamepad_id s ≠ id.
Proof.
  unfold find_slot. rewrite fmap_None, list_find_None, Forall_lookup. done.
Qed.

Lemma find_slot_unique g i s :
  gamepads_wf g → slots g !! i = Some s → gamepad_id s ≠ GAMEPAD_ID_INVALID →
  find_slot g (gamepad_id s) = Some i.
Proof.
  intros (_ & _ & Huniq) Hi Hne. apply find_slot_Some. exists s. split_and!; try done.
  intros j s' Hj Hlt Heq. assert (j = i) by (eapply Huniq; eauto; congruence). lia.
Qed.

Lemma bound_Some g id i p :
  gamepads_wf g →
  bound g id = Some (i, p) ↔
  id ≠ GAMEPAD_ID_INVALID ∧
  ∃ s, slots g !! i = Some s ∧ gamepad_id s = id ∧ p = pad_of s.
Proof.
  intros Hwf. unfold bound. case_decide as Hid; [split; [done|by intros [??]]|]. split.
  - intros H. split; [done|]. destruct (find_slot g id) as [i'|] eqn:E; [|done].
    apply find_slot_Some in E as (s & Hs & Hg & _). cbn in H. rewrite Hs in H.
    cbn in H. simplify_eq. eauto.
  - intros (_ & s & Hs & <- & ->).
    rewrite (find_slot_unique g i s Hwf Hs Hid). cbn. by rewrite Hs.
Qed.

Lemma bound_None g id :
  bound g id = None ↔ id = GAMEPAD_ID_INVALID ∨ find_slot g id = None.
Proof.
  unfold bound. case_decide; [naive_solver|].
  destruct (find_slot g id) as [i|] eqn:E; [|naive_solver].
  apply find_slot_Some in E as (s & Hs & _). cbn. rewrite Hs.
  cbn. split; [done|]. by intros [?|?].
Qed.

(** Storing a slot that keeps its id. *)
Definition store (i : nat) (s : GamepadSlot) (g : GamepadHid) : GamepadHid :=
  mkGamepads (<[i := s]> (slots g)).

Lemma store_lookup g i j s s' :
  slots (store i s g) !! j = Some s' →
  (i = j ∧ s' = s) ∨ (i ≠ j ∧ slots g !! j = Some s').
Proof. cbn. intros [(-> & -> & _)|[]]%list_lookup_insert_Some; auto. Qed.

Lemma store_wf g i s0 s :
  gamepads_wf g → slots g !! i = Some s0 → slot_wf s →
  (gamepad_id s ≠ GAMEPAD_ID_INVALID → gamepad_id s = gamepad_id s0 ∨
   find_slot g (gamepad_id s) = None) →
  gamepads_wf (store i s g).
Proof.
  intros (Hlen & Hall & Huniq) Hi Hs Hid. split_and!.
  - cbn. by rewrite length_insert.
  - by apply Forall_insert.
  - intros j1 j2 s1 s2 [[-> ->]|[Hn1 H1]]%store_lookup [[-> ->]|[Hn2 H2]]%store_lookup Heq Hne;
      [done| | |by eapply Huniq].
    + destruct (Hid Hne) as [Hsame|Hnone].
      * eapply Huniq; eauto; congruence.
      * exfalso. eapply find_slot_None; eauto.
    + rewrite Heq in Hne. destruct (Hid Hne) as [Hsame|Hnone].
      * eapply Huniq; eauto; congruence.
      * exfalso. eapply find_slot_None; eauto.
Qed.

Lemma get_slot_run g i s : slots g !! i = Some s → get_slot i g = (Ok s, g).
Proof. intros H. unfold get_slot. run. by rewrite H. Qed.

Lemma set_slot_run g i s s' : slots g !! i = Some s → set_slot i s' g = (Ok tt, store i s' g).
Proof. intros H. unfold set_slot. run. by rewrite (get_slot_run _ _ _ H). Qed.

Lemma store_same g i s : slots g !! i = Some s → store i s g = g.
Proof. intros H. unfold store. rewrite list_insert_id by done. by destruct g. Qed.

(** ** Reports of abstract gamepads *)

Definition pad_report (p : Pad) : bytes :=
  le_bytes 2 ((p_left p).1 + 0x8000) ++ le_bytes 2 ((p_left p).2 + 0x8000)
  ++ le_bytes 2 ((p_right p).1 + 0x8000) ++ le_bytes 2 ((p_right p).2 + 0x8000)
  ++ le_bytes 2 (p_triggers p).1 ++ le_bytes 2 (p_triggers p).2
  ++ le_bytes 2 (p_buttons p mod 2 ^ 16) ++ [dpad_hat_value (p_buttons p)].

Definition pad_input (slot_idx : nat) (p : Pad) : ControlMessage :=
  Cm_UhidInput (mkUhidInput (HID_ID_GAMEPAD_FIRST + Z.of_nat slot_idx) 15 (pad_report p)).

Lemma axis_rescale_spec v : i16 v → axis_rescale v = v + 0x8000.
Proof. intros H. apply wrap_small. widths. lia. Qed.

Lemma trigger_rescale_spec v : i16 v → trigger_rescale v = Z.max 0 v.
Proof. intros H. unfold trigger_rescale. rewrite wrap_small; widths; lia. Qed.

Lemma slot_hid_id_spec i : (i < MAX_GAMEPADS)%nat → slot_hid_id i = 3 + Z.of_nat i.
Proof.
  intros H. unfold slot_hid_id, HID_ID_GAMEPAD_FIRST, MAX_GAMEPADS in *.
  rewrite (wrap_small 16 (Z.of_nat i)), wrap_small by (widths; lia). done.
Qed.

Lemma slot_to_payload_pad s : slot_to_payload s = pad_report (pad_of s).
Proof.
  unfold slot_to_payload, pad_report. cbn [pad_of p_left p_right p_triggers p_buttons fst snd].
  rewrite !Z.sub_add. change BUTTONS_MASK with (Z.ones 16). rewrite Z.land_ones by lia.
  unfold wrap. by rewrite Z.mod_mod by done.
Qed.

Lemma pad_input_slot i s :
  (i < MAX_GAMEPADS)%nat → slot_to_input_message (slot_hid_id i) s = pad_input i (pad_of s).
Proof.
  intros Hi. unfold slot_to_input_message, pad_input.
  rewrite slot_hid_id_spec, slot_to_payload_pad by done. by rewrite app_nil_r.
Qed.

(** ** Events *)

Definition callback_ok (f : GamepadSlot → option GamepadSlot) (h : Pad → Pad) : Prop :=
  ∀ s, slot_wf s →
    match f s with
    | None => h (pad_of s) = pad_of s
    | Some s' => pad_of s' = h (pad_of s) ∧ slot_wf s' ∧ gamepad_id s' = gamepad_id s
    end.

Lemma wf_lookup g i s : gamepads_wf g → slots g !! i = Some s → slot_wf s ∧ (i < MAX_GAMEPADS)%nat.
Proof.
  intros (Hlen & Hall & _) Hi. split; [by eapply Forall_lookup_1|].
  rewrite <-Hlen. by eapply lookup_lt_Some.
Qed.

Lemma by_id_run id f h g i s :
  gamepads_wf g → callback_ok f h → find_slot g id = Some i → slots g !! i = Some s →
  by_id id (λ i, map_message (raw_update i f)) g =
  (Ok (pad_input i (h (pad_of s))), store i (default s (f s)) g).
Proof.
  intros Hwf Hf Hfind Hs. destruct (wf_lookup _ _ _ Hwf Hs) as [Hswf Hi].
  specialize (Hf s Hswf). unfold by_id. run. rewrite Hfind. cbn [ok_or].
  unfold map_message, raw_update. run. rewrite (get_slot_run _ _ _ Hs).
  destruct (f s) as [s'|] eqn:E; cbn [default].
  - destruct Hf as (Hp & _ & _). run. rewrite (set_slot_run _ _ _ s' Hs).
    cbn [fmap option_fmap option_map fst snd]. rewrite <-Hp, <-pad_input_slot by done. done.
  - cbn [fmap option_fmap option_map]. unfold slot_to_input_message_from_slot_idx. run.
    rewrite (get_slot_run _ _ _ Hs), Hf, pad_input_slot, store_same by done. done.
Qed.

Lemma bound_store g i s s' id :
  gamepads_wf g → gamepads_wf (store i s' g) → slots g !! i = Some s →
  gamepad_id s' = gamepad_id s → gamepad_id s ≠ GAMEPAD_ID_INVALID →
  bound (store i s' g) id =
  if decide (id = gamepad_id s) then Some (i, pad_of s') else bound g id.
Proof.
  intros Hwf Hwf' Hi Hid Hne.
  assert (i < length (slots g))%nat as Hlt by (by eapply lookup_lt_Some).
  case_decide as Hd.
  - subst id. apply bound_Some; [done|]. split; [done|]. exists s'.
    split; [|done]. cbn. by rewrite list_lookup_insert_eq.
  - apply option_eq. intros [j p]. rewrite !bound_Some by done.
    apply and_iff_compat_l. split; intros (t & Ht & <- & ->).
    + apply store_lookup in Ht as [[-> ->]|[Hn Ht]]; [congruence|]. eauto.
    + exists t. split; [|done]. cbn. rewrite list_lookup_insert_ne; [done|].
      intros <-. congruence.
Qed.

Lemma by_id_refines id f h g :
  gamepads_wf g → id ≠ GAMEPAD_ID_INVALID → callback_ok f h →
  let '(o, g') := by_id id (λ i, map_message (raw_update i f)) g in
  gamepads_wf g' ∧
  match bound g id with
  | None => o = Err (UnknownGamepad id) ∧ g' = g
  | Some (i, p) =>
      o = Ok (pad_input i (h p)) ∧
      ∀ id', bound g' id' = if decide (id' = id) then Some (i, h p) else bound g id'
  end.
Proof.
  intros Hwf Hne Hf. destruct (bound g id) as [[i p]|] eqn:Hb.
  - apply bound_Some in Hb as (_ & s & Hs & <- & ->); [|done].
    pose proof (find_slot_unique g i s Hwf Hs Hne) as Hfind.
    rewrite (by_id_run _ f h g i s Hwf Hf Hfind Hs).
    destruct (wf_lookup _ _ _ Hwf Hs) as [Hswf Hi]. specialize (Hf s Hswf).
    assert (pad_of (default s (f s)) = h (pad_of s) ∧ slot_wf (default s (f s)) ∧
            gamepad_id (default s (f s)) = gamepad_id s) as (Hp & Hw & Hg).
    { destruct (f s); cbn; [done|]. by rewrite Hf. }
    assert (gamepads_wf (store i (default s (f s)) g)) as Hwf'.
    { eapply store_wf; eauto. }
    split; [done|]. split; [done|]. intros id'.
    rewrite (bound_store g i s) by done. by rewrite Hp.
  - apply bound_None in Hb as [?|Hb]; [done|].
    unfold by_id. run. rewrite Hb. done.
Qed.

(** ** The callbacks of the event methods *)

Lemma land_all_mask b : Z.land b BUTTONS_ALL_MASK = b mod 2 ^ 20.
Proof. change BUTTONS_ALL_MASK with (Z.ones 20). by rewrite Z.land_ones. Qed.

Lemma mod_20_range b : 0 ≤ b mod 2 ^ 20 < 2 ^ 20.
Proof. by apply Z.mod_pos_bound. Qed.

Lemma land_button_testbit b btn :
  negb (Z.land b (GamepadButton_as_u32 btn) =? 0) =
  Z.testbit b (Z.log2 (GamepadButton_as_u32 btn)).
Proof.
  assert (GamepadButton_as_u32 btn = 2 ^ Z.log2 (GamepadButton_as_u32 btn)) as E
    by (by destruct btn).
  set (n := Z.log2 (GamepadButton_as_u32 btn)) in *. rewrite E.
  assert (0 ≤ n) by apply Z.log2_nonneg.
  assert (Z.land b (2 ^ n) = if Z.testbit b n then 2 ^ n else 0) as ->.
  { apply Z.bits_inj'. intros k Hk. rewrite Z.land_spec, Z.pow2_bits_eqb by done.
    destruct (Z.eqb_spec n k) as [->|Hne].
    - rewrite andb_true_r. destruct (Z.testbit b k); [|by rewrite Z.bits_0].
      by rewrite Z.pow2_bits_true.
    - rewrite andb_false_r. destruct (Z.testbit b n); [|by rewrite Z.bits_0].
      by rewrite Z.pow2_bits_false. }
  assert (2 ^ n ≠ 0) by (by apply Z.pow_nonzero).
  destruct (Z.testbit b n); [|done].
  by rewrite (proj2 (Z.eqb_neq _ _)).
Qed.

Lemma button_bit_range btn : 0 ≤ Z.log2 (GamepadButton_as_u32 btn) < 20.
Proof. destruct btn; cbn; lia. Qed.

Lemma lt_pow2_testbit b n :
  0 ≤ n → 0 ≤ b → (∀ k, n ≤ k → Z.testbit b k = false) → b < 2 ^ n.
Proof.
  intros Hn Hb Hbits. rewrite <-(Z.mod_small b (2 ^ (Z.max n (Z.log2 b + 1)))).
  2: { split; [done|]. destruct (decide (b = 0)) as [->|].
       { apply Z.pow_pos_nonneg; lia. }
       apply Z.log2_lt_pow2; lia. }
  replace (b mod 2 ^ Z.max n (Z.log2 b + 1)) with (b mod 2 ^ n).
  { by apply Z.mod_pos_bound, Z.pow_pos_nonneg. }
  apply Z.bits_inj'. intros k Hk.
  destruct (decide (k < n)).
  - rewrite !Z.mod_pow2_bits_low by lia. done.
  - rewrite Z.mod_pow2_bits_high by lia.
    destruct (decide (k < Z.max n (Z.log2 b + 1))).
    + rewrite Z.mod_pow2_bits_low by lia. symmetry. apply Hbits. lia.
    + by rewrite Z.mod_pow2_bits_high by lia.
Qed.

Lemma testbit_high b n k : 0 ≤ b < 2 ^ n → n ≤ k → Z.testbit b k = false.
Proof.
  intros Hb Hk. destruct (decide (b = 0)) as [->|]; [by rewrite Z.bits_0|].
  apply Z.bits_above_log2; [lia|].
  destruct (decide (n < 0)); [rewrite Z.pow_neg_r in Hb by done; lia|].
  apply Z.lt_le_trans with n; [|done]. apply Z.log2_lt_pow2; lia.
Qed.

Lemma setbit_range b k : 0 ≤ b < 2 ^ 20 → 0 ≤ k < 20 → 0 ≤ Z.setbit b k < 2 ^ 20.
Proof.
  intros Hb Hk. rewrite Z.setbit_spec'.
  assert (0 ≤ Z.lor b (2 ^ k)) by (apply Z.lor_nonneg; split; [lia|apply Z.pow_nonneg; lia]).
  split; [done|]. apply lt_pow2_testbit; [done|done|]. intros j Hj.
  rewrite Z.lor_spec, (testbit_high b 20), Z.pow2_bits_false by (done || lia). done.
Qed.

Lemma clearbit_range b k : 0 ≤ b < 2 ^ 20 → 0 ≤ k < 20 → 0 ≤ Z.clearbit b k < 2 ^ 20.
Proof.
  intros Hb Hk. rewrite Z.clearbit_spec'.
  assert (0 ≤ Z.ldiff b (2 ^ k)) by (apply Z.ldiff_nonneg; left; lia).
  split; [done|]. apply lt_pow2_testbit; [done|done|]. intros j Hj.
  rewrite Z.ldiff_spec, (testbit_high b 20) by (done || lia). done.
Qed.

Lemma lor_setbit b btn :
  Z.lor b (GamepadButton_as_u32 btn) = Z.setbit b (Z.log2 (GamepadButton_as_u32 btn)).
Proof. rewrite Z.setbit_spec'. f_equal. by destruct btn. Qed.

Lemma land_clearbit b btn :
  0 ≤ b < 2 ^ 20 →
  Z.land b (wrap 32 (Z.lnot (GamepadButton_as_u32 btn))) =
  Z.clearbit b (Z.log2 (GamepadButton_as_u32 btn)).
Proof.
  intros Hb. rewrite Z.clearbit_spec'.
  replace (2 ^ Z.log2 (GamepadButton_as_u32 btn)) with (GamepadButton_as_u32 btn)
    by (by destruct btn).
  apply Z.bits_inj'. intros k Hk. rewrite Z.land_spec, Z.ldiff_spec. unfold wrap.
  destruct (decide (k < 32)).
  - rewrite Z.mod_pow2_bits_low by lia. by rewrite Z.lnot_spec.
  - rewrite (testbit_high b 20) by (done || lia). done.
Qed.

Lemma button_callback btn pressed :
  callback_ok (λ slot,
    let bit := GamepadButton_as_u32 btn in
    let currently_pressed := negb (Z.land (buttons slot) bit =? 0) in
    if Bool.eqb currently_pressed pressed then None
    else if pressed then Some (set_buttons (Z.lor (buttons slot) bit) slot)
    else Some (set_buttons (Z.land (buttons slot) (wrap 32 (Z.lnot bit))) slot))
    (apply_op (OpButton btn pressed)).
Proof.
  intros s (Hid & Hb & Haxes & Htrig). cbn zeta.
  rewrite land_button_testbit, lor_setbit, land_clearbit by done.
  pose proof (button_bit_range btn) as Hr.
  set (k := Z.log2 (GamepadButton_as_u32 btn)) in *.
  destruct (Bool.eqb (Z.testbit (buttons s) k) pressed) eqn:E.
  - apply Bool.eqb_prop in E. cbn [apply_op pad_of p_buttons p_left p_right p_triggers].
    unfold pad_of. f_equal. fold k.
    destruct pressed; apply Z.bits_inj'; intros j Hj.
    + rewrite Z.setbit_eqb by lia. destruct (Z.eqb_spec k j) as [->|]; [by rewrite E|done].
    + rewrite Z.clearbit_eqb. destruct (Z.eqb_spec k j) as [->|]; [rewrite E|];
        by rewrite ?andb_true_r.
  - destruct pressed; (split; [done|]); (split; [|done]);
      (split; [done|]); (split; [|done]); cbn [buttons set_buttons];
      [by apply setbit_range|by apply clearbit_range].
Qed.

(** The other callbacks store rescaled arguments; equal fields mean an equal pad. *)
Lemma raw_op_callback op :
  op_wf op → ∃ f, raw_op op = (λ i, raw_update i f) ∧ callback_ok f (apply_op op).
Proof.
  intros Hop. destruct op as [btn p|b|b lx ly rx ry lt rt|axis v|x y|x y|l r|lx ly rx ry lt rt].
  { eexists. split; [reflexivity|]. apply button_callback. }
  all: try destruct axis; (eexists; split; [reflexivity|]);
    intros s (Hid & Hb & (Hlx & Hly & Hrx & Hry) & Hlt & Hrt);
    cbn in Hop; destruct_and?; cbn zeta;
    rewrite ?land_all_mask, ?axis_rescale_spec, ?trigger_rescale_spec by done;
    repeat match goal with
      | |- context [?a =? ?b] => destruct (Z.eqb_spec a b); cbn [andb]
      end;
    try match goal with
      | |- apply_op _ _ = _ =>
          unfold apply_op, pad_of; cbn [p_buttons p_left p_right p_triggers fst snd];
          repeat f_equal; lia
      end;
    (split; [unfold apply_op, pad_of; cbn; repeat f_equal; lia|]);
    (split; [|done]); unfold slot_wf; cbn -[Z.pow Z.modulo];
    try (pose proof (mod_20_range b)); widths; split_and!; lia.
Qed.

Lemma run_op_raw id op : run_op id op = by_id id (λ i, map_message (raw_op op i)).
Proof. by destruct op. Qed.

Lemma run_op_callback id op :
  op_wf op →
  ∃ f, run_op id op = by_id id (λ i, map_message (raw_update i f)) ∧
       callback_ok f (apply_op op).
Proof.
  intros Hop. destruct (raw_op_callback op Hop) as (f & Hf & Hc). exists f.
  by rewrite run_op_raw, Hf.
Qed.

(** An event on a slot updates its pad, and reports it unless nothing changed. *)
Lemma raw_op_spec op g i s :
  gamepads_wf g → op_wf op → slots g !! i = Some s →
  ∃ r s', raw_op op i g = (Ok r, store i s' g) ∧ gamepads_wf (store i s' g) ∧
    gamepad_id s' = gamepad_id s ∧ pad_of s' = apply_op op (pad_of s) ∧
    match r with
    | None => s' = s
    | Some (id, payload) => id = 3 + Z.of_nat i ∧ payload = pad_report (pad_of s')
    end.
Proof.
  intros Hwf Hop Hs. destruct (raw_op_callback op Hop) as (f & -> & Hf).
  destruct (wf_lookup _ _ _ Hwf Hs) as [Hswf Hi]. specialize (Hf s Hswf).
  unfold raw_update. run. rewrite (get_slot_run _ _ _ Hs). destruct (f s) as [s'|].
  - destruct Hf as (Hp & Hw & Hid). rewrite (set_slot_run _ _ _ _ Hs).
    eexists _, s'. split; [done|]. split; [eapply store_wf; eauto|].
    rewrite slot_hid_id_spec, slot_to_payload_pad by done. done.
  - exists None, s. by rewrite store_same.
Qed.

(** ** Opening and closing *)

Lemma free_slot_Some g i :
  free_slot g = Some i → ∃ s, slots g !! i = Some s ∧ gamepad_id s = GAMEPAD_ID_INVALID.
Proof. intros (s & H1 & H2 & _)%find_slot_Some. eauto. Qed.

Lemma free_slot_None g i s :
  free_slot g = None → slots g !! i = Some s → gamepad_id s ≠ GAMEPAD_ID_INVALID.
Proof. intros H. by apply find_slot_None. Qed.

(** A free slot belongs to no gamepad. *)
Lemma free_slot_unbound g i id p :
  gamepads_wf g → free_slot g = Some i → bound g id ≠ Some (i, p).
Proof.
  intros Hwf (s & Hs & H0)%free_slot_Some (Hne & s' & Hs' & Hid & _)%bound_Some; [|done].
  congruence.
Qed.

Definition reset_slot (id : Z) : GamepadSlot :=
  mkSlot id SLOT_FREE_BUTTONS (axis_rescale 0) (axis_rescale 0)
    (axis_rescale 0) (axis_rescale 0) 0 0.

Lemma reset_slot_wf id : u32 id → slot_wf (reset_slot id).
Proof. intros H. split; [done|]. by apply (bool_decide_unpack _); vm_compute. Qed.

Lemma open_spec id name g :
  gamepads_wf g → u32 id → id ≠ GAMEPAD_ID_INVALID →
  match bound g id with
  | Some (i, _) =>
      open id name g = (Ok (3 + Z.of_nat i, build_create (3 + Z.of_nat i) name), g)
  | None =>
      match free_slot g with
      | None => open id name g = (Err NoGamepadSlot, g)
      | Some i =>
          let '(o, g') := open id name g in
          o = Ok (3 + Z.of_nat i, build_create (3 + Z.of_nat i) name) ∧
          gamepads_wf g' ∧
          ∀ id', bound g' id' = if decide (id' = id) then Some (i, pad_reset) else bound g id'
      end
  end.
Proof.
  intros Hwf Hu Hne. unfold open. rewrite decide_False by done.
  destruct (bound g id) as [[i p]|] eqn:Hb.
  - apply bound_Some in Hb as (_ & s & Hs & <- & _); [|done]. run.
    rewrite (find_slot_unique g i s Hwf Hs Hne).
    destruct (wf_lookup _ _ _ Hwf Hs) as [_ Hi]. by rewrite slot_hid_id_spec.
  - apply bound_None in Hb as [?|Hfind]; [done|]. run. rewrite Hfind.
    destruct (free_slot g) as [i|] eqn:Hfree; cbn [ok_or]; [|done].
    destruct (free_slot_Some _ _ Hfree) as (s & Hs & H0). fold (reset_slot id).
    rewrite (set_slot_run _ _ _ _ Hs).
    destruct (wf_lookup _ _ _ Hwf Hs) as [_ Hi]. rewrite slot_hid_id_spec by done.
    assert (gamepads_wf (store i (reset_slot id) g)) as Hwf'.
    { eapply store_wf; [done|done|by apply reset_slot_wf|]. by right. }
    split; [done|]. split; [done|]. intros id'.
    assert (i < length (slots g))%nat as Hlt by (by eapply lookup_lt_Some).
    case_decide as Hd.
    + subst id'. apply bound_Some; [done|]. split; [done|]. exists (reset_slot id).
      split; [|done]. cbn. by rewrite list_lookup_insert_eq.
    + apply option_eq. intros [j p]. rewrite !bound_Some by done.
      split; intros (Hne' & t & Ht & <- & ->); (split; [done|]).
      * apply store_lookup in Ht as [[-> ->]|[Hn Ht]]; [done|]. eauto.
      * exists t. split; [|done]. cbn. rewrite list_lookup_insert_ne; [done|].
        intros <-. rewrite Hs in Ht. by simplify_eq.
Qed.

(** Freeing slot [i]. *)
Lemma free_store g i s :
  gamepads_wf g → slots g !! i = Some s → gamepad_id s ≠ GAMEPAD_ID_INVALID →
  let g' := store i (set_gamepad_id GAMEPAD_ID_INVALID s) g in
  gamepads_wf g' ∧
  ∀ id, bound g' id = if decide (id = gamepad_id s) then None else bound g id.
Proof.
  intros Hwf Hs Hne g'. destruct (wf_lookup _ _ _ Hwf Hs) as [(Hid & Hrest) Hi].
  assert (gamepads_wf g') as Hwf'.
  { eapply store_wf; [done|done| |done]. by split. }
  split; [done|]. intros id. case_decide as Hd.
  - subst id. apply eq_None_not_Some. intros [[j p] (_ & t & Ht & Hg & _)%bound_Some]; [|done].
    apply store_lookup in Ht as [[-> ->]|[Hn Ht]]; [done|].
    destruct Hwf as (_ & _ & Huniq). apply Hn. eapply Huniq; eauto.
  - apply option_eq. intros [j p]. rewrite !bound_Some by done.
    split; intros (Hne' & t & Ht & <- & ->); (split; [done|]).
    + apply store_lookup in Ht as [[-> ->]|[Hn Ht]]; [done|]. eauto.
    + exists t. split; [|done]. cbn. rewrite list_lookup_insert_ne; [done|].
      intros <-. rewrite Hs in Ht. simplify_eq.
Qed.

Lemma close_spec id g :
  gamepads_wf g → id ≠ GAMEPAD_ID_INVALID →
  match bound g id with
  | None => close id g = (Err (UnknownGamepad id), g)
  | Some (i, _) =>
      let '(o, g') := close id g in
      o = Ok (Cm_UhidDestroy (mkUhidDestroy (3 + Z.of_nat i))) ∧ gamepads_wf g' ∧
      ∀ id', bound g' id' = if decide (id' = id) then None else bound g id'
  end.
Proof.
  intros Hwf Hne. unfold close. rewrite decide_False by done.
  destruct (bound g id) as [[i p]|] eqn:Hb.
  - apply bound_Some in Hb as (_ & s & Hs & <- & _); [|done]. run.
    rewrite (find_slot_unique g i s Hwf Hs Hne). cbn [ok_or].
    rewrite (get_slot_run _ _ _ Hs), (set_slot_run _ _ _ _ Hs).
    destruct (wf_lookup _ _ _ Hwf Hs) as [_ Hi]. rewrite slot_hid_id_spec by done.
    destruct (free_store g i s Hwf Hs Hne) as [Hwf' Hb']. done.
  - apply bound_None in Hb as [?|Hfind]; [done|]. run. by rewrite Hfind.
Qed.

Lemma close_slot_idx_spec i s g :
  gamepads_wf g → slots g !! i = Some s →
  close_slot_idx i g =
  if decide (gamepad_id s = GAMEPAD_ID_INVALID) then (Err (UnknownGamepad 0), g)
  else (Ok (Cm_UhidDestroy (mkUhidDestroy (3 + Z.of_nat i))),
        store i (set_gamepad_id GAMEPAD_ID_INVALID s) g).
Proof.
  intros Hwf Hs. destruct (wf_lookup _ _ _ Hwf Hs) as [_ Hi].
  unfold close_slot_idx. rewrite decide_False by lia. run. rewrite (get_slot_run _ _ _ Hs).
  case_decide; [done|]. rewrite (set_slot_run _ _ _ _ Hs), slot_hid_id_spec by done. done.
Qed.

Lemma Gamepad_new_wf : gamepads_wf Gamepad_new.
Proof.
  split; [done|]. split.
  - apply Forall_replicate. by apply (bool_decide_unpack _); vm_compute.
  - intros i j s s' [-> _]%lookup_replicate [-> _]%lookup_replicate. done.
Qed.

(** ** The report against its descriptor *)

Definition pad_wf (p : Pad) : Prop :=
  0 ≤ p_buttons p < 2 ^ 20 ∧
  (i16 (p_left p).1 ∧ i16 (p_left p).2 ∧ i16 (p_right p).1 ∧ i16 (p_right p).2) ∧
  0 ≤ (p_triggers p).1 ≤ 0x7FFF ∧ 0 ≤ (p_triggers p).2 ≤ 0x7FFF.

Lemma pad_of_wf s : slot_wf s → pad_wf (pad_of s).
Proof.
  intros (_ & Hb & (H1 & H2 & H3 & H4) & Hl & Hr). split; [done|].
  split; [|done]. cbn. widths. lia.
Qed.

Lemma dpad_byte b : u8 (dpad_hat_value b).
Proof. pose proof (dpad_hat_range b). widths. lia. Qed.

Lemma pad_report_bytes p : is_bytes (pad_report p).
Proof.
  unfold pad_report. repeat apply Forall_app_2; try apply is_bytes_le_bytes.
  constructor; [apply dpad_byte|constructor].
Qed.

Lemma pad_report_length p : length (pad_report p) = GAMEPAD_REPORT_SIZE.
Proof. unfold pad_report. rewrite !length_app, !length_le_bytes. done. Qed.

(** The host reads each field back. *)
Definition read_pad (data : bytes) : Pad :=
  let u16_at k := element data (8 * k) 16 false in
  mkPad 
    (u16_at 12)
    (u16_at 0 - 0x8000, u16_at 2 - 0x8000) (u16_at 4 - 0x8000, u16_at 6 - 0x8000)
    (u16_at 8, u16_at 10).

Lemma pad_element p pre n v rest k :
  pad_report p = pre ++ le_bytes n v ++ rest → k = 8 * Z.of_nat (length pre) →
  element (pad_report p) k (8 * Z.of_nat n) false = v mod 256 ^ Z.of_nat n.
Proof.
  intros E ->. pose proof (pad_report_bytes p) as Hb. rewrite E in *.
  apply Forall_app in Hb as [H1 Hb]. apply Forall_app in Hb as [_ H2]. by apply element_le.
Qed.

Lemma read_pad_report p :
  pad_wf p →
  read_pad (pad_report p) =
  mkPad (p_buttons p mod 2 ^ 16) (p_left p) (p_right p) (p_triggers p) ∧
  nth 14 (pad_report p) 0 = dpad_hat_value (p_buttons p).
Proof.
  intros (Hb & (H1 & H2 & H3 & H4) & Hl & Hr). unfold read_pad. cbn zeta. set (x1 := le_bytes 2 ((p_left p).1 + 0x8000)).
  set (x2 := le_bytes 2 ((p_left p).2 + 0x8000)).
  set (x3 := le_bytes 2 ((p_right p).1 + 0x8000)).
  set (x4 := le_bytes 2 ((p_right p).2 + 0x8000)).
  set (x5 := le_bytes 2 (p_triggers p).1).
  set (x6 := le_bytes 2 (p_triggers p).2).
  set (x7 := le_bytes 2 (p_buttons p mod 2 ^ 16)).
  set (x8 := [dpad_hat_value (p_buttons p)]).
  assert (pad_report p = x1 ++ x2 ++ x3 ++ x4 ++ x5 ++ x6 ++ x7 ++ x8) as E by done.
  split.
  - change 16 with (8 * Z.of_nat 2) at 1 2 3 4 5 6 7.
    rewrite (pad_element p [] 2 ((p_left p).1 + 0x8000) (x2 ++ x3 ++ x4 ++ x5 ++ x6 ++ x7 ++ x8)
      (8 * 0)) by done.
    rewrite (pad_element p x1 2 ((p_left p).2 + 0x8000) (x3 ++ x4 ++ x5 ++ x6 ++ x7 ++ x8)
      (8 * 2)) by done.
    rewrite (pad_element p (x1 ++ x2) 2 ((p_right p).1 + 0x8000) (x4 ++ x5 ++ x6 ++ x7 ++ x8)
      (8 * 4))
      by (by rewrite <-?app_assoc).
    rewrite (pad_element p (x1 ++ x2 ++ x3) 2 ((p_right p).2 + 0x8000) (x5 ++ x6 ++ x7 ++ x8)
      (8 * 6))
      by (by rewrite <-?app_assoc).
    rewrite (pad_element p (x1 ++ x2 ++ x3 ++ x4) 2 (p_triggers p).1 (x6 ++ x7 ++ x8)
      (8 * 8))
      by (by rewrite <-?app_assoc).
    rewrite (pad_element p (x1 ++ x2 ++ x3 ++ x4 ++ x5) 2 (p_triggers p).2 (x7 ++ x8)
      (8 * 10))
      by (by rewrite <-?app_assoc).
    rewrite (pad_element p (x1 ++ x2 ++ x3 ++ x4 ++ x5 ++ x6) 2 (p_buttons p mod 2 ^ 16) x8
      (8 * 12))
      by (by rewrite <-?app_assoc).
    change (256 ^ Z.of_nat 2) with 65536. change (2 ^ 16) with 65536. widths.
    rewrite Z.mod_mod by lia.
    rewrite !(Z.mod_small (_ + _)) by lia.
    rewrite !(Z.mod_small (_ (p_triggers p))) by lia.
    destruct p as [b [? ?] [? ?] [? ?]]; cbn [p_left p_right p_triggers p_buttons fst snd] in *. f_equal; f_equal; lia.
  - rewrite E. done.
Qed.

Lemma pad_report_conforms p : pad_wf p → conforms GAMEPAD_REPORT_DESC (pad_report p).
Proof.
  intros Hwf. eexists _, _. split; [by vm_compute|]. split; [by vm_compute|]. split.
  { rewrite pad_report_length. done. }
  cbn [fields_ok]. rewrite (field_full (mkField 1 16 4 _ _ _)) by done.
  rewrite (field_full (mkField 9 _ _ _ _ _)) by done.
  rewrite (field_free (mkField _ _ _ _ _ 66)) by done. rewrite !andb_true_r. cbn [andb].
  apply forallb_forall. intros i Hi. apply in_map_iff in Hi as (j & <- & Hj%in_seq).
  destruct (read_pad_report p Hwf) as [E _]. destruct Hwf as (_ & _ & Hl & Hr).
  pose proof (f_equal p_triggers E : (element (pad_report p) (8 * 8) 16 false,
    element (pad_report p) (8 * 10) 16 false) = p_triggers p) as Et.
  pose proof (f_equal fst Et : element (pad_report p) (8 * 8) 16 false = _) as E1.
  pose proof (f_equal snd Et : element (pad_report p) (8 * 10) 16 false = _) as E2.
  unfold element_ok. cbn [f_bits f_min f_max f_flags field_bits f_count Z.ltb Z.compare].
  destruct j as [|[|j]]; [| |cbn in Hj; lia].
  - match goal with |- context [element _ ?o _ _] => change o with (8 * 8) end.
    rewrite E1.
    rewrite !(proj2 (Z.leb_le _ _)) by lia. by rewrite orb_true_r.
  - match goal with |- context [element _ ?o _ _] => change o with (8 * 10) end.
    rewrite E2.
    rewrite !(proj2 (Z.leb_le _ _)) by lia. by rewrite orb_true_r.
Qed.

(** ** Properties *)

(** Histories of driver calls, by id and by slot index, errors discarded. *)
Inductive GamepadCall : Set :=
  | CallOpen (id : Z) (name : option str)
  | CallClose (id : Z)
  | CallOp (id : Z) (op : GamepadOp)
  | CallSlot (slot_idx : nat) (op : GamepadOp)
  | CallCloseSlot (slot_idx : nat).

Definition call_state (c : GamepadCall) (g : GamepadHid) : GamepadHid :=
  match c with
  | CallOpen id name => (open id name g).2
  | CallClose id => (close id g).2
  | CallOp id op => (run_op id op g).2
  | CallSlot i op => (raw_op op i g).2
  | CallCloseSlot i => (close_slot_idx i g).2
  end.

Definition call_wf (c : GamepadCall) : Prop :=
  match c with
  | CallOpen id _ => u32 id
  | CallClose _ | CallCloseSlot _ => True
  | CallOp _ op | CallSlot _ op => op_wf op
  end.

Inductive reachable : GamepadHid → Prop :=
  | reachable_new : reachable Gamepad_new
  | reachable_call g c : reachable g → call_wf c → reachable (call_state c g).

(** Writing to a slot that is free keeps the invariant, and no open gamepad sees it. *)
Lemma store_free g i s s' :
  gamepads_wf g → slots g !! i = Some s → gamepad_id s = GAMEPAD_ID_INVALID →
  slot_wf s' → gamepad_id s' = gamepad_id s →
  gamepads_wf (store i s' g) ∧ ∀ id, bound (store i s' g) id = bound g id.
Proof.
  intros Hwf Hs Hz Hs' Hid. assert (gamepads_wf (store i s' g)) as Hwf'.
  { eapply store_wf; [done..|]. by left. }
  split; [done|]. intros id. apply option_eq. intros [j p]. rewrite !bound_Some by done.
  split; intros (Hne & t & Ht & <- & ->); (split; [done|]).
  - apply store_lookup in Ht as [[-> ->]|[_ Ht]]; [congruence|eauto].
  - exists t. split; [|done]. cbn. rewrite list_lookup_insert_ne; [done|]. intros <-. congruence.
Qed.

Lemma by_id_zero f h g :
  gamepads_wf g → callback_ok f h →
  let '(o, g') := by_id GAMEPAD_ID_INVALID (λ i, map_message (raw_update i f)) g in
  gamepads_wf g' ∧ (∀ id, bound g' id = bound g id) ∧
  match free_slot g with
  | None => o = Err (UnknownGamepad GAMEPAD_ID_INVALID) ∧ g' = g
  | Some i => ∃ s, slots g !! i = Some s ∧ o = Ok (pad_input i (h (pad_of s)))
  end.
Proof.
  intros Hwf Hf. destruct (free_slot g) as [i|] eqn:Hfree.
  - destruct (free_slot_Some _ _ Hfree) as (s & Hs & Hz).
    rewrite (by_id_run _ f h g i s Hwf Hf Hfree Hs).
    destruct (wf_lookup _ _ _ Hwf Hs) as [Hswf _]. specialize (Hf s Hswf).
    assert (slot_wf (default s (f s)) ∧ gamepad_id (default s (f s)) = gamepad_id s) as [Hw Hg]
      by (by destruct (f s); cbn; [destruct Hf|]).
    destruct (store_free g i s _ Hwf Hs Hz Hw Hg) as [? ?]. split_and!; [done..|]. by exists s.
  - unfold by_id. run. change (find_slot g GAMEPAD_ID_INVALID) with (free_slot g). by rewrite Hfree.
Qed.

Lemma raw_update_wf i f h g : gamepads_wf g → callback_ok f h → gamepads_wf (raw_update i f g).2.
Proof.
  intros Hwf Hf. unfold raw_update. run.
  destruct (slots g !! i) as [s|] eqn:Hs; [|by unfold get_slot; run; rewrite Hs].
  rewrite (get_slot_run _ _ _ Hs). destruct (wf_lookup _ _ _ Hwf Hs) as [Hswf _].
  specialize (Hf s Hswf). destruct (f s) as [s'|]; [|done]. destruct Hf as (_ & Hw & Hid).
  run. rewrite (set_slot_run _ _ _ s' Hs). cbn [snd]. eapply store_wf; [done..|]. by left.
Qed.

Lemma close_slot_idx_wf i g : gamepads_wf g → gamepads_wf (close_slot_idx i g).2.
Proof.
  intros Hwf. destruct (decide (MAX_GAMEPADS ≤ i)%nat) as [Hi|Hi].
  { unfold close_slot_idx. by rewrite decide_True. }
  destruct (lookup_lt_is_Some_2 (slots g) i) as [s Hs]; [destruct Hwf as (-> & _); lia|].
  rewrite (close_slot_idx_spec i s g Hwf Hs). case_decide; [done|]. by apply free_store.
Qed.

Lemma call_wf_state c g : gamepads_wf g → call_wf c → gamepads_wf (call_state c g).
Proof.
  intros Hwf Hc. destruct c as [id name|id|id op|i op|i]; cbn [call_state].
  - destruct (decide (id = GAMEPAD_ID_INVALID)) as [->|Hne].
    { unfold open. by rewrite decide_True. }
    pose proof (open_spec id name g Hwf Hc Hne) as H.
    destruct (bound g id) as [[i p]|]; [by rewrite H|].
    destruct (free_slot g); [|by rewrite H]. by destruct (open id name g), H as (_ & ? & _).
  - destruct (decide (id = GAMEPAD_ID_INVALID)) as [->|Hne].
    { unfold close. by rewrite decide_True. }
    pose proof (close_spec id g Hwf Hne) as H.
    destruct (bound g id) as [[i p]|]; [|by rewrite H].
    by destruct (close id g), H as (_ & ? & _).
  - destruct (run_op_callback id op Hc) as (f & -> & Hf).
    destruct (decide (id = GAMEPAD_ID_INVALID)) as [->|Hne].
    + pose proof (by_id_zero f _ g Hwf Hf) as H. by destruct (by_id _ _ g), H as (? & _).
    + pose proof (by_id_refines id f _ g Hwf Hne Hf) as H. by destruct (by_id _ _ g), H as (? & _).
  - destruct (raw_op_callback op Hc) as (f & -> & Hf). by eapply raw_update_wf.
  - by apply close_slot_idx_wf.
Qed.

Lemma reachable_wf g : reachable g → gamepads_wf g.
Proof. induction 1; [apply Gamepad_new_wf|by apply call_wf_state]. Qed.

(** C29: in every state the driver can reach by calls with arguments of their types -
    opening, closing and events, by id (0 included) or by slot index - each event on an
    open gamepad returns the
    report of that gamepad's abstract state after the event (also when the driver skips
    the update as redundant) under the HID id of its slot, and changes no other
    gamepad; an event on a gamepad that is not open is refused and changes nothing.  The
    exception is the id 0, which no gamepad has: an event for it goes to the first free
    slot, is reported under the HID id of that slot, which was announced to nobody, and is
    refused only when no slot is free; it changes no open gamepad. *)
Theorem gamepad_event_refines (g : GamepadHid) (id : Z) (op : GamepadOp)
    (Hg : reachable g) (Hop : op_wf op) :
  let '(o, g') := run_op id op g in
  if decide (id = GAMEPAD_ID_INVALID) then
    (∀ id', bound g' id' = bound g id') ∧
    match free_slot g with
    | None => o = Err (UnknownGamepad id) ∧ g' = g
    | Some i => ∃ s, slots g !! i = Some s ∧ o = Ok (pad_input i (apply_op op (pad_of s)))
    end
  else
    match bound g id with
    | None => o = Err (UnknownGamepad id) ∧ g' = g
    | Some (i, p) =>
        o = Ok (pad_input i (apply_op op p)) ∧
        ∀ id', bound g' id' =
               if decide (id' = id) then Some (i, apply_op op p) else bound g id'
    end.
Proof.
  destruct (run_op_callback id op Hop) as (f & -> & Hf). pose proof (reachable_wf g Hg) as Hwf.
  case_decide as Hid.
  - subst id. pose proof (by_id_zero f _ g Hwf Hf) as H. by destruct (by_id _ _ g), H as (_ & ?).
  - pose proof (by_id_refines id f _ g Hwf Hid Hf) as H. by destruct (by_id _ _ g), H as (_ & ?).
Qed.

Lemma gamepad_event_refines_witness :
  let g := call_state (CallOpen 42 None) Gamepad_new in
  (run_op 42 (OpButton DpadUp true) g).1 = Ok (pad_input 0 (mkPad 0x10000 (0, 0) (0, 0) (0, 0))) ∧
  bound (run_op 42 (OpButton DpadUp true) g).2 42
    = Some (0%nat, mkPad 0x10000 (0, 0) (0, 0) (0, 0)).
Proof.
  intros g.
  assert (reachable g) as Hg.
  { apply reachable_call; [apply reachable_new|]. by split. }
  pose proof (gamepad_event_refines g 42 (OpButton DpadUp true) Hg I) as H.
  destruct (run_op 42 (OpButton DpadUp true) g) as [o g'].
  rewrite decide_False in H by done.
  assert (bound g 42 = Some (0%nat, pad_reset)) as E by (by vm_compute).
  rewrite E in H. destruct H as [Ho Hb]. split; [exact Ho|]. exact (Hb 42).
Defined.

(** Slot allocation.  In every reachable state: opening a new gamepad takes a slot
    no open gamepad has, starts it from the reset state and leaves the others alone;
    with all eight slots taken it is refused; opening an open gamepad repeats its
    announcement; closing frees exactly that gamepad; and two open gamepads never share
    a slot, hence never a HID id. *)
Theorem gamepad_slot_allocation (g : GamepadHid) (id : Z) (name : option str)
    (Hg : reachable g) (Hu : u32 id) (Hid : id ≠ GAMEPAD_ID_INVALID) :
  match bound g id with
  | Some (i, p) =>
      open id name g = (Ok (3 + Z.of_nat i, build_create (3 + Z.of_nat i) name), g) ∧
      (close id g).1 = Ok (Cm_UhidDestroy (mkUhidDestroy (3 + Z.of_nat i))) ∧
      (∀ id', bound (close id g).2 id' = if decide (id' = id) then None else bound g id') ∧
      (∀ id' j q, bound g id' = Some (j, q) → id' ≠ id → j ≠ i)
  | None =>
      close id g = (Err (UnknownGamepad id), g) ∧
      match free_slot g with
      | None => open id name g = (Err NoGamepadSlot, g) ∧ active_count g = MAX_GAMEPADS
      | Some i =>
          (open id name g).1 = Ok (3 + Z.of_nat i, build_create (3 + Z.of_nat i) name) ∧
          (∀ id' q, bound g id' ≠ Some (i, q)) ∧
          ∀ id', bound (open id name g).2 id' =
                 if decide (id' = id) then Some (i, pad_reset) else bound g id'
      end
  end.
Proof.
  pose proof (reachable_wf g Hg) as Hwf.
  pose proof (open_spec id name g Hwf Hu Hid) as Ho.
  pose proof (close_spec id g Hwf Hid) as Hc.
  destruct (bound g id) as [[i p]|] eqn:Hb.
  - destruct (close id g) as [oc gc]. destruct Hc as (-> & _ & Hcb).
    split_and!; try done. intros id' j q Hb' Hne ->.
    apply bound_Some in Hb as (_ & s & Hs & <- & _); [|done].
    apply bound_Some in Hb' as (_ & s' & Hs' & <- & _); [|done]. congruence.
  - split; [done|]. destruct (free_slot g) as [i|] eqn:Hfree.
    + destruct (open id name g) as [oo go]. destruct Ho as (-> & _ & Hob).
      split_and!; try done. intros id' q. by apply free_slot_unbound.
    + split; [done|]. unfold active_count. destruct Hwf as (Hlen & _ & _).
      rewrite <-Hlen. f_equal. apply filter_all.
      apply Forall_lookup. intros i s. by apply free_slot_None.
Qed.

Lemma gamepad_slot_allocation_witness :
  reachable Gamepad_new ∧
  (open 7 None Gamepad_new).1 = Ok (3, build_create 3 None).
Proof.
  split; [exact reachable_new|].
  pose proof (gamepad_slot_allocation Gamepad_new 7 None reachable_new
    ltac:(by split) ltac:(done)) as H.
  assert (bound Gamepad_new 7 = None) as E by (by vm_compute). rewrite E in H.
  assert (free_slot Gamepad_new = Some 0%nat) as E' by (by vm_compute). rewrite E' in H.
  exact (proj1 (proj2 H)).
Defined.

(** The report of every gamepad in a reachable state conforms to the gamepad
    descriptor, and the host reads the state back from it: both sticks and both
    triggers exactly, the sixteen low buttons, and in the last byte the hat position of
    the dpad. *)
Theorem gamepad_report_faithful (g : GamepadHid) (id : Z) (i : nat) (p : Pad)
    (Hg : reachable g) (Hb : bound g id = Some (i, p)) :
  conforms GAMEPAD_REPORT_DESC (pad_report p) ∧
  read_pad (pad_report p) =
    mkPad (p_buttons p mod 2 ^ 16) (p_left p) (p_right p) (p_triggers p) ∧
  nth 14 (pad_report p) 0 = dpad_hat_value (p_buttons p).
Proof.
  pose proof (reachable_wf g Hg) as Hwf.
  apply bound_Some in Hb as (_ & s & Hs & _ & ->); [|done].
  destruct (wf_lookup _ _ _ Hwf Hs) as [Hswf _]. apply pad_of_wf in Hswf.
  split; [by apply pad_report_conforms|]. by apply read_pad_report.
Qed.

Lemma gamepad_report_faithful_witness :
  bound (call_state (CallOpen 42 None) Gamepad_new) 42 = Some (0%nat, pad_reset) ∧
  read_pad (pad_report pad_reset) = pad_reset.
Proof.
  assert (bound (call_state (CallOpen 42 None) Gamepad_new) 42 = Some (0%nat, pad_reset)) as E
    by (by vm_compute).
  split; [exact E|].
  assert (reachable (call_state (CallOpen 42 None) Gamepad_new)) as Hg.
  { apply reachable_call; [apply reachable_new|]. by split. }
  exact (proj1 (proj2 (gamepad_report_faithful _ 42 0 pad_reset Hg E))).
Defined.

(** The reserved id 0 is not refused by the event methods as long as some slot is
    free: the lookup finds the free slot, writes the button into it and returns a report
    under that slot's HID id, for a device that was never announced (only [open] and
    [close] check the id). *)
Theorem gamepad_zero_hits_free_slot (b : GamepadButton) (pressed : bool) (i : nat)
    (g : GamepadHid) (Hg : reachable g) (Hfree : free_slot g = Some i) :
  ∃ m, (button_event GAMEPAD_ID_INVALID b pressed g).1 = Ok m ∧
       (∃ data, m = Cm_UhidInput (mkUhidInput (3 + Z.of_nat i) 15 data)) ∧
       ∀ id q, bound g id ≠ Some (i, q).
Proof.
  pose proof (reachable_wf g Hg) as Hwf.
  destruct (free_slot_Some _ _ Hfree) as (s & Hs & _).
  destruct (run_op_callback GAMEPAD_ID_INVALID (OpButton b pressed) I) as (f & E & Hf).
  change (button_event GAMEPAD_ID_INVALID b pressed)
    with (run_op GAMEPAD_ID_INVALID (OpButton b pressed)).
  rewrite E, (by_id_run _ f _ g i s Hwf Hf Hfree Hs).
  eexists. split; [done|]. split; [by eexists|]. intros id q. by apply free_slot_unbound.
Qed.

Lemma gamepad_zero_hits_free_slot_witness :
  free_slot Gamepad_new = Some 0%nat ∧
  ∃ m, (button_event GAMEPAD_ID_INVALID South true Gamepad_new).1 = Ok m.
Proof.
  assert (free_slot Gamepad_new = Some 0%nat) as E by (by vm_compute).
  split; [exact E|].
  destruct (gamepad_zero_hits_free_slot South true 0 Gamepad_new reachable_new E)
    as (m & Hm & _).
  exists m. exact Hm.
Defined.
