(* ===== verification/Coalesce.v ===== *)
(** * The coalescing writer ([src/src/coalesce.rs])

    [CoalescingWriter] batches droppable messages into one transport write and
    sends critical ones at once.  The record has the source's fields except the
    capacities, plus the clock: [clock n] is the value of the [n]-th [Instant::now()],
    [ticks] how many were taken.  Counters wrap at 2^64. *)

From S2P Require Import Prelude Words Errors Types Utf8 Float32 Message Transport Descriptor.
From S2P Require Import Gamepad.
Local Open Scope Z_scope.

Inductive FlushReason : Set := Pending | Full | Window | Critical.

#[export] Instance FlushReason_eq_dec : EqDecision FlushReason.
Proof. solve_decision. Defined.

Definition DEFAULT_HARD_LIMIT : Z := 4096.
(** One millisecond, in nanoseconds. *)
Definition DEFAULT_WINDOW : Z := 1000000.
Definition GAMEPAD_REPORT_SIZE_U16 : Z := 15.
Definition DIRECT_GAMEPAD_BATCH_FRAMES : nat := 32.

(** [session::GamepadFrameRaw]: one full gamepad state in raw units. *)
Record GamepadFrameRaw : Set := mkFrame
  { fr_buttons : Z; fr_left_x : Z; fr_left_y : Z; fr_right_x : Z; fr_right_y : Z;
    fr_left_trigger : Z; fr_right_trigger : Z }.

Record CoalescingWriter (T : Type) : Type := mkWriter
  { transport : T; pending : bytes; scratch : bytes; last_flush : Z; window : Z;
    hard_limit : Z; direct : bool; pushed : Z; written : Z; flushes : Z;
    clock : nat → Z; ticks : nat }.
Arguments mkWriter {T}.
Arguments transport {T}.
Arguments pending {T}.
Arguments scratch {T}.
Arguments last_flush {T}.
Arguments window {T}.
Arguments hard_limit {T}.
Arguments direct {T}.
Arguments pushed {T}.
Arguments written {T}.
Arguments flushes {T}.
Arguments clock {T}.
Arguments ticks {T}.

Section Setters.
Context {T : Type}.
Implicit Types w : CoalescingWriter T.

Definition set_transport (t : T) w := mkWriter t (pending w) (scratch w) (last_flush w)
  (window w) (hard_limit w) (direct w) (pushed w) (written w) (flushes w) (clock w) (ticks w).
Definition set_pending (l : bytes) w := mkWriter (transport w) l (scratch w) (last_flush w)
  (window w) (hard_limit w) (direct w) (pushed w) (written w) (flushes w) (clock w) (ticks w).
Definition set_scratch (l : bytes) w := mkWriter (transport w) (pending w) l (last_flush w)
  (window w) (hard_limit w) (direct w) (pushed w) (written w) (flushes w) (clock w) (ticks w).
Definition set_last_flush (z : Z) w := mkWriter (transport w) (pending w) (scratch w) z
  (window w) (hard_limit w) (direct w) (pushed w) (written w) (flushes w) (clock w) (ticks w).
Definition set_stats (p n f : Z) w := mkWriter (transport w) (pending w) (scratch w)
  (last_flush w) (window w) (hard_limit w) (direct w) p n f (clock w) (ticks w).
Definition set_ticks (n : nat) w := mkWriter (transport w) (pending w) (scratch w)
  (last_flush w) (window w) (hard_limit w) (direct w) (pushed w) (written w) (flushes w)
  (clock w) n.
End Setters.

(** ** Encoders of UHID_INPUT frames *)

Definition INPUT_TAG : Z := ControlMsgType_as_u8 Ty_UhidInput.

(** [push_uhid_input_to_buf]; [size] is a [usize]. *)
Definition push_uhid_input_to_buf (id size : Z) (data : bytes) : writer unit :=
  if decide (Z.of_nat HID_MAX_SIZE < size ∨ Z.of_nat (length data) < size) then
    raise (ControlMessageTooLarge size (Z.of_nat HID_MAX_SIZE + 5))
  else
    Message.push INPUT_TAG;;
    extend (be_bytes 2 id);;
    extend (be_bytes 2 (wrap 16 size));;
    extend (take (Z.to_nat size) data).

Definition push_gamepad_input_to_buf (id : Z) (data : bytes) : writer unit :=
  Message.push INPUT_TAG;;
  extend (be_bytes 2 id);;
  extend (be_bytes 2 GAMEPAD_REPORT_SIZE_U16);;
  extend data.

(** [encode_gamepad_input_slice] into a 20-byte slice, every byte of which it
    overwrites. *)
Definition encode_gamepad_input_slice (id : Z) (data : bytes) : bytes :=
  [INPUT_TAG] ++ be_bytes 2 id ++ be_bytes 2 GAMEPAD_REPORT_SIZE_U16 ++ data.

Definition encode_gamepad_input_to_array (id : Z) (data : bytes) : bytes :=
  encode_gamepad_input_slice id data.

Definition rescale_stick (v : Z) : Z := wrap 16 (v + 0x8000).
Definition rescale_trigger (v : Z) : Z := Z.min (wrap 16 (Z.max v 0)) 0x7FFF.

Definition push_gamepad_input_fields_to_buf (id : Z) (frame : GamepadFrameRaw) : writer unit :=
  Message.push INPUT_TAG;;
  extend (be_bytes 2 id);;
  extend (be_bytes 2 GAMEPAD_REPORT_SIZE_U16);;
  extend (le_bytes 2 (rescale_stick (fr_left_x frame)));;
  extend (le_bytes 2 (rescale_stick (fr_left_y frame)));;
  extend (le_bytes 2 (rescale_stick (fr_right_x frame)));;
  extend (le_bytes 2 (rescale_stick (fr_right_y frame)));;
  extend (le_bytes 2 (rescale_trigger (fr_left_trigger frame)));;
  extend (le_bytes 2 (rescale_trigger (fr_right_trigger frame)));;
  extend (le_bytes 2 (wrap 16 (fr_buttons frame)));;
  Message.push (dpad_hat_value (fr_buttons frame)).

(** The array twin of the above: [buf[5..7]], [buf[7..9]], ..., [buf[19]]. *)
Definition encode_gamepad_input_fields_slice (id : Z) (frame : GamepadFrameRaw) : bytes :=
  [INPUT_TAG] ++ be_bytes 2 id ++ be_bytes 2 GAMEPAD_REPORT_SIZE_U16
  ++ le_bytes 2 (rescale_stick (fr_left_x frame))
  ++ le_bytes 2 (rescale_stick (fr_left_y frame))
  ++ le_bytes 2 (rescale_stick (fr_right_x frame))
  ++ le_bytes 2 (rescale_stick (fr_right_y frame))
  ++ le_bytes 2 (rescale_trigger (fr_left_trigger frame))
  ++ le_bytes 2 (rescale_trigger (fr_right_trigger frame))
  ++ le_bytes 2 (wrap 16 (fr_buttons frame))
  ++ [dpad_hat_value (fr_buttons frame)].

(** [GamepadFrameRaw::pack] *)
Definition pack (frame : GamepadFrameRaw) : bytes :=
  le_bytes 2 (rescale_stick (fr_left_x frame))
  ++ le_bytes 2 (rescale_stick (fr_left_y frame))
  ++ le_bytes 2 (rescale_stick (fr_right_x frame))
  ++ le_bytes 2 (rescale_stick (fr_right_y frame))
  ++ le_bytes 2 (rescale_trigger (fr_left_trigger frame))
  ++ le_bytes 2 (rescale_trigger (fr_right_trigger frame))
  ++ le_bytes 2 (wrap 16 (fr_buttons frame))
  ++ [dpad_hat_value (fr_buttons frame)].

Definition encode_gamepad_input_fields_to_array (id : Z) (frame : GamepadFrameRaw) : bytes :=
  encode_gamepad_input_fields_slice id frame.

(** [encode_uhid_input_to_array]: the used prefix [raw[..serialized_len]]. *)
Definition encode_uhid_input_to_array (id size : Z) (data : bytes) : outcome Error bytes :=
  if decide (Z.of_nat HID_MAX_SIZE < size ∨ Z.of_nat (length data) < size) then
    Err (ControlMessageTooLarge size (Z.of_nat HID_MAX_SIZE + 5))
  else
    Ok ([INPUT_TAG] ++ be_bytes 2 id ++ be_bytes 2 (wrap 16 size)
        ++ take (Z.to_nat size) data).

(** ** The writer *)

Section Writer.
Context {T : Type} `{!TransportWrite T}.
Abbreviation W := (CoalescingWriter T).

Definition with_limits (t : T) (win limit : Z) (clk : nat → Z) : W :=
  mkWriter t [] [] (clk 0%nat) win limit ((limit =? 0) && (win =? 0)) 0 0 0 clk 1.

Definition new (t : T) (clk : nat → Z) : W :=
  with_limits t DEFAULT_WINDOW DEFAULT_HARD_LIMIT clk.

Definition direct_writer (t : T) (clk : nat → Z) : W := with_limits t 0 0 clk.

(** [Instant::now()] *)
Definition now : cmd W Error Z := λ w, (Ok (clock w (ticks w)), set_ticks (S (ticks w)) w).

(** [self.last_flush.elapsed()], which saturates at zero. *)
Definition elapsed : cmd W Error Z :=
  t ← now; last ← read last_flush; mret (Z.max 0 (t - last)).

Definition on_transport {A} (c : cmd T Error A) : cmd W Error A :=
  zoom transport set_transport c.
Definition on_pending {A} (c : writer A) : cmd W Error A := zoom pending set_pending c.
Definition on_scratch {A} (c : writer A) : cmd W Error A := zoom scratch set_scratch c.

(** [self.pushed += n], [self.written += n; self.flushes += 1],
    [self.last_flush = Instant::now()]. *)
Definition count_pushed (n : Z) : cmd W Error unit :=
  modify (λ w, set_stats (wrap 64 (pushed w + wrap 64 n)) (written w) (flushes w) w).
Definition count_written (n : Z) : cmd W Error unit :=
  modify (λ w, set_stats (pushed w) (wrap 64 (written w + wrap 64 n))
                 (wrap 64 (flushes w + 1)) w).
Definition touch_last_flush : cmd W Error unit :=
  t ← now; modify (set_last_flush t).

Definition push_message_to_scratch (msg : ControlMessage) : cmd W Error unit :=
  modify (set_scratch []);; _ ← on_scratch (serialize_into msg); mret tt.

Definition flush_now : cmd W Error Z :=
  buf ← read pending;
  if decide (buf = []) then touch_last_flush;; mret 0
  else
    let n := Z.of_nat (length buf) in
    on_transport (write_all buf);;
    on_transport flush;;
    modify (set_pending []);;
    touch_last_flush;;
    count_written n;;
    mret n.

(** The end of every buffered push: force-flush at the hard limit, then the window
    check. *)
Definition after_append : cmd W Error FlushReason :=
  buf ← read pending;
  limit ← read hard_limit;
  if decide (limit ≤ Z.of_nat (length buf)) then flush_now;; mret Full
  else
    e ← elapsed;
    win ← read window;
    if decide (win ≤ e ∧ buf ≠ []) then flush_now;; mret Window
    else mret Pending.

(** The direct-mode write of one frame. *)
Definition write_direct (raw : bytes) : cmd W Error unit :=
  on_transport (write_all raw);;
  on_transport flush;;
  count_written (Z.of_nat (length raw));;
  touch_last_flush.

Definition push_gamepad_input_fields (id : Z) (frame : GamepadFrameRaw) :
    cmd W Error FlushReason :=
  d ← read direct;
  if (d : bool) then
    count_pushed 1;;
    write_direct (encode_gamepad_input_fields_to_array id frame);;
    mret Window
  else
    count_pushed 1;;
    on_pending (push_gamepad_input_fields_to_buf id frame);;
    after_append.

Definition push_uhid_input (id size : Z) (data : bytes) : cmd W Error FlushReason :=
  d ← read direct;
  if (d : bool) then
    count_pushed 1;;
    raw ← lift (encode_uhid_input_to_array id size data);
    write_direct raw;;
    mret Window
  else
    count_pushed 1;;
    on_pending (push_uhid_input_to_buf id size data);;
    after_append.

Definition push_gamepad_input (id : Z) (data : bytes) : cmd W Error FlushReason :=
  d ← read direct;
  if (d : bool) then
    count_pushed 1;;
    write_direct (encode_gamepad_input_to_array id data);;
    mret Window
  else
    count_pushed 1;;
    on_pending (push_gamepad_input_to_buf id data);;
    after_append.

(** [xs.chunks(n)] *)
Fixpoint chunks {X} (fuel n : nat) (xs : list X) : list (list X) :=
  match fuel, xs with
  | _, [] => []
  | O, _ => []
  | S fuel, _ => take n xs :: chunks fuel n (drop n xs)
  end.

(** The loop that appends one frame at a time and force-flushes as it goes. *)
Fixpoint batch_loop {X} (append : X → writer unit) (xs : list X) (reason : FlushReason) :
    cmd W Error FlushReason :=
  match xs with
  | [] => mret reason
  | x :: xs =>
      on_pending (append x);;
      buf ← read pending;
      limit ← read hard_limit;
      if decide (limit ≤ Z.of_nat (length buf))
      then flush_now;; batch_loop append xs Full
      else batch_loop append xs reason
  end.

(** The window check that ends a buffered batch. *)
Definition batch_window (reason : FlushReason) : cmd W Error FlushReason :=
  e ← elapsed;
  win ← read window;
  buf ← read pending;
  if decide (win ≤ e ∧ buf ≠ []) then flush_now;; mret Window
  else mret reason.

(** The two batch pushes are the same code over the two encoders: [encode] fills the
    direct buffer, [append] the pending one, [single] takes a batch of one. *)
Definition push_batch {X} (single : X → cmd W Error FlushReason) (encode : X → bytes)
    (append : X → writer unit) (xs : list X) : cmd W Error FlushReason :=
  match xs with
  | [] => mret Pending
  | [x] => single x
  | _ =>
      d ← read direct;
      if (d : bool) then
        count_pushed (Z.of_nat (length xs));;
        for_each (chunks (length xs) DIRECT_GAMEPAD_BATCH_FRAMES xs)
          (λ chunk, on_transport (write_all (chunk ≫= encode)));;
        on_transport flush;;
        count_written (Z.of_nat (length (xs ≫= encode)));;
        touch_last_flush;;
        mret Window
      else
        count_pushed (Z.of_nat (length xs));;
        let frame_bytes := Z.of_nat (length xs) * (Z.of_nat 15 + 5) in
        buf ← read pending;
        limit ← read hard_limit;
        if decide (Z.of_nat (length buf) + frame_bytes ≤ limit) then
          for_each xs (λ x, on_pending (append x));;
          batch_window Pending
        else
          reason ← batch_loop append xs Pending;
          batch_window reason
  end.

Definition push_gamepad_input_batch (id : Z) (data : list bytes) : cmd W Error FlushReason :=
  push_batch (push_gamepad_input id) (encode_gamepad_input_slice id)
    (push_gamepad_input_to_buf id) data.

Definition push_gamepad_input_batch_from_fields (id : Z) (frames : list GamepadFrameRaw) :
    cmd W Error FlushReason :=
  push_batch (push_gamepad_input_fields id) (encode_gamepad_input_fields_slice id)
    (push_gamepad_input_fields_to_buf id) frames.

(** [std::mem::take(&mut self.scratch)] *)
Definition take_scratch : cmd W Error bytes :=
  buf ← read scratch; modify (set_scratch []);; mret buf.

Definition push_direct (msg : ControlMessage) : cmd W Error FlushReason :=
  count_pushed 1;;
  match msg with
  | Cm_UhidInput input =>
      raw ← lift (encode_uhid_input_to_array (ui_id input) (ui_size input) (ui_data input));
      write_direct raw
  | _ =>
      push_message_to_scratch msg;;
      serialized ← take_scratch;
      write_direct serialized
  end;;
  mret (if is_critical msg then Critical else Window).

(** [CoalescingWriter::push] *)
Definition push (msg : ControlMessage) : cmd W Error FlushReason :=
  d ← read direct;
  if (d : bool) then push_direct msg
  else
    count_pushed 1;;
    if is_critical msg then
      _ ← flush_now;
      push_message_to_scratch msg;;
      serialized ← take_scratch;
      on_transport (write_all serialized);;
      on_transport flush;;
      count_written (Z.of_nat (length serialized));;
      mret Critical
    else
      match msg with
      | Cm_UhidInput input =>
          on_pending (push_uhid_input_to_buf (ui_id input) (ui_size input) (ui_data input))
      | _ =>
          push_message_to_scratch msg;;
          buf ← read scratch;
          on_pending (extend buf)
      end;;
      after_append.

Definition pending_bytes (w : W) : Z := Z.of_nat (length (pending w)).
Definition is_direct (w : W) : bool := direct w.

(** The messages pushed per transport write. *)
Definition messages_per_flush (w : W) : f64 :=
  f64_div (f64_of_Z (pushed w)) (f64_of_Z (Z.max (flushes w) 1)).

(** [Drop::drop]: flush the remainder; an error is discarded, and so is an unwind
    ([catch_unwind]), which leaves the writer as the flush left it. *)
Definition drop_writer : cmd W Error unit := λ w, (Ok tt, (flush_now w).2).

(** [into_inner]: flush, then give the transport back without running [Drop]; on an
    error the writer is dropped, which tries once more. *)
Definition into_inner (w : W) : outcome Error T * T :=
  match flush_now w with
  | (Ok _, w') => (Ok (transport w'), transport w')
  | (Err e, w') => (Err e, transport (drop_writer w').2)
  | (Panicked, w') => (Panicked, transport (drop_writer w').2)
  end.
End Writer.

(** ** What a run of the writer commits *)

Section WriterLaws.
Context {T : Type} `{!TransportWrite T, !LawfulTransport T}.
Abbreviation W := (CoalescingWriter T).
Implicit Types w : W.

(** The bytes sent and to be sent, in order. *)
Definition committed w : bytes := wire (transport w) ++ pending w.

(** The fields no operation changes. *)
Definition config w : Z * Z * bool * (nat → Z) := (window w, hard_limit w, direct w, clock w).

(** How a failed operation that was to commit [f] can leave the writer: the pending
    bytes, with or without [f], are all still pending, though a prefix of them may have
    been sent too; or all of them were sent, and then a prefix of [f]. *)
Definition interrupted (f : bytes) w w' : Prop :=
  (∃ g n, (g = [] ∨ g = f) ∧ pending w' = pending w ++ g ∧
          wire (transport w') = wire (transport w) ++ take n (pending w ++ g)) ∨
  (∃ n, pending w' = [] ∧
        wire (transport w') = wire (transport w) ++ pending w ++ take n f).

Definition commits {A} (f : bytes) w (r : outcome Error A * W) : Prop :=
  config r.2 = config w ∧
  if is_ok r.1 then committed r.2 = committed w ++ f else interrupted f w r.2.

(** A healthy transport never makes an operation fail. *)
Lemma elapsed_run w :
  ∃ e w', elapsed w = (Ok e, w') ∧ e = Z.max 0 (clock w (ticks w) - last_flush w) ∧
          w' = set_ticks (S (ticks w)) w.
Proof. unfold elapsed, now. run. eauto. Qed.

Lemma flush_now_spec w :
  let r := flush_now w in
  config r.2 = config w ∧ pushed r.2 = pushed w ∧
  match r.1 with
  | Ok n => pending r.2 = [] ∧ n = Z.of_nat (length (pending w)) ∧
            wire (transport r.2) = wire (transport w) ++ pending w
  | _ => pending r.2 = pending w ∧
         ∃ n, wire (transport r.2) = wire (transport w) ++ take n (pending w)
  end.
Proof.
  unfold flush_now, touch_last_flush, now. run. case_decide as Hp.
  { rewrite Hp.
    cbn. split_and!; try done. by rewrite app_nil_r. }
  unfold on_transport, zoom. run.
  pose proof (write_flush_wire (pending w) (transport w)) as Hw.
  pose proof (write_flush_ok (pending w) (transport w)) as Hok. revert Hw Hok. run.
  destruct (write_all (pending w) (transport w)) as [[[]|e|] t1]; cbn -[wire];
    [|intros; split_and!; done..].
  change (transport (set_transport t1 w)) with t1.
  destruct (flush t1) as [[[]|e|] t2] eqn:Ef; cbn -[wire]; intros Hw Hok;
    split_and!; try done; by apply Hok.
Qed.

Lemma flush_now_commits w : commits [] w (flush_now w).
Proof.
  pose proof (flush_now_spec w) as (Hc & _ & Hm). split; [done|]. unfold committed.
  destruct (flush_now w) as [[n|e|] w']; cbn [fst snd is_ok] in *.
  - destruct Hm as (-> & _ & ->). by rewrite !app_nil_r.
  - destruct Hm as (Hp & n & Hw). left. exists [], n. rewrite app_nil_r. auto.
  - destruct Hm as (Hp & n & Hw). left. exists [], n. rewrite app_nil_r. auto.
Qed.

Lemma flush_now_reliable `{!ReliableTransport T} w : is_ok (flush_now w).1 = true.
Proof.
  unfold flush_now. run. case_decide; [done|].
  unfold on_transport, zoom. run.
  pose proof (write_all_reliable (transport w) (pending w)) as H1.
  destruct (write_all (pending w) (transport w)) as [o t1]. cbn in H1. subst o.
  change (transport (set_transport t1 w)) with t1.
  pose proof (flush_reliable t1) as H2. destruct (flush t1) as [o t2]. cbn in H2. by subst o.
Qed.

(** *** The end of a buffered push *)

Lemma after_append_spec w :
  let r := after_append w in
  config r.2 = config w ∧
  match r.1 with
  | Ok reason =>
      committed r.2 = committed w ∧
      match reason with
      | Pending => pending r.2 = pending w ∧ Z.of_nat (length (pending w)) < hard_limit w ∧
                   (pending w ≠ [] → Z.max 0 (clock w (ticks w) - last_flush w) < window w)
      | Full | Window => pending r.2 = []
      | Critical => False
      end
  | _ => pending r.2 = pending w ∧
         ∃ n, wire (transport r.2) = wire (transport w) ++ take n (pending w)
  end.
Proof.
  unfold after_append. run. case_decide as Hl.
  - pose proof (flush_now_spec w) as (Hc & _ & Hm). unfold committed.
    destruct (flush_now w) as [[n|e|] w']; cbn [fst snd] in *; [|done|done].
    destruct Hm as (-> & _ & ->). by rewrite app_nil_r.
  - destruct (elapsed_run w) as (e & w1 & He & Hev & Hw1). rewrite He.
    assert (pending w1 = pending w ∧ transport w1 = transport w ∧ window w1 = window w ∧
            config w1 = config w) as (Ep & Et & Ew & Ec) by (by subst w1).
    rewrite Ew. clear Hw1. case_decide as Hwin.
    + pose proof (flush_now_spec w1) as (Hc & _ & Hm). unfold committed.
      rewrite Ec, Ep, Et in *.
      destruct (flush_now w1) as [[n|e'|] w']; cbn [fst snd] in *; [|done|done].
      destruct Hm as (-> & _ & ->). by rewrite app_nil_r.
    + cbn [fst snd]. unfold committed. rewrite Ep, Et. split; [done|].
      split; [done|]. split; [done|]. split; [lia|]. intros Hne. rewrite <-Hev.
      apply Z.nle_gt. tauto.
Qed.

Lemma after_append_reliable `{!ReliableTransport T} w : is_ok (after_append w).1 = true.
Proof.
  unfold after_append. run. case_decide.
  - pose proof (flush_now_reliable w). by destruct (flush_now w) as [[]].
  - destruct (elapsed_run w) as (e & w1 & -> & _). case_decide; [|done].
    pose proof (flush_now_reliable w1). by destruct (flush_now w1) as [[]].
Qed.

(** Appending [f] to the pending bytes, then [after_append]. *)
Lemma append_commits f w w1 :
  config w1 = config w → transport w1 = transport w → pending w1 = pending w ++ f →
  commits f w (after_append w1).
Proof.
  intros Ec Et Ep. pose proof (after_append_spec w1) as (Hc & Hm).
  split; [by rewrite Hc|]. unfold committed in *. rewrite Et, Ep in Hm.
  destruct (after_append w1) as [[r|e|] w']; cbn [fst snd is_ok] in *.
  - destruct Hm as (-> & _). by rewrite app_assoc.
  - destruct Hm as (Hp & n & Hw). left. exists f, n. auto.
  - destruct Hm as (Hp & n & Hw). left. exists f, n. auto.
Qed.

(** *** Direct writes *)

Lemma write_direct_spec raw w :
  let r := write_direct raw w in
  config r.2 = config w ∧ pending r.2 = pending w ∧
  if is_ok r.1 then wire (transport r.2) = wire (transport w) ++ raw
  else ∃ n, wire (transport r.2) = wire (transport w) ++ take n raw.
Proof.
  unfold write_direct, touch_last_flush, now, count_written, on_transport, zoom. run.
  pose proof (write_flush_wire raw (transport w)) as Hw.
  pose proof (write_flush_ok raw (transport w)) as Hok. revert Hw Hok. run.
  destruct (write_all raw (transport w)) as [[[]|e|] t1]; cbn -[wire];
    [|intros; split_and!; done..].
  change (transport (set_transport t1 w)) with t1.
  destruct (flush t1) as [[[]|e|] t2] eqn:Ef; cbn -[wire]; intros Hw Hok;
    split_and!; try done; by apply Hok.
Qed.

Lemma write_direct_reliable `{!ReliableTransport T} raw w : is_ok (write_direct raw w).1 = true.
Proof.
  unfold write_direct, on_transport, zoom. run.
  pose proof (write_all_reliable (transport w) raw) as H1.
  destruct (write_all raw (transport w)) as [o t1]. cbn in H1. subst o.
  change (transport (set_transport t1 w)) with t1.
  pose proof (flush_reliable t1) as H2. destruct (flush t1) as [o t2]. cbn in H2. by subst o.
Qed.

(** *** Encoders *)

Definition input_frame (id size : Z) (data : bytes) : bytes :=
  [INPUT_TAG] ++ be_bytes 2 id ++ be_bytes 2 (wrap 16 size) ++ take (Z.to_nat size) data.

Lemma uhid_input_to_buf_run id size data buf :
  push_uhid_input_to_buf id size data buf =
  match encode_uhid_input_to_array id size data with
  | Ok f => (Ok tt, buf ++ f)
  | Err e => (Err e, buf)
  | Panicked => (Panicked, buf)
  end.
Proof.
  unfold push_uhid_input_to_buf, encode_uhid_input_to_array. case_decide; [done|].
  unfold Message.push, extend. run. by rewrite <-!app_assoc.
Qed.

Lemma encode_uhid_input_serialize i :
  ControlMessage_wf (Cm_UhidInput i) →
  match encode_uhid_input_to_array (ui_id i) (ui_size i) (ui_data i) with
  | Ok f => serialize (Cm_UhidInput i) = Ok f
  | Err _ => is_ok (serialize (Cm_UhidInput i)) = false
  | Panicked => False
  end.
Proof.
  intros Hwf. pose proof Hwf as (Hid & Hs & Hl & _). unfold encode_uhid_input_to_array.
  rewrite Hl. unfold HID_MAX_SIZE. widths. case_decide as Hd.
  - rewrite serialize_rejected; [done|done|]. cbn. lia.
  - assert (serialize_payload (Cm_UhidInput i) [] =
      (Ok tt, be_bytes 2 (ui_id i) ++ be_bytes 2 (wrap 16 (ui_size i))
              ++ take (Z.to_nat (ui_size i)) (ui_data i))) as E.
    { cbn [serialize_payload]. unfold serialize_uhid_input, write_u16_be, extend. run.
      rewrite decide_False by (unfold HID_MAX_SIZE; lia). run.
      rewrite decide_True by (rewrite Hl; unfold HID_MAX_SIZE; lia). run.
      rewrite wrap_small by (widths; lia). by rewrite <-!app_assoc. }
    unfold serialize, serialize_into. rewrite message_run, E. cbn [app length fst snd].
    rewrite (proj2 (Z.ltb_ge _ _)); [done|].
    rewrite !length_app, !length_be_bytes, length_take.
    unfold CONTROL_MSG_MAX_SIZE. lia.
Qed.

Lemma gamepad_to_buf_run id data buf :
  push_gamepad_input_to_buf id data buf = (Ok tt, buf ++ encode_gamepad_input_slice id data).
Proof.
  unfold push_gamepad_input_to_buf, encode_gamepad_input_slice, Message.push, extend. run.
  by rewrite <-!app_assoc.
Qed.

Lemma gamepad_fields_to_buf_run id fr buf :
  push_gamepad_input_fields_to_buf id fr buf =
  (Ok tt, buf ++ encode_gamepad_input_fields_slice id fr).
Proof.
  unfold push_gamepad_input_fields_to_buf, encode_gamepad_input_fields_slice,
    Message.push, extend. run. by rewrite <-!app_assoc.
Qed.

Lemma push_scratch_run m w :
  match serialize m with
  | Ok f => push_message_to_scratch m w = (Ok tt, set_scratch f w)
  | Err e => push_message_to_scratch m w = (Err e, set_scratch [] w)
  | Panicked => ∃ l, push_message_to_scratch m w = (Panicked, set_scratch l w)
  end.
Proof.
  unfold push_message_to_scratch, on_scratch, zoom. run. cbn [scratch set_scratch].
  pose proof (serialize_into_run m []) as H. destruct (serialize m) as [f|e|].
  - by rewrite H.
  - by rewrite H.
  - destruct H as [l ->]. by exists l.
Qed.

(** *** [push] *)

(** Direct writers hold nothing back. *)
Definition writer_wf w : Prop := direct w = true → pending w = [].

(** The frame a push is to commit; none for a message the serializer refuses. *)
Definition frame_of (m : ControlMessage) : bytes :=
  match serialize m with Ok f => f | _ => [] end.

Lemma interrupted_refl f w w' :
  pending w' = pending w → transport w' = transport w → interrupted f w w'.
Proof.
  intros Hp Ht. left. exists [], 0%nat. rewrite Ht, !app_nil_r. auto.
Qed.

(** A command that refuses before touching pending bytes and transport. *)
Lemma refused_commits {A} f w (o : outcome Error A) w' :
  is_ok o = false → config w' = config w → pending w' = pending w →
  transport w' = transport w → commits f w (o, w').
Proof.
  intros Ho Hc Hp Ht. split; [done|]. cbn [fst snd]. rewrite Ho. by apply interrupted_refl.
Qed.

Lemma write_direct_commits {A} raw w w1 (a : A) :
  config w1 = config w → transport w1 = transport w → pending w1 = pending w →
  pending w = [] →
  commits raw w ((write_direct raw;; mret a) w1).
Proof.
  intros Hc Ht Hp H0. pose proof (write_direct_spec raw w1) as (Hc' & Hp' & Hw).
  run. destruct (write_direct raw w1) as [[[]|e|] w2]; cbn [fst snd is_ok] in *.
  - split; [cbn; congruence|]. cbn [fst snd is_ok]. unfold committed.
    rewrite Hw, Hp', Hp, Ht, H0. by rewrite !app_nil_r.
  - split; [cbn; congruence|]. cbn [fst snd is_ok]. right. destruct Hw as [n Hw].
    exists n. rewrite Hw, Hp', Hp, Ht, H0. done.
  - split; [cbn; congruence|]. cbn [fst snd is_ok]. right. destruct Hw as [n Hw].
    exists n. rewrite Hw, Hp', Hp, Ht, H0. done.
Qed.

Lemma frame_of_ok m f : serialize m = Ok f → frame_of m = f.
Proof. unfold frame_of. by intros ->. Qed.

Lemma frame_of_input i :
  ControlMessage_wf (Cm_UhidInput i) →
  match encode_uhid_input_to_array (ui_id i) (ui_size i) (ui_data i) with
  | Ok f => frame_of (Cm_UhidInput i) = f
  | _ => True
  end.
Proof.
  intros Hwf. pose proof (encode_uhid_input_serialize i Hwf) as H.
  destruct (encode_uhid_input_to_array _ _ _); [|done..]. by apply frame_of_ok.
Qed.

(** Serializing into the scratch buffer, then writing it out directly. *)
Lemma scratch_direct_commits {A} m w w1 (a : A) :
  config w1 = config w → transport w1 = transport w → pending w1 = pending w →
  pending w = [] →
  commits (frame_of m) w
    (((push_message_to_scratch m;; serialized ← take_scratch; write_direct serialized);;
      mret a) w1).
Proof.
  intros Hc Ht Hp H0. pose proof (push_scratch_run m w1) as H. run.
  destruct (serialize m) as [f|e|] eqn:E.
  - rewrite H. unfold take_scratch. run. rewrite (frame_of_ok m f E). cbn [scratch set_scratch].
    apply (write_direct_commits f w (set_scratch [] (set_scratch f w1)) a); done.
  - rewrite H. by apply refused_commits.
  - destruct H as [l ->]. by apply refused_commits.
Qed.

Lemma push_direct_commits m w :
  ControlMessage_wf m → pending w = [] → commits (frame_of m) w (push_direct m w).
Proof.
  intros Hwf H0. unfold push_direct, count_pushed. run.
  destruct m as [c|i|d|k|t|t|t|b|g|sc|on|n|on|wd ht| | | | | | | | |c|q|];
    try exact (scratch_direct_commits _ w (set_stats _ _ _ w) _ eq_refl eq_refl eq_refl H0).
  pose proof (frame_of_input i Hwf) as Hf. run.
  destruct (encode_uhid_input_to_array (ui_id i) (ui_size i) (ui_data i)) as [f|e|].
  - rewrite Hf. exact (write_direct_commits f w (set_stats _ _ _ w) _ eq_refl eq_refl eq_refl H0).
  - by apply refused_commits.
  - by apply refused_commits.
Qed.

(** The critical path of a buffered writer: flush, then write the message itself. *)
Definition push_critical (m : ControlMessage) : cmd W Error FlushReason :=
  _ ← flush_now;
  push_message_to_scratch m;;
  serialized ← take_scratch;
  on_transport (write_all serialized);;
  on_transport flush;;
  count_written (Z.of_nat (length serialized));;
  mret Critical.

Lemma push_critical_spec m w :
  let r := push_critical m w in
  commits (frame_of m) w r ∧
  (is_ok r.1 = true → r.1 = Ok Critical ∧ pending r.2 = [] ∧ is_ok (serialize m) = true).
Proof.
  unfold push_critical. run. pose proof (flush_now_spec w) as (Hc & _ & Hm).
  destruct (flush_now w) as [[n|e|] w1]; cbn [fst snd] in *.
  2,3: destruct Hm as (Hp & n & Hw); split; [|done]; split; [done|]; left;
       exists [], n; rewrite app_nil_r; auto.
  destruct Hm as (Hp & _ & Hw).
  pose proof (push_scratch_run m w1) as H. destruct (serialize m) as [f|e|] eqn:E.
  2: { rewrite H. split; [|done]. split; [done|]. right. exists 0%nat.
       split; [done|]. cbn [snd]. unfold frame_of. rewrite E. cbn [take].
       by rewrite app_nil_r. }
  2: { destruct H as [l ->]. split; [|done]. split; [done|]. right. exists 0%nat.
       split; [done|]. cbn [snd]. unfold frame_of. rewrite E. cbn [take].
       by rewrite app_nil_r. }
  rewrite H, (frame_of_ok m f E). unfold take_scratch, on_transport, zoom. run.
  cbn [scratch set_scratch transport].
  pose proof (write_flush_wire f (transport w1)) as Hw'.
  pose proof (write_flush_ok f (transport w1)) as Hok. revert Hw' Hok. run.
  destruct (write_all f (transport w1)) as [[[]|e|] t1]; cbn -[wire].
  2,3: intros [n' Hn'] _; split; [|done]; split; [done|]; right; exists n';
       split; [done|]; cbn -[wire]; by rewrite Hn', Hw, app_assoc.
  change (transport (set_transport t1 _)) with t1.
  destruct (flush t1) as [[[]|e|] t2]; cbn -[wire].
  2,3: intros [n' Hn'] _; split; [|done]; split; [done|]; right; exists n';
       split; [done|]; cbn -[wire]; by rewrite Hn', Hw, app_assoc.
  intros _ Hok. specialize (Hok t2 eq_refl). split; [|done]. split; [done|].
  cbn -[wire]. unfold committed. cbn -[wire]. by rewrite Hok, Hp, Hw, app_nil_r.
Qed.

(** The buffered path of a droppable message. *)
Definition append_message (m : ControlMessage) : cmd W Error unit :=
  match m with
  | Cm_UhidInput input =>
      on_pending (push_uhid_input_to_buf (ui_id input) (ui_size input) (ui_data input))
  | _ =>
      push_message_to_scratch m;;
      buf ← read scratch;
      on_pending (extend buf)
  end.

Lemma append_message_spec m w :
  ControlMessage_wf m →
  let r := append_message m w in
  config r.2 = config w ∧ transport r.2 = transport w ∧
  ticks r.2 = ticks w ∧ last_flush r.2 = last_flush w ∧
  if is_ok r.1 then pending r.2 = pending w ++ frame_of m ∧ is_ok (serialize m) = true
  else pending r.2 = pending w ∧ is_ok (serialize m) = false.
Proof.
  intros Hwf. cbn zeta.
  assert (∀ m, let r := (push_message_to_scratch m;; buf ← read scratch;
                         on_pending (extend buf)) w in
    config r.2 = config w ∧ transport r.2 = transport w ∧
    ticks r.2 = ticks w ∧ last_flush r.2 = last_flush w ∧
    if is_ok r.1 then pending r.2 = pending w ++ frame_of m ∧ is_ok (serialize m) = true
    else pending r.2 = pending w ∧ is_ok (serialize m) = false) as Hother.
  { clear. intros m. run. pose proof (push_scratch_run m w) as H. unfold frame_of.
    destruct (serialize m) as [f|e|].
    - by rewrite H.
    - by rewrite H.
    - by destruct H as [l ->]. }
  destruct m; try exact (Hother _). unfold append_message, on_pending, zoom.
  pose proof (encode_uhid_input_serialize i Hwf) as H.
  rewrite uhid_input_to_buf_run. unfold frame_of.
  destruct (encode_uhid_input_to_array (ui_id i) (ui_size i) (ui_data i)) as [f|e|].
  - by rewrite H.
  - by destruct (serialize (Cm_UhidInput i)).
  - done.
Qed.

Lemma push_unfold m w :
  push m w =
  if direct w then push_direct m w
  else (count_pushed 1;; if is_critical m then push_critical m
                         else append_message m;; after_append) w.
Proof. unfold push. run. destruct (direct w); [done|]. by destruct m. Qed.

(** What a successful push leaves behind. *)
Definition settled (m : ControlMessage) w (reason : FlushReason) w' : Prop :=
  if direct w then pending w' = [] ∧ reason = (if is_critical m then Critical else Window)
  else if is_critical m then pending w' = [] ∧ reason = Critical
  else match reason with
       | Pending =>
           Z.of_nat (length (pending w')) < hard_limit w ∧
           (pending w' ≠ [] → Z.max 0 (clock w (ticks w) - last_flush w) < window w)
       | Full | Window => pending w' = []
       | Critical => False
       end.

Lemma push_buffered_spec m w :
  ControlMessage_wf m → direct w = false → is_critical m = false →
  let r := (append_message m;; after_append) w in
  commits (frame_of m) w r ∧
  ∀ reason, r.1 = Ok reason → is_ok (serialize m) = true ∧ settled m w reason r.2.
Proof.
  intros Hwf Hd Hcrit. cbn zeta. run.
  pose proof (append_message_spec m w Hwf) as (Hc & Ht & Hti & Hl & Hm).
  destruct (append_message m w) as [[[]|e|] w1]; cbn [fst snd is_ok] in *.
  2,3: destruct Hm as [Hp _]; split; [by apply refused_commits|done].
  destruct Hm as [Hp Hser]. split; [by apply append_commits|].
  pose proof (after_append_spec w1) as (Hc' & Hm). intros reason Hr. rewrite Hr in Hm.
  destruct Hm as [_ Hm]. split; [done|]. unfold settled. rewrite Hd, Hcrit.
  assert (hard_limit w1 = hard_limit w ∧ window w1 = window w ∧ clock w1 = clock w)
    as (Eh & Ew & Ecl) by (unfold config in Hc; by simplify_eq).
  destruct reason; try done. destruct Hm as (Hp' & Hlen & Hwin).
  rewrite Eh, Ew, Ecl, Hti, Hl in *. by rewrite Hp'.
Qed.

Lemma push_direct_settled m w reason :
  ControlMessage_wf m → direct w = true → pending w = [] →
  (push_direct m w).1 = Ok reason →
  is_ok (serialize m) = true ∧ settled m w reason (push_direct m w).2.
Proof.
  intros Hwf Hd Hw. unfold settled. rewrite Hd. unfold push_direct, count_pushed. run.
  assert (∀ m', let w1 := set_stats (wrap 64 (pushed w + wrap 64 1)) (written w) (flushes w) w in
    let r := (push_message_to_scratch m';; serialized ← take_scratch;
              write_direct serialized) w1 in
    is_ok r.1 = true → is_ok (serialize m') = true ∧ pending r.2 = []) as Hother.
  { clear -Hw TransportWrite0 LawfulTransport0. intros m' w1 r. subst r. run.
    pose proof (push_scratch_run m' w1) as H. destruct (serialize m') as [f|e|].
    - rewrite H. unfold take_scratch. run. cbn [scratch set_scratch].
      pose proof (write_direct_spec f (set_scratch [] (set_scratch f w1))) as (_ & -> & _).
      done.
    - by rewrite H.
    - by destruct H as [l ->]. }
  assert (∀ (c : cmd W Error unit) w1,
    (is_ok (c w1).1 = true → is_ok (serialize m) = true ∧ pending (c w1).2 = []) →
    ((c;; mret (if is_critical m then Critical else Window)) w1).1 = Ok reason →
    is_ok (serialize m) = true ∧
    pending ((c;; mret (if is_critical m then Critical else Window)) w1).2 = [] ∧
    reason = (if is_critical m then Critical else Window)) as Hseq.
  { intros c w1 Hc. run. destruct (c w1) as [[[]|e|] w2]; cbn [fst snd is_ok] in *;
      [|done..]. intros [= <-]. destruct (Hc eq_refl) as [? ?]. done. }
  destruct m; try exact (Hseq _ _ (Hother _)).
  refine (Hseq (raw ← lift (encode_uhid_input_to_array (ui_id i) (ui_size i) (ui_data i));
                write_direct raw) (set_stats _ _ _ w) _).
  run. pose proof (encode_uhid_input_serialize i Hwf) as He.
  destruct (encode_uhid_input_to_array _ _ _) as [f|e|]; [|done..]. rewrite He.
  intros _. split; [done|].
  match goal with |- pending (write_direct f ?w1).2 = _ =>
    pose proof (write_direct_spec f w1) as (_ & -> & _) end. done.
Qed.

Lemma push_spec m w :
  ControlMessage_wf m → writer_wf w →
  commits (frame_of m) w (push m w) ∧
  ∀ reason, (push m w).1 = Ok reason →
    is_ok (serialize m) = true ∧ settled m w reason (push m w).2.
Proof.
  intros Hwf Hw. rewrite push_unfold. destruct (direct w) eqn:Hd.
  - specialize (Hw Hd). split; [by apply push_direct_commits|].
    intros reason. by apply push_direct_settled.
  - unfold count_pushed. run.
    set (w1 := set_stats (wrap 64 (pushed w + wrap 64 1)) (written w) (flushes w) w).
    change (direct w) with (direct w1) in Hd.
    destruct (is_critical m) eqn:Hcrit.
    + pose proof (push_critical_spec m w1) as [Hcm Hok]. split; [done|].
      intros reason Hr. rewrite Hr in Hok. destruct (Hok eq_refl) as ([= ->] & Hp & Hser).
      split; [done|]. unfold settled. change (direct w) with (direct w1).
      by rewrite Hd, Hcrit.
    + exact (push_buffered_spec m w1 Hwf Hd Hcrit).
Qed.

(** *** Batches *)

Section Batch.
Context {X : Type} (single : X → cmd W Error FlushReason) (encode : X → bytes)
  (append : X → writer unit).
Hypothesis append_encode : ∀ x buf, append x buf = (Ok tt, buf ++ encode x).
Hypothesis single_commits : ∀ x w r,
  writer_wf w → (single x w).1 = Ok r →
  config (single x w).2 = config w ∧ committed (single x w).2 = committed w ++ encode x.

Lemma length_bind_const n (xs : list X) :
  Forall (λ x, length (encode x) = n) xs → length (xs ≫= encode) = (length xs * n)%nat.
Proof.
  induction 1 as [|x xs Hx _ IH]; [done|].
  change ((x :: xs) ≫= encode) with (encode x ++ (xs ≫= encode)).
  rewrite length_app, Hx, IH. done.
Qed.

Lemma chunks_concat fuel n (xs : list X) :
  (0 < n)%nat → (length xs ≤ fuel)%nat → concat (chunks fuel n xs) = xs.
Proof.
  intros Hn. revert xs. induction fuel as [|fuel IH]; intros xs Hl.
  { by destruct xs; [|cbn in Hl; lia]. }
  destruct xs as [|x xs]; [done|]. cbn [chunks concat].
  rewrite IH; [apply take_drop|]. rewrite length_drop. cbn in *. lia.
Qed.

Lemma direct_chunks_run (cs : list (list X)) w :
  let r := for_each cs (λ c, on_transport (write_all (c ≫= encode))) w in
  r.1 = Ok tt →
  config r.2 = config w ∧ pending r.2 = pending w ∧
  wire (transport r.2) = wire (transport w) ++ (concat cs ≫= encode).
Proof.
  revert w. induction cs as [|c cs IH]; intros w; cbn zeta.
  { intros _. unfold mret, cmd_ret. cbn [for_each concat fst snd].
    unfold mret, cmd_ret. cbn [fst snd mbind list_bind]. by rewrite app_nil_r. }
  rewrite for_each_cons. unfold on_transport at 1 3 5 7. unfold zoom.
  destruct (write_all (c ≫= encode) (transport w)) as [[[]|e|] t1] eqn:E; [|done..].
  intros Hr. destruct (IH _ Hr) as (Hc & Hp & Hw). rewrite Hc, Hp, Hw.
  split; [done|]. split; [done|]. change (transport (set_transport t1 w)) with t1.
  cbn [concat]. rewrite (write_all_ok _ _ _ E), bind_app. by rewrite app_assoc.
Qed.

Lemma append_each_run (xs : list X) w :
  for_each xs (λ x, on_pending (append x)) w
  = (Ok tt, set_pending (pending w ++ (xs ≫= encode)) w).
Proof.
  revert w. induction xs as [|x xs IH]; intros w.
  { cbn. rewrite app_nil_r. by destruct w. }
  rewrite for_each_cons. unfold on_pending at 1. unfold zoom.
  rewrite append_encode, IH. cbn [pending set_pending]. rewrite <-app_assoc. done.
Qed.

Lemma batch_window_spec reason w :
  let r := batch_window reason w in
  ∀ r0, r.1 = Ok r0 →
  config r.2 = config w ∧ committed r.2 = committed w ∧
  (pending r.2 = [] ∨ pending r.2 = pending w).
Proof.
  cbn zeta. unfold batch_window. run.
  destruct (elapsed_run w) as (e & w1 & -> & _ & Hw1).
  assert (pending w1 = pending w ∧ committed w1 = committed w ∧ config w1 = config w)
    as (Ep & Et & Ec) by (by subst w1).
  clear Hw1. rewrite <-Ep, <-Et, <-Ec. case_decide; [|intros r0 _; auto].
  pose proof (flush_now_spec w1) as (Hc & _ & Hm). unfold committed.
  destruct (flush_now w1) as [[n|e'|] w']; [|done..]. intros r0 _. cbn [fst snd] in *.
  destruct Hm as (-> & _ & ->). by rewrite app_nil_r; auto.
Qed.

Lemma batch_loop_spec (xs : list X) reason w :
  let r := batch_loop append xs reason w in
  ∀ r0, r.1 = Ok r0 →
  config r.2 = config w ∧ committed r.2 = committed w ++ (xs ≫= encode) ∧
  (xs ≠ [] → pending r.2 = [] ∨ Z.of_nat (length (pending r.2)) < hard_limit w).
Proof.
  revert reason w. induction xs as [|x xs IH]; intros reason w; cbn zeta; cbn [batch_loop].
  { intros r0 _. cbn -[wire]. by rewrite app_nil_r. }
  unfold on_pending, zoom. run. rewrite append_encode.
  set (w1 := set_pending (pending w ++ encode x) w).
  assert (∀ reason w2 r0, config w2 = config w →
    committed w2 = committed w ++ encode x →
    pending w2 = [] ∨ Z.of_nat (length (pending w2)) < hard_limit w →
    (batch_loop append xs reason w2).1 = Ok r0 →
    config (batch_loop append xs reason w2).2 = config w ∧
    committed (batch_loop append xs reason w2).2 = committed w ++ ((x :: xs) ≫= encode) ∧
    (x :: xs ≠ [] → pending (batch_loop append xs reason w2).2 = [] ∨
      Z.of_nat (length (pending (batch_loop append xs reason w2).2)) < hard_limit w)) as Hrest.
  { intros re w2 r0 Hc Hcm Hb Hr. destruct (IH re w2 r0 Hr) as (Hc' & Hcm' & Hb').
    split; [congruence|]. split.
    { rewrite Hcm', Hcm. cbn [mbind list_bind]. by rewrite <-app_assoc. }
    intros _. assert (hard_limit w2 = hard_limit w) as Eh
      by (unfold config in Hc; by simplify_eq).
    rewrite <-Eh in *. destruct xs as [|y xs]; [exact Hb|]. by apply Hb'. }
  case_decide as Hl.
  - pose proof (flush_now_spec w1) as (Hc & _ & Hm).
    destruct (flush_now w1) as [[n|e|] w2]; [|done..]. intros r0. cbn [fst snd] in *.
    destruct Hm as (Hp & _ & Hw). apply Hrest; [done| |by left].
    unfold committed. rewrite Hp, Hw, app_nil_r. unfold w1.
    cbn [pending set_pending transport]. by rewrite app_assoc.
  - intros r0. apply Hrest; [done| |right; cbn in *; lia].
    unfold committed, w1. cbn [pending set_pending transport]. by rewrite app_assoc.
Qed.

Lemma push_batch_commits (xs : list X) w r0 :
  writer_wf w → Forall (λ x, length (encode x) = 20%nat) xs →
  (push_batch single encode append xs w).1 = Ok r0 →
  config (push_batch single encode append xs w).2 = config w ∧
  committed (push_batch single encode append xs w).2 = committed w ++ (xs ≫= encode) ∧
  (direct w = false → (1 < length xs)%nat →
   let p := pending (push_batch single encode append xs w).2 in
   p = [] ∨ Z.of_nat (length p) ≤ hard_limit w).
Proof.
  intros Hwf Hlen. destruct xs as [|x [|y xs]]; cbn [push_batch].
  { intros _. cbn -[wire]. rewrite app_nil_r. split_and!; [done|done|lia]. }
  { intros Hr. destruct (single_commits x w r0 Hwf Hr) as [Hc Hcm]. cbn [mbind list_bind].
    rewrite app_nil_r. split_and!; [done|done|cbn; lia]. }
  set (l := x :: y :: xs). run. destruct (direct w) eqn:Hd.
  - unfold count_pushed. run. specialize (Hwf Hd).
    set (w1 := set_stats _ _ _ w).
    pose proof (direct_chunks_run (chunks (length l) DIRECT_GAMEPAD_BATCH_FRAMES l) w1) as H.
    rewrite chunks_concat in H by (unfold DIRECT_GAMEPAD_BATCH_FRAMES; lia).
    destruct (for_each _ _ w1) as [[[]|e|] w2]; [|done..].
    destruct (H eq_refl) as (Hc & Hp & Hw). cbn [fst snd] in Hc, Hp, Hw.
    unfold on_transport, count_written, touch_last_flush, now, zoom. run.
    pose proof (flush_wire (transport w2)) as Hf.
    destruct (flush (transport w2)) as [[[]|e|] t2]; [|done..]. cbn -[wire] in *. intros _.
    split; [done|]. split; [|done]. unfold committed. cbn -[wire].
    by rewrite Hf, Hw, Hp, Hwf, !app_nil_r.
  - unfold count_pushed. run. set (w1 := set_stats _ _ _ w). case_decide as Hlim.
    + rewrite append_each_run. intros Hr.
      destruct (batch_window_spec Pending (set_pending (pending w1 ++ (l ≫= encode)) w1) r0 Hr)
        as (Hc & Hcm & Hp).
      split; [done|]. split; [rewrite Hcm; unfold committed; cbn -[wire mbind]; by rewrite app_assoc|].
      intros _ _. destruct Hp as [->| ->]; [by left|right].
      cbn [pending set_pending]. rewrite length_app.
      assert (length (l ≫= encode) = (length l * 20)%nat) as ->; [|change (hard_limit w1) with (hard_limit w) in Hlim; lia].
      by apply length_bind_const.
    + pose proof (batch_loop_spec l Pending w1) as H.
      destruct (batch_loop append l Pending w1) as [[r|e|] w2]; [|done..]. cbn [fst snd] in H.
      destruct (H r eq_refl) as (Hc & Hcm & Hp). intros Hr.
      destruct (batch_window_spec r w2 r0 Hr) as (Hc' & Hcm' & Hp').
      split; [by etrans|]. split; [by rewrite Hcm', Hcm|]. intros _ _.
      destruct Hp' as [->| ->]; [by left|]. destruct (Hp ltac:(done)) as [->|?]; [by left|right].
      change (hard_limit w1) with (hard_limit w) in *. lia.
Qed.
End Batch.

Section Reliable.
Context `{!ReliableTransport T}.

Lemma push_direct_reliable m w :
  ControlMessage_wf m → encodable m → is_ok (push_direct m w).1 = true.
Proof.
  intros Hwf He. unfold push_direct, count_pushed. run.
  assert (∀ m' (a : FlushReason) w1, is_ok (serialize m') = true →
    is_ok (((push_message_to_scratch m';; serialized ← take_scratch;
             write_direct serialized);; mret a) w1).1 = true) as Hother.
  { clear -ReliableTransport0. intros m' a w1 Hs. run.
    pose proof (push_scratch_run m' w1) as H. destruct (serialize m') as [f|e|]; [|done..].
    rewrite H. unfold take_scratch. run. cbn [scratch set_scratch].
    pose proof (write_direct_reliable f (set_scratch [] (set_scratch f w1))) as Hr.
    by destruct (write_direct f _) as [[]]. }
  assert (is_ok (serialize m) = true) as Hser.
  { by destruct (serialize_correct m Hwf He) as (f & -> & _). }
  destruct m; try exact (Hother _ _ _ Hser). run.
  pose proof (encode_uhid_input_serialize i Hwf) as H.
  destruct (encode_uhid_input_to_array _ _ _) as [f|e|]; [|by rewrite H in Hser|done].
  pose proof (write_direct_reliable f
    (set_stats (wrap 64 (pushed w + wrap 64 1)) (written w) (flushes w) w)) as Hr.
  by destruct (write_direct f _) as [[]].
Qed.

Lemma push_critical_reliable m w : is_ok (serialize m) = true → is_ok (push_critical m w).1 = true.
Proof.
  intros Hs. unfold push_critical, take_scratch, on_transport, zoom. run.
  pose proof (flush_now_reliable w) as Hf. destruct (flush_now w) as [[n|e|] w1]; [|done..].
  pose proof (push_scratch_run m w1) as H. destruct (serialize m) as [f|e|]; [|done..].
  rewrite H. cbn [scratch set_scratch transport].
  pose proof (write_all_reliable (transport w1) f) as H1.
  destruct (write_all f (transport w1)) as [o t1]. cbn in H1. subst o.
  change (transport (set_transport t1 _)) with t1.
  pose proof (flush_reliable t1) as H2. destruct (flush t1) as [o t2]. cbn in H2. by subst o.
Qed.

Lemma push_reliable m w :
  ControlMessage_wf m → encodable m → is_ok (push m w).1 = true.
Proof.
  intros Hwf He. rewrite push_unfold. destruct (direct w); [by apply push_direct_reliable|].
  assert (is_ok (serialize m) = true) as Hser.
  { by destruct (serialize_correct m Hwf He) as (f & -> & _). }
  unfold count_pushed. run. destruct (is_critical m); [by apply push_critical_reliable|].
  match goal with |- context [append_message m ?w1] =>
    pose proof (append_message_spec m w1 Hwf) as (_ & _ & _ & _ & H);
    destruct (append_message m w1) as [[[]|e|] w2] end; cbn [fst snd is_ok] in H;
    [apply after_append_reliable| |]; destruct H as [_ H]; congruence.
Qed.
End Reliable.

(** *** The gamepad fast paths *)

Lemma push_uhid_input_spec id size data w :
  writer_wf w →
  commits (match encode_uhid_input_to_array id size data with Ok f => f | _ => [] end) w
    (push_uhid_input id size data w).
Proof.
  intros Hwf. unfold push_uhid_input, count_pushed. run. destruct (direct w) eqn:Hd.
  - destruct (encode_uhid_input_to_array id size data) as [f|e|] eqn:E; [|by apply refused_commits..].
    specialize (Hwf Hd).
    exact (write_direct_commits f w (set_stats _ _ _ w) _ eq_refl eq_refl eq_refl Hwf).
  - unfold on_pending, zoom. run. rewrite uhid_input_to_buf_run.
    destruct (encode_uhid_input_to_array id size data) as [f|e|]; [by apply append_commits|..];
      by apply refused_commits.
Qed.

Lemma push_gamepad_spec id data w :
  writer_wf w →
  commits (encode_gamepad_input_slice id data) w (push_gamepad_input id data w).
Proof.
  intros Hwf. unfold push_gamepad_input, count_pushed. run. destruct (direct w) eqn:Hd.
  - specialize (Hwf Hd).
    exact (write_direct_commits _ w (set_stats _ _ _ w) _ eq_refl eq_refl eq_refl Hwf).
  - unfold on_pending, zoom. run. rewrite gamepad_to_buf_run. by apply append_commits.
Qed.

(** *** Reliability and direct mode of the fast paths *)

Lemma write_direct_ret_pending {A} raw w (a : A) :
  pending ((write_direct raw;; mret a) w).2 = pending w.
Proof.
  pose proof (write_direct_spec raw w) as (_ & Hp & _). run.
  by destruct (write_direct raw w) as [[[]|e|] w'].
Qed.

Lemma push_uhid_input_pending id size data w :
  direct w = true → pending (push_uhid_input id size data w).2 = pending w.
Proof.
  intros Hd. unfold push_uhid_input, count_pushed. run. rewrite Hd.
  destruct (encode_uhid_input_to_array id size data) as [f|e|]; [|done..].
  exact (write_direct_ret_pending f (set_stats _ _ _ w) Window).
Qed.

Lemma push_gamepad_pending id data w :
  direct w = true → pending (push_gamepad_input id data w).2 = pending w.
Proof.
  intros Hd. unfold push_gamepad_input, count_pushed. run. rewrite Hd.
  exact (write_direct_ret_pending _ (set_stats _ _ _ w) Window).
Qed.

Lemma push_fields_pending id fr w :
  direct w = true → pending (push_gamepad_input_fields id fr w).2 = pending w.
Proof.
  intros Hd. unfold push_gamepad_input_fields, count_pushed. run. rewrite Hd.
  exact (write_direct_ret_pending _ (set_stats _ _ _ w) Window).
Qed.

Lemma write_direct_ret_reliable `{!ReliableTransport T} {A} raw w (a : A) :
  is_ok ((write_direct raw;; mret a) w).1 = true.
Proof.
  pose proof (write_direct_reliable raw w). run. by destruct (write_direct raw w) as [[]].
Qed.

Lemma push_uhid_input_reliable `{!ReliableTransport T} id size data w :
  is_ok (push_uhid_input id size data w).1 = is_ok (encode_uhid_input_to_array id size data).
Proof.
  unfold push_uhid_input, count_pushed. run. destruct (direct w).
  - destruct (encode_uhid_input_to_array id size data); [|done..].
    exact (write_direct_ret_reliable _ (set_stats _ _ _ w) Window).
  - unfold on_pending, zoom. run. rewrite uhid_input_to_buf_run.
    destruct (encode_uhid_input_to_array id size data); [|done..]. apply after_append_reliable.
Qed.

Lemma push_gamepad_reliable `{!ReliableTransport T} id data w :
  is_ok (push_gamepad_input id data w).1 = true.
Proof.
  unfold push_gamepad_input, count_pushed. run. destruct (direct w).
  - exact (write_direct_ret_reliable _ (set_stats _ _ _ w) Window).
  - unfold on_pending, zoom. run. rewrite gamepad_to_buf_run. apply after_append_reliable.
Qed.

Lemma push_fields_reliable `{!ReliableTransport T} id fr w :
  is_ok (push_gamepad_input_fields id fr w).1 = true.
Proof.
  unfold push_gamepad_input_fields, count_pushed. run. destruct (direct w).
  - exact (write_direct_ret_reliable _ (set_stats _ _ _ w) Window).
  - unfold on_pending, zoom. run. rewrite gamepad_fields_to_buf_run.
    apply after_append_reliable.
Qed.

Section BatchReliable.
Context {X : Type} (single : X → cmd W Error FlushReason) (encode : X → bytes)
  (append : X → writer unit).
Hypothesis append_encode : ∀ x buf, append x buf = (Ok tt, buf ++ encode x).

Lemma push_batch_pending xs w :
  direct w = true → (∀ x w, direct w = true → pending (single x w).2 = pending w) →
  pending (push_batch single encode append xs w).2 = pending w.
Proof.
  intros Hd Hs. destruct xs as [|x [|y xs]]; cbn [push_batch]; [done|by apply Hs|].
  set (l := x :: y :: xs). unfold count_pushed. run. rewrite Hd.
  match goal with |- context [set_stats ?a ?b ?c w] => set (w1 := set_stats a b c w) end. change (pending w) with (pending w1).
  assert (∀ cs w, pending
    (for_each cs (λ c, on_transport (write_all (c ≫= encode))) w).2 = pending w) as H.
  { induction cs as [|c cs IH]; intros w0; [done|]. rewrite for_each_cons.
    unfold on_transport at 1. unfold zoom.
    destruct (write_all (c ≫= encode) (transport w0)) as [[[]|e|] t1]; [|done..].
    by rewrite IH. }
  specialize (H (chunks (length l) DIRECT_GAMEPAD_BATCH_FRAMES l) w1).
  destruct (for_each _ _ w1) as [[[]|e|] w2]; [|done..]. cbn [snd] in H. rewrite <-H.
  unfold on_transport, zoom. run. by destruct (flush (transport w2)) as [[[]|e|] t2].
Qed.

Context `{!ReliableTransport T}.

Lemma batch_window_reliable reason w : is_ok (batch_window reason w).1 = true.
Proof.
  unfold batch_window. run. destruct (elapsed_run w) as (e & w1 & -> & _).
  case_decide; [|done]. pose proof (flush_now_reliable w1). by destruct (flush_now w1) as [[]].
Qed.

Lemma batch_loop_reliable xs reason w : is_ok (batch_loop append xs reason w).1 = true.
Proof.
  revert reason w. induction xs as [|x xs IH]; intros reason w; [done|]. cbn [batch_loop].
  unfold on_pending, zoom. run. rewrite append_encode. case_decide; [|apply IH].
  set (w1 := set_pending _ w). pose proof (flush_now_reliable w1).
  destruct (flush_now w1) as [[]]; [|done..]. apply IH.
Qed.

Lemma push_batch_reliable xs w :
  (∀ x w, is_ok (single x w).1 = true) →
  is_ok (push_batch single encode append xs w).1 = true.
Proof.
  intros Hs. destruct xs as [|x [|y xs]]; cbn [push_batch]; [done|apply Hs|].
  set (l := x :: y :: xs). unfold count_pushed. run. destruct (direct w);
    match goal with |- context [set_stats ?a ?b ?c w] => set (w1 := set_stats a b c w) end.
  - assert (∀ cs w, (for_each cs
      (λ c, on_transport (write_all (c ≫= encode))) w).1 = Ok tt) as H.
    { induction cs as [|c cs IH]; intros w0; [done|]. rewrite for_each_cons.
      unfold on_transport at 1. unfold zoom.
      pose proof (write_all_reliable (transport w0) (c ≫= encode)) as H1.
      destruct (write_all _ (transport w0)) as [o t1]. cbn in H1. subst o. apply IH. }
    specialize (H (chunks (length l) DIRECT_GAMEPAD_BATCH_FRAMES l) w1).
    destruct (for_each _ _ w1) as [o w2]. cbn [fst] in H. subst o.
    unfold on_transport, zoom. run.
    pose proof (flush_reliable (transport w2)) as H2.
    destruct (flush (transport w2)) as [o t2]. cbn in H2. by subst o.
  - case_decide.
    + rewrite (append_each_run encode append append_encode). apply batch_window_reliable.
    + pose proof (batch_loop_reliable l Pending w1).
      destruct (batch_loop append l Pending w1) as [[]]; [|done..]. apply batch_window_reliable.
Qed.
End BatchReliable.

Lemma push_gamepad_single id data w r :
  writer_wf w → (push_gamepad_input id data w).1 = Ok r →
  config (push_gamepad_input id data w).2 = config w ∧
  committed (push_gamepad_input id data w).2
    = committed w ++ encode_gamepad_input_slice id data.
Proof.
  intros Hwf Hr. destruct (push_gamepad_spec id data w Hwf) as [Hc Hcm].
  by rewrite Hr in Hcm.
Qed.

Lemma push_fields_single id fr w r :
  writer_wf w → (push_gamepad_input_fields id fr w).1 = Ok r →
  config (push_gamepad_input_fields id fr w).2 = config w ∧
  committed (push_gamepad_input_fields id fr w).2
    = committed w ++ encode_gamepad_input_fields_slice id fr.
Proof.
  intros Hwf. set (f := encode_gamepad_input_fields_slice id fr).
  assert (commits f w (push_gamepad_input_fields id fr w)) as [Hc Hcm].
  { unfold push_gamepad_input_fields. run. destruct (direct w) eqn:Hd.
    - unfold count_pushed. run. specialize (Hwf Hd).
      exact (write_direct_commits f w (set_stats _ _ _ w) _ eq_refl eq_refl eq_refl Hwf).
    - unfold count_pushed, on_pending, zoom. run. rewrite gamepad_fields_to_buf_run.
      by apply append_commits. }
  intros Hr. rewrite Hr in Hcm. done.
Qed.

Lemma push_fields_batch id frames w r :
  writer_wf w → (push_gamepad_input_batch_from_fields id frames w).1 = Ok r →
  let w' := (push_gamepad_input_batch_from_fields id frames w).2 in
  config w' = config w ∧
  committed w' = committed w ++ (frames ≫= encode_gamepad_input_fields_slice id) ∧
  (direct w = false → (1 < length frames)%nat →
   pending w' = [] ∨ Z.of_nat (length (pending w')) ≤ hard_limit w).
Proof.
  intros Hwf Hr.
  apply (push_batch_commits (push_gamepad_input_fields id)
    (encode_gamepad_input_fields_slice id) (push_gamepad_input_fields_to_buf id)
    (gamepad_fields_to_buf_run id) (push_fields_single id) frames w r Hwf).
  - apply Forall_true. intros fr. unfold encode_gamepad_input_fields_slice.
    by rewrite !length_app, !length_be_bytes, !length_le_bytes.
  - exact Hr.
Qed.
End WriterLaws.

(** ** The fast path computes the driver's report *)

Definition frame_wf (fr : GamepadFrameRaw) : Prop :=
  u32 (fr_buttons fr) ∧ i16 (fr_left_x fr) ∧ i16 (fr_left_y fr) ∧ i16 (fr_right_x fr) ∧
  i16 (fr_right_y fr) ∧ i16 (fr_left_trigger fr) ∧ i16 (fr_right_trigger fr).

(** The driver's event with the same fields. *)
Definition frame_op (fr : GamepadFrameRaw) : GamepadOp :=
  OpFull (fr_buttons fr) (fr_left_x fr) (fr_left_y fr) (fr_right_x fr) (fr_right_y fr)
    (fr_left_trigger fr) (fr_right_trigger fr).

Lemma dpad_hat_mod b : dpad_hat_value (b mod 2 ^ 20) = dpad_hat_value b.
Proof.
  unfold dpad_hat_value. do 2 f_equal. rewrite !dpad_index_testbits.
  change 15 with (Z.ones 4). apply Z.bits_inj'. intros k Hk.
  rewrite !Z.land_spec, !Z.shiftr_spec by done.
  destruct (decide (k < 4)).
  - by rewrite Z.mod_pow2_bits_low by lia.
  - by rewrite (Z.ones_spec_high 4 k), !andb_false_r by lia.
Qed.

Lemma mod_mod_16 b : (b mod 2 ^ 20) mod 2 ^ 16 = b mod 2 ^ 16.
Proof.
  change (2 ^ 20) with (2 ^ 16 * 2 ^ 4). rewrite Z.rem_mul_r by done.
  rewrite Z.mul_comm, Z.mod_add, Z.mod_mod by done. done.
Qed.

Lemma fast_path_payload id fr p :
  frame_wf fr →
  encode_gamepad_input_fields_slice id fr =
  [INPUT_TAG] ++ be_bytes 2 id ++ be_bytes 2 15 ++ pad_report (apply_op (frame_op fr) p).
Proof.
  intros (Hb & H1 & H2 & H3 & H4 & H5 & H6).
  unfold encode_gamepad_input_fields_slice, pad_report, frame_op, GAMEPAD_REPORT_SIZE_U16.
  cbn [apply_op p_buttons p_left p_right p_triggers fst snd].
  change rescale_stick with axis_rescale. change rescale_trigger with trigger_rescale.
  rewrite !axis_rescale_spec, !trigger_rescale_spec, dpad_hat_mod, mod_mod_16 by done.
  done.
Qed.

Lemma fast_path_serialize id fr p :
  u16 id → frame_wf fr →
  serialize (Cm_UhidInput (mkUhidInput id 15 (pad_report (apply_op (frame_op fr) p)))) =
  Ok (encode_gamepad_input_fields_slice id fr).
Proof.
  intros Hid Hfr. set (data := pad_report _).
  assert (length data = 15%nat) as Hl by apply pad_report_length.
  pose proof (encode_uhid_input_serialize (mkUhidInput id 15 data)) as H.
  unfold encode_uhid_input_to_array in H. cbn [ui_id ui_size ui_data] in H.
  rewrite decide_False in H by (rewrite Hl; unfold HID_MAX_SIZE; lia).
  rewrite H.
  - f_equal. rewrite (fast_path_payload id fr p) by done. fold data.
    rewrite take_ge by (rewrite Hl; done). done.
  - repeat split; cbn; try apply Hid; try apply pad_report_bytes; try done; lia.
Qed.

(** ** Properties *)

(** C3: the coalescing writer is transparent on a healthy transport.  Whatever the
    window, the hard limit (both zero is direct mode) and the clock, every push of a
    batch of accepted messages succeeds, the bytes on the wire followed by the pending
    ones are the frames pushed so far, each once and in order, and dropping the writer
    (or recovering the transport) puts exactly those bytes on the wire, which the
    device's reader decodes to the messages. *)
Theorem coalescing_preserves_stream {T} `{!TransportWrite T, !LawfulTransport T,
    !ReliableTransport T} (t : T) (win limit : Z) (clk : nat → Z)
    (msgs : list ControlMessage)
    (Hwf : Forall ControlMessage_wf msgs) (He : Forall encodable msgs) :
  let r := for_each msgs (λ m, _ ← push m; mret tt) (with_limits t win limit clk) in
  ∃ stream, decode_all stream = Some (wire_of <$> msgs) ∧
    r.1 = Ok tt ∧ committed r.2 = wire t ++ stream ∧
    wire (transport (drop_writer r.2).2) = wire t ++ stream ∧
    wire (into_inner r.2).2 = wire t ++ stream.
Proof.
  intros r. destruct (decode_frames msgs Hwf He) as (fs & Hfs & Hdec).
  exists fs. split; [done|].
  assert (∀ w, writer_wf w → frames msgs = Ok fs →
    let r := for_each msgs (λ m, _ ← push m; mret tt) w in
    r.1 = Ok tt ∧ committed r.2 = committed w ++ fs) as Hrun.
  { clear Hdec Hfs r. revert fs. induction msgs as [|m msgs IH]; intros fs w Hw.
    { intros [= <-]. cbn -[committed]. by rewrite app_nil_r. }
    apply Forall_cons in Hwf as [Hm Hms], He as [Hme Hmse].
    destruct (serialize_correct m Hm Hme) as (f & Hf & _).
    cbn [frames]. rewrite Hf. intros Hfs. cbn in Hfs.
    destruct (frames msgs) as [fs'|e|]; [|discriminate..]. injection Hfs as <-.
    rewrite for_each_cons.
    pose proof (push_reliable m w Hm Hme) as Hok.
    destruct (push_spec m w Hm Hw) as [[Hc Hcm] Hset]. run.
    destruct (push m w) as [[reason|e|] w1] eqn:E; [|done..].
    cbn [fst snd is_ok] in *. destruct (Hset reason eq_refl) as [_ Hs].
    rewrite (frame_of_ok m f Hf) in Hcm.
    destruct (IH Hms Hmse fs' w1) as [Hr1 Hr2]; [|done|].
    { intros Hd. unfold settled in Hs. replace (direct w) with true in Hs; [by apply Hs|].
      injection Hc as _ _ Hc _. congruence. }
    split; [exact Hr1|]. etrans; [exact Hr2|]. by rewrite Hcm, app_assoc. }
  assert (writer_wf (with_limits t win limit clk)) as Hw0 by done.
  destruct (Hrun _ Hw0 Hfs) as [Hok Hcm]. fold r in Hok, Hcm.
  change (committed (with_limits t win limit clk)) with (wire t ++ []) in Hcm.
  rewrite app_nil_r in Hcm. split; [done|]. split; [done|].
  pose proof (flush_now_spec r.2) as (_ & _ & Hf).
  pose proof (flush_now_reliable r.2) as Hfok.
  unfold drop_writer, into_inner.
  destruct (flush_now r.2) as [[n|e|] w']; [|done..]. cbn [fst snd] in *.
  destruct Hf as (_ & _ & ->). by rewrite <-Hcm.
Qed.

Lemma coalescing_preserves_stream_witness :
  let msgs := [sample_create; Cm_RotateDevice; Cm_BackOrScreenOn 0] in
  Forall ControlMessage_wf msgs ∧ Forall encodable msgs ∧
  ∃ stream, decode_all stream = Some (wire_of <$> msgs) ∧
    wire (transport (drop_writer
      (for_each msgs (λ m, _ ← push m; mret tt)
         (with_limits Mock_new 1000 4096 Z.of_nat)).2).2) = stream.
Proof.
  intros msgs.
  assert (Forall ControlMessage_wf msgs) as Hwf.
  { constructor; [exact (proj1 sample_create_ok)|]. repeat constructor; cbn; lia. }
  assert (Forall encodable msgs) as He.
  { constructor; [exact (proj2 sample_create_ok)|]. by repeat constructor. }
  split; [exact Hwf|]. split; [exact He|].
  destruct (coalescing_preserves_stream Mock_new 1000 4096 Z.of_nat msgs Hwf He)
    as (stream & Hd & _ & _ & Hdrop & _).
  exists stream. split; [exact Hd|exact Hdrop].
Defined.

(** A critical message (UHID_CREATE, UHID_DESTROY) is never buffered and never
    overtakes: over any lawful transport and in either mode, when its push succeeds
    everything that was pending and then the message are on the wire, and nothing is
    pending. *)
Theorem push_critical_immediate {T} `{!TransportWrite T, !LawfulTransport T}
    (m : ControlMessage) (w w' : CoalescingWriter T) (reason : FlushReason)
    (Hm : ControlMessage_wf m) (Hcrit : is_critical m = true) (Hw : writer_wf w)
    (Hpush : push m w = (Ok reason, w')) :
  reason = Critical ∧ pending w' = [] ∧
  ∃ f, serialize m = Ok f ∧ wire (transport w') = wire (transport w) ++ pending w ++ f.
Proof.
  destruct (push_spec m w Hm Hw) as [[_ Hcm] Hset]. rewrite Hpush in *.
  cbn [fst snd is_ok] in *. destruct (Hset reason eq_refl) as [Hser Hs].
  assert (reason = Critical ∧ pending w' = []) as [-> Hp].
  { unfold settled in Hs. rewrite Hcrit in Hs. destruct (direct w); tauto. }
  split; [done|]. split; [done|]. destruct (serialize m) as [f|e|] eqn:E; [|done..].
  exists f. split; [done|]. rewrite (frame_of_ok m f E) in Hcm. unfold committed in Hcm.
  by rewrite Hp, app_nil_r, <-app_assoc in Hcm.
Qed.

Lemma push_critical_immediate_witness :
  let m := Cm_UhidDestroy (mkUhidDestroy 3) in
  let w := (push (Cm_BackOrScreenOn 1) (with_limits Mock_new 1000 4096 Z.of_nat)).2 in
  pending w = [4; 1] ∧
  wire (transport (push m w).2) = wire (transport w) ++ pending w ++ [14; 0; 3].
Proof.
  intros m w. split; [by vm_compute|].
  assert (push m w = (Ok Critical, (push m w).2)) as E by (by vm_compute).
  destruct (push_critical_immediate m w (push m w).2 Critical ltac:(by split) eq_refl
    ltac:(intros E0; vm_compute in E0; discriminate E0) E) as (_ & _ & f & Hf & Hwire).
  etrans; [exact Hwire|]. do 2 f_equal. vm_compute in Hf. by injection Hf as <-.
Defined.

(** C37: a buffering writer holds little and not for long: after a successful push of a
    droppable message either nothing is pending, or fewer bytes than the hard limit are
    and, by the clock, less than the window has passed since the last flush. *)
Theorem push_bounds_buffer {T} `{!TransportWrite T, !LawfulTransport T}
    (m : ControlMessage) (w w' : CoalescingWriter T) (reason : FlushReason)
    (Hm : ControlMessage_wf m) (Hcrit : is_critical m = false) (Hd : direct w = false)
    (Hpush : push m w = (Ok reason, w')) :
  (pending w' = [] ∨
   Z.of_nat (length (pending w')) < hard_limit w ∧
   Z.max 0 (clock w (ticks w) - last_flush w) < window w) ∧
  (reason = Pending ∨ pending w' = []).
Proof.
  assert (writer_wf w) as Hw by (intros E; congruence).
  destruct (push_spec m w Hm Hw) as [_ Hset]. rewrite Hpush in *.
  destruct (Hset reason eq_refl) as [_ Hs]. unfold settled in Hs. rewrite Hd, Hcrit in Hs.
  cbn [fst snd] in Hs. destruct reason; try tauto.
  destruct Hs as [Hlen Hwin]. split; [|by left].
  destruct (decide (pending w' = [])); [by left|right]. auto.
Qed.

Lemma push_bounds_buffer_witness :
  let w := with_limits Mock_new 1000 4096 Z.of_nat in
  (push (Cm_BackOrScreenOn 1) w).1 = Ok Pending ∧
  (pending (push (Cm_BackOrScreenOn 1) w).2 = [] ∨
   Z.of_nat (length (pending (push (Cm_BackOrScreenOn 1) w).2)) < 4096 ∧
   Z.max 0 (Z.of_nat 1 - 0) < 1000).
Proof.
  intros w. split; [by vm_compute|].
  assert (push (Cm_BackOrScreenOn 1) w = (Ok Pending, (push (Cm_BackOrScreenOn 1) w).2)) as E
    by (by vm_compute).
  exact (proj1 (push_bounds_buffer (Cm_BackOrScreenOn 1) w _ Pending ltac:(by split) eq_refl eq_refl E)).
Defined.

(** Failures lose nothing.  Whatever the transport does, a push that does not
    succeed leaves either all the pending bytes (and possibly the new frame) still
    pending, or has sent all of them: no buffered message disappears.  A prefix of what
    is still pending may have been sent already, so a retry can repeat bytes but never
    skip any. *)
Theorem push_failure_keeps_pending {T} `{!TransportWrite T, !LawfulTransport T}
    (m : ControlMessage) (w : CoalescingWriter T)
    (Hm : ControlMessage_wf m) (Hw : writer_wf w)
    (Hfail : is_ok (push m w).1 = false) :
  let w' := (push m w).2 in
  let f := frame_of m in
  (∃ g n, (g = [] ∨ g = f) ∧ pending w' = pending w ++ g ∧
          wire (transport w') = wire (transport w) ++ take n (pending w ++ g)) ∨
  (∃ n, pending w' = [] ∧
        wire (transport w') = wire (transport w) ++ pending w ++ take n f).
Proof.
  destruct (push_spec m w Hm Hw) as [[_ Hcm] _]. by rewrite Hfail in Hcm.
Qed.

Definition failing_writer : CoalescingWriter Scripted :=
  set_pending [4; 0] (with_limits (mkScripted [] [Some 1%nat]) 0 4096 Z.of_nat).

Lemma push_failure_keeps_pending_witness :
  let w' := (push (Cm_BackOrScreenOn 1) failing_writer).2 in
  is_ok (push (Cm_BackOrScreenOn 1) failing_writer).1 = false ∧
  pending w' = [4; 0; 4; 1] ∧ sd_bytes (transport w') = [4] ∧
  ((∃ g n, (g = [] ∨ g = frame_of (Cm_BackOrScreenOn 1)) ∧
           pending w' = pending failing_writer ++ g ∧
           wire (transport w') = wire (transport failing_writer) ++
             take n (pending failing_writer ++ g)) ∨
   (∃ n, pending w' = [] ∧
         wire (transport w') = wire (transport failing_writer) ++ pending failing_writer
           ++ take n (frame_of (Cm_BackOrScreenOn 1)))).
Proof.
  intros w'. split; [by vm_compute|]. split; [by vm_compute|]. split; [by vm_compute|].
  exact (push_failure_keeps_pending (Cm_BackOrScreenOn 1) failing_writer
    ltac:(by split) ltac:(intros E0; vm_compute in E0; discriminate E0) eq_refl).
Defined.

(** the one way a healthy peer sees bytes twice.  When the transport takes the whole
    buffer but its [flush] fails, [flush_now] reports the error and keeps the bytes
    pending although they have been written, and the next flush writes all of them
    again. *)
Theorem flush_failure_duplicates {T} `{!TransportWrite T, !LawfulTransport T}
    (w : CoalescingWriter T) (t1 t2 t3 t4 : T) (e : Error)
    (Hne : pending w ≠ [])
    (Hwrite : write_all (pending w) (transport w) = (Ok tt, t1))
    (Hflush : flush t1 = (Err e, t2))
    (Hwrite' : write_all (pending w) t2 = (Ok tt, t3))
    (Hflush' : flush t3 = (Ok tt, t4)) :
  let r1 := flush_now w in
  let r2 := flush_now r1.2 in
  r1.1 = Err e ∧ wire (transport r1.2) = wire (transport w) ++ pending w ∧
  pending r1.2 = pending w ∧
  r2.1 = Ok (Z.of_nat (length (pending w))) ∧
  wire (transport r2.2) = wire (transport w) ++ pending w ++ pending w.
Proof.
  intros r1 r2.
  assert (r1 = (Err e, set_transport t2 (set_transport t1 w))) as E1.
  { unfold r1, flush_now, on_transport, zoom. run. rewrite decide_False, Hwrite by done.
    change (transport (set_transport t1 w)) with t1. by rewrite Hflush. }
  pose proof (write_all_ok _ _ _ Hwrite) as Hw1.
  pose proof (flush_wire t1) as Hw2. rewrite Hflush in Hw2. cbn in Hw2.
  rewrite Hw1 in Hw2.
  pose proof (flush_now_spec r1.2) as (_ & _ & Hm). fold r2 in Hm.
  assert (is_ok r2.1 = true) as Hok.
  { unfold r2. rewrite E1. unfold flush_now, on_transport, zoom. run.
    rewrite decide_False by done. cbn [snd].
    change (pending (set_transport t2 (set_transport t1 w))) with (pending w).
    change (transport (set_transport t2 _)) with t2. rewrite Hwrite'.
    change (transport (set_transport t3 _)) with t3. by rewrite Hflush'. }
  rewrite E1 in *. cbn [fst snd] in *.
  change (pending (set_transport t2 (set_transport t1 w))) with (pending w) in *.
  change (transport (set_transport t2 _)) with t2 in *.
  destruct (r2.1) as [n|e'|]; [|done..]. destruct Hm as (_ & -> & ->).
  by rewrite Hw2, <-app_assoc.
Qed.

Lemma flush_failure_duplicates_witness :
  let w := set_pending [4; 1] (with_limits (mkScripted [] [None; Some 0%nat]) 0 4096 Z.of_nat) in
  wire (transport (flush_now (flush_now w).2).2) = [4; 1; 4; 1].
Proof.
  intros w.
  exact (proj2 (proj2 (proj2 (proj2 (flush_failure_duplicates w
    (mkScripted [4; 1] [Some 0%nat]) (mkScripted [4; 1] []) (mkScripted [4; 1; 4; 1] [])
    (mkScripted [4; 1; 4; 1] []) (Transport "scripted") ltac:(done) eq_refl eq_refl
    eq_refl eq_refl))))).
Defined.

(** The driver given the frames one by one, as full-state events of one gamepad. *)
Fixpoint driver_messages (pad : Z) (fs : list GamepadFrameRaw) :
    cmd GamepadHid Error (list ControlMessage) :=
  match fs with
  | [] => mret []
  | fr :: fs =>
      m ← full_state_event pad (fr_buttons fr) (fr_left_x fr) (fr_left_y fr) (fr_right_x fr)
            (fr_right_y fr) (fr_left_trigger fr) (fr_right_trigger fr);
      ms ← driver_messages pad fs;
      mret (m :: ms)
  end.

Lemma driver_messages_encode pad i p fs g :
  gamepads_wf g → bound g pad = Some (i, p) → Forall frame_wf fs →
  ∃ ms g', driver_messages pad fs g = (Ok ms, g') ∧ length ms = length fs ∧
           frames ms = Ok (fs ≫= encode_gamepad_input_fields_slice (3 + Z.of_nat i)).
Proof.
  intros Hwf Hb Hfs. revert p g Hwf Hb. induction Hfs as [|fr fs Hfr _ IH]; intros p g Hwf Hb.
  { by exists [], g. }
  destruct (proj1 (bound_Some _ _ _ _ Hwf) Hb) as (Hne & s & Hs & _).
  destruct (wf_lookup _ _ _ Hwf Hs) as [_ Hi].
  destruct (run_op_callback pad (frame_op fr)) as (f & E & Hf); [exact Hfr|].
  pose proof (by_id_refines pad f _ g Hwf Hne Hf) as H. rewrite <-E in H.
  destruct (run_op pad (frame_op fr) g) as [o g1] eqn:E1. destruct H as [Hwf1 H].
  rewrite Hb in H. destruct H as [-> Hb1]. specialize (Hb1 pad). rewrite decide_True in Hb1 by done.
  destruct (IH _ g1 Hwf1 Hb1) as (ms & g2 & E2 & Hl & Hms).
  exists (pad_input i (apply_op (frame_op fr) p) :: ms), g2. split_and!; [|by cbn; rewrite Hl|].
  - cbn [driver_messages]. rewrite (bind_ok _ _ _ _ _ E1), (bind_ok _ _ _ _ _ E2). done.
  - cbn [frames]. unfold pad_input, HID_ID_GAMEPAD_FIRST. unfold MAX_GAMEPADS in Hi.
    rewrite (fast_path_serialize _ fr p), Hms; [done| |done]. widths. lia.
Qed.

(** C36: the gamepad fast path is equivalent to the driver and the serializer.  A
    successful batch push of raw frames for a gamepad commits, for each frame in order,
    exactly the bytes of the message the gamepad driver itself returns for a full-state
    event with the same fields - from any reachable state of the driver in which the
    gamepad is open, the events given one after the other, none skipped - in direct and in
    buffered mode; a buffered batch leaves at most [hard_limit] bytes pending. *)
Theorem gamepad_batch_matches_driver {T} `{!TransportWrite T, !LawfulTransport T}
    (g : GamepadHid) (pad : Z) (i : nat) (p : Pad)
    (fs : list GamepadFrameRaw) (w : CoalescingWriter T) (reason : FlushReason)
    (Hg : reachable g) (Hopen : bound g pad = Some (i, p)) (Hfs : Forall frame_wf fs) (Hw : writer_wf w)
    (Hok : (push_gamepad_input_batch_from_fields (3 + Z.of_nat i) fs w).1 = Ok reason) :
  let w' := (push_gamepad_input_batch_from_fields (3 + Z.of_nat i) fs w).2 in
  ∃ ms bs, (driver_messages pad fs g).1 = Ok ms ∧ length ms = length fs ∧
    frames ms = Ok bs ∧ committed w' = committed w ++ bs ∧
    (direct w = false → (1 < length fs)%nat →
     Z.of_nat (length (pending w')) ≤ Z.max 0 (hard_limit w)).
Proof.
  intros w'. destruct (push_fields_batch _ fs w reason Hw Hok) as (_ & Hcm & Hp).
  destruct (driver_messages_encode pad i p fs g (reachable_wf g Hg) Hopen Hfs) as (ms & g' & E & Hl & Hms).
  exists ms, (fs ≫= encode_gamepad_input_fields_slice (3 + Z.of_nat i)). rewrite E.
  split_and!; [done..|]. intros Hd Hlen. specialize (Hp Hd Hlen). fold w' in Hp.
  destruct Hp as [Hp|Hp]; [rewrite Hp; cbn; lia|lia].
Qed.

(** The second event changes nothing, and is reported and sent all the same. *)
Lemma gamepad_batch_matches_driver_witness :
  let fr := mkFrame 0x10001 100 (-100) 0 0 5 32767 in
  let w := with_limits Mock_new 1000 4096 Z.of_nat in
  let g := call_state (CallOpen 42 None) Gamepad_new in
  ∃ ms bs, (driver_messages 42 [fr; fr] g).1 = Ok ms ∧ length ms = 2%nat ∧ frames ms = Ok bs ∧
    committed (push_gamepad_input_batch_from_fields 3 [fr; fr] w).2 = bs.
Proof.
  intros fr w g.
  assert (Forall frame_wf [fr; fr]) as Hfs.
  { assert (frame_wf fr) by (repeat split; cbn; lia). by repeat constructor. }
  assert ((push_gamepad_input_batch_from_fields 3 [fr; fr] w).1 = Ok Pending) as E
    by (by vm_compute).
  assert (reachable g) as Hg by (apply reachable_call; [apply reachable_new|by split]).
  assert (bound g 42 = Some (0%nat, pad_reset)) as Hb by (by vm_compute).
  destruct (gamepad_batch_matches_driver g 42 0 pad_reset [fr; fr] w Pending Hg Hb Hfs
    ltac:(intros E0; vm_compute in E0; discriminate E0) E) as (ms & bs & H1 & H2 & H3 & H4 & _).
  exists ms, bs. split; [exact H1|]. split; [exact H2|]. split; [exact H3|exact H4].
Defined.
