(* ===== verification/Sink.v ===== *)
(** * The interface between the session and its writer

    [HidSession] owns a [CoalescingWriter] and uses eight of its methods.
    [MessageSink] is that interface; [ReliableSink] states what the writer promises
    the session over a healthy transport, with the bytes committed so far as the
    only observation.  The coalescing writer implements both.  [MsgLog] implements the
    first with a plain list of messages: it is the specification of the session's link,
    and the session's code runs on it unchanged. *)

From S2P Require Import Prelude Words Errors Types Utf8 Float32 Message Transport Descriptor.
From S2P Require Import Gamepad Coalesce.
Local Open Scope Z_scope.

(** The writer's methods, without the [FlushReason] the session discards.  [sink_drop]
    is [Drop]. *)
Class MessageSink (W : Type) := {
  sink_push : ControlMessage → cmd W Error unit;
  sink_uhid_input : Z → Z → bytes → cmd W Error unit;
  sink_gamepad : Z → bytes → cmd W Error unit;
  sink_gamepad_fields : Z → GamepadFrameRaw → cmd W Error unit;
  sink_gamepad_batch : Z → list bytes → cmd W Error unit;
  sink_gamepad_batch_fields : Z → list GamepadFrameRaw → cmd W Error unit;
  sink_flush : cmd W Error Z;
  sink_drop : cmd W Error unit;
}.

#[export] Instance Coalescing_sink {T} `{!TransportWrite T} :
    MessageSink (CoalescingWriter T) := {
  sink_push m := _ ← push m; mret tt;
  sink_uhid_input id size data := _ ← push_uhid_input id size data; mret tt;
  sink_gamepad id data := _ ← push_gamepad_input id data; mret tt;
  sink_gamepad_fields id frame := _ ← push_gamepad_input_fields id frame; mret tt;
  sink_gamepad_batch id data := _ ← push_gamepad_input_batch id data; mret tt;
  sink_gamepad_batch_fields id fs := _ ← push_gamepad_input_batch_from_fields id fs; mret tt;
  sink_flush := flush_now;
  sink_drop := drop_writer;
}.

(** ** The message log *)

(** The messages the fast paths stand for. *)
Definition input_msg (id size : Z) (data : bytes) : ControlMessage :=
  Cm_UhidInput (mkUhidInput id size (fixed_data (Nat.min (length data) HID_MAX_SIZE) data)).
Definition packed_msg (id : Z) (data : bytes) : ControlMessage :=
  Cm_UhidInput (mkUhidInput id 15 data).
Definition frame_msg (id : Z) (frame : GamepadFrameRaw) : ControlMessage :=
  packed_msg id (pack frame).

Record MsgLog : Set := mkLog { logged : list ControlMessage }.

Definition log_all (ms : list ControlMessage) : cmd MsgLog Error unit :=
  modify (λ l, mkLog (logged l ++ ms)).

#[export] Instance Log_sink : MessageSink MsgLog := {
  sink_push m := log_all [m];
  sink_uhid_input id size data :=
    if decide (Z.of_nat HID_MAX_SIZE < size ∨ Z.of_nat (length data) < size) then
      raise (ControlMessageTooLarge size (Z.of_nat HID_MAX_SIZE + 5))
    else log_all [input_msg id size data];
  sink_gamepad id data := log_all [packed_msg id data];
  sink_gamepad_fields id frame := log_all [frame_msg id frame];
  sink_gamepad_batch id data := log_all (packed_msg id <$> data);
  sink_gamepad_batch_fields id fs := log_all (frame_msg id <$> fs);
  sink_flush := mret 0;
  sink_drop := mret tt;
}.

(** ** What a reliable sink promises *)

(** A message the serializer accepts. *)
Definition acceptable (m : ControlMessage) : Prop := ControlMessage_wf m ∧ encodable m.

Lemma frames_ok_app ms1 ms2 f1 f2 :
  frames ms1 = Ok f1 → frames ms2 = Ok f2 → frames (ms1 ++ ms2) = Ok (f1 ++ f2).
Proof. intros H1 H2. by rewrite frames_app, H1, H2. Qed.

Lemma frames_one m f : serialize m = Ok f → frames [m] = Ok f.
Proof. intros H. cbn [frames]. rewrite H. cbn. by rewrite app_nil_r. Qed.

(** [ready] is the sink's invariant, [sent] the bytes it has committed. *)
Class ReliableSink (W : Type) `{!MessageSink W} := {
  ready : W → Prop;
  sent : W → bytes;
  delivers : list ControlMessage → cmd W Error unit → Prop :=
    λ ms c, ∀ w, ready w → Forall acceptable ms →
      ∃ w' fs, c w = (Ok tt, w') ∧ ready w' ∧ frames ms = Ok fs ∧ sent w' = sent w ++ fs;
  sink_push_ok m : delivers [m] (sink_push m);
  sink_uhid_input_ok id size data :
    size ≤ Z.of_nat HID_MAX_SIZE → size ≤ Z.of_nat (length data) →
    delivers [input_msg id size data] (sink_uhid_input id size data);
  sink_uhid_input_err id size data w :
    Z.of_nat HID_MAX_SIZE < size ∨ Z.of_nat (length data) < size → ready w →
    ∃ w', sink_uhid_input id size data w
          = (Err (ControlMessageTooLarge size (Z.of_nat HID_MAX_SIZE + 5)), w') ∧
          ready w' ∧ sent w' = sent w;
  sink_gamepad_ok id data : delivers [packed_msg id data] (sink_gamepad id data);
  sink_gamepad_fields_ok id fr : delivers [frame_msg id fr] (sink_gamepad_fields id fr);
  sink_gamepad_batch_ok id l :
    delivers (packed_msg id <$> l) (sink_gamepad_batch id l);
  sink_gamepad_batch_fields_ok id l :
    delivers (frame_msg id <$> l) (sink_gamepad_batch_fields id l);
  sink_flush_ok w :
    ready w → ∃ n w', sink_flush w = (Ok n, w') ∧ ready w' ∧ sent w' = sent w;
  sink_drop_ok w :
    ready w → ∃ w', sink_drop w = (Ok tt, w') ∧ ready w' ∧ sent w' = sent w;
}.

(** ** The coalescing writer is a reliable sink *)

Section Coalescing.
Context {T : Type} `{!TransportWrite T, !LawfulTransport T, !ReliableTransport T}.
Abbreviation W := (CoalescingWriter T).
Implicit Types w : W.

Lemma ready_after {A} (o : outcome Error A) w w' :
  writer_wf w → config w' = config w → (direct w = true → pending w' = pending w) →
  writer_wf w'.
Proof.
  intros Hw Hc Hp Hd. assert (direct w = true) as Hd'.
  { injection Hc as _ _ Hc _. congruence. }
  rewrite Hp by done. by apply Hw.
Qed.

Lemma unit_after {A} (c : cmd W Error A) fs w :
  writer_wf w → is_ok (c w).1 = true →
  config (c w).2 = config w → committed (c w).2 = committed w ++ fs →
  (direct w = true → pending (c w).2 = pending w) →
  ∃ w', (_ ← c; mret tt) w = (Ok tt, w') ∧ writer_wf w' ∧ committed w' = committed w ++ fs.
Proof.
  intros Hw Hok Hc Hcm Hp. run. destruct (c w) as [[a|e|] w'] eqn:E; [|done..].
  exists w'. split; [done|]. split; [|done].
  eapply (ready_after (Ok a)); [exact Hw|exact Hc|exact Hp].
Qed.

Lemma input_msg_frame id size data :
  size ≤ Z.of_nat HID_MAX_SIZE → size ≤ Z.of_nat (length data) →
  ControlMessage_wf (input_msg id size data) →
  serialize (input_msg id size data) = Ok (input_frame id size data).
Proof.
  intros H1 H2 Hwf.
  pose proof (encode_uhid_input_serialize (mkUhidInput id size
    (fixed_data (Nat.min (length data) HID_MAX_SIZE) data)) Hwf) as H.
  unfold encode_uhid_input_to_array in H. cbn [ui_id ui_size ui_data] in H.
  rewrite decide_False in H.
  2: { rewrite length_fixed_data by lia. lia. }
  etrans; [exact H|]. unfold input_frame.
  assert (take (Z.to_nat size) (fixed_data (Nat.min (length data) HID_MAX_SIZE) data)
          = take (Z.to_nat size) data) as ->; [|done].
  unfold fixed_data. rewrite take_app_le by (rewrite length_take; lia).
  rewrite take_take. f_equal. lia.
Qed.

Lemma packed_msg_frame id data :
  ControlMessage_wf (packed_msg id data) →
  serialize (packed_msg id data) = Ok (encode_gamepad_input_slice id data).
Proof.
  intros Hwf. pose proof (encode_uhid_input_serialize (mkUhidInput id 15 data) Hwf) as H.
  destruct Hwf as (_ & _ & Hl & _). cbn [ui_data] in Hl.
  unfold encode_uhid_input_to_array in H. cbn [ui_id ui_size ui_data] in H.
  rewrite decide_False in H by (rewrite Hl; unfold HID_MAX_SIZE; lia).
  etrans; [exact H|]. rewrite take_ge by (rewrite Hl; done). done.
Qed.

Lemma frame_msg_frame id fr : 
  encode_gamepad_input_fields_slice id fr = encode_gamepad_input_slice id (pack fr).
Proof. done. Qed.

Lemma packed_frames id l :
  Forall acceptable (packed_msg id <$> l) →
  frames (packed_msg id <$> l) = Ok (l ≫= encode_gamepad_input_slice id).
Proof.
  induction l as [|d l IH]; [done|]. rewrite fmap_cons.
  intros [[Hwf _] Hl]%Forall_cons. cbn [frames].
  rewrite (packed_msg_frame id d Hwf), (IH Hl). done.
Qed.

Lemma frame_msgs_frames id l :
  Forall acceptable (frame_msg id <$> l) →
  frames (frame_msg id <$> l) = Ok (l ≫= encode_gamepad_input_fields_slice id).
Proof.
  induction l as [|d l IH]; [done|]. rewrite fmap_cons.
  intros [[Hwf _] Hl]%Forall_cons. cbn [frames].
  assert (serialize (frame_msg id d) = Ok (encode_gamepad_input_slice id (pack d))) as ->
    by (by apply packed_msg_frame).
  by rewrite (IH Hl).
Qed.

(** The interface's [delivers] at the coalescing writer. *)
Definition writer_delivers (ms : list ControlMessage) (c : cmd W Error unit) : Prop :=
  ∀ w, writer_wf w → Forall acceptable ms →
    ∃ w' fs, c w = (Ok tt, w') ∧ writer_wf w' ∧ frames ms = Ok fs ∧
             committed w' = committed w ++ fs.

Lemma push_delivers m : writer_delivers [m] (_ ← push m; mret tt).
Proof.
  intros w Hw [[Hwf He] _]%Forall_cons.
  destruct (push_spec m w Hwf Hw) as [[Hc Hcm] Hset].
  pose proof (push_reliable m w Hwf He) as Hok.
  destruct (serialize_correct m Hwf He) as (f & Hf & _).
  rewrite Hok, (frame_of_ok m f Hf) in Hcm. run.
  destruct (push m w) as [[r|e|] w'] eqn:E; [|done..]. cbn [fst snd] in *.
  exists w', f. split; [done|]. split; [|split; [by apply frames_one|done]].
  destruct (Hset r eq_refl) as [_ Hs]. intros Hd. unfold settled in Hs.
  assert (direct w = true) as Hd' by (injection Hc as _ _ Hc _; congruence).
  rewrite Hd' in Hs. by apply Hs.
Qed.

Lemma uhid_input_delivers id size data :
  size ≤ Z.of_nat HID_MAX_SIZE → size ≤ Z.of_nat (length data) →
  writer_delivers [input_msg id size data] (_ ← push_uhid_input id size data; mret tt).
Proof.
  intros H1 H2 w Hw [[Hwf _] _]%Forall_cons.
  pose proof (push_uhid_input_spec id size data w Hw) as [Hc Hcm].
  pose proof (push_uhid_input_reliable id size data w) as Hok.
  unfold encode_uhid_input_to_array in Hcm, Hok.
  rewrite decide_False in Hcm, Hok by lia. rewrite Hok in Hcm.
  destruct (unit_after (push_uhid_input id size data) _ w Hw Hok Hc Hcm
    (push_uhid_input_pending id size data w)) as (w' & Hr & Hw' & Hs).
  exists w'. eexists. split; [exact Hr|]. split; [done|]. split; [|exact Hs].
  by apply frames_one, input_msg_frame.
Qed.

Lemma uhid_input_refuses id size data w :
  Z.of_nat HID_MAX_SIZE < size ∨ Z.of_nat (length data) < size → writer_wf w →
  ∃ w', (_ ← push_uhid_input id size data; mret tt) w
        = (Err (ControlMessageTooLarge size (Z.of_nat HID_MAX_SIZE + 5)), w') ∧
        writer_wf w' ∧ committed w' = committed w.
Proof.
  intros H Hw.
  assert (encode_uhid_input_to_array id size data =
    Err (ControlMessageTooLarge size (Z.of_nat HID_MAX_SIZE + 5))) as Ee.
  { unfold encode_uhid_input_to_array. by rewrite decide_True. }
  unfold push_uhid_input, count_pushed. run.
  destruct (direct w) eqn:Hd; [rewrite Ee|unfold on_pending, zoom;
    rewrite uhid_input_to_buf_run, Ee]; (eexists; split; [done|]; split; [exact Hw|done]).
Qed.

Lemma gamepad_delivers id data :
  writer_delivers [packed_msg id data] (_ ← push_gamepad_input id data; mret tt).
Proof.
  intros w Hw [[Hwf _] _]%Forall_cons.
  pose proof (push_gamepad_spec id data w Hw) as [Hc Hcm].
  pose proof (push_gamepad_reliable id data w) as Hok. rewrite Hok in Hcm.
  destruct (unit_after (push_gamepad_input id data) _ w Hw Hok Hc Hcm
    (push_gamepad_pending id data w)) as (w' & Hr & Hw' & Hs).
  exists w'. eexists. split; [exact Hr|]. split; [done|]. split; [|exact Hs].
  by apply frames_one, packed_msg_frame.
Qed.

Lemma fields_delivers id fr :
  writer_delivers [frame_msg id fr] (_ ← push_gamepad_input_fields id fr; mret tt).
Proof.
  intros w Hw [[Hwf _] _]%Forall_cons.
  pose proof (push_fields_reliable id fr w) as Hok.
  destruct (push_gamepad_input_fields id fr w).1 as [r|e|] eqn:E; [|done..].
  destruct (push_fields_single id fr w r Hw E) as [Hc Hcm].
  rewrite <-E in Hok.
  destruct (unit_after (push_gamepad_input_fields id fr) _ w Hw Hok Hc Hcm
    (push_fields_pending id fr w)) as (w' & Hr & Hw' & Hs).
  exists w'. eexists. split; [exact Hr|]. split; [done|]. split; [|exact Hs].
  by apply frames_one, packed_msg_frame.
Qed.

Lemma batch_delivers id l :
  writer_delivers (packed_msg id <$> l) (_ ← push_gamepad_input_batch id l; mret tt).
Proof.
  intros w Hw Hl.
  pose proof (push_batch_reliable (push_gamepad_input id) (encode_gamepad_input_slice id)
    (push_gamepad_input_to_buf id) (gamepad_to_buf_run id) l w
    (push_gamepad_reliable id)) as Hok.
  destruct (push_batch _ _ _ l w).1 as [r|e|] eqn:E in Hok; [|done..].
  destruct (push_batch_commits (push_gamepad_input id) (encode_gamepad_input_slice id)
    (push_gamepad_input_to_buf id) (gamepad_to_buf_run id) (push_gamepad_single id) l w r Hw)
    as (Hc & Hcm & _); [|exact E|].
  { rewrite Forall_fmap in Hl. eapply Forall_impl; [exact Hl|]. intros d [[_ [_ [Hd _]]] _].
    unfold encode_gamepad_input_slice. cbn in Hd.
    by rewrite !length_app, !length_be_bytes, Hd. }
  destruct (unit_after (push_gamepad_input_batch id l) _ w Hw (f_equal is_ok E) Hc Hcm)
    as (w' & Hr & Hw' & Hs).
  { intros Hd. apply push_batch_pending; [done|]. intros. by apply push_gamepad_pending. }
  exists w'. eexists. split; [exact Hr|]. split; [done|]. split; [|exact Hs].
  by apply packed_frames.
Qed.

Lemma batch_fields_delivers id l :
  writer_delivers (frame_msg id <$> l) (_ ← push_gamepad_input_batch_from_fields id l; mret tt).
Proof.
  intros w Hw Hl.
  pose proof (push_batch_reliable (push_gamepad_input_fields id)
    (encode_gamepad_input_fields_slice id) (push_gamepad_input_fields_to_buf id)
    (gamepad_fields_to_buf_run id) l w (push_fields_reliable id)) as Hok.
  destruct (push_batch _ _ _ l w).1 as [r|e|] eqn:E in Hok; [|done..].
  destruct (push_fields_batch id l w r Hw E) as (Hc & Hcm & _).
  destruct (unit_after (push_gamepad_input_batch_from_fields id l) _ w Hw (f_equal is_ok E)
    Hc Hcm) as (w' & Hr & Hw' & Hs).
  { intros Hd. apply push_batch_pending; [done|]. intros. by apply push_fields_pending. }
  exists w'. eexists. split; [exact Hr|]. split; [done|]. split; [|exact Hs].
  by apply frame_msgs_frames.
Qed.

Lemma flush_delivers w :
  writer_wf w → ∃ n w', flush_now w = (Ok n, w') ∧ writer_wf w' ∧ committed w' = committed w.
Proof.
  intros Hw. pose proof (flush_now_commits w) as [Hc Hcm].
  pose proof (flush_now_reliable w) as Hok. pose proof (flush_now_spec w) as (_ & _ & Hm).
  rewrite Hok, app_nil_r in Hcm. destruct (flush_now w) as [[n|e|] w']; [|done..].
  cbn [fst snd] in *. exists n, w'. split; [done|]. split; [|done].
  intros _. apply Hm.
Qed.

Lemma drop_delivers w :
  writer_wf w → ∃ w', drop_writer w = (Ok tt, w') ∧ writer_wf w' ∧ committed w' = committed w.
Proof.
  intros Hw. destruct (flush_delivers w Hw) as (n & w' & H & Hw' & Hs).
  exists w'. unfold drop_writer. by rewrite H.
Qed.

#[export] Instance Coalescing_reliable : ReliableSink (CoalescingWriter T) := {|
  ready := writer_wf;
  sent := committed;
  sink_push_ok := push_delivers;
  sink_uhid_input_ok := uhid_input_delivers;
  sink_uhid_input_err := uhid_input_refuses;
  sink_gamepad_ok := gamepad_delivers;
  sink_gamepad_fields_ok := fields_delivers;
  sink_gamepad_batch_ok := batch_delivers;
  sink_gamepad_batch_fields_ok := batch_fields_delivers;
  sink_flush_ok := flush_delivers;
  sink_drop_ok := drop_delivers;
|}.
End Coalescing.
