(* ===== verification/Session.v ===== *)
(** * The session ([src/src/session.rs])

    [HidSession]: opening and closing the UHID devices, keyboard, mouse and gamepad
    events, the scrcpy intents and the guards that clean up after a failure.  The code is
    generic in the writer it owns, through [MessageSink]; the source's writer is
    [CoalescingWriter].  Touch gestures are in [Touch].

    Durations only reach the writer's clock, which is arbitrary, so [sleep] has no
    definition of its own. *)

From S2P Require Import Prelude Words Errors Types Utf8 Float32 Message Transport Descriptor.
From S2P Require Import Keyboard Mouse Gamepad Coalesce Sink.
Local Open Scope Z_scope.

Record OpenRequest : Set := mkOpenRequest
  { or_kbd : bool; or_mouse : bool; or_gamepad : bool; or_coalesce : bool;
    or_coalesce_window : Z; or_coalesce_hard_limit : Z }.

Definition request_none : OpenRequest :=
  mkOpenRequest false false false true DEFAULT_WINDOW DEFAULT_HARD_LIMIT.
Definition request_all : OpenRequest :=
  mkOpenRequest true true true true DEFAULT_WINDOW DEFAULT_HARD_LIMIT.
Definition kbd_only : OpenRequest :=
  mkOpenRequest true false false true DEFAULT_WINDOW DEFAULT_HARD_LIMIT.
Definition mouse_only : OpenRequest :=
  mkOpenRequest false true false true DEFAULT_WINDOW DEFAULT_HARD_LIMIT.
Definition gamepad_only : OpenRequest :=
  mkOpenRequest false false true true DEFAULT_WINDOW DEFAULT_HARD_LIMIT.
Definition gamepad_only_realtime : OpenRequest := mkOpenRequest false false true false 0 0.
Definition with_coalesce (r : OpenRequest) (coalesce : bool) : OpenRequest :=
  mkOpenRequest (or_kbd r) (or_mouse r) (or_gamepad r) coalesce (or_coalesce_window r)
    (or_coalesce_hard_limit r).
Definition with_coalesce_window (r : OpenRequest) (w : Z) : OpenRequest :=
  mkOpenRequest (or_kbd r) (or_mouse r) (or_gamepad r) (or_coalesce r) w
    (or_coalesce_hard_limit r).
Definition with_coalesce_hard_limit (r : OpenRequest) (l : Z) : OpenRequest :=
  mkOpenRequest (or_kbd r) (or_mouse r) (or_gamepad r) (or_coalesce r)
    (or_coalesce_window r) l.

(** The writer [HidSession::open] wraps the transport in. *)
Definition connect {T} (t : T) (req : OpenRequest) (clk : nat → Z) : CoalescingWriter T :=
  if or_coalesce req && negb (or_coalesce_window req =? 0)
  then with_limits t (or_coalesce_window req) (Z.max (or_coalesce_hard_limit req) 1) clk
  else direct_writer t clk.

Record HidSession (W : Type) : Type := mkSession
  { link : W; kbd : option KeyboardHid; mouse : option MouseHid; gamepad : option GamepadHid;
    gamepad_slot : option nat; gamepad_hid_id : option Z; closed : bool;
    screen_w : Z; screen_h : Z }.
Arguments mkSession {W}.
Arguments link {W}.
Arguments kbd {W}.
Arguments mouse {W}.
Arguments gamepad {W}.
Arguments gamepad_slot {W}.
Arguments gamepad_hid_id {W}.
Arguments closed {W}.
Arguments screen_w {W}.
Arguments screen_h {W}.

Definition ACTION_DOWN : Z := 0.
Definition ACTION_UP : Z := 1.
Definition ACTION_MOVE : Z := 2.

Section Session.
Context {W : Type} `{!MessageSink W}.
Abbreviation S := (HidSession W).
Implicit Types s : S.

Definition set_link (l : W) s := mkSession l (kbd s) (mouse s) (gamepad s) (gamepad_slot s)
  (gamepad_hid_id s) (closed s) (screen_w s) (screen_h s).
Definition set_kbd (k : option KeyboardHid) s := mkSession (link s) k (mouse s) (gamepad s)
  (gamepad_slot s) (gamepad_hid_id s) (closed s) (screen_w s) (screen_h s).
Definition set_mouse (m : option MouseHid) s := mkSession (link s) (kbd s) m (gamepad s)
  (gamepad_slot s) (gamepad_hid_id s) (closed s) (screen_w s) (screen_h s).
Definition set_gamepad (g : option GamepadHid) (slot : option nat) (id : option Z) s :=
  mkSession (link s) (kbd s) (mouse s) g slot id (closed s) (screen_w s) (screen_h s).
Definition set_closed (b : bool) s := mkSession (link s) (kbd s) (mouse s) (gamepad s)
  (gamepad_slot s) (gamepad_hid_id s) b (screen_w s) (screen_h s).
Definition set_screen (w h : Z) s := mkSession (link s) (kbd s) (mouse s) (gamepad s)
  (gamepad_slot s) (gamepad_hid_id s) (closed s) w h.

Definition on_link {A} (c : cmd W Error A) : cmd S Error A := zoom link set_link c.

(** [HidSession::send] *)
Definition send (msg : ControlMessage) : cmd S Error unit := on_link (sink_push msg).

(** [HidSession::flush_now] *)
Definition session_flush : cmd S Error Z := on_link sink_flush.

Definition set_screen_size (w h : Z) : cmd S Error unit := modify (set_screen w h).

Definition is_closed s : bool := closed s.

(** ** Opening and closing *)

Definition new_session (l : W) : S :=
  mkSession l None None None None None false 1080 1920.

(** The device part of [HidSession::open]; [GamepadHid::open] runs on a local driver
    that becomes the session's only after its UHID_CREATE was sent. *)
Definition open_devices (req : OpenRequest) : cmd S Error unit :=
  (if or_kbd req then
     msg ← lift (open_message Keyboard_new None);
     send msg;;
     modify (set_kbd (Some Keyboard_new))
   else mret tt);;
  (if or_mouse req then
     msg ← lift (open_message Mouse_new None);
     send msg;;
     modify (set_mouse (Some Mouse_new))
   else mret tt);;
  if or_gamepad req then
    let '(opened, g) := Gamepad.open HID_ID_GAMEPAD_FIRST (Some XBOX_NAME) Gamepad_new in
    '(hid_id, create) ← lift opened;
    slot_idx ← lift (ok_or (slot_from_hid_id hid_id) (SessionLifecycle "invalid gamepad id"));
    send create;;
    modify (set_gamepad (Some g) (Some slot_idx) (Some hid_id))
  else mret tt.

(** The gamepad part of [try_close_all]. *)
Definition close_gamepad : cmd S Error unit :=
  g ← read gamepad;
  match g with
  | None => mret tt
  | Some g =>
      slot ← read gamepad_slot;
      let '(msg, g') :=
        match slot with
        | Some slot_idx => close_slot_idx slot_idx g
        | None => Gamepad.close HID_ID_GAMEPAD_FIRST g
        end in
      id ← read gamepad_hid_id;
      modify (set_gamepad (Some g') slot id);;
      match msg with
      | Ok msg => send msg
      | Err _ => mret tt
      | Panicked => unwind
      end;;
      modify (set_gamepad None None None)
  end.

Definition try_close_all : cmd S Error unit :=
  c ← read closed;
  if (c : bool) then mret tt
  else
    k ← read kbd;
    match k with
    | Some k => msg ← lift (close_message k); send msg
    | None => mret tt
    end;;
    m ← read mouse;
    match m with
    | Some m => msg ← lift (close_message m); send msg
    | None => mret tt
    end;;
    close_gamepad;;
    modify (set_closed true).

Definition close : cmd S Error unit := try_close_all.

(** [Drop]: errors and unwinds of the close are swallowed; the fields are dropped
    afterwards, the writer among them. *)
Definition drop_session : cmd S Error unit := λ s,
  let s := if closed s then s else (try_close_all s).2 in
  on_link sink_drop s.

(** [HidSession::open]: on an error the half-open session is dropped. *)
Definition open (l : W) (req : OpenRequest) : outcome Error unit * S :=
  match open_devices req (new_session l) with
  | (Ok _, s) => (Ok tt, s)
  | (o, s) => (o, (drop_session s).2)
  end.

(** ** Keyboard *)

(** [self.kbd.as_mut().ok_or(..)?] followed by a method of the driver. *)
Definition on_kbd {A} (c : cmd KeyboardHid Error A) : cmd S Error A := λ s,
  match kbd s with
  | None => (Err (SessionLifecycle "keyboard not open"), s)
  | Some k => let '(o, k') := c k in (o, set_kbd (Some k') s)
  end.

Definition key (scancode : Z) (pressed : bool) (mods : Modifiers) : cmd S Error unit :=
  msg ← on_kbd (key_event scancode pressed mods);
  send msg.

(** The scancode of a character, with its modifiers. *)
Definition type_char (sc : Scancode) (mods : Modifiers) : cmd S Error unit :=
  key (to_u8 sc) true mods;; key (to_u8 sc) false mods.

Definition type_text (text : str) : cmd S Error unit :=
  for_each (default [] (chars text)) (λ ch,
    match try_from_char ch with
    | (mods, Some sc) => type_char sc mods
    | (_, None) => mret tt
    end).

Definition type_text_strict (text : str) : cmd S Error unit :=
  for_each (default [] (chars text)) (λ ch,
    let '(mods, sc) := try_from_char ch in
    sc ← lift (ok_or sc (SessionLifecycle "unsupported char in type_text_strict"));
    type_char sc mods).

(** [KbdChordGuard] releases the key and the modifiers unless disarmed. *)
Definition key_chord (mods : Modifiers) (scancode : Z) : cmd S Error unit :=
  guarded
    (key scancode true mods;;
     key scancode false mods;;
     key scancode false Modifiers_empty)
    (ignore_err (key scancode false Modifiers_empty)).

(** ** Gamepad *)

(** [gamepad_with_cached_slot] followed by a method of the driver. *)
Definition with_gamepad {A} (f : nat → cmd GamepadHid Error A) : cmd S Error A := λ s,
  if closed s then (Err (SessionLifecycle "session closed"), s)
  else
    match gamepad_slot s, gamepad s with
    | Some slot_idx, Some g =>
        let '(o, g') := f slot_idx g in
        (o, set_gamepad (Some g') (gamepad_slot s) (gamepad_hid_id s) s)
    | _, _ => (Err (SessionLifecycle "gamepad not open"), s)
    end.

(** [self.gamepad_hid_id()] *)
Definition get_gamepad_hid_id : cmd S Error Z := λ s,
  if closed s then (Err (SessionLifecycle "session closed"), s)
  else (ok_or (gamepad_hid_id s) (SessionLifecycle "gamepad not open"), s).

(** [if let Some((hid_id, payload)) = .. { push_gamepad_input(hid_id, &payload)? }] *)
Definition push_changed (r : option (Z * bytes)) : cmd S Error unit :=
  match r with
  | Some (hid_id, payload) => on_link (sink_gamepad hid_id payload)
  | None => mret tt
  end.

Definition set_stick_raw (axis : GamepadAxis) (raw : Z) : cmd S Error unit :=
  r ← with_gamepad (λ i, axis_event_slot_idx_raw i axis raw);
  push_changed r.

(** [(value.clamp(-1.0, 1.0) * 32767.0) as i16] *)
Definition stick_of_f32 (value : f32) : Z :=
  f32_as_i16 (fmul (fclamp value (f32_of_Z (-1)) (f32_of_Z 1)) (f32_of_Z 32767)).

Definition set_stick (axis : GamepadAxis) (value : f32) : cmd S Error unit :=
  set_stick_raw axis (stick_of_f32 value).

(** [HidSession::set_buttons] *)
Definition set_session_buttons (btns : Z) : cmd S Error unit :=
  r ← with_gamepad (λ i, buttons_event_slot_idx_raw i btns);
  push_changed r.

Definition full_frame (frame : GamepadFrameRaw) (i : nat) :
    cmd GamepadHid Error (option (Z * bytes)) :=
  full_state_event_slot_idx_raw i (fr_buttons frame) (fr_left_x frame) (fr_left_y frame)
    (fr_right_x frame) (fr_right_y frame) (fr_left_trigger frame) (fr_right_trigger frame).

Definition set_frame_raw (frame : GamepadFrameRaw) : cmd S Error unit :=
  r ← with_gamepad (full_frame frame);
  push_changed r.

Definition set_frame_raw_unchecked (frame : GamepadFrameRaw) : cmd S Error unit :=
  hid_id ← get_gamepad_hid_id;
  on_link (sink_gamepad_fields hid_id frame).

Definition set_frame_raw_packed (payload : bytes) : cmd S Error unit :=
  hid_id ← get_gamepad_hid_id;
  on_link (sink_gamepad hid_id payload).

Definition inject_raw_gamepad_report (payload : bytes) : cmd S Error unit :=
  if decide (payload = []) then raise (SessionLifecycle "raw gamepad report is empty")
  else if decide (HID_MAX_SIZE < length payload)%nat then
    raise (ControlMessageTooLarge (Z.of_nat (length payload)) (Z.of_nat HID_MAX_SIZE))
  else
    hid_id ← get_gamepad_hid_id;
    on_link (sink_uhid_input hid_id (wrap 16 (Z.of_nat (length payload))) payload).

(** The loop of [set_frame_raw_batch]: the frames collected so far, the id of the
    first one, the number sent. *)
Fixpoint frame_batch_loop (frames : list GamepadFrameRaw) (batch : list bytes)
    (batch_id : option Z) (count : Z) : cmd S Error (list bytes * option Z * Z) :=
  match frames with
  | [] => mret (batch, batch_id, count)
  | frame :: frames =>
      r ← with_gamepad (full_frame frame);
      match r with
      | None => frame_batch_loop frames batch batch_id count
      | Some (hid_id, payload) =>
          let id := default hid_id batch_id in
          let batch := batch ++ [payload] in
          if decide (length batch = DIRECT_GAMEPAD_BATCH_FRAMES) then
            on_link (sink_gamepad_batch id batch);;
            frame_batch_loop frames [] (Some id) (count + 1)
          else frame_batch_loop frames batch (Some id) (count + 1)
      end
  end.

Definition set_frame_raw_batch (frames : list GamepadFrameRaw) : cmd S Error Z :=
  match frames with
  | [] => mret 0
  | [frame] =>
      r ← with_gamepad (full_frame frame);
      push_changed r;;
      mret (match r with Some _ => 1 | None => 0 end)
  | _ =>
      with_gamepad (λ _, mret tt);;
      '(batch, batch_id, count) ← frame_batch_loop frames [] None 0;
      match batch, batch_id with
      | _ :: _, Some id => on_link (sink_gamepad_batch id batch)
      | _, _ => mret tt
      end;;
      mret count
  end.

Definition set_frame_raw_batch_unchecked (frames : list GamepadFrameRaw) : cmd S Error Z :=
  match frames with
  | [] => mret 0
  | [frame] => set_frame_raw_unchecked frame;; mret 1
  | _ =>
      hid_id ← get_gamepad_hid_id;
      on_link (sink_gamepad_batch_fields hid_id frames);;
      mret (Z.of_nat (length frames))
  end.

Definition set_frame_raw_packed_batch (frames : list bytes) : cmd S Error Z :=
  match frames with
  | [] => mret 0
  | [frame] => set_frame_raw_packed frame;; mret 1
  | _ =>
      hid_id ← get_gamepad_hid_id;
      on_link (sink_gamepad_batch hid_id frames);;
      mret (Z.of_nat (length frames))
  end.

Definition set_left_stick_raw (x y : Z) : cmd S Error unit :=
  r ← with_gamepad (λ i, left_stick_raw_slot_idx_raw i x y);
  push_changed r.

Definition set_right_stick_raw (x y : Z) : cmd S Error unit :=
  r ← with_gamepad (λ i, right_stick_raw_slot_idx_raw i x y);
  push_changed r.

Definition set_triggers_raw (l r : Z) : cmd S Error unit :=
  c ← with_gamepad (λ i, triggers_raw_slot_idx_raw i l r);
  push_changed c.

(** [HidSession::set_sticks_raw] *)
Definition set_session_sticks_raw (lx ly rx ry lt rt : Z) : cmd S Error unit :=
  r ← with_gamepad (λ i, set_sticks_raw_slot_idx_raw i lx ly rx ry lt rt);
  push_changed r.

Definition set_button (btn : GamepadButton) (pressed : bool) : cmd S Error unit :=
  r ← with_gamepad (λ i, button_event_slot_idx_raw i btn pressed);
  push_changed r.

(** ** Mouse *)

Definition push_report (report : HidReport) : cmd S Error unit :=
  on_link (sink_uhid_input (hr_hid_id report) (hr_size report) (hr_data report)).

(** [self.mouse.as_mut().ok_or(..)?] *)
Definition on_mouse {A} (c : cmd MouseHid Error A) : cmd S Error A := λ s,
  match mouse s with
  | None => (Err (SessionLifecycle "mouse not open"), s)
  | Some m => let '(o, m') := c m in (o, set_mouse (Some m') s)
  end.

Definition mouse_motion (dx dy buttons_state : Z) : cmd S Error unit :=
  report ← on_mouse (mret (generate_input_from_motion dx dy buttons_state));
  push_report report.

Definition mouse_buttons (buttons_state : Z) : cmd S Error unit :=
  report ← on_mouse (mret (generate_input_from_click buttons_state));
  push_report report.

Definition mouse_scroll (hscroll vscroll : f32) : cmd S Error bool :=
  report ← on_mouse (λ m, let '(r, m') := generate_input_from_scroll hscroll vscroll m in
                          (Ok r, m'));
  match report with
  | None => mret false
  | Some report => push_report report;; mret true
  end.

Definition mouse_frame_batch (frames : list (Z * Z * Z)) : cmd S Error Z :=
  match frames with
  | [] => mret 0
  | _ =>
      on_mouse (mret tt);;
      for_each frames (λ '(dx, dy, buttons),
        report ← on_mouse (mret (generate_input_from_motion dx dy buttons));
        on_link (sink_uhid_input HID_ID_MOUSE (hr_size report) (hr_data report)));;
      mret (Z.of_nat (length frames))
  end.

(** ** Intents *)

Definition set_screen_power (on : bool) : cmd S Error unit := send (Cm_SetDisplayPower on).

Definition inject_keycode (action keycode repeat metastate : Z) : cmd S Error unit :=
  send (Cm_InjectKeycode (mkInjectKeycode action keycode repeat metastate)).
Definition inject_android_keycode (action keycode repeat metastate : Z) : cmd S Error unit :=
  inject_keycode action keycode repeat metastate.
Definition inject_android_key_event (action keycode repeat metastate : Z) :
    cmd S Error unit := inject_android_keycode action keycode repeat metastate.
Definition press_android_key (keycode : Z) : cmd S Error unit :=
  inject_android_key_event KEY_ACTION_DOWN keycode 0 0.
Definition release_android_key (keycode : Z) : cmd S Error unit :=
  inject_android_key_event KEY_ACTION_UP keycode 0 0.
Definition tap_android_keycode (keycode metastate : Z) : cmd S Error unit :=
  inject_keycode KEY_ACTION_DOWN keycode 0 metastate;;
  inject_keycode KEY_ACTION_UP keycode 0 metastate.
Definition tap_android_key (keycode : Z) : cmd S Error unit := tap_android_keycode keycode 0.
Definition tap_android_key_with_metastate (keycode metastate : Z) : cmd S Error unit :=
  tap_android_keycode keycode metastate.

Definition back_or_screen_on (action : Z) : cmd S Error unit := send (Cm_BackOrScreenOn action).
Definition press_home : cmd S Error unit := press_android_key KEYCODE_HOME.
Definition press_back : cmd S Error unit := press_android_key KEYCODE_BACK.
Definition open_recents : cmd S Error unit := press_android_key KEYCODE_APP_SWITCH.
Definition volume_up : cmd S Error unit := press_android_key KEYCODE_VOLUME_UP.
Definition volume_down : cmd S Error unit := press_android_key KEYCODE_VOLUME_DOWN.
Definition volume_mute : cmd S Error unit := press_android_key KEYCODE_VOLUME_MUTE.

Definition show_notifications : cmd S Error unit := send Cm_ExpandNotificationPanel.
Definition show_quick_settings : cmd S Error unit := send Cm_ExpandSettingsPanel.
Definition collapse_panels : cmd S Error unit := send Cm_CollapsePanels.
Definition rotate_device : cmd S Error unit := send Cm_RotateDevice.
Definition resize_display (w h : Z) : cmd S Error unit := send (Cm_ResizeDisplay w h).
Definition set_torch (on : bool) : cmd S Error unit := send (Cm_CameraSetTorch on).
Definition camera_zoom_in : cmd S Error unit := send Cm_CameraZoomIn.
Definition camera_zoom_out : cmd S Error unit := send Cm_CameraZoomOut.
Definition open_hard_keyboard_settings : cmd S Error unit := send Cm_OpenHardKeyboardSettings.
Definition reset_video : cmd S Error unit := send Cm_ResetVideo.
Definition configure_ai (flags sample_interval_ms feature_dim : Z) : cmd S Error unit :=
  send (Cm_AiConfig (mkAiConfig flags sample_interval_ms feature_dim)).
Definition query_ai (since_timestamp_ms : Z) : cmd S Error unit :=
  send (Cm_AiQuery (mkAiQuery since_timestamp_ms)).
Definition pause_ai : cmd S Error unit := send Cm_AiPause.
Definition launch_app (name : str) : cmd S Error unit := send (Cm_StartApp name).
Definition set_clipboard (text : str) (paste : bool) : cmd S Error unit :=
  send (Cm_SetClipboard (mkSetClipboard 0 paste text)).
Definition request_clipboard (copy_key : Z) : cmd S Error unit := send (Cm_GetClipboard copy_key).
Definition request_clipboard_key (copy_key : Z) : cmd S Error unit := request_clipboard copy_key.
Definition get_clipboard : cmd S Error unit := request_clipboard_key COPY_KEY_NONE.

(** ** Touch and scroll injection *)

(** [touch_msg] reads the screen size. *)
Definition touch_msg (action pointer_id x y : Z) (pressure : f32) s : ControlMessage :=
  Cm_InjectTouchEvent
    (mkInjectTouchEvent action pointer_id x y (screen_w s) (screen_h s) pressure 0 0).

Definition inject_touch (action pointer_id x y : Z) (pressure : f32) : cmd S Error unit :=
  msg ← read (touch_msg action pointer_id x y pressure);
  send msg.

Definition touch_msg_pub (action pointer_id x y : Z) (pressure : f32) : cmd S Error unit :=
  inject_touch action pointer_id x y pressure.
Definition inject_touch_action (action pointer_id x y : Z) (pressure : f32) :
    cmd S Error unit := inject_touch action pointer_id x y pressure.
Definition inject_touch_pointer (action pointer_id x y : Z) (pressure : f32) :
    cmd S Error unit := inject_touch_action action pointer_id x y pressure.
Definition cancel_touch (pointer_id : Z) : cmd S Error unit :=
  inject_touch_action TOUCH_CANCEL pointer_id 0 0 (f32_of_Z 0).
Definition cancel_touch_pointer (pointer_id : Z) : cmd S Error unit := cancel_touch pointer_id.

Definition inject_scroll (x y : Z) (hscroll vscroll : f32) (buttons : Z) :
    cmd S Error unit :=
  w ← read screen_w;
  h ← read screen_h;
  send (Cm_InjectScrollEvent (mkInjectScrollEvent x y w h hscroll vscroll buttons)).
Definition scroll (x y : Z) (hscroll vscroll : f32) : cmd S Error unit :=
  inject_scroll x y hscroll vscroll 0.

(** *** The drivers

    An accessor lends the caller a driver: [use] is what the caller does with it. *)

Definition lend {X A} (get : S → option X) (put : X → S → S) (use : cmd X Error A) : cmd S Error A := λ s,
  match get s with
  | Some x => let '(o, x') := use x in (o, put x' s)
  | None => (Panicked, s)
  end.
Definition keyboard {A} : cmd KeyboardHid Error A → cmd S Error A := lend kbd (λ k, set_kbd (Some k)).
Definition mouse_driver {A} : cmd MouseHid Error A → cmd S Error A := lend mouse (λ m, set_mouse (Some m)).
Definition gamepad_driver {A} : cmd GamepadHid Error A → cmd S Error A :=
  lend gamepad (λ g s, set_gamepad (Some g) (gamepad_slot s) (gamepad_hid_id s) s).
End Session.

(** [HidSession::into_inner] on the source's writer: unwinds unless closed (the session
    is then dropped) or when the last flush fails. *)
Definition session_into_inner {T} `{!TransportWrite T} (s : HidSession (CoalescingWriter T)) :
    outcome Error T * T :=
  if closed s then
    match into_inner (link s) with
    | (Ok t, t') => (Ok t, t')
    | (_, t') => (Panicked, t')
    end
  else (Panicked, transport (link (drop_session s).2)).

(** [stats] and [flushes]. *)
Definition stats {T} (s : HidSession (CoalescingWriter T)) : Z * Z * Z :=
  (pushed (link s), written (link s), pending_bytes (link s)).
Definition session_flushes {T} (s : HidSession (CoalescingWriter T)) : Z := flushes (link s).
