(* ===== verification/Touch.v ===== *)
(** * Touch gestures ([src/src/session.rs], [src/src/multitouch.rs])

    The gestures of [HidSession] over [inject_touch]: taps behind the [TouchGuard], swipes
    and drags with their [f32] interpolation, the ten-pointer [MultitouchHandle], pinches
    and multi-finger taps with their release paths; how far an interpolated point is from the
    line. *)

From S2P Require Import Prelude Words Errors Types Utf8 Float32 Message Transport Descriptor.
From S2P Require Import Keyboard Mouse Gamepad Coalesce Sink Session.
Local Open Scope Z_scope.

Definition MAX_POINTERS : Z := 10.
Definition ACTION_CANCEL : Z := 3.

Definition one : f32 := f32_of_Z 1.
Definition zero : f32 := f32_of_Z 0.

(** [(a as f32 + (b - a) as f32 * (i as f32 / steps as f32)).round() as i32]; the
    subtraction is [i32]'s. *)
Definition interpolate (a b i steps : Z) : Z :=
  let t := fdiv (f32_of_Z i) (f32_of_Z steps) in
  f32_as_i32 (fround (fadd (f32_of_Z a) (fmul (f32_of_Z (swrap 32 (b - a))) t))).

Lemma scaled_error n e K : 0 < n → Z.abs e * 2 ≤ K → Z.abs (n * e) * 2 ≤ n * K.
Proof. intros Hn He. rewrite Z.abs_mul, Z.abs_eq by lia. nia. Qed.

(** Between points up to half a million pixels out, the interpolated point is less than a
    pixel from the exact one, in spite of the rounding of four operations. *)
Lemma interpolate_near a b i n :
  Z.abs a ≤ 2 ^ 19 → Z.abs b ≤ 2 ^ 19 → 1 ≤ i < n → n ≤ 256 →
  Z.abs (n * interpolate a b i n - (a * (n - i) + b * i)) < n.
Proof.
  intros Ha Hb Hi Hn. unfold interpolate. cbv zeta. rewrite swrap_small by (widths; lia).
  destruct (fraction_near i n Hi Hn) as (Ht & Hvt & Het). set (t := fdiv _ _) in *.
  destruct (f32_of_Z_exact a ltac:(lia)) as [Hfa Hva]. destruct (f32_of_Z_exact (b - a) ltac:(lia)) as [Hfd Hvd].
  set (d := b - a) in *.
  assert (finite32 (fmul (f32_of_Z d) t) ∧ Z.abs (val (fmul (f32_of_Z d) t) - d * val t) * 2 ≤ 2 ^ 147) as [Hfp Hvp].
  { destruct (decide (d = 0)) as [->|Hd].
    { destruct t as [s| | |s m e]; try done; cbn in Hvt; lia. }
    destruct (fmul_near (f32_of_Z d) t 22) as [Hf Hv]; try done.
    - rewrite Hvd. unfold unit32. lia.
    - lia.
    - rewrite Hvd. unfold unit32 in *. nia.
    - split; [done|]. rewrite Hvd in Hv. unfold unit32 in Hv.
      replace (d * 2 ^ 149 * val t) with (d * val t * 2 ^ 149) in Hv by ring.
      rewrite <-Z.mul_sub_distr_r, Z.abs_mul, (Z.abs_eq (2 ^ 149)) in Hv by done. lia. }
  set (p := fmul _ t) in *.
  assert (Z.abs (d * val t) ≤ 2 ^ 21 * unit32) as Hdt by nia.
  destruct (fadd_near (f32_of_Z a) p 22) as [Hfw Hvw]; [done..| |lia|].
  { rewrite Hva. unfold unit32 in *. lia. }
  rewrite Hva in Hvw. set (w := fadd _ p) in *.
  destruct (fround_near w) as (Hfr & x & Hx & Hvx); [done|unfold unit32 in *; lia|].
  unfold f32_as_i32. rewrite cast_sat_finite, to_Z_val, Hx, Z.quot_mul by done.
  assert (Z.abs x < 2 ^ 23) as Hxb by (unfold unit32 in *; lia).
  replace (Z.max _ (Z.min _ x)) with x by (clear -Hxb; lia). unfold unit32 in *.
  set (vt := val t) in *. set (vp := val p) in *. set (vw := val w) in *. clearbody vt vp vw.
  clear -Ha Hb Hi Hn Het Hvp Hvw Hvx.
  assert (Z.abs (d * (vt * n - i * 2 ^ 149)) ≤ 2 ^ 20 * (3 * n * 2 ^ 125)) as H1.
  { rewrite Z.abs_mul. apply Z.mul_le_mono_nonneg; lia. }
  assert (n * x * 2 ^ 149 - (a * (n - i) + b * i) * 2 ^ 149 =
          n * (x * 2 ^ 149 - vw) + n * (vw - (a * 2 ^ 149 + vp)) + n * (vp - d * vt) + d * (vt * n - i * 2 ^ 149)) as E
    by (subst d; ring).
  pose proof (scaled_error n (x * 2 ^ 149 - vw) (2 ^ 149) ltac:(lia) ltac:(lia)) as H2.
  pose proof (scaled_error n (vw - (a * 2 ^ 149 + vp)) (2 ^ 147) ltac:(lia) ltac:(lia)) as H3.
  pose proof (scaled_error n (vp - d * vt) (2 ^ 147) ltac:(lia) ltac:(lia)) as H4.
  rewrite <-Z.mul_sub_distr_r in E. set (y := n * x - _) in *. clearbody y.
  set (e1 := n * (x * _ - vw)) in *. set (e2 := n * (vw - _)) in *. set (e3 := n * (vp - _)) in *.
  set (e4 := d * (vt * n - _)) in *. clearbody e1 e2 e3 e4. clear -H1 H2 H3 H4 E Hi. lia.
Qed.

(** [Vec::swap_remove] *)
Definition swap_remove (i : nat) (l : list Z) : list Z :=
  match last l with
  | None => l
  | Some x => take (length l - 1) (<[i := x]> l)
  end.

Section Touch.
Context {W : Type} `{!MessageSink W}.
Abbreviation S := (HidSession W).

(** ** The touch guard *)

Definition on_session {A X} (c : cmd S Error A) : cmd (S * X) Error A :=
  zoom fst (λ s p, (s, p.2)) c.

Definition mark_pressed (pointer_id : Z) : cmd (S * list Z) Error unit :=
  modify (λ p, (p.1, p.2 ++ [pointer_id])).

Definition mark_released (pointer_id : Z) : cmd (S * list Z) Error unit :=
  modify (λ p,
    match list_find (λ q, q = pointer_id) p.2 with
    | Some (pos, _) => (p.1, swap_remove pos p.2)
    | None => p
    end).

(** [Drop] of an armed guard. *)
Definition release_pressed : cmd (S * list Z) Error unit := λ p,
  for_each (reverse p.2)
    (λ pid, ignore_err (on_session (inject_touch ACTION_UP pid 0 0 zero))) p.

Definition touch_guard (body : cmd (S * list Z) Error unit) : cmd S Error unit := λ s,
  let '(o, p) := guarded body release_pressed (s, []) in (o, p.1).

(** ** Single pointer *)

Definition tap_pointer (pointer_id x y : Z) : cmd S Error unit :=
  touch_guard (
    on_session (down ← read (touch_msg ACTION_DOWN pointer_id x y one); send down);;
    mark_pressed pointer_id;;
    on_session (up ← read (touch_msg ACTION_UP pointer_id x y zero); send up);;
    mark_released pointer_id).

(** [TouchPointerId::finger(0)] is 0. *)
Definition tap (x y : Z) : cmd S Error unit := tap_pointer 0 x y.

(** The points [(x, y)] for [i in 1..steps]. *)
Definition move_along (pointer_id : Z) (from to : Z * Z) (steps : Z) : cmd S Error unit :=
  for_each (seqZ 1 (steps - 1)) (λ i,
    inject_touch ACTION_MOVE pointer_id (interpolate from.1 to.1 i steps)
      (interpolate from.2 to.2 i steps) one).

Definition swipe_pointer (pointer_id : Z) (from to : Z * Z) (steps : Z) : cmd S Error unit :=
  let steps := Z.max steps 2 in
  inject_touch ACTION_DOWN pointer_id from.1 from.2 one;;
  move_along pointer_id from to steps;;
  inject_touch ACTION_MOVE pointer_id to.1 to.2 one;;
  inject_touch ACTION_UP pointer_id to.1 to.2 zero.

Definition swipe (from to : Z * Z) (steps : Z) : cmd S Error unit :=
  swipe_pointer 0 from to steps.

Definition double_tap (x y : Z) : cmd S Error unit :=
  touch_msg_pub ACTION_DOWN 0 x y one;;
  touch_msg_pub ACTION_UP 0 x y zero;;
  touch_msg_pub ACTION_DOWN 0 x y one;;
  touch_msg_pub ACTION_UP 0 x y zero.

Definition long_press (x y : Z) : cmd S Error unit :=
  touch_msg_pub ACTION_DOWN 0 x y one;;
  touch_msg_pub ACTION_UP 0 x y zero.

Definition drag (from to : Z * Z) (steps : Z) : cmd S Error unit :=
  let steps := Z.max steps 2 in
  touch_msg_pub ACTION_DOWN 0 from.1 from.2 one;;
  move_along 0 from to steps;;
  touch_msg_pub ACTION_MOVE 0 to.1 to.2 one;;
  touch_msg_pub ACTION_UP 0 to.1 to.2 zero.

Definition three_finger_screenshot : cmd S Error unit :=
  w ← read screen_w;
  h ← read screen_h;
  for_each [0; 1; 2] (λ id,
    touch_msg_pub ACTION_DOWN id (Z.quot w 4 * (id + 1)) (Z.quot h 4) one);;
  for_each (seqZ 1 10) (λ step,
    for_each [0; 1; 2] (λ id,
      touch_msg_pub ACTION_MOVE id (Z.quot w 4 * (id + 1))
        (Z.quot h 4 + Z.quot (Z.quot h 2 * step) 10) one));;
  for_each [0; 1; 2] (λ id,
    touch_msg_pub ACTION_UP id (Z.quot w 4 * (id + 1)) (Z.quot (h * 3) 4) zero).

(** ** Multi-finger tap *)

(** The closure [release_all]: best effort, in reverse order. *)
Definition release_fingers : cmd (S * list bool) Error unit := λ p,
  for_each (reverse (imap pair p.2)) (λ '(id, pressed),
    if (pressed : bool)
    then ignore_err (on_session (inject_touch ACTION_UP (Z.of_nat id) 0 0 zero))
    else mret tt) p.

(** [if let Err(e) = result { cleanup; return Err(e); }] *)
Definition on_error {X A} (c : cmd X Error A) (cleanup : cmd X Error unit) : cmd X Error A :=
  λ s, match c s with
       | (Err e, s') => (cleanup;; raise e) s'
       | r => r
       end.

(** The two stages share the array of pressed fingers. *)
Definition multi_finger_tap (points : list (Z * Z)) : cmd S Error unit :=
  let fingers := Z.of_nat (length points) in
  if negb ((2 <=? fingers) && (fingers <=? MAX_POINTERS)) then
    raise (PointerIdOutOfRange fingers (MAX_POINTERS - 1))
  else λ s,
    let '(o, p) :=
      (on_error
         (for_each (imap pair points) (λ '(id, (x, y)),
            on_session (inject_touch ACTION_DOWN (Z.of_nat id) x y one);;
            modify (λ p, (p.1, <[id := true]> p.2))))
         release_fingers;;
       on_error
         (for_each (seqZ 0 fingers) (λ id, on_session (inject_touch ACTION_UP id 0 0 zero)))
         release_fingers) (s, replicate (Z.to_nat MAX_POINTERS) false) in
    (o, p.1).

(** ** [MultitouchHandle] *)

Record MultitouchHandle : Type := mkMultitouch { mt_session : S; active : list bool }.

Definition multitouch (s : S) : MultitouchHandle :=
  mkMultitouch s (replicate (Z.to_nat MAX_POINTERS) false).

Definition on_mt {A} (c : cmd S Error A) : cmd MultitouchHandle Error A :=
  zoom mt_session (λ s mt, mkMultitouch s (active mt)) c.

Definition active_count (mt : MultitouchHandle) : nat := length (filter Is_true (active mt)).
Definition is_active (id : Z) (mt : MultitouchHandle) : bool :=
  (id <? MAX_POINTERS) && nth (Z.to_nat id) (active mt) false.

Definition check_id (id : Z) : cmd MultitouchHandle Error unit :=
  if MAX_POINTERS <=? id then raise (PointerIdOutOfRange id (MAX_POINTERS - 1)) else mret tt.

(** [self.active[id]] and its assignment, after [check_id]. *)
Definition get_active (id : Z) : cmd MultitouchHandle Error bool := λ mt,
  (or_panic (active mt !! Z.to_nat id), mt).
Definition set_active (id : Z) (b : bool) : cmd MultitouchHandle Error unit :=
  modify (λ mt, mkMultitouch (mt_session mt) (<[Z.to_nat id := b]> (active mt))).

Definition down (id x y : Z) (pressure : f32) : cmd MultitouchHandle Error unit :=
  check_id id;;
  a ← get_active id;
  if (a : bool) then raise (PointerAlreadyDown id)
  else
    on_mt (inject_touch ACTION_DOWN id x y pressure);;
    set_active id true.

Definition move_to (id x y : Z) (pressure : f32) : cmd MultitouchHandle Error unit :=
  check_id id;;
  a ← get_active id;
  if negb a then raise (PointerNotActive id)
  else on_mt (inject_touch ACTION_MOVE id x y pressure).

Definition up (id : Z) : cmd MultitouchHandle Error unit :=
  check_id id;;
  a ← get_active id;
  if negb a then raise (PointerNotActive id)
  else
    on_mt (inject_touch ACTION_UP id 0 0 zero);;
    set_active id false.

Definition cancel (id : Z) : cmd MultitouchHandle Error unit :=
  check_id id;;
  a ← get_active id;
  if negb a then raise (PointerNotActive id)
  else
    on_mt (inject_touch ACTION_CANCEL id 0 0 zero);;
    set_active id false.

(** Pointer, start and end of one finger of a pinch. *)
Record PinchPath : Set := mkPath { pp_id : Z; pp_from : Z * Z; pp_to : Z * Z }.

Definition pinch_move (p : PinchPath) (i steps : Z) : cmd MultitouchHandle Error unit :=
  on_mt (inject_touch ACTION_MOVE (pp_id p)
    (interpolate (pp_from p).1 (pp_to p).1 i steps)
    (interpolate (pp_from p).2 (pp_to p).2 i steps) one).

Definition mt_pinch (p0 p1 : PinchPath) (steps : Z) : cmd MultitouchHandle Error unit :=
  let steps := Z.max steps 2 in
  check_id (pp_id p0);;
  check_id (pp_id p1);;
  a0 ← get_active (pp_id p0);
  a1 ← get_active (pp_id p1);
  if negb a0 || negb a1 then
    raise (PointerNotActive (if negb a0 then pp_id p0 else pp_id p1))
  else for_each (seqZ 1 steps) (λ i, pinch_move p0 i steps;; pinch_move p1 i steps).

Definition release_all : cmd MultitouchHandle Error unit :=
  for_each (seqZ 0 MAX_POINTERS) (λ id,
    a ← get_active id;
    if (a : bool) then
      on_mt (inject_touch ACTION_UP id 0 0 zero);;
      set_active id false
    else mret tt).

Definition mt_flush : cmd MultitouchHandle Error Z := on_mt session_flush.

(** [HidSession::pinch]; the arithmetic is [i32]'s. *)
Definition pinch (cx cy start_radius end_radius steps : Z) : cmd S Error unit := λ s,
  let left r := swrap 32 (cx - r) in
  let right r := swrap 32 (cx + r) in
  let '(o, mt) :=
    (down 0 (left start_radius) cy one;;
     down 1 (right start_radius) cy one;;
     mt_pinch (mkPath 0 (left start_radius, cy) (left end_radius, cy))
       (mkPath 1 (right start_radius, cy) (right end_radius, cy)) steps;;
     up 0;;
     up 1) (multitouch s) in
  (o, mt_session mt).
End Touch.
