(* ===== verification/Refinement.v ===== *)
(** * The session over a healthy transport is its message log

    Every call of the session, run over a reliable sink, has the outcome it has over the
    message log, changes the devices alike, and commits exactly the frames of the
    messages logged.  [sim] is that simulation, closed under the combinators the
    session's code is written with, so that the proof for each call follows the code. *)

From S2P Require Import Prelude Words Errors Types Utf8 Float32 Message Transport Descriptor.
From S2P Require Import Keyboard Mouse Gamepad Coalesce Sink Session Touch.
Local Open Scope Z_scope.

(** ** Simulation of commands *)

Section Sim.
Context {S1 S2 : Type} (R : S1 → S2 → Prop) (lg : S2 → list ControlMessage).

Definition log_grows (l l' : S2) : Prop := lg l `prefix_of` lg l'.

#[export] Instance log_grows_preorder : PreOrder log_grows.
Proof. split; [intros l|intros l1 l2 l3]; unfold log_grows; [done|by etrans]. Qed.

(** The log only grows; from related states, when every message logged is acceptable,
    the outcomes agree and the states are related again. *)
Definition sim {A} (c : cmd S1 Error A) (d : cmd S2 Error A) : Prop :=
  stable log_grows d ∧
  ∀ s l, R s l → Forall acceptable (lg (d l).2) → (c s).1 = (d l).1 ∧ R (c s).2 (d l).2.

Lemma Forall_grows l l' : log_grows l l' → Forall acceptable (lg l') → Forall acceptable (lg l).
Proof. intros [m Hm]. rewrite Hm. by intros [? _]%Forall_app. Qed.

Lemma sim_ret {A} (a : A) : sim (mret a) (mret a).
Proof. split; [apply stable_ret, _|done]. Qed.

Lemma sim_lift {A} (o : outcome Error A) : sim (lift o) (lift o).
Proof. split; [apply stable_lift, _|done]. Qed.

Lemma sim_raise {A} (e : Error) : sim (A := A) (raise e) (raise e).
Proof. split; [apply stable_raise, _|done]. Qed.

Lemma sim_unwind {A} : sim (A := A) unwind unwind.
Proof. split; [intros l; unfold log_grows; done|done]. Qed.

Lemma sim_read {A} (f : S1 → A) (g : S2 → A) :
  (∀ s l, R s l → f s = g l) → sim (read f) (read g).
Proof.
  intros Hf. split; [apply stable_read, _|]. intros s l H _. cbn. by rewrite (Hf s l H).
Qed.

(** A command that leaves the log alone. *)
Lemma sim_silent {A} (c : cmd S1 Error A) (d : cmd S2 Error A) :
  (∀ l, lg (d l).2 = lg l) →
  (∀ s l, R s l → (c s).1 = (d l).1 ∧ R (c s).2 (d l).2) → sim c d.
Proof.
  intros Hd Hr. split; [|intros s l H _; by apply Hr].
  intros l. unfold log_grows. by rewrite Hd.
Qed.

Lemma sim_bind {A B} (c : cmd S1 Error A) (d : cmd S2 Error A)
    (k : A → cmd S1 Error B) (h : A → cmd S2 Error B) :
  sim c d → (∀ a, sim (k a) (h a)) → sim (c ≫= k) (d ≫= h).
Proof.
  intros [Hd Hc] Hk. split; [apply stable_bind; [apply _|done|apply Hk]|].
  intros s l H. specialize (Hc s l H). unfold mbind, cmd_bind.
  destruct (d l) as [[a|e|] l1]; cbn [fst snd] in *; intros HF;
    (destruct Hc as [Ho HR];
       [first [exact HF|eapply Forall_grows; [apply (Hk a)|exact HF]]|]);
    destruct (c s) as [[a'|e'|] s1]; cbn [fst snd] in *; simplify_eq; [|done..].
  by apply Hk.
Qed.

Lemma sim_ignore_err {A} (c : cmd S1 Error A) (d : cmd S2 Error A) :
  sim c d → sim (ignore_err c) (ignore_err d).
Proof.
  intros [Hd Hc]. split; [by apply stable_ignore_err|].
  intros s l H. specialize (Hc s l H). unfold ignore_err.
  destruct (d l) as [[a|e|] l1]; cbn [fst snd] in *; intros HF; destruct (Hc HF) as [Ho HR];
    destruct (c s) as [[a'|e'|] s1]; cbn [fst snd] in *; by simplify_eq.
Qed.

Lemma sim_guarded {A} (c : cmd S1 Error A) (d : cmd S2 Error A) c' d' :
  sim c d → sim c' d' → sim (guarded c c') (guarded d d').
Proof.
  intros [Hd Hc] [Hd' Hc']. split; [apply stable_guarded; [apply _|done..]|].
  intros s l H. specialize (Hc s l H). unfold guarded.
  destruct (d l) as [o l1]; cbn [fst snd] in *; intros HF.
  assert (Forall acceptable (lg l1)) as HF1.
  { destruct o; [done|..]; (eapply Forall_grows; [apply (Hd' l1)|]);
      by destruct (d' l1) as [[] l2]. }
  destruct (Hc HF1) as [Ho HR]. destruct (c s) as [o' s1]; cbn [fst snd] in *. subst o'.
  destruct o; [done|..]; specialize (Hc' s1 l1 HR);
    destruct (d' l1) as [o2 l2]; cbn [fst snd] in *;
    (destruct Hc' as [Ho' HR']; [by destruct o2|]);
    destruct (c' s1) as [o3 s2]; cbn [fst snd] in *; subst; by destruct o2.
Qed.

Lemma sim_for_each {X} (xs : list X) (f : X → cmd S1 Error unit) (g : X → cmd S2 Error unit) :
  (∀ x, sim (f x) (g x)) → sim (for_each xs f) (for_each xs g).
Proof. intros H. induction xs; cbn; [apply sim_ret|by apply sim_bind]. Qed.

(** The command may look at its own state to choose what to do. *)
Lemma sim_state {A X} (f : S1 → X) (g : S2 → X) (k : X → cmd S1 Error A)
    (h : X → cmd S2 Error A) :
  (∀ s l, R s l → f s = g l) → (∀ x, sim (k x) (h x)) →
  sim (λ s, k (f s) s) (λ l, h (g l) l).
Proof.
  intros Hf Hk. split; [intros l; apply (Hk (g l))|].
  intros s l H HF. rewrite (Hf s l H). by apply Hk.
Qed.

Lemma sim_on_error {A} (c : cmd S1 Error A) (d : cmd S2 Error A) c' d' :
  sim c d → sim c' d' → sim (on_error c c') (on_error d d').
Proof.
  intros [Hd Hc] Hc'.
  assert (∀ e, sim (A := A) (c';; raise e) (d';; raise e)) as Hr.
  { intros e. apply sim_bind; [done|]. intros _. apply sim_raise. }
  split.
  - intros l. specialize (Hd l). unfold on_error. destruct (d l) as [[a|e|] l1]; [done| |done].
    etrans; [exact Hd|]. apply (Hr e).
  - intros s l H. specialize (Hc s l H). unfold on_error.
    destruct (d l) as [[a|e|] l1]; cbn [fst snd] in *; intros HF;
      (destruct Hc as [Ho HR];
         [first [exact HF|eapply Forall_grows; [apply (Hr e)|exact HF]]|]);
      destruct (c s) as [o s1]; cbn [fst snd] in *; subst o; [done| |done].
    by apply (Hr e).
Qed.
End Sim.

(** Running a command on a part of the state. *)
Lemma sim_zoom {S1 S2 F1 F2 A} (R : S1 → S2 → Prop) lg (RF : F1 → F2 → Prop) lgF
    (get1 : S1 → F1) set1 (get2 : S2 → F2) set2 (c : cmd F1 Error A) (d : cmd F2 Error A) :
  (∀ l f, lg l = lgF (get2 l) ∧ lg (set2 f l) = lgF f) →
  (∀ s l, R s l → RF (get1 s) (get2 l)) →
  (∀ s l f1 f2, R s l → RF f1 f2 → R (set1 f1 s) (set2 f2 l)) →
  sim RF lgF c d → sim R lg (zoom get1 set1 c) (zoom get2 set2 d).
Proof.
  intros Hlg Hget Hset [Hd Hc]. split.
  - intros l. specialize (Hd (get2 l)). unfold log_grows, zoom in *.
    destruct (Hlg l (get2 l)) as [-> _].
    destruct (d (get2 l)) as [o f]. cbn [snd] in *. by destruct (Hlg l f) as [_ ->].
  - intros s l H. specialize (Hc _ _ (Hget s l H)). unfold zoom.
    destruct (c (get1 s)) as [o1 f1], (d (get2 l)) as [o2 f2]. cbn [fst snd] in *.
    destruct (Hlg l f2) as [_ ->]. intros HF. destruct (Hc HF) as [-> HR].
    split; [done|]. by apply Hset.
Qed.

(** Running a command on a state built from the receiver and dropped afterwards. *)
Lemma sim_local {S1 S2 F1 F2 A} (R : S1 → S2 → Prop) lg (RF : F1 → F2 → Prop) lgF
    (inj1 : S1 → F1) (proj1 : F1 → S1) (inj2 : S2 → F2) (proj2 : F2 → S2)
    (c : cmd F1 Error A) (d : cmd F2 Error A) :
  (∀ l, lgF (inj2 l) = lg l) → (∀ f, lg (proj2 f) = lgF f) →
  (∀ s l, R s l → RF (inj1 s) (inj2 l)) → (∀ f1 f2, RF f1 f2 → R (proj1 f1) (proj2 f2)) →
  sim RF lgF c d →
  sim R lg (λ s, let '(o, f) := c (inj1 s) in (o, proj1 f))
    (λ l, let '(o, f) := d (inj2 l) in (o, proj2 f)).
Proof.
  intros Hl1 Hl2 Hi Hp [Hd Hc]. split.
  - intros l. specialize (Hd (inj2 l)). unfold log_grows in *. rewrite Hl1 in Hd.
    destruct (d (inj2 l)) as [o f]. cbn [snd] in *. by rewrite Hl2.
  - intros s l H. specialize (Hc _ _ (Hi s l H)).
    destruct (c (inj1 s)) as [o1 f1], (d (inj2 l)) as [o2 f2]. cbn [fst snd] in *.
    rewrite Hl2. intros HF. destruct (Hc HF) as [-> HR]. split; [done|]. by apply Hp.
Qed.

(** ** Calls *)

Inductive TouchCall : Set :=
  | T_down (id x y : Z) (pressure : f32)
  | T_move (id x y : Z) (pressure : f32)
  | T_up (id : Z)
  | T_cancel (id : Z)
  | T_pinch (p0 p1 : PinchPath) (steps : Z)
  | T_release_all.

(** The session's methods.  [C_send] is [send], and so every intent that sends one
    message; [C_multitouch] borrows a handle, makes calls on it, whatever they return,
    and drops it. *)
Inductive Call : Set :=
  | C_send (m : ControlMessage)
  | C_flush
  | C_set_screen_size (w h : Z)
  | C_key (scancode : Z) (pressed : bool) (mods : Modifiers)
  | C_key_chord (mods : Modifiers) (scancode : Z)
  | C_type_text (text : str)
  | C_type_text_strict (text : str)
  | C_set_stick (axis : GamepadAxis) (value : f32)
  | C_set_stick_raw (axis : GamepadAxis) (raw : Z)
  | C_set_buttons (btns : Z)
  | C_set_button (btn : GamepadButton) (pressed : bool)
  | C_set_left_stick_raw (x y : Z)
  | C_set_right_stick_raw (x y : Z)
  | C_set_triggers_raw (l r : Z)
  | C_set_sticks_raw (lx ly rx ry lt rt : Z)
  | C_set_frame_raw (frame : GamepadFrameRaw)
  | C_set_frame_raw_unchecked (frame : GamepadFrameRaw)
  | C_set_frame_raw_packed (payload : bytes)
  | C_inject_raw_gamepad_report (payload : bytes)
  | C_set_frame_raw_batch (frames : list GamepadFrameRaw)
  | C_set_frame_raw_batch_unchecked (frames : list GamepadFrameRaw)
  | C_set_frame_raw_packed_batch (frames : list bytes)
  | C_mouse_motion (dx dy buttons : Z)
  | C_mouse_buttons (buttons : Z)
  | C_mouse_scroll (h v : f32)
  | C_mouse_frame_batch (frames : list (Z * Z * Z))
  | C_tap_android_keycode (keycode metastate : Z)
  | C_inject_touch (action pointer_id x y : Z) (pressure : f32)
  | C_inject_scroll (x y : Z) (h v : f32) (buttons : Z)
  | C_tap_pointer (pointer_id x y : Z)
  | C_swipe_pointer (pointer_id : Z) (from to : Z * Z) (steps : Z)
  | C_double_tap (x y : Z)
  | C_long_press (x y : Z)
  | C_three_finger_screenshot
  | C_drag (from to : Z * Z) (steps : Z)
  | C_pinch (cx cy start_radius end_radius steps : Z)
  | C_multi_finger_tap (points : list (Z * Z))
  | C_multitouch (calls : list TouchCall)
  | C_close.

Section Run.
Context {W : Type} `{!MessageSink W}.
Abbreviation S := (HidSession W).

Definition run_touch (c : TouchCall) : cmd (MultitouchHandle (W := W)) Error unit :=
  match c with
  | T_down id x y p => down id x y p
  | T_move id x y p => move_to id x y p
  | T_up id => up id
  | T_cancel id => cancel id
  | T_pinch p0 p1 steps => mt_pinch p0 p1 steps
  | T_release_all => release_all
  end.

Definition use_multitouch (calls : list TouchCall) : cmd S Error unit := λ s,
  let '(o, mt) := for_each calls (λ c, ignore_err (run_touch c)) (multitouch s) in
  (o, mt_session mt).

(** The numbers some calls return are dropped. *)
Definition run_call (c : Call) : cmd S Error unit :=
  match c with
  | C_send m => send m
  | C_flush => _ ← session_flush; mret tt
  | C_set_screen_size w h => set_screen_size w h
  | C_key sc p m => key sc p m
  | C_key_chord m sc => key_chord m sc
  | C_type_text t => type_text t
  | C_type_text_strict t => type_text_strict t
  | C_set_stick a v => set_stick a v
  | C_set_stick_raw a v => set_stick_raw a v
  | C_set_buttons b => set_session_buttons b
  | C_set_button b p => set_button b p
  | C_set_left_stick_raw x y => set_left_stick_raw x y
  | C_set_right_stick_raw x y => set_right_stick_raw x y
  | C_set_triggers_raw l r => set_triggers_raw l r
  | C_set_sticks_raw lx ly rx ry lt rt => set_session_sticks_raw lx ly rx ry lt rt
  | C_set_frame_raw fr => set_frame_raw fr
  | C_set_frame_raw_unchecked fr => set_frame_raw_unchecked fr
  | C_set_frame_raw_packed p => set_frame_raw_packed p
  | C_inject_raw_gamepad_report p => inject_raw_gamepad_report p
  | C_set_frame_raw_batch fs => _ ← set_frame_raw_batch fs; mret tt
  | C_set_frame_raw_batch_unchecked fs => _ ← set_frame_raw_batch_unchecked fs; mret tt
  | C_set_frame_raw_packed_batch fs => _ ← set_frame_raw_packed_batch fs; mret tt
  | C_mouse_motion x y b => mouse_motion x y b
  | C_mouse_buttons b => mouse_buttons b
  | C_mouse_scroll h v => _ ← mouse_scroll h v; mret tt
  | C_mouse_frame_batch fs => _ ← mouse_frame_batch fs; mret tt
  | C_tap_android_keycode k m => tap_android_keycode k m
  | C_inject_touch a p x y pr => inject_touch a p x y pr
  | C_inject_scroll x y h v b => inject_scroll x y h v b
  | C_tap_pointer p x y => tap_pointer p x y
  | C_swipe_pointer p from to steps => swipe_pointer p from to steps
  | C_double_tap x y => double_tap x y
  | C_long_press x y => long_press x y
  | C_three_finger_screenshot => three_finger_screenshot
  | C_drag from to steps => drag from to steps
  | C_pinch cx cy r1 r2 steps => pinch cx cy r1 r2 steps
  | C_multi_finger_tap points => multi_finger_tap points
  | C_multitouch calls => use_multitouch calls
  | C_close => close
  end.

(** A history of calls, each made whatever the others returned, with its outcomes. *)
Fixpoint run_calls (cs : list Call) (s : S) : list (outcome Error unit) * S :=
  match cs with
  | [] => ([], s)
  | c :: cs =>
      let '(o, s) := run_call c s in
      let '(os, s) := run_calls cs s in
      (o :: os, s)
  end.

(** A session from [HidSession::open] to [Drop]. *)
Definition lifetime (w : W) (req : OpenRequest) (cs : list Call) :
    outcome Error unit * list (outcome Error unit) * S :=
  match open w req with
  | (Ok _, s) => let '(os, s) := run_calls cs s in (Ok tt, os, (drop_session s).2)
  | (o, s) => (o, [], s)
  end.
End Run.

(** Unfold the methods that are plain sequences of others. *)
Ltac unfold_calls :=
  unfold set_frame_raw_batch_unchecked, set_frame_raw_packed_batch, type_text,
    type_text_strict, type_char, set_stick, set_stick_raw, set_session_buttons,
    set_button, set_left_stick_raw, set_right_stick_raw, set_triggers_raw,
    set_session_sticks_raw, set_frame_raw, set_frame_raw_unchecked, set_frame_raw_packed,
    inject_raw_gamepad_report, mouse_motion, mouse_buttons, mouse_scroll, mouse_frame_batch, tap_android_keycode,
    inject_keycode, swipe_pointer, double_tap, long_press, drag, touch_msg_pub.

(** ** The simulation of the session *)

Section SessionSim.
Context {W : Type} `{!MessageSink W, !ReliableSink W} (base : bytes).
Abbreviation S := (HidSession W).
Abbreviation L := (HidSession MsgLog).

Definition link_rel (w : W) (g : MsgLog) : Prop :=
  ready w ∧ ∃ fs, frames (logged g) = Ok fs ∧ sent w = base ++ fs.

Definition same_devices (s : S) (l : L) : Prop :=
  kbd s = kbd l ∧ mouse s = mouse l ∧ gamepad s = gamepad l ∧
  gamepad_slot s = gamepad_slot l ∧ gamepad_hid_id s = gamepad_hid_id l ∧
  closed s = closed l ∧ screen_w s = screen_w l ∧ screen_h s = screen_h l.

Definition related (s : S) (l : L) : Prop := same_devices s l ∧ link_rel (link s) (link l).

Definition msgs (l : L) : list ControlMessage := logged (link l).

Abbreviation ssim := (sim related msgs).

Lemma delivers_sim ms (c : cmd W Error unit) :
  delivers ms c → sim link_rel logged c (log_all ms).
Proof.
  intros Hc. split; [intros l; by eexists|].
  intros w l (Hw & fs & Hfs & Hs) HF. cbn [snd log_all modify logged] in HF.
  apply Forall_app in HF as [_ HF].
  destruct (Hc w Hw HF) as (w' & fs' & -> & Hw' & Hfs' & Hs'). split; [done|].
  split; [done|]. exists (fs ++ fs'). split; [by apply frames_ok_app|].
  cbn [snd]. by rewrite Hs', Hs, app_assoc.
Qed.

Lemma uhid_input_sim id size data :
  sim link_rel logged (sink_uhid_input id size data) (sink_uhid_input id size data).
Proof.
  cbn [sink_uhid_input Log_sink]. case_decide as Hd.
  - apply sim_silent; [done|]. intros w l (Hw & fs & Hfs & Hs).
    destruct (sink_uhid_input_err id size data w Hd Hw) as (w' & -> & Hw' & Hs').
    split; [done|]. split; [done|]. exists fs. split; [done|]. cbn [snd]. by rewrite Hs'.
  - apply delivers_sim. apply sink_uhid_input_ok; lia.
Qed.

Lemma drop_sim : sim link_rel logged sink_drop sink_drop.
Proof.
  apply sim_silent; [done|]. intros w l (Hw & fs & Hfs & Hs).
  destruct (sink_drop_ok w Hw) as (w' & H & Hw' & Hs'). rewrite H.
  split; [done|]. split; [done|]. exists fs. split; [done|]. cbn [snd]. by rewrite Hs'.
Qed.

Lemma on_link_sim {A} (c : cmd W Error A) (d : cmd MsgLog Error A) :
  sim link_rel logged c d → ssim (on_link c) (on_link d).
Proof.
  apply sim_zoom; [done|by intros s l [_ H]|].
  by intros s l w g [H _] Hl.
Qed.

(** The byte count of a flush is not the log's business. *)
Lemma session_flush_sim : ssim (_ ← session_flush; mret tt) (_ ← session_flush; mret tt).
Proof.
  apply sim_silent; [by intros []|]. intros s l (Hd & Hw & fs & Hfs & Hs).
  destruct (sink_flush_ok (link s) Hw) as (n & w' & H & Hw' & Hs').
  unfold session_flush, on_link, zoom. run. rewrite H.
  split; [done|]. split; [exact Hd|]. split; [done|]. exists fs. split; [done|].
  cbn. by rewrite Hs'.
Qed.

Lemma send_sim m : ssim (send m) (send m).
Proof. apply on_link_sim, delivers_sim, sink_push_ok. Qed.

Lemma link_gamepad_sim id p :
  ssim (on_link (sink_gamepad id p)) (on_link (sink_gamepad id p)).
Proof. apply on_link_sim, delivers_sim, sink_gamepad_ok. Qed.

Lemma link_fields_sim id fr :
  ssim (on_link (sink_gamepad_fields id fr)) (on_link (sink_gamepad_fields id fr)).
Proof. apply on_link_sim, delivers_sim, sink_gamepad_fields_ok. Qed.

Lemma link_batch_sim id b :
  ssim (on_link (sink_gamepad_batch id b)) (on_link (sink_gamepad_batch id b)).
Proof. apply on_link_sim, delivers_sim, sink_gamepad_batch_ok. Qed.

Lemma link_batch_fields_sim id b :
  ssim (on_link (sink_gamepad_batch_fields id b)) (on_link (sink_gamepad_batch_fields id b)).
Proof. apply on_link_sim, delivers_sim, sink_gamepad_batch_fields_ok. Qed.

Lemma link_input_sim id size data :
  ssim (on_link (sink_uhid_input id size data)) (on_link (sink_uhid_input id size data)).
Proof. apply on_link_sim, uhid_input_sim. Qed.

(** Commands on the devices alone. *)
Ltac device :=
  apply sim_silent; [intros []|intros [] [] (Hdev & Hlink)];
  unfold related, same_devices in *; cbn in *; destruct_and?; subst.

Lemma read_sim {A} (f : S → A) (g : L → A) :
  (∀ s l, same_devices s l → f s = g l) → ssim (read f) (read g).
Proof. intros H. apply sim_read. intros s l [Hd _]. by apply H. Qed.

Lemma on_kbd_sim {A} (c : cmd KeyboardHid Error A) : ssim (on_kbd c) (on_kbd c).
Proof. device; unfold on_kbd; cbn; repeat case_match; done. Qed.

Lemma on_mouse_sim {A} (c : cmd MouseHid Error A) : ssim (on_mouse c) (on_mouse c).
Proof. device; unfold on_mouse; cbn; repeat case_match; done. Qed.

Lemma with_gamepad_sim {A} (f : nat → cmd GamepadHid Error A) :
  ssim (with_gamepad f) (with_gamepad f).
Proof. device; unfold with_gamepad; cbn; repeat case_match; done. Qed.

Lemma get_gamepad_hid_id_sim : ssim get_gamepad_hid_id get_gamepad_hid_id.
Proof. device; unfold get_gamepad_hid_id; cbn; repeat case_match; done. Qed.

(** *** States that extend the session *)

Definition pair_rel {X} (p : S * X) (q : L * X) : Prop := related p.1 q.1 ∧ p.2 = q.2.
Definition pair_msgs {X} (q : L * X) : list ControlMessage := msgs q.1.
Abbreviation psim := (sim pair_rel pair_msgs).

Definition mt_rel (p : MultitouchHandle (W := W)) (q : MultitouchHandle (W := MsgLog)) : Prop :=
  related (mt_session p) (mt_session q) ∧ active p = active q.
Definition mt_msgs (q : MultitouchHandle (W := MsgLog)) : list ControlMessage :=
  msgs (mt_session q).
Abbreviation msim := (sim mt_rel mt_msgs).

Lemma inject_touch_sim a p x y pr : ssim (inject_touch a p x y pr) (inject_touch a p x y pr).
Proof.
  apply sim_bind; [apply read_sim|intros m; apply send_sim].
  intros s l Hd. unfold same_devices in Hd. destruct_and! Hd. unfold touch_msg. congruence.
Qed.

Lemma on_session_sim {A X} (c : cmd S Error A) (d : cmd L Error A) :
  ssim c d → sim (pair_rel (X := X)) pair_msgs (on_session c) (on_session d).
Proof.
  apply sim_zoom; [done|by intros [] [] [H _]|by intros [] [] s l [_ H] Hs].
Qed.

Lemma on_mt_sim {A} (c : cmd S Error A) (d : cmd L Error A) :
  ssim c d → msim (on_mt c) (on_mt d).
Proof. apply sim_zoom; [done|by intros ?? [H _]|by intros ???? [_ H] Hs]. Qed.

Lemma pair_modify_sim {X} (f : S * X → S * X) (g : L * X → L * X) (h : X → X) :
  (∀ p, f p = (p.1, h p.2)) → (∀ p, g p = (p.1, h p.2)) →
  sim pair_rel pair_msgs (modify f) (modify g).
Proof.
  intros Hf Hg. apply sim_silent; [intros l; cbn; by rewrite Hg|].
  intros p q [H He]. cbn. rewrite Hf, Hg. split; [done|]. split; [done|]. cbn. by rewrite He.
Qed.

Lemma pair_state_sim {X A} (k : X → cmd (S * X) Error A) (h : X → cmd (L * X) Error A) :
  (∀ x, psim (k x) (h x)) → psim (λ p, k p.2 p) (λ q, h q.2 q).
Proof. apply sim_state. by intros p q [_ H]. Qed.

Lemma local_pair_sim {X} (x : X) (c : cmd (S * X) Error unit) (d : cmd (L * X) Error unit) :
  psim c d →
  ssim (λ s, let '(o, p) := c (s, x) in (o, p.1)) (λ l, let '(o, p) := d (l, x) in (o, p.1)).
Proof. apply (sim_local _ _ _ _ (λ s, (s, x)) fst (λ l, (l, x)) fst); try done. by intros p q []. Qed.

Lemma local_mt_sim (c : cmd MultitouchHandle Error unit) (d : cmd MultitouchHandle Error unit) :
  msim c d →
  ssim (λ s, let '(o, p) := c (multitouch s) in (o, mt_session p))
    (λ l, let '(o, p) := d (multitouch l) in (o, mt_session p)).
Proof.
  apply (sim_local _ _ _ _ multitouch mt_session multitouch mt_session); try done.
  by intros p q [].
Qed.

(** *** The calls *)

Lemma key_sim sc p m : ssim (key sc p m) (key sc p m).
Proof. apply sim_bind; [apply on_kbd_sim|intros msg; apply send_sim]. Qed.

Lemma push_changed_sim r : ssim (push_changed r) (push_changed r).
Proof. destruct r as [[id p]|]; [apply link_gamepad_sim|apply sim_ret]. Qed.

Lemma changed_sim (f : nat → cmd GamepadHid Error (option (Z * bytes))) :
  ssim (r ← with_gamepad f; push_changed r) (r ← with_gamepad f; push_changed r).
Proof. apply sim_bind; [apply with_gamepad_sim|apply push_changed_sim]. Qed.

Lemma hid_id_sim {A} (f : Z → cmd S Error A) (g : Z → cmd L Error A) :
  (∀ id, ssim (f id) (g id)) →
  ssim (id ← get_gamepad_hid_id; f id) (id ← get_gamepad_hid_id; g id).
Proof. apply sim_bind, get_gamepad_hid_id_sim. Qed.

Lemma push_report_sim r : ssim (push_report r) (push_report r).
Proof. apply link_input_sim. Qed.

Lemma get_active_sim id : msim (get_active id) (get_active id).
Proof. apply sim_silent; [done|]. intros p q [H He]. unfold get_active. by rewrite He. Qed.

Lemma set_active_sim id b : msim (set_active id b) (set_active id b).
Proof. apply sim_silent; [done|]. intros p q [H He]. cbn. split; [done|]. split; cbn; congruence. Qed.

Lemma check_id_sim id : msim (check_id id) (check_id id).
Proof. unfold check_id. case_match; [apply sim_raise|apply sim_ret]. Qed.

Lemma mt_touch_sim a p x y pr : msim (on_mt (inject_touch a p x y pr)) (on_mt (inject_touch a p x y pr)).
Proof. apply on_mt_sim, inject_touch_sim. Qed.

Lemma session_touch_sim {X} a p x y pr :
  sim (pair_rel (X := X)) pair_msgs (on_session (inject_touch a p x y pr))
    (on_session (inject_touch a p x y pr)).
Proof. apply on_session_sim, inject_touch_sim. Qed.

Lemma mark_pressed_sim id : psim (mark_pressed id) (mark_pressed id).
Proof. by apply (pair_modify_sim _ _ (λ l, l ++ [id])). Qed.

Lemma mark_released_sim id : psim (mark_released id) (mark_released id).
Proof.
  apply (pair_modify_sim _ _ (λ l, match list_find (λ q, q = id) l with
    | Some (pos, _) => swap_remove pos l | None => l end));
    intros [s l]; cbn; repeat case_match; done.
Qed.

Create HintDb sim.
Hint Constants Opaque : sim.
Hint Resolve sim_ret sim_raise sim_lift sim_unwind key_sim send_sim push_changed_sim changed_sim
  link_gamepad_sim link_fields_sim link_batch_sim link_batch_fields_sim link_input_sim
  inject_touch_sim push_report_sim on_kbd_sim on_mouse_sim with_gamepad_sim
  get_gamepad_hid_id_sim get_active_sim set_active_sim check_id_sim mt_touch_sim
  session_touch_sim mark_pressed_sim mark_released_sim : sim.

(** Follow the code: the two sides are the same term over two sinks. *)
Ltac follow :=
  repeat (cbn beta zeta iota;
    lazymatch goal with
    | |- sim _ _ (_ ≫= _) _ => apply sim_bind; [|intros ?]
    | |- sim _ _ (for_each _ _) _ => apply sim_for_each; intros ?
    | |- sim _ _ (ignore_err _) _ => apply sim_ignore_err
    | |- sim _ _ (guarded _ _) _ => apply sim_guarded
    | |- sim _ _ (on_error _ _) _ => apply sim_on_error
    | |- sim _ _ (match _ with _ => _ end) _ => case_match
    | |- sim _ _ _ _ => solve [auto with sim nocore]
    end).

Lemma release_pressed_sim : psim release_pressed release_pressed.
Proof.
  apply (pair_state_sim (λ l, for_each (reverse l) _) (λ l, for_each (reverse l) _)).
  intros l. follow.
Qed.

Lemma release_fingers_sim : psim release_fingers release_fingers.
Proof.
  apply (pair_state_sim (λ l, for_each (reverse (imap pair l)) _)
    (λ l, for_each (reverse (imap pair l)) _)).
  intros l. follow.
Qed.

Lemma tap_pointer_sim p x y : ssim (tap_pointer p x y) (tap_pointer p x y).
Proof.
  unfold tap_pointer, touch_guard. apply local_pair_sim, sim_guarded; [|apply release_pressed_sim].
  apply sim_bind; [apply (session_touch_sim ACTION_DOWN)|intros _].
  apply sim_bind; [auto with sim|intros _].
  apply sim_bind; [apply (session_touch_sim ACTION_UP)|intros _]. auto with sim.
Qed.

Lemma move_along_sim p from to steps : ssim (move_along p from to steps) (move_along p from to steps).
Proof. unfold move_along. follow. Qed.

Lemma multi_finger_tap_sim points : ssim (multi_finger_tap points) (multi_finger_tap points).
Proof.
  unfold multi_finger_tap. case_match; [apply sim_raise|]. apply local_pair_sim.
  apply sim_bind; [|intros _]; (apply sim_on_error; [|apply release_fingers_sim]); follow.
  by eapply (pair_modify_sim _ _ (λ l, <[n := true]> l)).
Qed.

Lemma run_touch_sim c : msim (run_touch c) (run_touch c).
Proof.
  destruct c; cbn [run_touch]; unfold down, move_to, up, cancel, mt_pinch, pinch_move, release_all;
    follow.
Qed.

Lemma use_multitouch_sim calls : ssim (use_multitouch calls) (use_multitouch calls).
Proof.
  apply local_mt_sim, sim_for_each. intros c. apply sim_ignore_err, run_touch_sim.
Qed.

Lemma pinch_sim cx cy r1 r2 steps : ssim (pinch cx cy r1 r2 steps) (pinch cx cy r1 r2 steps).
Proof.
  apply local_mt_sim. unfold down, up, mt_pinch, pinch_move. follow.
Qed.

Lemma screen_sim {A} (f : Z → Z → cmd S Error A) (g : Z → Z → cmd L Error A) :
  (∀ w h, ssim (f w h) (g w h)) →
  ssim (w ← read screen_w; h ← read screen_h; f w h) (w ← read screen_w; h ← read screen_h; g w h).
Proof.
  intros H. apply sim_bind; [apply read_sim; unfold same_devices; tauto|intros w].
  apply sim_bind; [apply read_sim; unfold same_devices; tauto|intros h]. apply H.
Qed.

Lemma frame_batch_loop_sim fs batch id n :
  ssim (frame_batch_loop fs batch id n) (frame_batch_loop fs batch id n).
Proof.
  revert batch id n. induction fs as [|fr fs IH]; intros batch id n; cbn [frame_batch_loop];
    follow; apply IH.
Qed.

Lemma set_frame_raw_batch_sim fs : ssim (set_frame_raw_batch fs) (set_frame_raw_batch fs).
Proof.
  destruct fs as [|fr [|fr' fs]]; cbn [set_frame_raw_batch]; [follow..|].
  apply sim_bind; [auto with sim|intros _].
  apply sim_bind; [apply frame_batch_loop_sim|intros [[batch id] n]]. follow.
Qed.

Lemma close_gamepad_sim : ssim close_gamepad close_gamepad.
Proof.
  apply sim_bind; [apply read_sim; unfold same_devices; tauto|intros [g|]]; [|follow].
  apply sim_bind; [apply read_sim; unfold same_devices; tauto|intros slot].
  destruct (match slot with Some i => close_slot_idx i g | None => _ end) as [msg g'].
  apply sim_bind; [apply read_sim; unfold same_devices; tauto|intros id].
  assert (∀ a b c, ssim (modify (set_gamepad a b c)) (modify (set_gamepad a b c))) as Hset.
  { intros a b c. apply sim_silent; [by intros []|]. intros [] [] [Hd Hl].
    unfold related, same_devices in *; cbn in *; destruct_and!; by subst. }
  apply sim_bind; [done|intros _]. apply sim_bind; [destruct msg; auto with sim|done].
Qed.

Lemma close_sim : ssim close close.
Proof.
  apply sim_bind; [apply read_sim; unfold same_devices; tauto|intros [|]]; [follow|].
  apply sim_bind; [apply read_sim; unfold same_devices; tauto|intros k].
  apply sim_bind; [destruct k; follow|intros _].
  apply sim_bind; [apply read_sim; unfold same_devices; tauto|intros m].
  apply sim_bind; [destruct m; follow|intros _].
  apply sim_bind; [apply close_gamepad_sim|intros _].
  apply sim_silent; [by intros []|]. intros [] [] [Hd Hl].
  unfold related, same_devices in *; cbn in *; destruct_and!; by subst.
Qed.

Lemma set_screen_size_sim w h : ssim (set_screen_size w h) (set_screen_size w h).
Proof.
  apply sim_silent; [by intros []|]. intros [] [] [Hd Hl].
  unfold related, same_devices in *; cbn in *; destruct_and!; by subst.
Qed.

Lemma key_chord_sim m sc : ssim (key_chord m sc) (key_chord m sc).
Proof. unfold key_chord. apply sim_guarded; follow. Qed.

Lemma inject_scroll_sim x y h v b : ssim (inject_scroll x y h v b) (inject_scroll x y h v b).
Proof. unfold inject_scroll. apply screen_sim. auto with sim. Qed.

Lemma three_finger_sim : ssim three_finger_screenshot three_finger_screenshot.
Proof.
  unfold three_finger_screenshot, touch_msg_pub. apply screen_sim. intros w h. follow.
Qed.

Hint Resolve move_along_sim set_frame_raw_batch_sim tap_pointer_sim pinch_sim
  multi_finger_tap_sim use_multitouch_sim close_sim session_flush_sim set_screen_size_sim
  key_chord_sim inject_scroll_sim three_finger_sim : sim.

Lemma run_call_sim c : ssim (run_call c) (run_call c).
Proof. destruct c; cbn [run_call]; solve [auto with sim nocore | unfold_calls; follow]. Qed.

Lemma run_calls_grows cs l : log_grows msgs l (run_calls cs l).2.
Proof.
  revert l. induction cs as [|c cs IH]; intros l; [done|]. cbn [run_calls].
  destruct (run_call_sim c) as [Hc _]. specialize (Hc l).
  destruct (run_call c l) as [o l2]. specialize (IH l2).
  destruct (run_calls cs l2) as [os l3]. by etrans.
Qed.

Lemma run_calls_sim cs s l :
  related s l → Forall acceptable (msgs (run_calls cs l).2) →
  (run_calls cs s).1 = (run_calls cs l).1 ∧ related (run_calls cs s).2 (run_calls cs l).2.
Proof.
  revert s l. induction cs as [|c cs IH]; intros s l H HF; [done|].
  cbn [run_calls] in *. destruct (run_call_sim c) as [_ Hc]. specialize (Hc s l H).
  destruct (run_call c l) as [o l1]. specialize (IH (run_call c s).2 l1).
  pose proof (run_calls_grows cs l1) as Hg.
  destruct (run_calls cs l1) as [os l2]. cbn [fst snd] in *.
  destruct Hc as [Ho HR]; [by eapply Forall_grows|].
  destruct (run_call c s) as [o' s1]. cbn [fst snd] in *. subst o'.
  destruct (IH HR HF) as [Hos HR']. destruct (run_calls cs s1) as [os' s2].
  cbn [fst snd] in *. by subst os'.
Qed.

Lemma open_devices_sim req : ssim (open_devices req) (open_devices req).
Proof.
  assert (∀ k, ssim (modify (set_kbd k)) (modify (set_kbd k))) as Hk.
  { intros k. apply sim_silent; [by intros []|]. intros [] [] [Hd Hl].
    unfold related, same_devices in *; cbn in *; destruct_and!; by subst. }
  assert (∀ m, ssim (modify (set_mouse m)) (modify (set_mouse m))) as Hm.
  { intros m. apply sim_silent; [by intros []|]. intros [] [] [Hd Hl].
    unfold related, same_devices in *; cbn in *; destruct_and!; by subst. }
  assert (∀ a b c, ssim (modify (set_gamepad a b c)) (modify (set_gamepad a b c))) as Hg.
  { intros a b c. apply sim_silent; [by intros []|]. intros [] [] [Hd Hl].
    unfold related, same_devices in *; cbn in *; destruct_and!; by subst. }
  unfold open_devices. apply sim_bind; [follow|intros _]. apply sim_bind; [follow|intros _].
  destruct (or_gamepad req); [|apply sim_ret].
  destruct (Gamepad.open HID_ID_GAMEPAD_FIRST (Some XBOX_NAME) Gamepad_new) as [o g]. follow.
Qed.

Lemma drop_session_sim : ssim drop_session drop_session.
Proof.
  destruct close_sim as [Hg Hc].
  assert (∀ s, drop_session s = on_link sink_drop (if closed s then s else (try_close_all s).2))
    as E1 by done.
  assert (∀ l : L, msgs (drop_session l).2
                   = msgs (if closed l then l else (try_close_all l).2)) as E2 by done.
  split.
  - intros l. unfold log_grows. rewrite E2. destruct (closed l); [done|]. apply Hg.
  - intros s l H. rewrite E2. intros HF. destruct (on_link_sim _ _ drop_sim) as [_ Hd].
    assert (closed s = closed l) as Hcl by (destruct H as [Hs _]; unfold same_devices in Hs; tauto).
    apply Hd; [|exact HF]. rewrite Hcl. destruct (closed l); [done|]. by apply Hc.
Qed.

Lemma lifetime_sim w req cs :
  ready w → sent w = base →
  Forall acceptable (msgs (lifetime (mkLog []) req cs).2) →
  (lifetime w req cs).1 = (lifetime (mkLog []) req cs).1 ∧
  related (lifetime w req cs).2 (lifetime (mkLog []) req cs).2.
Proof.
  intros Hw Hs. set (s0 := new_session w). set (l0 := new_session (mkLog [])).
  assert (related s0 l0) as H0.
  { split; [by split_and!|]. split; [done|]. exists []. split; [done|]. by rewrite app_nil_r. }
  destruct (open_devices_sim req) as [_ Ho]. specialize (Ho s0 l0 H0).
  unfold lifetime, open. fold s0 l0.
  destruct (open_devices req l0) as [o l1]. cbn [fst snd] in Ho. intros HF.
  destruct drop_session_sim as [Hdg Hd].
  assert (Forall acceptable (msgs l1)) as HF1.
  { destruct o as [[]|e|]; cbn [fst snd] in HF; [|eapply Forall_grows; [apply Hdg|exact HF]..].
    pose proof (run_calls_grows cs l1) as Hg. destruct (run_calls cs l1) as [os l2].
    eapply Forall_grows; [exact Hg|]. cbn [fst snd] in HF |- *.
    eapply Forall_grows; [apply Hdg|exact HF]. }
  destruct (Ho HF1) as [Ho1 HR]. destruct (open_devices req s0) as [o' s1].
  cbn [fst snd] in *. subst o'. destruct o as [[]|e|]; cbn [fst snd] in *.
  - pose proof (run_calls_sim cs s1 l1 HR) as Hcs.
    destruct (run_calls cs l1) as [os l2]. cbn [fst snd] in *.
    destruct Hcs as [Hos HR2]; [eapply Forall_grows; [apply Hdg|exact HF]|].
    destruct (run_calls cs s1) as [os' s2]. cbn [fst snd] in *. subst os'.
    split; [done|]. by apply Hd.
  - split; [done|]. by apply Hd.
  - split; [done|]. by apply Hd.
Qed.
End SessionSim.
