(* ===== verification/SessionInv.v ===== *)
(** * The session's invariant

    On the message log: the drivers stay well formed, the cached slot and id stay in
    range, and every message logged is one the serializer accepts.  [call_ok] is what the
    Rust types guarantee of a call's arguments. *)

From S2P Require Import Prelude Words Errors Types Utf8 Float32 Message Transport Descriptor.
From S2P Require Import Keyboard Mouse Gamepad Coalesce Sink Session Touch Refinement.
Local Open Scope Z_scope.

Abbreviation L := (HidSession MsgLog).
Implicit Types s : L.

Definition session_ok s : Prop :=
  Forall acceptable (msgs s) ∧
  (∀ k, kbd s = Some k → keyboard_wf k) ∧
  (∀ g, gamepad s = Some g → gamepads_wf g) ∧
  (∀ i, gamepad_slot s = Some i → (i < MAX_GAMEPADS)%nat) ∧
  (∀ id, gamepad_hid_id s = Some id → u16 id) ∧
  u16 (screen_w s) ∧ u16 (screen_h s).

Definition i32_point (p : Z * Z) : Prop := i32 p.1 ∧ i32 p.2.
Definition packed_ok (payload : bytes) : Prop :=
  length payload = HID_MAX_SIZE ∧ is_bytes payload.
Definition path_ok (p : PinchPath) : Prop :=
  u64 (pp_id p) ∧ i32_point (pp_from p) ∧ i32_point (pp_to p).

Definition touch_call_ok (c : TouchCall) : Prop :=
  match c with
  | T_down id x y _ | T_move id x y _ => u64 id ∧ i32 x ∧ i32 y
  | T_up id | T_cancel id => u64 id
  | T_pinch p0 p1 _ => path_ok p0 ∧ path_ok p1
  | T_release_all => True
  end.

Definition call_ok (c : Call) : Prop :=
  match c with
  | C_send m => acceptable m
  | C_set_screen_size w h => u16 w ∧ u16 h
  | C_key sc _ m | C_key_chord m sc => u8 sc ∧ u8 m
  | C_type_text t | C_type_text_strict t => is_str t
  | C_set_stick_raw _ v => i16 v
  | C_set_buttons b => u32 b
  | C_set_left_stick_raw x y | C_set_right_stick_raw x y | C_set_triggers_raw x y =>
      i16 x ∧ i16 y
  | C_set_sticks_raw lx ly rx ry lt rt =>
      i16 lx ∧ i16 ly ∧ i16 rx ∧ i16 ry ∧ i16 lt ∧ i16 rt
  | C_set_frame_raw fr | C_set_frame_raw_unchecked fr => frame_wf fr
  | C_set_frame_raw_packed p => packed_ok p
  | C_inject_raw_gamepad_report p => is_bytes p
  | C_set_frame_raw_batch fs | C_set_frame_raw_batch_unchecked fs => Forall frame_wf fs
  | C_set_frame_raw_packed_batch fs => Forall packed_ok fs
  | C_mouse_motion _ _ b | C_mouse_buttons b => u8 b
  | C_mouse_frame_batch fs => Forall (λ f, u8 f.2) fs
  | C_tap_android_keycode k m => u32 k ∧ u32 m
  | C_inject_touch a p x y _ => u8 a ∧ u64 p ∧ i32 x ∧ i32 y
  | C_inject_scroll x y _ _ b => i32 x ∧ i32 y ∧ u32 b
  | C_tap_pointer p x y => u64 p ∧ i32 x ∧ i32 y
  | C_swipe_pointer p from to _ => u64 p ∧ i32_point from ∧ i32_point to
  | C_double_tap x y | C_long_press x y => i32 x ∧ i32 y
  | C_drag from to _ => i32_point from ∧ i32_point to
  | C_pinch _ cy _ _ _ => i32 cy
  | C_multi_finger_tap points => Forall i32_point points
  | C_multitouch calls => Forall touch_call_ok calls
  | _ => True
  end.

(** ** The link *)

Definition log_ok (l : MsgLog) : Prop := Forall acceptable (logged l).

Abbreviation any := (λ _, True).
Abbreviation skeeps := (keeps (E := Error) session_ok).

Lemma log_all_keeps ms : Forall acceptable ms → keeps log_ok any (log_all ms).
Proof. intros H. apply keeps_modify. intros l Hl. by apply Forall_app. Qed.

Lemma on_link_keeps {A} (Q : A → Prop) (c : cmd MsgLog Error A) :
  keeps log_ok Q c → skeeps Q (on_link c).
Proof.
  apply keeps_zoom; [by intros s [H _]|]. intros s l (_ & H) Hl. by split.
Qed.

Lemma send_keeps m : acceptable m → skeeps any (send m).
Proof. intros H. apply on_link_keeps, log_all_keeps. by apply Forall_singleton. Qed.

Lemma link_gamepad_keeps id p :
  acceptable (packed_msg id p) → skeeps any (on_link (sink_gamepad id p)).
Proof. intros H. apply on_link_keeps, log_all_keeps. by apply Forall_singleton. Qed.

Lemma link_batch_keeps id l :
  Forall acceptable (packed_msg id <$> l) → skeeps any (on_link (sink_gamepad_batch id l)).
Proof. intros H. by apply on_link_keeps, log_all_keeps. Qed.

Lemma packed_acceptable id p : u16 id → packed_ok p → acceptable (packed_msg id p).
Proof.
  intros Hid [Hl Hb]. split; [|cbn; lia]. split; [done|]. split; [by split|]. done.
Qed.

Lemma pack_report fr p : frame_wf fr → pack fr = pad_report (apply_op (frame_op fr) p).
Proof.
  intros Hfr. pose proof (fast_path_payload 0 fr p Hfr) as H.
  unfold encode_gamepad_input_fields_slice in H. unfold GAMEPAD_REPORT_SIZE_U16 in H.
  apply app_inv_head in H. by do 2 apply app_inv_head in H.
Qed.

Lemma pack_ok fr : packed_ok (pack fr).
Proof.
  split; [|].
  - unfold pack. by rewrite !length_app, !length_le_bytes.
  - unfold pack. repeat apply Forall_app_2; try apply is_bytes_le_bytes.
    constructor; [apply dpad_byte|constructor].
Qed.

Lemma input_acceptable id data :
  u16 id → is_bytes data → (length data ≤ HID_MAX_SIZE)%nat →
  acceptable (input_msg id (Z.of_nat (length data)) data).
Proof.
  intros Hid Hd Hl. destruct (input_message_ok id data Hid Hd Hl) as (Hwf & He & _).
  unfold input_msg. rewrite Nat.min_l by done. done.
Qed.

Lemma link_input_keeps id size data :
  acceptable (input_msg id size data) → skeeps any (on_link (sink_uhid_input id size data)).
Proof.
  intros H. apply on_link_keeps. cbn. case_decide; [apply keeps_raise|].
  apply log_all_keeps. by apply Forall_singleton.
Qed.

(** ** The devices *)

Ltac fields := unfold session_ok in *; cbn in *; intuition (simplify_eq/=; eauto).

Lemma on_kbd_keeps sc p m : u8 sc → u8 m → skeeps acceptable (on_kbd (key_event sc p m)).
Proof.
  intros Hsc Hm s Hs. unfold on_kbd. destruct (kbd s) as [k|] eqn:Ek; [|done].
  assert (keyboard_wf k) as Hk by fields.
  pose proof (key_event_run sc p m k Hk Hsc Hm) as H.
  pose proof (inject_key_wf sc p m k Hk Hsc Hm) as Hk'.
  destruct (key_event sc p m k) as [o k']. destruct H as [-> ->]. cbn [fst snd]. split.
  - split; [apply Hs|]. split; [by intros ? [= <-]|]. apply Hs.
  - case_decide; [|done]. intros a [= <-].
    assert (length (keyboard_report (held_keys (inject_key sc p m k).2) m) = 8%nat) as Hl.
    { unfold keyboard_report. cbn [length]. by rewrite length_key_slots. }
    pose proof (input_message_ok HID_ID_KEYBOARD
      (keyboard_report (held_keys (inject_key sc p m k).2) m) ltac:(by split)) as Hok.
    rewrite Hl in Hok. destruct Hok as (Hwf & He & _); [|unfold HID_MAX_SIZE; lia|by split].
    by apply keyboard_report_bytes; [apply held_range|].
Qed.

Definition changed_ok (r : option (Z * bytes)) : Prop :=
  match r with Some (id, p) => u16 id ∧ packed_ok p | None => True end.

Lemma with_gamepad_keeps op : op_wf op → skeeps changed_ok (with_gamepad (raw_op op)).
Proof.
  intros Hop s Hs. unfold with_gamepad. destruct (closed s); [done|].
  destruct (gamepad_slot s) as [i|] eqn:Ei; [|done].
  destruct (gamepad s) as [g|] eqn:Eg; [|done].
  destruct Hs as (Hm & Hk & Hg & Hi & Hrest).
  specialize (Hg g Eg). specialize (Hi i Ei). pose proof Hg as (Hlen & _).
  destruct (lookup_lt_is_Some_2 (slots g) i) as [t Ht]; [by rewrite Hlen|].
  destruct (raw_op_spec op g i t Hg Hop Ht) as (r & t' & Hr & Hg' & _ & _ & Hrs).
  rewrite Hr. cbn [fst snd]. split.
  - split; [done|]. split; [done|]. split; [by intros ? [= <-]|]. split; [|done].
    intros j Hj. cbn in Hj. congruence.
  - intros a [= <-]. destruct r as [[id p]|]; [|done]. destruct Hrs as [-> ->].
    unfold MAX_GAMEPADS in Hi. split; [widths; lia|].
    split; [apply pad_report_length|apply pad_report_bytes].
Qed.

Lemma hid_id_keeps : skeeps (λ id, u16 id) get_gamepad_hid_id.
Proof.
  intros s Hs. unfold get_gamepad_hid_id. destruct (closed s); [done|].
  split; [done|]. intros id Hid. destruct (gamepad_hid_id s) eqn:E; [|done].
  apply Hs. cbn in Hid. congruence.
Qed.

Lemma on_mouse_keeps {A} (Q : A → Prop) (c : cmd MouseHid Error A) :
  (∀ m a, (c m).1 = Ok a → Q a) → skeeps Q (on_mouse c).
Proof.
  intros Hc s Hs. unfold on_mouse. destruct (mouse s) as [m|]; [|done].
  specialize (Hc m). by destruct (c m) as [o m'].
Qed.

(** A mouse report, whichever method made it. *)
Definition mouse_report_ok (r : HidReport) : Prop :=
  ∃ b x y w p, 0 ≤ b < 32 ∧ r = HidReport_new HID_ID_MOUSE (mouse_report b x y w p).

Lemma push_report_keeps r : mouse_report_ok r → skeeps any (push_report r).
Proof.
  intros (b & x & y & w & p & Hb & ->). apply link_input_keeps.
  pose proof (input_acceptable HID_ID_MOUSE (mouse_report b x y w p) ltac:(by split)
    (mouse_report_bytes b x y w p Hb) ltac:(unfold HID_MAX_SIZE; cbn; lia)) as H. exact H.
Qed.

Lemma motion_ok dx dy b : u8 b → mouse_report_ok (generate_input_from_motion dx dy b).
Proof.
  intros Hb. rewrite motion_report_spec. eexists _, _, _, _, _. split; [|done].
  by apply buttons_byte_range.
Qed.

(** ** Calls *)

Lemma keeps_any {A} (Q : A → Prop) (c : cmd L Error A) : skeeps Q c → skeeps any c.
Proof. intros H. by eapply keeps_weaken. Qed.

Lemma seq_keeps {A B} (Q : B → Prop) (c : cmd L Error A) (k : A → cmd L Error B) :
  skeeps any c → (∀ a, skeeps Q (k a)) → skeeps Q (c ≫= k).
Proof. intros Hc Hk. eapply keeps_bind; [exact Hc|]. intros a _. apply Hk. Qed.

Lemma key_keeps sc p m : u8 sc → u8 m → skeeps any (key sc p m).
Proof.
  intros. eapply keeps_bind; [by apply on_kbd_keeps|]. intros msg Hm. by apply send_keeps.
Qed.

Lemma key_chord_keeps m sc : u8 sc → u8 m → skeeps any (key_chord m sc).
Proof.
  intros Hsc Hm. assert (u8 Modifiers_empty) by (by split).
  eapply keeps_guarded; [|eapply keeps_ignore_err; by apply key_keeps].
  apply seq_keeps; [by apply key_keeps|intros _]. apply seq_keeps; [by apply key_keeps|intros _].
  by apply key_keeps.
Qed.

Lemma to_u8_range sc : u8 (to_u8 sc).
Proof. apply wrap_range. lia. Qed.

Lemma try_from_char_mods c : 0 ≤ c → u8 (try_from_char c).1.
Proof.
  intros Hc. pose proof (char_ok_all c Hc) as H. unfold char_ok in H.
  destruct (try_from_char c) as [m [sc|]]; apply bool_decide_eq_true in H; [tauto|].
  cbn [fst]. by destruct H as [_ ->].
Qed.

Lemma chars_range text : is_str text → Forall (λ c, 0 ≤ c) (default [] (chars text)).
Proof.
  intros (cs & Hcs & ->). rewrite chars_encode by done. eapply Forall_impl; [exact Hcs|].
  unfold is_char. cbn. lia.
Qed.

Lemma type_char_keeps sc m : u8 m → skeeps any (type_char sc m).
Proof.
  intros Hm. apply seq_keeps; [|intros _]; apply key_keeps; [|done| |done]; apply to_u8_range.
Qed.

Lemma type_text_keeps text : is_str text → skeeps any (type_text text).
Proof.
  intros Ht. apply keeps_for_each. eapply Forall_impl; [by apply chars_range|]. intros c Hc. cbn.
  pose proof (try_from_char_mods c Hc) as Hm.
  destruct (try_from_char c) as [m [sc|]]; [by apply type_char_keeps|by apply keeps_ret].
Qed.

Lemma type_text_strict_keeps text : is_str text → skeeps any (type_text_strict text).
Proof.
  intros Ht. apply keeps_for_each. eapply Forall_impl; [by apply chars_range|]. intros c Hc. cbn.
  pose proof (try_from_char_mods c Hc) as Hm. destruct (try_from_char c) as [m o].
  apply seq_keeps; [by apply keeps_lift|intros sc]. by apply type_char_keeps.
Qed.

Lemma changed_keeps op : op_wf op → skeeps any (r ← with_gamepad (raw_op op); push_changed r).
Proof.
  intros Hop. eapply keeps_bind; [by apply with_gamepad_keeps|].
  intros [[id p]|] Hr; [|by apply keeps_ret]. apply link_gamepad_keeps.
  by apply packed_acceptable; apply Hr.
Qed.

Lemma frame_op_wf fr : frame_wf fr → op_wf (frame_op fr).
Proof. done. Qed.

Lemma packed_batch_ok id l : u16 id → Forall packed_ok l → Forall acceptable (packed_msg id <$> l).
Proof.
  intros Hid Hl. rewrite Forall_fmap. eapply Forall_impl; [exact Hl|].
  intros p Hp. by apply packed_acceptable.
Qed.

Lemma frame_batch_loop_keeps fs batch id n :
  Forall frame_wf fs → Forall packed_ok batch → (∀ i, id = Some i → u16 i) →
  skeeps (λ '(batch, id, _), Forall packed_ok batch ∧ ∀ i, id = Some i → u16 i)
    (frame_batch_loop fs batch id n).
Proof.
  intros Hfs. revert batch id n. induction Hfs as [|fr fs Hfr _ IH]; intros batch id n Hb Hid;
    cbn [frame_batch_loop]; [by apply keeps_ret|].
  eapply keeps_bind; [by apply (with_gamepad_keeps (frame_op fr))|].
  intros [[hid p]|] Hr; [|by apply IH]. destruct Hr as [Hhid Hp]. cbn zeta.
  assert (u16 (default hid id)) by (destruct id; cbn; auto).
  assert (Forall packed_ok (batch ++ [p])) by (by apply Forall_app, conj, Forall_singleton).
  case_decide.
  - eapply keeps_bind; [apply link_batch_keeps; by apply packed_batch_ok|].
    intros _ _. apply IH; [done|]. by intros i [= <-].
  - apply IH; [done|]. by intros i [= <-].
Qed.

Lemma set_frame_raw_batch_keeps fs : Forall frame_wf fs → skeeps any (set_frame_raw_batch fs).
Proof.
  intros Hfs. destruct fs as [|fr [|fr' fs]]; cbn [set_frame_raw_batch]; [by apply keeps_ret|..].
  - apply Forall_cons in Hfs as [Hfr _].
    eapply keeps_bind; [by apply (with_gamepad_keeps (frame_op fr))|]. intros r Hr.
    apply seq_keeps; [|intros _; by apply keeps_ret].
    destruct r as [[id p]|]; [|by apply keeps_ret]. apply link_gamepad_keeps.
    by apply packed_acceptable; apply Hr.
  - apply seq_keeps; [|intros _].
    { intros s Hs. unfold with_gamepad. destruct (closed s); [done|].
      destruct (gamepad_slot s) as [i|] eqn:Ei; [|done].
      destruct (gamepad s) as [g|] eqn:Eg; [|done]. cbn. split; [|done].
      destruct Hs as (Hm & Hk & Hg & Hi & Hrest). split; [done|]. split; [done|].
      split; [by intros ? [= <-]; apply Hg|]. split; [|done].
      intros j Hj. apply Hi. cbn in Hj. congruence. }
    eapply keeps_bind; [by apply frame_batch_loop_keeps|].
    intros [[batch id] n] [Hb Hid]. apply seq_keeps; [|intros _; by apply keeps_ret].
    destruct batch as [|p batch], id as [id|]; try by apply keeps_ret.
    apply link_batch_keeps. apply packed_batch_ok; auto.
Qed.

Lemma hid_id_seq_keeps {B} (Q : B → Prop) (k : Z → cmd L Error B) :
  (∀ id, u16 id → skeeps Q (k id)) → skeeps Q (id ← get_gamepad_hid_id; k id).
Proof. intros Hk. eapply keeps_bind; [apply hid_id_keeps|exact Hk]. Qed.

Lemma set_frame_raw_unchecked_keeps fr : skeeps any (set_frame_raw_unchecked fr).
Proof.
  apply hid_id_seq_keeps. intros id Hid. apply on_link_keeps, log_all_keeps, Forall_singleton.
  apply packed_acceptable; [done|apply pack_ok].
Qed.

Lemma set_frame_raw_packed_keeps p : packed_ok p → skeeps any (set_frame_raw_packed p).
Proof.
  intros Hp. apply hid_id_seq_keeps. intros id Hid. apply link_gamepad_keeps.
  by apply packed_acceptable.
Qed.

Lemma batch_unchecked_keeps fs : skeeps any (set_frame_raw_batch_unchecked fs).
Proof.
  destruct fs as [|fr [|fr' fs]]; cbn [set_frame_raw_batch_unchecked]; [by apply keeps_ret|..].
  - apply seq_keeps; [apply set_frame_raw_unchecked_keeps|intros _; by apply keeps_ret].
  - apply hid_id_seq_keeps. intros id Hid.
    apply seq_keeps; [|intros _; by apply keeps_ret]. apply on_link_keeps, log_all_keeps.
    rewrite Forall_fmap. apply Forall_true. intros f. apply packed_acceptable; [done|apply pack_ok].
Qed.

Lemma packed_batch_keeps fs : Forall packed_ok fs → skeeps any (set_frame_raw_packed_batch fs).
Proof.
  intros Hfs. destruct fs as [|fr [|fr' fs]]; cbn [set_frame_raw_packed_batch];
    [by apply keeps_ret|..].
  - apply Forall_cons in Hfs as [Hfr _].
    apply seq_keeps; [by apply set_frame_raw_packed_keeps|intros _; by apply keeps_ret].
  - apply hid_id_seq_keeps. intros id Hid.
    apply seq_keeps; [|intros _; by apply keeps_ret]. apply link_batch_keeps.
    by apply packed_batch_ok.
Qed.

Lemma raw_report_keeps p : is_bytes p → skeeps any (inject_raw_gamepad_report p).
Proof.
  intros Hp. unfold inject_raw_gamepad_report. repeat case_decide; try apply keeps_raise.
  apply hid_id_seq_keeps. intros id Hid. apply link_input_keeps.
  unfold HID_MAX_SIZE in *. rewrite wrap_small by (widths; lia).
  apply input_acceptable; [done|done|unfold HID_MAX_SIZE; lia].
Qed.

Lemma mouse_motion_keeps dx dy b : u8 b → skeeps any (mouse_motion dx dy b).
Proof.
  intros Hb. eapply keeps_bind; [|intros r; apply push_report_keeps].
  apply on_mouse_keeps. intros m a [= <-]. by apply motion_ok.
Qed.

Lemma mouse_buttons_keeps b : u8 b → skeeps any (mouse_buttons b).
Proof.
  intros Hb. eapply keeps_bind; [|intros r; apply push_report_keeps].
  apply on_mouse_keeps. intros m a [= <-]. rewrite click_report_spec.
  eexists _, _, _, _, _. split; [|done]. by apply buttons_byte_range.
Qed.

Lemma mouse_scroll_keeps h v : skeeps any (mouse_scroll h v).
Proof.
  eapply (keeps_bind _ (λ r, match r with Some r => mouse_report_ok r | None => True end)).
  - apply on_mouse_keeps. intros m a. rewrite generate_scroll_spec.
    destruct (consume_scroll_integer _) as [kh rh], (consume_scroll_integer _) as [kv rv].
    intros [= <-]. unfold scroll_report. destruct (_ && _); [done|].
    exists 0, 0, 0, kv, kh. split; [lia|done].
  - intros [r|] Hr; [|by apply keeps_ret].
    apply seq_keeps; [by apply push_report_keeps|intros _; by apply keeps_ret].
Qed.

Lemma mouse_frame_batch_keeps fs : Forall (λ f, u8 f.2) fs → skeeps any (mouse_frame_batch fs).
Proof.
  intros Hfs. destruct fs as [|f fs]; cbn [mouse_frame_batch]; [by apply keeps_ret|].
  apply seq_keeps; [by apply on_mouse_keeps|intros _].
  apply seq_keeps; [|intros _; by apply keeps_ret].
  apply keeps_for_each. eapply Forall_impl; [exact Hfs|]. intros [[dx dy] b] Hb.
  apply (keeps_bind _ mouse_report_ok).
  - apply on_mouse_keeps. intros m a [= <-]. by apply motion_ok.
  - intros r Hr. destruct (Hr) as (b' & x & y & w & p & _ & ->). exact (push_report_keeps _ Hr).
Qed.

(** ** Touch *)

Lemma inject_touch_keeps a p x y pr :
  u8 a → u64 p → i32 x → i32 y → skeeps any (inject_touch a p x y pr).
Proof.
  intros Ha Hp Hx Hy. apply (keeps_bind _ acceptable); [|intros m Hm; by apply send_keeps].
  apply keeps_read. intros s (_ & _ & _ & _ & _ & Hw & Hh). by split.
Qed.

Lemma interpolate_range a b i n : i32 (interpolate a b i n).
Proof.
  unfold interpolate. pose proof (cast_sat_range (-2147483648) 2147483647) as H.
  match goal with |- i32 (f32_as_i32 ?x) => specialize (H x ltac:(lia)) end.
  unfold f32_as_i32. widths. lia.
Qed.

Lemma ids_u64 p : 0 ≤ p ≤ 10 → u64 p.
Proof. widths. lia. Qed.

Lemma move_along_keeps p from to n : u64 p → skeeps any (move_along p from to n).
Proof.
  intros Hp. apply keeps_for_each, Forall_true. intros i.
  apply inject_touch_keeps; [done|done|apply interpolate_range..].
Qed.

(** Runs on states that extend the session's. *)
Definition pair_ok {X} (J : X → Prop) (p : L * X) : Prop := session_ok p.1 ∧ J p.2.

Lemma on_session_keeps {X A} (J : X → Prop) (Q : A → Prop) (c : cmd L Error A) :
  skeeps Q c → keeps (pair_ok J) Q (on_session c).
Proof. apply keeps_zoom; [by intros p [H _]|by intros p s [_ H] Hs]. Qed.

Lemma local_pair_keeps {X} (J : X → Prop) (x : X) (c : cmd (L * X) Error unit) :
  J x → keeps (pair_ok J) any c → skeeps any (λ s, let '(o, p) := c (s, x) in (o, p.1)).
Proof.
  intros Hx Hc s Hs. destruct (Hc (s, x)) as [HI _]; [by split|].
  destruct (c (s, x)) as [o p]. by split; [apply HI|].
Qed.

Lemma swap_remove_Forall P i l : Forall P l → Forall P (swap_remove i l).
Proof.
  intros Hl. unfold swap_remove. destruct (last l) as [x|] eqn:E; [|done].
  apply Forall_take, Forall_insert; [done|]. apply last_Some in E as [k ->].
  apply Forall_app in Hl as [_ Hl]. by apply Forall_cons in Hl as [? _].
Qed.

Abbreviation tkeeps := (keeps (E := Error) (pair_ok (Forall (λ q, u64 q)))).

Lemma mark_pressed_keeps p : u64 p → tkeeps any (mark_pressed p).
Proof.
  intros Hp. apply keeps_modify. intros q [Hs Hq]. split; [done|].
  apply Forall_app. by split; [|apply Forall_singleton].
Qed.

Lemma mark_released_keeps p : tkeeps any (mark_released p).
Proof.
  apply keeps_modify. intros q [Hs Hq].
  destruct (list_find _ q.2) as [[pos r]|]; [|done].
  split; [done|]. by apply swap_remove_Forall.
Qed.

Lemma release_pressed_keeps : tkeeps any release_pressed.
Proof.
  intros q [Hs Hq].
  assert (tkeeps any (for_each (reverse q.2)
    (λ pid, ignore_err (on_session (inject_touch ACTION_UP pid 0 0 zero))))) as H.
  { apply keeps_for_each. rewrite Forall_reverse. eapply Forall_impl; [exact Hq|].
    intros pid Hpid. eapply keeps_ignore_err. apply on_session_keeps.
    by apply inject_touch_keeps. }
  apply H. by split.
Qed.

Lemma tap_pointer_keeps p x y : u64 p → i32 x → i32 y → skeeps any (tap_pointer p x y).
Proof.
  intros Hp Hx Hy. apply (local_pair_keeps (Forall (λ q, u64 q))); [done|].
  eapply keeps_guarded; [|apply release_pressed_keeps].
  eapply keeps_bind; [apply on_session_keeps; by apply (inject_touch_keeps ACTION_DOWN)|intros _ _].
  eapply keeps_bind; [by apply mark_pressed_keeps|intros _ _].
  eapply keeps_bind; [apply on_session_keeps; by apply (inject_touch_keeps ACTION_UP)|intros _ _].
  apply mark_released_keeps.
Qed.

Lemma swipe_keeps p from to n :
  u64 p → i32_point from → i32_point to → skeeps any (swipe_pointer p from to n).
Proof.
  intros Hp [Hf1 Hf2] [Ht1 Ht2]. unfold swipe_pointer.
  repeat (apply seq_keeps; [first [by apply inject_touch_keeps|by apply move_along_keeps]|intros _]).
  by apply inject_touch_keeps.
Qed.

Lemma drag_keeps from to n : i32_point from → i32_point to → skeeps any (drag from to n).
Proof.
  intros Hf Ht. exact (swipe_keeps 0 from to n ltac:(by split) Hf Ht).
Qed.

Lemma long_press_keeps x y : i32 x → i32 y → skeeps any (long_press x y).
Proof. intros. apply seq_keeps; [|intros _]; by apply inject_touch_keeps. Qed.

Lemma double_tap_keeps x y : i32 x → i32 y → skeeps any (double_tap x y).
Proof.
  intros. unfold double_tap, touch_msg_pub.
  repeat (apply seq_keeps; [by apply inject_touch_keeps|intros _]). by apply inject_touch_keeps.
Qed.

(** Every point of the screenshot gesture is on the screen. *)
Lemma screenshot_points w h id step :
  u16 w → u16 h → 0 ≤ id ≤ 2 → 1 ≤ step ≤ 10 →
  0 ≤ Z.quot w 4 * (id + 1) ≤ w ∧ 0 ≤ Z.quot h 4 ≤ h ∧
  0 ≤ Z.quot h 4 + Z.quot (Z.quot h 2 * step) 10 ≤ h ∧ 0 ≤ Z.quot (h * 3) 4 ≤ h.
Proof.
  intros Hw Hh Hid Hstep. widths.
  rewrite (Z.quot_div_nonneg w 4), (Z.quot_div_nonneg h 4), (Z.quot_div_nonneg h 2),
    (Z.quot_div_nonneg (h * 3) 4) by lia.
  assert (0 ≤ h / 2 * step) by (apply Z.mul_nonneg_nonneg; [apply Z.div_pos|]; lia).
  rewrite Z.quot_div_nonneg by lia.
  assert (0 ≤ h / 2 * step / 10 ≤ h / 2) as Hs.
  { split; [apply Z.div_pos; lia|]. apply Z.div_le_upper_bound; [lia|]. nia. }
  revert Hs. generalize (h / 2 * step / 10). intros k Hk.
  assert (0 ≤ w / 4 * (id + 1) ≤ w) as Hx.
  { assert (id = 0 ∨ id = 1 ∨ id = 2) as [-> | [-> | ->]] by lia; Z.div_mod_to_equations; lia. }
  split; [exact Hx|]. clear Hx. split_and!; Z.div_mod_to_equations; lia.
Qed.

Lemma three_finger_keeps : skeeps any three_finger_screenshot.
Proof.
  apply (keeps_bind _ (λ w, u16 w)); [apply keeps_read; intros s H; apply H|intros w Hw].
  apply (keeps_bind _ (λ h, u16 h)); [apply keeps_read; intros s H; apply H|intros h Hh].
  assert (∀ a id y pr, u8 a → 0 ≤ id ≤ 2 → 0 ≤ y ≤ h →
    skeeps any (touch_msg_pub a id (Z.quot w 4 * (id + 1)) y pr)) as Ht.
  { intros a id y pr Ha Hid Hy. pose proof (screenshot_points w h id 1 Hw Hh Hid ltac:(lia)).
    apply inject_touch_keeps; [done|widths; lia..]. }
  assert (∀ f : Z → cmd L Error unit, (∀ id, 0 ≤ id ≤ 2 → skeeps any (f id)) →
    skeeps any (for_each [0; 1; 2] f)) as H3.
  { intros f Hf. apply keeps_for_each. rewrite !Forall_cons. split_and!; [apply Hf; lia..|done]. }
  pose proof (λ step, screenshot_points w h 0 step Hw Hh ltac:(lia)) as Hp.
  apply seq_keeps; [|intros _; apply seq_keeps; [|intros _]].
  - apply H3. intros id Hid. apply Ht; [by split|done|apply (Hp 1); lia].
  - apply keeps_for_each, Forall_forall. intros step Hstep%elem_of_seqZ.
    apply H3. intros id Hid. apply Ht; [by split|done|apply Hp; lia].
  - apply H3. intros id Hid. apply Ht; [by split|done|apply (Hp 1); lia].
Qed.

(** The array of pressed fingers keeps its ten entries. *)
Definition ten (l : list bool) : Prop := length l = 10%nat.
Abbreviation fkeeps := (keeps (E := Error) (pair_ok ten)).

Lemma imap_pair_Forall {A} (P : nat * A → Prop) (l : list A) :
  (∀ i x, l !! i = Some x → P (i, x)) → Forall P (imap pair l).
Proof.
  intros H. apply Forall_lookup. intros i x Hx.
  rewrite list_lookup_imap in Hx. apply fmap_Some in Hx as (y & Hy & ->). auto.
Qed.

Lemma release_fingers_keeps : fkeeps any release_fingers.
Proof.
  intros q [Hs Hq].
  assert (fkeeps any (for_each (reverse (imap pair q.2)) (λ '(id, pressed),
    if (pressed : bool)
    then ignore_err (on_session (inject_touch ACTION_UP (Z.of_nat id) 0 0 zero))
    else mret tt))) as H.
  { apply keeps_for_each. rewrite Forall_reverse. apply imap_pair_Forall.
    intros i [|] Hi; [|by apply keeps_ret]. apply lookup_lt_Some in Hi. unfold ten in Hq.
    eapply keeps_ignore_err. apply on_session_keeps.
    apply inject_touch_keeps; [by split|widths; lia|by split..]. }
  apply H. by split.
Qed.

Lemma on_error_keeps {X A} (I : X → Prop) (Q : A → Prop) Q' (c : cmd X Error A) d :
  keeps I Q c → keeps I Q' d → keeps I Q (on_error c d).
Proof.
  intros Hc Hd s Hs. destruct (Hc s Hs) as [HI HQ]. unfold on_error.
  destruct (c s) as [[a|e|] s']; [done| |done].
  apply (keeps_bind I Q'); [done| |done]. intros ? _. apply keeps_raise.
Qed.

Lemma multi_finger_tap_keeps points :
  Forall i32_point points → skeeps any (multi_finger_tap points).
Proof.
  intros Hp. unfold multi_finger_tap. destruct (negb _) eqn:Hn; [apply keeps_raise|].
  assert (length points ≤ 10)%nat as Hlen.
  { apply negb_false_iff, andb_true_iff in Hn as [_ Hn%Z.leb_le].
    unfold MAX_POINTERS in Hn. lia. }
  apply (local_pair_keeps ten); [done|]. eapply (keeps_bind _ any).
  - eapply on_error_keeps; [|apply release_fingers_keeps].
    apply keeps_for_each, imap_pair_Forall. intros i [x y] Hi.
    rewrite Forall_lookup in Hp. destruct (Hp i _ Hi) as [Hx Hy].
    apply lookup_lt_Some in Hi. eapply (keeps_bind _ any).
    + apply on_session_keeps, inject_touch_keeps; [by split|widths; lia|done..].
    + intros _ _. apply keeps_modify. intros q [Hs Hq]. split; [done|].
      unfold ten in *. cbn. by rewrite length_insert.
  - intros _ _. eapply on_error_keeps; [|apply release_fingers_keeps].
    apply keeps_for_each, Forall_forall. intros id Hid%elem_of_seqZ.
    apply on_session_keeps, inject_touch_keeps; [by split|widths; lia|by split..].
Qed.

(** *** [MultitouchHandle] *)

Definition mt_ok (mt : MultitouchHandle (W := MsgLog)) : Prop := session_ok (mt_session mt).
Abbreviation mkeeps := (keeps (E := Error) mt_ok).

Lemma on_mt_keeps {A} (Q : A → Prop) (c : cmd L Error A) : skeeps Q c → mkeeps Q (on_mt c).
Proof. by apply keeps_zoom. Qed.

Lemma mt_seq {A B} (c : cmd (MultitouchHandle (W := MsgLog)) Error A)
    (k : A → cmd (MultitouchHandle (W := MsgLog)) Error B) :
  mkeeps any c → (∀ a, mkeeps any (k a)) → mkeeps any (c ≫= k).
Proof. intros Hc Hk. eapply keeps_bind; [exact Hc|]. intros a _. apply Hk. Qed.

Lemma check_id_keeps id : mkeeps any (check_id id).
Proof. unfold check_id. case_match; [apply keeps_raise|by apply keeps_ret]. Qed.

Lemma get_active_keeps id : mkeeps any (get_active id).
Proof. by intros mt H. Qed.

Lemma set_active_keeps id b : mkeeps any (set_active id b).
Proof. by intros mt H. Qed.

Lemma mt_touch_keeps a p x y pr :
  u8 a → u64 p → i32 x → i32 y → mkeeps any (on_mt (inject_touch a p x y pr)).
Proof. intros. by apply on_mt_keeps, inject_touch_keeps. Qed.

Lemma down_keeps id x y pr : u64 id → i32 x → i32 y → mkeeps any (down id x y pr).
Proof.
  intros. apply mt_seq; [apply check_id_keeps|intros _].
  apply mt_seq; [apply get_active_keeps|intros [|]]; [apply keeps_raise|].
  apply mt_seq; [by apply mt_touch_keeps|intros _]. apply set_active_keeps.
Qed.

Lemma move_to_keeps id x y pr : u64 id → i32 x → i32 y → mkeeps any (move_to id x y pr).
Proof.
  intros. apply mt_seq; [apply check_id_keeps|intros _].
  apply mt_seq; [apply get_active_keeps|intros [|]]; [|apply keeps_raise].
  by apply mt_touch_keeps.
Qed.

Lemma up_keeps id : u64 id → mkeeps any (up id).
Proof.
  intros. apply mt_seq; [apply check_id_keeps|intros _].
  apply mt_seq; [apply get_active_keeps|intros [|]]; [|apply keeps_raise].
  apply mt_seq; [by apply mt_touch_keeps|intros _]. apply set_active_keeps.
Qed.

Lemma cancel_keeps id : u64 id → mkeeps any (cancel id).
Proof.
  intros. apply mt_seq; [apply check_id_keeps|intros _].
  apply mt_seq; [apply get_active_keeps|intros [|]]; [|apply keeps_raise].
  apply mt_seq; [by apply mt_touch_keeps|intros _]. apply set_active_keeps.
Qed.

Lemma mt_pinch_keeps p0 p1 n : path_ok p0 → path_ok p1 → mkeeps any (mt_pinch p0 p1 n).
Proof.
  intros H0 H1. unfold mt_pinch.
  do 2 (apply mt_seq; [apply check_id_keeps|intros _]).
  apply mt_seq; [apply get_active_keeps|intros a0].
  apply mt_seq; [apply get_active_keeps|intros a1].
  case_match; [apply keeps_raise|]. apply keeps_for_each, Forall_true. intros i.
  apply mt_seq; [|intros _];
    (apply mt_touch_keeps; [by split|by apply H0 || by apply H1|apply interpolate_range..]).
Qed.

Lemma release_all_keeps : mkeeps any release_all.
Proof.
  apply keeps_for_each, Forall_forall. intros id Hid%elem_of_seqZ.
  unfold MAX_POINTERS in Hid.
  apply mt_seq; [apply get_active_keeps|intros [|]]; [|by apply keeps_ret].
  apply mt_seq; [apply mt_touch_keeps; [by split|widths; lia|by split..]|intros _].
  apply set_active_keeps.
Qed.

Lemma run_touch_keeps c : touch_call_ok c → mkeeps any (run_touch c).
Proof.
  destruct c; cbn [run_touch touch_call_ok]; intros H; destruct_and?;
    auto using down_keeps, move_to_keeps, up_keeps, cancel_keeps, mt_pinch_keeps,
      release_all_keeps.
Qed.

Lemma local_mt_keeps (c : cmd (MultitouchHandle (W := MsgLog)) Error unit) :
  mkeeps any c → skeeps any (λ s, let '(o, mt) := c (multitouch s) in (o, mt_session mt)).
Proof.
  intros Hc s Hs. destruct (Hc (multitouch s) Hs) as [HI _].
  by destruct (c (multitouch s)) as [o mt].
Qed.

Lemma use_multitouch_keeps calls : Forall touch_call_ok calls → skeeps any (use_multitouch calls).
Proof.
  intros H. apply local_mt_keeps, keeps_for_each. eapply Forall_impl; [exact H|].
  intros c Hc. eapply keeps_ignore_err. by apply run_touch_keeps.
Qed.

Lemma pinch_keeps cx cy r1 r2 n : i32 cy → skeeps any (pinch cx cy r1 r2 n).
Proof.
  intros Hcy. assert (∀ z, i32 (swrap 32 z)) as Hs by (intros z; apply swrap_range; lia).
  apply local_mt_keeps.
  do 2 (apply mt_seq; [apply down_keeps; [by split|apply Hs|done]|intros _]).
  apply mt_seq; [apply mt_pinch_keeps;
    (split; [by split|split; (split; [apply Hs|exact Hcy])])|intros _].
  apply mt_seq; [by apply up_keeps|intros _]. by apply up_keeps.
Qed.

(** ** Opening, closing, histories *)

Lemma driver_close_ok slot g :
  gamepads_wf g → (∀ i, slot = Some i → (i < MAX_GAMEPADS)%nat) →
  let '(o, g') :=
    match slot with
    | Some i => close_slot_idx i g
    | None => Gamepad.close HID_ID_GAMEPAD_FIRST g
    end in
  gamepads_wf g' ∧ ∀ m, o = Ok m → acceptable m.
Proof.
  intros Hg Hslot. pose proof Hg as (Hlen & _). destruct slot as [i|].
  - specialize (Hslot i eq_refl).
    destruct (lookup_lt_is_Some_2 (slots g) i) as [t Ht]; [by rewrite Hlen|].
    rewrite (close_slot_idx_spec i t g Hg Ht). case_decide; [done|].
    split; [by apply free_store|]. intros m [= <-]. split; [|done].
    unfold MAX_GAMEPADS in Hslot. change (u16 (3 + Z.of_nat i)). widths. lia.
  - pose proof (close_spec HID_ID_GAMEPAD_FIRST g Hg ltac:(done)) as H.
    destruct (bound g HID_ID_GAMEPAD_FIRST) as [[i p]|] eqn:Hb; [|by rewrite H].
    destruct (Gamepad.close HID_ID_GAMEPAD_FIRST g) as [o g']. destruct H as (-> & Hg' & _).
    split; [done|]. intros m [= <-]. apply bound_Some in Hb as (_ & t & Ht & _ & _); [|done].
    destruct (wf_lookup _ _ _ Hg Ht) as [_ Hi]. unfold MAX_GAMEPADS in Hi.
    split; [|done]. change (u16 (3 + Z.of_nat i)). widths. lia.
Qed.

Lemma set_gamepad_ok g slot id s :
  session_ok s → (∀ g', g = Some g' → gamepads_wf g') →
  (∀ i, slot = Some i → (i < MAX_GAMEPADS)%nat) → (∀ i, id = Some i → u16 i) →
  session_ok (set_gamepad g slot id s).
Proof.
  intros (Hm & Hk & _ & _ & _ & Hscr) Hg Hi Hid.
  exact (conj Hm (conj Hk (conj Hg (conj Hi (conj Hid Hscr))))).
Qed.

Lemma close_gamepad_keeps : skeeps any close_gamepad.
Proof.
  apply (keeps_bind _ (λ g, ∀ g', g = Some g' → gamepads_wf g'));
    [apply keeps_read; intros s H; apply H|]. 
  intros [g|] Hg; [|by apply keeps_ret]. specialize (Hg g eq_refl).
  apply (keeps_bind _ (λ slot, ∀ i, slot = Some i → (i < MAX_GAMEPADS)%nat));
    [apply keeps_read; intros s H; apply H|intros slot Hslot].
  pose proof (driver_close_ok slot g Hg Hslot) as Hc.
  destruct (match slot with Some i => _ | None => _ end) as [o g']. destruct Hc as [Hg' Ho].
  apply (keeps_bind _ (λ id, ∀ i, id = Some i → u16 i));
    [apply keeps_read; intros s H; apply H|intros id Hid].
  apply seq_keeps; [|intros _].
  { apply keeps_modify. intros s Hs. apply set_gamepad_ok; [done| |done..]. by intros ? [= <-]. }
  apply seq_keeps; [|intros _].
  { destruct o as [m|e|]; [apply send_keeps; auto|by apply keeps_ret|apply keeps_unwind]. }
  apply keeps_modify. intros s Hs. by apply set_gamepad_ok.
Qed.

Lemma close_keeps : skeeps any close.
Proof.
  apply (keeps_bind _ any); [by apply keeps_read|intros [|] _]; [by apply keeps_ret|].
  apply (keeps_bind _ any); [by apply keeps_read|intros k _]. apply seq_keeps.
  { destruct k as [k|]; [|by apply keeps_ret]. apply (keeps_bind _ acceptable); [|apply send_keeps].
    apply keeps_lift. by intros m [= <-]. }
  intros _. apply (keeps_bind _ any); [by apply keeps_read|intros m _]. apply seq_keeps.
  { destruct m as [m|]; [|by apply keeps_ret]. apply (keeps_bind _ acceptable); [|apply send_keeps].
    apply keeps_lift. by intros m' [= <-]. }
  intros _. apply seq_keeps; [apply close_gamepad_keeps|intros _].
  by apply keeps_modify.
Qed.

Lemma set_screen_keeps w h : u16 w → u16 h → skeeps any (set_screen_size w h).
Proof.
  intros Hw Hh. apply keeps_modify.
  intros s (H1 & H2 & H3 & H4 & H5 & _).
  exact (conj H1 (conj H2 (conj H3 (conj H4 (conj H5 (conj Hw Hh)))))).
Qed.

Lemma inject_scroll_keeps x y h v b :
  i32 x → i32 y → u32 b → skeeps any (inject_scroll x y h v b).
Proof.
  intros Hx Hy Hb.
  apply (keeps_bind _ (λ w, u16 w)); [apply keeps_read; intros s H; apply H|intros w Hw].
  apply (keeps_bind _ (λ w, u16 w)); [apply keeps_read; intros s H; apply H|intros h' Hh].
  by apply send_keeps.
Qed.

Lemma tap_keycode_keeps k m : u32 k → u32 m → skeeps any (tap_android_keycode k m).
Proof.
  intros Hk Hm. apply seq_keeps; [|intros _]; apply send_keeps; (split; [|done]);
    (split; [by split|]); (split; [done|]); (split; [by split|done]).
Qed.

Lemma stick_range v : i16 (stick_of_f32 v).
Proof.
  unfold stick_of_f32. pose proof (cast_sat_range (-32768) 32767) as H.
  match goal with |- i16 (f32_as_i16 ?x) => specialize (H x ltac:(lia)) end.
  unfold f32_as_i16. widths. lia.
Qed.

Lemma session_flush_keeps : skeeps any (_ ← session_flush; mret tt).
Proof.
  apply seq_keeps; [|intros _; by apply keeps_ret]. apply on_link_keeps. by apply keeps_ret.
Qed.

Lemma drop_result {A} (c : cmd L Error A) : skeeps any c → skeeps any (_ ← c; mret tt).
Proof. intros H. apply seq_keeps; [done|]. intros _. by apply keeps_ret. Qed.

Lemma run_call_keeps c : call_ok c → skeeps any (run_call c).
Proof.
  destruct c; cbn [run_call call_ok]; intros H; destruct_and?;
    auto using key_keeps, key_chord_keeps, type_text_keeps, type_text_strict_keeps,
      raw_report_keeps, mouse_motion_keeps, mouse_buttons_keeps, tap_pointer_keeps,
      swipe_keeps, drag_keeps, long_press_keeps, double_tap_keeps, three_finger_keeps,
      multi_finger_tap_keeps, use_multitouch_keeps, pinch_keeps, close_keeps, send_keeps,
      inject_touch_keeps, set_frame_raw_packed_keeps, set_frame_raw_unchecked_keeps,
      set_screen_keeps, inject_scroll_keeps, tap_keycode_keeps, session_flush_keeps,
      drop_result, set_frame_raw_batch_keeps, batch_unchecked_keeps, packed_batch_keeps,
      mouse_scroll_keeps, mouse_frame_batch_keeps.
  - apply (changed_keeps (OpAxis axis _)), stick_range.
  - by apply (changed_keeps (OpAxis axis raw)).
  - by apply (changed_keeps (OpButtons btns)).
  - by apply (changed_keeps (OpButton btn pressed)).
  - by apply (changed_keeps (OpLeft x y)).
  - by apply (changed_keeps (OpRight x y)).
  - by apply (changed_keeps (OpTriggers l r)).
  - by apply (changed_keeps (OpSticks lx ly rx ry lt rt)).
  - by apply (changed_keeps (frame_op frame)).
Qed.

Lemma run_calls_ok cs s : Forall call_ok cs → session_ok s → session_ok (run_calls cs s).2.
Proof.
  intros Hcs. revert s. induction Hcs as [|c cs Hc _ IH]; intros s Hs; [done|]. cbn [run_calls].
  destruct (run_call_keeps c Hc s Hs) as [H _]. destruct (run_call c s) as [o s1].
  specialize (IH s1 H). by destruct (run_calls cs s1) as [os s2].
Qed.

(** The driver and the message the session opens its gamepad with. *)
Definition opened_gamepad : GamepadHid := store 0 (reset_slot HID_ID_GAMEPAD_FIRST) Gamepad_new.
Definition gamepad_create : ControlMessage :=
  build_create HID_ID_GAMEPAD_FIRST (Some XBOX_NAME).

Lemma gamepad_open_run :
  Gamepad.open HID_ID_GAMEPAD_FIRST (Some XBOX_NAME) Gamepad_new
  = (Ok (HID_ID_GAMEPAD_FIRST, gamepad_create), opened_gamepad).
Proof. done. Qed.

Lemma opened_gamepad_wf : gamepads_wf opened_gamepad.
Proof.
  exact (call_wf_state (CallOpen HID_ID_GAMEPAD_FIRST (Some XBOX_NAME)) Gamepad_new
    Gamepad_new_wf ltac:(by split)).
Qed.

Lemma xbox_ascii : is_ascii XBOX_NAME.
Proof. by apply (bool_decide_unpack _); vm_compute. Qed.

Lemma gamepad_create_acceptable : acceptable gamepad_create.
Proof.
  split; [|by apply (bool_decide_unpack _); vm_compute].
  split; [by split|]. split; [by split|]. split; [by split|].
  split; [apply ascii_is_str, xbox_ascii|]. by apply (bool_decide_unpack _); vm_compute.
Qed.

Lemma device_create_acceptable {D} `{LawfulHidDevice D} (d : D) name m :
  open_message d name = Ok m → acceptable m.
Proof.
  intros Hm. destruct (open_message_ok d name) as (c & Hc & _ & Hwf & He).
  rewrite Hc in Hm. by injection Hm as <-.
Qed.

Lemma open_devices_keeps req : skeeps any (open_devices req).
Proof.
  apply seq_keeps; [|intros _; apply seq_keeps; [|intros _]].
  - destruct (or_kbd req); [|by apply keeps_ret]. apply (keeps_bind _ acceptable).
    { apply keeps_lift. apply device_create_acceptable. }
    intros m Hm. apply seq_keeps; [by apply send_keeps|intros _]. apply keeps_modify.
    intros s (H1 & _ & H3 & H4 & H5 & Hscr).
    refine (conj H1 (conj _ (conj H3 (conj H4 (conj H5 Hscr))))).
    intros k [= <-]. apply Keyboard_new_wf.
  - destruct (or_mouse req); [|by apply keeps_ret]. apply (keeps_bind _ acceptable).
    { apply keeps_lift. apply device_create_acceptable. }
    intros m Hm. apply seq_keeps; [by apply send_keeps|intros _]. by apply keeps_modify.
  - destruct (or_gamepad req); [|by apply keeps_ret]. rewrite gamepad_open_run.
    apply (keeps_bind _ (λ r, r = (HID_ID_GAMEPAD_FIRST, gamepad_create)));
      [apply keeps_lift; by intros a [= <-]|]. intros _ ->.
    apply (keeps_bind _ (λ i, i = 0%nat)); [apply keeps_lift; by intros a [= <-]|].
    intros _ ->. apply seq_keeps; [apply send_keeps, gamepad_create_acceptable|intros _].
    apply keeps_modify. intros s Hs. apply set_gamepad_ok; [done|..].
    + intros g [= <-]. apply opened_gamepad_wf.
    + intros i [= <-]. unfold MAX_GAMEPADS. lia.
    + intros i [= <-]. by split.
Qed.

Lemma new_session_ok : session_ok (new_session (mkLog [])).
Proof.
  repeat (apply conj; [done|]). by split.
Qed.

Lemma drop_session_ok s : session_ok s → session_ok (drop_session s).2.
Proof.
  intros Hs. unfold drop_session. apply (on_link_keeps any); [by apply keeps_ret|].
  destruct (closed s); [done|]. by apply close_keeps.
Qed.

(** Every message of a session's lifetime is acceptable. *)
Lemma lifetime_acceptable req cs :
  Forall call_ok cs → Forall acceptable (msgs (lifetime (mkLog []) req cs).2).
Proof.
  intros Hcs. destruct (open_devices_keeps req _ new_session_ok) as [H _].
  unfold lifetime, open. destruct (open_devices req _) as [[[]|e|] s1]; cbn [fst snd] in *.
  - pose proof (run_calls_ok cs s1 Hcs H) as H2. destruct (run_calls cs s1) as [os s2].
    by apply drop_session_ok.
  - by apply drop_session_ok.
  - by apply drop_session_ok.
Qed.
