(* ===== verification/Vocabulary.v ===== *)
(** * The vocabularies of Android ([src/src/types.rs])

    Newtypes over integers for keycodes, actions of keys and touches, copy keys and pointer
    ids.  They are transparent in Rust and here; the session takes the integers ([Types] and
    [Session] name the constants it uses itself). *)

From S2P Require Import Prelude Words Types Session.
Local Open Scope Z_scope.

Definition Modifiers_NONE : Modifiers := 0.
Definition Modifiers_bitor_assign (self rhs : Modifiers) : Modifiers := Z.lor self rhs.

(** ** Keycodes *)

Definition AndroidKeycode : Set := Z.
Definition AndroidKeycode_new (raw : Z) : AndroidKeycode := raw.
Definition AndroidKeycode_value (self : AndroidKeycode) : Z := self.
Definition u32_from_AndroidKeycode (keycode : AndroidKeycode) : Z := keycode.
Definition DPAD_UP : AndroidKeycode := 19.
Definition DPAD_DOWN : AndroidKeycode := 20.
Definition DPAD_LEFT : AndroidKeycode := 21.
Definition DPAD_RIGHT : AndroidKeycode := 22.
Definition POWER : AndroidKeycode := 26.
Definition ENTER : AndroidKeycode := 66.
Definition MENU : AndroidKeycode := 82.

(** ** Actions of keys *)

Definition AndroidKeyAction : Set := Z.
Definition AndroidKeyAction_new (raw : Z) : AndroidKeyAction := raw.
Definition AndroidKeyAction_value (self : AndroidKeyAction) : Z := self.
Definition u8_from_AndroidKeyAction (action : AndroidKeyAction) : Z := action.
Definition MULTIPLE : AndroidKeyAction := 2.

(** ** Copy keys *)

Definition ClipboardCopyKey : Set := Z.
Definition ClipboardCopyKey_new (raw : Z) : ClipboardCopyKey := raw.
Definition ClipboardCopyKey_value (self : ClipboardCopyKey) : Z := self.
Definition u8_from_ClipboardCopyKey (copy_key : ClipboardCopyKey) : Z := copy_key.
Definition COPY : ClipboardCopyKey := 1.
Definition CUT : ClipboardCopyKey := 2.

(** ** Actions of touches *)

Definition TouchAction : Set := Z.
Definition TouchAction_new (raw : Z) : TouchAction := raw.
Definition TouchAction_value (self : TouchAction) : Z := self.
Definition u8_from_TouchAction (action : TouchAction) : Z := action.
Definition TouchAction_DOWN : TouchAction := 0.
Definition TouchAction_UP : TouchAction := 1.
Definition TouchAction_MOVE : TouchAction := 2.

(** ** Pointers *)

Definition POINTER_ID_MOUSE : Z := 2 ^ 64 - 1.
Definition POINTER_ID_GENERIC_FINGER : Z := 2 ^ 64 - 1 - 1.
Definition POINTER_ID_VIRTUAL_FINGER : Z := 2 ^ 64 - 1 - 2.

Definition TouchPointerId : Set := Z.
Definition TouchPointerId_new (raw : Z) : TouchPointerId := raw.
Definition TouchPointerId_finger (id : Z) : TouchPointerId := id.
Definition TouchPointerId_value (self : TouchPointerId) : Z := self.
Definition u64_from_TouchPointerId (pointer_id : TouchPointerId) : Z := pointer_id.
Definition TouchPointerId_MOUSE : TouchPointerId := POINTER_ID_MOUSE.
Definition TouchPointerId_GENERIC_FINGER : TouchPointerId := POINTER_ID_GENERIC_FINGER.
Definition TouchPointerId_VIRTUAL_FINGER : TouchPointerId := POINTER_ID_VIRTUAL_FINGER.

(** The constants are those the session writes. *)
Lemma touch_actions :
  u8_from_TouchAction TouchAction_DOWN = ACTION_DOWN ∧ u8_from_TouchAction TouchAction_UP = ACTION_UP ∧
  u8_from_TouchAction TouchAction_MOVE = ACTION_MOVE.
Proof. done. Qed.

(** The special pointers are not fingers. *)
Lemma special_pointers :
  u64 POINTER_ID_MOUSE ∧ u64 POINTER_ID_GENERIC_FINGER ∧ u64 POINTER_ID_VIRTUAL_FINGER ∧
  NoDup [POINTER_ID_MOUSE; POINTER_ID_GENERIC_FINGER; POINTER_ID_VIRTUAL_FINGER].
Proof. split_and!; [widths; unfold POINTER_ID_MOUSE, POINTER_ID_GENERIC_FINGER, POINTER_ID_VIRTUAL_FINGER; lia..|]. apply (bool_decide_unpack _). vm_compute. exact I. Qed.
