(* ===== verification/Lifecycle.v ===== *)
(** * What a session's lifetime puts on the wire

    The refinement to the message log, and what the log of a lifetime contains: one
    UHID_CREATE and one UHID_DESTROY per requested device, and touches that never leave a
    finger on the screen. *)

From S2P Require Import Prelude Words Errors Types Utf8 Float32 Message Transport Descriptor.
From S2P Require Import Keyboard Mouse Gamepad Coalesce Sink Session Touch Refinement.
From S2P Require Import SessionInv.
Local Open Scope Z_scope.

(** ** Running on the log *)

Definition say (ms : list ControlMessage) (s : L) : L :=
  set_link (mkLog (logged (link s) ++ ms)) s.

Lemma send_say m s : send m s = (Ok tt, say [m] s).
Proof. done. Qed.

Lemma say_say ms ms' s : say ms' (say ms s) = say (ms ++ ms') s.
Proof. unfold say. cbn. by rewrite <-app_assoc. Qed.

Lemma say_nil s : say [] s = s.
Proof. unfold say. rewrite app_nil_r. by destruct s as [[]]. Qed.

Lemma msgs_say ms s : msgs (say ms s) = msgs s ++ ms.
Proof. done. Qed.

Lemma inject_touch_say a p x y pr s :
  inject_touch a p x y pr s = (Ok tt, say [touch_msg a p x y pr s] s).
Proof. done. Qed.

(** A loop of sends. *)
Lemma for_each_say {X} (f : X → L → ControlMessage) (body : X → cmd L Error unit) xs s :
  (∀ x ms, f x (say ms s) = f x s) →
  (∀ x s, body x s = (Ok tt, say [f x s] s)) →
  for_each xs body s = (Ok tt, say ((λ x, f x s) <$> xs) s).
Proof.
  intros Hf Hb.
  assert (∀ ms, for_each xs body (say ms s) = (Ok tt, say (ms ++ ((λ x, f x s) <$> xs)) s)) as H.
  { induction xs as [|x xs IH]; intros ms; [cbn; by rewrite app_nil_r|].
    rewrite for_each_cons, Hb, say_say, Hf, IH. by rewrite <-app_assoc. }
  specialize (H []). by rewrite say_nil in H.
Qed.

(** ** Growth of the log by messages of one kind *)

Section Grows.
Context (P : ControlMessage → Prop).

Definition says (s s' : L) : Prop := ∃ ms, msgs s' = msgs s ++ ms ∧ Forall P ms.

#[export] Instance says_preorder : PreOrder says.
Proof.
  split.
  - intros s. exists []. by rewrite app_nil_r.
  - intros s1 s2 s3 (ms & H & HF) (ms' & H' & HF'). exists (ms ++ ms').
    rewrite H', H, <-app_assoc. split; [done|]. by apply Forall_app.
Qed.
End Grows.

(** ** The wire of a lifetime *)

Lemma drop_session_flushed {T} `{!TransportWrite T, !LawfulTransport T, !ReliableTransport T}
    (s : HidSession (CoalescingWriter T)) : pending (link (drop_session s).2) = [].
Proof.
  unfold drop_session. generalize (if closed s then s else (try_close_all s).2). clear s.
  intros s. unfold on_link, zoom. cbn [sink_drop Coalescing_sink].
  pose proof (flush_now_reliable (link s)) as Hok.
  pose proof (flush_now_spec (link s)) as (_ & _ & Hm).
  unfold drop_writer.
  destruct (flush_now (link s)) as [[n|e|] w]; [|done..]. cbn in *. by apply Hm.
Qed.

Lemma lifetime_flushed {T} `{!TransportWrite T, !LawfulTransport T, !ReliableTransport T}
    (w : CoalescingWriter T) req cs : pending (link (lifetime w req cs).2) = [].
Proof.
  unfold lifetime, open. destruct (open_devices req _) as [[[]|e|] s];
    [|apply drop_session_flushed..].
  destruct (run_calls cs s) as [os s']. apply drop_session_flushed.
Qed.

Lemma lifetime_wire {T} `{!TransportWrite T, !LawfulTransport T, !ReliableTransport T}
    (t : T) clk req cs :
  Forall call_ok cs →
  let s := lifetime (connect t req clk) req cs in
  let l := lifetime (mkLog []) req cs in
  s.1 = l.1 ∧
  ∃ stream, wire (transport (link s.2)) = wire t ++ stream ∧
            frames (msgs l.2) = Ok stream ∧
            decode_all stream = Some (wire_of <$> msgs l.2).
Proof.
  intros Hcs s l. pose proof (lifetime_acceptable req cs Hcs) as Hacc. fold l in Hacc.
  assert (writer_wf (connect t req clk) ∧ committed (connect t req clk) = wire t) as [Hw Hs].
  { unfold connect. case_match; (split; [done|apply app_nil_r]). }
  pose proof (lifetime_sim (wire t) (connect t req clk) req cs Hw Hs Hacc) as (Ho & _ & Hl).
  fold s l in Ho, Hl. split; [done|]. destruct Hl as (_ & fs & Hfs & Hsent).
  assert (Forall ControlMessage_wf (msgs l.2) ∧ Forall encodable (msgs l.2)) as [Hwf He].
  { split; (eapply Forall_impl; [exact Hacc|]); by intros m []. }
  destruct (decode_frames _ Hwf He) as (fs' & Hfs' & Hdec).
  change (frames (msgs l.2) = Ok fs) in Hfs. rewrite Hfs in Hfs'. injection Hfs' as <-.
  exists fs. split; [|by split]. etrans; [|exact Hsent].
  pose proof (lifetime_flushed (connect t req clk) req cs) as Hp. fold s in Hp.
  change (wire (transport (link s.2)) = wire (transport (link s.2)) ++ pending (link s.2)).
  by rewrite Hp, app_nil_r.
Qed.

(** ** Calls that leave the set of devices alone *)

Definition ids (g : GamepadHid) : list Z := gamepad_id <$> slots g.

Definition devices (s : L) :=
  (bool_decide (is_Some (kbd s)), bool_decide (is_Some (mouse s)), ids <$> gamepad s,
   gamepad_slot s, gamepad_hid_id s, closed s).

(** Messages about the set of devices, about touches, and the rest. *)
Definition ordinary (m : ControlMessage) : Prop := is_critical m = false.
Definition is_touch (m : ControlMessage) : bool :=
  match m with Cm_InjectTouchEvent _ => true | _ => false end.

(** Methods that inject touches. *)
Definition touches (c : Call) : bool :=
  match c with
  | C_send m => is_touch m
  | C_inject_touch _ _ _ _ _ | C_tap_pointer _ _ _ | C_swipe_pointer _ _ _ _
  | C_double_tap _ _ | C_long_press _ _ | C_three_finger_screenshot | C_drag _ _ _
  | C_pinch _ _ _ _ _ | C_multi_finger_tap _ | C_multitouch _ => true
  | _ => false
  end.

Lemma on_error_stable {X A} (R : X → X → Prop) `{!PreOrder R} (c : cmd X Error A) d :
  stable R c → stable R d → stable R (on_error c d).
Proof.
  intros Hc Hd s. specialize (Hc s). unfold on_error. destruct (c s) as [[a|e|] s']; [done| |done].
  etrans; [exact Hc|]. by apply stable_bind; [apply _| |intros ?; apply stable_raise, _].
Qed.

(** Follow the code. *)
Ltac listen :=
  repeat (cbn beta zeta iota;
    lazymatch goal with
    | |- stable _ (_ ≫= _) => apply stable_bind; [apply _| |intros ?]
    | |- stable _ (mret _) => apply stable_ret, _
    | |- stable _ (raise _) => apply stable_raise, _
    | |- stable _ (lift _) => apply stable_lift, _
    | |- stable _ (for_each _ _) => apply stable_for_each; [apply _|intros ?]
    | |- stable _ (ignore_err _) => apply stable_ignore_err
    | |- stable _ (guarded _ _) => apply stable_guarded; [apply _| |]
    | |- stable _ (on_error _ _) => apply on_error_stable; [apply _| |]
    | |- stable _ (match _ with _ => _ end) => case_match
    | |- stable _ _ => solve [auto with quiet nocore]
    end).

Create HintDb quiet.
Hint Constants Opaque : quiet.

(** An event changes no slot's id. *)
Definition ids_kept (f : GamepadSlot → option GamepadSlot) : Prop :=
  ∀ s s', f s = Some s' → gamepad_id s' = gamepad_id s.

Lemma raw_update_ids f i g : ids_kept f → ids (raw_update i f g).2 = ids g.
Proof.
  intros Hf. unfold raw_update. run. destruct (slots g !! i) as [s|] eqn:E.
  - rewrite (get_slot_run _ _ _ E). destruct (f s) as [s'|] eqn:Ef; [|done].
    rewrite (set_slot_run _ _ _ s' E).
    change (gamepad_id <$> <[i:=s']> (slots g) = gamepad_id <$> slots g).
    rewrite list_fmap_insert. apply list_insert_id.
    rewrite list_lookup_fmap, E. cbn. by rewrite (Hf s s' Ef).
  - unfold get_slot. run. by rewrite E.
Qed.

Lemma raw_op_ids op i g : ids (raw_op op i g).2 = ids g.
Proof.
  destruct op as [btn p|b|b lx ly rx ry lt rt|axis v|x y|x y|l r|lx ly rx ry lt rt];
    apply raw_update_ids; intros s s'; cbn zeta; repeat case_match; by intros [= <-].
Qed.

Section Quiet.
(** A kind of message that has all those that neither concern devices nor touches. *)
Context (P : ControlMessage → Prop).
Hypothesis P_plain : ∀ m, ordinary m → is_touch m = false → P m.

(** Same devices; the log grows by messages of the kind. *)
Definition quiet (s s' : L) : Prop := devices s' = devices s ∧ says P s s'.

#[export] Instance quiet_preorder : PreOrder quiet.
Proof.
  split; [intros s; split; [done|reflexivity]|].
  intros s1 s2 s3 [H1 G1] [H2 G2]. split; [congruence|by etrans].
Qed.

Abbreviation hush := (stable (E := Error) quiet).

Lemma say_quiet ms s : Forall P ms → quiet s (say ms s).
Proof. intros H. split; [done|]. by exists ms. Qed.

Lemma send_quiet m : P m → hush (send m).
Proof. intros H s. rewrite send_say. apply say_quiet. by apply Forall_singleton. Qed.

Lemma input_plain id size data : P (Cm_UhidInput (mkUhidInput id size data)).
Proof. by apply P_plain. Qed.

Lemma link_input_quiet id size data : hush (on_link (sink_uhid_input id size data)).
Proof.
  intros s. unfold on_link, zoom. cbn. case_decide.
  - cbn. destruct s as [[]]. cbn. reflexivity.
  - apply (say_quiet [input_msg id size data]). apply Forall_singleton, input_plain.
Qed.

Lemma link_gamepad_quiet id p : hush (on_link (sink_gamepad id p)).
Proof. intros s. apply (say_quiet [packed_msg id p]). apply Forall_singleton, input_plain. Qed.

Lemma link_fields_quiet id fr : hush (on_link (sink_gamepad_fields id fr)).
Proof. intros s. apply (say_quiet [frame_msg id fr]). apply Forall_singleton, input_plain. Qed.

Lemma link_batch_quiet id l : hush (on_link (sink_gamepad_batch id l)).
Proof.
  intros s. apply (say_quiet (packed_msg id <$> l)). rewrite Forall_fmap. apply Forall_true. intros x. apply input_plain.
Qed.

Lemma link_batch_fields_quiet id l : hush (on_link (sink_gamepad_batch_fields id l)).
Proof.
  intros s. apply (say_quiet (frame_msg id <$> l)). rewrite Forall_fmap. apply Forall_true. intros x. apply input_plain.
Qed.

(** Changing the state of an open device. *)
Lemma silent_quiet s s' : devices s' = devices s → link s' = link s → quiet s s'.
Proof.
  intros Hd Hl. split; [done|]. exists []. unfold msgs. by rewrite Hl, app_nil_r.
Qed.

Lemma on_mouse_quiet {A} (c : cmd MouseHid Error A) : hush (on_mouse c).
Proof.
  intros s. unfold on_mouse. destruct (mouse s) as [m|] eqn:Em; [|reflexivity].
  destruct (c m) as [o m']. apply silent_quiet; [|done]. unfold devices. cbn. by rewrite Em.
Qed.

Lemma get_hid_id_quiet : hush get_gamepad_hid_id.
Proof. intros s. unfold get_gamepad_hid_id. destruct (closed s); reflexivity. Qed.

Lemma key_quiet sc p m : hush (key sc p m).
Proof.
  intros s. unfold key, on_kbd. run. destruct (kbd s) as [k|] eqn:Ek; [|reflexivity].
  assert (∀ k', quiet s (set_kbd (Some k') s)) as Hk.
  { intros k'. apply silent_quiet; [|done]. unfold devices. cbn. by rewrite Ek. }
  unfold key_event. run. destruct (inject_key sc p m k) as [[r|e|] k']; [|apply Hk..].
  unfold Keyboard.to_input_message. destruct (decide (hr_hid_id r = HID_ID_KEYBOARD)); [|apply Hk].
  etrans; [apply (Hk k')|]. apply send_quiet, input_plain.
Qed.

Lemma with_gamepad_quiet {A} (f : nat → cmd GamepadHid Error A) :
  (∀ i g, ids (f i g).2 = ids g) → hush (with_gamepad f).
Proof.
  intros Hf s. unfold with_gamepad. destruct (closed s) eqn:Ec; [reflexivity|].
  destruct (gamepad_slot s) as [i|] eqn:Ei; [|reflexivity].
  destruct (gamepad s) as [g|] eqn:Eg; [|reflexivity].
  specialize (Hf i g). destruct (f i g) as [o g']. apply silent_quiet; [|done].
  unfold devices. cbn. rewrite Eg, Ei, Ec. cbn in *. by rewrite Hf.
Qed.

Lemma read_quiet {A} (f : L → A) : hush (read f).
Proof. intros s. reflexivity. Qed.

Lemma push_changed_quiet r : hush (push_changed r).
Proof. destruct r as [[id p]|]; [apply link_gamepad_quiet|apply stable_ret, _]. Qed.

Lemma raw_op_quiet op : hush (with_gamepad (raw_op op)).
Proof. apply with_gamepad_quiet. intros i g. apply raw_op_ids. Qed.

Lemma changed_quiet op : hush (r ← with_gamepad (raw_op op); push_changed r).
Proof. apply stable_bind; [apply _|apply raw_op_quiet|apply push_changed_quiet]. Qed.

Lemma push_report_quiet r : hush (push_report r).
Proof. apply link_input_quiet. Qed.

Lemma frame_batch_loop_quiet fs batch id n : hush (frame_batch_loop fs batch id n).
Proof.
  revert batch id n. induction fs as [|fr fs IH]; intros batch id n; cbn [frame_batch_loop];
    [apply stable_ret, _|].
  apply stable_bind; [apply _|apply (raw_op_quiet (frame_op fr))|intros [[hid p]|]]; [|apply IH].
  cbn zeta. case_decide; [|apply IH].
  apply stable_bind; [apply _|apply link_batch_quiet|intros _; apply IH].
Qed.

Hint Resolve read_quiet link_gamepad_quiet link_fields_quiet link_input_quiet link_batch_quiet
  link_batch_fields_quiet on_mouse_quiet get_hid_id_quiet key_quiet push_changed_quiet
  raw_op_quiet changed_quiet push_report_quiet : quiet.

Lemma set_frame_raw_batch_quiet fs : hush (set_frame_raw_batch fs).
Proof.
  destruct fs as [|fr [|fr' fs]]; cbn [set_frame_raw_batch]; [apply stable_ret, _|..].
  - apply stable_bind; [apply _|apply (raw_op_quiet (frame_op fr))|intros r]. listen.
  - apply stable_bind; [apply _|by apply with_gamepad_quiet|intros _].
    apply stable_bind; [apply _|apply frame_batch_loop_quiet|intros [[batch id] n]]. listen.
Qed.

Lemma set_screen_quiet w h : hush (set_screen_size w h).
Proof. intros s. by apply silent_quiet. Qed.

Lemma session_flush_quiet : hush session_flush.
Proof. intros s. apply silent_quiet; [done|]. by destruct s. Qed.

Hint Resolve set_frame_raw_batch_quiet set_screen_quiet session_flush_quiet : quiet.
Hint Extern 1 (stable _ (send _)) => (apply send_quiet, P_plain; reflexivity) : quiet.

(** Every method but [close] and the touch methods. *)
Lemma run_call_touchless c :
  touches c = false → c ≠ C_close → (∀ m, c = C_send m → P m) → hush (run_call c).
Proof.
  intros Ht Hc Hs. destruct c; cbn [run_call touches] in Ht |- *;
    lazymatch goal with
    | |- stable _ (send _) => by apply send_quiet, Hs
    | |- stable _ close => done
    | |- stable _ (set_stick _ _) => apply (changed_quiet (OpAxis _ _))
    | |- stable _ (set_stick_raw _ _) => apply (changed_quiet (OpAxis _ _))
    | |- stable _ (set_session_buttons _) => apply (changed_quiet (OpButtons _))
    | |- stable _ (set_button _ _) => apply (changed_quiet (OpButton _ _))
    | |- stable _ (set_left_stick_raw _ _) => apply (changed_quiet (OpLeft _ _))
    | |- stable _ (set_right_stick_raw _ _) => apply (changed_quiet (OpRight _ _))
    | |- stable _ (set_triggers_raw _ _) => apply (changed_quiet (OpTriggers _ _))
    | |- stable _ (set_session_sticks_raw _ _ _ _ _ _) =>
        apply (changed_quiet (OpSticks _ _ _ _ _ _))
    | |- stable _ (set_frame_raw ?fr) => apply (changed_quiet (frame_op fr))
    | |- _ =>
        first [ discriminate Ht
              | solve [auto with quiet nocore]
              | unfold_calls; unfold key_chord, inject_scroll; listen ]
    end.
Qed.

(** *** Touch methods *)

Section Touching.
Hypothesis P_touch : ∀ t, P (Cm_InjectTouchEvent t).

Lemma inject_touch_quiet a p x y pr : hush (inject_touch a p x y pr).
Proof. intros s. apply send_quiet, P_touch. Qed.

(** States that extend the session's. *)
Definition pair_quiet {X} (p q : L * X) : Prop := quiet p.1 q.1.
Definition mt_quiet (p q : MultitouchHandle (W := MsgLog)) : Prop :=
  quiet (mt_session p) (mt_session q).

#[export] Instance pair_quiet_preorder {X} : PreOrder (pair_quiet (X := X)).
Proof. split; unfold pair_quiet; [intros p; reflexivity|intros p q r H1 H2; by etrans]. Qed.
#[export] Instance mt_quiet_preorder : PreOrder mt_quiet.
Proof. split; unfold mt_quiet; [intros p; reflexivity|intros p q r H1 H2; by etrans]. Qed.

Lemma on_session_quiet {X A} (c : cmd L Error A) :
  hush c → stable (pair_quiet (X := X)) (on_session c).
Proof. apply (stable_zoom quiet). by intros p s H. Qed.

Lemma on_mt_quiet {A} (c : cmd L Error A) : hush c → stable mt_quiet (on_mt c).
Proof. apply (stable_zoom quiet). by intros p s H. Qed.

Lemma local_pair_quiet {X} (x : X) (c : cmd (L * X) Error unit) :
  stable pair_quiet c → hush (λ s, let '(o, p) := c (s, x) in (o, p.1)).
Proof. intros Hc s. specialize (Hc (s, x)). by destruct (c (s, x)). Qed.

Lemma local_mt_quiet (c : cmd (MultitouchHandle (W := MsgLog)) Error unit) :
  stable mt_quiet c → hush (λ s, let '(o, p) := c (multitouch s) in (o, mt_session p)).
Proof. intros Hc s. specialize (Hc (multitouch s)). by destruct (c (multitouch s)). Qed.

Lemma session_touch_quiet {X} a p x y pr :
  stable (pair_quiet (X := X)) (on_session (inject_touch a p x y pr)).
Proof. apply on_session_quiet, inject_touch_quiet. Qed.

Lemma mt_touch_quiet a p x y pr : stable mt_quiet (on_mt (inject_touch a p x y pr)).
Proof. apply on_mt_quiet, inject_touch_quiet. Qed.

Lemma mark_pressed_quiet p : stable pair_quiet (mark_pressed p).
Proof. intros q. unfold pair_quiet. cbn. reflexivity. Qed.

Lemma mark_released_quiet p : stable pair_quiet (mark_released p).
Proof. intros q. unfold pair_quiet, mark_released. cbn. repeat case_match; reflexivity. Qed.

Lemma get_active_quiet id : stable mt_quiet (get_active id).
Proof. intros q. unfold mt_quiet. cbn. reflexivity. Qed.

Lemma set_active_quiet id b : stable mt_quiet (set_active id b).
Proof. intros q. unfold mt_quiet. cbn. reflexivity. Qed.

Lemma check_id_quiet id : stable mt_quiet (check_id id).
Proof. unfold check_id. listen. Qed.

Hint Resolve inject_touch_quiet session_touch_quiet mt_touch_quiet mark_pressed_quiet
  mark_released_quiet get_active_quiet set_active_quiet check_id_quiet : quiet.

Lemma release_pressed_quiet : stable pair_quiet release_pressed.
Proof.
  intros p. unfold release_pressed. apply (stable_for_each pair_quiet). intros pid.
  apply stable_ignore_err, session_touch_quiet.
Qed.

Lemma release_fingers_quiet : stable pair_quiet release_fingers.
Proof.
  intros p. unfold release_fingers. apply (stable_for_each pair_quiet).
  intros [id [|]]; listen.
Qed.

Lemma tap_pointer_quiet p x y : hush (tap_pointer p x y).
Proof.
  apply local_pair_quiet, stable_guarded; [apply _| |apply release_pressed_quiet].
  apply stable_bind; [apply _|apply (session_touch_quiet ACTION_DOWN)|intros _].
  apply stable_bind; [apply _|apply mark_pressed_quiet|intros _].
  apply stable_bind; [apply _|apply (session_touch_quiet ACTION_UP)|intros _].
  apply mark_released_quiet.
Qed.

Lemma multi_finger_tap_quiet points : hush (multi_finger_tap points).
Proof.
  unfold multi_finger_tap. case_match; [apply stable_raise, _|]. apply local_pair_quiet.
  apply stable_bind; [apply _| |intros _];
    (apply on_error_stable; [apply _| |apply release_fingers_quiet]);
    (apply stable_for_each; [apply _|]).
  - intros [id [x y]]. apply stable_bind; [apply _|apply session_touch_quiet|intros _].
    intros q. unfold pair_quiet. cbn. reflexivity.
  - intros id. apply session_touch_quiet.
Qed.

Lemma run_touch_quiet c : stable mt_quiet (run_touch c).
Proof.
  destruct c; cbn [run_touch]; unfold down, move_to, up, cancel, mt_pinch, pinch_move,
    release_all; listen.
Qed.

Lemma pinch_quiet cx cy r1 r2 n : hush (pinch cx cy r1 r2 n).
Proof.
 apply local_mt_quiet.
  unfold down, up, mt_pinch, pinch_move. listen.
Qed.

Lemma use_multitouch_quiet calls : hush (use_multitouch calls).
Proof.
  apply local_mt_quiet, stable_for_each; [apply _|]. intros c.
  apply stable_ignore_err, run_touch_quiet.
Qed.

Hint Resolve tap_pointer_quiet multi_finger_tap_quiet pinch_quiet use_multitouch_quiet : quiet.

Lemma run_call_touching c : touches c = true → hush (run_call c).
Proof.
  intros Ht. destruct c; cbn [run_call touches] in Ht |- *;
    lazymatch goal with
    | m : ControlMessage |- _ => apply send_quiet; by destruct m
    | |- _ =>
        first [ discriminate Ht
              | solve [auto with quiet nocore]
              | unfold_calls; unfold move_along, three_finger_screenshot, touch_msg_pub; listen ]
    end.
Qed.

Lemma run_call_quiet c : c ≠ C_close → (∀ m, c = C_send m → P m) → hush (run_call c).
Proof.
  intros Hc Hs. destruct (touches c) eqn:Ht; [by apply run_call_touching|].
  by apply run_call_touchless.
Qed.
End Touching.
End Quiet.

(** ** Closing *)

(** A session whose devices are those of the request, all open. *)
Definition open_state (req : OpenRequest) (s : L) : Prop :=
  devices s =
  (or_kbd req, or_mouse req, if or_gamepad req then Some (ids opened_gamepad) else None,
   if or_gamepad req then Some 0%nat else None,
   if or_gamepad req then Some HID_ID_GAMEPAD_FIRST else None, false).

Definition device_ids (req : OpenRequest) : list Z :=
  (if or_kbd req then [HID_ID_KEYBOARD] else []) ++
  (if or_mouse req then [HID_ID_MOUSE] else []) ++
  (if or_gamepad req then [HID_ID_GAMEPAD_FIRST] else []).

Definition creates (req : OpenRequest) : list ControlMessage :=
  (if or_kbd req then
     [Cm_UhidCreate (mkUhidCreate HID_ID_KEYBOARD 0 0 None KEYBOARD_REPORT_DESC)] else []) ++
  (if or_mouse req then
     [Cm_UhidCreate (mkUhidCreate HID_ID_MOUSE 0 0 None MOUSE_REPORT_DESC)] else []) ++
  (if or_gamepad req then [gamepad_create] else []).

Definition destroys (req : OpenRequest) : list ControlMessage :=
  (λ id, Cm_UhidDestroy (mkUhidDestroy id)) <$> device_ids req.

Lemma open_log req :
  let s := (open (mkLog []) req).2 in
  (open (mkLog []) req).1 = Ok tt ∧ open_state req s ∧ msgs s = creates req.
Proof. destruct req as [[] [] [] c w h]; done. Qed.

Lemma close_gamepad_open s g :
  gamepad s = Some g → ids g = ids opened_gamepad → gamepad_slot s = Some 0%nat →
  close_gamepad s =
  (Ok tt, set_gamepad None None None
            (say [Cm_UhidDestroy (mkUhidDestroy HID_ID_GAMEPAD_FIRST)] s)).
Proof.
  intros Hg Hids Hslot. destruct g as [[|s0 sl]]; [done|]. injection Hids as Hid _.
  unfold close_gamepad. run. rewrite Hg, Hslot. unfold close_slot_idx.
  rewrite decide_False by (unfold MAX_GAMEPADS; lia). run.
  rewrite (get_slot_run (mkGamepads (s0 :: sl)) 0%nat s0 eq_refl), decide_False by (by rewrite Hid).
  rewrite (set_slot_run (mkGamepads (s0 :: sl)) 0%nat s0 _ eq_refl). by destruct s.
Qed.

Lemma close_open req s :
  open_state req s →
  ∃ s', close s = (Ok tt, s') ∧ closed s' = true ∧ msgs s' = msgs s ++ destroys req.
Proof.
  unfold open_state, devices. intros [= Hk Hm Hg Hslot Hid Hc].
  set (s1 := say (if or_kbd req then [Cm_UhidDestroy (mkUhidDestroy HID_ID_KEYBOARD)] else []) s).
  set (s2 := say (if or_mouse req then [Cm_UhidDestroy (mkUhidDestroy HID_ID_MOUSE)] else []) s1).
  set (s3 := say (if or_gamepad req
                  then [Cm_UhidDestroy (mkUhidDestroy HID_ID_GAMEPAD_FIRST)] else []) s2).
  assert (∃ s4, close_gamepad s2 = (Ok tt, s4) ∧ link s4 = link s3) as (s4 & H4 & Hl4).
  { destruct (or_gamepad req).
    - change (gamepad s) with (gamepad s2) in Hg. change (gamepad_slot s) with (gamepad_slot s2) in Hslot.
      destruct (gamepad s2) as [g|] eqn:Eg; [|done]. cbn in Hg. injection Hg as Hg.
      eexists. split; [by apply (close_gamepad_open s2 g)|done].
    - exists s2. unfold s3. rewrite say_nil. split; [|done]. unfold close_gamepad. run.
      change (gamepad s2) with (gamepad s). by destruct (gamepad s). }
  exists (set_closed true s4). split_and!; [|done|].
  - unfold close, try_close_all.
    rewrite (bind_ok (read closed) _ s false s) by (cbn; by rewrite Hc).
    rewrite (bind_ok (read kbd) _ s (kbd s) s) by done.
    rewrite (bind_ok _ _ s tt s1).
    2: { unfold s1. rewrite <-Hk. destruct (kbd s); cbn; [done|]. by rewrite say_nil. }
    rewrite (bind_ok (read mouse) _ s1 (mouse s) s1) by done.
    rewrite (bind_ok _ _ s1 tt s2).
    2: { unfold s2. rewrite <-Hm. destruct (mouse s); cbn; [done|]. by rewrite say_nil. }
    by rewrite (bind_ok _ _ s2 tt s4).
  - change (logged (link s4) = msgs s ++ destroys req). rewrite Hl4. unfold s3, s2, s1.
    rewrite !say_say. change (logged (link (say ?ms s))) with (msgs s ++ ms). cbn.
    unfold destroys, device_ids.
    by destruct (or_kbd req), (or_mouse req), (or_gamepad req).
Qed.

(** ** Lifecycle events *)

(** What a message does to the set of devices: [(true, id)] creates, [(false, id)]
    destroys. *)
Definition lifecycle_event (w : Wire) : option (bool * Z) :=
  match w with
  | W_UhidCreate id _ _ _ _ => Some (true, id)
  | W_UhidDestroy id => Some (false, id)
  | _ => None
  end.

Definition lifecycle (ms : list ControlMessage) : list (bool * Z) :=
  omap (λ m, lifecycle_event (wire_of m)) ms.

Definition opening (req : OpenRequest) : list (bool * Z) := pair true <$> device_ids req.
Definition closing (req : OpenRequest) : list (bool * Z) := pair false <$> device_ids req.

Lemma lifecycle_app ms ms' : lifecycle (ms ++ ms') = lifecycle ms ++ lifecycle ms'.
Proof. apply omap_app. Qed.

Lemma lifecycle_ordinary ms : Forall ordinary ms → lifecycle ms = [].
Proof. induction 1 as [|m ms Hm _ IH]; [done|]. by destruct m. Qed.

Lemma lifecycle_creates req : lifecycle (creates req) = opening req.
Proof. by destruct req as [[] [] [] c w h]. Qed.

Lemma lifecycle_destroys req : lifecycle (destroys req) = closing req.
Proof. by destruct req as [[] [] [] c w h]. Qed.

(** Methods other than [send] of a UHID_CREATE or UHID_DESTROY of the caller's own. *)
Definition polite (c : Call) : Prop :=
  match c with
  | C_send m => ordinary m
  | _ => True
  end.

(** Every device is open, or the session is closed and every device was destroyed. *)
Definition phase (req : OpenRequest) (s : L) : Prop :=
  if closed s then lifecycle (msgs s) = opening req ++ closing req
  else open_state req s ∧ lifecycle (msgs s) = opening req.

Lemma quiet_phase req s s' : quiet ordinary s s' → phase req s → phase req s'.
Proof.
  intros [Hd (ms & Hms & Hord)] Hp. unfold phase in *.
  assert (closed s' = closed s) as -> by (by injection Hd).
  rewrite Hms, lifecycle_app, (lifecycle_ordinary ms Hord), app_nil_r.
  destruct (closed s); [done|]. split; [|apply Hp]. unfold open_state. by rewrite Hd, <-(proj1 Hp).
Qed.

Lemma close_phase req s : phase req s → phase req (close s).2 ∧ closed (close s).2 = true.
Proof.
  intros Hp. unfold phase in Hp. destruct (closed s) eqn:Hc.
  - assert (close s = (Ok tt, s)) as ->.
    { unfold close, try_close_all. by rewrite (bind_ok (read closed) _ s true s) by (cbn; by rewrite Hc). }
    unfold phase. cbn. by rewrite Hc.
  - destruct Hp as [Ho Hl]. destruct (close_open req s Ho) as (s' & -> & Hc' & Hms).
    unfold phase. cbn. rewrite Hc'. split; [|done].
    by rewrite Hms, lifecycle_app, Hl, lifecycle_destroys.
Qed.

Lemma run_call_phase req c s : polite c → phase req s → phase req (run_call c s).2.
Proof.
  intros Hc Hp. assert (c = C_close ∨ c ≠ C_close) as [->|Hne] by (destruct c; auto).
  - by apply close_phase.
  - eapply quiet_phase; [|exact Hp]. apply run_call_quiet; [done..|].
    by intros m ->.
Qed.

Lemma run_calls_phase req cs s : Forall polite cs → phase req s → phase req (run_calls cs s).2.
Proof.
  intros Hcs. revert s. induction Hcs as [|c cs Hc _ IH]; intros s Hs; [done|]. cbn [run_calls].
  pose proof (run_call_phase req c s Hc Hs) as H. destruct (run_call c s) as [o s1].
  specialize (IH s1 H). by destruct (run_calls cs s1) as [os s2].
Qed.

Lemma lifetime_lifecycle req cs :
  Forall polite cs →
  lifecycle (msgs (lifetime (mkLog []) req cs).2) = opening req ++ closing req.
Proof.
  intros Hcs. destruct (open_log req) as (Ho & Hst & Hms). unfold lifetime.
  destruct (open (mkLog []) req) as [[[]|e|] s]; [|done..]. cbn [fst snd] in *.
  assert (phase req s) as Hp.
  { unfold phase. assert (closed s = false) as -> by (by injection Hst).
    by rewrite Hms, lifecycle_creates. }
  pose proof (run_calls_phase req cs s Hcs Hp) as H.
  destruct (run_calls cs s) as [os s']. cbn [snd] in H |- *.
  change (msgs (drop_session s').2) with (msgs (if closed s' then s' else (close s').2)).
  pose proof (close_phase req s' H) as [Hcl Hclosed].
  destruct (closed s') eqn:E; [unfold phase in H; by rewrite E in H|].
  unfold phase in Hcl. by rewrite Hclosed in Hcl.
Qed.

Lemma decoded_lifecycle ms : omap lifecycle_event (wire_of <$> ms) = lifecycle ms.
Proof. induction ms as [|m ms IH]; cbn; [done|]. by rewrite IH. Qed.

(** ** Properties *)

(** C4: From [HidSession::open] to [Drop], over a transport that never fails, with or
    without coalescing and whatever the clock, for calls of the session's methods that are
    [call_ok] - arguments in the range of their Rust types, and of a message the caller
    hands over himself that the serializer accepts it (it is not refused, and no text is
    cut inside a character): every call ends as it ends over a
    writer that merely records messages - in success, or in the same error - and the bytes
    on the wire, after what was there,
    are the frames of the recorded messages in order, from which a device decodes exactly
    those messages.  The numbers that some calls return are not compared: [flush_now]
    returns the bytes it flushed, and a writer that records has none. *)
Theorem session_refines_log {T}
    `{!TransportWrite T, !LawfulTransport T, !ReliableTransport T}
    (t : T) clk req cs (Hok : Forall call_ok cs) :
  let s := lifetime (connect t req clk) req cs in
  let l := lifetime (mkLog []) req cs in
  s.1 = l.1 ∧
  ∃ stream, wire (transport (link s.2)) = wire t ++ stream ∧
            frames (logged (link l.2)) = Ok stream ∧
            decode_all stream = Some (wire_of <$> logged (link l.2)).
Proof. by apply lifetime_wire. Qed.

(** C5: Over a transport that never fails, whatever calls of the session's own methods its
    owner makes, closing it or just dropping it, the
    device sees each requested UHID device created exactly once, in the order keyboard,
    mouse, gamepad, and afterwards destroyed exactly once, in that order, and no other.
    The calls are [call_ok]: arguments in the range of their types, no message that the
    serializer refuses or panics on; [polite]: no UHID_CREATE or UHID_DESTROY of the
    owner's own; and not calls of a driver that [keyboard()], [mouse()] or [gamepad()]
    lends, through which the owner can free the gamepad's slot and so keep the session
    from destroying it. *)
Theorem session_pairs_create_destroy {T}
    `{!TransportWrite T, !LawfulTransport T, !ReliableTransport T}
    (t : T) clk req cs (Hok : Forall call_ok cs) (Hpolite : Forall polite cs) :
  ∃ stream ws,
    wire (transport (link (lifetime (connect t req clk) req cs).2)) = wire t ++ stream ∧
    decode_all stream = Some ws ∧
    omap lifecycle_event ws = (pair true <$> device_ids req) ++ (pair false <$> device_ids req).
Proof.
  destruct (lifetime_wire t clk req cs Hok) as (_ & stream & Hw & _ & Hd).
  exists stream, (wire_of <$> msgs (lifetime (mkLog []) req cs).2).
  rewrite decoded_lifecycle. split_and!; [done|done|]. by apply lifetime_lifecycle.
Qed.

(** ** Witnesses *)

(** A session that types a letter, plays one gamepad frame, taps, pinches and scrolls. *)
Definition sample_calls : list Call :=
  [C_key 4 true 0; C_key 4 false 0; C_set_frame_raw (mkFrame 1 100 (-100) 0 0 0 0);
   C_tap_pointer 0 540 960; C_pinch 540 960 100 300 3;
   C_multi_finger_tap [(100, 100); (200, 200)]; C_mouse_motion 5 (-300) 1;
   C_multitouch [T_down 0 1 2 one; T_down 1 3 4 one; T_release_all]].

Lemma sample_calls_ok : Forall call_ok sample_calls.
Proof. repeat first [apply Forall_cons; split | apply Forall_nil]; by vm_compute. Qed.

Lemma sample_calls_polite : Forall polite sample_calls.
Proof. by repeat constructor. Qed.

Lemma session_refines_log_witness :
  Forall call_ok sample_calls ∧
  ∃ stream, wire (transport (link (lifetime (connect Mock_new request_all Z.of_nat)
                                     request_all sample_calls).2)) = stream ∧
    decode_all stream = Some (wire_of <$> logged (link (lifetime (mkLog []) request_all sample_calls).2)).
Proof.
  split; [exact sample_calls_ok|].
  destruct (session_refines_log Mock_new Z.of_nat request_all sample_calls sample_calls_ok)
    as (_ & stream & Hw & _ & Hd).
  exists stream. split; [exact Hw|exact Hd].
Defined.

Lemma session_pairs_create_destroy_witness :
  Forall call_ok sample_calls ∧ Forall polite sample_calls ∧
  ∃ stream ws,
    wire (transport (link (lifetime (connect Mock_new request_all Z.of_nat)
                             request_all sample_calls).2)) = stream ∧
    decode_all stream = Some ws ∧
    omap lifecycle_event ws =
      [(true, 1); (true, 2); (true, 3); (false, 1); (false, 2); (false, 3)].
Proof.
  split; [exact sample_calls_ok|]. split; [exact sample_calls_polite|].
  exact (session_pairs_create_destroy Mock_new Z.of_nat request_all sample_calls
           sample_calls_ok sample_calls_polite).
Defined.
