(* ===== verification/Gestures.v ===== *)
(** * Gestures leave no finger behind

    The device's view of touches as an automaton over decoded messages, and what the
    messages of each gesture of the session do to it. *)

From stdpp Require Import gmap.
From S2P Require Import Prelude Words Errors Types Utf8 Float32 Message Transport Descriptor.
From S2P Require Import Keyboard Mouse Gamepad Coalesce Sink Session Touch Refinement.
From S2P Require Import SessionInv Lifecycle.
Local Open Scope Z_scope.

(** The pointers on the screen after one more message, [None] when the message makes no
    sense there: a second DOWN, or a MOVE, UP or CANCEL of a pointer that is not down. *)
Definition touch_step (fingers : gset Z) (w : Wire) : option (gset Z) :=
  match w with
  | W_InjectTouch action p _ _ _ _ _ _ _ =>
      if decide (action = ACTION_DOWN) then
        if decide (p ∈ fingers) then None else Some ({[p]} ∪ fingers)
      else if decide (p ∈ fingers) then
        if decide (action = ACTION_MOVE) then Some fingers
        else if decide (action = ACTION_UP ∨ action = ACTION_CANCEL)
        then Some (fingers ∖ {[p]}) else None
      else None
  | _ => Some fingers
  end.

Fixpoint touch_run (fingers : gset Z) (ws : list Wire) : option (gset Z) :=
  match ws with
  | [] => Some fingers
  | w :: ws => fingers ← touch_step fingers w; touch_run fingers ws
  end.

Definition screen (fingers : gset Z) (ms : list ControlMessage) : option (gset Z) :=
  touch_run fingers (wire_of <$> ms).

Lemma touch_run_app f ws ws' :
  touch_run f (ws ++ ws') = (f' ← touch_run f ws; touch_run f' ws').
Proof.
  revert f. induction ws as [|w ws IH]; intros f; [done|]. cbn.
  destruct (touch_step f w); cbn; [apply IH|done].
Qed.

Lemma screen_app f ms ms' : screen f (ms ++ ms') = (f' ← screen f ms; screen f' ms').
Proof. unfold screen. by rewrite fmap_app, touch_run_app. Qed.

Lemma screen_cons f m ms : screen f (m :: ms) = (f' ← screen f [m]; screen f' ms).
Proof. apply (screen_app f [m] ms). Qed.

Lemma screen_down f p x y pr (s : L) :
  p ∉ f → screen f [touch_msg ACTION_DOWN p x y pr s] = Some ({[p]} ∪ f).
Proof. intros H. cbn. by rewrite (decide_True _ _ eq_refl), decide_False. Qed.

Lemma screen_move f p x y pr (s : L) : p ∈ f → screen f [touch_msg ACTION_MOVE p x y pr s] = Some f.
Proof.
  intros H. cbn. rewrite (decide_False (P := _ = ACTION_DOWN)) by done. by rewrite decide_True.
Qed.

Lemma screen_up f p x y pr (s : L) :
  p ∈ f → screen f [touch_msg ACTION_UP p x y pr s] = Some (f ∖ {[p]}).
Proof.
  intros H. cbn. rewrite (decide_False (P := _ = ACTION_DOWN)) by done. by rewrite decide_True.
Qed.

Lemma screen_other f ms : Forall (λ m, is_touch m = false) ms → screen f ms = Some f.
Proof.
  induction 1 as [|m ms Hm _ IH]; [done|]. rewrite screen_cons.
  by destruct m; cbn -[screen]; rewrite ?IH.
Qed.

Lemma screen_moves f ms :
  Forall (λ m, ∃ p x y pr (s : L), m = touch_msg ACTION_MOVE p x y pr s ∧ p ∈ f) ms →
  screen f ms = Some f.
Proof.
  induction 1 as [|m ms (p & x & y & pr & s & -> & Hp) _ IH]; [done|].
  by rewrite screen_cons, screen_move.
Qed.

(** ** Commands between two screens *)

Section Hands.
Context {X : Type} (lg : X → list ControlMessage) (K : X → Prop).

(** From any state the command succeeds, keeps [K], and logs messages that take the
    fingers [f] to [f']. *)
Definition hands {A} (f : gset Z) (c : cmd X Error A) (f' : gset Z) : Prop :=
  ∀ s, K s → ∃ a s' ms, c s = (Ok a, s') ∧ K s' ∧ lg s' = lg s ++ ms ∧ screen f ms = Some f'.

Lemma hands_silent {A} f (c : cmd X Error A) :
  (∀ s, K s → ∃ a s', c s = (Ok a, s') ∧ K s' ∧ lg s' = lg s) → hands f c f.
Proof.
  intros H s Hs. destruct (H s Hs) as (a & s' & Hc & HK & Hl). exists a, s', [].
  by rewrite app_nil_r.
Qed.

Lemma hands_ret {A} f (a : A) : hands f (mret a) f.
Proof. apply hands_silent. eauto. Qed.

Lemma hands_read {A} f (g : X → A) : hands f (read g) f.
Proof. apply hands_silent. eauto. Qed.

Lemma hands_bind {A B} f f1 f2 (c : cmd X Error A) (k : A → cmd X Error B) :
  hands f c f1 → (∀ a, hands f1 (k a) f2) → hands f (c ≫= k) f2.
Proof.
  intros Hc Hk s Hs. destruct (Hc s Hs) as (a & s1 & ms1 & H1 & K1 & L1 & F1).
  destruct (Hk a s1 K1) as (b & s2 & ms2 & H2 & K2 & L2 & F2).
  exists b, s2, (ms1 ++ ms2). rewrite (bind_ok _ _ _ _ _ H1), screen_app, F1. cbn.
  by rewrite L2, L1, <-app_assoc.
Qed.

Lemma hands_on_error {A} f f' (c : cmd X Error A) d : hands f c f' → hands f (on_error c d) f'.
Proof.
  intros Hc s Hs. destruct (Hc s Hs) as (a & s' & ms & H & ?). exists a, s', ms.
  unfold on_error. by rewrite H.
Qed.

Lemma hands_each {Y} f (l : list Y) body :
  (∀ y, hands f (body y) f) → hands f (for_each l body) f.
Proof. intros H. induction l; cbn; [apply hands_ret|by apply (hands_bind _ f)]. Qed.

(** A loop along a list of screens. *)
Lemma hands_loop {Y} (F : nat → gset Z) (l : list Y) body k :
  (∀ i y, l !! i = Some y → hands (F (k + i)%nat) (body y) (F (k + i + 1)%nat)) →
  hands (F k) (for_each l body) (F (k + length l)%nat).
Proof.
  revert k. induction l as [|y l IH]; intros k H; cbn [for_each length].
  { rewrite Nat.add_0_r. apply hands_ret. }
  apply (hands_bind _ (F (k + 1)%nat)).
  - specialize (H 0%nat y eq_refl). by rewrite Nat.add_0_r in H.
  - intros _. replace (k + S (length l))%nat with (k + 1 + length l)%nat by lia.
    apply IH. intros i z Hi. specialize (H (S i) z Hi).
    by replace (k + 1 + i)%nat with (k + S i)%nat by lia.
Qed.
End Hands.

Lemma hands_zoom {X Y A} lgX KX lgY (KY : Y → Prop) (get : Y → X) set f (c : cmd X Error A) f' :
  (∀ y, KY y → KX (get y) ∧ lgY y = lgX (get y)) →
  (∀ y x, KY y → KX x → KY (set x y) ∧ lgY (set x y) = lgX x) →
  hands lgX KX f c f' → hands lgY KY f (zoom get set c) f'.
Proof.
  intros Hget Hset Hc y Hy. destruct (Hget y Hy) as [HX HL].
  destruct (Hc _ HX) as (a & x & ms & H & HKx & L & F). unfold zoom. rewrite H.
  destruct (Hset y x Hy HKx) as [HK' HL']. exists a, (set x y), ms. by rewrite HL', HL.
Qed.

Abbreviation any := (λ _, True).
Abbreviation session_hands := (hands msgs any).

Lemma touch_hands f a p x y pr f' :
  (∀ s : L, screen f [touch_msg a p x y pr s] = Some f') →
  session_hands f (inject_touch a p x y pr) f'.
Proof.
  intros H s _. exists tt, (say [touch_msg a p x y pr s] s), [touch_msg a p x y pr s].
  by split_and!.
Qed.

Lemma down_hands f p x y pr :
  p ∉ f → session_hands f (inject_touch ACTION_DOWN p x y pr) ({[p]} ∪ f).
Proof. intros H. apply touch_hands. intros s. by apply screen_down. Qed.

Lemma move_hands f p x y pr : p ∈ f → session_hands f (inject_touch ACTION_MOVE p x y pr) f.
Proof. intros H. apply touch_hands. intros s. by apply screen_move. Qed.

Lemma up_hands f p x y pr :
  p ∈ f → session_hands f (inject_touch ACTION_UP p x y pr) (f ∖ {[p]}).
Proof. intros H. apply touch_hands. intros s. by apply screen_up. Qed.

(** ** Single pointer *)

Lemma pressed_released (p : Z) : ({[p]} ∪ ∅) ∖ {[p]} = (∅ : gset Z).
Proof.
  apply leibniz_equiv. intros z. rewrite elem_of_difference, elem_of_union, elem_of_singleton.
  split; [intros [[?|[]%elem_of_empty] ?]|intros []%elem_of_empty]; done.
Qed.

Lemma pressed (p : Z) f : p ∈ ({[p]} ∪ f : gset Z).
Proof. apply elem_of_union_l, elem_of_singleton. done. Qed.

Lemma press_hands p x y x' y' pr pr' :
  session_hands ∅ (inject_touch ACTION_DOWN p x y pr;; inject_touch ACTION_UP p x' y' pr') ∅.
Proof.
  eapply hands_bind; [by apply down_hands|intros _].
  rewrite <-(pressed_released p) at 2. by apply up_hands, pressed.
Qed.

Lemma move_along_hands f p from to n : p ∈ f → session_hands f (move_along p from to n) f.
Proof. intros H. apply hands_each. intros i. by apply move_hands. Qed.

Lemma drag_hands p from to n :
  session_hands ∅ (inject_touch ACTION_DOWN p from.1 from.2 one;; move_along p from to n;;
                   inject_touch ACTION_MOVE p to.1 to.2 one;;
                   inject_touch ACTION_UP p to.1 to.2 zero) ∅.
Proof.
  eapply hands_bind; [by apply down_hands|intros _].
  eapply hands_bind; [by apply move_along_hands, pressed|intros _].
  eapply hands_bind; [by apply move_hands, pressed|intros _].
  rewrite <-(pressed_released p) at 2. by apply up_hands, pressed.
Qed.

Lemma tap_pointer_say p x y (s : L) :
  tap_pointer p x y s =
  (Ok tt, say [touch_msg ACTION_DOWN p x y one s; touch_msg ACTION_UP p x y zero s] s).
Proof.
  unfold tap_pointer, touch_guard, guarded, mark_pressed, mark_released, on_session, zoom. run.
  cbn. destruct s. cbn. by rewrite <-app_assoc, decide_True.
Qed.

Lemma tap_pointer_hands p x y : session_hands ∅ (tap_pointer p x y) ∅.
Proof.
  intros s _. rewrite tap_pointer_say. do 3 eexists. split_and!; [done..|].
  rewrite screen_cons, screen_down by done. cbn [mbind option_bind].
  rewrite screen_up by apply pressed. by rewrite pressed_released.
Qed.

(** ** Many pointers *)

(** The pointers [0 .. n-1]. *)
Definition first_fingers (n : nat) : gset Z := list_to_set (seqZ 0 (Z.of_nat n)).
Definition fingers_from (n k : nat) : gset Z :=
  list_to_set (seqZ (Z.of_nat k) (Z.of_nat n - Z.of_nat k)).

Lemma first_fingers_succ n : first_fingers (n + 1) = {[Z.of_nat n]} ∪ first_fingers n.
Proof.
  unfold first_fingers. apply leibniz_equiv. intros z.
  rewrite elem_of_union, !elem_of_list_to_set, elem_of_singleton, !elem_of_seqZ. lia.
Qed.

Lemma fingers_from_all n : fingers_from n 0 = first_fingers n.
Proof. unfold fingers_from, first_fingers. by rewrite Z.sub_0_r. Qed.

Lemma fingers_from_none n : fingers_from n n = ∅.
Proof. unfold fingers_from. by rewrite Z.sub_diag. Qed.

Lemma fingers_from_succ n k : fingers_from n (k + 1) = fingers_from n k ∖ {[Z.of_nat k]}.
Proof.
  unfold fingers_from. apply leibniz_equiv. intros z.
  rewrite elem_of_difference, !elem_of_list_to_set, elem_of_singleton, !elem_of_seqZ. lia.
Qed.

(** A stage that presses pointers [0 .. n-1] in turn, and one that lifts them. *)
Lemma press_all {X Y} (lg : X → list ControlMessage) K (l : list Y) body :
  (∀ i y f, l !! i = Some y → Z.of_nat i ∉ f →
     hands lg K f (body y) ({[Z.of_nat i]} ∪ f)) →
  hands lg K ∅ (for_each l body) (first_fingers (length l)).
Proof.
  intros H. apply (hands_loop lg K first_fingers l body 0). intros i y Hi.
  rewrite Nat.add_0_l, first_fingers_succ. apply H; [done|].
  unfold first_fingers. rewrite elem_of_list_to_set, elem_of_seqZ. lia.
Qed.

Lemma lift_all {X Y} (lg : X → list ControlMessage) K (l : list Y) body :
  (∀ i y f, l !! i = Some y → Z.of_nat i ∈ f →
     hands lg K f (body y) (f ∖ {[Z.of_nat i]})) →
  hands lg K (first_fingers (length l)) (for_each l body) ∅.
Proof.
  intros H. rewrite <-fingers_from_all, <-(fingers_from_none (length l)).
  apply (hands_loop lg K (fingers_from (length l)) l body 0). intros i y Hi.
  rewrite Nat.add_0_l, fingers_from_succ. apply H; [done|].
  apply lookup_lt_Some in Hi.
  unfold fingers_from. rewrite elem_of_list_to_set, elem_of_seqZ. lia.
Qed.

Lemma three_finger_hands : session_hands ∅ three_finger_screenshot ∅.
Proof.
  unfold three_finger_screenshot.
  eapply hands_bind; [apply hands_read|intros w]. eapply hands_bind; [apply hands_read|intros h].
  assert (∀ i y, [0; 1; 2] !! i = Some y → y = Z.of_nat i) as Hi.
  { intros i y Hy. by do 3 (destruct i as [|i]; [by injection Hy as <-|]). }
  eapply hands_bind.
  { apply (press_all _ _ [0; 1; 2]). intros i y f Hy Hf. rewrite (Hi i y Hy).
    by apply down_hands. }
  intros _. eapply hands_bind; [|intros _; apply (lift_all _ _ [0; 1; 2])].
  - apply hands_each. intros step.
    apply (hands_loop msgs any (λ _, first_fingers 3) [0; 1; 2] _ 0).
    intros i y Hy. rewrite (Hi i y Hy). apply move_hands. apply lookup_lt_Some in Hy.
    unfold first_fingers. rewrite elem_of_list_to_set, elem_of_seqZ. cbn in Hy. lia.
  - intros i y f Hy Hf. rewrite (Hi i y Hy). by apply up_hands.
Qed.

Abbreviation pair_log := (λ p, msgs (fst p)).

Lemma on_session_hands {X A} f (c : cmd L Error A) f' :
  session_hands f c f' → hands (X := L * X) pair_log any f (on_session c) f'.
Proof. by apply hands_zoom. Qed.

Lemma multi_finger_hands points :
  (2 ≤ length points ≤ 10)%nat → session_hands ∅ (multi_finger_tap points) ∅.
Proof.
  intros Hn s _. unfold multi_finger_tap.
  rewrite (proj2 (Z.leb_le 2 _)), (proj2 (Z.leb_le _ MAX_POINTERS))
    by (unfold MAX_POINTERS; lia). cbn [negb andb].
  lazymatch goal with |- context [?c (s, replicate _ _)] =>
    assert (hands (X := L * list bool) pair_log any ∅ c ∅) as Hc end.
  { eapply hands_bind; [apply hands_on_error|intros _; apply hands_on_error].
    - apply (press_all _ _ (imap pair points)). intros i y f Hi Hf.
      rewrite list_lookup_imap in Hi. destruct (points !! i) as [[x0 y0]|]; [|done].
      injection Hi as <-.
      eapply hands_bind; [by apply on_session_hands, down_hands|intros _].
      apply hands_silent. intros p _. by eexists _, _.
    - replace (length (imap pair points)) with (length (seqZ 0 (Z.of_nat (length points))))
        by (rewrite length_imap, length_seqZ; lia).
      apply lift_all. intros i y f Hi Hf. apply lookup_seqZ in Hi as [-> _].
      apply on_session_hands. by apply up_hands. }
  destruct (Hc (s, replicate (Z.to_nat MAX_POINTERS) false) I) as ([] & p & ms & -> & _ & Hl & Hf).
  by exists tt, p.1, ms.
Qed.

(** ** The handle of many pointers *)

Abbreviation MT := (MultitouchHandle (W := MsgLog)).
Abbreviation mt_log := (λ m : MT, msgs (mt_session m)).

(** The handle's table is the screen. *)
Definition tracking (m : MT) (f : gset Z) : Prop :=
  length (active m) = 10%nat ∧
  ∀ z, z ∈ f ↔ 0 ≤ z ∧ active m !! Z.to_nat z = Some true.

(** Whatever it returns, the command moves the screen and the table alike. *)
Definition tracked_run {A} (c : cmd MT Error A) (m : MT) (f : gset Z) : Prop :=
  ∃ ms f', (c m).1 ≠ Panicked ∧ mt_log (c m).2 = mt_log m ++ ms ∧
           screen f ms = Some f' ∧ tracking (c m).2 f'.

Definition tracks {A} (c : cmd MT Error A) : Prop := ∀ m f, tracking m f → tracked_run c m f.

Lemma still_run {A} (c : cmd MT Error A) m f o :
  tracking m f → c m = (o, m) → o ≠ Panicked → tracked_run c m f.
Proof. intros H Hc Ho. exists [], f. rewrite Hc. by rewrite app_nil_r. Qed.

Lemma tracks_ret {A} (a : A) : tracks (mret a).
Proof. intros m f H. by eapply still_run. Qed.

Lemma tracks_bind {A B} (c : cmd MT Error A) (k : A → cmd MT Error B) :
  tracks c → (∀ a, tracks (k a)) → tracks (c ≫= k).
Proof.
  intros Hc Hk m f H. destruct (Hc m f H) as (ms & f1 & P1 & L1 & F1 & T1).
  unfold tracked_run, mbind, cmd_bind.
  destruct (c m) as [[a|e|] m1]; cbn [fst snd] in *; [|by eexists _, _|done].
  destruct (Hk a m1 f1 T1) as (ms2 & f2 & P2 & L2 & F2 & T2).
  exists (ms ++ ms2), f2. rewrite screen_app, F1. by rewrite L2, L1, app_assoc.
Qed.

Lemma tracks_ignore_err {A} (c : cmd MT Error A) : tracks c → tracks (ignore_err c).
Proof.
  intros Hc m f H. destruct (Hc m f H) as (ms & f' & Hp & ?). exists ms, f'. unfold ignore_err.
  by destruct (c m) as [[a|e|] m1].
Qed.

Lemma tracks_for_each {Y} (l : list Y) body :
  Forall (λ y, tracks (body y)) l → tracks (for_each l body).
Proof. induction 1; cbn; [by apply tracks_ret|by apply tracks_bind]. Qed.

(** Checks done, the pointer's entry is looked up. *)
Lemma tracks_checked {A} id (k : bool → cmd MT Error A) :
  0 ≤ id →
  (∀ m f b, id < 10 → tracking m f → active m !! Z.to_nat id = Some b →
     tracked_run (k b) m f) →
  tracks (check_id id;; a ← get_active id; k a).
Proof.
  intros Hid Hk m f H. unfold check_id. destruct (Z.leb_spec MAX_POINTERS id) as [|Hlt].
  { by eapply still_run. }
  unfold MAX_POINTERS in Hlt. unfold tracked_run. run. unfold get_active.
  destruct (lookup_lt_is_Some_2 (active m) (Z.to_nat id)) as [b Hb].
  { destruct H as [-> _]. lia. }
  rewrite Hb. cbn [or_panic]. by apply Hk.
Qed.

Lemma tracking_set m f id b ms f' :
  0 ≤ id < 10 → tracking m f →
  (∀ z, z ∈ f' ↔ (z = id ∧ b = true) ∨ (z ≠ id ∧ z ∈ f)) →
  tracking (mkMultitouch (say ms (mt_session m)) (<[Z.to_nat id := b]> (active m))) f'.
Proof.
  intros Hid [Hlen Hf] Hf'. split; [by cbn; rewrite length_insert|]. intros z. rewrite Hf'.
  cbn [active]. destruct (decide (z = id)) as [->|Hne].
  - rewrite list_lookup_insert_eq by lia. split; [|intros [_ [= ->]]; by left].
    intros [[_ ->]|[? _]]; [|done]. split; [lia|done].
  - rewrite Hf. split.
    + intros [[? _]|[_ [Hz H]]]; [done|]. split; [done|].
      by rewrite list_lookup_insert_ne by lia.
    + intros [Hz H]. right. split; [done|]. split; [done|].
      by rewrite list_lookup_insert_ne in H by lia.
Qed.

Lemma not_tracked m f id :
  tracking m f → active m !! Z.to_nat id = Some false → id ∉ f.
Proof. intros [_ Hf] H Hin. apply Hf in Hin as [_ Hin]. by rewrite H in Hin. Qed.

Lemma tracked m f id :
  0 ≤ id → tracking m f → active m !! Z.to_nat id = Some true → id ∈ f.
Proof. intros Hid [_ Hf] H. by apply Hf. Qed.

Lemma tracking_is_active m f z :
  0 ≤ z → tracking m f → is_active z m = bool_decide (z ∈ f).
Proof.
  intros Hz [Hlen Hf]. unfold is_active, MAX_POINTERS.
  destruct (active m !! Z.to_nat z) as [b|] eqn:E.
  - apply lookup_lt_Some in E as Hlt. rewrite (proj2 (Z.ltb_lt z 10)) by lia.
    rewrite nth_lookup, E. cbn. destruct b; symmetry.
    + apply bool_decide_eq_true_2. by apply Hf.
    + apply bool_decide_eq_false_2. rewrite Hf, E. by intros [_ ?].
  - apply lookup_ge_None in E as Hge. rewrite (proj2 (Z.ltb_ge z 10)) by lia.
    symmetry. apply bool_decide_eq_false_2. rewrite Hf, E. by intros [_ ?].
Qed.

Lemma on_mt_say a p x y pr (m : MT) :
  on_mt (inject_touch a p x y pr) m =
  (Ok tt, mkMultitouch (say [touch_msg a p x y pr (mt_session m)] (mt_session m)) (active m)).
Proof. done. Qed.

Lemma down_tracks id x y pr : 0 ≤ id → tracks (down id x y pr).
Proof.
  intros Hid. apply tracks_checked; [done|]. intros m f [] Hlt H Hb.
  { by eapply still_run. }
  unfold tracked_run. run. rewrite on_mt_say. do 2 eexists. split_and!; [done|done| |].
  - by apply screen_down, (not_tracked m).
  - cbn. apply (tracking_set m f); [lia|done|]. intros z.
    rewrite elem_of_union, elem_of_singleton.
    destruct (decide (z = id)); [|tauto]. subst. tauto.
Qed.

Lemma move_tracks id x y pr : 0 ≤ id → tracks (move_to id x y pr).
Proof.
  intros Hid. apply tracks_checked; [done|]. intros m f [] Hlt H Hb.
  2: { by eapply still_run. }
  unfold tracked_run. cbn [negb]. rewrite on_mt_say. do 2 eexists. split_and!; [done|done| |exact H].
  by apply screen_move, (tracked m).
Qed.

(** UP and CANCEL. *)
Lemma lift_tracks a id (k := on_mt (inject_touch a id 0 0 zero);; set_active id false) m f :
  a = ACTION_UP ∨ a = ACTION_CANCEL → 0 ≤ id < 10 → tracking m f →
  active m !! Z.to_nat id = Some true → tracked_run k m f.
Proof.
  intros Ha Hid H Hb. unfold k, tracked_run. run. rewrite on_mt_say. do 2 eexists.
  split_and!; [done|done| |].
  - instantiate (1 := f ∖ {[id]}). pose proof (tracked m f id (proj1 Hid) H Hb) as Hin.
    cbn. rewrite decide_False by (by destruct Ha as [->| ->]).
    rewrite decide_True by done. rewrite decide_False by (by destruct Ha as [->| ->]).
    by rewrite decide_True.
  - cbn. apply (tracking_set m f); [lia|done|]. intros z.
    rewrite elem_of_difference, elem_of_singleton.
    split; [tauto|]. intros [[_ ?]|]; [done|tauto].
Qed.

Lemma up_tracks id : 0 ≤ id → tracks (up id).
Proof.
  intros Hid. apply tracks_checked; [done|]. intros m f [] Hlt H Hb.
  2: { by eapply still_run. }
  apply lift_tracks; auto with lia.
Qed.

Lemma cancel_tracks id : 0 ≤ id → tracks (cancel id).
Proof.
  intros Hid. apply tracks_checked; [done|]. intros m f [] Hlt H Hb.
  2: { by eapply still_run. }
  apply lift_tracks; auto with lia.
Qed.

Lemma release_all_tracks : tracks release_all.
Proof.
  apply tracks_for_each, Forall_forall. intros id Hid%elem_of_seqZ m f H.
  unfold MAX_POINTERS in Hid. unfold tracked_run, get_active. run.
  destruct (lookup_lt_is_Some_2 (active m) (Z.to_nat id)) as [b Hb]; [destruct H; lia|].
  rewrite Hb. cbn [or_panic]. destruct b; [apply lift_tracks; auto with lia|].
  exists [], f. by rewrite app_nil_r.
Qed.

(** Moves of pointers that are down leave the table alone. *)
Lemma pinch_loop_hands f t p0 p1 n :
  pp_id p0 ∈ f → pp_id p1 ∈ f →
  hands mt_log (λ m, active m = t) f
    (for_each (seqZ 1 n) (λ i, pinch_move p0 i n;; pinch_move p1 i n)) f.
Proof.
  intros H0 H1. apply hands_each. intros i.
  apply (hands_bind _ _ f f); [|intros _];
    (apply (hands_zoom msgs any); [done|by intros [] ?| by apply move_hands]).
Qed.

Lemma pinch_tracks p0 p1 n : 0 ≤ pp_id p0 → 0 ≤ pp_id p1 → tracks (mt_pinch p0 p1 n).
Proof.
  intros Hp0 Hp1 m f H. unfold mt_pinch, check_id.
  destruct (Z.leb_spec MAX_POINTERS (pp_id p0)); [by eapply still_run|].
  destruct (Z.leb_spec MAX_POINTERS (pp_id p1)); [by eapply still_run|].
  assert (∀ z, 0 ≤ z → z < MAX_POINTERS → ∃ b, active m !! Z.to_nat z = Some b) as Hget.
  { intros z Hz Hlt. apply lookup_lt_is_Some_2. destruct H as [-> _]. unfold MAX_POINTERS in Hlt. lia. }
  destruct (Hget _ Hp0) as [a0 E0]; [done|]. destruct (Hget _ Hp1) as [a1 E1]; [done|].
  unfold tracked_run. run. unfold get_active. rewrite E0, E1. cbn [or_panic].
  destruct a0, a1; cbn [negb orb]; try (exists [], f; by rewrite app_nil_r).
  pose proof (tracked m f _ Hp0 H E0). pose proof (tracked m f _ Hp1 H E1).
  destruct (pinch_loop_hands f (active m) p0 p1 (Z.max n 2)) with (s := m)
    as (a & m' & ms & Hr & Ha & Hl & Hs); [done..|].
  unfold mbind, cmd_bind, mret, cmd_ret in Hr.
  exists ms, f. rewrite Hr. cbn [fst snd]. split_and!; [done..|].
  by destruct H as [Hlen Hf]; split; rewrite Ha.
Qed.

Lemma tracking_start s : tracking (multitouch s) ∅.
Proof.
  split; [done|]. intros z. split; [intros []%elem_of_empty|].
  intros [_ [H _]%lookup_replicate_1]. done.
Qed.

Lemma run_touch_tracks c : touch_call_ok c → tracks (run_touch c).
Proof.
  destruct c; cbn [run_touch touch_call_ok]; intros H.
  - apply down_tracks, H.
  - apply move_tracks, H.
  - apply up_tracks, H.
  - apply cancel_tracks, H.
  - destruct H as [[? _] [? _]]. apply pinch_tracks; (eapply proj1; eassumption).
  - apply release_all_tracks.
Qed.

(** [release_all] clears the table. *)
Definition release_one (id : Z) : cmd MT Error unit :=
  a ← get_active id;
  if (a : bool) then on_mt (inject_touch ACTION_UP id 0 0 zero);; set_active id false
  else mret tt.

Definition clear (table : list bool) (ids : list Z) : list bool :=
  foldl (λ t id, <[Z.to_nat id := false]> t) table ids.

Lemma release_one_clears id (m : MT) :
  (Z.to_nat id < length (active m))%nat →
  ∃ m', release_one id m = (Ok tt, m') ∧ active m' = <[Z.to_nat id := false]> (active m).
Proof.
  intros H. apply lookup_lt_is_Some_2 in H as [b Hb]. unfold release_one, get_active. run.
  rewrite Hb. cbn [or_panic]. destruct b; [by eexists|]. exists m. by rewrite list_insert_id.
Qed.

Lemma release_clears ids (m : MT) :
  Forall (λ id, (Z.to_nat id < length (active m))%nat) ids →
  ∃ m', for_each ids release_one m = (Ok tt, m') ∧ active m' = clear (active m) ids.
Proof.
  intros H. remember (active m) as t eqn:Ht. revert t m Ht H.
  induction ids as [|id ids IH]; intros t m -> H; [by exists m|].
  apply Forall_cons in H as [Hid H].
  destruct (release_one_clears id m Hid) as (m1 & Hr & Ha).
  rewrite for_each_cons, Hr. apply (IH _ m1 (eq_sym Ha)). by rewrite length_insert.
Qed.

Lemma clear_all t : length t = 10%nat → clear t (seqZ 0 MAX_POINTERS) = replicate 10 false.
Proof.
  intros H. do 10 (destruct t as [|? t]; [done|]). by destruct t.
Qed.

(** Whatever the screen, [release_all] empties it. *)
Lemma release_all_empty m f :
  tracking m f → ∃ m' ms, release_all m = (Ok tt, m') ∧
    mt_log m' = mt_log m ++ ms ∧ screen f ms = Some ∅ ∧ tracking m' ∅.
Proof.
  intros H. destruct (release_all_tracks m f H) as (ms & f' & _ & Hl & Hs & Ht).
  destruct H as [Hlen _]. destruct (release_clears (seqZ 0 MAX_POINTERS) m) as (m' & Hr & Ha).
  { apply Forall_forall. intros id Hid%elem_of_seqZ. unfold MAX_POINTERS in Hid. lia. }
  change (for_each _ release_one m) with (release_all m) in Hr. rewrite Hr in *. cbn [snd] in *.
  assert (f' = ∅) as ->; [|by exists m', ms].
  apply leibniz_equiv. intros z. split; [|intros []%elem_of_empty].
  intros [_ Hz]%Ht. rewrite Ha, (clear_all _ Hlen) in Hz. by apply lookup_replicate_1 in Hz as [? _].
Qed.

(** ** A handle, and a pinch *)

Lemma calls_track calls :
  Forall touch_call_ok calls → tracks (for_each calls (λ c, ignore_err (run_touch c))).
Proof.
  intros H. apply tracks_for_each. eapply Forall_impl; [exact H|]. intros c Hc.
  by apply tracks_ignore_err, run_touch_tracks.
Qed.

(** A handle that lifts its pointers before it is dropped. *)
Definition tidy (calls : list TouchCall) : Prop := last calls = Some T_release_all.

Lemma ignoring_never_fails {S E X} (l : list X) (f : X → cmd S E unit) s e :
  (for_each l (λ x, ignore_err (f x)) s).1 ≠ Err e.
Proof.
  revert s. induction l as [|x l IH]; intros s; [done|].
  rewrite for_each_cons. unfold ignore_err at 1. by destruct (f x s) as [[a|e'|] s'].
Qed.

Lemma tidy_hands calls :
  Forall touch_call_ok calls → tidy calls → session_hands ∅ (use_multitouch calls) ∅.
Proof.
  intros Hok [l ->]%last_Some s _. apply Forall_app in Hok as [Hok _].
  unfold use_multitouch. rewrite (for_each_app l _ _ (multitouch s)).
  destruct (calls_track l Hok _ _ (tracking_start s)) as (ms & f & Hp & Hl & Hs & Ht).
  assert (∃ m, for_each l (λ c, ignore_err (run_touch c)) (multitouch s) = (Ok tt, m)) as [m Hm].
  { pose proof (ignoring_never_fails l run_touch (multitouch s)) as He.
    destruct (for_each l _ _) as [[[]|e|] m]; [by exists m|by destruct (He e)|done]. }
  rewrite (bind_ok _ _ _ _ _ Hm). rewrite Hm in *. cbn [fst snd] in *.
  destruct (release_all_empty m f Ht) as (m' & ms' & Hr & Hl' & Hs' & _).
  rewrite for_each_cons. unfold ignore_err at 1. cbn [run_touch]. rewrite Hr.
  exists tt, (mt_session m'), (ms ++ ms'). rewrite screen_app, Hs.
  by rewrite Hl', Hl, <-app_assoc.
Qed.

(** The two pointers of a pinch. *)
Definition two_down : list bool := true :: true :: replicate 8 false.
Definition both : gset Z := {[1]} ∪ ({[0]} ∪ ∅).
Definition both_down (x0 x1 y : Z) (s : L) : list ControlMessage :=
  [touch_msg ACTION_DOWN 0 x0 y one s; touch_msg ACTION_DOWN 1 x1 y one s].
Definition both_up (s : L) : list ControlMessage :=
  [touch_msg ACTION_UP 0 0 0 zero s; touch_msg ACTION_UP 1 0 0 zero s].

Lemma both_0 : 0 ∈ both.
Proof. apply elem_of_union_r, pressed. Qed.
Lemma both_1 : 1 ∈ both.
Proof. apply pressed. Qed.

Lemma both_down_screen x0 x1 y s : screen ∅ (both_down x0 x1 y s) = Some both.
Proof.
  unfold both_down. rewrite screen_cons, screen_down by done. cbn [mbind option_bind].
  apply screen_down. intros [H%elem_of_singleton|[]%elem_of_empty]%elem_of_union. done.
Qed.

Lemma both_lifted : both ∖ {[0]} ∖ {[1]} = ∅.
Proof. apply leibniz_equiv. unfold both. set_solver. Qed.

Lemma both_up_screen s : screen both (both_up s) = Some ∅.
Proof.
  unfold both_up. rewrite screen_cons, screen_up by apply both_0. cbn [mbind option_bind].
  rewrite screen_up by (apply elem_of_difference; split; [apply both_1|by intros ?%elem_of_singleton]).
  by rewrite both_lifted.
Qed.

Lemma two_down_say x0 x1 y (s : L) :
  (down 0 x0 y one;; down 1 x1 y one) (multitouch s) =
  (Ok tt, mkMultitouch (say (both_down x0 x1 y s) s) two_down).
Proof.
  transitivity (Ok (E := Error) tt,
    mkMultitouch (say [touch_msg ACTION_DOWN 1 x1 y one s]
                   (say [touch_msg ACTION_DOWN 0 x0 y one s] s)) two_down); [reflexivity|].
  by rewrite say_say.
Qed.

Lemma two_up_say (s : L) :
  (up 0;; up 1) (mkMultitouch s two_down) =
  (Ok tt, mkMultitouch (say (both_up s) s) (replicate 10 false)).
Proof.
  transitivity (Ok (E := Error) tt,
    mkMultitouch (say [touch_msg ACTION_UP 1 0 0 zero s]
                   (say [touch_msg ACTION_UP 0 0 0 zero s] s)) (replicate 10 false)); [reflexivity|].
  by rewrite say_say.
Qed.

Lemma pinch_hands cx cy r1 r2 n : session_hands ∅ (pinch cx cy r1 r2 n) ∅.
Proof.
  intros s _. unfold pinch.
  set (p0 := mkPath 0 _ _). set (p1 := mkPath 1 _ _).
  rewrite <-(cmd_bind_assoc (down 0 _ _ _) _ _ (multitouch s)).
  rewrite (bind_ok _ _ _ _ _ (two_down_say _ _ _ s)).
  set (down_ms := both_down _ _ _ s). set (s1 := say down_ms s).
  destruct (pinch_loop_hands both two_down p0 p1 (Z.max n 2) both_0 both_1
              (mkMultitouch s1 two_down) eq_refl) as ([] & [s2 t] & ms & Hr & Ht & Hl & Hs).
  cbn in Ht. subst t.
  rewrite (bind_ok (mt_pinch p0 p1 n) _ _ tt (mkMultitouch s2 two_down)) by exact Hr.
  rewrite two_up_say. cbn [mt_session] in *.
  exists tt, (say (both_up s2) s2), (down_ms ++ ms ++ both_up s2).
  split_and!; [done..| |].
  - rewrite msgs_say, Hl. unfold s1. by rewrite msgs_say, <-!app_assoc.
  - unfold down_ms. rewrite screen_app, both_down_screen. cbn [mbind option_bind].
    rewrite screen_app, Hs. apply both_up_screen.
Qed.

(** ** Lifetimes *)

(** Calls that lift what they press: every gesture, and handles that end with
    [release_all]; not [inject_touch] or a touch message of the caller's own. *)
Definition balanced (c : Call) : Prop :=
  match c with
  | C_inject_touch _ _ _ _ _ => False
  | C_send m => is_touch m = false
  | C_multitouch calls => tidy calls
  | _ => True
  end.

Definition touchless (m : ControlMessage) : Prop := is_touch m = false.

Definition lifted (s s' : L) : Prop :=
  ∃ ms, msgs s' = msgs s ++ ms ∧ screen ∅ ms = Some ∅.

#[export] Instance lifted_preorder : PreOrder lifted.
Proof.
  split.
  - intros s. exists []. by rewrite app_nil_r.
  - intros s1 s2 s3 (ms & H & Hs) (ms' & H' & Hs'). exists (ms ++ ms').
    by rewrite H', H, <-app_assoc, screen_app, Hs.
Qed.

Lemma says_lifted s s' : says touchless s s' → lifted s s'.
Proof. intros (ms & H & HF). exists ms. split; [done|]. by apply screen_other. Qed.

Lemma hands_lifted {A} (c : cmd L Error A) : session_hands ∅ c ∅ → stable lifted c.
Proof. intros H s. destruct (H s I) as (a & s' & ms & -> & _ & Hl & Hs). by exists ms. Qed.

Lemma send_lifted m : touchless m → stable lifted (send m).
Proof.
  intros H s. apply says_lifted. exists [m]. split; [done|]. by apply Forall_singleton.
Qed.

Lemma close_lifted : stable lifted close.
Proof.
  assert (∀ f : L → L, (∀ s, link (f s) = link s) → stable (E := Error) lifted (modify f)) as Hm.
  { intros f Hf s. exists []. rewrite app_nil_r. split; [|done]. cbn. unfold msgs. by rewrite Hf. }
  unfold close, try_close_all.
  apply stable_bind; [apply _|by apply stable_read, _|intros [|]]; [by apply stable_ret, _|].
  apply stable_bind; [apply _|by apply stable_read, _|intros k].
  apply stable_bind; [apply _|destruct k; [by apply send_lifted|by apply stable_ret, _]|intros _].
  apply stable_bind; [apply _|by apply stable_read, _|intros m].
  apply stable_bind; [apply _|destruct m; [by apply send_lifted|by apply stable_ret, _]|intros _].
  apply stable_bind; [apply _| |intros _; by apply Hm].
  apply stable_bind; [apply _|by apply stable_read, _|intros [g|]]; [|by apply stable_ret, _].
  apply stable_bind; [apply _|by apply stable_read, _|intros slot].
  assert (∀ o g', match slot with Some i => close_slot_idx i g
                  | None => Gamepad.close HID_ID_GAMEPAD_FIRST g end = (Ok o, g') →
    touchless o) as Ho.
  { intros o g'. destruct slot as [i|].
    - unfold close_slot_idx. run. repeat case_match; by intros [= <- <-].
    - unfold Gamepad.close. run. repeat case_match; by intros [= <- <-]. }
  destruct (match slot with Some i => close_slot_idx i g | None => _ end) as [msg g'].
  apply stable_bind; [apply _|by apply stable_read, _|intros id].
  apply stable_bind; [apply _|by apply Hm|intros _].
  apply stable_bind; [apply _| |intros _; by apply Hm].
  destruct msg as [msg|e|]; [by apply send_lifted, (Ho msg g')|by apply stable_ret, _|].
  intros s. reflexivity.
Qed.

Lemma run_call_lifted c : call_ok c → balanced c → stable lifted (run_call c).
Proof.
  intros Hok Hb. destruct (touches c) eqn:Ht.
  - destruct c; cbn [run_call touches balanced call_ok] in *; try done.
    + by apply send_lifted.
    + apply hands_lifted, tap_pointer_hands.
    + apply hands_lifted, drag_hands.
    + apply hands_lifted. unfold double_tap, touch_msg_pub.
      assert (∀ (f g : cmd L Error unit), session_hands ∅ (f;; g) ∅ →
        session_hands ∅ (f;; g;; f;; g) ∅) as Hr.
      { intros f g H s Hs.
        destruct (hands_bind msgs any ∅ ∅ ∅ _ (λ _, f;; g) H (λ _, H) s Hs) as (a & s' & ms & Hr & ?).
        exists a, s', ms. split; [|done]. by rewrite <-Hr, (cmd_bind_assoc f _ _ s). }
      apply Hr, press_hands.
    + apply hands_lifted, press_hands.
    + apply hands_lifted, three_finger_hands.
    + apply hands_lifted, drag_hands.
    + apply hands_lifted, pinch_hands.
    + destruct (decide (2 ≤ length points ≤ 10)%nat) as [Hn|Hn].
      { by apply hands_lifted, multi_finger_hands. }
      unfold multi_finger_tap. destruct (_ && _) eqn:E.
      { exfalso. apply Hn. apply andb_prop in E as [E1 E2]. unfold MAX_POINTERS in E2. lia. }
      apply stable_raise, _.
    + apply hands_lifted. by apply tidy_hands.
  - assert (c = C_close ∨ c ≠ C_close) as [->|Hne] by (destruct c; auto); [apply close_lifted|].
    intros s. apply says_lifted.
    apply (run_call_touchless touchless); [done|done|done|].
    by intros m ->.
Qed.

Lemma run_calls_lifted cs s :
  Forall call_ok cs → Forall balanced cs → lifted s (run_calls cs s).2.
Proof.
  intros Hok Hb. revert s. induction cs as [|c cs IH]; intros s; [reflexivity|].
  apply Forall_cons in Hok as [Hc Hok]. apply Forall_cons in Hb as [Hb Hbs]. cbn [run_calls].
  pose proof (run_call_lifted c Hc Hb s) as H. destruct (run_call c s) as [o s1].
  specialize (IH Hok Hbs s1). destruct (run_calls cs s1) as [os s2]. by etrans.
Qed.

Lemma drop_session_msgs (s : L) :
  msgs (drop_session s).2 = msgs (if closed s then s else (close s).2).
Proof. done. Qed.

Lemma lifetime_lifted req cs :
  Forall call_ok cs → Forall balanced cs →
  screen ∅ (msgs (lifetime (mkLog []) req cs).2) = Some ∅.
Proof.
  intros Hok Hb. destruct (open_log req) as (Ho & _ & Hms). unfold lifetime.
  destruct (open (mkLog []) req) as [[[]|e|] s]; [|done..]. cbn [fst snd] in *.
  pose proof (run_calls_lifted cs s Hok Hb) as H.
  destruct (run_calls cs s) as [os s']. cbn [snd] in *. rewrite drop_session_msgs.
  assert (lifted s (if closed s' then s' else (close s').2)) as (ms & -> & Hs).
  { destruct (closed s'); [done|]. etrans; [exact H|apply close_lifted]. }
  rewrite Hms, screen_app, (screen_other ∅ (creates req)); [done|].
  unfold creates. repeat case_match; rewrite ?Forall_app; repeat split; repeat constructor.
Qed.

(** C6: On a transport that never fails, any history of calls in which the caller injects
    no raw touch of its own and ends each multitouch handle with [release_all] puts on the
    wire, after what was there, a stream that decodes to messages whose touches are
    consistent - no finger goes down twice, and none moves or lifts that is not down - and
    that leave no finger on the screen. *)
Theorem gestures_leave_no_finger {T}
    `{!TransportWrite T, !LawfulTransport T, !ReliableTransport T}
    (t : T) clk req cs (Hok : Forall call_ok cs) (Hb : Forall balanced cs) :
  ∃ stream ws,
    wire (transport (link (lifetime (connect t req clk) req cs).2)) = wire t ++ stream ∧
    decode_all stream = Some ws ∧ touch_run ∅ ws = Some ∅.
Proof.
  destruct (lifetime_wire t clk req cs Hok) as (_ & stream & Hw & _ & Hd).
  exists stream, (wire_of <$> msgs (lifetime (mkLog []) req cs).2).
  split_and!; [done|done|]. by apply lifetime_lifted.
Qed.

(** Whatever calls are made on a multitouch handle, and whatever they return, over a
    writer that accepts everything none of them panics, the touches sent are consistent,
    and the fingers on the screen are the pointers the handle counts as active. *)
Theorem multitouch_tracks_screen (s : L) calls (Hok : Forall touch_call_ok calls) :
  ∃ m ms f,
    for_each calls (λ c, ignore_err (run_touch c)) (multitouch s) = (Ok tt, m) ∧
    msgs (mt_session m) = msgs s ++ ms ∧ screen ∅ ms = Some f ∧
    ∀ z, 0 ≤ z → is_active z m = bool_decide (z ∈ f).
Proof.
  destruct (calls_track calls Hok _ _ (tracking_start s)) as (ms & f & Hp & Hl & Hs & Ht).
  pose proof (ignoring_never_fails calls run_touch (multitouch s)) as He.
  destruct (for_each calls _ _) as [[[]|e|] m]; [|by destruct (He e)|done].
  exists m, ms, f. split_and!; [done..|]. intros z Hz. by apply tracking_is_active.
Qed.

(** ** Witnesses *)

Lemma gestures_leave_no_finger_witness :
  Forall call_ok sample_calls ∧ Forall balanced sample_calls ∧
  ∃ stream ws,
    wire (transport (link (lifetime (connect Mock_new request_all Z.of_nat)
                             request_all sample_calls).2)) = stream ∧
    decode_all stream = Some ws ∧ touch_run ∅ ws = Some ∅.
Proof.
  assert (Forall balanced sample_calls) as Hb by by repeat constructor.
  split; [exact sample_calls_ok|]. split; [exact Hb|].
  exact (gestures_leave_no_finger Mock_new Z.of_nat request_all sample_calls sample_calls_ok Hb).
Defined.

Lemma multitouch_tracks_screen_witness :
  let calls := [T_down 0 1 2 one; T_down 1 3 4 one; T_down 1 5 6 one; T_up 0] in
  Forall touch_call_ok calls ∧
  ∃ m ms f,
    for_each calls (λ c, ignore_err (run_touch c)) (multitouch (new_session (mkLog []))) = (Ok tt, m) ∧
    msgs (mt_session m) = ms ∧ screen ∅ ms = Some f ∧
    ∀ z, 0 ≤ z → is_active z m = bool_decide (z ∈ f).
Proof.
  intros calls.
  assert (Forall touch_call_ok calls) as H.
  { repeat first [apply Forall_cons; split | apply Forall_nil]; by vm_compute. }
  split; [exact H|]. exact (multitouch_tracks_screen (new_session (mkLog [])) calls H).
Defined.
