(* ===== verification/Typing.v ===== *)
(** * Typed text arrives

    What a device with a US layout types when it reads the keyboard reports of a session,
    and that [type_text] makes it type the text. *)

From Stdlib Require Import Sorted.
From S2P Require Import Prelude Words Errors Types Utf8 Float32 Message Transport Descriptor.
From S2P Require Import Keyboard Mouse Gamepad Coalesce Sink Session Touch Refinement.
From S2P Require Import SessionInv Lifecycle.
Local Open Scope Z_scope.

(** ** The device *)

(** The keys of a boot report: its non-zero key bytes. *)
Definition report_keys (report : bytes) : list Z := filter (λ k, k ≠ 0) (drop 2 report).

(** A key types when it appears in a report and was not in the one before. *)
Definition report_types (before : list Z) (report : bytes) : list Z :=
  omap (us_layout (nth 0 report 0)) (filter (λ k, k ∉ before) (report_keys report)).

Fixpoint typed (before : list Z) (ws : list Wire) : list Z :=
  match ws with
  | [] => []
  | W_UhidInput id report :: ws =>
      if decide (id = HID_ID_KEYBOARD)
      then report_types before report ++ typed (report_keys report) ws
      else typed before ws
  | _ :: ws => typed before ws
  end.

(** ** One key *)

Definition keyboard_msg (report : bytes) : ControlMessage :=
  Cm_UhidInput (mkUhidInput HID_ID_KEYBOARD 8 (fixed_data 8 report)).

(** The report of one held key, and of none. *)
Definition one_key (m k : Z) : bytes := [m; 0; k; 0; 0; 0; 0; 0].

Lemma sorted_singleton l k : StronglySorted Z.lt l → (∀ x, x ∈ l ↔ x = k) → l = [k].
Proof.
  intros Hs H. destruct l as [|x [|y l]].
  - by destruct (proj1 (elem_of_nil k) (proj2 (H k) eq_refl)).
  - f_equal. apply H. by left.
  - exfalso. inversion Hs as [|?? _ Hall]; subst. apply Forall_cons in Hall as [Hlt _].
    assert (x = k) by (apply H; by left). assert (y = k) by (apply H; right; by left). lia.
Qed.

Lemma nothing_held l : (∀ x, x ∉ l) → (l : list Z) = [].
Proof. destruct l as [|x l]; [done|]. intros H. destruct (H x). by left. Qed.

(** A keyboard with no key down. *)
Definition rested (kb : KeyboardHid) : Prop := keyboard_wf kb ∧ held_keys kb = [].

Lemma key_event_ok_run sc p m kb held :
  keyboard_wf kb → u8 m → 0 ≤ sc ≤ 0x65 →
  held_keys (inject_key sc p m kb).2 = held →
  key_event sc p m kb = (Ok (keyboard_msg (keyboard_report held m)), (inject_key sc p m kb).2) ∧
  keyboard_wf (inject_key sc p m kb).2.
Proof.
  intros Hwf Hm Hsc Hh. assert (u8 sc) as Hu by (widths; lia).
  split; [|by apply inject_key_wf]. pose proof (key_event_run sc p m kb Hwf Hu Hm) as H.
  destruct (key_event sc p m kb) as [o kb1]. destruct H as [-> ->].
  by rewrite decide_True, Hh by (unfold valid_usage; lia).
Qed.

Lemma press_release sc m kb :
  rested kb → u8 m → 0 ≤ sc ≤ 0x65 →
  ∃ kb1 kb2,
    key_event sc true m kb = (Ok (keyboard_msg (one_key m sc)), kb1) ∧
    key_event sc false m kb1 = (Ok (keyboard_msg (one_key m 0)), kb2) ∧ rested kb2.
Proof.
  intros [Hwf Hh] Hm Hsc. assert (u8 sc) as Hu by (widths; lia).
  assert (held_keys (inject_key sc true m kb).2 = [sc]) as Hh1.
  { apply sorted_singleton; [apply held_from_sorted|]. intros x.
    rewrite inject_key_held, Hh by done.
    destruct (decide (x = sc ∧ 0 ≤ x ≤ 0x65)) as [Hx|Hx]; [split; [intros _; apply Hx|done]|].
    split; [intros []%elem_of_nil|]. intros ->. lia. }
  destruct (key_event_ok_run sc true m kb [sc] Hwf Hm Hsc Hh1) as [H1 Hwf1].
  set (kb1 := (inject_key sc true m kb).2) in *.
  assert (held_keys (inject_key sc false m kb1).2 = []) as Hh2.
  { apply nothing_held. intros x. rewrite inject_key_held, Hh1 by done.
    destruct (decide (x = sc ∧ 0 ≤ x ≤ 0x65)) as [Hx|Hx]; [done|].
    rewrite list_elem_of_singleton. intros ->. lia. }
  destruct (key_event_ok_run sc false m kb1 [] Hwf1 Hm Hsc Hh2) as [H2 Hwf2].
  by exists kb1, (inject_key sc false m kb1).2.
Qed.

(** ** Text *)

Implicit Types s : L.

Lemma key_say sc p m s kb msg kb' :
  kbd s = Some kb → key_event sc p m kb = (Ok msg, kb') →
  key sc p m s = (Ok tt, set_kbd (Some kb') (say [msg] s)).
Proof. intros Hk He. unfold key, on_kbd. run. by rewrite Hk, He. Qed.

(** What typing a character, and a text, logs. *)
Definition char_msgs (c : Z) : list ControlMessage :=
  match try_from_char c with
  | (m, Some sc) => [keyboard_msg (one_key m (to_u8 sc)); keyboard_msg (one_key m 0)]
  | _ => []
  end.

Lemma try_from_char_usage c m sc :
  0 ≤ c → try_from_char c = (m, Some sc) →
  typeable c ∧ us_layout m (to_u8 sc) = Some c ∧ u8 m ∧ 4 ≤ to_u8 sc ≤ 0x65.
Proof.
  intros Hc E. pose proof (char_ok_all c Hc) as H. unfold char_ok in H. rewrite E in H.
  apply bool_decide_eq_true in H as (Ht & Hl & _ & Hm). split_and!; [done..| |].
  - unfold us_layout in Hl. by case_decide.
  - unfold us_layout in Hl. case_decide; [|done]. apply lookup_lt_Some in Hl.
    assert (length (if Modifiers_contains m LSHIFT then us_shifted else us_plain) = 53%nat) as HL
      by (by case_match).
    rewrite HL in Hl. lia.
Qed.

Definition rested_session s : Prop := ∃ kb, kbd s = Some kb ∧ rested kb.

Lemma type_char_say m sc s :
  rested_session s → u8 m → 0 ≤ to_u8 sc ≤ 0x65 →
  ∃ s', type_char sc m s = (Ok tt, s') ∧ rested_session s' ∧
        msgs s' = msgs s ++ [keyboard_msg (one_key m (to_u8 sc)); keyboard_msg (one_key m 0)].
Proof.
  intros (kb & Hk & Hr) Hm Hsc.
  destruct (press_release (to_u8 sc) m kb Hr Hm Hsc) as (kb1 & kb2 & H1 & H2 & Hr2).
  unfold type_char.
  rewrite (bind_ok _ _ _ _ _ (key_say _ _ _ s kb _ kb1 Hk H1)).
  rewrite (key_say _ _ _ (set_kbd (Some kb1) _) kb1 _ kb2 eq_refl H2).
  eexists. split; [done|]. split; [by exists kb2|].
  cbn. by rewrite <-app_assoc.
Qed.

Lemma type_text_say cs s :
  rested_session s → Forall (λ c, 0 ≤ c) cs →
  ∃ s', for_each cs (λ ch,
          match try_from_char ch with
          | (mods, Some sc) => type_char sc mods
          | (_, None) => mret tt
          end) s = (Ok tt, s') ∧
        rested_session s' ∧ msgs s' = msgs s ++ (cs ≫= char_msgs).
Proof.
  intros Hr Hcs. revert s Hr. induction Hcs as [|c cs Hc _ IH]; intros s Hr.
  { exists s. by rewrite app_nil_r. }
  rewrite for_each_cons. cbn [mbind list_bind]. unfold char_msgs at 1.
  destruct (try_from_char c) as [m [sc|]] eqn:E.
  - destruct (try_from_char_usage c m sc Hc E) as (_ & _ & Hm & Hsc).
    destruct (type_char_say m sc s Hr Hm) as (s1 & -> & Hr1 & Hl1); [lia|].
    destruct (IH s1 Hr1) as (s2 & -> & Hr2 & Hl2). exists s2.
    by rewrite Hl2, Hl1, <-app_assoc.
  - apply (IH s Hr).
Qed.

(** ** What the device types *)

Lemma wire_of_keyboard report :
  length report = 8%nat → wire_of (keyboard_msg report) = W_UhidInput HID_ID_KEYBOARD report.
Proof.
  intros H. cbn. f_equal. change (Pos.to_nat 8) with 8%nat.
  rewrite take_fixed_data by lia. by rewrite firstn_all2 by lia.
Qed.

Lemma char_wires c :
  0 ≤ c → typeable c →
  ∃ m sc, wire_of <$> char_msgs c =
          [W_UhidInput HID_ID_KEYBOARD (one_key m sc); W_UhidInput HID_ID_KEYBOARD (one_key m 0)] ∧
          us_layout m sc = Some c ∧ 4 ≤ sc ≤ 0x65.
Proof.
  intros Hc Ht. destruct (try_from_char_typeable c Hc Ht) as (m & s & E & _).
  destruct (try_from_char_usage c m s Hc E) as (_ & Hl & _ & Hsc).
  exists m, (to_u8 s). unfold char_msgs. rewrite E. split; [|done].
  by rewrite !fmap_cons, !wire_of_keyboard.
Qed.

Lemma typed_char_then c ws :
  0 ≤ c →
  typed [] ((wire_of <$> char_msgs c) ++ ws) = (if decide (typeable c) then [c] else []) ++ typed [] ws.
Proof.
  intros Hc. case_decide as Ht.
  - destruct (char_wires c Hc Ht) as (m & sc & -> & Hl & Hsc). cbn [app].
    change (typed [] (W_UhidInput HID_ID_KEYBOARD ?r :: ?ws))
      with (report_types [] r ++ typed (report_keys r) ws).
    assert (report_keys (one_key m sc) = [sc]) as Hk.
    { unfold report_keys, one_key. cbn [drop]. by rewrite filter_cons_True by lia. }
    unfold report_types. rewrite Hk. change (filter _ [sc]) with [sc].
    cbn [omap list_omap nth one_key]. rewrite Hl. done.
  - unfold char_msgs. destruct (try_from_char c) as [m [sc|]] eqn:E; [|done].
    by destruct (try_from_char_usage c m sc Hc E).
Qed.

Lemma typed_char c ms :
  0 ≤ c →
  typed [] (wire_of <$> (char_msgs c ++ ms)) =
  (if decide (typeable c) then [c] else []) ++ typed [] (wire_of <$> ms).
Proof. intros Hc. by rewrite fmap_app, typed_char_then. Qed.

Lemma typed_chars cs ms :
  Forall (λ c, 0 ≤ c) cs →
  typed [] (wire_of <$> ((cs ≫= char_msgs) ++ ms)) = filter typeable cs ++ typed [] (wire_of <$> ms).
Proof.
  induction 1 as [|c cs Hc _ IH]; [done|]. cbn [mbind list_bind].
  rewrite <-app_assoc, typed_char, IH, filter_cons by done. by case_decide.
Qed.

(** ** A typing session *)

(** The characters of a text. *)
Definition characters (text : str) : list Z := default [] (chars text).

Lemma type_texts_say req texts s :
  Forall is_str texts → rested_session s → open_state req s →
  ∃ s', run_calls (C_type_text <$> texts) s = (replicate (length texts) (Ok tt), s') ∧
        open_state req s' ∧ msgs s' = msgs s ++ ((texts ≫= characters) ≫= char_msgs).
Proof.
  intros Ht. revert s. induction Ht as [|t texts Ht _ IH]; intros s Hr Ho.
  { exists s. by rewrite app_nil_r. }
  cbn [fmap list_fmap run_calls length replicate].
  destruct (type_text_say (characters t) s Hr) as (s1 & Hs1 & Hr1 & Hl1); [by apply chars_range|].
  assert (run_call (C_type_text t) s = (Ok tt, s1)) as E by exact Hs1. rewrite E.
  assert (open_state req s1) as Ho1.
  { pose proof (run_call_quiet ordinary (λ m H _, H) (λ t, eq_refl) (C_type_text t)) as Hq.
    destruct (Hq ltac:(done) ltac:(done) s) as [Hd _]. rewrite E in Hd. unfold open_state.
    by rewrite <-Ho, <-Hd. }
  destruct (IH s1 Hr1 Ho1) as (s2 & -> & Ho2 & Hl2). exists s2. split; [done|]. split; [done|].
  by rewrite Hl2, Hl1, <-app_assoc, bind_cons, bind_app.
Qed.

Lemma typed_silent held ms ws :
  Forall (λ m, match m with Cm_UhidInput _ => False | _ => True end) ms →
  typed held ((wire_of <$> ms) ++ ws) = typed held ws.
Proof. induction 1 as [|m ms Hm _ IH]; [done|]. by destruct m. Qed.

Lemma lifetime_typed req texts :
  or_kbd req = true → Forall is_str texts →
  (lifetime (mkLog []) req (C_type_text <$> texts)).1 =
    (Ok tt, replicate (length texts) (Ok tt)) ∧
  typed [] (wire_of <$> msgs (lifetime (mkLog []) req (C_type_text <$> texts)).2) =
    filter typeable (texts ≫= characters).
Proof.
  intros Hkbd Ht. destruct (open_log req) as (Ho & Hst & Hms).
  assert (rested_session (open (mkLog []) req).2) as Hr.
  { exists Keyboard_new. split; [|by split]. by destruct req as [[] [] [] c w h]. }
  unfold lifetime. destruct (open (mkLog []) req) as [[[]|e|] s]; [|done..]. cbn [fst snd] in *.
  destruct (type_texts_say req texts s Ht Hr Hst) as (s' & -> & Ho' & Hl). split; [done|].
  destruct (close_open req s' Ho') as (s2 & Hc & _ & Hl2).
  assert (closed s' = false) as Hcl by (by injection Ho').
  cbn [snd]. unfold drop_session. rewrite Hcl. unfold close in Hc. rewrite Hc. cbn [snd].
  change (msgs (on_link sink_drop s2).2) with (msgs s2).
  rewrite Hl2, Hl, Hms, !fmap_app, <-!app_assoc, <-fmap_app, typed_silent.
  - rewrite typed_chars.
    + rewrite <-(app_nil_r (wire_of <$> destroys req)), typed_silent; [apply app_nil_r|].
      unfold destroys. rewrite Forall_fmap. by apply Forall_true.
    + clear -Ht. induction Ht as [|t texts Ht _ IH]; [done|]. cbn [mbind list_bind].
      apply Forall_app. split; [by apply chars_range|done].
  - unfold creates. repeat case_match; rewrite ?Forall_app; repeat split; repeat constructor.
Qed.

(** ** Properties *)

(** C28: Over a transport that never fails, a session with a keyboard that is given texts to
    type accepts them all, and a device with a US layout that reads the UHID reports on the
    wire types exactly the characters of the texts that have a key on it, in order - the
    printable ASCII characters, backspace, tab, newline and escape - and skips the rest;
    repeated letters included, since every key is released before the next is pressed. *)
Theorem type_text_types {T} `{!TransportWrite T, !LawfulTransport T, !ReliableTransport T}
    (t : T) clk req texts (Hkbd : or_kbd req = true) (Htexts : Forall is_str texts) :
  let s := lifetime (connect t req clk) req (C_type_text <$> texts) in
  s.1 = (Ok tt, replicate (length texts) (Ok tt)) ∧
  ∃ stream ws, wire (transport (link s.2)) = wire t ++ stream ∧ decode_all stream = Some ws ∧
               typed [] ws = filter typeable (texts ≫= characters).
Proof.
  intros s. assert (Forall call_ok (C_type_text <$> texts)) as Hok by (by rewrite Forall_fmap).
  destruct (lifetime_wire t clk req _ Hok) as (Ho & stream & Hw & _ & Hd).
  destruct (lifetime_typed req texts Hkbd Htexts) as [Ho' Hty].
  split; [by etrans|]. by exists stream, (wire_of <$> msgs (lifetime (mkLog []) req
    (C_type_text <$> texts)).2).
Qed.

(** ["Hello!"] and a character without a key. *)
Definition hello : list str := [[72; 101; 108; 108; 111]; [33; 0xC3; 0xA9]].

Lemma type_text_types_witness :
  Forall is_str hello ∧
  ∃ stream ws,
    wire (transport (link (lifetime (connect Mock_new kbd_only Z.of_nat) kbd_only
                             (C_type_text <$> hello)).2)) = stream ∧
    decode_all stream = Some ws ∧ typed [] ws = [72; 101; 108; 108; 111; 33].
Proof.
  assert (Forall is_str hello) as H.
  { repeat (apply Forall_cons; split); [| |by apply Forall_nil].
    - exists [72; 101; 108; 108; 111]. split; [|done]. by apply (bool_decide_unpack _).
    - exists [33; 0xE9]. split; [|by vm_compute]. by apply (bool_decide_unpack _). }
  split; [exact H|].
  destruct (type_text_types Mock_new Z.of_nat kbd_only hello eq_refl H)
    as (_ & stream & ws & Hw & Hd & Ht).
  exists stream, ws. split; [exact Hw|]. split; [exact Hd|]. rewrite Ht. by vm_compute.
Defined.
