(* ===== verification/Batches.v ===== *)
(** * Gamepad batches

    A batch of frames is the frames one by one: the same messages, the same driver. *)

From S2P Require Import Prelude Words Errors Types Utf8 Float32 Message Transport Descriptor.
From S2P Require Import Keyboard Mouse Gamepad Coalesce Sink Session Touch Refinement.
From S2P Require Import SessionInv Lifecycle.
Local Open Scope Z_scope.

Implicit Types s : L.

(** An open session with a gamepad in slot [i]. *)
Definition playing (i : nat) (s : L) : Prop :=
  closed s = false ∧ gamepad_slot s = Some i ∧
  ∃ g p, gamepad s = Some g ∧ gamepads_wf g ∧ slots g !! i = Some p.

Definition slot_id (i : nat) : Z := 3 + Z.of_nat i.

(** Messages of payloads and of a frame's answer. *)
Definition packed (i : nat) (payloads : list bytes) : list ControlMessage :=
  packed_msg (slot_id i) <$> payloads.
Definition answer_payloads (r : option (Z * bytes)) : list bytes :=
  match r with Some (_, p) => [p] | None => [] end.

Lemma with_gamepad_say {A} (f : nat → cmd GamepadHid Error A) ms s :
  with_gamepad f (say ms s) = ((with_gamepad f s).1, say ms (with_gamepad f s).2).
Proof.
  unfold with_gamepad. destruct s as [lnk kb mo [g|] [i|] hid [] w h]; try done. cbn.
  by destruct (f i g) as [o g'].
Qed.

(** A frame is accepted and answered for the session's slot, if it is answered. *)
Lemma frame_step i fr s :
  playing i s → frame_wf fr →
  ∃ r s', with_gamepad (full_frame fr) s = (Ok r, s') ∧ playing i s' ∧ link s' = link s ∧
    match r with Some (id, _) => id = slot_id i | None => True end.
Proof.
  intros (Hc & Hi & g & p & Hg & Hwf & Hp) Hfr.
  destruct (raw_op_spec (frame_op fr) g i p Hwf) as (r & p' & Hr & Hwf' & Hid & _ & Hm);
    [apply Hfr|done|].
  change (raw_op (frame_op fr) i g) with (full_frame fr i g) in Hr.
  unfold with_gamepad. rewrite Hc, Hi, Hg, Hr. eexists r, _. split; [done|].
  split; [|split; [done|by destruct r as [[id payload]|]; [apply Hm|]]].
  split; [done|]. split; [done|]. exists (store i p' g), p'. split; [done|]. split; [done|].
  unfold store. cbn. apply list_lookup_insert_eq. by apply lookup_lt_Some in Hp.
Qed.

Lemma push_answer i r s :
  match r with Some (id, _) => id = slot_id i | None => True end →
  push_changed r s = (Ok tt, say (packed i (answer_payloads r)) s).
Proof. destruct r as [[id p]|]; [by intros ->|]. intros _. by rewrite say_nil. Qed.

(** One frame over a log that has grown by the pending payloads. *)
Lemma set_frame_raw_say i fr ms s r s' :
  with_gamepad (full_frame fr) s = (Ok r, s') →
  match r with Some (id, _) => id = slot_id i | None => True end →
  set_frame_raw fr (say ms s) = (Ok tt, say (ms ++ packed i (answer_payloads r)) s').
Proof.
  intros H Hr. unfold set_frame_raw.
  rewrite (bind_ok _ _ _ r (say ms s')) by (rewrite with_gamepad_say; by rewrite H).
  by rewrite (push_answer i), say_say.
Qed.

Lemma packed_app i l l' : packed i (l ++ l') = packed i l ++ packed i l'.
Proof. apply fmap_app. Qed.

(** The loop leaves the last payloads to its caller; what is logged and what is left is
    what the frames log one by one. *)
Lemma frame_loop i fs batch bid n s :
  playing i s → Forall frame_wf fs →
  (bid = None ∧ batch = [] ∨ bid = Some (slot_id i)) →
  ∃ batch' bid' n' s',
    frame_batch_loop fs batch bid n s = (Ok (batch', bid', n'), s') ∧
    for_each fs set_frame_raw (say (packed i batch) s) = (Ok tt, say (packed i batch') s') ∧
    (bid' = None ∧ batch' = [] ∨ bid' = Some (slot_id i)) ∧
    n' - n + Z.of_nat (length (msgs (say (packed i batch) s)))
    = Z.of_nat (length (msgs (say (packed i batch') s'))).
Proof.
  intros Hs Hfs. revert batch bid n s Hs.
  induction Hfs as [|fr fs Hfr _ IH]; intros batch bid n s Hs Hbid.
  { exists batch, bid, n, s. split_and!; [done..|]. lia. }
  destruct (frame_step i fr s Hs Hfr) as (r & s1 & Hr & Hs1 & Hl1 & Hid).
  cbn [frame_batch_loop]. rewrite (bind_ok _ _ _ _ _ Hr), for_each_cons.
  rewrite (set_frame_raw_say i fr _ s r s1 Hr Hid), <-packed_app.
  destruct r as [[id p]|]; cbn [answer_payloads].
  2: { destruct (IH batch bid n s1 Hs1 Hbid) as (b' & bid' & n' & s' & H1 & H2 & H3 & H4).
       exists b', bid', n', s'. rewrite app_nil_r. split_and!; [done..|].
       rewrite !msgs_say in *. unfold msgs in *. by rewrite Hl1 in H4. }
  subst id. assert (default (slot_id i) bid = slot_id i) as -> by (by destruct Hbid as [[-> _]| ->]).
  cbn zeta. case_decide as Hfull.
  - destruct (IH [] (Some (slot_id i)) (n + 1) (say (packed i (batch ++ [p])) s1))
      as (b' & bid' & n' & s' & H1 & H2 & H3 & H4); [done|by right|].
    rewrite (bind_ok _ _ s1 tt (say (packed i (batch ++ [p])) s1)) by done.
    exists b', bid', n', s'. split_and!; [done| |done|].
    + rewrite say_nil in H2. done.
    + revert H4. rewrite !msgs_say, ?packed_app, !length_app. unfold msgs. rewrite Hl1.
      cbn [packed fmap list_fmap length]. lia.
  - destruct (IH (batch ++ [p]) (Some (slot_id i)) (n + 1) s1)
      as (b' & bid' & n' & s' & H1 & H2 & H3 & H4); [done|by right|].
    exists b', bid', n', s'. split_and!; [done..|].
    revert H4. rewrite !msgs_say, ?packed_app, !length_app. unfold msgs. rewrite Hl1.
      cbn [packed fmap list_fmap length]. lia.
Qed.

(** ** Properties *)

(** In a session with an open gamepad over a writer that accepts everything,
    [set_frame_raw_batch] logs exactly the messages, and leaves exactly the driver, that
    [set_frame_raw] called on each frame in turn does - unchanged frames skipped, whatever
    the number of frames and however they fill the packets of sixteen - and returns the
    number of messages it logged. *)
Theorem batch_is_frames (i : nat) (s : L) (fs : list GamepadFrameRaw)
    (Hs : playing i s) (Hfs : Forall frame_wf fs) :
  ∃ s', for_each fs set_frame_raw s = (Ok tt, s') ∧
        set_frame_raw_batch fs s =
          (Ok (Z.of_nat (length (msgs s')) - Z.of_nat (length (msgs s))), s').
Proof.
  destruct fs as [|fr [|fr' fs]]; cbn [set_frame_raw_batch].
  - exists s. split; [done|]. by rewrite Z.sub_diag.
  - apply Forall_cons in Hfs as [Hfr _].
    destruct (frame_step i fr s Hs Hfr) as (r & s1 & Hr & Hs1 & Hl1 & Hid).
    exists (say (packed i (answer_payloads r)) s1). split.
    + rewrite for_each_cons, <-(say_nil s), (set_frame_raw_say i fr [] s r s1 Hr Hid). done.
    + rewrite (bind_ok _ _ _ _ _ Hr), (bind_ok _ _ _ _ _ (push_answer i r s1 Hid)).
      rewrite msgs_say. unfold msgs. rewrite Hl1, length_app. unfold packed.
      rewrite length_fmap. destruct r as [[id p]|]; run; do 2 f_equal; cbn; lia.
  - destruct (frame_loop i (fr :: fr' :: fs) [] None 0 s Hs Hfs) as
      (b & bid & n & s' & H1 & H2 & H3 & H4); [by left|].
    exists (say (packed i b) s'). rewrite say_nil in H2. split; [done|].
    assert (with_gamepad (λ _, mret tt) s = (Ok tt, s)) as Hw.
    { destruct Hs as (Hc & Hi & g & p & Hg & _). unfold with_gamepad. rewrite Hc, Hi, Hg.
      destruct s. cbn in *. by subst. }
    rewrite (bind_ok _ _ _ _ _ Hw), (bind_ok _ _ _ _ _ H1).
    rewrite msgs_say, app_nil_r in H4.
    assert (n = Z.of_nat (length (msgs (say (packed i b) s'))) - Z.of_nat (length (msgs s))) as ->
      by lia.
    destruct H3 as [[-> ->]| ->]; [by rewrite say_nil|].
    destruct b as [|p b]; [by rewrite say_nil|done].
Qed.

(** ** Witnesses *)

Definition sample_frames : list GamepadFrameRaw :=
  [mkFrame 1 0 0 0 0 0 0; mkFrame 1 0 0 0 0 0 0; mkFrame 0 5 (-5) 0 0 0 0].

Lemma batch_is_frames_witness :
  let s := (open (mkLog []) gamepad_only).2 in
  playing 0 s ∧ Forall frame_wf sample_frames ∧
  (set_frame_raw_batch sample_frames s).1 = Ok 2.
Proof.
  intros s.
  assert (playing 0 s) as Hs.
  { split; [done|]. split; [done|]. eexists _, _. split; [by vm_compute|]. split; [|done].
    exact opened_gamepad_wf. }
  assert (Forall frame_wf sample_frames) as Hf.
  { repeat (apply Forall_cons; split); try apply Forall_nil; by vm_compute. }
  split; [exact Hs|]. split; [exact Hf|].
  destruct (batch_is_frames 0 s sample_frames Hs Hf) as (s' & Hr & Hb).
  assert (s' = (for_each sample_frames set_frame_raw s).2) as -> by (by rewrite Hr).
  rewrite Hb. by vm_compute.
Defined.
