(* ===== verification/Faults.v ===== *)
(** * When the transport fails, and after closing

    The guards of the session over an arbitrary writer, whose every call may succeed, fail
    or unwind: what a chord and a tap leave behind, what a retried close does, what a close misses after a driver was lent, and which
    methods a closed session refuses. *)

From S2P Require Import Prelude Words Errors Types Utf8 Float32 Message Transport Descriptor.
From S2P Require Import Keyboard Mouse Gamepad Coalesce Sink Session Touch Refinement.
From S2P Require Import SessionInv.
Local Open Scope Z_scope.

Section Faults.
Context {W : Type} `{!MessageSink W}.
Implicit Types s : HidSession W.

Lemma send_run m s :
  send m s = ((sink_push m (link s)).1, set_link (sink_push m (link s)).2 s).
Proof. unfold send, on_link, zoom. by destruct (sink_push m (link s)). Qed.

Lemma set_link_set l l' s : set_link l' (set_link l s) = set_link l' s.
Proof. done. Qed.

(** ** Chords *)

(** The driver's update of a key does not depend on the writer. *)
Lemma key_driver sc p m s kb :
  kbd s = Some kb → kbd (key sc p m s).2 = Some (inject_key sc p m kb).2.
Proof.
  intros Hk. unfold key, on_kbd. run. rewrite Hk, <-key_event_state.
  destruct (key_event sc p m kb) as [[msg|e|] kb']; [|done..]. rewrite send_run. done.
Qed.

(** The session's keyboard after the last release of a chord. *)
Definition released (sc : Z) (kb kb' : KeyboardHid) : Prop :=
  keyboard_wf kb' ∧ (valid_usage sc → device_mod kb' = Modifiers_empty) ∧
  ∀ k, k ∈ held_keys kb' ↔ k ∈ held_keys kb ∧ k ≠ sc.

(** Keyboards that hold the same keys, [sc] apart; the same keyboard when the driver
    refuses [sc]. *)
Definition same_but (sc : Z) (kb kb' : KeyboardHid) : Prop :=
  keyboard_wf kb' ∧ (valid_usage sc ∨ kb' = kb) ∧
  ∀ k, k ≠ sc → k ∈ held_keys kb' ↔ k ∈ held_keys kb.

Lemma inject_same_but sc p m kb kb' :
  u8 sc → u8 m → same_but sc kb kb' → same_but sc kb (inject_key sc p m kb').2.
Proof.
  intros Hsc Hm (Hwf & Hv & Hs). split; [by apply inject_key_wf|]. split.
  - rewrite inject_key_run by done. case_decide; [by left|by right; destruct Hv].
  - intros k Hk. rewrite inject_key_held by done. rewrite decide_False by tauto. by apply Hs.
Qed.

Lemma high_not_held sc kb : keyboard_wf kb → ¬ 0 ≤ sc ≤ 0x65 → sc ∉ held_keys kb.
Proof.
  intros Hw Hne Hin. pose proof (held_range kb Hw) as Hr. rewrite Forall_forall in Hr.
  by apply Hne, Hr.
Qed.

Lemma inject_releases sc kb kb' :
  u8 sc → same_but sc kb kb' → keyboard_wf kb →
  released sc kb (inject_key sc false Modifiers_empty kb').2.
Proof.
  intros Hsc (Hwf & _ & Hs) Hkb. split; [by apply inject_key_wf|]. split.
  - intros Hval. rewrite inject_key_run by done. by rewrite decide_True.
  - intros k. rewrite inject_key_held by done.
    destruct (decide (k = sc)) as [->|Hk].
    + case_decide as Hr; [by split; [|intros [_ []]]|].
      assert (¬ 0 ≤ sc ≤ 0x65) as Hne by tauto.
      split; [|intros [_ []]; done]. intros Hin. by destruct (high_not_held sc kb' Hwf Hne).
    + rewrite decide_False by tauto. rewrite Hs by done. tauto.
Qed.

(** A key event leaves a keyboard that differs from the chord's only in its key. *)
Lemma key_keeps_but sc p m s kb kb' :
  u8 sc → u8 m → kbd s = Some kb' → same_but sc kb kb' →
  ∃ o s1 kb1, key sc p m s = (o, s1) ∧ kbd s1 = Some kb1 ∧ same_but sc kb kb1 ∧
    (p = false → m = Modifiers_empty → keyboard_wf kb → released sc kb kb1).
Proof.
  intros Hsc Hm Hk Hs. pose proof (key_driver sc p m s kb' Hk) as H.
  destruct (key sc p m s) as [o s1]. exists o, s1, (inject_key sc p m kb').2.
  split; [done|]. split; [done|]. split; [by apply inject_same_but|].
  intros -> -> Hwf. by apply inject_releases.
Qed.

(** ** Closing *)

(** The events of the gamepad that reach its checks. *)
Definition plays (c : Call) : Prop :=
  match c with
  | C_set_stick _ _ | C_set_stick_raw _ _ | C_set_buttons _ | C_set_button _ _
  | C_set_left_stick_raw _ _ | C_set_right_stick_raw _ _ | C_set_triggers_raw _ _
  | C_set_sticks_raw _ _ _ _ _ _ | C_set_frame_raw _ | C_set_frame_raw_unchecked _
  | C_set_frame_raw_packed _ => True
  | C_set_frame_raw_batch fs | C_set_frame_raw_batch_unchecked fs => fs ≠ []
  | C_set_frame_raw_packed_batch fs => fs ≠ []
  | C_inject_raw_gamepad_report p => p ≠ [] ∧ (length p ≤ HID_MAX_SIZE)%nat
  | _ => False
  end.

Lemma with_gamepad_closed {A B} (f : nat → cmd GamepadHid Error A) k s :
  closed s = true →
  (with_gamepad f ≫= k) s = (Err (A := B) (SessionLifecycle "session closed"), s).
Proof. intros H. unfold with_gamepad. run. by rewrite H. Qed.

Lemma hid_id_closed {B} (k : Z → cmd (HidSession W) Error B) s :
  closed s = true →
  (get_gamepad_hid_id ≫= k) s = (Err (SessionLifecycle "session closed"), s).
Proof. intros H. unfold get_gamepad_hid_id. run. by rewrite H. Qed.

(** The slot of the session's gamepad closes once. *)
Lemma close_slot_once g :
  slots g !! 0%nat = Some (reset_slot HID_ID_GAMEPAD_FIRST) →
  close_slot_idx 0 g =
  (Ok (Cm_UhidDestroy (mkUhidDestroy HID_ID_GAMEPAD_FIRST)),
   store 0 (set_gamepad_id GAMEPAD_ID_INVALID (reset_slot HID_ID_GAMEPAD_FIRST)) g).
Proof.
  intros H. unfold close_slot_idx. rewrite decide_False by (unfold MAX_GAMEPADS; lia). run.
  rewrite (get_slot_run g 0%nat _ H). rewrite decide_False by done.
  by rewrite (set_slot_run g 0%nat _ _ H).
Qed.

Lemma close_slot_twice g :
  slots g !! 0%nat =
    Some (set_gamepad_id GAMEPAD_ID_INVALID (reset_slot HID_ID_GAMEPAD_FIRST)) →
  close_slot_idx 0 g = (Err (UnknownGamepad 0), g).
Proof.
  intros H. unfold close_slot_idx. rewrite decide_False by (unfold MAX_GAMEPADS; lia). run.
  rewrite (get_slot_run g 0%nat _ H). by rewrite decide_True.
Qed.

(** ** Properties *)

(** Whatever the writer does - succeed, fail or unwind at any of its calls - a
    [key_chord] leaves in the keyboard driver the keys held before it without the chord's
    key, and no modifiers (a scancode the driver refuses changes no key). *)
Theorem key_chord_releases (m sc : Z) s kb
    (Hk : kbd s = Some kb) (Hwf : keyboard_wf kb) (Hsc : u8 sc) (Hm : u8 m) :
  ∃ kb', kbd (key_chord m sc s).2 = Some kb' ∧ released sc kb kb'.
Proof.
  assert (same_but sc kb kb) as Hs0 by (split; [done|split; [by right|done]]).
  assert (u8 Modifiers_empty) as He by by split.
  assert (∀ s0 kb0, kbd s0 = Some kb0 → same_but sc kb kb0 → ∀ o,
    ∃ kb', kbd (match ignore_err (key sc false Modifiers_empty) s0 with
                | (Panicked, s') => (Panicked, s')
                | (_, s') => (o, s')
                end : outcome Error unit * _).2 = Some kb' ∧ released sc kb kb') as Hclean.
  { intros s0 kb0 Hk0 H0 o. unfold ignore_err.
    destruct (key_keeps_but sc false Modifiers_empty s0 kb kb0) as (o1 & s1 & kb1 & -> & ? & _ & Hr);
      [done..|]. exists kb1. split; [by destruct o1|by apply Hr]. }
  unfold key_chord, guarded.
  destruct (key_keeps_but sc true m s kb kb) as (o1 & s1 & kb1 & H1 & Hk1 & Hs1 & _); [done..|].
  destruct o1 as [[]|e|];
    [rewrite (bind_ok _ _ _ _ _ H1)|unfold mbind, cmd_bind; rewrite H1; by eapply Hclean..].
  destruct (key_keeps_but sc false m s1 kb kb1) as (o2 & s2 & kb2 & H2 & Hk2 & Hs2 & _); [done..|].
  destruct o2 as [[]|e|];
    [rewrite (bind_ok _ _ _ _ _ H2)|unfold mbind, cmd_bind; rewrite H2; by eapply Hclean..].
  destruct (key_keeps_but sc false Modifiers_empty s2 kb kb2)
    as (o3 & s3 & kb3 & H3 & Hk3 & Hs3 & Hr); [done..|].
  rewrite H3. destruct o3 as [[]|e|]; [|by eapply Hclean..].
  exists kb3. split; [done|by apply Hr].
Qed.

(** what [tap_pointer] sends over an arbitrary writer: when the DOWN is refused,
    nothing more and its error; when the DOWN and the UP are accepted, these two; and when
    the UP fails, the guard sends a second UP, at (0, 0), and the tap still returns the
    first UP's error, whatever becomes of the second - unless it unwinds. *)
Theorem tap_releases_on_failure (p x y : Z) s :
  let down := touch_msg ACTION_DOWN p x y one s in
  let up := touch_msg ACTION_UP p x y zero s in
  let release := touch_msg ACTION_UP p 0 0 zero s in
  tap_pointer p x y s =
  match sink_push down (link s) with
  | (Ok _, l1) =>
      match sink_push up l1 with
      | (Ok _, l2) => (Ok tt, set_link l2 s)
      | (o, l2) =>
          match sink_push release l2 with
          | (Panicked, l3) => (Panicked, set_link l3 s)
          | (_, l3) => (o, set_link l3 s)
          end
      end
  | (o, l1) => (o, set_link l1 s)
  end.
Proof.
  intros down up release.
  assert (∀ A (c : cmd (HidSession W) Error A) (q : HidSession W * list Z),
    on_session c q = ((c q.1).1, ((c q.1).2, q.2))) as Hon.
  { intros A c q. unfold on_session, zoom. by destruct (c q.1). }
  assert (∀ a x y pr (s0 : HidSession W), screen_w s0 = screen_w s → screen_h s0 = screen_h s →
    inject_touch a p x y pr s0 = send (touch_msg a p x y pr s) s0) as Ht.
  { intros a x0 y0 pr s0 Hw Hh. unfold inject_touch, touch_msg. run. by rewrite Hw, Hh. }
  unfold tap_pointer, touch_guard, guarded, release_pressed, ignore_err. run.
  rewrite Hon. cbn [fst snd]. rewrite send_run. fold down.
  destruct (sink_push down (link s)) as [[[]|e|] l1]; cbn [fst snd reverse app]; [|done..].
  unfold mark_pressed. run. rewrite Hon. cbn [fst snd app]. rewrite send_run. cbn [link set_link].
  change (touch_msg ACTION_UP p x y zero (set_link l1 s)) with up.
  destruct (sink_push up l1) as [[[]|e|] l2]; cbn [fst snd]; rewrite ?set_link_set.
  - unfold mark_released. cbn. by rewrite decide_True.
  - change (reverse [p]) with [p]. cbn [for_each]. run.
    rewrite Hon. cbn [fst snd]. rewrite Ht, send_run by done. fold release. cbn [link set_link].
    by destruct (sink_push release l2) as [[[]|e'|] l3].
  - change (reverse [p]) with [p]. cbn [for_each]. run.
    rewrite Hon. cbn [fst snd]. rewrite Ht, send_run by done. fold release. cbn [link set_link].
    by destruct (sink_push release l2) as [[[]|e'|] l3].
Qed.

(** when the UHID_DESTROY of a session's gamepad fails to be sent, [close] reports the
    error and the session stays open, but the gamepad's slot is already free: closing
    again sends nothing at all for the gamepad, succeeds and marks the session closed, so
    that the device is never destroyed. *)
Theorem close_retry_skips_gamepad s g l1 e
    (Hc : closed s = false) (Hk : kbd s = None) (Hm : mouse s = None)
    (Hg : gamepad s = Some g) (Hids : slots g !! 0%nat = Some (reset_slot HID_ID_GAMEPAD_FIRST))
    (Hslot : gamepad_slot s = Some 0%nat)
    (Hfail : sink_push (Cm_UhidDestroy (mkUhidDestroy HID_ID_GAMEPAD_FIRST)) (link s) = (Err e, l1)) :
  let '(o1, s1) := close s in
  let '(o2, s2) := close s1 in
  o1 = Err e ∧ closed s1 = false ∧ link s1 = l1 ∧
  o2 = Ok tt ∧ closed s2 = true ∧ link s2 = l1.
Proof.
  assert (∀ s0, closed s0 = false → kbd s0 = None → mouse s0 = None →
    close s0 = (close_gamepad;; modify (set_closed true)) s0) as Hclose.
  { intros s0 H1 H2 H3. unfold close, try_close_all. run. by rewrite H1, H2, H3. }
  set (g' := store 0 (set_gamepad_id GAMEPAD_ID_INVALID (reset_slot HID_ID_GAMEPAD_FIRST)) g).
  set (s0 := set_gamepad (Some g') (Some 0%nat) (gamepad_hid_id s) s).
  assert (close s = (Err e, set_link l1 s0)) as ->.
  { rewrite Hclose by done. unfold close_gamepad. run.
    rewrite Hg, Hslot, (close_slot_once g Hids), send_run.
    unfold g' in s0. fold s0. change (link s0) with (link s).
    by rewrite Hfail. }
  assert (slots g' !! 0%nat = Some (set_gamepad_id GAMEPAD_ID_INVALID (reset_slot HID_ID_GAMEPAD_FIRST)))
    as Hids'.
  { unfold g'. cbn. apply list_lookup_insert_eq. by apply lookup_lt_Some in Hids. }
  rewrite Hclose by done. unfold close_gamepad. run. unfold s0. cbn [gamepad gamepad_slot set_link set_gamepad].
  by rewrite (close_slot_twice g' Hids').
Qed.

(** a closed session refuses every gamepad event that reaches its checks with
    "session closed", sends nothing and changes nothing, and closing it again does
    nothing; but only the gamepad methods check: [send] still sends, and so does [key],
    whose driver was never dropped. *)
Theorem closed_session_refuses s (Hc : closed s = true) :
  (∀ c, plays c → run_call c s = (Err (SessionLifecycle "session closed"), s)) ∧
  run_call C_close s = (Ok tt, s) ∧
  (∀ m, run_call (C_send m) s =
        ((sink_push m (link s)).1, set_link (sink_push m (link s)).2 s)) ∧
  (∀ sc p m kb msg kb', kbd s = Some kb → key_event sc p m kb = (Ok msg, kb') →
   run_call (C_key sc p m) s =
     ((sink_push msg (link s)).1, set_link (sink_push msg (link s)).2 (set_kbd (Some kb') s))).
Proof.
  split_and!.
  - assert (∀ A (f : nat → cmd GamepadHid Error A),
      with_gamepad f s = (Err (SessionLifecycle "session closed"), s)) as Hw.
    { intros A f. unfold with_gamepad. by rewrite Hc. }
    assert (get_gamepad_hid_id s = (Err (SessionLifecycle "session closed"), s)) as Hi.
    { unfold get_gamepad_hid_id. by rewrite Hc. }
    intros c Hp. destruct c; try done; cbn [plays run_call] in *;
      try (by apply with_gamepad_closed); try (by apply hid_id_closed).
    + unfold inject_raw_gamepad_report. destruct Hp as [Hne Hlen].
      rewrite decide_False, decide_False by lia || done. by apply hid_id_closed.
    + destruct frames as [|fr [|fr' fs]]; [done|cbn [set_frame_raw_batch]; run; by rewrite Hw..].
    + destruct frames as [|fr [|fr' fs]]; [done|..]; unfold set_frame_raw_batch_unchecked,
        set_frame_raw_unchecked; run; by rewrite Hi.
    + destruct frames as [|fr [|fr' fs]]; [done|..]; unfold set_frame_raw_packed_batch,
        set_frame_raw_packed; run; by rewrite Hi.
  - cbn [run_call]. unfold close, try_close_all. run. by rewrite Hc.
  - intros m. apply send_run.
  - intros sc p m kb msg kb' Hk He. cbn [run_call]. unfold key, on_kbd. run.
    rewrite Hk, He. apply (send_run msg (set_kbd (Some kb') s)).
Qed.
End Faults.

(** ** Witnesses *)

(** A keyboard that holds A and C. *)
Definition holding_two : KeyboardHid := play [mkKeyEvent 4 true 0; mkKeyEvent 6 true 0] Keyboard_new.

(** A keyboard session whose transport dies after the open. *)
Definition dying_session : HidSession (CoalescingWriter Scripted) :=
  set_kbd (Some holding_two)
    (open (connect (mkScripted [] ([None; None] ++ replicate 8 (Some 0%nat))) kbd_only Z.of_nat)
       kbd_only).2.

Lemma key_chord_releases_witness :
  keyboard_wf holding_two ∧ held_keys holding_two = [4; 6] ∧
  ∃ kb', kbd (key_chord LCTRL 6 dying_session).2 = Some kb' ∧ released 6 holding_two kb'.
Proof.
  assert (keyboard_wf holding_two) as Hwf.
  { apply play_wf. repeat constructor; cbn; lia. }
  split; [exact Hwf|]. split; [by vm_compute|].
  exact (key_chord_releases LCTRL 6 dying_session holding_two eq_refl Hwf ltac:(by split)
           ltac:(by split)).
Defined.

(** A gamepad session whose third write fails. *)
Definition flaky_session : HidSession (CoalescingWriter Scripted) :=
  (open (connect (mkScripted [] [None; None; Some 0%nat]) gamepad_only Z.of_nat) gamepad_only).2.

Lemma close_retry_skips_gamepad_witness :
  let '(o1, s1) := close flaky_session in
  let '(o2, s2) := close s1 in
  o1 = Err (Transport "scripted") ∧ o2 = Ok tt ∧ closed s2 = true.
Proof.
  assert (∃ g l1, gamepad flaky_session = Some g ∧
    slots g !! 0%nat = Some (reset_slot HID_ID_GAMEPAD_FIRST) ∧
    sink_push (Cm_UhidDestroy (mkUhidDestroy HID_ID_GAMEPAD_FIRST)) (link flaky_session)
      = (Err (Transport "scripted"), l1)) as (g & l1 & Hg & Hids & Hf).
  { eexists _, _. split; [by vm_compute|]. split; by vm_compute. }
  pose proof (close_retry_skips_gamepad flaky_session g l1 _ eq_refl eq_refl eq_refl Hg Hids
    eq_refl Hf) as H.
  destruct (close flaky_session) as [o1 s1]. destruct (close s1) as [o2 s2].
  destruct H as (H1 & _ & _ & H2 & H3 & _). split; [exact H1|]. split; [exact H2|exact H3].
Defined.

(** A keyboard session that was closed. *)
Definition closed_sample : L := (close (open (mkLog []) kbd_only).2).2.

Lemma closed_session_refuses_witness :
  closed closed_sample = true ∧
  run_call (C_set_buttons 1) closed_sample
  = (Err (SessionLifecycle "session closed"), closed_sample).
Proof.
  split; [reflexivity|].
  exact (proj1 (closed_session_refuses closed_sample eq_refl) (C_set_buttons 1) I).
Defined.

(** A driver that was lent goes around the session.  Whoever frees the slot through
    [gamepad()] keeps [close] from announcing it: the close succeeds, the keyboard and the
    mouse are destroyed, and the gamepad stays registered at the device. *)
Lemma lent_gamepad_not_destroyed :
  let s := (gamepad_driver (Gamepad.close HID_ID_GAMEPAD_FIRST) (open (mkLog []) request_all).2).2 in
  let '(o, s') := Session.close s in
  o = Ok tt ∧ closed s' = true ∧
  logged (link s') = logged (link s) ++
    [Cm_UhidDestroy (mkUhidDestroy HID_ID_KEYBOARD); Cm_UhidDestroy (mkUhidDestroy HID_ID_MOUSE)] ∧
  is_Some (list_find (λ m, bool_decide (m = Cm_UhidDestroy (mkUhidDestroy HID_ID_GAMEPAD_FIRST)))
             (logged (link (Session.close (open (mkLog []) request_all).2).2))).
Proof. vm_compute. naive_solver. Qed.
