(* ===== verification/GamepadRing.v ===== *)
(** * The frame ring of the gamepad fast path ([src/src/gamepad_ring.rs])

    [push] and [pop] as the sequences of loads and stores they are, and the two threads
    that run them as a step relation: one producer and one consumer interleave at every
    atomic access.  A load of the other thread's index may return any value of its
    history from the last one seen on, so staleness is part of the model; what an
    Acquire load synchronizes with is tracked by a ghost counter. *)

From stdpp Require Import relations.
From S2P Require Import Prelude Words Float32 Gamepad Coalesce.
Local Open Scope Z_scope.

Definition RING_CAPACITY : Z := 8.

Inductive TryPushError : Set := Full_ring.

(** [usize] is 64 bits wide; an uninitialised slot is [None]. *)
Record GamepadFrameRing : Set := mkRing
  { head : Z; tail : Z; ring_slots : list (option GamepadFrameRaw) }.

Definition Ring_new : GamepadFrameRing := mkRing 0 0 (replicate (Z.to_nat RING_CAPACITY) None).

Definition capacity (r : GamepadFrameRing) : Z := RING_CAPACITY.
Definition ring_len (r : GamepadFrameRing) : Z :=
  Z.min (wrap 64 (head r - tail r)) RING_CAPACITY.
Definition is_empty (r : GamepadFrameRing) : bool := ring_len r =? 0.

(** ** The accesses *)

Definition ring_full (h t : Z) : bool := RING_CAPACITY <=? wrap 64 (h - t).
Definition slot_of (i : Z) : nat := Z.to_nat (i mod RING_CAPACITY).

Definition write_slot (h : Z) (frame : GamepadFrameRaw) (r : GamepadFrameRing) : GamepadFrameRing :=
  mkRing (head r) (tail r) (<[slot_of h := Some frame]> (ring_slots r)).
Definition store_head (h : Z) (r : GamepadFrameRing) : GamepadFrameRing :=
  mkRing (wrap 64 (h + 1)) (tail r) (ring_slots r).
Definition store_tail (t : Z) (r : GamepadFrameRing) : GamepadFrameRing :=
  mkRing (head r) (wrap 64 (t + 1)) (ring_slots r).

(** [assume_init_read]: undefined on a slot never written. *)
Definition read_slot (t : Z) (r : GamepadFrameRing) : option GamepadFrameRaw :=
  mjoin (ring_slots r !! slot_of t).

Definition push (frame : GamepadFrameRaw) : cmd GamepadFrameRing TryPushError unit :=
  h ← read head;
  t ← read tail;
  if ring_full h t then raise Full_ring
  else
    modify (write_slot h frame);;
    modify (store_head h).

(** An unwind stands for the undefined behaviour of an uninitialised read. *)
Definition pop : cmd GamepadFrameRing TryPushError (option GamepadFrameRaw) :=
  t ← read tail;
  h ← read head;
  if decide (h = t) then mret None
  else
    frame ← (λ r, (or_panic (read_slot t r), r));
    modify (store_tail t);;
    mret (Some frame).

(** ** Two threads *)

(** Where the producer is inside [push], with its locals. *)
Inductive Producer : Set :=
  | P_idle
  | P_head (frame : GamepadFrameRaw) (h : Z)
  | P_ready (frame : GamepadFrameRaw) (h : Z)
  | P_written (frame : GamepadFrameRaw) (h : Z).

(** Where the consumer is inside [pop]. *)
Inductive Consumer : Set :=
  | C_idle
  | C_tail (t : Z)
  | C_ready (t : Z)
  | C_read (t : Z) (frame : GamepadFrameRaw).

(** The ordering of the producer's load of [tail]; the source has [Relaxed]. *)
Inductive Ordering : Set := Relaxed | Acquire.

(** The shared ring, the threads, the last counts each has seen of the other, the count of
    pops the producer has synchronized with, and the frames published and taken. *)
Record World : Set := mkWorld
  { ring : GamepadFrameRing; producer : Producer; consumer : Consumer;
    tail_seen : nat; head_seen : nat; synced : nat;
    pushed_frames : list GamepadFrameRaw; popped_frames : list GamepadFrameRaw }.

Definition World_new : World := mkWorld Ring_new P_idle C_idle 0 0 0 [] [].

Definition set_producer (p : Producer) (w : World) : World :=
  mkWorld (ring w) p (consumer w) (tail_seen w) (head_seen w) (synced w) (pushed_frames w)
    (popped_frames w).
Definition set_consumer (c : Consumer) (w : World) : World :=
  mkWorld (ring w) (producer w) c (tail_seen w) (head_seen w) (synced w) (pushed_frames w)
    (popped_frames w).
Definition set_ring (r : GamepadFrameRing) (w : World) : World :=
  mkWorld r (producer w) (consumer w) (tail_seen w) (head_seen w) (synced w) (pushed_frames w)
    (popped_frames w).

(** The number of frames published, and taken. *)
Definition published (w : World) : nat := length (pushed_frames w).
Definition taken (w : World) : nat := length (popped_frames w).

(** The producer has loaded the [k]-th value of [tail]. *)
Definition see_tail (order : Ordering) (k : nat) (w : World) : World :=
  mkWorld (ring w) (producer w) (consumer w) k (head_seen w)
    (match order with Acquire => k | Relaxed => synced w end) (pushed_frames w) (popped_frames w).
Definition see_head (k : nat) (w : World) : World :=
  mkWorld (ring w) (producer w) (consumer w) (tail_seen w) k (synced w) (pushed_frames w)
    (popped_frames w).
Definition publish (frame : GamepadFrameRaw) (w : World) : World :=
  mkWorld (ring w) (producer w) (consumer w) (tail_seen w) (head_seen w) (synced w)
    (pushed_frames w ++ [frame]) (popped_frames w).
Definition take_frame (frame : GamepadFrameRaw) (w : World) : World :=
  mkWorld (ring w) (producer w) (consumer w) (tail_seen w) (head_seen w) (synced w)
    (pushed_frames w) (popped_frames w ++ [frame]).

(** Each thread's index is its own, so it loads its latest value. *)
Inductive ring_step (order : Ordering) : World → World → Prop :=
  | step_push_head w frame :
      producer w = P_idle →
      ring_step order w (set_producer (P_head frame (head (ring w))) w)
  | step_push_tail w frame h k :
      producer w = P_head frame h →
      (tail_seen w ≤ k ≤ taken w)%nat →
      ring_step order w
        (set_producer (if ring_full h (wrap 64 (Z.of_nat k)) then P_idle else P_ready frame h)
           (see_tail order k w))
  | step_push_write w frame h :
      producer w = P_ready frame h →
      ring_step order w
        (set_producer (P_written frame h) (set_ring (write_slot h frame (ring w)) w))
  | step_push_publish w frame h :
      producer w = P_written frame h →
      ring_step order w
        (set_producer P_idle (publish frame (set_ring (store_head h (ring w)) w)))
  | step_pop_tail w :
      consumer w = C_idle →
      ring_step order w (set_consumer (C_tail (tail (ring w))) w)
  | step_pop_head w t k :
      consumer w = C_tail t →
      (head_seen w ≤ k ≤ published w)%nat →
      ring_step order w
        (set_consumer (if decide (wrap 64 (Z.of_nat k) = t) then C_idle else C_ready t)
           (see_head k w))
  | step_pop_read w t frame :
      consumer w = C_ready t →
      read_slot t (ring w) = Some frame →
      ring_step order w (set_consumer (C_read t frame) w)
  | step_pop_publish w t frame :
      consumer w = C_read t frame →
      ring_step order w
        (set_consumer C_idle (take_frame frame (set_ring (store_tail t (ring w)) w))).

Definition ring_reachable (order : Ordering) (w : World) : Prop :=
  rtc (ring_step order) World_new w.

(** ** The invariant *)

(** Frame number [j] was published and is in its slot. *)
Definition in_slot (w : World) (j : nat) : Prop :=
  ∃ frame, pushed_frames w !! j = Some frame ∧
           ring_slots (ring w) !! slot_of (Z.of_nat j) = Some (Some frame).

Definition index (j : nat) : Z := wrap 64 (Z.of_nat j).

Definition producer_ok (w : World) : Prop :=
  match producer w with
  | P_idle => True
  | P_head _ h => h = index (published w)
  | P_ready _ h => h = index (published w) ∧ (published w < tail_seen w + 8)%nat
  | P_written frame h =>
      h = index (published w) ∧ (published w < tail_seen w + 8)%nat ∧
      ring_slots (ring w) !! slot_of (Z.of_nat (published w)) = Some (Some frame)
  end.

Definition consumer_ok (w : World) : Prop :=
  match consumer w with
  | C_idle => True
  | C_tail t => t = index (taken w)
  | C_ready t => t = index (taken w) ∧ (taken w < head_seen w)%nat
  | C_read t frame =>
      t = index (taken w) ∧ (taken w < head_seen w)%nat ∧
      pushed_frames w !! taken w = Some frame
  end.

Record ring_inv (w : World) : Prop := {
  inv_slots : length (ring_slots (ring w)) = 8%nat;
  inv_head : head (ring w) = index (published w);
  inv_tail : tail (ring w) = index (taken w);
  inv_order : (tail_seen w ≤ taken w ≤ head_seen w ∧ head_seen w ≤ published w)%nat;
  inv_room : (published w ≤ tail_seen w + 8)%nat;
  inv_fifo : popped_frames w `prefix_of` pushed_frames w;
  inv_stored : ∀ j, (taken w ≤ j < published w)%nat → in_slot w j;
  inv_producer : producer_ok w;
  inv_consumer : consumer_ok w;
}.

(** *** Indices *)

Lemma index_small_eq i j : (i ≤ j ≤ i + 8)%nat → index i = index j → i = j.
Proof.
  intros Hij H. unfold index, wrap in H.
  assert ((Z.of_nat j - Z.of_nat i) mod 2 ^ 64 = 0) as Hm.
  { rewrite Zminus_mod, H, Z.sub_diag. done. }
  rewrite Z.mod_small in Hm by (change (2 ^ 64) with 18446744073709551616; lia). lia.
Qed.

Lemma ring_full_spec i j :
  (i ≤ j ≤ i + 8)%nat → ring_full (index j) (index i) = bool_decide (8 ≤ j - i)%nat.
Proof.
  intros Hij. unfold ring_full, index, wrap. rewrite <-Zminus_mod.
  rewrite Z.mod_small by (change (2 ^ 64) with 18446744073709551616; lia).
  unfold RING_CAPACITY. case_bool_decide; [apply Z.leb_le|apply Z.leb_gt]; lia.
Qed.

Lemma slot_of_index j : slot_of (index j) = slot_of (Z.of_nat j).
Proof.
  unfold slot_of, index, wrap, RING_CAPACITY. f_equal.
  change (2 ^ 64) with (8 * 2 ^ 61). rewrite Z.rem_mul_r by done.
  rewrite (Z.mul_comm 8), Z_mod_plus_full, Z.mod_mod by done. done.
Qed.

Lemma slot_of_lt j : (slot_of (Z.of_nat j) < 8)%nat.
Proof. unfold slot_of, RING_CAPACITY. pose proof (Z.mod_pos_bound (Z.of_nat j) 8). lia. Qed.

Lemma slot_of_inj i j :
  (i ≤ j < i + 8)%nat → slot_of (Z.of_nat i) = slot_of (Z.of_nat j) → i = j.
Proof.
  unfold slot_of, RING_CAPACITY. intros Hij H.
  assert (Z.of_nat i mod 8 = Z.of_nat j mod 8) as Hm.
  { pose proof (Z.mod_pos_bound (Z.of_nat i) 8). pose proof (Z.mod_pos_bound (Z.of_nat j) 8). lia. }
  Z.div_mod_to_equations. lia.
Qed.

Lemma index_succ j : wrap 64 (index j + 1) = index (S j).
Proof.
  unfold index, wrap. rewrite Z.add_mod_idemp_l by done. f_equal. lia.
Qed.

(** *** Preservation *)

Lemma in_slot_write w j frame h :
  h = index (published w) → (published w ≤ j + 7)%nat → (j < published w)%nat →
  in_slot w j → in_slot (set_ring (write_slot h frame (ring w)) w) j.
Proof.
  intros -> Hlow Hj (fr & H1 & H2). exists fr. split; [done|]. cbn.
  rewrite slot_of_index, list_lookup_insert_ne; [done|]. intros H.
  apply eq_sym, slot_of_inj in H; lia.
Qed.

Lemma ring_inv_new : ring_inv World_new.
Proof. split; try done; cbn; lia. Qed.

Lemma ring_step_inv order w w' : ring_step order w w' → ring_inv w → ring_inv w'.
Proof.
  intros Hstep [Hsl Hh Ht Ho Hr Hf Hst Hp Hc]. unfold published, taken in *.
  destruct Hstep as [w frame Hpc|w frame h k Hpc Hk|w frame h Hpc|w frame h Hpc
                    |w Hcc|w t k Hcc Hk|w t frame Hcc Hread|w t frame Hcc];
    unfold producer_ok in Hp; unfold consumer_ok in Hc; unfold published, taken in *;
    rewrite ?Hpc in Hp; rewrite ?Hcc in Hc.
  - by split.
  - (* the producer sees a tail *)
    split; try done; unfold published, taken; cbn; [lia|lia|].
    fold (index k). subst h. unfold producer_ok, published. cbn.
    rewrite ring_full_spec by lia. case_bool_decide; cbn; [done|]. split; [done|lia].
  - (* it writes its slot *)
    destruct Hp as [-> Hlt].
    split; try done; unfold published, taken; cbn.
    + by rewrite length_insert.
    + intros j Hj. apply in_slot_write; [done|unfold published; lia|unfold published; lia|].
      by apply Hst.
    + unfold producer_ok, published. cbn. split; [done|]. split; [done|].
      rewrite slot_of_index, list_lookup_insert_eq; [done|]. rewrite Hsl. apply slot_of_lt.
  - (* it publishes the frame *)
    destruct Hp as (-> & Hlt & Hslot).
    split; try done; unfold published, taken; cbn; rewrite ?length_app; cbn.
    + rewrite index_succ. f_equal. lia.
    + lia.
    + lia.
    + by apply prefix_app_r.
    + intros j Hj. destruct (decide (j = length (pushed_frames w))) as [->|Hne].
      * exists frame. cbn. by rewrite lookup_app_r, Nat.sub_diag by lia.
      * destruct (Hst j) as (fr & H1 & H2); [lia|]. exists fr. cbn. split; [|done].
        rewrite lookup_app_l; [done|]. by apply lookup_lt_Some in H1.
    + unfold consumer_ok, taken in *. cbn in *.
      destruct (consumer w); [done|done|done|]. destruct Hc as (? & ? & H).
      split_and!; [done|done|]. rewrite lookup_app_l; [done|]. by apply lookup_lt_Some in H.
  - by split.
  - (* the consumer sees a head *)
    split; try done; unfold published, taken; cbn; [lia|].
    subst t. unfold consumer_ok, taken. cbn. case_decide as He; cbn; [done|]. split; [done|].
    destruct (decide (k = length (popped_frames w))) as [->|]; [done|lia].
  - (* it reads its slot *)
    destruct Hc as [-> Hlt]. split; try done. unfold consumer_ok, taken. cbn. split_and!; [done|done|].
    destruct (Hst (length (popped_frames w))) as (fr & H1 & H2); [lia|].
    unfold read_slot in Hread. rewrite slot_of_index, H2 in Hread. cbn in Hread. by simplify_eq.
  - (* it takes the frame *)
    destruct Hc as (-> & Hlt & Hfr).
    split; try done; unfold published, taken; cbn; rewrite ?length_app; cbn.
    + rewrite index_succ. f_equal. lia.
    + lia.
    + destruct Hf as [rest Hrest]. rewrite Hrest in Hfr |- *.
      rewrite lookup_app_r, Nat.sub_diag in Hfr by lia. destruct rest as [|fr rest]; [done|].
      injection Hfr as ->. exists rest. by rewrite <-app_assoc.
    + intros j Hj. destruct (Hst j) as (fr & H1 & H2); [lia|]. by exists fr.
Qed.

Lemma ring_reachable_inv order w : ring_reachable order w → ring_inv w.
Proof.
  intros H. unfold ring_reachable in H.
  assert (∀ w0 w1, rtc (ring_step order) w0 w1 → ring_inv w0 → ring_inv w1) as Hgo.
  { induction 1 as [|w0 w1 w2 Hs _ IH]; [done|]. intros Hi. apply IH. by eapply ring_step_inv. }
  by apply (Hgo _ _ H), ring_inv_new.
Qed.

(** ** Uninterrupted calls *)

(** A thread that is not interrupted and sees the latest indices runs [push]. *)
Lemma push_steps order w frame :
  ring_inv w → producer w = P_idle → (published w < taken w + 8)%nat →
  ∃ w', rtc (ring_step order) w w' ∧ producer w' = P_idle ∧ consumer w' = consumer w ∧
        pushed_frames w' = pushed_frames w ++ [frame] ∧ popped_frames w' = popped_frames w ∧
        synced w' = (match order with Acquire => taken w | Relaxed => synced w end) ∧
        (Ok tt, ring w') = push frame (ring w).
Proof.
  intros Hi Hp Hroom. pose proof (inv_order w Hi) as Ho. pose proof (inv_room w Hi) as Hr.
  pose proof (step_push_head order w frame Hp) as S1. set (w1 := set_producer _ w) in S1.
  pose proof (step_push_tail order w1 frame _ (taken w1) eq_refl ltac:(change (taken w1) with (taken w); cbn; lia)) as S2.
  fold (index (taken w1)) in S2. change (taken w1) with (taken w) in S2.
  assert (ring_full (head (ring w)) (index (taken w)) = false) as Hfull.
  { rewrite (inv_head w Hi), ring_full_spec by lia. apply bool_decide_eq_false. lia. }
  rewrite Hfull in S2. set (w2 := set_producer _ (see_tail order _ w1)) in S2.
  pose proof (step_push_write order w2 frame (head (ring w)) eq_refl) as S3.
  set (w3 := set_producer _ (set_ring _ w2)) in S3.
  pose proof (step_push_publish order w3 frame (head (ring w)) eq_refl) as S4.
  set (w4 := set_producer _ (publish _ _)) in S4.
  exists w4. split; [eauto using rtc_once, rtc_l|]. split_and!; try done.
  unfold push. run. by rewrite (inv_tail w Hi), Hfull.
Qed.

(** And [pop]. *)
Lemma pop_steps order w :
  ring_inv w → consumer w = C_idle → (taken w < published w)%nat →
  ∃ w' frame, rtc (ring_step order) w w' ∧ consumer w' = C_idle ∧ producer w' = producer w ∧
        pushed_frames w' = pushed_frames w ∧ popped_frames w' = popped_frames w ++ [frame] ∧
        synced w' = synced w ∧
        (Ok (Some frame), ring w') = pop (ring w).
Proof.
  intros Hi Hc Hlt. pose proof (inv_order w Hi) as Ho. pose proof (inv_room w Hi) as Hr.
  pose proof (step_pop_tail order w Hc) as S1. set (w1 := set_consumer _ w) in S1.
  pose proof (step_pop_head order w1 _ (published w1) eq_refl ltac:(change (published w1) with (published w); cbn; lia)) as S2.
  fold (index (published w1)) in S2. change (published w1) with (published w) in S2.
  assert (index (published w) ≠ tail (ring w)) as Hne.
  { rewrite (inv_tail w Hi). intros H. apply eq_sym, index_small_eq in H; lia. }
  rewrite decide_False in S2 by done. set (w2 := set_consumer _ (see_head _ w1)) in S2.
  destruct (inv_stored w Hi (taken w)) as (frame & Hfr & Hslot); [lia|].
  assert (read_slot (tail (ring w)) (ring w) = Some frame) as Hread.
  { unfold read_slot. by rewrite (inv_tail w Hi), slot_of_index, Hslot. }
  pose proof (step_pop_read order w2 _ frame eq_refl Hread) as S3.
  set (w3 := set_consumer _ w2) in S3.
  pose proof (step_pop_publish order w3 _ frame eq_refl) as S4.
  set (w4 := set_consumer _ (take_frame _ _)) in S4.
  exists w4, frame. split; [eauto using rtc_once, rtc_l|]. split_and!; try done.
  unfold pop. run. rewrite (inv_head w Hi), decide_False by done. by rewrite Hread.
Qed.

(** The consumer finishes the call it is in. *)
Definition finishes order (w : World) : Prop :=
  ∃ w', rtc (ring_step order) w w' ∧ consumer w' = C_idle ∧ producer w' = producer w ∧
        pushed_frames w' = pushed_frames w.

Lemma finishes_step order w w1 :
  ring_step order w w1 → producer w1 = producer w → pushed_frames w1 = pushed_frames w →
  finishes order w1 → finishes order w.
Proof.
  intros Hs Hp Hf (w' & H1 & H2 & H3 & H4). exists w'.
  split; [by eapply rtc_l|]. split; [done|]. split; congruence.
Qed.

Lemma finishes_idle order w : consumer w = C_idle → finishes order w.
Proof. intros H. by exists w. Qed.

Lemma finishes_read order w t fr : consumer w = C_read t fr → finishes order w.
Proof.
  intros H. by eapply finishes_step; [apply (step_pop_publish order w t fr H)| | |apply finishes_idle].
Qed.

Lemma finishes_ready order w t : ring_inv w → consumer w = C_ready t → finishes order w.
Proof.
  intros Hi H. pose proof (inv_consumer w Hi) as Hc. unfold consumer_ok in Hc. rewrite H in Hc.
  destruct Hc as [-> Hlt]. pose proof (inv_order w Hi) as Ho.
  destruct (inv_stored w Hi (taken w)) as (frame & Hfr & Hslot); [lia|].
  eapply finishes_step; [apply (step_pop_read order w _ frame H)|done|done|by eapply finishes_read].
  unfold read_slot. by rewrite slot_of_index, Hslot.
Qed.

Lemma pop_finishes order w : ring_inv w → finishes order w.
Proof.
  intros Hi. destruct (consumer w) as [|t|t|t fr] eqn:E.
  - by apply finishes_idle.
  - assert (ring_step order w (set_consumer (if decide (index (head_seen w) = t) then C_idle
      else C_ready t) (see_head (head_seen w) w))) as Hs.
    { apply (step_pop_head order w t (head_seen w) E). pose proof (inv_order w Hi). lia. }
    eapply finishes_step; [exact Hs|done|done|]. pose proof (ring_step_inv order _ _ Hs Hi) as Hi'.
    case_decide; [by apply finishes_idle|by eapply finishes_ready].
  - by eapply finishes_ready.
  - by eapply finishes_read.
Qed.

Lemma ring_rtc_inv order w w' : rtc (ring_step order) w w' → ring_inv w → ring_inv w'.
Proof. induction 1 as [|w0 w1 w2 Hs _ IH]; [done|]. intros Hi. by eapply IH, ring_step_inv. Qed.

(** The frames in the ring. *)
Definition waiting (w : World) : list GamepadFrameRaw := drop (taken w) (pushed_frames w).

Lemma length_waiting w : length (waiting w) = (published w - taken w)%nat.
Proof. unfold waiting. by rewrite length_drop. Qed.

Lemma waiting_fifo w : ring_inv w → pushed_frames w = popped_frames w ++ waiting w.
Proof.
  intros Hi. destruct (inv_fifo w Hi) as [rest Hr]. unfold waiting, taken. rewrite Hr at 1 2.
  by rewrite drop_app_length.
Qed.

(** The consumer empties the ring, one call after another. *)
Lemma drain_idle order w :
  ring_inv w → consumer w = C_idle →
  ∃ w', rtc (ring_step order) w w' ∧ pushed_frames w' = pushed_frames w ∧
        popped_frames w' = pushed_frames w.
Proof.
  intros Hi Hc. remember (length (waiting w)) as n eqn:Hn. revert w Hi Hc Hn.
  induction n as [|n IH]; intros w Hi Hc Hn.
  - exists w. split; [done|]. split; [done|]. symmetry. rewrite (waiting_fifo w Hi) at 1.
    destruct (waiting w); [by rewrite app_nil_r|done].
  - rewrite length_waiting in Hn.
    destruct (pop_steps order w Hi Hc) as (w1 & fr & H1 & Hc1 & _ & Hp & Hq & _); [lia|].
    destruct (IH w1) as (w2 & H2 & Hp2 & Hq2);
      [by eapply ring_rtc_inv|done|rewrite length_waiting; unfold published, taken;
       rewrite Hp, Hq, length_app; unfold published, taken in Hn; cbn; lia|].
    exists w2. split; [by etrans|]. split; congruence.
Qed.

(** ** Properties *)

(** C38: however the producer and the consumer of the ring interleave, access by access, and
    however stale the indices they load, the frames taken are a prefix of the frames
    published, in order, without loss or repetition; at most eight wait between the two;
    the consumer only reads a slot that holds the next frame; and the producer only writes
    a slot whose frame was already taken. *)
Theorem ring_fifo (order : Ordering) (w : World) (Hw : ring_reachable order w) :
  pushed_frames w = popped_frames w ++ waiting w ∧ (length (waiting w) ≤ 8)%nat ∧
  (∀ t, consumer w = C_ready t → read_slot t (ring w) = waiting w !! 0%nat ∧
                                 is_Some (read_slot t (ring w))) ∧
  (∀ frame h i, producer w = P_ready frame h → (i < length (waiting w))%nat →
                slot_of h ≠ slot_of (Z.of_nat (taken w + i))).
Proof.
  pose proof (ring_reachable_inv order w Hw) as Hi. pose proof (inv_order w Hi) as Ho.
  pose proof (inv_room w Hi) as Hr. split_and!.
  - by apply waiting_fifo.
  - rewrite length_waiting. lia.
  - intros t H. pose proof (inv_consumer w Hi) as Hc. unfold consumer_ok in Hc. rewrite H in Hc.
    destruct Hc as [-> Hlt]. destruct (inv_stored w Hi (taken w)) as (fr & Hfr & Hslot); [lia|].
    unfold read_slot, waiting. rewrite slot_of_index, Hslot, lookup_drop, Nat.add_0_r, Hfr. eauto.
  - intros frame h i H Hlt. pose proof (inv_producer w Hi) as Hp. unfold producer_ok in Hp.
    rewrite H in Hp. destruct Hp as [-> Hroom]. rewrite length_waiting in Hlt.
    rewrite slot_of_index. intros He. apply eq_sym, slot_of_inj in He; lia.
Qed.

(** Whatever state the two threads are in, the consumer alone can run to a state where
    it has taken every frame that was published: a stalled producer never blocks it. *)
Theorem ring_drains (order : Ordering) (w : World) (Hw : ring_reachable order w) :
  ∃ w', rtc (ring_step order) w w' ∧ pushed_frames w' = pushed_frames w ∧
        popped_frames w' = pushed_frames w.
Proof.
  pose proof (ring_reachable_inv order w Hw) as Hi.
  destruct (pop_finishes order w Hi) as (w1 & H1 & Hc1 & _ & Hp1).
  destruct (drain_idle order w1) as (w2 & H2 & Hp2 & Hq2); [by eapply ring_rtc_inv|done|].
  exists w2. split; [by etrans|]. split; congruence.
Qed.

(** *** Happens-before *)

(** The consumer's read of the frame that a write is about to replace happens before the
    write: the producer has synchronized with the pop of that frame. *)
Definition write_ordered (w : World) : Prop :=
  match producer w with
  | P_ready _ _ => (published w < synced w + 8)%nat
  | _ => True
  end.

(** With an Acquire load the producer has synchronized with all it has seen. *)
Lemma synced_seen w w' : ring_step Acquire w w' → synced w = tail_seen w → synced w' = tail_seen w'.
Proof. by destruct 1. Qed.

Lemma acquire_synced w : ring_reachable Acquire w → synced w = tail_seen w.
Proof.
  intros H. unfold ring_reachable in H.
  assert (∀ w0 w1, rtc (ring_step Acquire) w0 w1 → synced w0 = tail_seen w0 →
    synced w1 = tail_seen w1) as Hgo.
  { induction 1 as [|w0 w1 w2 Hs _ IH]; [done|]. intros He. by eapply IH, synced_seen. }
  by apply (Hgo _ _ H).
Qed.

(** A push and a pop, [n] times over. *)
Lemma rounds order (fr : GamepadFrameRaw) n :
  ∃ w, ring_reachable order w ∧ producer w = P_idle ∧ consumer w = C_idle ∧
       published w = n ∧ taken w = n ∧ (order = Relaxed → synced w = 0%nat).
Proof.
  induction n as [|n (w & Hw & Hp & Hc & Hn & Hm & Hs)]; [exists World_new; split; [apply rtc_refl|done]|].
  pose proof (ring_reachable_inv order w Hw) as Hi.
  destruct (push_steps order w fr Hi Hp) as (w1 & H1 & Hp1 & Hc1 & Hf1 & Hq1 & Hs1 & _); [lia|].
  pose proof (ring_rtc_inv order _ _ H1 Hi) as Hi1.
  assert (published w1 = S n) as Hn1.
  { unfold published in *. rewrite Hf1, length_app. cbn. lia. }
  destruct (pop_steps order w1 Hi1) as (w2 & fr2 & H2 & Hc2 & Hp2 & Hf2 & Hq2 & Hs2 & _);
    [congruence|unfold taken in *; rewrite Hq1; lia|].
  exists w2. split; [unfold ring_reachable in *; etrans; [exact Hw|]; by etrans|].
  split; [congruence|]. split; [done|].
  split; [unfold published in *; congruence|]. split.
  - unfold taken in *. rewrite Hq2, Hq1, length_app. cbn. lia.
  - intros ->. rewrite Hs2, Hs1. by apply Hs.
Qed.

(** The order of slot reuse.  If the producer's load of [tail] were an Acquire, every
    write to a slot would happen after the consumer's read of the frame it replaces.  With
    the Relaxed load of the source it does not: after eight pushes and pops the ninth push
    writes a slot without having synchronized with its last read, which is a data race. *)
Theorem ring_reuse_unordered :
  (∀ w, ring_reachable Acquire w → write_ordered w) ∧
  ∃ w, ring_reachable Relaxed w ∧ published w = 8%nat ∧ taken w = 8%nat ∧ ¬ write_ordered w.
Proof.
  split.
  - intros w Hw. pose proof (ring_reachable_inv _ w Hw) as Hi.
    pose proof (inv_producer w Hi) as Hp. unfold producer_ok in Hp. unfold write_ordered.
    rewrite (acquire_synced w Hw). by destruct (producer w); [| |destruct Hp|].
  - set (fr := mkFrame 0 0 0 0 0 0 0). destruct (rounds Relaxed fr 8) as (w & Hw & Hp & Hc & Hn & Hm & Hs).
    pose proof (ring_reachable_inv _ w Hw) as Hi. pose proof (inv_order w Hi) as Ho.
    pose proof (step_push_head Relaxed w fr Hp) as S1. set (w1 := set_producer _ w) in S1.
    pose proof (step_push_tail Relaxed w1 fr _ (taken w1) eq_refl
                  ltac:(change (taken w1) with (taken w); cbn; lia)) as S2.
    fold (index (taken w1)) in S2. change (taken w1) with (taken w) in S2.
    rewrite (inv_head w Hi), ring_full_spec, bool_decide_eq_false_2 in S2 by lia.
    eexists. split; [eapply rtc_r; [eapply rtc_r; [exact Hw|exact S1]|exact S2]|].
    split; [done|]. split; [done|]. unfold write_ordered. cbn.
    unfold published in *. rewrite Hs by done. cbn. lia.
Qed.

(** ** Witnesses *)

(** After twenty rounds and one more push a frame waits. *)
Lemma one_waits :
  ∃ w, ring_reachable Relaxed w ∧ published w = 21%nat ∧ taken w = 20%nat.
Proof.
  set (fr := mkFrame 1 0 0 0 0 0 0).
  destruct (rounds Relaxed fr 20) as (w & Hw & Hp & _ & Hn & Hm & _).
  destruct (push_steps Relaxed w fr (ring_reachable_inv _ w Hw) Hp) as (w1 & H1 & _ & _ & Hf & Hq & _);
    [lia|].
  exists w1. split; [unfold ring_reachable in *; by etrans|].
  unfold published, taken in *. rewrite Hf, Hq, length_app. cbn. lia.
Qed.

Lemma ring_fifo_witness :
  ∃ w, ring_reachable Relaxed w ∧ published w = 21%nat ∧ taken w = 20%nat ∧
       pushed_frames w = popped_frames w ++ waiting w ∧ (length (waiting w) ≤ 8)%nat.
Proof.
  destruct one_waits as (w & Hw & Hn & Hm).
  exists w. split; [exact Hw|]. split; [exact Hn|]. split; [exact Hm|].
  destruct (ring_fifo Relaxed w Hw) as (H1 & H2 & _). split; [exact H1|exact H2].
Defined.

Lemma ring_drains_witness :
  ∃ w w', ring_reachable Relaxed w ∧ published w = 21%nat ∧ taken w = 20%nat ∧
          popped_frames w' = pushed_frames w.
Proof.
  destruct one_waits as (w & Hw & Hn & Hm).
  destruct (ring_drains Relaxed w Hw) as (w' & _ & _ & H).
  exists w, w'. split; [exact Hw|]. split; [exact Hn|]. split; [exact Hm|exact H].
Defined.
