(* ===== verification/Commands.v ===== *)
(** * The commands of the parallel client ([src/src/client.rs])

    The frames that the client batches, the keyboard chord with its expansion into key
    edges, and [HidCommand], the vocabulary of the channel between the clients and the
    dispatcher thread.  Fixed-size arrays are lists; indexing one out of range unwinds. *)

From S2P Require Import Prelude Words Errors Types Utf8 Float32 Message Descriptor.
From S2P Require Import Keyboard Coalesce.
Local Open Scope Z_scope.

Definition DEFAULT_CHANNEL_BOUND : nat := 4096%nat.
Definition TOUCH_BATCH_FRAMES : nat := 24.
Definition KEYBOARD_BATCH_FRAMES : nat := 32.
Definition KEYBOARD_CHORD_KEYS : nat := 6.
Definition KEYBOARD_CHORD_EDGES : nat := KEYBOARD_CHORD_KEYS * 2.
Definition ANDROID_KEY_BATCH_FRAMES : nat := 32.
Definition GAMEPAD_BATCH_FRAMES : nat := DIRECT_GAMEPAD_BATCH_FRAMES.
Definition MOUSE_BATCH_FRAMES : nat := 32.
Definition SCROLL_BATCH_FRAMES : nat := 32.

(** ** Frames *)

(** A [TouchAction] and a [TouchPointerId] are their numbers. *)
Record TouchFrame : Set := mkTouchFrame
  { tf_action : Z; tf_pointer_id : Z; tf_x : Z; tf_y : Z; tf_pressure : f32 }.

Definition TouchFrame_EMPTY : TouchFrame := mkTouchFrame 0 0 0 0 (f32_of_Z 0).
Definition TouchFrame_new (action pointer_id x y : Z) (pressure : f32) : TouchFrame :=
  mkTouchFrame action pointer_id x y pressure.
Definition with_action (action pointer_id x y : Z) (pressure : f32) : TouchFrame :=
  TouchFrame_new action pointer_id x y pressure.
Definition with_pointer (action pointer_id x y : Z) (pressure : f32) : TouchFrame :=
  with_action action pointer_id x y pressure.

Record KeyboardFrame : Set := mkKeyboardFrame
  { kf_scancode : Z; kf_pressed : bool; kf_mods : Modifiers }.

Definition KeyboardFrame_EMPTY : KeyboardFrame := mkKeyboardFrame 0 false Modifiers_empty.
Definition KeyboardFrame_new (scancode : Z) (pressed : bool) (mods : Modifiers) : KeyboardFrame :=
  mkKeyboardFrame scancode pressed mods.
Definition KeyboardFrame_scancode (sc : Scancode) (pressed : bool) (mods : Modifiers) :
    KeyboardFrame := KeyboardFrame_new (to_u8 sc) pressed mods.
Definition KeyboardFrame_down (scancode : Z) (mods : Modifiers) : KeyboardFrame :=
  KeyboardFrame_new scancode true mods.
Definition KeyboardFrame_up (scancode : Z) : KeyboardFrame :=
  KeyboardFrame_new scancode false Modifiers_empty.
Definition scancode_down (sc : Scancode) (mods : Modifiers) : KeyboardFrame :=
  KeyboardFrame_down (to_u8 sc) mods.
Definition scancode_up (sc : Scancode) : KeyboardFrame := KeyboardFrame_up (to_u8 sc).

Record AndroidKeyFrame : Set := mkAndroidKeyFrame
  { ak_action : Z; ak_keycode : Z; ak_repeat : Z; ak_metastate : Z }.

Definition AndroidKeyFrame_EMPTY : AndroidKeyFrame := mkAndroidKeyFrame 0 0 0 0.
Definition AndroidKeyFrame_new (action keycode repeat metastate : Z) : AndroidKeyFrame :=
  mkAndroidKeyFrame action keycode repeat metastate.
Definition typed (action keycode repeat metastate : Z) : AndroidKeyFrame :=
  AndroidKeyFrame_new action keycode repeat metastate.
Definition AndroidKeyFrame_down (keycode metastate : Z) : AndroidKeyFrame :=
  typed KEY_ACTION_DOWN keycode 0 metastate.
Definition AndroidKeyFrame_up (keycode metastate : Z) : AndroidKeyFrame :=
  typed KEY_ACTION_UP keycode 0 metastate.

Record MouseFrame : Set := mkMouseFrame { mf_dx : Z; mf_dy : Z; mf_buttons : Z }.

Definition MouseFrame_EMPTY : MouseFrame := mkMouseFrame 0 0 0.
Definition motion (dx dy buttons : Z) : MouseFrame := mkMouseFrame dx dy buttons.
Definition motion_buttons (dx dy : Z) (buttons : list MouseButton) : MouseFrame :=
  motion dx dy (MouseButton_state buttons).
Definition MouseFrame_buttons (buttons : Z) : MouseFrame := mkMouseFrame 0 0 buttons.

Record ScrollFrame : Set := mkScrollFrame
  { sf_x : Z; sf_y : Z; sf_hscroll : f32; sf_vscroll : f32; sf_buttons : Z }.

Definition ScrollFrame_EMPTY : ScrollFrame := mkScrollFrame 0 0 (f32_of_Z 0) (f32_of_Z 0) 0.
Definition ScrollFrame_new (x y : Z) (hscroll vscroll : f32) (buttons : Z) : ScrollFrame :=
  mkScrollFrame x y hscroll vscroll buttons.
Definition ScrollFrame_scroll (x y : Z) (hscroll vscroll : f32) : ScrollFrame :=
  ScrollFrame_new x y hscroll vscroll 0.

Definition GamepadFrame_EMPTY : GamepadFrameRaw := mkFrame 0 0 0 0 0 0 0.

(** ** Chords *)

Record KeyboardChordFrame : Set := mkChord
  { ch_len : Z; ch_keys : list Z; ch_mods : Modifiers }.

Definition Chord_EMPTY : KeyboardChordFrame :=
  mkChord 0 (replicate KEYBOARD_CHORD_KEYS 0) Modifiers_empty.
Definition Chord_new (len : Z) (keys : list Z) (mods : Modifiers) : KeyboardChordFrame :=
  mkChord len keys mods.
Definition single (scancode : Z) (mods : Modifiers) : KeyboardChordFrame :=
  Chord_new 1 (<[0%nat := scancode]> (replicate KEYBOARD_CHORD_KEYS 0)) mods.
Definition Chord_scancode (sc : Scancode) (mods : Modifiers) : KeyboardChordFrame :=
  single (to_u8 sc) mods.

(** Run a loop on a local array and return the array. *)
Definition build {X A : Type} (init : X) (c : cmd X Error A) : outcome Error X :=
  match c init with
  | (Ok _, x) => Ok x
  | (Err e, _) => Err e
  | (Panicked, _) => Panicked
  end.

(** [frames[idx] = frame] *)
Definition array_set {X : Type} (idx : nat) (x : X) : cmd (list X) Error unit := λ l,
  if decide (idx < length l)%nat then (Ok tt, <[idx := x]> l) else (Panicked, l).

Definition try_new (scancodes : list Z) (mods : Modifiers) : outcome Error KeyboardChordFrame :=
  if decide (KEYBOARD_CHORD_KEYS < length scancodes)%nat then
    Err (SessionLifecycle "keyboard chord too large")
  else
    keys ← build (replicate KEYBOARD_CHORD_KEYS 0)
      (for_each (imap pair scancodes) (λ '(i, sc),
        if 0x65 <? sc then
          raise (SessionLifecycle "keyboard chord keys must be non-modifier scancodes")
        else array_set i sc));
    mret (Chord_new (wrap 8 (Z.of_nat (length scancodes))) keys mods).

Definition try_scancodes (scancodes : list Scancode) (mods : Modifiers) :
    outcome Error KeyboardChordFrame :=
  if decide (KEYBOARD_CHORD_KEYS < length scancodes)%nat then
    Err (SessionLifecycle "keyboard chord too large")
  else
    keys ← build (replicate KEYBOARD_CHORD_KEYS 0)
      (for_each (imap pair scancodes) (λ '(i, sc),
        if is_modifier sc then
          raise (SessionLifecycle "keyboard chord keys must be non-modifier scancodes")
        else array_set i (to_u8 sc)));
    mret (Chord_new (wrap 8 (Z.of_nat (length scancodes))) keys mods).

Definition edge_frames (ch : KeyboardChordFrame) : outcome Error (list KeyboardFrame * nat) :=
  let len := Z.to_nat (ch_len ch) in
  if decide (KEYBOARD_CHORD_KEYS < len)%nat then
    Err (SessionLifecycle "keyboard chord length overflow")
  else
    frames ← build (replicate KEYBOARD_CHORD_EDGES KeyboardFrame_EMPTY)
      (for_each (imap pair (take len (ch_keys ch))) (λ '(idx, key),
         array_set idx (KeyboardFrame_down key (ch_mods ch)));;
       for_each (seq 0 len) (λ release_idx,
         key ← lift (or_panic (ch_keys ch !! (len - 1 - release_idx)%nat));
         let mods := if Nat.eqb (release_idx + 1) len then Modifiers_empty else ch_mods ch in
         array_set (len + release_idx) (KeyboardFrame_new key false mods)));
    mret (frames, (len * 2)%nat).

(** ** Commands *)

(** An [Arc<FlushSlot>] is the number of the slot it points to. *)
Inductive HidCommand : Set :=
  | Hc_TypeText (s : str)
  | Hc_TypeTextStrict (s : str)
  | Hc_Key (scancode : Z) (pressed : bool) (mods : Modifiers)
  | Hc_KeyTap (scancode : Z) (mods : Modifiers)
  | Hc_KeyBatchFixed (len : Z) (frames : list KeyboardFrame)
  | Hc_MouseMotion (dx dy buttons : Z)
  | Hc_MouseButtons (buttons : Z)
  | Hc_MouseScroll (hscroll vscroll : f32)
  | Hc_MouseBatchFixed (len : Z) (frames : list MouseFrame)
  | Hc_InjectKeycode (action keycode repeat metastate : Z)
  | Hc_AndroidKeyTap (keycode metastate : Z)
  | Hc_AndroidKeyBatchFixed (len : Z) (frames : list AndroidKeyFrame)
  | Hc_BackOrScreenOn (action : Z)
  | Hc_MultitouchDown (id x y : Z) (pressure : f32)
  | Hc_MultitouchMove (id x y : Z) (pressure : f32)
  | Hc_MultitouchUp (id : Z)
  | Hc_MultitouchCancel (id : Z)
  | Hc_TouchBatchFixed (len : Z) (frames : list TouchFrame)
  | Hc_InjectScroll (x y : Z) (hscroll vscroll : f32) (buttons : Z)
  | Hc_InjectScrollBatchFixed (len : Z) (frames : list ScrollFrame)
  | Hc_GamepadButton (btn : GamepadButton) (pressed : bool)
  | Hc_GamepadButtons (buttons : Z)
  | Hc_GamepadStick (axis : GamepadAxis) (value : f32)
  | Hc_GamepadStickRaw (axis : GamepadAxis) (value : Z)
  | Hc_GamepadLeftStickRaw (x y : Z)
  | Hc_GamepadRightStickRaw (x y : Z)
  | Hc_GamepadTriggersRaw (left right : Z)
  | Hc_GamepadSticksRaw (left_x left_y right_x right_y left_trigger right_trigger : Z)
  | Hc_GamepadFrameRaw (buttons left_x left_y right_x right_y left_trigger right_trigger : Z)
  | Hc_GamepadFrameRawUnchecked (frame : GamepadFrameRaw)
  | Hc_GamepadFrameRawBatch (frames : list GamepadFrameRaw)
  | Hc_GamepadFrameRawBatchFixed (len : Z) (frames : list GamepadFrameRaw)
  | Hc_GamepadFrameRawBatchFixedUnchecked (len : Z) (frames : list GamepadFrameRaw)
  | Hc_GamepadFrameRawBatchUnchecked (frames : list GamepadFrameRaw)
  | Hc_GamepadPackedFrame (frame : bytes)
  | Hc_GamepadPackedFrameBatch (frames : list bytes)
  | Hc_GamepadPackedFrameBatchFixed (len : Z) (frames : list bytes)
  | Hc_SetScreenSize (width height : Z)
  | Hc_SetScreenPower (on : bool)
  | Hc_ShowNotifications
  | Hc_ShowQuickSettings
  | Hc_CollapsePanels
  | Hc_RotateDevice
  | Hc_ResizeDisplay (width height : Z)
  | Hc_SetTorch (on : bool)
  | Hc_CameraZoomIn
  | Hc_CameraZoomOut
  | Hc_OpenHardKeyboardSettings
  | Hc_ResetVideo
  | Hc_AiConfig (flags sample_interval_ms feature_dim : Z)
  | Hc_AiQuery (since_timestamp_ms : Z)
  | Hc_AiPause
  | Hc_LaunchApp (name : str)
  | Hc_SetClipboard (text : str) (paste : bool)
  | Hc_SetClipboardSequenced (sequence : Z) (text : str) (paste : bool)
  | Hc_GetClipboard (copy_key : Z)
  | Hc_FlushAck (seq : Z) (slot : nat)
  | Hc_Flush
  | Hc_Close.

(** [unreachable!] unwinds. *)
Definition recover_gamepad_batch {E} (c : HidCommand) : outcome E (list GamepadFrameRaw) :=
  match c with
  | Hc_GamepadFrameRawBatch frames | Hc_GamepadFrameRawBatchUnchecked frames => Ok frames
  | _ => Panicked
  end.
Definition recover_packed_gamepad_batch {E} (c : HidCommand) : outcome E (list bytes) :=
  match c with
  | Hc_GamepadPackedFrameBatch frames => Ok frames
  | _ => Panicked
  end.

(** [(a as f32 + (b - a) as f32 * t).round() as i32] *)
Definition lerp_i32 (a b : Z) (t : f32) : Z :=
  f32_as_i32 (fround (fadd (f32_of_Z a) (fmul (f32_of_Z (swrap 32 (b - a))) t))).

(** ** Loops over arrays *)

Lemma array_set_run {X} idx (x : X) l :
  (idx < length l)%nat → array_set idx x l = (Ok tt, <[idx := x]> l).
Proof. intros H. unfold array_set. by rewrite decide_True. Qed.

(** A loop that writes [h i y] at [off + i] for the [i]-th element [y]. *)
Lemma fill_array {X Y} (h : nat → Y → X) (body : Y → cmd (list X) Error unit) ys off l :
  (∀ i y l, ys !! i = Some y → body y l = array_set (off + i) (h i y) l) →
  (off + length ys ≤ length l)%nat →
  for_each ys body l = (Ok tt, take off l ++ imap h ys ++ drop (off + length ys) l).
Proof.
  induction ys as [|y ys IH] using rev_ind; intros Hb Hl.
  - cbn. by rewrite Nat.add_0_r, take_drop.
  - rewrite length_app in *. cbn [length] in *.
    rewrite (for_each_app ys [y] body l), (bind_ok _ _ l tt _ (IH ltac:(intros i z l' Hi;
      by apply Hb, lookup_app_l_Some) ltac:(lia))).
    cbn [for_each]. rewrite (bind_ok _ _ _ tt
      (<[(off + length ys)%nat := h (length ys) y]> (take off l ++ imap h ys ++ drop (off + length ys) l))).
    2: { rewrite Hb with (i := length ys) by (by rewrite lookup_app_r, Nat.sub_diag).
         apply array_set_run. rewrite !length_app, length_take, length_imap, length_drop. lia. }
    unfold mret, cmd_ret. f_equal.
    rewrite insert_app_r_alt by (rewrite length_take; lia).
    rewrite insert_app_r_alt by (rewrite length_take, length_imap; lia).
    rewrite imap_app, <-app_assoc. f_equal. f_equal. cbn [imap app]. rewrite Nat.add_0_r.
    replace (off + length ys - length (take off l) - length (imap h ys))%nat with 0%nat
      by (rewrite length_take, length_imap; lia).
    destruct (drop (off + length ys) l) as [|z l'] eqn:E.
    { apply (f_equal length) in E. rewrite length_drop in E. cbn in E. lia. }
    cbn. f_equal. rewrite Nat.add_assoc, <-drop_drop, E. done.
Qed.

Lemma lookup_pairs {X} (xs : list X) i p :
  imap pair xs !! i = Some p → p.1 = i ∧ xs !! i = Some p.2.
Proof.
  rewrite list_lookup_imap. destruct (xs !! i) as [x|] eqn:E; [|done].
  intros [= <-]. done.
Qed.

(** [for (dst, x) in array.iter_mut().zip(xs)] with a check that may refuse [x]. *)
Definition checked_fill {X Y : Type} (bad : Y → bool) (e : Error) (g : Y → X) '(i, y) :
    cmd (list X) Error unit :=
  if bad y then raise e else array_set i (g y).

Lemma checked_fill_ok {X Y} (bad : Y → bool) e (g : Y → X) ys l :
  (∀ y, y ∈ ys → bad y = false) → (length ys ≤ length l)%nat →
  for_each (imap pair ys) (checked_fill bad e g) l = (Ok tt, (g <$> ys) ++ drop (length ys) l).
Proof.
  intros Hgood Hl.
  rewrite (fill_array (λ _ p, g p.2) _ _ 0);
    [|intros i [j y] l' [? Hy]%lookup_pairs|by rewrite length_imap].
  2: { cbn in *. subst. by rewrite Hgood by (by eapply list_elem_of_lookup_2). }
  assert (imap (λ _ p, g p.2) (imap pair ys) = g <$> ys) as ->; [|by rewrite length_imap].
  apply list_eq. intros i. rewrite !list_lookup_imap, list_lookup_fmap. by destruct (ys !! i).
Qed.

Lemma checked_fill_bad {X Y} (bad : Y → bool) e (g : Y → X) ys l :
  (∃ y, y ∈ ys ∧ bad y = true) → (length ys ≤ length l)%nat →
  (for_each (imap pair ys) (checked_fill bad e g) l).1 = Err e.
Proof.
  revert l. induction ys as [|y ys IH] using rev_ind; intros l (z & Hz & Hbad) Hl;
    [by apply not_elem_of_nil in Hz|].
  rewrite length_app in Hl. cbn in Hl.
  rewrite imap_app, (for_each_app _ _ _ l).
  destruct (existsb bad ys) eqn:Eb.
  - apply existsb_exists in Eb as (z' & Hin%list_elem_of_In & Hb').
    specialize (IH l (ex_intro _ z' (conj Hin Hb')) ltac:(lia)).
    unfold mbind, cmd_bind. destruct (for_each _ _ l) as [o l']. cbn [fst] in IH. by subst o.
  - assert (∀ y, y ∈ ys → bad y = false) as Hgood.
    { intros y' Hy'. destruct (bad y') eqn:E; [|done]. rewrite <-Eb. symmetry.
      apply existsb_exists. exists y'. split; [by apply list_elem_of_In|done]. }
    rewrite (bind_ok _ _ l tt _ (checked_fill_ok bad e g ys l Hgood ltac:(lia))).
    cbn. rewrite elem_of_app, list_elem_of_singleton in Hz.
    destruct Hz as [Hz| ->]; [by rewrite Hgood in Hbad|]. by rewrite Hbad.
Qed.

(** ** Chords *)

(** The chord of at most six keys. *)
Definition chord_of (scs : list Z) (mods : Modifiers) : KeyboardChordFrame :=
  mkChord (Z.of_nat (length scs)) (scs ++ replicate (KEYBOARD_CHORD_KEYS - length scs) 0) mods.

Lemma fill_keys {Y} (ys : list Y) bad e g mods :
  (length ys ≤ KEYBOARD_CHORD_KEYS)%nat →
  (keys ← build (replicate KEYBOARD_CHORD_KEYS 0) (for_each (imap pair ys) (checked_fill bad e g));
   mret (Chord_new (wrap 8 (Z.of_nat (length ys))) keys mods)) =
  if existsb bad ys then Err e else Ok (chord_of (g <$> ys) mods).
Proof.
  intros Hl. unfold build. destruct (existsb bad ys) eqn:Eb.
  - apply existsb_exists in Eb as (y & Hin%list_elem_of_In & Hb).
    pose proof (checked_fill_bad bad e g ys (replicate KEYBOARD_CHORD_KEYS 0)
      (ex_intro _ y (conj Hin Hb)) Hl) as H.
    destruct (for_each _ _ _) as [o keys]. cbn in H. by subst o.
  - rewrite checked_fill_ok; [|intros y Hy; destruct (bad y) eqn:E; [|done]; rewrite <-Eb;
      symmetry; apply existsb_exists; exists y; split; [by apply list_elem_of_In|done]|done].
    unfold mbind, outcome_bind, chord_of. rewrite length_fmap, wrap_small by (unfold KEYBOARD_CHORD_KEYS in *; widths; lia).
    rewrite drop_replicate. done.
Qed.

Lemma try_new_run scs mods :
  try_new scs mods =
  if decide (KEYBOARD_CHORD_KEYS < length scs)%nat then
    Err (SessionLifecycle "keyboard chord too large")
  else if existsb (λ sc, 0x65 <? sc) scs then
    Err (SessionLifecycle "keyboard chord keys must be non-modifier scancodes")
  else Ok (chord_of scs mods).
Proof.
  unfold try_new. case_decide as Hl; [done|].
  etrans; [apply (fill_keys scs (λ sc, 0x65 <? sc) _ id); lia|]. by rewrite list_fmap_id.
Qed.

Lemma try_scancodes_run scs mods :
  try_scancodes scs mods =
  if decide (KEYBOARD_CHORD_KEYS < length scs)%nat then
    Err (SessionLifecycle "keyboard chord too large")
  else if existsb is_modifier scs then
    Err (SessionLifecycle "keyboard chord keys must be non-modifier scancodes")
  else Ok (chord_of (to_u8 <$> scs) mods).
Proof.
  unfold try_scancodes. case_decide as Hl; [done|].
  by apply (fill_keys scs is_modifier _ to_u8); lia.
Qed.

(** The edges of a chord: presses in order, releases in reverse order, the modifiers
    dropped with the last one. *)
Definition chord_edges (scs : list Z) (mods : Modifiers) : list KeyboardFrame :=
  ((λ sc, mkKeyboardFrame sc true mods) <$> scs) ++
  imap (λ i sc, mkKeyboardFrame sc false
                  (if Nat.eqb (i + 1) (length scs) then Modifiers_empty else mods)) (reverse scs).

Lemma length_chord_edges scs mods : length (chord_edges scs mods) = (length scs * 2)%nat.
Proof.
  unfold chord_edges. rewrite length_app, length_fmap, length_imap, length_reverse. lia.
Qed.

Lemma edge_frames_run scs mods :
  (length scs ≤ KEYBOARD_CHORD_KEYS)%nat →
  edge_frames (chord_of scs mods) =
  Ok (chord_edges scs mods ++
        replicate (KEYBOARD_CHORD_EDGES - length scs * 2) KeyboardFrame_EMPTY,
      (length scs * 2)%nat).
Proof.
  intros Hl. unfold edge_frames. cbn [ch_len ch_keys ch_mods chord_of]. rewrite Nat2Z.id.
  rewrite decide_False by lia.
  set (n := length scs) in *. set (ks := scs ++ replicate _ 0).
  assert (take n ks = scs) as Htk by (apply take_app_length).
  set (f2 := for_each (seq 0 n) _). set (f1 := for_each _ _).
  assert (f1 (replicate KEYBOARD_CHORD_EDGES KeyboardFrame_EMPTY) =
    (Ok tt, ((λ sc, mkKeyboardFrame sc true mods) <$> scs) ++
            replicate (KEYBOARD_CHORD_EDGES - n) KeyboardFrame_EMPTY)) as E1.
  { subst f1. rewrite Htk.
    rewrite (fill_array (λ _ p, mkKeyboardFrame p.2 true mods) _ _ 0);
      [|by intros i [j y] l' [Hj _]%lookup_pairs; cbn in Hj; subst j|].
    2: { rewrite length_imap, length_replicate. unfold KEYBOARD_CHORD_EDGES. lia. }
    rewrite length_imap, drop_replicate. cbn [take app Nat.add]. fold n.
    assert (imap (λ _ p, mkKeyboardFrame p.2 true mods) (imap pair scs) =
            (λ sc, mkKeyboardFrame sc true mods) <$> scs) as ->; [|done].
    apply list_eq. intros i. rewrite !list_lookup_imap, list_lookup_fmap. by destruct (scs !! i). }
  assert (∀ l, (n + n ≤ length l)%nat →
    f2 l = (Ok tt, take n l ++ imap (λ i sc, mkKeyboardFrame sc false
      (if Nat.eqb (i + 1) n then Modifiers_empty else mods)) (reverse scs) ++ drop (n + n) l)) as E2.
  { intros l Hll. subst f2.
    assert (∀ i, (i < n)%nat → ks !! (n - 1 - i)%nat = reverse scs !! i) as Hk.
    { intros i Hi. rewrite reverse_lookup by done. subst ks.
      rewrite lookup_app_l by (fold n; lia). f_equal. fold n. lia. }
    rewrite (fill_array (λ i _, mkKeyboardFrame (default 0 (reverse scs !! i)) false
      (if Nat.eqb (i + 1) n then Modifiers_empty else mods)) _ _ n);
      [| |by rewrite length_seq].
    - rewrite length_seq.
      assert (imap (λ i (_ : nat), mkKeyboardFrame (default 0 (reverse scs !! i)) false
        (if Nat.eqb (i + 1) n then Modifiers_empty else mods)) (seq 0 n) =
        imap (λ i sc, mkKeyboardFrame sc false
        (if Nat.eqb (i + 1) n then Modifiers_empty else mods)) (reverse scs)) as ->; [|done].
      apply list_eq. intros i. rewrite !list_lookup_imap. destruct (decide (i < n)%nat).
      + rewrite lookup_seq_lt by done.
        destruct (lookup_lt_is_Some_2 (reverse scs) i) as [x Hx]; [by rewrite length_reverse|].
        by rewrite Hx.
      + rewrite lookup_seq_ge by lia. rewrite lookup_ge_None_2; [done|]. rewrite length_reverse. fold n. lia.
    - intros i y l' [-> Hi]%lookup_seq. rewrite Nat.add_0_l in *. run.
      destruct (lookup_lt_is_Some_2 (reverse scs) i) as [x Hx]; [by rewrite length_reverse|].
      by rewrite Hk, Hx by done. }
  unfold build. rewrite (bind_ok f1 _ _ _ _ E1), E2.
  - unfold mbind at 1, outcome_bind. rewrite take_app_length' by (by rewrite length_fmap).
    rewrite drop_app, length_fmap. fold n. rewrite drop_ge by (rewrite length_fmap; fold n; lia).
    rewrite drop_replicate. unfold chord_edges. fold n. rewrite <-app_assoc.
    by replace (KEYBOARD_CHORD_EDGES - n - (n + n - n))%nat with (KEYBOARD_CHORD_EDGES - n * 2)%nat by lia.
  - rewrite length_app, length_fmap, length_replicate. fold n. unfold KEYBOARD_CHORD_EDGES. lia.
Qed.

(** ** What a chord does to the keyboard *)

Definition event_of (f : KeyboardFrame) : KeyEvent :=
  mkKeyEvent (kf_scancode f) (kf_pressed f) (kf_mods f).

Definition presses (scs : list Z) (mods : Modifiers) : list KeyEvent :=
  (λ sc, mkKeyEvent sc true mods) <$> scs.
Definition releases (scs : list Z) (mods : Modifiers) : list KeyEvent :=
  imap (λ i sc, mkKeyEvent sc false
                  (if Nat.eqb (i + 1) (length scs) then Modifiers_empty else mods)) (reverse scs).

Lemma chord_events scs mods :
  event_of <$> chord_edges scs mods = presses scs mods ++ releases scs mods.
Proof.
  unfold chord_edges, presses, releases. rewrite fmap_app, <-list_fmap_compose, fmap_imap. done.
Qed.

Lemma last_event_app k evs evs' :
  last_event k (evs ++ evs') =
  match last_event k evs' with Some b => Some b | None => last_event k evs end.
Proof.
  unfold last_event. rewrite foldl_app. generalize (foldl (λ r e,
    if decide (ke_sc e = k) then Some (ke_pressed e) else r) None evs).
  induction evs' as [|e evs' IH] using rev_ind; intros r; [done|].
  rewrite !foldl_app. cbn. case_decide; [done|]. apply IH.
Qed.

(** The events of one direction. *)
Lemma last_event_all k b evs :
  Forall (λ e, ke_pressed e = b) evs →
  last_event k evs = if decide (k ∈ ke_sc <$> evs) then Some b else None.
Proof.
  induction evs as [|e evs IH] using rev_ind; intros H.
  { by rewrite decide_False by apply not_elem_of_nil. }
  apply Forall_app in H as [H [He _]%Forall_cons]. rewrite last_event_app, IH by done.
  unfold last_event. cbn. rewrite fmap_app, He. cbn [fmap list_fmap].
  destruct (decide (ke_sc e = k)) as [->|Hne].
  - rewrite decide_True; [done|]. apply elem_of_app. right. by apply list_elem_of_singleton.
  - destruct (decide (k ∈ ke_sc <$> evs)).
    + rewrite decide_True; [done|]. apply elem_of_app. by left.
    + rewrite decide_False; [done|]. rewrite elem_of_app, list_elem_of_singleton. intros [?|?]; congruence.
Qed.

Lemma presses_last k scs mods :
  last_event k (presses scs mods) = if decide (k ∈ scs) then Some true else None.
Proof.
  unfold presses. rewrite (last_event_all k true) by (rewrite Forall_fmap; by apply Forall_true).
  rewrite <-list_fmap_compose. change (ke_sc ∘ _) with (@id Z). by rewrite list_fmap_id.
Qed.

Lemma releases_last k scs mods :
  last_event k (releases scs mods) = if decide (k ∈ scs) then Some false else None.
Proof.
  unfold releases. rewrite (last_event_all k false).
  - rewrite fmap_imap. rewrite (imap_ext _ (const id)) by done. rewrite (imap_const id), list_fmap_id.
    apply decide_ext. apply elem_of_reverse.
  - apply Forall_forall. intros e (i & sc & -> & _)%elem_of_lookup_imap. done.
Qed.

Lemma presses_ok scs mods :
  Forall (λ sc, u8 sc) scs → u8 mods → Forall key_event_ok (presses scs mods).
Proof. intros H Hm. unfold presses. rewrite Forall_fmap. eapply Forall_impl; [exact H|]. by split. Qed.

Lemma releases_ok scs mods :
  Forall (λ sc, u8 sc) scs → u8 mods → Forall key_event_ok (releases scs mods).
Proof.
  intros H Hm. apply Forall_forall. intros e (i & sc & -> & Hi)%elem_of_lookup_imap.
  apply list_elem_of_lookup_2 in Hi. rewrite elem_of_reverse in Hi. rewrite Forall_forall in H.
  split; [exact (H sc Hi)|]. cbn [ke_mods]. by destruct (Nat.eqb _ _).
Qed.

(** The modifiers are those of the last event. *)
Lemma play_modifiers evs e :
  Forall key_event_ok (evs ++ [e]) → ke_sc e ≤ 0x65 →
  modifiers (play (evs ++ [e]) Keyboard_new) = ke_mods e.
Proof.
  intros [H [[Hs Hm] _]%Forall_cons]%Forall_app Hle. rewrite play_snoc, inject_key_run by first [done|by apply play_wf].
  rewrite decide_True; [done|]. left. widths. lia.
Qed.

Lemma presses_modifiers evs scs mods :
  Forall key_event_ok (evs ++ presses scs mods) → Forall (λ sc, sc ≤ 0x65) scs → scs ≠ [] →
  modifiers (play (evs ++ presses scs mods) Keyboard_new) = mods.
Proof.
  destruct scs as [|sc scs _] using rev_ind; [done|]. intros H [_ [Hle _]%Forall_cons]%Forall_app _.
  unfold presses in *. rewrite fmap_app, app_assoc in *.
  change ((λ sc, mkKeyEvent sc true mods) <$> [sc]) with [mkKeyEvent sc true mods] in *.
  by rewrite play_modifiers.
Qed.

Lemma releases_modifiers evs scs mods :
  Forall key_event_ok (evs ++ releases scs mods) → Forall (λ sc, sc ≤ 0x65) scs → scs ≠ [] →
  modifiers (play (evs ++ releases scs mods) Keyboard_new) = Modifiers_empty.
Proof.
  destruct scs as [|sc scs]; [done|]. intros H [Hle _]%Forall_cons _.
  unfold releases in *. rewrite reverse_cons, imap_app, app_assoc, (imap_cons _ sc), imap_nil in *.
  rewrite play_modifiers by done. cbn [ke_mods]. rewrite length_reverse. cbn.
  by rewrite Nat.add_0_r, Nat.add_1_r, Nat.eqb_refl.
Qed.

Lemma take_presses scs mods rest :
  event_of <$> take (length scs) (chord_edges scs mods ++ rest) = presses scs mods.
Proof.
  unfold chord_edges. rewrite <-app_assoc, take_app_length' by (by rewrite length_fmap).
  by rewrite <-list_fmap_compose.
Qed.

Lemma take_chord scs mods rest :
  take (length scs * 2) (chord_edges scs mods ++ rest) = chord_edges scs mods.
Proof. apply take_app_length'. symmetry. apply length_chord_edges. Qed.

(** ** Properties *)

(** [KeyboardChordFrame::try_new] accepts exactly the lists of at most six keys, none a
    modifier.  The edges of an accepted chord, sent to the keyboard after any history of key
    events, first press its keys: all of them are held, beside those held before, under the
    chord's modifiers.  Then they release them: what is held is what was held before, less
    the chord's keys, and no modifier is. *)
Theorem chord_presses_and_releases (scs : list Z) (mods : Modifiers) (evs : list KeyEvent)
    (Hscs : Forall (λ sc, u8 sc) scs) (Hm : u8 mods) (Hevs : Forall key_event_ok evs) :
  match try_new scs mods with
  | Ok ch =>
      (length scs ≤ KEYBOARD_CHORD_KEYS)%nat ∧ Forall (λ sc, sc ≤ 0x65) scs ∧
      ∃ frames, edge_frames ch = Ok (frames, (length scs * 2)%nat) ∧
        let before := play evs Keyboard_new in
        let pressed := play (evs ++ (event_of <$> take (length scs) frames)) Keyboard_new in
        let after := play (evs ++ (event_of <$> take (length scs * 2) frames)) Keyboard_new in
        (∀ k, k ∈ held_keys pressed ↔ (k ∈ scs ∨ k ∈ held_keys before)) ∧
        (∀ k, k ∈ held_keys after ↔ ((k ∉ scs) ∧ k ∈ held_keys before)) ∧
        (scs ≠ [] → modifiers pressed = mods ∧ modifiers after = Modifiers_empty)
  | Err _ => (KEYBOARD_CHORD_KEYS < length scs)%nat ∨ Exists (λ sc, 0x65 < sc) scs
  | Panicked => False
  end.
Proof.
  rewrite try_new_run. case_decide as Hl; [by left|]. destruct (existsb _ scs) eqn:Eb.
  { right. apply existsb_exists in Eb as (sc & Hin%list_elem_of_In & Hlt%Z.ltb_lt).
    apply Exists_exists. eauto. }
  assert (Forall (λ sc, sc ≤ 0x65) scs) as Hle.
  { apply Forall_forall. intros sc Hin. apply Z.nlt_ge. intros Hlt.
    rewrite <-not_true_iff_false, existsb_exists in Eb. apply Eb. exists sc.
    split; [by apply list_elem_of_In|by apply Z.ltb_lt]. }
  split; [lia|]. split; [done|]. eexists. split; [apply edge_frames_run; lia|]. cbn zeta.
  pose proof (presses_ok scs mods Hscs Hm) as Hp. pose proof (releases_ok scs mods Hscs Hm) as Hr.
  rewrite take_presses, take_chord, chord_events.
  split_and!.
  - intros k. rewrite !play_held, last_event_app, presses_last by (by try apply Forall_app).
    rewrite Forall_forall in Hle, Hscs. case_decide as Hk; [|tauto].
    split; [tauto|]. intros _. split; [|done]. specialize (Hle k Hk). specialize (Hscs k Hk). widths. lia.
  - intros k. rewrite !play_held, !last_event_app, releases_last, presses_last
      by (repeat apply Forall_app_2; done).
    case_decide as Hk; [|tauto]. split; [by intros [_ ?]|tauto].
  - intros Hne. split; [apply presses_modifiers|rewrite app_assoc; apply releases_modifiers];
      repeat apply Forall_app_2; done.
Qed.

(** ** Witnesses *)

(** Ctrl-C while D is held. *)
Lemma chord_presses_and_releases_witness :
  let evs := [mkKeyEvent 7 true 0] in
  Forall (λ sc, u8 sc) [6] ∧ u8 LCTRL ∧ Forall key_event_ok evs ∧
  ∃ ch frames, try_new [6] LCTRL = Ok ch ∧ edge_frames ch = Ok (frames, 2%nat) ∧
    modifiers (play (evs ++ (event_of <$> take 1 frames)) Keyboard_new) = LCTRL ∧
    modifiers (play (evs ++ (event_of <$> take 2 frames)) Keyboard_new) = Modifiers_empty.
Proof.
  intros evs.
  assert (Forall (λ sc, u8 sc) [6]) as H1 by (apply Forall_singleton; by split).
  assert (u8 LCTRL) as H2 by (by split).
  assert (Forall key_event_ok evs) as H3 by (apply Forall_singleton; by vm_compute).
  split; [exact H1|]. split; [exact H2|]. split; [exact H3|].
  destruct (chord_presses_and_releases [6] LCTRL evs H1 H2 H3)
    as (_ & _ & frames & He & _ & _ & Hmod).
  eexists _, frames. split; [reflexivity|]. split; [exact He|]. apply Hmod. discriminate.
Defined.
