(* ===== verification/Dispatcher.v ===== *)
(** * The dispatcher thread ([src/src/client.rs])

    [dispatcher_loop] owns the session and runs the commands it receives, in order, until a
    [Close] or until every client is gone.  The first error is kept for the next
    acknowledged flush.  The commands received are a list: which they are is the channel's
    business, modelled in [Runtime]. *)

From stdpp Require Import gmap.
From S2P Require Import Prelude Words Errors Types Utf8 Float32 Message Transport Descriptor.
From S2P Require Import Keyboard Mouse Gamepad Coalesce Sink Session Touch Refinement.
From S2P Require Import SessionInv Lifecycle Commands.
Local Open Scope Z_scope.

(** The locals of the loop, and the [FlushSlot]s that were notified. *)
Record DispatchState (W : Type) : Type := mkDispatch
  { ds_session : HidSession W; pending_error : option Error;
    flush_slots : gmap nat (outcome Error Z) }.
Arguments mkDispatch {W}.
Arguments ds_session {W}.
Arguments pending_error {W}.
Arguments flush_slots {W}.

Definition record_first_error {A : Type} (pending : option Error) (result : outcome Error A) :
    option Error :=
  match pending with
  | Some err => Some err
  | None => match result with Err err => Some err | _ => None end
  end.

Section Dispatcher.
Context {W : Type} `{!MessageSink W}.
Abbreviation S := (HidSession W).
Abbreviation D := (DispatchState W).

Definition set_session (s : S) (d : D) : D := mkDispatch s (pending_error d) (flush_slots d).
Definition set_pending_error (e : option Error) (d : D) : D :=
  mkDispatch (ds_session d) e (flush_slots d).

Definition in_session {A} (c : cmd S Error A) : cmd D Error A := zoom ds_session set_session c.

(** [record_first_error(pending_error, session.method(..))] *)
Definition recording {A} (c : cmd S Error A) : cmd D Error unit := λ d,
  match c (ds_session d) with
  | (Panicked, s) => (Panicked, set_session s d)
  | (o, s) => (Ok tt, mkDispatch s (record_first_error (pending_error d) o) (flush_slots d))
  end.

(** [&frames[..len as usize]] *)
Definition slice {X} (len : Z) (frames : list X) : cmd D Error (list X) :=
  if decide (len ≤ Z.of_nat (length frames)) then mret (take (Z.to_nat len) frames) else unwind.

(** [FlushSlot::notify]; the mutex of a slot is never poisoned, since no holder unwinds. *)
Definition notify (slot : nat) (result : outcome Error Z) : cmd D Error unit :=
  modify (λ d, mkDispatch (ds_session d) (pending_error d) (<[slot := result]> (flush_slots d))).

(** The arm of [FlushAck]. *)
Definition flush_ack (slot : nat) : cmd D Error unit := λ d,
  match session_flush (ds_session d) with
  | (Panicked, s) => (Panicked, mkDispatch s None (flush_slots d))
  | (flush_result, s) =>
      match pending_error d with
      | Some err =>
          notify slot (Err err) (mkDispatch s (record_first_error None flush_result) (flush_slots d))
      | None => notify slot flush_result (mkDispatch s None (flush_slots d))
      end
  end.

(** An arm that runs one method of the session. *)
Definition answer {A} (c : cmd S Error A) : cmd D Error bool := recording c;; mret false.

(** An arm that runs a method for each frame of a fixed buffer. *)
Definition answer_each {X A} (len : Z) (frames : list X) (c : X → cmd S Error A) :
    cmd D Error bool :=
  fs ← slice len frames;
  for_each fs (λ frame, recording (c frame));;
  mret false.

(** [true] ends the loop. *)
Definition dispatch_to_session (c : HidCommand) : cmd D Error bool :=
  match c with
  | Hc_Close => in_session (ignore_err close);; mret true
  | Hc_TypeText s => answer (type_text s)
  | Hc_TypeTextStrict s => answer (type_text_strict s)
  | Hc_Key sc pressed mods => answer (key sc pressed mods)
  | Hc_KeyTap sc mods => answer (key sc true mods;; key sc false Modifiers_empty)
  | Hc_KeyBatchFixed len frames =>
      answer_each len frames (λ f, key (kf_scancode f) (kf_pressed f) (kf_mods f))
  | Hc_MouseMotion dx dy buttons => answer (mouse_motion dx dy buttons)
  | Hc_MouseButtons buttons => answer (mouse_buttons buttons)
  | Hc_MouseScroll h v => answer (mouse_scroll h v)
  | Hc_MouseBatchFixed len frames =>
      answer_each len frames (λ f, mouse_motion (mf_dx f) (mf_dy f) (mf_buttons f))
  | Hc_InjectKeycode action keycode repeat metastate =>
      answer (inject_keycode action keycode repeat metastate)
  | Hc_AndroidKeyTap keycode metastate => answer (tap_android_keycode keycode metastate)
  | Hc_AndroidKeyBatchFixed len frames =>
      answer_each len frames (λ f,
        inject_keycode (ak_action f) (ak_keycode f) (ak_repeat f) (ak_metastate f))
  | Hc_BackOrScreenOn action => answer (send (Cm_BackOrScreenOn action))
  | Hc_MultitouchDown id x y pressure => answer (inject_touch_action ACTION_DOWN id x y pressure)
  | Hc_MultitouchMove id x y pressure => answer (inject_touch_action ACTION_MOVE id x y pressure)
  | Hc_MultitouchUp id => answer (inject_touch_action ACTION_UP id 0 0 zero)
  | Hc_MultitouchCancel id => answer (cancel_touch id)
  | Hc_TouchBatchFixed len frames =>
      answer_each len frames (λ f,
        inject_touch (tf_action f) (tf_pointer_id f) (tf_x f) (tf_y f) (tf_pressure f))
  | Hc_InjectScroll x y h v buttons => answer (inject_scroll x y h v buttons)
  | Hc_InjectScrollBatchFixed len frames =>
      answer_each len frames (λ f,
        inject_scroll (sf_x f) (sf_y f) (sf_hscroll f) (sf_vscroll f) (sf_buttons f))
  | Hc_GamepadButton btn pressed => answer (set_button btn pressed)
  | Hc_GamepadButtons buttons => answer (set_session_buttons buttons)
  | Hc_GamepadStick axis value => answer (set_stick axis value)
  | Hc_GamepadStickRaw axis value => answer (set_stick_raw axis value)
  | Hc_GamepadLeftStickRaw x y => answer (set_left_stick_raw x y)
  | Hc_GamepadRightStickRaw x y => answer (set_right_stick_raw x y)
  | Hc_GamepadTriggersRaw l r => answer (set_triggers_raw l r)
  | Hc_GamepadSticksRaw lx ly rx ry lt rt => answer (set_session_sticks_raw lx ly rx ry lt rt)
  | Hc_GamepadFrameRaw b lx ly rx ry lt rt => answer (set_frame_raw (mkFrame b lx ly rx ry lt rt))
  | Hc_GamepadFrameRawUnchecked frame => answer (set_frame_raw_unchecked frame)
  | Hc_GamepadFrameRawBatch frames => answer (set_frame_raw_batch frames)
  | Hc_GamepadFrameRawBatchFixed len frames =>
      fs ← slice len frames; answer (set_frame_raw_batch fs)
  | Hc_GamepadFrameRawBatchFixedUnchecked len frames =>
      fs ← slice len frames; answer (set_frame_raw_batch_unchecked fs)
  | Hc_GamepadFrameRawBatchUnchecked frames => answer (set_frame_raw_batch_unchecked frames)
  | Hc_GamepadPackedFrame frame => answer (set_frame_raw_packed frame)
  | Hc_GamepadPackedFrameBatch frames => answer (set_frame_raw_packed_batch frames)
  | Hc_GamepadPackedFrameBatchFixed len frames =>
      fs ← slice len frames; answer (set_frame_raw_packed_batch fs)
  | Hc_SetScreenSize w h => in_session (set_screen_size w h);; mret false
  | Hc_SetScreenPower on => answer (send (Cm_SetDisplayPower on))
  | Hc_ShowNotifications => answer show_notifications
  | Hc_ShowQuickSettings => answer show_quick_settings
  | Hc_CollapsePanels => answer collapse_panels
  | Hc_RotateDevice => answer rotate_device
  | Hc_ResizeDisplay w h => answer (resize_display w h)
  | Hc_SetTorch on => answer (set_torch on)
  | Hc_CameraZoomIn => answer camera_zoom_in
  | Hc_CameraZoomOut => answer camera_zoom_out
  | Hc_OpenHardKeyboardSettings => answer open_hard_keyboard_settings
  | Hc_ResetVideo => answer reset_video
  | Hc_AiConfig flags interval dim => answer (send (Cm_AiConfig (mkAiConfig flags interval dim)))
  | Hc_AiQuery since => answer (send (Cm_AiQuery (mkAiQuery since)))
  | Hc_AiPause => answer (send Cm_AiPause)
  | Hc_LaunchApp name => answer (send (Cm_StartApp name))
  | Hc_SetClipboard text paste => answer (send (Cm_SetClipboard (mkSetClipboard 0 paste text)))
  | Hc_SetClipboardSequenced sequence text paste =>
      answer (send (Cm_SetClipboard (mkSetClipboard sequence paste text)))
  | Hc_GetClipboard copy_key => answer (request_clipboard copy_key)
  | Hc_FlushAck seq slot => flush_ack slot;; mret false
  | Hc_Flush => answer session_flush
  end.

(** The commands received until the loop ends; at the end of the list every sender is
    gone. *)
Fixpoint serve (received : list HidCommand) : cmd D Error unit :=
  match received with
  | [] => in_session (ignore_err close)
  | c :: received =>
      stop ← dispatch_to_session c;
      if (stop : bool) then mret tt else serve received
  end.
End Dispatcher.

(** The thread's result, and the transport it leaves; an unwind drops the session. *)
Definition dispatcher_loop {T} `{!TransportWrite T} (s : HidSession (CoalescingWriter T))
    (received : list HidCommand) : outcome Error T * T :=
  match serve received (mkDispatch s None ∅) with
  | (Panicked, d) => (Panicked, transport (link (drop_session (ds_session d)).2))
  | (_, d) => session_into_inner (ds_session d)
  end.

(** [HidDispatcher::join]: it takes the handle by value, so it is joined once. *)
Definition join {T} (result : outcome Error T) : outcome Error T :=
  match result with
  | Ok t => Ok t
  | Err e => Err e
  | Panicked => Err (DispatcherDown "thread panicked")
  end.

(** ** Commands as calls of the session *)

(** The fixed buffers are long enough for the lengths sent with them. *)
Definition fits (c : HidCommand) : bool :=
  match c with
  | Hc_KeyBatchFixed len fs => bool_decide (len ≤ Z.of_nat (length fs))
  | Hc_MouseBatchFixed len fs => bool_decide (len ≤ Z.of_nat (length fs))
  | Hc_AndroidKeyBatchFixed len fs => bool_decide (len ≤ Z.of_nat (length fs))
  | Hc_TouchBatchFixed len fs => bool_decide (len ≤ Z.of_nat (length fs))
  | Hc_InjectScrollBatchFixed len fs => bool_decide (len ≤ Z.of_nat (length fs))
  | Hc_GamepadFrameRawBatchFixed len fs | Hc_GamepadFrameRawBatchFixedUnchecked len fs =>
      bool_decide (len ≤ Z.of_nat (length fs))
  | Hc_GamepadPackedFrameBatchFixed len fs => bool_decide (len ≤ Z.of_nat (length fs))
  | _ => true
  end.

(** The calls of the session's interface a command stands for. *)
Definition calls_of (c : HidCommand) : list Call :=
  match c with
  | Hc_Close => [C_close]
  | Hc_TypeText s => [C_type_text s]
  | Hc_TypeTextStrict s => [C_type_text_strict s]
  | Hc_Key sc pressed mods => [C_key sc pressed mods]
  | Hc_KeyTap sc mods => [C_key sc true mods; C_key sc false Modifiers_empty]
  | Hc_KeyBatchFixed len fs =>
      (λ f, C_key (kf_scancode f) (kf_pressed f) (kf_mods f)) <$> take (Z.to_nat len) fs
  | Hc_MouseMotion dx dy b => [C_mouse_motion dx dy b]
  | Hc_MouseButtons b => [C_mouse_buttons b]
  | Hc_MouseScroll h v => [C_mouse_scroll h v]
  | Hc_MouseBatchFixed len fs =>
      (λ f, C_mouse_motion (mf_dx f) (mf_dy f) (mf_buttons f)) <$> take (Z.to_nat len) fs
  | Hc_InjectKeycode a k r m => [C_send (Cm_InjectKeycode (mkInjectKeycode a k r m))]
  | Hc_AndroidKeyTap k m => [C_tap_android_keycode k m]
  | Hc_AndroidKeyBatchFixed len fs =>
      (λ f, C_send (Cm_InjectKeycode (mkInjectKeycode (ak_action f) (ak_keycode f) (ak_repeat f)
                                        (ak_metastate f)))) <$> take (Z.to_nat len) fs
  | Hc_BackOrScreenOn a => [C_send (Cm_BackOrScreenOn a)]
  | Hc_MultitouchDown id x y p => [C_inject_touch ACTION_DOWN id x y p]
  | Hc_MultitouchMove id x y p => [C_inject_touch ACTION_MOVE id x y p]
  | Hc_MultitouchUp id => [C_inject_touch ACTION_UP id 0 0 zero]
  | Hc_MultitouchCancel id => [C_inject_touch TOUCH_CANCEL id 0 0 zero]
  | Hc_TouchBatchFixed len fs =>
      (λ f, C_inject_touch (tf_action f) (tf_pointer_id f) (tf_x f) (tf_y f) (tf_pressure f))
        <$> take (Z.to_nat len) fs
  | Hc_InjectScroll x y h v b => [C_inject_scroll x y h v b]
  | Hc_InjectScrollBatchFixed len fs =>
      (λ f, C_inject_scroll (sf_x f) (sf_y f) (sf_hscroll f) (sf_vscroll f) (sf_buttons f))
        <$> take (Z.to_nat len) fs
  | Hc_GamepadButton btn p => [C_set_button btn p]
  | Hc_GamepadButtons b => [C_set_buttons b]
  | Hc_GamepadStick a v => [C_set_stick a v]
  | Hc_GamepadStickRaw a v => [C_set_stick_raw a v]
  | Hc_GamepadLeftStickRaw x y => [C_set_left_stick_raw x y]
  | Hc_GamepadRightStickRaw x y => [C_set_right_stick_raw x y]
  | Hc_GamepadTriggersRaw l r => [C_set_triggers_raw l r]
  | Hc_GamepadSticksRaw lx ly rx ry lt rt => [C_set_sticks_raw lx ly rx ry lt rt]
  | Hc_GamepadFrameRaw b lx ly rx ry lt rt => [C_set_frame_raw (mkFrame b lx ly rx ry lt rt)]
  | Hc_GamepadFrameRawUnchecked f => [C_set_frame_raw_unchecked f]
  | Hc_GamepadFrameRawBatch fs => [C_set_frame_raw_batch fs]
  | Hc_GamepadFrameRawBatchFixed len fs => [C_set_frame_raw_batch (take (Z.to_nat len) fs)]
  | Hc_GamepadFrameRawBatchFixedUnchecked len fs =>
      [C_set_frame_raw_batch_unchecked (take (Z.to_nat len) fs)]
  | Hc_GamepadFrameRawBatchUnchecked fs => [C_set_frame_raw_batch_unchecked fs]
  | Hc_GamepadPackedFrame f => [C_set_frame_raw_packed f]
  | Hc_GamepadPackedFrameBatch fs => [C_set_frame_raw_packed_batch fs]
  | Hc_GamepadPackedFrameBatchFixed len fs =>
      [C_set_frame_raw_packed_batch (take (Z.to_nat len) fs)]
  | Hc_SetScreenSize w h => [C_set_screen_size w h]
  | Hc_SetScreenPower on => [C_send (Cm_SetDisplayPower on)]
  | Hc_ShowNotifications => [C_send Cm_ExpandNotificationPanel]
  | Hc_ShowQuickSettings => [C_send Cm_ExpandSettingsPanel]
  | Hc_CollapsePanels => [C_send Cm_CollapsePanels]
  | Hc_RotateDevice => [C_send Cm_RotateDevice]
  | Hc_ResizeDisplay w h => [C_send (Cm_ResizeDisplay w h)]
  | Hc_SetTorch on => [C_send (Cm_CameraSetTorch on)]
  | Hc_CameraZoomIn => [C_send Cm_CameraZoomIn]
  | Hc_CameraZoomOut => [C_send Cm_CameraZoomOut]
  | Hc_OpenHardKeyboardSettings => [C_send Cm_OpenHardKeyboardSettings]
  | Hc_ResetVideo => [C_send Cm_ResetVideo]
  | Hc_AiConfig f i d => [C_send (Cm_AiConfig (mkAiConfig f i d))]
  | Hc_AiQuery s => [C_send (Cm_AiQuery (mkAiQuery s))]
  | Hc_AiPause => [C_send Cm_AiPause]
  | Hc_LaunchApp n => [C_send (Cm_StartApp n)]
  | Hc_SetClipboard t p => [C_send (Cm_SetClipboard (mkSetClipboard 0 p t))]
  | Hc_SetClipboardSequenced s t p => [C_send (Cm_SetClipboard (mkSetClipboard s p t))]
  | Hc_GetClipboard k => [C_send (Cm_GetClipboard k)]
  | Hc_FlushAck _ _ | Hc_Flush => [C_flush]
  end.

(** Commands other than the two with an arm of their own. *)
Definition plain (c : HidCommand) : bool :=
  match c with
  | Hc_Close | Hc_FlushAck _ _ => false
  | _ => true
  end.

(** ** A plain command records the outcome of each of its methods *)

Section Attempts.
Context {W : Type} `{!MessageSink W}.
Abbreviation S := (HidSession W).
Abbreviation D := (DispatchState W).

(** A tap of a key gives up after its press failed. *)
Definition attempts (c : HidCommand) : list (cmd S Error unit) :=
  match c with
  | Hc_KeyTap sc mods => [key sc true mods;; key sc false Modifiers_empty]
  | _ => run_call <$> calls_of c
  end.

Lemma recording_drop {A} (c : cmd S Error A) : recording (_ ← c; mret tt) ≅ recording c.
Proof. intros d. unfold recording. run. by destruct (c (ds_session d)) as [[a|e|] s]. Qed.

Lemma recording_modify (f : S → S) : in_session (modify f) ≅ recording (modify f).
Proof. intros [s [e|] fs]; done. Qed.

Lemma one_attempt (c : cmd S Error unit) : (for_each [c] recording;; mret false) ≅ answer c.
Proof.
  intros d. unfold answer. cbn [for_each]. rewrite (cmd_bind_assoc (recording c) _ _ d).
  unfold mbind, cmd_bind. by destruct (recording c d) as [[]].
Qed.

Lemma one_attempt_drop {A} (c : cmd S Error A) :
  (for_each [_ ← c; mret tt] recording;; mret false) ≅ answer c.
Proof.
  intros d. rewrite (one_attempt _ d). unfold answer.
  exact (cmd_bind_proper _ _ (λ _ _, eq_refl) _ _ (recording_drop c) d).
Qed.

Lemma slice_run {X} len (fs : list X) (d : D) :
  bool_decide (len ≤ Z.of_nat (length fs)) = true →
  slice len fs d = (Ok (take (Z.to_nat len) fs), d).
Proof. intros H%bool_decide_eq_true. unfold slice. by rewrite decide_True. Qed.

Lemma each_attempt {X} len (fs : list X) (c : X → cmd S Error unit) (k : X → Call) (d : D) :
  (∀ x, run_call (k x) = c x) → bool_decide (len ≤ Z.of_nat (length fs)) = true →
  answer_each len fs c d =
  (for_each (run_call <$> (k <$> take (Z.to_nat len) fs)) recording;; mret false) d.
Proof.
  intros Hk Hf. unfold answer_each. rewrite (bind_ok _ _ d _ d (slice_run len fs d Hf)).
  assert (for_each (take (Z.to_nat len) fs) (λ f, recording (c f)) ≅
          for_each (run_call <$> (k <$> take (Z.to_nat len) fs)) recording) as H;
    [|exact (cmd_bind_proper _ _ (λ _ _, eq_refl) _ _ H d)].
  generalize (take (Z.to_nat len) fs) as l. intros l.
  induction l as [|x l IH]; intros d'; [done|]. cbn [for_each fmap list_fmap].
  rewrite (Hk x). unfold mbind, cmd_bind. destruct (recording (c x) d') as [[]]; [apply IH|done..].
Qed.

Lemma dispatch_plain c (d : D) :
  plain c = true → fits c = true →
  dispatch_to_session c d = (for_each (attempts c) recording;; mret false) d.
Proof.
  intros Hp Hf. destruct c; try discriminate Hp; cbn [dispatch_to_session attempts calls_of fmap list_fmap run_call];
    lazymatch goal with
    | |- answer_each _ _ _ _ = _ => by apply each_attempt
    | |- answer _ _ = _ =>
        symmetry; first [apply one_attempt | apply one_attempt_drop]
    | |- (in_session _;; _) _ = _ =>
        etrans; [|symmetry; apply one_attempt]; unfold answer;
        exact (cmd_bind_proper _ _ (λ _ _, eq_refl) _ _ (recording_modify _) d)
    | |- _ =>
        rewrite (bind_ok _ _ d _ d (slice_run _ _ d Hf)); symmetry; apply one_attempt_drop
    end.
Qed.
End Attempts.

(** ** The first error *)

Definition first_error {A : Type} (os : list (outcome Error A)) : option Error :=
  head (omap (λ o, match o with Err e => Some e | _ => None end) os).

Lemma record_all {A} (os : list (outcome Error A)) p :
  foldl record_first_error p os = match p with Some e => Some e | None => first_error os end.
Proof.
  revert p. induction os as [|o os IH]; intros p; [by destruct p|]. cbn [foldl]. rewrite IH.
  by destruct p, o.
Qed.

Lemma no_first_error {A} (os : list (outcome Error A)) :
  first_error os = None → Panicked ∉ os → Forall (λ o, is_ok o = true) os.
Proof.
  induction os as [|[a|e|] os IH]; cbn; intros Hf Hp; [done| |done|].
  - constructor; [done|]. apply IH; [done|]. rewrite not_elem_of_cons in Hp. tauto.
  - rewrite not_elem_of_cons in Hp. by destruct Hp as [[] _].
Qed.

Section FirstError.
Context {W : Type} `{!MessageSink W}.
Abbreviation S := (HidSession W).
Abbreviation D := (DispatchState W).

(** Methods called one after another, whatever they return. *)
Fixpoint attempt_all (cs : list (cmd S Error unit)) (s : S) : list (outcome Error unit) * S :=
  match cs with
  | [] => ([], s)
  | c :: cs =>
      let '(o, s) := c s in
      let '(os, s) := attempt_all cs s in
      (o :: os, s)
  end.

Lemma attempt_app cs cs' s :
  attempt_all (cs ++ cs') s =
  ((attempt_all cs s).1 ++ (attempt_all cs' (attempt_all cs s).2).1,
   (attempt_all cs' (attempt_all cs s).2).2).
Proof.
  revert s. induction cs as [|c cs IH]; intros s; cbn [attempt_all app].
  - cbn [fst snd app]. by destruct (attempt_all cs' s).
  - destruct (c s) as [o s1]. rewrite IH. by destruct (attempt_all cs s1).
Qed.

Lemma attempt_calls cs s : attempt_all (run_call <$> cs) s = run_calls cs s.
Proof.
  revert s. induction cs as [|c cs IH]; intros s; [done|]. cbn [fmap list_fmap attempt_all run_calls].
  destruct (run_call c s) as [o s1]. by rewrite <-IH.
Qed.

Lemma recording_run (c : cmd S Error unit) (d : D) :
  (c (ds_session d)).1 ≠ Panicked →
  recording c d =
  (Ok tt, mkDispatch (c (ds_session d)).2
            (record_first_error (pending_error d) (c (ds_session d)).1) (flush_slots d)).
Proof. unfold recording. by destruct (c (ds_session d)) as [[a|e|] s]. Qed.

Lemma recording_all cs (d : D) :
  Panicked ∉ (attempt_all cs (ds_session d)).1 →
  for_each cs recording d =
  (Ok tt, mkDispatch (attempt_all cs (ds_session d)).2
            (foldl record_first_error (pending_error d) (attempt_all cs (ds_session d)).1)
            (flush_slots d)).
Proof.
  revert d. induction cs as [|c cs IH]; intros d; cbn [attempt_all]; [by destruct d|].
  rewrite for_each_cons. pose proof (recording_run c d) as Hr.
  destruct (c (ds_session d)) as [o s1]. specialize (IH (mkDispatch s1
    (record_first_error (pending_error d) o) (flush_slots d))). cbn [ds_session] in IH.
  destruct (attempt_all cs s1) as [os s2]. cbn [fst snd foldl] in *.
  rewrite not_elem_of_cons. intros [Ho Hos]. by rewrite Hr, IH.
Qed.

(** A run of plain commands. *)
Definition tidy (c : HidCommand) : Prop := plain c = true ∧ fits c = true.

Lemma serve_plain cs rest (d : D) :
  Forall tidy cs → Panicked ∉ (attempt_all (cs ≫= attempts) (ds_session d)).1 →
  serve (cs ++ rest) d =
  serve rest (mkDispatch (attempt_all (cs ≫= attempts) (ds_session d)).2
    (foldl record_first_error (pending_error d) (attempt_all (cs ≫= attempts) (ds_session d)).1)
    (flush_slots d)).
Proof.
  intros Hcs. revert d. induction Hcs as [|c cs [Hp Hf] _ IH]; intros d; [by destruct d|].
  rewrite bind_cons, attempt_app. cbn [fst snd app serve]. intros [Hn1 Hn2]%not_elem_of_app.
  rewrite (bind_ok _ _ d false (mkDispatch (attempt_all (attempts c) (ds_session d)).2
    (foldl record_first_error (pending_error d) (attempt_all (attempts c) (ds_session d)).1)
    (flush_slots d))).
  - rewrite IH by done. by rewrite foldl_app.
  - rewrite dispatch_plain by done. by rewrite (bind_ok _ _ d _ _ (recording_all _ d Hn1)).
Qed.
End FirstError.

(** What an acknowledged flush tells its caller.  After any plain commands since the last
    barrier, over any transport, as long as nothing unwinds: the slot is notified with the
    first error any of their methods returned, in order, or else with the result of the
    flush; that error is forgotten, and the flush's own, if hidden by it, is kept for the
    next barrier; the loop goes on with the commands behind.  So an [Ok] means that every
    method succeeded and that no byte is left in the writer's buffer. *)
Theorem flush_ack_reports {T} `{!TransportWrite T, !LawfulTransport T}
    (d : DispatchState (CoalescingWriter T)) cs seq slot rest
    (Hcs : Forall tidy cs) (Hd : pending_error d = None)
    (Hcalls : Panicked ∉ (attempt_all (cs ≫= attempts) (ds_session d)).1)
    (Hflush : (session_flush (attempt_all (cs ≫= attempts) (ds_session d)).2).1 ≠ Panicked) :
  let os := (attempt_all (cs ≫= attempts) (ds_session d)).1 in
  let s := (attempt_all (cs ≫= attempts) (ds_session d)).2 in
  ∃ d', serve (cs ++ Hc_FlushAck seq slot :: rest) d = serve rest d' ∧
    flush_slots d' !! slot =
      Some (match first_error os with Some e => Err e | None => (session_flush s).1 end) ∧
    pending_error d' =
      match first_error os with
      | Some _ => record_first_error None (session_flush s).1
      | None => None
      end ∧
    ds_session d' = (session_flush s).2 ∧
    (∀ n, flush_slots d' !! slot = Some (Ok n) →
          Forall (λ o, is_ok o = true) os ∧ pending (link (ds_session d')) = []).
Proof.
  intros os s. rewrite (serve_plain cs _ d Hcs Hcalls). fold os s in Hflush |- *. rewrite Hd, record_all.
  cbn [serve dispatch_to_session].
  assert (∀ n, (session_flush s).1 = Ok n → pending (link (session_flush s).2) = []) as Hp.
  { unfold session_flush, on_link, zoom. pose proof (flush_now_spec (link s)) as (_ & _ & Hm).
    cbn [sink_flush Coalescing_sink]. destruct (flush_now (link s)) as [o w]. cbn in *.
    intros n ->. apply Hm. }
  pose proof (no_first_error os) as Hnone.
  destruct (session_flush s) as [o s'] eqn:Es. cbn [fst snd] in *.
  destruct (first_error os) as [e|] eqn:Ef.
  - eexists. split; [|split_and!].
    + rewrite (bind_ok _ _ _ false
        (mkDispatch s' (record_first_error None o) (<[slot := Err e]> (flush_slots d)))); [reflexivity|].
      unfold flush_ack. run. cbn [ds_session pending_error]. rewrite Es. by destruct o.
    + cbn [flush_slots]. by rewrite lookup_insert_eq.
    + done.
    + done.
    + intros n. cbn. by rewrite lookup_insert_eq.
  - eexists. split; [|split_and!].
    + rewrite (bind_ok _ _ _ false (mkDispatch s' None (<[slot := o]> (flush_slots d)))); [reflexivity|].
      unfold flush_ack. run. cbn [ds_session pending_error]. rewrite Es. by destruct o.
    + cbn [flush_slots]. by rewrite lookup_insert_eq.
    + done.
    + done.
    + intros n. cbn. rewrite lookup_insert_eq. intros [= ->]. split; [by apply Hnone|by eapply Hp].
Qed.

(** ** When closing fails *)

Section CloseError.
Context {W : Type} `{!MessageSink W}.

Definition same_closed (s s' : HidSession W) : Prop := closed s' = closed s.

#[export] Instance same_closed_preorder : PreOrder same_closed.
Proof. split; unfold same_closed; [done|]. intros s1 s2 s3. congruence. Qed.

Lemma send_same_closed m : stable same_closed (send m).
Proof. intros s. unfold send, on_link, zoom. by destruct (sink_push m (link s)). Qed.

Lemma close_gamepad_same_closed : stable same_closed close_gamepad.
Proof.
  apply stable_bind; [apply _|by intros s|intros [g|]]; [|by intros s].
  apply stable_bind; [apply _|by intros s|intros slot].
  destruct (match slot with Some i => close_slot_idx i g | None => _ end) as [msg g'].
  apply stable_bind; [apply _|by intros s|intros id].
  apply stable_bind; [apply _|by intros s|intros _].
  apply stable_bind; [apply _| |by intros _ s].
  destruct msg; [apply send_same_closed|by intros s..].
Qed.

Lemma device_same_closed {D} (d : option D) (f : D → outcome Error ControlMessage) :
  stable same_closed (match d with Some d => msg ← lift (f d); send msg | None => mret tt end).
Proof.
  destruct d; [|by intros s]. apply stable_bind; [apply _|by intros s|apply send_same_closed].
Qed.

(** [close] marks the session closed only when all of it succeeded. *)
Lemma close_err s e : (close s).1 = Err e → closed (close s).2 = false.
Proof.
  set (open_on_error (c : cmd (HidSession W) Error unit) :=
    ∀ s e, (c s).1 = Err e → closed (c s).2 = closed s).
  assert (∀ A (c : cmd (HidSession W) Error A) (k : A → cmd (HidSession W) Error unit), stable same_closed c →
    (∀ a, open_on_error (k a)) → open_on_error (c ≫= k)) as Hseq.
  { intros A c k Hc Hk s' e'. specialize (Hc s'). unfold mbind, cmd_bind.
    destruct (c s') as [[a|e1|] s1]; [|done..]. intros H. etrans; [by apply (Hk a s1 e')|exact Hc]. }
  assert (open_on_error close) as Hopen.
  { apply Hseq; [by intros s'|intros [|]]; [done|].
    apply Hseq; [by intros s'|intros k]. apply Hseq; [apply device_same_closed|intros _].
    apply Hseq; [by intros s'|intros m]. apply Hseq; [apply device_same_closed|intros _].
    apply Hseq; [apply close_gamepad_same_closed|done]. }
  intros H. rewrite (Hopen s e H). unfold close, try_close_all in H.
  unfold mbind at 1, cmd_bind at 1 in H. cbn [read] in H. by destruct (closed s).
Qed.
End CloseError.

(** A dispatcher whose [close] fails, at a [Close] command or when its last client is
    gone, does not return the error: the session is not marked closed, [into_inner]'s
    assertion unwinds, and all the caller of [join] learns is that the thread panicked; the
    transport is not given back. *)
Theorem close_error_panics {T} `{!TransportWrite T} (s : HidSession (CoalescingWriter T))
    (e : Error) received (Hclose : (close s).1 = Err e) :
  join (dispatcher_loop s (Hc_Close :: received)).1 = Err (DispatcherDown "thread panicked") ∧
  join (dispatcher_loop s []).1 = Err (DispatcherDown "thread panicked").
Proof.
  pose proof (close_err s e Hclose) as Hc.
  unfold dispatcher_loop. cbn [serve dispatch_to_session].
  unfold in_session, zoom, ignore_err. run.
  cbn [ds_session]. destruct (close s) as [o s'] eqn:E. cbn [fst snd] in Hclose, Hc. subst o.
  unfold set_session, session_into_inner. cbn [ds_session]. by rewrite Hc.
Qed.

(** ** Witnesses *)

(** A keyboard session that is asked to move a mouse it does not have. *)
Definition clumsy : DispatchState (CoalescingWriter MockTransport) :=
  mkDispatch (open (connect Mock_new kbd_only Z.of_nat) kbd_only).2 None ∅.

Lemma flush_ack_reports_witness :
  let cs := [Hc_KeyTap 4 0; Hc_MouseMotion 1 1 0; Hc_TypeText []] in
  ∃ d', serve (cs ++ [Hc_FlushAck 1 0]) clumsy = serve [] d' ∧
    flush_slots d' !! 0%nat = Some (Err (SessionLifecycle "mouse not open")) ∧
    pending_error d' = None.
Proof.
  intros cs.
  assert (Forall tidy cs) as Hcs by (repeat constructor).
  assert (Panicked ∉ (attempt_all (cs ≫= attempts) (ds_session clumsy)).1) as Hp
    by (apply (bool_decide_unpack _); vm_compute; exact I).
  assert ((session_flush (attempt_all (cs ≫= attempts) (ds_session clumsy)).2).1 ≠ Panicked) as Hf
    by (apply (bool_decide_unpack _); vm_compute; exact I).
  destruct (flush_ack_reports clumsy cs 1 0%nat [] Hcs eq_refl Hp Hf) as (d' & Hd & Ha & He & _).
  exists d'. split; [exact Hd|]. split; [etrans; [exact Ha|by vm_compute]|].
  etrans; [exact He|by vm_compute].
Defined.

(** A transport that fails when the keyboard is destroyed. *)
Definition failing_session : HidSession (CoalescingWriter Scripted) :=
  (open (connect (mkScripted [] [None; None; Some 0%nat]) kbd_only Z.of_nat) kbd_only).2.

Lemma close_error_panics_witness :
  (close failing_session).1 = Err (Transport "scripted") ∧
  join (dispatcher_loop failing_session [Hc_Close]).1 = Err (DispatcherDown "thread panicked").
Proof.
  assert ((close failing_session).1 = Err (Transport "scripted")) as H by (by vm_compute).
  split; [exact H|]. exact (proj1 (close_error_panics failing_session _ [] H)).
Defined.
