(* ===== verification/Service.v ===== *)
(** * The dispatcher over a healthy transport

    The thread never unwinds, delivers the messages of the commands it received in order,
    closes the session and hands the transport back.  The proof runs the thread over the
    message log, where each command is the calls it stands for, and carries the result over
    with the session's simulation. *)

From stdpp Require Import gmap.
From S2P Require Import Prelude Words Errors Types Utf8 Float32 Message Transport Descriptor.
From S2P Require Import Keyboard Mouse Gamepad Coalesce Sink Session Touch Refinement.
From S2P Require Import SessionInv Lifecycle Commands Dispatcher.
Local Open Scope Z_scope.

(** ** Nothing unwinds on the log *)

Section Calm.
Abbreviation skeeps := (keeps (E := Error) session_ok).
Abbreviation any := (λ _, True).

Definition calm {A} (c : cmd L Error A) : Prop := ∀ s, session_ok s → (c s).1 ≠ Panicked.

Lemma calm_ret {A} (a : A) : calm (mret a).
Proof. done. Qed.

Lemma calm_raise {A} (e : Error) : calm (A := A) (raise e).
Proof. done. Qed.

Lemma calm_ok_or {A} (o : option A) e : calm (lift (ok_or o e)).
Proof. intros s _. by destruct o. Qed.

Lemma calm_bind {A B} (Q : A → Prop) (c : cmd L Error A) (k : A → cmd L Error B) :
  skeeps Q c → calm c → (∀ a, calm (k a)) → calm (c ≫= k).
Proof.
  intros Hk Hc Hrest s Hs. specialize (Hc s Hs). destruct (Hk s Hs) as [Hs' _].
  unfold mbind, cmd_bind. destruct (c s) as [[a|e|] s']; cbn in *; [by apply Hrest|done|done].
Qed.

Lemma calm_for_each {X} (P : X → Prop) (xs : list X) (f : X → cmd L Error unit) :
  Forall P xs → (∀ x, P x → skeeps any (f x) ∧ calm (f x)) → calm (for_each xs f).
Proof.
  intros Hxs Hf. induction Hxs as [|x xs Hx _ IH]; cbn; [apply calm_ret|].
  destruct (Hf x Hx) as [Hk Hc]. by eapply calm_bind.
Qed.

Lemma calm_drop {A B} (c : cmd L Error A) (b : B) : calm c → calm (_ ← c; mret b).
Proof. intros H s Hs. specialize (H s Hs). run. by destruct (c s) as [[]]. Qed.

Lemma calm_send m : calm (send m).
Proof. done. Qed.

Lemma calm_input id size data : calm (on_link (sink_uhid_input id size data)).
Proof. intros s _. unfold on_link, zoom. cbn. by case_decide. Qed.

Lemma calm_changed r : calm (push_changed r).
Proof. by destruct r as [[]|]. Qed.

Lemma calm_mouse {A} (c : cmd MouseHid Error A) : (∀ m, (c m).1 ≠ Panicked) → calm (on_mouse c).
Proof.
  intros Hc s _. unfold on_mouse. destruct (mouse s) as [m|]; [|done].
  specialize (Hc m). by destruct (c m).
Qed.

Lemma calm_hid_id : calm get_gamepad_hid_id.
Proof. intros s _. unfold get_gamepad_hid_id. destruct (closed s); [done|]. by destruct (gamepad_hid_id s). Qed.

Lemma calm_op op : op_wf op → calm (with_gamepad (raw_op op)).
Proof.
  intros Hop s (_ & _ & Hg & Hi & _). unfold with_gamepad. destruct (closed s); [done|].
  destruct (gamepad_slot s) as [i|] eqn:Ei; [|done].
  destruct (gamepad s) as [g|] eqn:Eg; [|done].
  specialize (Hg g eq_refl). specialize (Hi i eq_refl). pose proof Hg as (Hlen & _).
  destruct (lookup_lt_is_Some_2 (slots g) i) as [t Ht]; [by rewrite Hlen|].
  destruct (raw_op_spec op g i t Hg Hop Ht) as (r & t' & Hr & _). by rewrite Hr.
Qed.

Lemma calm_op_changed op : op_wf op → calm (r ← with_gamepad (raw_op op); push_changed r).
Proof.
  intros Hop. eapply calm_bind; [by apply with_gamepad_keeps|by apply calm_op|apply calm_changed].
Qed.

Lemma calm_key sc p m : u8 sc → u8 m → calm (key sc p m).
Proof.
  intros Hsc Hm. eapply calm_bind; [by apply on_kbd_keeps| |intros; apply calm_send].
  intros s (_ & Hk & _). unfold on_kbd. destruct (kbd s) as [k|] eqn:Ek; [|done].
  pose proof (key_event_run sc p m k (Hk k eq_refl) Hsc Hm) as H.
  destruct (key_event sc p m k) as [o k']. destruct H as [_ ->]. cbn [fst]. by case_decide.
Qed.

Lemma calm_type_char sc m : u8 m → calm (type_char sc m).
Proof.
  intros Hm. pose proof (to_u8_range sc).
  eapply calm_bind; [by apply key_keeps|by apply calm_key|intros _; by apply calm_key].
Qed.

Lemma calm_type_text text : is_str text → calm (type_text text).
Proof.
  intros Ht. eapply calm_for_each; [by apply chars_range|]. intros c Hc.
  pose proof (try_from_char_mods c Hc) as Hm.
  destruct (try_from_char c) as [m [sc|]]; [|by split; [apply keeps_ret|]].
  by split; [apply type_char_keeps|apply calm_type_char].
Qed.

Lemma calm_type_text_strict text : is_str text → calm (type_text_strict text).
Proof.
  intros Ht. eapply calm_for_each; [by apply chars_range|]. intros c Hc.
  pose proof (try_from_char_mods c Hc) as Hm. destruct (try_from_char c) as [m o]. split.
  - apply seq_keeps; [by apply keeps_lift|intros sc]. by apply type_char_keeps.
  - eapply (calm_bind any); [by apply keeps_lift|apply calm_ok_or|intros sc; by apply calm_type_char].
Qed.

Lemma calm_hid_id_seq {A} (k : Z → cmd L Error A) :
  (∀ id, calm (k id)) → calm (id ← get_gamepad_hid_id; k id).
Proof. intros Hk. eapply calm_bind; [apply hid_id_keeps|apply calm_hid_id|exact Hk]. Qed.

Lemma calm_batch_loop fs batch id n :
  Forall frame_wf fs → Forall packed_ok batch → (∀ i, id = Some i → u16 i) →
  calm (frame_batch_loop fs batch id n).
Proof.
  intros Hfs. revert batch id n. induction Hfs as [|fr fs Hfr _ IH]; intros batch id n Hb Hid;
    cbn [frame_batch_loop]; [apply calm_ret|].
  intros s Hs. pose proof (calm_op (frame_op fr) Hfr s Hs) as Hc.
  destruct (with_gamepad_keeps (frame_op fr) Hfr s Hs) as [Hs' Hq]. unfold mbind, cmd_bind.
  change (full_frame fr) with (raw_op (frame_op fr)).
  destruct (with_gamepad (raw_op (frame_op fr)) s) as [[[[hid p]|]|e|] s1]; cbn in *;
    [|by apply IH|done|done].
  destruct (Hq _ eq_refl) as [Hhid Hp].
  assert (u16 (default hid id)) by (destruct id; cbn; auto).
  assert (Forall packed_ok (batch ++ [p])) by (by apply Forall_app, conj, Forall_singleton).
  case_decide; (apply IH; [|by intros i [= <-]|]); [done| |done|done].
  by eapply (link_batch_keeps (default hid id)); [apply packed_batch_ok|].
Qed.

Lemma calm_batch fs : Forall frame_wf fs → calm (set_frame_raw_batch fs).
Proof.
  intros Hfs. destruct fs as [|fr [|fr' fs]]; cbn [set_frame_raw_batch]; [apply calm_ret|..].
  - apply Forall_cons in Hfs as [Hfr _].
    eapply calm_bind; [by apply (with_gamepad_keeps (frame_op fr))|by apply (calm_op (frame_op fr))|].
    intros r s Hs. pose proof (calm_changed r s Hs) as Hc. run.
    by destruct (push_changed r s) as [[]].
  - intros s Hs. unfold with_gamepad. run. destruct (closed s) eqn:Ec; [done|].
    destruct (gamepad_slot s) as [i|] eqn:Ei; [|done]. destruct (gamepad s) as [g|] eqn:Eg; [|done].
    assert (set_gamepad (Some g) (Some i) (gamepad_hid_id s) s = s) as -> by (destruct s; cbn in *; by subst).
    pose proof (calm_batch_loop (fr :: fr' :: fs) [] None 0 Hfs (Forall_nil_2 _) ltac:(done) s Hs) as Hc.
    destruct (frame_batch_loop _ _ _ _ s) as [[[[batch id] n]|e|] s1]; cbn in *; [|done..].
    by destruct batch, id.
Qed.

Lemma calm_close req s : phase req s → (close s).1 = Ok tt.
Proof.
  unfold phase. destruct (closed s) eqn:Hc.
  - intros _. unfold close, try_close_all. run. by rewrite Hc.
  - intros [Ho _]. by destruct (close_open req s Ho) as (s' & -> & _).
Qed.

(** The calls that commands stand for. *)
Definition commanded (c : Call) : bool :=
  match c with
  | C_key_chord _ _ | C_inject_raw_gamepad_report _ | C_mouse_frame_batch _
  | C_tap_pointer _ _ _ | C_swipe_pointer _ _ _ _ | C_double_tap _ _ | C_long_press _ _
  | C_three_finger_screenshot | C_drag _ _ _ | C_pinch _ _ _ _ _ | C_multi_finger_tap _
  | C_multitouch _ | C_close => false
  | _ => true
  end.

Lemma run_call_calm c : commanded c = true → call_ok c → calm (run_call c).
Proof.
  intros Hc Hok. destruct c; try discriminate Hc; cbn [run_call call_ok] in *; destruct_and?;
    try solve [done | auto using calm_key, calm_type_text, calm_type_text_strict, calm_drop, calm_batch].
  - by apply (calm_op_changed (OpAxis axis _)), stick_range.
  - by apply (calm_op_changed (OpAxis axis raw)).
  - by apply (calm_op_changed (OpButtons btns)).
  - by apply (calm_op_changed (OpButton btn pressed)).
  - by apply (calm_op_changed (OpLeft x y)).
  - by apply (calm_op_changed (OpRight x y)).
  - by apply (calm_op_changed (OpTriggers l r)).
  - by apply (calm_op_changed (OpSticks lx ly rx ry lt rt)).
  - by apply (calm_op_changed (frame_op frame)).
  - by apply calm_hid_id_seq.
  - by apply calm_hid_id_seq.
  - apply calm_drop. destruct frames as [|f [|f' fs]]; [done| |]; cbn [set_frame_raw_batch_unchecked
      set_frame_raw_packed_batch]; [apply calm_drop|]; by apply calm_hid_id_seq.
  - apply calm_drop. destruct frames as [|f [|f' fs]]; [done| |]; cbn [set_frame_raw_batch_unchecked
      set_frame_raw_packed_batch]; [apply calm_drop|]; by apply calm_hid_id_seq.
  - eapply (calm_bind any); [by apply on_mouse_keeps|by apply calm_mouse|intros; apply calm_input].
  - eapply (calm_bind any); [by apply on_mouse_keeps|by apply calm_mouse|intros; apply calm_input].
  - apply calm_drop.
    eapply (calm_bind any); [by apply on_mouse_keeps| |].
    + apply calm_mouse. intros m. by destruct (generate_input_from_scroll h v m).
    + intros [r|] s Hs; [|done]. run. pose proof (calm_input (hr_hid_id r) (hr_size r) (hr_data r) s Hs) as H.
      unfold push_report. by destruct (on_link _ s) as [[]].
Qed.
End Calm.

(** ** The commands on the log *)

(** The length of a fixed batch is within its array; the arguments are in the range of their
    types; the messages are acceptable to the serializer. *)
Definition cmd_ok (c : HidCommand) : Prop := fits c = true ∧ Forall call_ok (calls_of c).

Definition stops (c : HidCommand) : bool := match c with Hc_Close => true | _ => false end.

(** The calls of a whole run of the loop. *)
Fixpoint served (received : list HidCommand) : list Call :=
  match received with
  | [] => [C_close]
  | c :: received => calls_of c ++ (if stops c then [] else served received)
  end.

Lemma commanded_calls c : plain c = true → Forall (λ k, commanded k = true) (calls_of c).
Proof.
  intros Hp. destruct c; try discriminate Hp; cbn [calls_of];
    first [by repeat apply Forall_cons_2; try apply Forall_nil_2 | rewrite Forall_fmap; by apply Forall_true].
Qed.

Lemma polite_calls c : Forall polite (calls_of c).
Proof.
  destruct c; cbn [calls_of];
    first [by repeat apply Forall_cons_2; try apply Forall_nil_2 | rewrite Forall_fmap; by apply Forall_true].
Qed.

Lemma run_calls_calm cs s :
  Forall (λ k, commanded k = true) cs → Forall call_ok cs → session_ok s →
  Panicked ∉ (run_calls cs s).1.
Proof.
  intros Hc Hok. revert s Hc. induction Hok as [|k cs Hk _ IH]; intros s Hc Hs;
    [apply not_elem_of_nil|]. apply Forall_cons in Hc as [Hck Hc]. cbn [run_calls].
  pose proof (run_call_calm k Hck Hk s Hs) as H1. destruct (run_call_keeps k Hk s Hs) as [H2 _].
  destruct (run_call k s) as [o s1]. specialize (IH s1 Hc H2).
  destruct (run_calls cs s1) as [os s2]. cbn [fst snd] in *. rewrite not_elem_of_cons. by split.
Qed.

(** A press that the driver refuses changes nothing, and so does its release. *)
Lemma key_refused sc m (s : L) e s' :
  session_ok s → u8 sc → u8 m → key sc true m s = (Err e, s') →
  s' = s ∧ (key sc false Modifiers_empty s).2 = s.
Proof.
  intros (_ & Hk & _) Hsc Hm. unfold key, on_kbd. run. destruct (kbd s) as [k|] eqn:Ek; [|by intros [= <- <-]].
  specialize (Hk k eq_refl).
  pose proof (key_event_run sc true m k Hk Hsc Hm) as H1.
  pose proof (key_event_run sc false Modifiers_empty k Hk Hsc ltac:(by split)) as H2.
  assert (¬ valid_usage sc → ∀ p m, (inject_key sc p m k).2 = k) as Hsame.
  { intros Hv p m'. rewrite inject_key_run by done. by rewrite decide_False. }
  destruct (key_event sc true m k) as [o1 k1], (key_event sc false _ k) as [o2 k2].
  destruct H1 as [-> ->], H2 as [-> ->]. destruct (decide (valid_usage sc)) as [|Hv]; [done|].
  rewrite !Hsame by done. intros [= <- <-]. cbn.
  assert (set_kbd (Some k) s = s) as -> by (destruct s; cbn in *; by subst). done.
Qed.

Lemma tap_calls sc m (s : L) :
  session_ok s → u8 sc → u8 m →
  (attempt_all (W := MsgLog) (attempts (Hc_KeyTap sc m)) s).2 =
    (run_calls (calls_of (Hc_KeyTap sc m)) s).2 ∧
  Panicked ∉ (attempt_all (W := MsgLog) (attempts (Hc_KeyTap sc m)) s).1.
Proof.
  intros Hs Hsc Hm. cbn [attempts calls_of run_calls run_call attempt_all].
  pose proof (calm_key sc true m Hsc Hm s Hs) as Hc1.
  destruct (key_keeps sc true m Hsc Hm s Hs) as [Hs1 _].
  pose proof (key_refused sc m s) as Href.
  unfold mbind, cmd_bind. destruct (key sc true m s) as [[[]|e|] s1]; cbn [fst snd] in *; [| |done].
  - pose proof (calm_key sc false Modifiers_empty Hsc ltac:(by split) s1 Hs1) as Hc2.
    destruct (key sc false Modifiers_empty s1) as [o s2]. cbn in *. split; [done|].
    by rewrite list_elem_of_singleton.
  - destruct (Href e s1 Hs Hsc Hm eq_refl) as [-> H2].
    destruct (key sc false Modifiers_empty s) as [o s2]. cbn in *. split; [done|].
    by rewrite list_elem_of_singleton.
Qed.

Lemma attempts_log c (s : L) :
  plain c = true → cmd_ok c → session_ok s →
  (attempt_all (attempts c) s).2 = (run_calls (calls_of c) s).2 ∧
  Panicked ∉ (attempt_all (attempts c) s).1.
Proof.
  intros Hp [_ Hok] Hs.
  assert ((∃ sc m, c = Hc_KeyTap sc m) ∨ attempts (W := MsgLog) c = run_call <$> calls_of c)
    as [(sc & m & ->)| ->] by (destruct c; eauto).
  - apply Forall_cons in Hok as [[] _]. by apply tap_calls.
  - rewrite attempt_calls. split; [done|]. apply run_calls_calm; [by apply commanded_calls|done..].
Qed.

(** One command of the loop. *)
Lemma dispatch_log req c (d : DispatchState MsgLog) :
  cmd_ok c → session_ok (ds_session d) → phase req (ds_session d) →
  ∃ d', dispatch_to_session c d = (Ok (stops c), d') ∧
        ds_session d' = (run_calls (calls_of c) (ds_session d)).2.
Proof.
  intros Hok Hs Hp. destruct (plain c) eqn:Epl.
  - destruct (attempts_log c (ds_session d) Epl Hok Hs) as [He Hn].
    eexists. rewrite dispatch_plain by (done || apply Hok).
    rewrite (bind_ok _ _ d _ _ (recording_all _ d Hn)). split; [by destruct c|exact He].
  - destruct c; try discriminate Epl.
    + exists (mkDispatch (ds_session d) None
        (<[slot := match pending_error d with Some e => Err e | None => Ok 0 end]> (flush_slots d))).
      by destruct d as [[[]] [e|] sl].
    + pose proof (calm_close req _ Hp) as Hc. cbn [calls_of run_calls run_call dispatch_to_session].
      unfold in_session, zoom, ignore_err. run.
      destruct (close (ds_session d)) as [o s']. cbn in *. subst o. by eexists.
Qed.

Lemma run_calls_app {W} `{!MessageSink W} cs cs' (s : HidSession W) :
  (run_calls (cs ++ cs') s).2 = (run_calls cs' (run_calls cs s).2).2.
Proof.
  revert s. induction cs as [|c cs IH]; intros s; [done|]. cbn [app run_calls].
  destruct (run_call c s) as [o s1]. specialize (IH s1).
  destruct (run_calls (cs ++ cs') s1), (run_calls cs s1). exact IH.
Qed.

Lemma serve_log req rx (d : DispatchState MsgLog) :
  Forall cmd_ok rx → session_ok (ds_session d) → phase req (ds_session d) →
  ∃ d', serve rx d = (Ok tt, d') ∧ ds_session d' = (run_calls (served rx) (ds_session d)).2 ∧
        closed (ds_session d') = true.
Proof.
  intros Hrx. revert d. induction Hrx as [|c rx Hc _ IH]; intros d Hs Hp; cbn [serve served].
  - pose proof (calm_close req _ Hp) as Hcl. pose proof (close_phase req _ Hp) as [_ Hcd].
    unfold in_session, zoom, ignore_err. cbn [run_calls run_call].
    destruct (close (ds_session d)) as [o s']. cbn in *. subst o. by eexists.
  - destruct (dispatch_log req c d Hc Hs Hp) as (d1 & Hd & Hs1).
    rewrite (bind_ok _ _ d _ _ Hd).
    assert (phase req (ds_session d1)) as Hp1.
    { rewrite Hs1. apply run_calls_phase; [apply polite_calls|done]. }
    assert (session_ok (ds_session d1)) as Hok1.
    { rewrite Hs1. apply run_calls_ok; [apply Hc|done]. }
    destruct (stops c) eqn:Est.
    + exists d1. rewrite app_nil_r. split; [done|]. split; [done|].
      destruct c; try discriminate Est. rewrite Hs1. cbn [calls_of run_calls run_call].
      pose proof (close_phase req _ Hp) as [_ H]. by destruct (close (ds_session d)).
    + destruct (IH d1 Hok1 Hp1) as (d' & Hd' & Hs' & Hcl). exists d'.
      split; [done|]. split; [|done]. by rewrite run_calls_app, <-Hs1.
Qed.

(** ** The simulation *)

Section ServiceSim.
Context {W : Type} `{!MessageSink W, !ReliableSink W} (base : bytes).
Abbreviation D := (DispatchState W).
Abbreviation DL := (DispatchState MsgLog).

(** Answers agree but for the number of bytes flushed. *)
Definition same_answer (a b : outcome Error Z) : Prop :=
  match a, b with
  | Ok _, Ok _ => True
  | Err e, Err e' => e = e'
  | _, _ => False
  end.

Definition answers (m m' : gmap nat (outcome Error Z)) : Prop :=
  ∀ k, option_Forall2 same_answer (m !! k) (m' !! k).

Definition dispatch_rel (d : D) (l : DL) : Prop :=
  related base (ds_session d) (ds_session l) ∧ pending_error d = pending_error l ∧
  answers (flush_slots d) (flush_slots l).
Definition dispatch_msgs (l : DL) : list ControlMessage := msgs (ds_session l).

Abbreviation dsim := (sim dispatch_rel dispatch_msgs).
Abbreviation ssim := (sim (related base) msgs).

Lemma sim_ext {S1 S2 A} (R : S1 → S2 → Prop) lg (c c' : cmd S1 Error A) (d d' : cmd S2 Error A) :
  c ≅ c' → d ≅ d' → sim R lg c' d' → sim R lg c d.
Proof.
  intros Hc Hd [H1 H2]. split; [intros l; rewrite Hd; apply H1|].
  intros s l. rewrite Hc, Hd. apply H2.
Qed.

Lemma in_session_sim {A} (c : cmd (HidSession W) Error A) d :
  ssim c d → dsim (in_session c) (in_session d).
Proof.
  apply sim_zoom; [done|by intros s l [H _]|]. by intros s l s' l' (_ & H) Hs.
Qed.

Lemma recording_sim {A} (c : cmd (HidSession W) Error A) d :
  ssim c d → dsim (recording c) (recording d).
Proof.
  intros [Hg Hr]. split.
  - intros l. specialize (Hg (ds_session l)). unfold log_grows, dispatch_msgs, recording in *.
    by destruct (d (ds_session l)) as [[a|e|] s].
  - intros s l (Hs & Hp & Ha). specialize (Hr _ _ Hs). unfold recording, dispatch_msgs.
    destruct (d (ds_session l)) as [o l1]. intros HF.
    assert (Forall acceptable (msgs l1)) as HF1 by (by destruct o).
    destruct (Hr HF1) as [Ho HR]. destruct (c (ds_session s)) as [o' s1]. cbn [fst snd] in *.
    subst o'. rewrite Hp. destruct o; (split; [done|]); by split_and!.
Qed.

Lemma record_calls_sim cs :
  dsim (for_each (run_call <$> cs) recording) (for_each (run_call <$> cs) recording).
Proof.
  induction cs as [|c cs IH]; [apply sim_ret|]. cbn [fmap list_fmap for_each].
  apply sim_bind; [apply recording_sim, run_call_sim|done].
Qed.

Lemma attempts_sim c : dsim (for_each (attempts c) recording) (for_each (attempts c) recording).
Proof.
  assert ((∃ sc m, c = Hc_KeyTap sc m) ∨ (attempts (W := W) c = run_call <$> calls_of c ∧
    attempts (W := MsgLog) c = run_call <$> calls_of c)) as [(sc & m & ->)|[-> ->]]
    by (destruct c; eauto); [|apply record_calls_sim].
  cbn [attempts for_each]. apply sim_bind; [|intros _; apply sim_ret].
  apply recording_sim, sim_bind; [|intros _]; apply key_sim.
Qed.

Lemma answers_insert m m' slot a b :
  answers m m' → same_answer a b → answers (<[slot := a]> m) (<[slot := b]> m').
Proof.
  intros Hm Hab k. destruct (decide (k = slot)) as [->|Hne].
  - rewrite !lookup_insert_eq. by constructor.
  - rewrite !lookup_insert_ne by done. apply Hm.
Qed.

Lemma flush_ack_sim slot : dsim (flush_ack slot) (flush_ack slot).
Proof.
  apply sim_silent.
  - intros [[[]] [e|] sl]; done.
  - intros s l (Hs & Hp & Ha). destruct Hs as (Hdev & Hw & fs & Hfs & Hsent).
    destruct (sink_flush_ok (link (ds_session s)) Hw) as (n & w' & H & Hw' & Hs').
    assert (session_flush (ds_session s) = (Ok n, set_link w' (ds_session s))) as Es.
    { unfold session_flush, on_link, zoom. by rewrite H. }
    assert (session_flush (ds_session l) = (Ok 0, ds_session l)) as El by (by destruct l as [[[]] ? ?]).
    assert (related base (set_link w' (ds_session s)) (ds_session l)) as Hrel.
    { split; [exact Hdev|]. split; [done|]. exists fs. split; [done|]. cbn. by rewrite Hs'. }
    unfold flush_ack. rewrite Es, El, Hp. destruct (pending_error l) as [e|]; cbn;
      (split; [done|]; split; [done|]; split; [done|]); by apply answers_insert.
Qed.

Lemma dispatch_sim c :
  fits c = true → dsim (dispatch_to_session c) (dispatch_to_session c).
Proof.
  intros Hf. destruct (plain c) eqn:Ep.
  - eapply sim_ext; [intros d; by apply dispatch_plain..|].
    apply sim_bind; [apply attempts_sim|intros _; apply sim_ret].
  - destruct c; try discriminate Ep; cbn [dispatch_to_session]; (apply sim_bind; [|intros _; apply sim_ret]).
    + apply flush_ack_sim.
    + apply in_session_sim, sim_ignore_err, close_sim.
Qed.

Lemma serve_sim rx : Forall cmd_ok rx → dsim (serve rx) (serve rx).
Proof.
  induction 1 as [|c rx [Hf _] _ IH]; cbn [serve].
  - apply in_session_sim, sim_ignore_err, close_sim.
  - apply sim_bind; [by apply dispatch_sim|intros [|]; [apply sim_ret|done]].
Qed.
End ServiceSim.

(** ** The thread *)

Lemma open_related {T} `{!TransportWrite T, !LawfulTransport T, !ReliableTransport T}
    (t : T) clk req :
  let s := open (connect t req clk) req in
  let l := open (mkLog []) req in
  s.1 = Ok tt ∧ l.1 = Ok tt ∧ related (wire t) s.2 l.2.
Proof.
  intros s l. destruct (open_log req) as (Hl & _ & Hm). fold l in Hl, Hm.
  assert (writer_wf (connect t req clk) ∧ committed (connect t req clk) = wire t) as [Hw Hs].
  { unfold connect. case_match; (split; [done|apply app_nil_r]). }
  assert (related (wire t) (new_session (connect t req clk)) (new_session (mkLog []))) as H0.
  { split; [by split_and!|]. split; [done|]. exists []. split; [done|]. by rewrite app_nil_r. }
  destruct (open_devices_sim (wire t) req) as [_ Ho]. specialize (Ho _ _ H0).
  pose proof (lifetime_acceptable req [] (Forall_nil_2 _)) as Hacc.
  destruct (drop_session_sim (W := CoalescingWriter T) (wire t)) as [Hdg _].
  unfold lifetime in Hacc. fold l in Hacc. subst s l. unfold open in *.
  destruct (open_devices req (new_session (mkLog []))) as [[[]|e|] l1]; [|done..].
  cbn [fst snd run_calls] in *. destruct Ho as [Ho Hr].
  { eapply Forall_grows; [apply Hdg|exact Hacc]. }
  destruct (open_devices req (new_session (connect t req clk))) as [o s1]. cbn [fst snd] in *. by subst o.
Qed.

Lemma into_inner_run {T} `{!TransportWrite T, !LawfulTransport T, !ReliableTransport T}
    (s : HidSession (CoalescingWriter T)) :
  closed s = true →
  ∃ t, session_into_inner s = (Ok t, t) ∧ wire t = committed (link s).
Proof.
  intros Hc. unfold session_into_inner, into_inner. rewrite Hc.
  pose proof (flush_now_reliable (link s)) as Hok. pose proof (flush_now_spec (link s)) as (_ & _ & Hm).
  destruct (flush_now (link s)) as [[n|e|] w]; [|done..]. exists (transport w). split; [done|]. apply Hm.
Qed.

(** Commands, up to the one that stops the loop, as one lifetime of the session. *)
Lemma served_lifetime req rx :
  closed (run_calls (served rx) (open (mkLog []) req).2).2 = true →
  msgs (lifetime (mkLog []) req (served rx)).2 =
  msgs (run_calls (served rx) (open (mkLog []) req).2).2.
Proof.
  destruct (open_log req) as (Ho & _). unfold lifetime.
  destruct (open (mkLog []) req) as [[[]|e|] l1]; [|done..]. cbn [fst snd].
  destruct (run_calls (served rx) l1) as [os l2]. cbn [fst snd]. intros Hc.
  unfold drop_session. rewrite Hc. done.
Qed.

(** C10: The dispatcher thread over a transport that never fails.  Whatever commands it
    receives from its clients until a [Close] or the last client's end, with or without
    coalescing and whatever the clock, the loop ends and returns the transport, without a
    panic; and what it wrote, after what was there, decodes to exactly the messages of the
    calls those commands stand for, made in order on one session from opening to closing:
    every device created is destroyed, and nothing follows.  The commands are [cmd_ok]: the
    length of a fixed batch is within its array, arguments are in the range of their types,
    and the messages are such that the serializer accepts them, so no name is too long
    and no text is cut inside a character.  Without that the public commands can make the
    thread panic: a batch whose length exceeds its array does, and so does a long text
    with a character across the limit. *)
Theorem dispatcher_delivers {T} `{!TransportWrite T, !LawfulTransport T, !ReliableTransport T}
    (t : T) clk req received (Hreceived : Forall cmd_ok received) :
  let s := open (connect t req clk) req in
  let l := lifetime (mkLog []) req (served received) in
  s.1 = Ok tt ∧
  ∃ t' stream,
    join (dispatcher_loop s.2 received).1 = Ok t' ∧
    wire t' = wire t ++ stream ∧
    decode_all stream = Some (wire_of <$> logged (link l.2)) ∧
    omap lifecycle_event (wire_of <$> logged (link l.2)) =
      (pair true <$> device_ids req) ++ (pair false <$> device_ids req).
Proof.
  intros s l. destruct (open_related t clk req) as (Hs & Hl & Hrel). fold s in Hs, Hrel.
  split; [exact Hs|].
  destruct (open_log req) as (_ & Hst & Hms). set (l0 := open (mkLog []) req) in *.
  assert (closed l0.2 = false) as Hcl0 by (by injection Hst).
  assert (phase req l0.2) as Hph.
  { unfold phase. by rewrite Hcl0, Hms, lifecycle_creates. }
  assert (session_ok l0.2) as Hok0.
  { destruct (open_devices_keeps req _ new_session_ok) as [H _]. subst l0. unfold open in *.
    by destruct (open_devices req (new_session (mkLog []))) as [[[]|e|] l1]. }
  destruct (serve_log req received (mkDispatch l0.2 None ∅) Hreceived Hok0 Hph) as (dl & Hdl & Hcalls & Hclosed).
  cbn [ds_session] in Hcalls.
  assert (Forall call_ok (served received)) as Hserved.
  { clear -Hreceived. induction Hreceived as [|c rx [_ Hc] _ IH]; [by apply Forall_singleton|].
    cbn [served]. apply Forall_app. split; [done|]. by destruct (stops c). }
  assert (Forall acceptable (dispatch_msgs dl)) as Hacc.
  { unfold dispatch_msgs. rewrite Hcalls. by apply run_calls_ok. }
  destruct (serve_sim (W := CoalescingWriter T) (wire t) received Hreceived) as [_ Hsim].
  specialize (Hsim (mkDispatch s.2 None ∅) (mkDispatch l0.2 None ∅)).
  rewrite Hdl in Hsim. destruct Hsim as [Ho (Hr & _)]; [|exact Hacc|].
  { split; [exact Hrel|]. split; [done|]. intros k. cbn. rewrite lookup_empty. constructor. }
  unfold dispatcher_loop. destruct (serve received (mkDispatch s.2 None ∅)) as [o d].
  cbn [fst snd] in Ho, Hr. subst o.
  destruct Hr as [Hdev (_ & fs & Hfs & Hsent)].
  destruct (into_inner_run (ds_session d)) as (t' & Ht' & Hw').
  { unfold same_devices in Hdev. destruct_and! Hdev. congruence. }
  assert (Forall ControlMessage_wf (dispatch_msgs dl) ∧ Forall encodable (dispatch_msgs dl)) as [Hwf He].
  { split; (eapply Forall_impl; [exact Hacc|]); by intros m []. }
  destruct (decode_frames _ Hwf He) as (fs' & Hfs' & Hdec).
  change (frames (dispatch_msgs dl) = Ok fs) in Hfs. rewrite Hfs in Hfs'. injection Hfs' as <-.
  assert (msgs l.2 = dispatch_msgs dl) as Hml.
  { unfold dispatch_msgs. rewrite Hcalls. apply served_lifetime. by rewrite Hcalls in Hclosed. }
  change (logged (link l.2)) with (msgs l.2).
  exists t', fs. split; [by rewrite Ht'|]. split; [|split].
  - etrans; [exact Hw'|exact Hsent].
  - by rewrite Hml.
  - rewrite decoded_lifecycle. apply lifetime_lifecycle. clear.
    induction received as [|c rx IH]; [by apply Forall_singleton|]. cbn [served].
    apply Forall_app. split; [apply polite_calls|]. by destruct (stops c).
Qed.

(** ** Witnesses *)

Definition sample_commands : list HidCommand :=
  [Hc_KeyTap 4 2; Hc_FlushAck 1 0; Hc_TouchBatchFixed 2
     (TouchFrame_new 0 0 10 20 one :: TouchFrame_new 1 0 10 20 zero :: replicate 22 TouchFrame_EMPTY);
   Hc_GamepadFrameRaw 1 2 3 4 5 6 7; Hc_Close; Hc_RotateDevice].

Lemma sample_commands_ok : Forall cmd_ok sample_commands.
Proof.
  repeat (apply Forall_cons_2; [split; [by vm_compute|
    cbn; repeat first [apply Forall_cons_2 | apply Forall_nil_2]; by vm_compute]|]).
  apply Forall_nil_2.
Qed.

Lemma dispatcher_delivers_witness :
  Forall cmd_ok sample_commands ∧
  ∃ t' stream,
    join (dispatcher_loop (open (connect Mock_new request_all Z.of_nat) request_all).2
            sample_commands).1 = Ok t' ∧
    wire t' = stream ∧
    decode_all stream =
      Some (wire_of <$> logged (link (lifetime (mkLog []) request_all (served sample_commands)).2)).
Proof.
  split; [exact sample_commands_ok|].
  destruct (dispatcher_delivers Mock_new Z.of_nat request_all sample_commands sample_commands_ok)
    as (_ & t' & stream & Hj & Hw & Hd & _).
  exists t', stream. split; [exact Hj|]. split; [exact Hw|exact Hd].
Defined.
