(* ===== verification/Runtime.v ===== *)
(** * Clients, channel and threads ([src/src/client.rs])

    A client's view of the runtime behind it: the bounded [mpsc] channel, the dispatcher
    thread at its other end or, in gamepad mode, the frame ring and its consumer thread, and
    the other clones of the client.  The threads run between any two accesses of the client
    to the channel or the ring, as an arbitrary schedule says.  A ring push is one step
    here: [GamepadRing] shows that interleaving its accesses with a pop loses nothing. *)

From stdpp Require Import gmap.
From S2P Require Import Prelude Words Errors Types Utf8 Float32 Message Transport Descriptor.
From S2P Require Import Keyboard Mouse Gamepad Coalesce Sink Session Commands Dispatcher GamepadRing.
Local Open Scope Z_scope.

(** Why a client method does not return [Ok]: it returns the error, or never returns. *)
Inductive Stop : Set :=
  | Failed (e : Error)
  | Blocked.

#[export] Instance Stop_eq_dec : EqDecision Stop.
Proof. solve_decision. Defined.

(** [mpsc::TrySendError] gives the command back. *)
Inductive TrySendError : Set :=
  | Se_Full (c : HidCommand)
  | Se_Disconnected (c : HidCommand).

Definition unsent (e : TrySendError) : HidCommand :=
  match e with Se_Full c | Se_Disconnected c => c end.

(** The ring, the two flags shared with its consumer, and whether that thread runs. *)
Record FastPath : Set := mkFast
  { gamepad_ring : GamepadFrameRing; gamepad_close : bool; gamepad_error : bool;
    consuming : bool }.

(** What the threads and the other clones do between two accesses. *)
Inductive Event : Set :=
  | E_dispatcher
  | E_consumer
  | E_other (c : HidCommand).

(** [receiving] says whether the channel's receiver is alive; [flush_seq] is the registry's
    counter, [next_slot] numbers the [FlushSlot]s allocated; [queued] records the commands
    this client got into the channel. *)
Record Runtime (W : Type) : Type := mkRuntime
  { threads : DispatchState W; receiving : bool; channel : list HidCommand;
    channel_bound : nat; flush_seq : Z; next_slot : nat; fast : option FastPath;
    schedule : list (list Event); queued : list HidCommand }.
Arguments mkRuntime {W}.
Arguments threads {W}.
Arguments receiving {W}.
Arguments channel {W}.
Arguments channel_bound {W}.
Arguments flush_seq {W}.
Arguments next_slot {W}.
Arguments fast {W}.
Arguments schedule {W}.
Arguments queued {W}.

Section Runtime.
Context {W : Type} `{!MessageSink W}.
Abbreviation S := (HidSession W).
Abbreviation R := (Runtime W).
Implicit Types r : R.

Definition set_threads (d : DispatchState W) r : R := mkRuntime d (receiving r) (channel r)
  (channel_bound r) (flush_seq r) (next_slot r) (fast r) (schedule r) (queued r).
Definition set_channel (alive : bool) (q : list HidCommand) r : R := mkRuntime (threads r) alive q
  (channel_bound r) (flush_seq r) (next_slot r) (fast r) (schedule r) (queued r).
Definition set_flush_seq (z : Z) r : R := mkRuntime (threads r) (receiving r) (channel r)
  (channel_bound r) z (next_slot r) (fast r) (schedule r) (queued r).
Definition set_next_slot (k : nat) r : R := mkRuntime (threads r) (receiving r) (channel r)
  (channel_bound r) (flush_seq r) k (fast r) (schedule r) (queued r).
Definition set_fast (f : option FastPath) r : R := mkRuntime (threads r) (receiving r) (channel r)
  (channel_bound r) (flush_seq r) (next_slot r) f (schedule r) (queued r).
Definition set_schedule (l : list (list Event)) r : R := mkRuntime (threads r) (receiving r)
  (channel r) (channel_bound r) (flush_seq r) (next_slot r) (fast r) l (queued r).
Definition record_queued (c : HidCommand) r : R := mkRuntime (threads r) (receiving r) (channel r)
  (channel_bound r) (flush_seq r) (next_slot r) (fast r) (schedule r) (queued r ++ [c]).

(** ** Starting *)

Definition into_client_with_bound (s : S) (bound : nat) (sched : list (list Event)) : R :=
  mkRuntime (mkDispatch s None ∅) true [] bound 1 0 None sched [].
Definition into_client (s : S) (sched : list (list Event)) : R :=
  into_client_with_bound s DEFAULT_CHANNEL_BOUND sched.

(** The stub channel has lost its receiver. *)
Definition into_client_with_gamepad_ring (s : S) (sched : list (list Event)) : R :=
  mkRuntime (mkDispatch s None ∅) false [] 1 1 0 (Some (mkFast Ring_new false false true)) sched [].

(** ** The threads *)

(** The dispatcher runs its next command; when its loop ends or unwinds, the receiver is
    dropped and the commands left in the channel with it. *)
Definition dispatcher_turn r : R :=
  if receiving r then
    match channel r with
    | [] => r
    | c :: q =>
        match dispatch_to_session c (threads r) with
        | (Ok false, d) => set_threads d (set_channel true q r)
        | (_, d) => set_threads d (set_channel false [] r)
        end
    end
  else r.

(** One round of [gamepad_consumer_loop]. *)
Definition consumer_leaves (error : bool) (f : FastPath) r : R :=
  let s := (ignore_err close (ds_session (threads r))).2 in
  set_fast (Some (mkFast (gamepad_ring f) (gamepad_close f) (error || gamepad_error f) false))
    (set_threads (set_session s (threads r)) r).

(** An unwind drops the session. *)
Definition consumer_dies (f : FastPath) r : R :=
  set_fast (Some (mkFast (gamepad_ring f) (gamepad_close f) (gamepad_error f) false))
    (set_threads (set_session (drop_session (ds_session (threads r))).2 (threads r)) r).

Definition consumer_turn r : R :=
  match fast r with
  | None => r
  | Some f =>
      if negb (consuming f) then r
      else
        match pop (gamepad_ring f) with
        | (Ok (Some frame), ring) =>
            let '(o, s) := set_frame_raw frame (ds_session (threads r)) in
            let f := mkFast ring (gamepad_close f) (gamepad_error f) true in
            let r := set_fast (Some f) (set_threads (set_session s (threads r)) r) in
            match o with
            | Ok _ => r
            | Err _ => consumer_leaves true f r
            | Panicked => consumer_dies f r
            end
        | _ => if gamepad_close f then consumer_leaves false f r else r
        end
  end.

(** ** The channel *)

Definition enqueue (c : HidCommand) r : R := set_channel (receiving r) (channel r ++ [c]) r.
Definition has_room r : bool := bool_decide (length (channel r) < channel_bound r)%nat.

(** [FlushSlot::new] *)
Definition FlushSlot_new {E} : cmd R E nat :=
  k ← read next_slot; modify (set_next_slot (k + 1));; mret k.

(** Another clone sends a command; its barriers have slots of their own. *)
Definition other_sends (c : HidCommand) r : R :=
  if receiving r && has_room r then
    match c with
    | Hc_FlushAck seq _ =>
        enqueue (Hc_FlushAck seq (next_slot r)) (set_next_slot (next_slot r + 1) r)
    | _ => enqueue c r
    end
  else r.

Definition run_event (e : Event) r : R :=
  match e with
  | E_dispatcher => dispatcher_turn r
  | E_consumer => consumer_turn r
  | E_other c => other_sends c r
  end.

Definition run_events (es : list Event) r : R := foldl (λ r e, run_event e r) r es.

Definition interleave {E} : cmd R E unit :=
  modify (λ r,
    match schedule r with
    | [] => r
    | es :: rest => run_events es (set_schedule rest r)
    end).

(** [SyncSender::try_send] *)
Definition tx_try_send (c : HidCommand) : cmd R TrySendError unit :=
  interleave;;
  alive ← read receiving;
  if negb alive then raise (Se_Disconnected c)
  else
    room ← read has_room;
    if (room : bool) then modify (λ r, record_queued c (enqueue c r)) else raise (Se_Full c).

(** [SyncSender::send] waits, when the channel is full, until the dispatcher has taken a
    command. *)
Definition tx_send (c : HidCommand) : cmd R TrySendError unit :=
  interleave;;
  modify (λ r, if has_room r then r else dispatcher_turn r);;
  alive ← read receiving;
  if negb alive then raise (Se_Disconnected c)
  else modify (λ r, record_queued c (enqueue c r)).

(** [FlushRegistry::next_seq] *)
Definition next_seq {E} : cmd R E Z :=
  n ← read flush_seq; modify (set_flush_seq (wrap 64 (n + 1)));; mret n.

(** The slot's result, taken out. *)
Definition take_slot (slot : nat) r : R :=
  set_threads (mkDispatch (ds_session (threads r)) (pending_error (threads r))
                 (delete slot (flush_slots (threads r)))) r.

(** [FlushSlot::wait]: the dispatcher runs until it notifies the slot.  Each turn takes a
    command, so when the channel is empty nothing holds the slot any more, and nobody will
    wake the caller. *)
Fixpoint wait_turns (n : nat) (slot : nat) : cmd R Stop Z := λ r,
  match flush_slots (threads r) !! slot with
  | Some (Ok v) => (Ok v, take_slot slot r)
  | Some (Err e) => (Err (Failed e), take_slot slot r)
  | Some Panicked => (Panicked, r)
  | None =>
      match n with
      | O => (Err Blocked, r)
      | Datatypes.S n => wait_turns n slot (dispatcher_turn r)
      end
  end.

Definition wait (slot : nat) : cmd R Stop Z := λ r, wait_turns (length (channel r)) slot r.

(** [ring.push(frame)], when there is a ring. *)
Definition ring_push {E} (frame : GamepadFrameRaw) : cmd R E (option (outcome TryPushError unit)) :=
  interleave;;
  f ← read fast;
  match f with
  | None => mret None
  | Some f =>
      let '(o, ring) := push frame (gamepad_ring f) in
      modify (set_fast (Some (mkFast ring (gamepad_close f) (gamepad_error f) (consuming f))));;
      mret (Some o)
  end.
End Runtime.
