(* ===== verification/Client.v ===== *)
(** * The client's methods ([src/src/client.rs])

    [HidClient]: every method that queues a command, blocking or not, the gamepad sends with
    their ring fast path, the flush barriers and [close].  The batchers are in
    [FrameBatchers], the gestures in [ClientGestures]. *)

From stdpp Require Import gmap.
From S2P Require Import Prelude Words Errors Types Utf8 Float32 Message Transport Descriptor.
From S2P Require Import Coalesce Sink Commands Dispatcher GamepadRing Runtime.
Local Open Scope Z_scope.

Section Client.
Context {W : Type} `{!MessageSink W}.
Abbreviation R := (Runtime W).
Implicit Types r : R.

Definition fail {S A} (e : Error) : cmd S Stop A := raise (Failed e).
Definition from_error {S A} (o : outcome Error A) : cmd S Stop A := map_err Failed (lift o).

Definition back_pressure (e : TrySendError) : Stop :=
  match e with
  | Se_Full _ => Failed (SessionLifecycle "channel full (back-pressure)")
  | Se_Disconnected _ => Failed (DispatcherDown "channel disconnected")
  end.

Definition try_send (c : HidCommand) : cmd R Stop unit := map_err back_pressure (tx_try_send c).
Definition send (c : HidCommand) : cmd R Stop unit :=
  map_err (λ _, Failed (DispatcherDown "channel disconnected")) (tx_send c).

(** ** Owned batches: a failed send gives the frames back *)

Definition frame_batch_cmd (frames : list GamepadFrameRaw) (dedupe : bool) : HidCommand :=
  if dedupe then Hc_GamepadFrameRawBatch frames else Hc_GamepadFrameRawBatchUnchecked frames.

Definition send_frame_batch_owned (frames : list GamepadFrameRaw) (dedupe : bool) :
    cmd R (Stop * list GamepadFrameRaw) unit :=
  catch (tx_send (frame_batch_cmd frames dedupe)) (λ e,
    frames ← lift (recover_gamepad_batch (unsent e));
    raise (Failed (DispatcherDown "channel disconnected"), frames)).

Definition try_send_frame_batch_owned (frames : list GamepadFrameRaw) (dedupe : bool) :
    cmd R (Stop * list GamepadFrameRaw) unit :=
  catch (tx_try_send (frame_batch_cmd frames dedupe)) (λ e,
    frames ← lift (recover_gamepad_batch (unsent e));
    raise (back_pressure e, frames)).

Definition send_packed_frame_batch_owned (frames : list bytes) :
    cmd R (Stop * list bytes) unit :=
  catch (tx_send (Hc_GamepadPackedFrameBatch frames)) (λ e,
    frames ← lift (recover_packed_gamepad_batch (unsent e));
    raise (Failed (DispatcherDown "channel disconnected"), frames)).

Definition try_send_packed_frame_batch_owned (frames : list bytes) :
    cmd R (Stop * list bytes) unit :=
  catch (tx_try_send (Hc_GamepadPackedFrameBatch frames)) (λ e,
    frames ← lift (recover_packed_gamepad_batch (unsent e));
    raise (back_pressure e, frames)).

(** ** Mouse *)

Definition mouse_motion (dx dy buttons : Z) : cmd R Stop unit := send (Hc_MouseMotion dx dy buttons).
Definition mouse_motion_buttons (dx dy : Z) (buttons : list MouseButton) : cmd R Stop unit :=
  mouse_motion dx dy (MouseButton_state buttons).
Definition mouse_buttons (buttons : Z) : cmd R Stop unit := send (Hc_MouseButtons buttons).
Definition mouse_button_state (buttons : list MouseButton) : cmd R Stop unit :=
  mouse_buttons (MouseButton_state buttons).
Definition mouse_scroll (hscroll vscroll : f32) : cmd R Stop unit :=
  send (Hc_MouseScroll hscroll vscroll).

(** [frames[0]] of a fixed array. *)
Definition first {S X} (frames : list X) : cmd S Stop X := lift (or_panic (frames !! 0%nat)).

Definition send_mouse_batch_fixed (len : nat) (frames : list MouseFrame) : cmd R Stop unit :=
  if decide (len = 0)%nat then mret tt
  else if decide (MOUSE_BATCH_FRAMES < len)%nat then
    fail (SessionLifecycle "mouse batch length too large")
  else if decide (len = 1)%nat then
    frame ← first frames; mouse_motion (mf_dx frame) (mf_dy frame) (mf_buttons frame)
  else send (Hc_MouseBatchFixed (wrap 8 (Z.of_nat len)) frames).

Definition try_mouse_motion (dx dy buttons : Z) : cmd R Stop unit :=
  try_send (Hc_MouseMotion dx dy buttons).
Definition try_mouse_motion_buttons (dx dy : Z) (buttons : list MouseButton) : cmd R Stop unit :=
  try_mouse_motion dx dy (MouseButton_state buttons).
Definition try_mouse_buttons (buttons : Z) : cmd R Stop unit := try_send (Hc_MouseButtons buttons).
Definition try_mouse_button_state (buttons : list MouseButton) : cmd R Stop unit :=
  try_mouse_buttons (MouseButton_state buttons).
Definition try_mouse_scroll (hscroll vscroll : f32) : cmd R Stop unit :=
  try_send (Hc_MouseScroll hscroll vscroll).

Definition try_send_mouse_batch_fixed (len : nat) (frames : list MouseFrame) : cmd R Stop unit :=
  if decide (len = 0)%nat then mret tt
  else if decide (MOUSE_BATCH_FRAMES < len)%nat then
    fail (SessionLifecycle "mouse batch length too large")
  else if decide (len = 1)%nat then
    frame ← first frames; try_mouse_motion (mf_dx frame) (mf_dy frame) (mf_buttons frame)
  else try_send (Hc_MouseBatchFixed (wrap 8 (Z.of_nat len)) frames).

(** ** Gamepad events *)

Definition send_button (btn : GamepadButton) (pressed : bool) : cmd R Stop unit :=
  send (Hc_GamepadButton btn pressed).
Definition send_buttons (buttons : Z) : cmd R Stop unit := send (Hc_GamepadButtons buttons).
Definition send_stick (axis : GamepadAxis) (value : f32) : cmd R Stop unit :=
  send (Hc_GamepadStick axis value).
Definition send_stick_raw (axis : GamepadAxis) (value : Z) : cmd R Stop unit :=
  send (Hc_GamepadStickRaw axis value).
Definition send_left_stick_raw (x y : Z) : cmd R Stop unit := send (Hc_GamepadLeftStickRaw x y).
Definition send_right_stick_raw (x y : Z) : cmd R Stop unit := send (Hc_GamepadRightStickRaw x y).
Definition send_triggers_raw (left right : Z) : cmd R Stop unit :=
  send (Hc_GamepadTriggersRaw left right).
Definition send_sticks_raw (lx ly rx ry lt rt : Z) : cmd R Stop unit :=
  send (Hc_GamepadSticksRaw lx ly rx ry lt rt).

Definition try_send_button (btn : GamepadButton) (pressed : bool) : cmd R Stop unit :=
  map_err back_pressure (tx_try_send (Hc_GamepadButton btn pressed)).
Definition try_send_buttons (buttons : Z) : cmd R Stop unit :=
  map_err back_pressure (tx_try_send (Hc_GamepadButtons buttons)).
Definition try_send_stick (axis : GamepadAxis) (value : f32) : cmd R Stop unit :=
  map_err back_pressure (tx_try_send (Hc_GamepadStick axis value)).
Definition try_send_stick_raw (axis : GamepadAxis) (value : Z) : cmd R Stop unit :=
  map_err back_pressure (tx_try_send (Hc_GamepadStickRaw axis value)).
Definition try_send_left_stick_raw (x y : Z) : cmd R Stop unit :=
  map_err back_pressure (tx_try_send (Hc_GamepadLeftStickRaw x y)).
Definition try_send_right_stick_raw (x y : Z) : cmd R Stop unit :=
  map_err back_pressure (tx_try_send (Hc_GamepadRightStickRaw x y)).
Definition try_send_triggers_raw (left right : Z) : cmd R Stop unit :=
  map_err back_pressure (tx_try_send (Hc_GamepadTriggersRaw left right)).
Definition try_send_sticks_raw (lx ly rx ry lt rt : Z) : cmd R Stop unit :=
  map_err back_pressure (tx_try_send (Hc_GamepadSticksRaw lx ly rx ry lt rt)).

(** ** Keyboard *)

Definition type_text (text : str) : cmd R Stop unit := send (Hc_TypeText text).
Definition type_text_strict (text : str) : cmd R Stop unit := send (Hc_TypeTextStrict text).
Definition try_type_text_strict (text : str) : cmd R Stop unit := try_send (Hc_TypeTextStrict text).
Definition key (scancode : Z) (pressed : bool) (mods : Modifiers) : cmd R Stop unit :=
  send (Hc_Key scancode pressed mods).
Definition key_scancode (sc : Scancode) (pressed : bool) (mods : Modifiers) : cmd R Stop unit :=
  key (to_u8 sc) pressed mods.
Definition press_key (scancode : Z) (mods : Modifiers) : cmd R Stop unit := key scancode true mods.
Definition release_key (scancode : Z) (mods : Modifiers) : cmd R Stop unit := key scancode false mods.
Definition tap_key (scancode : Z) (mods : Modifiers) : cmd R Stop unit :=
  send (Hc_KeyTap scancode mods).
Definition tap_scancode (sc : Scancode) (mods : Modifiers) : cmd R Stop unit :=
  tap_key (to_u8 sc) mods.
Definition try_key (scancode : Z) (pressed : bool) (mods : Modifiers) : cmd R Stop unit :=
  try_send (Hc_Key scancode pressed mods).
Definition try_key_scancode (sc : Scancode) (pressed : bool) (mods : Modifiers) : cmd R Stop unit :=
  try_key (to_u8 sc) pressed mods.
Definition try_tap_key (scancode : Z) (mods : Modifiers) : cmd R Stop unit :=
  try_send (Hc_KeyTap scancode mods).
Definition try_tap_scancode (sc : Scancode) (mods : Modifiers) : cmd R Stop unit :=
  try_tap_key (to_u8 sc) mods.

Definition send_key_batch_fixed (len : nat) (frames : list KeyboardFrame) : cmd R Stop unit :=
  if decide (len = 0)%nat then mret tt
  else if decide (KEYBOARD_BATCH_FRAMES < len)%nat then
    fail (SessionLifecycle "keyboard batch length too large")
  else if decide (len = 1)%nat then
    frame ← first frames; key (kf_scancode frame) (kf_pressed frame) (kf_mods frame)
  else send (Hc_KeyBatchFixed (wrap 8 (Z.of_nat len)) frames).

Definition try_send_key_batch_fixed (len : nat) (frames : list KeyboardFrame) : cmd R Stop unit :=
  if decide (len = 0)%nat then mret tt
  else if decide (KEYBOARD_BATCH_FRAMES < len)%nat then
    fail (SessionLifecycle "keyboard batch length too large")
  else if decide (len = 1)%nat then
    frame ← first frames; try_key (kf_scancode frame) (kf_pressed frame) (kf_mods frame)
  else try_send (Hc_KeyBatchFixed (wrap 8 (Z.of_nat len)) frames).

(** [batch[..len].copy_from_slice(&frames[..len])] into an empty batch. *)
Definition chord_batch (frames : list KeyboardFrame) (len : nat) : list KeyboardFrame :=
  take len frames ++ replicate (KEYBOARD_BATCH_FRAMES - len) KeyboardFrame_EMPTY.

Definition key_chord (chord : KeyboardChordFrame) : cmd R Stop unit :=
  '(frames, len) ← from_error (edge_frames chord);
  send_key_batch_fixed len (chord_batch frames len).
Definition scancode_chord (scancodes : list Scancode) (mods : Modifiers) : cmd R Stop unit :=
  chord ← from_error (try_scancodes scancodes mods); key_chord chord.
Definition try_key_chord (chord : KeyboardChordFrame) : cmd R Stop unit :=
  '(frames, len) ← from_error (edge_frames chord);
  try_send_key_batch_fixed len (chord_batch frames len).
Definition try_scancode_chord (scancodes : list Scancode) (mods : Modifiers) : cmd R Stop unit :=
  chord ← from_error (try_scancodes scancodes mods); try_key_chord chord.

(** ** Android keys *)

Definition inject_keycode (action keycode repeat metastate : Z) : cmd R Stop unit :=
  send (Hc_InjectKeycode action keycode repeat metastate).
Definition try_inject_keycode (action keycode repeat metastate : Z) : cmd R Stop unit :=
  try_send (Hc_InjectKeycode action keycode repeat metastate).
Definition inject_android_keycode (action keycode repeat metastate : Z) : cmd R Stop unit :=
  inject_keycode action keycode repeat metastate.
Definition try_inject_android_keycode (action keycode repeat metastate : Z) : cmd R Stop unit :=
  try_inject_keycode action keycode repeat metastate.
Definition inject_android_key_event (action keycode repeat metastate : Z) : cmd R Stop unit :=
  inject_android_keycode action keycode repeat metastate.
Definition try_inject_android_key_event (action keycode repeat metastate : Z) : cmd R Stop unit :=
  try_inject_android_keycode action keycode repeat metastate.
Definition press_android_key (keycode : Z) : cmd R Stop unit :=
  inject_android_key_event KEY_ACTION_DOWN keycode 0 0.
Definition try_press_android_key (keycode : Z) : cmd R Stop unit :=
  try_inject_android_key_event KEY_ACTION_DOWN keycode 0 0.
Definition release_android_key (keycode : Z) : cmd R Stop unit :=
  inject_android_key_event KEY_ACTION_UP keycode 0 0.
Definition try_release_android_key (keycode : Z) : cmd R Stop unit :=
  try_inject_android_key_event KEY_ACTION_UP keycode 0 0.
Definition tap_android_keycode (keycode metastate : Z) : cmd R Stop unit :=
  send (Hc_AndroidKeyTap keycode metastate).
Definition try_tap_android_keycode (keycode metastate : Z) : cmd R Stop unit :=
  try_send (Hc_AndroidKeyTap keycode metastate).
Definition tap_android_key (keycode : Z) : cmd R Stop unit := tap_android_keycode keycode 0.
Definition try_tap_android_key (keycode : Z) : cmd R Stop unit := try_tap_android_keycode keycode 0.
Definition tap_android_key_with_metastate (keycode metastate : Z) : cmd R Stop unit :=
  tap_android_keycode keycode metastate.
Definition try_tap_android_key_with_metastate (keycode metastate : Z) : cmd R Stop unit :=
  try_tap_android_keycode keycode metastate.

Definition send_android_key_batch_fixed (len : nat) (frames : list AndroidKeyFrame) :
    cmd R Stop unit :=
  if decide (len = 0)%nat then mret tt
  else if decide (ANDROID_KEY_BATCH_FRAMES < len)%nat then
    fail (SessionLifecycle "android key batch length too large")
  else if decide (len = 1)%nat then
    frame ← first frames;
    inject_keycode (ak_action frame) (ak_keycode frame) (ak_repeat frame) (ak_metastate frame)
  else send (Hc_AndroidKeyBatchFixed (wrap 8 (Z.of_nat len)) frames).

Definition try_send_android_key_batch_fixed (len : nat) (frames : list AndroidKeyFrame) :
    cmd R Stop unit :=
  if decide (len = 0)%nat then mret tt
  else if decide (ANDROID_KEY_BATCH_FRAMES < len)%nat then
    fail (SessionLifecycle "android key batch length too large")
  else if decide (len = 1)%nat then
    frame ← first frames;
    try_inject_keycode (ak_action frame) (ak_keycode frame) (ak_repeat frame) (ak_metastate frame)
  else try_send (Hc_AndroidKeyBatchFixed (wrap 8 (Z.of_nat len)) frames).

Definition back_or_screen_on (action : Z) : cmd R Stop unit := send (Hc_BackOrScreenOn action).
Definition try_back_or_screen_on (action : Z) : cmd R Stop unit :=
  try_send (Hc_BackOrScreenOn action).
Definition press_home : cmd R Stop unit := press_android_key KEYCODE_HOME.
Definition press_back : cmd R Stop unit := press_android_key KEYCODE_BACK.
Definition open_recents : cmd R Stop unit := press_android_key KEYCODE_APP_SWITCH.
Definition volume_up : cmd R Stop unit := press_android_key KEYCODE_VOLUME_UP.
Definition volume_down : cmd R Stop unit := press_android_key KEYCODE_VOLUME_DOWN.
Definition volume_mute : cmd R Stop unit := press_android_key KEYCODE_VOLUME_MUTE.

(** ** Intents *)

Definition set_screen_size (w h : Z) : cmd R Stop unit := send (Hc_SetScreenSize w h).
Definition try_set_screen_size (w h : Z) : cmd R Stop unit :=
  map_err back_pressure (tx_try_send (Hc_SetScreenSize w h)).
Definition set_screen_power (on : bool) : cmd R Stop unit := send (Hc_SetScreenPower on).
Definition show_notifications : cmd R Stop unit := send Hc_ShowNotifications.
Definition show_quick_settings : cmd R Stop unit := send Hc_ShowQuickSettings.
Definition collapse_panels : cmd R Stop unit := send Hc_CollapsePanels.
Definition rotate_device : cmd R Stop unit := send Hc_RotateDevice.
Definition resize_display (w h : Z) : cmd R Stop unit := send (Hc_ResizeDisplay w h).
Definition set_torch (on : bool) : cmd R Stop unit := send (Hc_SetTorch on).
Definition camera_zoom_in : cmd R Stop unit := send Hc_CameraZoomIn.
Definition camera_zoom_out : cmd R Stop unit := send Hc_CameraZoomOut.
Definition open_hard_keyboard_settings : cmd R Stop unit := send Hc_OpenHardKeyboardSettings.
Definition reset_video : cmd R Stop unit := send Hc_ResetVideo.
Definition configure_ai (flags sample_interval_ms feature_dim : Z) : cmd R Stop unit :=
  send (Hc_AiConfig flags sample_interval_ms feature_dim).
Definition try_configure_ai (flags sample_interval_ms feature_dim : Z) : cmd R Stop unit :=
  try_send (Hc_AiConfig flags sample_interval_ms feature_dim).
Definition query_ai (since_timestamp_ms : Z) : cmd R Stop unit := send (Hc_AiQuery since_timestamp_ms).
Definition try_query_ai (since_timestamp_ms : Z) : cmd R Stop unit :=
  try_send (Hc_AiQuery since_timestamp_ms).
Definition pause_ai : cmd R Stop unit := send Hc_AiPause.
Definition try_pause_ai : cmd R Stop unit := try_send Hc_AiPause.
Definition launch_app (name : str) : cmd R Stop unit := send (Hc_LaunchApp name).
Definition set_clipboard (text : str) (paste : bool) : cmd R Stop unit :=
  send (Hc_SetClipboard text paste).
Definition set_clipboard_sequenced (sequence : Z) (text : str) (paste : bool) : cmd R Stop unit :=
  send (Hc_SetClipboardSequenced sequence text paste).
Definition request_clipboard (copy_key : Z) : cmd R Stop unit := send (Hc_GetClipboard copy_key).
Definition request_clipboard_key (copy_key : Z) : cmd R Stop unit := request_clipboard copy_key.
Definition try_request_clipboard (copy_key : Z) : cmd R Stop unit :=
  map_err back_pressure (tx_try_send (Hc_GetClipboard copy_key)).
Definition try_request_clipboard_key (copy_key : Z) : cmd R Stop unit :=
  try_request_clipboard copy_key.

(** ** Touch and scroll batches *)

Definition send_touch_batch_fixed (len : nat) (frames : list TouchFrame) : cmd R Stop unit :=
  if decide (len = 0)%nat then mret tt
  else if decide (TOUCH_BATCH_FRAMES < len)%nat then
    fail (SessionLifecycle "touch batch length too large")
  else send (Hc_TouchBatchFixed (wrap 8 (Z.of_nat len)) frames).

Definition try_send_touch_batch_fixed (len : nat) (frames : list TouchFrame) : cmd R Stop unit :=
  if decide (len = 0)%nat then mret tt
  else if decide (TOUCH_BATCH_FRAMES < len)%nat then
    fail (SessionLifecycle "touch batch length too large")
  else map_err back_pressure (tx_try_send (Hc_TouchBatchFixed (wrap 8 (Z.of_nat len)) frames)).

Definition inject_scroll_cmd (f : ScrollFrame) : HidCommand :=
  Hc_InjectScroll (sf_x f) (sf_y f) (sf_hscroll f) (sf_vscroll f) (sf_buttons f).

Definition send_scroll_batch_fixed (len : nat) (frames : list ScrollFrame) : cmd R Stop unit :=
  if decide (len = 0)%nat then mret tt
  else if decide (SCROLL_BATCH_FRAMES < len)%nat then
    fail (SessionLifecycle "scroll batch length too large")
  else if decide (len = 1)%nat then
    frame ← first frames; send (inject_scroll_cmd frame)
  else send (Hc_InjectScrollBatchFixed (wrap 8 (Z.of_nat len)) frames).

Definition try_send_scroll_batch_fixed (len : nat) (frames : list ScrollFrame) : cmd R Stop unit :=
  if decide (len = 0)%nat then mret tt
  else if decide (SCROLL_BATCH_FRAMES < len)%nat then
    fail (SessionLifecycle "scroll batch length too large")
  else if decide (len = 1)%nat then
    frame ← first frames; try_send (inject_scroll_cmd frame)
  else try_send (Hc_InjectScrollBatchFixed (wrap 8 (Z.of_nat len)) frames).

Definition try_scroll_with_buttons (x y : Z) (hscroll vscroll : f32) (buttons : Z) :
    cmd R Stop unit := try_send (Hc_InjectScroll x y hscroll vscroll buttons).
Definition try_scroll (x y : Z) (hscroll vscroll : f32) : cmd R Stop unit :=
  try_scroll_with_buttons x y hscroll vscroll 0.
Definition try_cancel_touch (pointer_id : Z) : cmd R Stop unit :=
  try_send (Hc_MultitouchCancel pointer_id).
Definition try_cancel_touch_pointer (pointer_id : Z) : cmd R Stop unit := try_cancel_touch pointer_id.

(** ** Gamepad frames *)

Definition frame_cmd (f : GamepadFrameRaw) : HidCommand :=
  Hc_GamepadFrameRaw (fr_buttons f) (fr_left_x f) (fr_left_y f) (fr_right_x f) (fr_right_y f)
    (fr_left_trigger f) (fr_right_trigger f).

Definition send_frame (frame : GamepadFrameRaw) : cmd R Stop unit :=
  pushed ← ring_push frame;
  match pushed with
  | Some (Ok _) => mret tt
  | _ => send (frame_cmd frame)
  end.

Definition send_frame_unchecked (frame : GamepadFrameRaw) : cmd R Stop unit :=
  pushed ← ring_push frame;
  match pushed with
  | Some (Ok _) => mret tt
  | _ => send (Hc_GamepadFrameRawUnchecked frame)
  end.

Definition try_send_frame (frame : GamepadFrameRaw) : cmd R Stop unit :=
  pushed ← ring_push frame;
  match pushed with
  | Some (Ok _) => mret tt
  | Some _ => fail (SessionLifecycle "gamepad ring full (drop-on-full)")
  | None => map_err back_pressure (tx_try_send (frame_cmd frame))
  end.

Definition try_send_frame_unchecked (frame : GamepadFrameRaw) : cmd R Stop unit :=
  pushed ← ring_push frame;
  match pushed with
  | Some (Ok _) => mret tt
  | Some _ => fail (SessionLifecycle "gamepad ring full (drop-on-full)")
  | None => map_err back_pressure (tx_try_send (Hc_GamepadFrameRawUnchecked frame))
  end.

(** [for f in frames { match ring.push(f) { Ok => {}, Full => rest.push(f) } }] *)
Fixpoint push_or_spill (frames rest : list GamepadFrameRaw) : cmd R Stop (list GamepadFrameRaw) :=
  match frames with
  | [] => mret rest
  | f :: frames =>
      pushed ← ring_push f;
      match pushed with
      | Some (Ok _) => push_or_spill frames rest
      | _ => push_or_spill frames (rest ++ [f])
      end
  end.

Definition is_gamepad_fast_path r : bool := bool_decide (is_Some (fast r)).

Definition send_frame_batch (frames : list GamepadFrameRaw) : cmd R Stop unit :=
  match frames with
  | [] => mret tt
  | [f] => send_frame f
  | _ =>
      ringed ← read is_gamepad_fast_path;
      if (ringed : bool) then
        rest ← push_or_spill frames [];
        if decide (rest = []) then mret tt else send (Hc_GamepadFrameRawBatch rest)
      else send (Hc_GamepadFrameRawBatch frames)
  end.

Definition send_frame_batch_unchecked (frames : list GamepadFrameRaw) : cmd R Stop unit :=
  match frames with
  | [] => mret tt
  | [f] => send_frame_unchecked f
  | _ =>
      ringed ← read is_gamepad_fast_path;
      if (ringed : bool) then
        rest ← push_or_spill frames [];
        if decide (rest = []) then mret tt else send (Hc_GamepadFrameRawBatchUnchecked rest)
      else send (Hc_GamepadFrameRawBatchUnchecked frames)
  end.

Definition frame_batch_fixed_cmd (dedupe : bool) (len : nat) (frames : list GamepadFrameRaw) :
    HidCommand :=
  if dedupe then Hc_GamepadFrameRawBatchFixed (wrap 8 (Z.of_nat len)) frames
  else Hc_GamepadFrameRawBatchFixedUnchecked (wrap 8 (Z.of_nat len)) frames.

(** The frames spilled, in an array of their own. *)
Definition spilled (rest : list GamepadFrameRaw) : list GamepadFrameRaw :=
  rest ++ replicate (DIRECT_GAMEPAD_BATCH_FRAMES - length rest) GamepadFrame_EMPTY.

Definition send_frame_batch_fixed_internal (len : nat) (frames : list GamepadFrameRaw)
    (dedupe : bool) : cmd R Stop unit :=
  if decide (len = 0)%nat then mret tt
  else if decide (DIRECT_GAMEPAD_BATCH_FRAMES < len)%nat then
    fail (SessionLifecycle "frame batch fixed length overflow")
  else if decide (len = 1)%nat then
    frame ← first frames;
    if dedupe then send_frame frame else send_frame_unchecked frame
  else
    ringed ← read is_gamepad_fast_path;
    if (ringed : bool) then
      rest ← push_or_spill (take len frames) [];
      if decide (rest = []) then mret tt
      else send (frame_batch_fixed_cmd dedupe (length rest) (spilled rest))
    else send (frame_batch_fixed_cmd dedupe len frames).

Definition send_frame_batch_fixed (len : nat) (frames : list GamepadFrameRaw) : cmd R Stop unit :=
  send_frame_batch_fixed_internal len frames true.
Definition send_frame_batch_fixed_unchecked (len : nat) (frames : list GamepadFrameRaw) :
    cmd R Stop unit := send_frame_batch_fixed_internal len frames false.

Definition try_send_frame_batch_fixed_internal (len : nat) (frames : list GamepadFrameRaw)
    (dedupe : bool) : cmd R Stop unit :=
  if decide (len = 0)%nat then mret tt
  else if decide (DIRECT_GAMEPAD_BATCH_FRAMES < len)%nat then
    fail (SessionLifecycle "frame batch fixed length overflow")
  else if decide (len = 1)%nat then
    frame ← first frames;
    if dedupe then try_send_frame frame else try_send_frame_unchecked frame
  else map_err back_pressure (tx_try_send (frame_batch_fixed_cmd dedupe len frames)).

Definition try_send_frame_batch_fixed (len : nat) (frames : list GamepadFrameRaw) :
    cmd R Stop unit := try_send_frame_batch_fixed_internal len frames true.
Definition try_send_frame_batch_fixed_unchecked (len : nat) (frames : list GamepadFrameRaw) :
    cmd R Stop unit := try_send_frame_batch_fixed_internal len frames false.

Definition try_send_frame_batch (frames : list GamepadFrameRaw) : cmd R Stop unit :=
  match frames with
  | [] => mret tt
  | [f] => try_send_frame f
  | _ => map_err back_pressure (tx_try_send (Hc_GamepadFrameRawBatch frames))
  end.
Definition try_send_frame_batch_unchecked (frames : list GamepadFrameRaw) : cmd R Stop unit :=
  match frames with
  | [] => mret tt
  | [f] => try_send_frame_unchecked f
  | _ => map_err back_pressure (tx_try_send (Hc_GamepadFrameRawBatchUnchecked frames))
  end.

(** ** Packed frames *)

Definition send_frame_packed (frame : bytes) : cmd R Stop unit := send (Hc_GamepadPackedFrame frame).
Definition try_send_frame_packed (frame : bytes) : cmd R Stop unit :=
  map_err back_pressure (tx_try_send (Hc_GamepadPackedFrame frame)).

Definition send_frame_packed_batch (frames : list bytes) : cmd R Stop unit :=
  match frames with
  | [] => mret tt
  | [f] => send_frame_packed f
  | _ => send (Hc_GamepadPackedFrameBatch frames)
  end.
Definition try_send_frame_packed_batch (frames : list bytes) : cmd R Stop unit :=
  match frames with
  | [] => mret tt
  | [f] => try_send_frame_packed f
  | _ => map_err back_pressure (tx_try_send (Hc_GamepadPackedFrameBatch frames))
  end.

Definition send_frame_packed_batch_fixed_internal (len : nat) (frames : list bytes) :
    cmd R Stop unit :=
  if decide (len = 0)%nat then mret tt
  else if decide (DIRECT_GAMEPAD_BATCH_FRAMES < len)%nat then
    fail (SessionLifecycle "frame packed batch fixed length overflow")
  else if decide (len = 1)%nat then frame ← first frames; send_frame_packed frame
  else send (Hc_GamepadPackedFrameBatchFixed (wrap 8 (Z.of_nat len)) frames).
Definition send_frame_packed_batch_fixed (len : nat) (frames : list bytes) : cmd R Stop unit :=
  send_frame_packed_batch_fixed_internal len frames.

Definition try_send_frame_packed_batch_fixed (len : nat) (frames : list bytes) : cmd R Stop unit :=
  if decide (len = 0)%nat then mret tt
  else if decide (DIRECT_GAMEPAD_BATCH_FRAMES < len)%nat then
    fail (SessionLifecycle "frame packed batch fixed length overflow")
  else if decide (len = 1)%nat then frame ← first frames; try_send_frame_packed frame
  else
    map_err back_pressure
      (tx_try_send (Hc_GamepadPackedFrameBatchFixed (wrap 8 (Z.of_nat len)) frames)).

(** ** Flushing and closing *)

Definition flush : cmd R Stop unit := send Hc_Flush.
Definition try_flush : cmd R Stop unit := map_err back_pressure (tx_try_send Hc_Flush).

Definition flush_wait : cmd R Stop Z :=
  slot ← FlushSlot_new;
  seq ← next_seq;
  send (Hc_FlushAck seq slot);;
  wait slot.

Definition try_flush_wait : cmd R Stop Z :=
  slot ← FlushSlot_new;
  seq ← next_seq;
  map_err back_pressure (tx_try_send (Hc_FlushAck seq slot));;
  wait slot.

(** The error of the last send is discarded. *)
Definition close : cmd R Stop unit :=
  modify (λ r, set_fast ((λ f, mkFast (gamepad_ring f) true (gamepad_error f) (consuming f))
                           <$> fast r) r);;
  ignore_err (send Hc_Close).

Definition gamepad_consumer_error r : bool := default false (gamepad_error <$> fast r).

(** The result of the barrier, returned after the shutdown was requested. *)
Definition close_wait : cmd R Stop unit := λ r,
  let '(result, r) := flush_wait r in
  match result with
  | Err Blocked => (Err Blocked, r)
  | Panicked => (Panicked, r)
  | _ =>
      let '(o, r) := close r in
      match o with
      | Ok _ => (match result with Err e => Err e | _ => Ok tt end, r)
      | o => (o, r)
      end
  end.
End Client.
