(* ===== verification/FrameBatchers.v ===== *)
(** * The frame batchers ([src/src/client.rs])

    Five batchers collect frames in a fixed array on the caller's thread and send them as one
    command: [TouchFrameBatcher], [KeyboardFrameBatcher], [AndroidKeyFrameBatcher],
    [MouseFrameBatcher] and [ScrollFrameBatcher].  Their code is the same but for the frame,
    the array's size and the two methods of the client they send with, so it is written once,
    over the interface [BatchSink], and each batcher is an instance. *)

From stdpp Require Import gmap.
From S2P Require Import Prelude Words Errors Types Utf8 Float32 Message Transport Descriptor.
From S2P Require Import Coalesce Sink Session Touch Commands Dispatcher GamepadRing Runtime Client.
Local Open Scope Z_scope.

(** What a batcher of [F] needs of its client [C]. *)
Class BatchSink (C F : Type) := {
  batch_empty : F;
  batch_size : nat;
  batch_send : nat → list F → cmd C Stop unit;
  batch_try_send : nat → list F → cmd C Stop unit;
}.

Record Batcher (F : Type) : Type := mkBatcher { b_frames : list F; b_len : nat }.
Arguments mkBatcher {F}.
Arguments b_frames {F}.
Arguments b_len {F}.

Section Batcher.
Context {C F : Type} `{!BatchSink C F}.
Abbreviation B := (Batcher F).
Implicit Types p : C * B.

Definition Batcher_new : B := mkBatcher (replicate batch_size batch_empty) 0.
Definition Batcher_len (b : B) : nat := b_len b.
Definition Batcher_is_empty (b : B) : bool := bool_decide (b_len b = 0%nat).

(** On an error the frames stay where they are. *)
Definition flush_with (transmit : nat → list F → cmd C Stop unit) : cmd (C * B) Stop unit := λ p,
  if decide (b_len p.2 = 0)%nat then (Ok tt, p)
  else
    match transmit (b_len p.2) (b_frames p.2) p.1 with
    | (Ok _, c) => (Ok tt, (c, Batcher_new))
    | (o, c) => (o, (c, p.2))
    end.

Definition Batcher_flush : cmd (C * B) Stop unit := flush_with batch_send.
Definition Batcher_try_flush : cmd (C * B) Stop unit := flush_with batch_try_send.

(** [self.frames[self.len] = frame; self.len += 1;] *)
Definition store_frame (frame : F) : cmd (C * B) Stop unit := λ '(c, b),
  if decide (b_len b < length (b_frames b))%nat
  then (Ok tt, (c, mkBatcher (<[b_len b := frame]> (b_frames b)) (b_len b + 1)))
  else (Panicked, (c, b)).

Definition when_full (c : cmd (C * B) Stop unit) : cmd (C * B) Stop unit := λ p,
  if decide (b_len p.2 = batch_size)%nat then c p else (Ok tt, p).

Definition Batcher_push (frame : F) : cmd (C * B) Stop unit :=
  when_full Batcher_flush;; store_frame frame.
Definition Batcher_try_push (frame : F) : cmd (C * B) Stop unit :=
  when_full Batcher_try_flush;; store_frame frame.

Definition Batcher_push_many (frames : list F) : cmd (C * B) Stop unit :=
  for_each frames Batcher_push.
Definition Batcher_try_push_many (frames : list F) : cmd (C * B) Stop unit :=
  for_each frames Batcher_try_push.

(** [self.frames[len..len + n].copy_from_slice(..); self.len += n;] *)
Definition copy_frames (frames : list F) : cmd (C * B) Stop unit := λ '(c, b),
  if decide (b_len b + length frames ≤ length (b_frames b))%nat
  then (Ok tt, (c, mkBatcher (take (b_len b) (b_frames b) ++ frames ++
                                drop (b_len b + length frames) (b_frames b))
                     (b_len b + length frames)))
  else (Panicked, (c, b)).

(** The [while] loop over the frames left; every turn takes at least one of them. *)
Fixpoint slice_loop (fuel : nat) (flush : cmd (C * B) Stop unit) (frames : list F) :
    cmd (C * B) Stop unit :=
  match fuel with
  | O => unwind
  | S fuel =>
      match frames with
      | [] => mret tt
      | _ =>
          when_full flush;;
          room ← read (λ p : C * B, (batch_size - b_len p.2)%nat);
          let n := Nat.min (length frames) room in
          copy_frames (take n frames);;
          when_full flush;;
          slice_loop fuel flush (drop n frames)
      end
  end.

Definition Batcher_push_many_slice (frames : list F) : cmd (C * B) Stop unit :=
  slice_loop (S (length frames)) Batcher_flush frames.
Definition Batcher_try_push_many_slice (frames : list F) : cmd (C * B) Stop unit :=
  slice_loop (S (length frames)) Batcher_try_flush frames.

Definition drop_batcher : cmd (C * B) Stop unit := ignore_err Batcher_try_flush.

(** A block that makes a batcher on the client, uses it and drops it.  A thread that is
    blocked for ever drops nothing. *)
Definition with_batcher (body : cmd (C * B) Stop unit) : cmd C Stop unit := λ c,
  match body (c, Batcher_new) with
  | (Err Blocked, p) => (Err Blocked, p.1)
  | (o, p) =>
      match drop_batcher p with
      | (Panicked, p') => (Panicked, p'.1)
      | (_, p') => (o, p'.1)
      end
  end.
End Batcher.

(** ** The five batchers *)

Section Batchers.
Context {W : Type} `{!MessageSink W}.
Abbreviation R := (Runtime W).

#[export] Instance TouchFrameBatcher : BatchSink R TouchFrame := {
  batch_empty := TouchFrame_EMPTY; batch_size := TOUCH_BATCH_FRAMES;
  batch_send := send_touch_batch_fixed; batch_try_send := try_send_touch_batch_fixed }.
#[export] Instance KeyboardFrameBatcher : BatchSink R KeyboardFrame := {
  batch_empty := KeyboardFrame_EMPTY; batch_size := KEYBOARD_BATCH_FRAMES;
  batch_send := send_key_batch_fixed; batch_try_send := try_send_key_batch_fixed }.
#[export] Instance AndroidKeyFrameBatcher : BatchSink R AndroidKeyFrame := {
  batch_empty := AndroidKeyFrame_EMPTY; batch_size := ANDROID_KEY_BATCH_FRAMES;
  batch_send := send_android_key_batch_fixed; batch_try_send := try_send_android_key_batch_fixed }.
#[export] Instance MouseFrameBatcher : BatchSink R MouseFrame := {
  batch_empty := MouseFrame_EMPTY; batch_size := MOUSE_BATCH_FRAMES;
  batch_send := send_mouse_batch_fixed; batch_try_send := try_send_mouse_batch_fixed }.
#[export] Instance ScrollFrameBatcher : BatchSink R ScrollFrame := {
  batch_empty := ScrollFrame_EMPTY; batch_size := SCROLL_BATCH_FRAMES;
  batch_send := send_scroll_batch_fixed; batch_try_send := try_send_scroll_batch_fixed }.

(** *** Touches *)

Abbreviation TB := (cmd (R * Batcher TouchFrame) Stop unit).

Definition Touch_down (pointer_id x y : Z) (pressure : f32) : TB :=
  Batcher_push (with_action ACTION_DOWN pointer_id x y pressure).
Definition Touch_down_pointer (pointer_id x y : Z) (pressure : f32) : TB :=
  Touch_down pointer_id x y pressure.
Definition Touch_try_down (pointer_id x y : Z) (pressure : f32) : TB :=
  Batcher_try_push (with_action ACTION_DOWN pointer_id x y pressure).
Definition Touch_try_down_pointer (pointer_id x y : Z) (pressure : f32) : TB :=
  Touch_try_down pointer_id x y pressure.
Definition Touch_move_to (pointer_id x y : Z) (pressure : f32) : TB :=
  Batcher_push (with_action ACTION_MOVE pointer_id x y pressure).
Definition Touch_move_pointer_to (pointer_id x y : Z) (pressure : f32) : TB :=
  Touch_move_to pointer_id x y pressure.
Definition Touch_try_move_to (pointer_id x y : Z) (pressure : f32) : TB :=
  Batcher_try_push (with_action ACTION_MOVE pointer_id x y pressure).
Definition Touch_try_move_pointer_to (pointer_id x y : Z) (pressure : f32) : TB :=
  Touch_try_move_to pointer_id x y pressure.
Definition Touch_up (pointer_id x y : Z) : TB :=
  Batcher_push (with_action ACTION_UP pointer_id x y zero).
Definition Touch_up_pointer (pointer_id x y : Z) : TB := Touch_up pointer_id x y.
Definition Touch_try_up (pointer_id x y : Z) : TB :=
  Batcher_try_push (with_action ACTION_UP pointer_id x y zero).
Definition Touch_try_up_pointer (pointer_id x y : Z) : TB := Touch_try_up pointer_id x y.
Definition Touch_cancel (pointer_id : Z) : TB :=
  Batcher_push (with_action TOUCH_CANCEL pointer_id 0 0 zero).
Definition Touch_cancel_pointer (pointer_id : Z) : TB := Touch_cancel pointer_id.
Definition Touch_try_cancel (pointer_id : Z) : TB :=
  Batcher_try_push (with_action TOUCH_CANCEL pointer_id 0 0 zero).
Definition Touch_try_cancel_pointer (pointer_id : Z) : TB := Touch_try_cancel pointer_id.

(** *** Keyboard edges *)

Abbreviation KB := (cmd (R * Batcher KeyboardFrame) Stop unit).

Definition Keyboard_key (scancode : Z) (pressed : bool) (mods : Modifiers) : KB :=
  Batcher_push (KeyboardFrame_new scancode pressed mods).
Definition Keyboard_key_scancode (sc : Scancode) (pressed : bool) (mods : Modifiers) : KB :=
  Batcher_push (KeyboardFrame_scancode sc pressed mods).
Definition Keyboard_tap_key (scancode : Z) (mods : Modifiers) : KB :=
  Keyboard_key scancode true mods;; Keyboard_key scancode false Modifiers_empty.
Definition Keyboard_tap_scancode (sc : Scancode) (mods : Modifiers) : KB :=
  Keyboard_tap_key (to_u8 sc) mods.
Definition Keyboard_chord (chord : KeyboardChordFrame) : KB :=
  '(frames, len) ← from_error (edge_frames chord);
  Batcher_push_many_slice (take len frames).
Definition Keyboard_scancode_chord (scancodes : list Scancode) (mods : Modifiers) : KB :=
  chord ← from_error (try_scancodes scancodes mods); Keyboard_chord chord.
Definition Keyboard_try_key (scancode : Z) (pressed : bool) (mods : Modifiers) : KB :=
  Batcher_try_push (KeyboardFrame_new scancode pressed mods).
Definition Keyboard_try_key_scancode (sc : Scancode) (pressed : bool) (mods : Modifiers) : KB :=
  Batcher_try_push (KeyboardFrame_scancode sc pressed mods).
Definition Keyboard_try_tap_key (scancode : Z) (mods : Modifiers) : KB :=
  Keyboard_try_key scancode true mods;; Keyboard_try_key scancode false Modifiers_empty.
Definition Keyboard_try_tap_scancode (sc : Scancode) (mods : Modifiers) : KB :=
  Keyboard_try_tap_key (to_u8 sc) mods.
Definition Keyboard_try_chord (chord : KeyboardChordFrame) : KB :=
  '(frames, len) ← from_error (edge_frames chord);
  Batcher_try_push_many_slice (take len frames).
Definition Keyboard_try_scancode_chord (scancodes : list Scancode) (mods : Modifiers) : KB :=
  chord ← from_error (try_scancodes scancodes mods); Keyboard_try_chord chord.

(** *** Android keys *)

Abbreviation AB := (cmd (R * Batcher AndroidKeyFrame) Stop unit).

Definition AndroidKey_keycode (action keycode repeat metastate : Z) : AB :=
  Batcher_push (AndroidKeyFrame_new action keycode repeat metastate).
Definition AndroidKey_key_event (action keycode repeat metastate : Z) : AB :=
  Batcher_push (typed action keycode repeat metastate).
Definition AndroidKey_tap_keycode (keycode metastate : Z) : AB :=
  AndroidKey_keycode KEY_ACTION_DOWN keycode 0 metastate;;
  AndroidKey_keycode KEY_ACTION_UP keycode 0 metastate.
Definition AndroidKey_tap_key_with_metastate (keycode metastate : Z) : AB :=
  AndroidKey_key_event KEY_ACTION_DOWN keycode 0 metastate;;
  AndroidKey_key_event KEY_ACTION_UP keycode 0 metastate.
Definition AndroidKey_tap_key (keycode : Z) : AB := AndroidKey_tap_key_with_metastate keycode 0.
Definition AndroidKey_try_keycode (action keycode repeat metastate : Z) : AB :=
  Batcher_try_push (AndroidKeyFrame_new action keycode repeat metastate).
Definition AndroidKey_try_key_event (action keycode repeat metastate : Z) : AB :=
  Batcher_try_push (typed action keycode repeat metastate).
Definition AndroidKey_try_tap_keycode (keycode metastate : Z) : AB :=
  AndroidKey_try_keycode KEY_ACTION_DOWN keycode 0 metastate;;
  AndroidKey_try_keycode KEY_ACTION_UP keycode 0 metastate.
Definition AndroidKey_try_tap_key_with_metastate (keycode metastate : Z) : AB :=
  AndroidKey_try_key_event KEY_ACTION_DOWN keycode 0 metastate;;
  AndroidKey_try_key_event KEY_ACTION_UP keycode 0 metastate.
Definition AndroidKey_try_tap_key (keycode : Z) : AB :=
  AndroidKey_try_tap_key_with_metastate keycode 0.

(** *** Mouse reports *)

Abbreviation MB := (cmd (R * Batcher MouseFrame) Stop unit).

Definition Mouse_motion (dx dy buttons : Z) : MB := Batcher_push (motion dx dy buttons).
Definition Mouse_motion_buttons (dx dy : Z) (buttons : list MouseButton) : MB :=
  Batcher_push (motion_buttons dx dy buttons).
Definition Mouse_buttons (buttons : Z) : MB := Batcher_push (MouseFrame_buttons buttons).
Definition Mouse_button_state (buttons : list MouseButton) : MB :=
  Mouse_buttons (MouseButton_state buttons).
Definition Mouse_try_motion (dx dy buttons : Z) : MB := Batcher_try_push (motion dx dy buttons).
Definition Mouse_try_motion_buttons (dx dy : Z) (buttons : list MouseButton) : MB :=
  Batcher_try_push (motion_buttons dx dy buttons).
Definition Mouse_try_buttons (buttons : Z) : MB := Batcher_try_push (MouseFrame_buttons buttons).
Definition Mouse_try_button_state (buttons : list MouseButton) : MB :=
  Mouse_try_buttons (MouseButton_state buttons).

(** *** Scrolls *)

Abbreviation SB := (cmd (R * Batcher ScrollFrame) Stop unit).

Definition Scroll_scroll (x y : Z) (hscroll vscroll : f32) : SB :=
  Batcher_push (ScrollFrame_scroll x y hscroll vscroll).
Definition Scroll_scroll_with_buttons (x y : Z) (hscroll vscroll : f32) (buttons : Z) : SB :=
  Batcher_push (ScrollFrame_new x y hscroll vscroll buttons).
Definition Scroll_try_scroll (x y : Z) (hscroll vscroll : f32) : SB :=
  Batcher_try_push (ScrollFrame_scroll x y hscroll vscroll).
Definition Scroll_try_scroll_with_buttons (x y : Z) (hscroll vscroll : f32) (buttons : Z) : SB :=
  Batcher_try_push (ScrollFrame_new x y hscroll vscroll buttons).
End Batchers.

(** ** Commands that take frames *)

(** A command that is offered frames takes a prefix of them, all of them when it returns
    [Ok]. *)
Definition takes_from {F} (fs : list F) (o : outcome Stop unit) (taken : list F) : Prop :=
  o ≠ Panicked ∧ taken `prefix_of` fs ∧ (o = Ok tt → taken = fs).

Section Streams.
Context {P F : Type} (wf : P → Prop) (stream : P → list F).

Definition gives (fs : list F) (c : cmd P Stop unit) : Prop :=
  ∀ p, wf p →
    wf (c p).2 ∧ ∃ taken, takes_from fs (c p).1 taken ∧ stream (c p).2 = stream p ++ taken.

Lemma takes_none (fs : list F) o : o ≠ Panicked → (o = Ok tt → fs = []) → takes_from fs o [].
Proof. intros Ho Hok. split; [done|]. split; [apply prefix_nil|]. intros H. symmetry. by apply Hok. Qed.

Lemma gives_ret : gives [] (mret tt).
Proof. intros p Hp. split; [done|]. exists []. rewrite app_nil_r. by split; [apply takes_none|]. Qed.

Lemma gives_bind fs fs' c k : gives fs c → gives fs' k → gives (fs ++ fs') (c;; k).
Proof.
  intros Hc Hk p Hp. destruct (Hc p Hp) as (Hw & taken & (Hn & Hpre & Hall) & Hs).
  unfold mbind, cmd_bind. destruct (c p) as [[[]|e|] p1]; cbn [fst snd] in *; [| |done].
  - specialize (Hall eq_refl) as ->. destruct (Hk p1 Hw) as (Hw2 & taken & (Hn2 & Hpre2 & Hall2) & Hs2).
    split; [done|]. exists (fs ++ taken). split; [split_and!; [done|by apply prefix_app|]|].
    + intros Ho. by rewrite Hall2.
    + by rewrite Hs2, Hs, app_assoc.
  - split; [done|]. exists taken. split; [split_and!; [done|by apply prefix_app_r|done]|done].
Qed.

Lemma gives_each {X} (g : X → list F) (push : X → cmd P Stop unit) xs :
  (∀ x, gives (g x) (push x)) → gives (xs ≫= g) (for_each xs push).
Proof.
  intros Hp. induction xs as [|x xs IH]; [apply gives_ret|]. rewrite bind_cons.
  by apply gives_bind.
Qed.

Lemma push_many_gives (push : F → cmd P Stop unit) fs :
  (∀ f, gives [f] (push f)) → gives fs (for_each fs push).
Proof.
  intros Hp. induction fs as [|f fs IH]; [apply gives_ret|]. by apply (gives_bind [f] fs).
Qed.
End Streams.

(** ** What a batcher promises *)

(** The client's side: a batch is handed over whole or not at all. *)
Class LawfulBatchSink (C F : Type) `{!BatchSink C F} := {
  handed : C → list F;
  transmits : (nat → list F → cmd C Stop unit) → Prop := λ transmit,
    ∀ len frames c, (0 < len ≤ batch_size)%nat → length frames = batch_size →
      match transmit len frames c with
      | (Ok _, c') => handed c' = handed c ++ take len frames
      | (Err _, c') => handed c' = handed c
      | (Panicked, _) => False
      end;
  batch_size_pos : (0 < batch_size)%nat;
  batch_send_ok : transmits batch_send;
  batch_try_send_ok : transmits batch_try_send;
}.

Section Keeps.
Context {C F : Type} `{!BatchSink C F, !LawfulBatchSink C F} (h0 : list F).
Abbreviation B := (Batcher F).
Implicit Types p : C * B.

Definition batcher_wf (b : B) : Prop :=
  length (b_frames b) = batch_size ∧ (b_len b ≤ batch_size)%nat.
Definition buffered (b : B) : list F := take (b_len b) (b_frames b).

(** The frames handed over since [h0] stay. *)
Definition batching p : Prop := batcher_wf p.2 ∧ h0 `prefix_of` handed p.1.

(** The frames handed over, and those that wait. *)
Definition stream p : list F := handed p.1 ++ buffered p.2.

Abbreviation gives := (gives batching stream).

Lemma batcher_new_wf : batcher_wf Batcher_new.
Proof. split; cbn; [by rewrite length_replicate|lia]. Qed.

Lemma batching_new c : h0 `prefix_of` handed c → batching (c, Batcher_new).
Proof. intros H. split; [apply batcher_new_wf|done]. Qed.

(** A flush, and the room it leaves. *)
Definition empties (c : cmd (C * B) Stop unit) : Prop :=
  ∀ p, batching p →
    match c p with
    | (Ok _, p') => b_len p'.2 = 0%nat ∧ batching p' ∧ stream p' = stream p
    | (Err _, p') => p'.2 = p.2 ∧ batching p' ∧ stream p' = stream p
    | (Panicked, _) => False
    end.

Lemma flush_with_empties transmit : transmits transmit → empties (flush_with transmit).
Proof.
  intros Ht [c b] [[Hl Hn] Hh]. unfold flush_with. cbn [fst snd] in *. case_decide as H0; [done|].
  specialize (Ht (b_len b) (b_frames b) c ltac:(lia) Hl).
  destruct (transmit (b_len b) (b_frames b) c) as [[[]|e|] c']; [| |done].
  - split; [done|]. split; [split; [apply batcher_new_wf|]|].
    + cbn. rewrite Ht. by apply prefix_app_r.
    + unfold stream. cbn. by rewrite app_nil_r, Ht.
  - split; [done|]. split; [split; [done|cbn; by rewrite Ht]|]. unfold stream. cbn. by rewrite Ht.
Qed.

Lemma flush_empties : empties Batcher_flush.
Proof. apply flush_with_empties, batch_send_ok. Qed.

Lemma try_flush_empties : empties Batcher_try_flush.
Proof. apply flush_with_empties, batch_try_send_ok. Qed.

Lemma flush_gives c : empties c → gives [] c.
Proof.
  intros Hc p Hp. specialize (Hc p Hp). destruct (c p) as [[[]|e|] p']; cbn; [| |done];
    destruct Hc as (_ & Hw & Hs); (split; [done|]); exists []; rewrite app_nil_r;
    by split; [apply takes_none|].
Qed.

Lemma when_full_room flush p :
  empties flush → batching p →
  match when_full flush p with
  | (Ok _, p') => batching p' ∧ (b_len p'.2 < batch_size)%nat ∧ stream p' = stream p
  | (Err _, p') => batching p' ∧ stream p' = stream p
  | (Panicked, _) => False
  end.
Proof.
  intros Hf Hp. unfold when_full. pose proof batch_size_pos as Hpos. case_decide as Hd.
  - specialize (Hf p Hp). destruct (flush p) as [[[]|e|] p']; [| |done].
    + destruct Hf as (H0 & Hw & Hs). split; [done|]. split; [lia|done].
    + by destruct Hf as (_ & Hw & Hs).
  - split; [done|]. split; [|done]. destruct Hp as [[_ Hn] _]. lia.
Qed.

Lemma copy_stream frames p :
  batching p → (b_len p.2 + length frames ≤ batch_size)%nat →
  ∃ p', copy_frames frames p = (Ok tt, p') ∧ batching p' ∧ stream p' = stream p ++ frames ∧
        b_len p'.2 = (b_len p.2 + length frames)%nat.
Proof.
  destruct p as [c b]. intros [[Hl Hn] Hh] Hroom. cbn [snd] in *. unfold copy_frames.
  rewrite decide_True by lia. eexists. split; [done|]. split; [|split].
  - split; [|done]. split; cbn; [|lia]. rewrite !length_app, length_take, length_drop. lia.
  - unfold stream, buffered. cbn. rewrite <-app_assoc. f_equal.
    rewrite app_assoc, take_app_length'; [done|]. rewrite length_app, length_take. lia.
  - done.
Qed.

Lemma store_stream f p :
  batching p → (b_len p.2 < batch_size)%nat →
  ∃ p', store_frame f p = (Ok tt, p') ∧ batching p' ∧ stream p' = stream p ++ [f].
Proof.
  destruct p as [c b]. intros [[Hl Hn] Hh] Hroom. cbn [snd] in *. unfold store_frame.
  rewrite decide_True by lia. eexists. split; [done|]. split.
  - split; [|done]. split; cbn; [by rewrite length_insert|lia].
  - unfold stream, buffered. cbn. rewrite <-app_assoc. f_equal. rewrite Nat.add_1_r.
    rewrite (take_S_r _ _ f) by (apply list_lookup_insert_eq; lia).
    by rewrite take_insert_ge.
Qed.

(** What runs behind a conditional flush finds room. *)
Lemma full_then flush k fs :
  empties flush →
  (∀ p, batching p → (b_len p.2 < batch_size)%nat →
     batching (k p).2 ∧
     ∃ taken, takes_from fs (k p).1 taken ∧ stream (k p).2 = stream p ++ taken) →
  gives fs (when_full flush;; k).
Proof.
  intros Hf Hk p Hp. pose proof (when_full_room flush p Hf Hp) as H.
  unfold mbind, cmd_bind. destruct (when_full flush p) as [[[]|e|] p1]; [| |done].
  - destruct H as (Hw & Hroom & <-). by apply Hk.
  - destruct H as [He Hs]. split; [done|]. exists []. rewrite app_nil_r.
    by split; [apply takes_none|].
Qed.

Lemma push_gives flush f :
  empties flush → gives [f] (when_full flush;; store_frame f).
Proof.
  intros Hf. apply full_then; [done|]. intros p Hw Hroom.
  destruct (store_stream f p Hw Hroom) as (p2 & -> & Hw2 & Hs2).
  split; [done|]. by exists [f].
Qed.

Lemma slice_gives flush fuel fs :
  empties flush → (length fs < fuel)%nat → gives fs (slice_loop fuel flush fs).
Proof.
  intros Hf. revert fs. induction fuel as [|fuel IH]; intros fs Hfuel; [lia|].
  destruct fs as [|f fs']; [apply gives_ret|]. set (fs := f :: fs') in *. cbn [slice_loop].
  apply full_then; [done|]. intros p Hw Hroom. rewrite (bind_ok (read _) _ p _ p eq_refl).
  cbn beta zeta. set (n := Nat.min (length fs) (batch_size - b_len p.2)).
  destruct (copy_stream (take n fs) p Hw) as (p2 & H2 & Hw2 & Hs2 & _).
  { rewrite length_take. lia. }
  rewrite (bind_ok _ _ p tt p2 H2).
  assert (0 < n ≤ length fs)%nat as Hn0.
  { assert (length fs = Datatypes.S (length fs')) by done. unfold n. lia. }
  assert (gives (drop n fs) (when_full flush;; slice_loop fuel flush (drop n fs))) as Hg.
  { apply (gives_bind _ _ []); [|apply IH; rewrite length_drop; lia].
    intros q Hq. unfold when_full. case_decide; [by apply flush_gives|by apply (gives_ret batching stream q)]. }
  destruct (Hg p2 Hw2) as (Hw3 & taken & (Hn & Hpre & Hall) & Hs3).
  split; [done|]. exists (take n fs ++ taken). split; [split_and!; [done| |]|].
  - rewrite <-(take_drop n fs) at 2. by apply prefix_app.
  - intros Ho. by rewrite Hall, take_drop.
  - by rewrite Hs3, Hs2, app_assoc.
Qed.

(** ** Histories of a batcher *)

Inductive BatchOp : Type :=
  | B_push (f : F)
  | B_try_push (f : F)
  | B_push_many (fs : list F)
  | B_try_push_many (fs : list F)
  | B_push_many_slice (fs : list F)
  | B_try_push_many_slice (fs : list F)
  | B_flush
  | B_try_flush.

Definition offered (op : BatchOp) : list F :=
  match op with
  | B_push f | B_try_push f => [f]
  | B_push_many fs | B_try_push_many fs | B_push_many_slice fs | B_try_push_many_slice fs => fs
  | B_flush | B_try_flush => []
  end.

Definition run_batch (op : BatchOp) : cmd (C * B) Stop unit :=
  match op with
  | B_push f => Batcher_push f
  | B_try_push f => Batcher_try_push f
  | B_push_many fs => Batcher_push_many fs
  | B_try_push_many fs => Batcher_try_push_many fs
  | B_push_many_slice fs => Batcher_push_many_slice fs
  | B_try_push_many_slice fs => Batcher_try_push_many_slice fs
  | B_flush => Batcher_flush
  | B_try_flush => Batcher_try_flush
  end.

Fixpoint run_batches (ops : list BatchOp) p : list (outcome Stop unit) * (C * B) :=
  match ops with
  | [] => ([], p)
  | op :: ops =>
      let '(o, p) := run_batch op p in
      let '(os, p) := run_batches ops p in
      (o :: os, p)
  end.

Lemma run_batch_gives op : gives (offered op) (run_batch op).
Proof.
  pose proof flush_empties. pose proof try_flush_empties.
  destruct op; cbn [run_batch offered];
    [by apply push_gives|by apply push_gives
    |apply push_many_gives; intros; by apply push_gives
    |apply push_many_gives; intros; by apply push_gives
    |apply slice_gives; [done|lia]|apply slice_gives; [done|lia]
    |by apply flush_gives|by apply flush_gives].
Qed.

Lemma run_batches_keep ops p :
  batching p →
  batching (run_batches ops p).2 ∧
  ∃ takens, Forall3 (λ op o taken, takes_from (offered op) o taken) ops (run_batches ops p).1 takens ∧
    stream (run_batches ops p).2 = stream p ++ concat takens.
Proof.
  revert p. induction ops as [|op ops IH]; intros p Hp; cbn [run_batches].
  { split; [done|]. exists []. split; [constructor|]. by rewrite app_nil_r. }
  destruct (run_batch_gives op p Hp) as (Hw & taken & Ht & Hs).
  destruct (run_batch op p) as [o p1]. cbn [fst snd] in *.
  destruct (IH p1 Hw) as (Hw2 & takens & Hts & Hs2).
  destruct (run_batches ops p1) as [os p2]. cbn [fst snd] in *.
  split; [done|]. exists (taken :: takens). split; [by constructor|].
  by rewrite Hs2, Hs, <-app_assoc.
Qed.

(** A block that ends with a flush. *)
Definition block (fs : list F) (c : cmd (C * B) Stop unit) : Prop :=
  gives fs c ∧ ∀ p, batching p → (c p).1 = Ok tt → b_len (c p).2.2 = 0%nat.

Lemma block_flush : block [] Batcher_flush.
Proof.
  split; [apply flush_gives, flush_empties|]. intros p Hp. pose proof (flush_empties p Hp) as H.
  destruct (Batcher_flush p) as [[[]|e|] p']; [|done..]. intros _. apply H.
Qed.

Lemma block_bind fs fs' c k : gives fs c → block fs' k → block (fs ++ fs') (c;; k).
Proof.
  intros Hc [Hk Hz]. split; [by apply gives_bind|]. intros p Hp. destruct (Hc p Hp) as [Hp1 _].
  unfold mbind, cmd_bind. destruct (c p) as [[[]|e|] p1]; [|done..]. by apply Hz.
Qed.

Lemma drop_hands p :
  batching p →
  (drop_batcher p).1 = Ok tt ∧ h0 `prefix_of` handed (drop_batcher p).2.1 ∧
  (handed (drop_batcher p).2.1 = stream p ∨ handed (drop_batcher p).2.1 = handed p.1).
Proof.
  intros Hw. pose proof (try_flush_empties p Hw) as He. unfold drop_batcher, ignore_err.
  destruct (Batcher_try_flush p) as [[[]|e|] p']; [| |done]; cbn [fst snd];
    destruct He as (Hb & [_ Hh] & Hs); (split; [done|]; split; [done|]); unfold stream in Hs |- *.
  - left. unfold buffered at 1 in Hs. by rewrite Hb, app_nil_r in Hs.
  - right. rewrite Hb in Hs. by apply app_inv_tail in Hs.
Qed.
End Keeps.

Lemma with_batcher_hands {C F} `{!BatchSink C F, !LawfulBatchSink C F} fs body (c : C) :
  block (handed c) fs body →
  let o := (with_batcher body c).1 in
  let c' := (with_batcher body c).2 in
  ∃ taken, takes_from fs o taken ∧ handed c' = handed c ++ taken.
Proof.
  intros [Hb Hz] o c'. subst o c'. unfold with_batcher.
  assert (batching (handed c) (c, Batcher_new)) as Hnew by by apply batching_new.
  destruct (Hb _ Hnew) as (Hw & taken & (Hn & Hpre & Hall) & Hs). specialize (Hz _ Hnew).
  destruct (body (c, Batcher_new)) as [o p]. cbn [fst snd] in *.
  assert (stream p = handed c ++ taken) as Hsp.
  { rewrite Hs. unfold stream. cbn. by rewrite app_nil_r. }
  destruct (drop_hands _ p Hw) as (Hd & Hh & Hor).
  assert (∀ c', handed c `prefix_of` handed c' → handed c' = stream p ∨ handed c' = handed p.1 →
            ∃ taken', taken' `prefix_of` fs ∧ handed c' = handed c ++ taken') as Hsome.
  { intros c' [t' Ht'] Hc'. exists t'. split; [|done]. etrans; [|exact Hpre].
    destruct Hc' as [Hc'|Hc']; rewrite Ht' in Hc'.
    - rewrite Hsp in Hc'. by apply app_inv_head in Hc' as ->.
    - unfold stream in Hsp. rewrite <-Hc', <-app_assoc in Hsp. apply app_inv_head in Hsp as <-.
      by eexists. }
  destruct o as [[]|[e|]|]; [| | |done].
  - specialize (Hall eq_refl) as ->. exists fs. specialize (Hz eq_refl).
    destruct (drop_batcher p) as [od p']. cbn [fst snd] in *. subst od. split; [done|]. cbn [snd].
    destruct Hor as [->| ->]; [done|]. unfold stream, buffered in Hsp.
    by rewrite Hz, app_nil_r in Hsp.
  - destruct (Hsome _ Hh Hor) as (taken' & Hp' & Ht').
    destruct (drop_batcher p) as [od p']. cbn [fst snd] in *. subst od. by exists taken'.
  - destruct (Hsome p.1 (proj2 Hw) (or_intror eq_refl)) as (taken' & Hp' & Ht'). by exists taken'.
Qed.

(** C11: A batcher neither loses nor repeats a frame.  Over a client that hands batches over
    whole or refuses them, after any history of pushes, slices and flushes, blocking or not:
    no operation unwinds; each took all the frames it was offered if it returned [Ok] and
    else a prefix of them; and the frames handed to the client, followed by those in the
    buffer, are the frames taken, in order.  Dropping the batcher then hands over all of the
    buffer, or, when the client refuses it, none. *)
Theorem batcher_keeps_frames {C F} `{!BatchSink C F, !LawfulBatchSink C F} (c : C)
    (ops : list (BatchOp (F := F))) :
  let os := (run_batches ops (c, Batcher_new)).1 in
  let p := (run_batches ops (c, Batcher_new)).2 in
  ∃ takens,
    Forall3 (λ op o taken, takes_from (offered op) o taken) ops os takens ∧
    handed p.1 ++ buffered p.2 = handed c ++ concat takens ∧
    (length (buffered p.2) ≤ batch_size)%nat ∧
    (drop_batcher p).1 = Ok tt ∧
    (handed (drop_batcher p).2.1 = handed c ++ concat takens ∨
     handed (drop_batcher p).2.1 = handed p.1).
Proof.
  intros os p.
  destruct (run_batches_keep [] ops (c, Batcher_new) (batching_new _ _ (prefix_nil _)))
    as (Hw & takens & Ht & Hs).
  fold os p in Hw, Ht, Hs. exists takens. split; [done|].
  assert (stream p = handed c ++ concat takens) as Hsp.
  { rewrite Hs. unfold stream. cbn. by rewrite app_nil_r. }
  split; [done|]. split; [unfold buffered; rewrite length_take; destruct Hw as [[] _]; lia|].
  rewrite <-Hsp. by destruct (drop_hands [] p Hw) as (? & _ & ?).
Qed.

(** ** The five clients *)

Section Instances.
Context {W : Type} `{!MessageSink W}.
Abbreviation R := (Runtime W).
Implicit Types r : R.

(** The threads and the other clones do not touch this client's record. *)
Lemma dispatcher_queued r : queued (dispatcher_turn r) = queued r.
Proof.
  unfold dispatcher_turn. destruct (receiving r); [|done]. destruct (channel r) as [|c q]; [done|].
  by destruct (dispatch_to_session c (threads r)) as [[[]|e|] d].
Qed.

Lemma consumer_queued r : queued (consumer_turn r) = queued r.
Proof.
  unfold consumer_turn. destruct (fast r) as [f|]; [|done]. destruct (consuming f); [|done]. cbn.
  destruct (pop (gamepad_ring f)) as [[[fr|]|e|] g]; [|by destruct (gamepad_close f)..].
  by destruct (set_frame_raw fr (ds_session (threads r))) as [[[]|e|] s].
Qed.

Lemma other_queued c r : queued (other_sends c r) = queued r.
Proof. unfold other_sends. destruct (_ && _); [|done]. by destruct c. Qed.

Lemma events_queued es r : queued (run_events es r) = queued r.
Proof.
  revert r. induction es as [|e es IH]; intros r; [done|]. cbn [run_events foldl].
  etrans; [apply IH|]. destruct e; [apply dispatcher_queued|apply consumer_queued|apply other_queued].
Qed.

Lemma interleave_run {E} r :
  ∃ r', interleave (E := E) r = (Ok tt, r') ∧ queued r' = queued r.
Proof.
  unfold interleave. eexists. split; [reflexivity|]. destruct (schedule r); [done|]. etrans; [apply events_queued|done].
Qed.

(** What a send does to the record. *)
Definition sends (c : HidCommand) (m : cmd R Stop unit) : Prop := ∀ r,
  match m r with
  | (Ok _, r') => queued r' = queued r ++ [c]
  | (Err _, r') => queued r' = queued r
  | (Panicked, _) => False
  end.

Lemma send_sends c : sends c (send c).
Proof.
  intros r. unfold send, map_err, catch, tx_send.
  destruct (interleave_run (E := TrySendError) r) as (r1 & H1 & Hq).
  rewrite (bind_ok _ _ r tt r1 H1). run. rewrite <-Hq.
  set (r2 := if has_room r1 then r1 else dispatcher_turn r1).
  assert (queued r2 = queued r1) as Hq2 by (unfold r2; destruct (has_room r1); [done|apply dispatcher_queued]).
  destruct (receiving r2); cbn; [by rewrite Hq2|done].
Qed.

Lemma try_sends c : sends c (map_err back_pressure (tx_try_send c)).
Proof.
  intros r. unfold map_err, catch, tx_try_send.
  destruct (interleave_run (E := TrySendError) r) as (r1 & H1 & Hq).
  rewrite (bind_ok _ _ r tt r1 H1). run. rewrite <-Hq.
  destruct (receiving r1); cbn; [|done]. by destruct (has_room r1).
Qed.

(** A batch method that sends a command which carries its frames. *)
Lemma carries_frames {F} (frames_of : HidCommand → list F) (m : cmd R Stop unit) c fs r :
  sends c m → frames_of c = fs →
  match m r with
  | (Ok _, r') => queued r' ≫= frames_of = (queued r ≫= frames_of) ++ fs
  | (Err _, r') => queued r' ≫= frames_of = queued r ≫= frames_of
  | (Panicked, _) => False
  end.
Proof.
  intros Hs <-. specialize (Hs r). destruct (m r) as [[[]|e|] r']; [| |done]; rewrite Hs; [|done].
  by rewrite bind_app, bind_singleton.
Qed.

Lemma wrap_len (len size : nat) : (len ≤ size)%nat → (size < 256)%nat → wrap 8 (Z.of_nat len) = Z.of_nat len.
Proof. intros H1 H2. apply wrap_small. split; [lia|]. change (2 ^ 8) with 256. lia. Qed.

(** The frame alone in a batch of one. *)
Lemma first_run {S X} (frames : list X) n (s : S) :
  length frames = Datatypes.S n → ∃ f, first frames s = (Ok f, s) ∧ take 1 frames = [f].
Proof. destruct frames as [|f frames]; [done|]. by exists f. Qed.

Definition touch_frames (c : HidCommand) : list TouchFrame :=
  match c with Hc_TouchBatchFixed len fs => take (Z.to_nat len) fs | _ => [] end.
Definition key_frames (c : HidCommand) : list KeyboardFrame :=
  match c with
  | Hc_Key sc p m => [mkKeyboardFrame sc p m]
  | Hc_KeyBatchFixed len fs => take (Z.to_nat len) fs
  | _ => []
  end.
Definition android_frames (c : HidCommand) : list AndroidKeyFrame :=
  match c with
  | Hc_InjectKeycode a k r m => [mkAndroidKeyFrame a k r m]
  | Hc_AndroidKeyBatchFixed len fs => take (Z.to_nat len) fs
  | _ => []
  end.
Definition mouse_frames (c : HidCommand) : list MouseFrame :=
  match c with
  | Hc_MouseMotion x y b => [mkMouseFrame x y b]
  | Hc_MouseBatchFixed len fs => take (Z.to_nat len) fs
  | _ => []
  end.
Definition scroll_frames (c : HidCommand) : list ScrollFrame :=
  match c with
  | Hc_InjectScroll x y h v b => [mkScrollFrame x y h v b]
  | Hc_InjectScrollBatchFixed len fs => take (Z.to_nat len) fs
  | _ => []
  end.

(** The guards of a [.._batch_fixed] method, and the frame alone. *)
Ltac one_frame :=
  match goal with
  | Hl : length ?fs = _ |- context [decide (?len = 1%nat)] =>
      destruct (decide (len = 1%nat)) as [->|];
      [ let H := fresh in
        match goal with |- context [(first fs ≫= _) ?r] =>
          destruct (first_run fs _ r Hl) as ([] & H & ->); rewrite (bind_ok _ _ r _ r H); clear H
        end
      | ]
  | _ => idtac
  end.

Ltac batch_fixed frames_of :=
  let Hn := fresh "Hn" in
  intros ??? Hn ?; cbn in Hn; cbv beta delta [batch_size] in Hn;
  repeat rewrite decide_False by lia; one_frame;
  (eapply (carries_frames frames_of);
    [first [apply send_sends | apply try_sends]
    |first [reflexivity | cbn; rewrite (wrap_len _ _ (proj2 Hn)) by (cbv; lia); by rewrite Nat2Z.id]]).

#[export] Instance Touch_lawful : LawfulBatchSink R TouchFrame.
Proof.
  refine {| handed r := queued r ≫= touch_frames |}; [cbv; lia|..];
    cbn [batch_send batch_try_send TouchFrameBatcher];
    unfold send_touch_batch_fixed, try_send_touch_batch_fixed; batch_fixed touch_frames.
Defined.

#[export] Instance KeyboardBatch_lawful : LawfulBatchSink R KeyboardFrame.
Proof.
  refine {| handed r := queued r ≫= key_frames |}; [cbv; lia|..];
    cbn [batch_send batch_try_send KeyboardFrameBatcher];
    unfold send_key_batch_fixed, try_send_key_batch_fixed; batch_fixed key_frames.
Defined.

#[export] Instance AndroidKey_lawful : LawfulBatchSink R AndroidKeyFrame.
Proof.
  refine {| handed r := queued r ≫= android_frames |}; [cbv; lia|..];
    cbn [batch_send batch_try_send AndroidKeyFrameBatcher];
    unfold send_android_key_batch_fixed, try_send_android_key_batch_fixed; batch_fixed android_frames.
Defined.

#[export] Instance MouseBatch_lawful : LawfulBatchSink R MouseFrame.
Proof.
  refine {| handed r := queued r ≫= mouse_frames |}; [cbv; lia|..];
    cbn [batch_send batch_try_send MouseFrameBatcher];
    unfold send_mouse_batch_fixed, try_send_mouse_batch_fixed; batch_fixed mouse_frames.
Defined.

#[export] Instance Scroll_lawful : LawfulBatchSink R ScrollFrame.
Proof.
  refine {| handed r := queued r ≫= scroll_frames |}; [cbv; lia|..];
    cbn [batch_send batch_try_send ScrollFrameBatcher];
    unfold send_scroll_batch_fixed, try_send_scroll_batch_fixed; batch_fixed scroll_frames.
Defined.
End Instances.

(** ** Witnesses *)

(** A client whose channel holds one command, over a session that records its messages, and a
    dispatcher that runs only when a send waits for room. *)
Definition narrow : Runtime MsgLog :=
  into_client_with_bound (open (mkLog []) kbd_only).2 1 [].

(** The second full buffer finds the channel full. *)
Definition sample_batches : list BatchOp :=
  [B_push_many_slice (replicate 20 (KeyboardFrame_new 4 true 0));
   B_try_push_many (replicate 60 (KeyboardFrame_new 5 true 0));
   B_try_flush].

Lemma batcher_keeps_frames_witness :
  let p := (run_batches sample_batches (narrow, Batcher_new)).2 in
  handed (F := KeyboardFrame) p.1 ++ buffered p.2 =
    replicate 20 (KeyboardFrame_new 4 true 0) ++ replicate 44 (KeyboardFrame_new 5 true 0) ∧
  Forall (λ o, o ≠ Panicked) (run_batches sample_batches (narrow, Batcher_new)).1.
Proof.
  intros p.
  destruct (batcher_keeps_frames (F := KeyboardFrame) narrow sample_batches) as (takens & Ht & _).
  split; [by vm_compute|].
  induction Ht as [|op o taken ops os takens [Hn _] _ IH]; [done|]. by constructor.
Defined.
