(* ===== verification/Barrier.v ===== *)
(** * The acknowledged flush ([src/src/client.rs])

    [flush_wait] queues a barrier and sleeps until the dispatcher notifies its slot.  Here:
    the slots are handed out once, so a caller only ever reads its own answer; which answer
    it is; and when there is none, because the dispatcher stopped with the barrier still in
    the channel. *)

From stdpp Require Import gmap.
From S2P Require Import Prelude Words Errors Types Utf8 Float32 Message Transport Descriptor.
From S2P Require Import Coalesce Sink Session Touch Commands Dispatcher GamepadRing Runtime Client.
Local Open Scope Z_scope.

Section Barrier.
Context {W : Type} `{!MessageSink W}.
Abbreviation R := (Runtime W).
Abbreviation D := (DispatchState W).
Implicit Types r : R.
Implicit Types d : D.

(** ** Who writes to a slot *)

Definition same_slots d d' : Prop := flush_slots d' = flush_slots d.

#[export] Instance same_slots_preorder : PreOrder same_slots.
Proof. split; unfold same_slots; [done|]. intros d1 d2 d3. congruence. Qed.

Lemma recording_slots {A} (c : cmd (HidSession W) Error A) : stable same_slots (recording c).
Proof. intros d. unfold recording. by destruct (c (ds_session d)) as [[a|e|] s]. Qed.

Lemma answer_slots {A} (c : cmd (HidSession W) Error A) : stable same_slots (answer c).
Proof. apply stable_bind; [apply _|apply recording_slots|by intros _ d]. Qed.

Lemma slice_slots {X} len (fs : list X) : stable same_slots (slice len fs).
Proof. intros d. unfold slice. by case_decide. Qed.

Lemma answer_each_slots {X A} len (fs : list X) (c : X → cmd (HidSession W) Error A) :
  stable same_slots (answer_each len fs c).
Proof.
  apply stable_bind; [apply _|apply slice_slots|intros l].
  apply stable_bind; [apply _| |by intros _ d].
  apply stable_for_each; [apply _|]. intros x. apply recording_slots.
Qed.

Lemma in_session_slots {A} (c : cmd (HidSession W) Error A) (b : bool) :
  stable same_slots (in_session c;; mret b).
Proof.
  apply stable_bind; [apply _| |by intros _ d]. intros d. unfold in_session, zoom.
  by destruct (c (ds_session d)).
Qed.

(** Only a barrier writes to a slot, to its own, and never a panic. *)
Lemma dispatch_slots c d k :
  flush_slots (dispatch_to_session c d).2 !! k = flush_slots d !! k ∨
  ∃ seq o, c = Hc_FlushAck seq k ∧ o ≠ Panicked ∧
           flush_slots (dispatch_to_session c d).2 !! k = Some o.
Proof.
  assert (∀ m : cmd D Error bool, stable same_slots m →
    flush_slots (m d).2 !! k = flush_slots d !! k) as Hsame by (intros m Hm; by rewrite (Hm d)).
  destruct c; cbn [dispatch_to_session];
    try (left; apply Hsame; first [apply answer_slots|apply answer_each_slots|apply in_session_slots
      |apply stable_bind; [apply _|apply slice_slots|intros l; apply answer_slots]]; fail).
  unfold flush_ack. run. destruct (session_flush (ds_session d)) as [[v|e|] s]; [| |by left];
    destruct (pending_error d) as [e'|]; cbn;
    (destruct (decide (slot = k)) as [->|]; [right; eexists _, _; split_and!; [done| |by rewrite lookup_insert_eq]; done
      |left; by rewrite lookup_insert_ne]).
Qed.

(** ** Slots are handed out once *)

Definition slots_of (q : list HidCommand) : list nat :=
  omap (λ c, match c with Hc_FlushAck _ k => Some k | _ => None end) q.

(** Every slot in use has been allocated, to somebody else than the callers [mine], and no
    slot holds a panic. *)
Definition taken (mine : nat → Prop) r (k : nat) : Prop := (k < next_slot r)%nat ∧ ¬ mine k.

Definition numbered (mine : nat → Prop) r : Prop :=
  (∀ k, mine k → (k < next_slot r)%nat) ∧
  Forall (taken mine r) (slots_of (channel r)) ∧
  ∀ k o, flush_slots (threads r) !! k = Some o → taken mine r k ∧ o ≠ Panicked.

Lemma slots_app q q' : slots_of (q ++ q') = slots_of q ++ slots_of q'.
Proof. apply omap_app. Qed.

Section Mine.
Context (mine : nat → Prop).

Lemma dispatcher_numbered r : numbered mine r → numbered mine (dispatcher_turn r).
Proof.
  intros (Hm & Hq & Hs). unfold dispatcher_turn. destruct (receiving r); [|done].
  destruct (channel r) as [|c q] eqn:Ec; [by split; [|split; [rewrite Ec|]]|].
  pose proof (dispatch_slots c (threads r)) as Hd.
  assert (Forall (taken mine r) (slots_of q) ∧
          ∀ k o, flush_slots (dispatch_to_session c (threads r)).2 !! k = Some o →
                 taken mine r k ∧ o ≠ Panicked) as [Hq' Hs'].
  { split; [destruct c; try done; by inversion Hq|]. intros k o.
    destruct (Hd k) as [->|(seq & o' & -> & Ho' & ->)]; [apply Hs|intros [= <-]].
    split; [by inversion Hq|done]. }
  destruct (dispatch_to_session c (threads r)) as [[[]|e|] d]; (split; [|split]); try done; constructor.
Qed.

Lemma consumer_numbered r : numbered mine r → numbered mine (consumer_turn r).
Proof.
  intros H. unfold consumer_turn. destruct (fast r) as [f|]; [|done]. destruct (consuming f); [|done]. cbn.
  destruct (pop (gamepad_ring f)) as [[[fr|]|e|] g]; [|by destruct (gamepad_close f)..].
  by destruct (set_frame_raw fr (ds_session (threads r))) as [[[]|e|] s].
Qed.

(** A new slot for another caller. *)
Lemma numbered_next r q :
  numbered mine r → slots_of q = [next_slot r] ∨ slots_of q = [] →
  numbered mine (set_channel (receiving r) (channel r ++ q) (set_next_slot (next_slot r + 1) r)).
Proof.
  intros (Hm & Hq & Hs) Hn.
  assert (∀ k, taken mine r k →
    taken mine (set_channel (receiving r) (channel r ++ q) (set_next_slot (next_slot r + 1) r)) k)
    as Hmore by (intros k [Hk Hk']; split; [cbn; lia|done]).
  split; [|split].
  - intros k Hk. cbn. specialize (Hm k Hk). lia.
  - cbn [channel set_channel]. rewrite slots_app. apply Forall_app. split; [by eapply Forall_impl|].
    destruct Hn as [->| ->]; [|constructor]. apply Forall_singleton. split; [cbn; lia|].
    intros Hk%Hm. lia.
  - intros k o Hk. destruct (Hs k o Hk). split; [by apply Hmore|done].
Qed.

Lemma other_numbered c r : numbered mine r → numbered mine (other_sends c r).
Proof.
  intros Hr. unfold other_sends. destruct (_ && _); [|done].
  destruct c; try (destruct Hr as (Hm & Hq & Hs);
    split; [done|split; [cbn; rewrite slots_app, app_nil_r; exact Hq|exact Hs]]).
  exact (numbered_next r [Hc_FlushAck seq (next_slot r)] Hr (or_introl eq_refl)).
Qed.

Lemma events_numbered es r : numbered mine r → numbered mine (run_events es r).
Proof.
  revert r. induction es as [|e es IH]; intros r Hr; [done|]. cbn [run_events foldl]. apply IH.
  destruct e; [by apply dispatcher_numbered|by apply consumer_numbered|by apply other_numbered].
Qed.

(** Sending a command puts it at the end of the channel, behind what the others sent. *)
Lemma send_channel c r :
  numbered mine r →
  match send c r with
  | (Ok _, r') => receiving r' = true ∧
                  ∃ q, channel r' = q ++ [c] ∧ numbered mine (set_channel true q r')
  | (Err e, r') => e = Failed (DispatcherDown "channel disconnected") ∧ receiving r' = false
  | (Panicked, _) => False
  end.
Proof.
  intros Hr. unfold send, map_err, catch, tx_send, interleave. run.
  set (r1 := match schedule r with [] => r | es :: rest => run_events es (set_schedule rest r) end).
  assert (numbered mine r1) as H1.
  { unfold r1. destruct (schedule r); [done|]. by apply events_numbered. }
  set (r2 := if has_room r1 then r1 else dispatcher_turn r1).
  assert (numbered mine r2) as H2.
  { unfold r2. destruct (has_room r1); [done|by apply dispatcher_numbered]. }
  destruct (receiving r2) eqn:E; cbn; [|done]. split; [done|]. by exists (channel r2).
Qed.
End Mine.

(** ** Waiting for the dispatcher *)

(** The dispatcher after the commands of [q], unless one of them ends or kills it. *)
Fixpoint survive (q : list HidCommand) d : option D :=
  match q with
  | [] => Some d
  | c :: q =>
      match dispatch_to_session c d with
      | (Ok false, d) => survive q d
      | _ => None
      end
  end.

Lemma survive_close q d : Hc_Close ∈ q → survive q d = None.
Proof.
  revert d. induction q as [|c q IH]; intros d; [by intros H%elem_of_nil|].
  rewrite elem_of_cons. cbn [survive]. intros [<-|H].
  - cbn [dispatch_to_session]. unfold in_session, zoom, ignore_err. run.
    by destruct (Session.close (ds_session d)) as [[]].
  - destruct (dispatch_to_session c d) as [[[]|e|] d']; [done|by apply IH|done..].
Qed.

(** What a barrier that is reached in state [d] answers; when the flush unwinds the thread
    dies, and the caller with it. *)
Definition answered d : outcome Stop Z :=
  match (session_flush (ds_session d)).1, pending_error d with
  | Panicked, _ => Err Blocked
  | _, Some e => Err (Failed e)
  | Ok n, None => Ok n
  | Err e, None => Err (Failed e)
  end.

(** Nobody will write to the slot any more. *)
Lemma wait_stopped n slot r :
  receiving r = false → flush_slots (threads r) !! slot = None → wait_turns n slot r = (Err Blocked, r).
Proof.
  intros Hr Hs. induction n as [|n IH]; cbn [wait_turns]; rewrite Hs; [done|].
  unfold dispatcher_turn. by rewrite Hr.
Qed.

Lemma wait_turns_run q seq slot n r :
  receiving r = true → channel r = q ++ [Hc_FlushAck seq slot] → slot ∉ slots_of q →
  flush_slots (threads r) !! slot = None → (length q < n)%nat →
  (wait_turns n slot r).1 =
    match survive q (threads r) with Some d => answered d | None => Err Blocked end.
Proof.
  revert n r. induction q as [|c q IH]; intros n r Hr Hch Hq Hslot Hn;
    (destruct n as [|n]; [cbn in Hn; lia|]); cbn [wait_turns survive app] in *; rewrite Hslot;
    unfold dispatcher_turn; rewrite Hr, Hch.
  - cbn [dispatch_to_session]. unfold flush_ack, answered. run.
    destruct (session_flush (ds_session (threads r))) as [[v|e|] s]; cbn [fst].
    1-2: destruct (pending_error (threads r)) as [e'|]; unfold notify; run;
      (destruct n; cbn [wait_turns threads set_threads flush_slots]; by rewrite lookup_insert_eq).
    by rewrite wait_stopped.
  - assert ((slot ∉ slots_of [c]) ∧ (slot ∉ slots_of q)) as [Hc Hq'].
    { by rewrite <-not_elem_of_app, <-slots_app. }
    assert (flush_slots (dispatch_to_session c (threads r)).2 !! slot = None) as Hslot'.
    { destruct (dispatch_slots c (threads r) slot) as [->|(seq' & o & -> & _)]; [done|].
      destruct Hc. apply list_elem_of_singleton. done. }
    destruct (dispatch_to_session c (threads r)) as [[[]|e|] d]; cbn [snd] in Hslot';
      [by rewrite wait_stopped| |by rewrite wait_stopped..].
    apply IH; [done..|]. cbn in Hn. lia.
Qed.

(** ** The barrier *)

(** The first half of [flush_wait]. *)
Definition queue_barrier : cmd R Stop (Z * nat) :=
  slot ← FlushSlot_new;
  seq ← next_seq;
  send (Hc_FlushAck seq slot);;
  mret (seq, slot).

Lemma flush_wait_split : flush_wait ≅ ('(_, slot) ← queue_barrier; wait slot).
Proof.
  intros r. unfold flush_wait, queue_barrier, FlushSlot_new, next_seq. run.
  match goal with |- context [send ?c ?r] => by destruct (send c r) as [[[]|e|] r'] end.
Qed.

End Barrier.

(** C12: Which answer [flush_wait] gives, and when it gives none.  Whatever the other threads
    do meanwhile: if the dispatcher is gone the call fails; otherwise the barrier stands at
    the end of the channel, and the caller gets the first error since the last barrier or
    else the result of the flush, as of the state in which the dispatcher has run all the
    commands ahead.  If one of those ends or kills the dispatcher - in particular if another
    clone's [close] got in first - the caller is blocked for ever: dropping the channel wakes
    nobody. *)
Theorem flush_wait_outcome {W} `{!MessageSink W} (r : Runtime W)
    (Hr : numbered (λ _, False) r) :
  match queue_barrier r with
  | (Ok (seq, slot), r1) =>
      ∃ q, channel r1 = q ++ [Hc_FlushAck seq slot] ∧
        (flush_wait r).1 =
          match survive q (threads r1) with Some d => answered d | None => Err Blocked end ∧
        (Hc_Close ∈ q → (flush_wait r).1 = Err Blocked)
  | (Err _, r1) =>
      receiving r1 = false ∧
      (flush_wait r).1 = Err (Failed (DispatcherDown "channel disconnected"))
  | (Panicked, _) => False
  end.
Proof.
  rewrite (flush_wait_split r). unfold queue_barrier, FlushSlot_new, next_seq. run.
  set (slot := next_slot r). set (seq := flush_seq (set_next_slot (slot + 1) r)).
  set (r0 := set_flush_seq _ _).
  assert (numbered (λ k, k = slot) r0) as H0.
  { destruct Hr as (_ & Hq & Hs).
    assert (∀ k, taken (λ _, False) r k → taken (λ k, k = slot) r0 k) as Hmore.
    { intros k [Hk _]. split; [unfold r0; cbn; fold slot in Hk; lia|]. fold slot in Hk. lia. }
    split; [intros k ->; unfold r0; cbn; lia|]. split; [by eapply Forall_impl|].
    intros k o Hk. destruct (Hs k o Hk). split; [by apply Hmore|done]. }
  pose proof (send_channel _ (Hc_FlushAck seq slot) r0 H0) as Hsend.
  destruct (send (Hc_FlushAck seq slot) r0) as [[[]|e|] r1]; cbn [fst]; [|by destruct Hsend as [-> Hgone]|done].
  destruct Hsend as (Hrec & q & Hch & Hm & Hq & Hs). exists q. split; [done|].
  assert ((wait slot r1).1 =
    match survive q (threads r1) with Some d => answered d | None => Err Blocked end) as Hw.
  { unfold wait. apply wait_turns_run with seq; [done|done| | |].
    - intros H. rewrite Forall_forall in Hq. by apply (Hq slot H).
    - destruct (flush_slots (threads r1) !! slot) as [o|] eqn:E; [|done].
      by destruct (Hs slot o E) as [[_ []] _].
    - rewrite Hch, length_app. cbn. lia. }
  split; [exact Hw|]. intros Hc. etrans; [exact Hw|]. by rewrite survive_close.
Qed.

(** ** Witnesses *)

(** A session that records its messages, with another client closing it at the chance
    it gets. *)
Definition shared_client (sched : list (list Event)) : Runtime MsgLog :=
  into_client (open (mkLog []) kbd_only).2 sched.

Lemma shared_numbered sched : numbered (λ _, False) (shared_client sched).
Proof. split; [done|]. split; [constructor|]. intros k o. cbn. by rewrite lookup_empty. Qed.

Lemma flush_wait_outcome_witness :
  (flush_wait (shared_client [])).1 = Ok 0 ∧
  (flush_wait (shared_client [[E_other Hc_Close]])).1 = Err Blocked.
Proof.
  split; [by vm_compute|].
  pose proof (flush_wait_outcome (shared_client [[E_other Hc_Close]]) (shared_numbered _)) as H.
  destruct (queue_barrier (shared_client [[E_other Hc_Close]])) as [[[seq slot]|e|] r1] eqn:E.
  - destruct H as (q & Hq & _ & Hc). apply Hc.
    assert (channel r1 = [Hc_Close; Hc_FlushAck 1 0]) as Hr1.
    { change r1 with (Ok (E := Stop) (seq, slot), r1).2. rewrite <-E. by vm_compute. }
    rewrite Hr1 in Hq. change [Hc_Close; Hc_FlushAck 1 0] with ([Hc_Close] ++ [Hc_FlushAck 1 0]) in Hq.
    apply app_inj_tail in Hq as [<- _]. apply list_elem_of_singleton. done.
  - exfalso. revert E. by vm_compute.
  - done.
Defined.
