(* ===== verification/ClientGestures.v ===== *)
(** * The client's gestures ([src/src/client.rs])

    Taps, swipes and long presses of [HidClient]: each fills a touch batcher, flushes it and
    waits for the dispatcher to acknowledge.  Unlike the gestures of [HidSession] they never
    see the session; what they promise is which frames they queue, and in which order. *)

From stdpp Require Import gmap.
From S2P Require Import Prelude Words Errors Types Utf8 Float32 Message Transport Descriptor.
From S2P Require Import Coalesce Sink Session Touch Commands Dispatcher GamepadRing Runtime Client.
From S2P Require Import FrameBatchers Barrier Refinement SessionInv Lifecycle Gestures.
Local Open Scope Z_scope.

Section ClientGestures.
Context {W : Type} `{!MessageSink W}.
Abbreviation R := (Runtime W).
Abbreviation TB := (cmd (R * Batcher TouchFrame) Stop unit).
Implicit Types r : R.

(** [self.flush_wait().map(|_| ())] *)
Definition flush_waited : cmd R Stop unit := _ ← flush_wait; mret tt.

Definition tap_pointer (pointer_id x y : Z) : cmd R Stop unit :=
  with_batcher (
    Touch_down_pointer pointer_id x y one;;
    Touch_up_pointer pointer_id x y;;
    Batcher_flush);;
  flush_waited.

(** [TouchPointerId::finger(0)] is 0. *)
Definition tap (x y : Z) : cmd R Stop unit := tap_pointer 0 x y.

Definition double_tap_pointer (pointer_id x y : Z) : cmd R Stop unit :=
  with_batcher (
    Touch_down_pointer pointer_id x y one;;
    Touch_up_pointer pointer_id x y;;
    Touch_down_pointer pointer_id x y one;;
    Touch_up_pointer pointer_id x y;;
    Batcher_flush);;
  flush_waited.
Definition double_tap (x y : Z) : cmd R Stop unit := double_tap_pointer 0 x y.

(** The sample [i] of [steps]. *)
Definition swipe_point (from to : Z * Z) (i steps : Z) : Z * Z :=
  let t := fdiv (f32_of_Z i) (f32_of_Z steps) in
  (lerp_i32 from.1 to.1 t, lerp_i32 from.2 to.2 t).

Definition swipe_pointer (pointer_id : Z) (from to : Z * Z) (steps : Z) : cmd R Stop unit :=
  let steps := Z.max steps 1 in
  with_batcher (
    Touch_down_pointer pointer_id from.1 from.2 one;;
    for_each (seqZ 1 steps) (λ i,
      let '(x, y) := swipe_point from to i steps in
      Touch_move_pointer_to pointer_id x y one);;
    Touch_up_pointer pointer_id to.1 to.2;;
    Batcher_flush);;
  flush_waited.
Definition swipe (from to : Z * Z) (steps : Z) : cmd R Stop unit := swipe_pointer 0 from to steps.

(** The sleep between the two halves is left to the schedule. *)
Definition long_press_pointer (pointer_id x y : Z) : cmd R Stop unit :=
  with_batcher (Touch_down_pointer pointer_id x y one;; Batcher_flush);;
  _ ← flush_wait;
  with_batcher (Touch_up_pointer pointer_id x y;; Batcher_flush);;
  flush_waited.
Definition long_press (x y : Z) : cmd R Stop unit := long_press_pointer 0 x y.

(** No product leaves [i32]: the sizes are [u16]. *)
Definition three_finger_screenshot (w h : Z) : cmd R Stop unit :=
  with_batcher (
    for_each [0; 1; 2] (λ id, Touch_down id (Z.quot w 4 * (id + 1)) (Z.quot h 4) one);;
    for_each (seqZ 1 10) (λ step,
      for_each [0; 1; 2] (λ id,
        Touch_move_to id (Z.quot w 4 * (id + 1)) (Z.quot h 4 + Z.quot (Z.quot h 2 * step) 10) one));;
    for_each [0; 1; 2] (λ id, Touch_up id (Z.quot w 4 * (id + 1)) (Z.quot (h * 3) 4));;
    Batcher_flush);;
  flush_waited.

Definition scroll_with_buttons (x y : Z) (hscroll vscroll : f32) (buttons : Z) : cmd R Stop unit :=
  send (Hc_InjectScroll x y hscroll vscroll buttons);;
  flush_waited.
Definition scroll (x y : Z) (hscroll vscroll : f32) : cmd R Stop unit :=
  scroll_with_buttons x y hscroll vscroll 0.

Definition cancel_touch (pointer_id : Z) : cmd R Stop unit :=
  send (Hc_MultitouchCancel pointer_id);;
  flush_waited.
Definition cancel_touch_pointer (pointer_id : Z) : cmd R Stop unit := cancel_touch pointer_id.

(** ** The frames of a gesture *)

Inductive ClientGesture : Set :=
  | Cg_tap (pointer_id x y : Z)
  | Cg_double_tap (pointer_id x y : Z)
  | Cg_swipe (pointer_id : Z) (from to : Z * Z) (steps : Z)
  | Cg_long_press (pointer_id x y : Z)
  | Cg_screenshot (w h : Z).

Definition perform (g : ClientGesture) : cmd R Stop unit :=
  match g with
  | Cg_tap p x y => tap_pointer p x y
  | Cg_double_tap p x y => double_tap_pointer p x y
  | Cg_swipe p from to steps => swipe_pointer p from to steps
  | Cg_long_press p x y => long_press_pointer p x y
  | Cg_screenshot w h => three_finger_screenshot w h
  end.

Definition down_at (p x y : Z) : TouchFrame := mkTouchFrame ACTION_DOWN p x y one.
Definition move_at (p x y : Z) : TouchFrame := mkTouchFrame ACTION_MOVE p x y one.
Definition up_at (p x y : Z) : TouchFrame := mkTouchFrame ACTION_UP p x y zero.

Definition screenshot_moves (w h step : Z) : list TouchFrame :=
  (λ id, move_at id (Z.quot w 4 * (id + 1)) (Z.quot h 4 + Z.quot (Z.quot h 2 * step) 10))
    <$> [0; 1; 2].

Definition gesture_frames (g : ClientGesture) : list TouchFrame :=
  match g with
  | Cg_tap p x y | Cg_long_press p x y => [down_at p x y; up_at p x y]
  | Cg_double_tap p x y => [down_at p x y; up_at p x y; down_at p x y; up_at p x y]
  | Cg_swipe p from to steps =>
      down_at p from.1 from.2 ::
      ((λ i, move_at p (swipe_point from to i (Z.max steps 1)).1
                       (swipe_point from to i (Z.max steps 1)).2) <$> seqZ 1 (Z.max steps 1)) ++
      [up_at p to.1 to.2]
  | Cg_screenshot w h =>
      ((λ id, down_at id (Z.quot w 4 * (id + 1)) (Z.quot h 4)) <$> [0; 1; 2]) ++
      (seqZ 1 10 ≫= screenshot_moves w h) ++
      ((λ id, up_at id (Z.quot w 4 * (id + 1)) (Z.quot (h * 3) 4)) <$> [0; 1; 2])
  end.

(** ** Commands that queue touch frames *)

Definition frames_queued r : list TouchFrame := queued r ≫= touch_frames.

(** The command queues a prefix of [fs], and all of [fs] when it returns [Ok]. *)
Definition queues {A} (fs : list TouchFrame) (c : cmd R Stop A) : Prop := ∀ r,
  ∃ taken, frames_queued (c r).2 = frames_queued r ++ taken ∧ taken `prefix_of` fs ∧
           ((∃ a, (c r).1 = Ok a) → taken = fs).

Lemma queues_bind {A B} fs fs' (c : cmd R Stop A) (k : A → cmd R Stop B) :
  queues fs c → (∀ a, queues fs' (k a)) → queues (fs ++ fs') (c ≫= k).
Proof.
  intros Hc Hk r. destruct (Hc r) as (taken & Hq & Hp & Hall). unfold mbind, cmd_bind.
  destruct (c r) as [[a|e|] r1]; cbn [fst snd] in *.
  - rewrite Hall in Hq by eauto. destruct (Hk a r1) as (taken' & Hq' & Hp' & Hall').
    exists (fs ++ taken'). rewrite Hq', Hq, app_assoc. split_and!; [done|by apply prefix_app|].
    intros H. by rewrite (Hall' H).
  - exists taken. split_and!; [done|by apply prefix_app_r|by intros []].
  - exists taken. split_and!; [done|by apply prefix_app_r|by intros []].
Qed.

Lemma queues_block fs (body : TB) :
  (∀ h, block h fs body) → queues fs (with_batcher body).
Proof.
  intros Hb r. destruct (with_batcher_hands fs body r (Hb _)) as (taken & (_ & Hp & Hall) & Hq).
  exists taken. split_and!; [exact Hq|done|]. intros [[] H]. by apply Hall.
Qed.

Lemma wait_queued slot r : queued (wait slot r).2 = queued r.
Proof.
  unfold wait. generalize (length (channel r)) as n. intros n. revert r.
  induction n as [|n IH]; intros r; cbn [wait_turns]; (destruct (_ !! slot) as [[v|e|]|]; [done..|]); [done|].
  by rewrite IH, dispatcher_queued.
Qed.

Lemma flush_wait_queues : queues [] flush_wait.
Proof.
  intros r. exists []. rewrite app_nil_r. split_and!; [|done|done].
  unfold flush_wait, FlushSlot_new, next_seq, frames_queued. run.
  match goal with |- context [send ?c ?r'] => pose proof (send_sends c r') as Hs; destruct (send c r') as [[[]|e|] r1] end;
    cbn [fst snd]; [|by rewrite Hs|done].
  rewrite wait_queued, Hs, bind_app. cbn. by rewrite app_nil_r.
Qed.

Lemma flush_waited_queues : queues [] flush_waited.
Proof.
  apply (queues_bind [] []); [apply flush_wait_queues|]. intros _ r. exists []. by rewrite app_nil_r.
Qed.

Lemma queues_waited fs (body : TB) :
  (∀ h, block h fs body) → queues fs (with_batcher body;; flush_waited).
Proof.
  intros Hb. rewrite <-(app_nil_r fs). apply queues_bind; [by apply queues_block|].
  intros _. apply flush_waited_queues.
Qed.

(** ** What the gestures queue *)

Lemma push_block h (f : TouchFrame) : gives (batching h) stream [f] (Batcher_push (C := R) f).
Proof. apply push_gives, flush_empties. Qed.

Lemma moves_block h (f : Z → TouchFrame) xs :
  gives (batching h) stream (f <$> xs) (for_each xs (λ i, Batcher_push (C := R) (f i))).
Proof.
  induction xs as [|x xs IH]; [apply gives_ret|]. apply (gives_bind _ _ [f x]); [apply push_block|done].
Qed.

Lemma perform_queues g : queues (gesture_frames g) (perform g).
Proof.
  destruct g as [p x y|p x y|p from to steps|p x y|w h]; cbn [perform gesture_frames].
  - apply queues_waited. intros h. do 2 (apply (block_bind h [_]); [apply push_block|]). apply block_flush.
  - apply queues_waited. intros h. do 4 (apply (block_bind h [_]); [apply push_block|]). apply block_flush.
  - apply queues_waited. intros h. apply (block_bind h [_]); [apply push_block|].
    apply block_bind; [|apply (block_bind h [_]); [apply push_block|apply block_flush]].
    apply (moves_block h (λ i, move_at p (swipe_point from to i (Z.max steps 1)).1
      (swipe_point from to i (Z.max steps 1)).2)).
  - apply (queues_bind [_]).
    { apply queues_block. intros h. apply (block_bind h [_]); [apply push_block|apply block_flush]. }
    intros _. apply (queues_bind []); [apply flush_wait_queues|intros _].
    apply (queues_waited [_]). intros h. apply (block_bind h [_]); [apply push_block|apply block_flush].
  - apply queues_waited. intros h0. apply block_bind.
    { apply (moves_block h0 (λ id, down_at id (Z.quot w 4 * (id + 1)) (Z.quot h 4))). }
    apply block_bind.
    { apply gives_each. intros step.
      apply (moves_block h0 (λ id, move_at id (Z.quot w 4 * (id + 1)) (Z.quot h 4 + Z.quot (Z.quot h 2 * step) 10))). }
    rewrite <-(app_nil_r (_ <$> _)). apply block_bind; [|apply block_flush].
    apply (moves_block h0 (λ id, up_at id (Z.quot w 4 * (id + 1)) (Z.quot (h * 3) 4))).
Qed.
End ClientGestures.

(** ** What they do to the screen *)

(** The message the session makes of a frame. *)
Definition finger_msg (s : HidSession MsgLog) (f : TouchFrame) : ControlMessage :=
  touch_msg (tf_action f) (tf_pointer_id f) (tf_x f) (tf_y f) (tf_pressure f) s.

Section Screen.
Context (s : HidSession MsgLog).
Abbreviation fingers f fs := (screen f (finger_msg s <$> fs)).

Lemma fingers_app f f' fs fs' :
  fingers f fs = Some f' → fingers f (fs ++ fs') = fingers f' fs'.
Proof. intros H. by rewrite fmap_app, screen_app, H. Qed.

Lemma fingers_down f p x y fs : p ∉ f → fingers f (down_at p x y :: fs) = fingers ({[p]} ∪ f) fs.
Proof.
  intros H.
  rewrite fmap_cons, screen_cons.
  change (finger_msg s (down_at p x y)) with (touch_msg ACTION_DOWN p x y one s). by rewrite screen_down.
Qed.

Lemma fingers_up f p x y fs : p ∈ f → fingers f (up_at p x y :: fs) = fingers (f ∖ {[p]}) fs.
Proof.
  intros H.
  rewrite fmap_cons, screen_cons.
  change (finger_msg s (up_at p x y)) with (touch_msg ACTION_UP p x y zero s). by rewrite screen_up.
Qed.

Lemma fingers_moves f fs :
  Forall (λ m, ∃ p x y, m = move_at p x y ∧ p ∈ f) fs → fingers f fs = Some f.
Proof.
  intros H. apply screen_moves. apply Forall_fmap. eapply Forall_impl; [exact H|].
  intros m (p & x & y & -> & Hp). by exists p, x, y, one, s.
Qed.

Lemma gesture_balanced g : fingers ∅ (gesture_frames g) = Some ∅.
Proof.
  assert (∀ p, ({[p]} ∪ ∅) ∖ {[p]} = (∅ : gset Z)) as H1 by set_solver.
  destruct g as [p x y|p x y|p from to steps|p x y|w h]; cbn [gesture_frames].
  - rewrite fingers_down, fingers_up by set_solver. by rewrite H1.
  - do 2 rewrite fingers_down, fingers_up, H1 by set_solver. done.
  - rewrite fingers_down by set_solver. rewrite (fingers_app _ ({[p]} ∪ ∅)).
    + rewrite fingers_up by set_solver. by rewrite H1.
    + apply fingers_moves, Forall_fmap, Forall_forall. intros i _. eexists _, _, _.
      split; [done|set_solver].
  - rewrite fingers_down, fingers_up by set_solver. by rewrite H1.
  - match goal with |- fingers ?f ?l = _ =>
      let l' := eval cbn [fmap list_fmap app] in l in change (fingers f l' = Some ∅) end.
    do 3 (rewrite fingers_down by set_solver).
    rewrite (fingers_app _ ({[2]} ∪ ({[1]} ∪ ({[0]} ∪ ∅))));
      [do 3 (rewrite fingers_up by set_solver); cbn; f_equal; set_solver|].
    apply fingers_moves, Forall_forall. intros m (step & Hm & _)%list_elem_of_bind.
    unfold screenshot_moves in Hm. cbn [fmap list_fmap] in Hm. rewrite !elem_of_cons in Hm.
    destruct Hm as [->|[->|[->|[]%elem_of_nil]]]; (eexists _, _, _; split; [done|set_solver]).
Qed.
End Screen.

(** The frames a gesture of the client queues.  Whatever the other threads do, a gesture
    queues a prefix of its frames, in order, and nothing else; all of them when it returns
    [Ok], however many batches they fill.  Run from an empty screen, those frames are
    consistent, and they leave no finger on it. *)
Theorem client_gestures_queue {W} `{!MessageSink W} (g : ClientGesture) (r : Runtime W) :
  (∃ taken,
     frames_queued (perform g r).2 = frames_queued r ++ taken ∧
     taken `prefix_of` gesture_frames g ∧
     ((perform g r).1 = Ok tt → taken = gesture_frames g)) ∧
  ∀ s, screen ∅ (finger_msg s <$> gesture_frames g) = Some ∅.
Proof.
  split; [|intros s; apply gesture_balanced].
  destruct (perform_queues g r) as (taken & Hq & Hp & Hall). exists taken.
  split_and!; [done|done|]. intros H. apply Hall. by exists tt.
Qed.
