(* ===== verification/GamepadBatchers.v ===== *)
(** * The gamepad batchers ([src/src/client.rs])

    [GamepadFrameBatcher] and [PackedGamepadFrameBatcher] collect frames in a fixed array
    when the batch size allows it and in a vector otherwise.  They differ in the frame and in
    the client's methods they send with; the code over those is written once, and each
    batcher is an instance of [GamepadBatchSink].  The packed batcher has no [dedupe] flag.
    The methods of every batcher, type by type, follow. *)

From stdpp Require Import gmap.
From S2P Require Import Prelude Words Errors Types Utf8 Float32 Message Transport Descriptor.
From S2P Require Import Coalesce Sink Session Commands Dispatcher GamepadRing Runtime Client.
From S2P Require Import FrameBatchers.
Local Open Scope Z_scope.

(** The three ways a batcher sends: one frame, a fixed array, an owned vector. *)
Record Senders (C F : Type) : Type := mkSenders
  { send_one : bool → F → cmd C Stop unit;
    send_fixed : bool → nat → list F → cmd C Stop unit;
    send_owned : bool → list F → cmd C (Stop * list F) unit }.
Arguments mkSenders {C F}.
Arguments send_one {C F}.
Arguments send_fixed {C F}.
Arguments send_owned {C F}.

Class GamepadBatchSink (C F : Type) := {
  gb_empty : F;
  gb_full : string;
  gb_blocking : Senders C F;
  gb_trying : Senders C F;
}.

Record GamepadBatcher (F : Type) : Type := mkGamepadBatcher
  { fixed_frames : list F; fixed_len : nat; frames : list F; dedupe : bool;
    batch_limit : nat; use_fixed : bool }.
Arguments mkGamepadBatcher {F}.
Arguments fixed_frames {F}.
Arguments fixed_len {F}.
Arguments frames {F}.
Arguments dedupe {F}.
Arguments batch_limit {F}.
Arguments use_fixed {F}.

Section GamepadBatcher.
Context {C F : Type} `{!GamepadBatchSink C F}.
Abbreviation B := (GamepadBatcher F).
Implicit Types b : B.
Implicit Types p : C * B.

Definition empty_array : list F := replicate DIRECT_GAMEPAD_BATCH_FRAMES gb_empty.

Definition gamepad_batcher (dedupe : bool) (batch_size : nat) : B :=
  let batch_size := Nat.max batch_size 1 in
  mkGamepadBatcher empty_array 0 [] dedupe batch_size
    (bool_decide (batch_size ≤ DIRECT_GAMEPAD_BATCH_FRAMES)%nat).

Definition set_fixed (fs : list F) (n : nat) b : B :=
  mkGamepadBatcher fs n (frames b) (dedupe b) (batch_limit b) (use_fixed b).
Definition set_frames (fs : list F) b : B :=
  mkGamepadBatcher (fixed_frames b) (fixed_len b) fs (dedupe b) (batch_limit b) (use_fixed b).

Definition Gamepad_len b : nat := if use_fixed b then fixed_len b else length (frames b).
Definition Gamepad_is_empty b : bool :=
  if use_fixed b then bool_decide (fixed_len b = 0%nat) else bool_decide (frames b = []).

(** A send of the client, and what the batcher does with its outcome. *)
Definition sending {E} (c : cmd C E unit) (after : outcome E unit → B → outcome Stop unit * B) :
    cmd (C * B) Stop unit := λ p,
  let '(o, c') := c p.1 in
  let '(o, b) := after o p.2 in
  (o, (c', b)).

(** [if result.is_ok() { .. } return result;] *)
Definition on_ok (f : B → B) (o : outcome Stop unit) b : outcome Stop unit * B :=
  (o, match o with Ok _ => f b | _ => b end).

(** The array is swapped out for the call and back when it failed. *)
Definition flush_fixed (s : Senders C F) : cmd (C * B) Stop unit := λ p,
  let b := p.2 in
  if decide (fixed_len b = 0)%nat then (Ok tt, p)
  else if decide (fixed_len b = 1)%nat then
    match fixed_frames b !! 0%nat with
    | None => (Panicked, p)
    | Some frame =>
        sending (send_one s (dedupe b) frame) (on_ok (set_fixed (fixed_frames b) 0)) p
    end
  else
    sending (send_fixed s (dedupe b) (fixed_len b) (fixed_frames b)) (λ o b,
      (o, match o with
          | Ok _ => set_fixed empty_array 0 b
          | Err _ => b
          | Panicked => set_fixed empty_array (fixed_len b) b
          end)) p.

(** The vector is taken for the call; a failed send gives it back. *)
Definition flush_owned (s : Senders C F) : cmd (C * B) Stop unit := λ p,
  let b := p.2 in
  match frames b with
  | [] => (Ok tt, p)
  | [frame] => sending (send_one s (dedupe b) frame) (on_ok (set_frames [])) p
  | fs =>
      sending (send_owned s (dedupe b) fs) (λ o b,
        match o with
        | Ok _ => (Ok tt, set_frames [] b)
        | Err (err, fs) => (Err err, set_frames fs b)
        | Panicked => (Panicked, set_frames [] b)
        end) p
  end.

Definition gamepad_flush_with (s : Senders C F) : cmd (C * B) Stop unit := λ p,
  if use_fixed p.2 then flush_fixed s p else flush_owned s p.
Definition Gamepad_flush : cmd (C * B) Stop unit := gamepad_flush_with gb_blocking.
Definition Gamepad_try_flush : cmd (C * B) Stop unit := gamepad_flush_with gb_trying.

Definition reading {A} (f : B → A) : cmd (C * B) Stop A := read (λ p, f p.2).
Definition updating (f : B → B) : cmd (C * B) Stop unit := modify (λ p, (p.1, f p.2)).

(** [if self.fixed_len >= self.batch_size { flush()?; if it is still full, fail }] *)
Definition ensure_room (flush : cmd (C * B) Stop unit) : cmd (C * B) Stop unit :=
  full ← reading (λ b, Nat.leb (batch_limit b) (fixed_len b));
  if (full : bool) then
    flush;;
    still ← reading (λ b, Nat.leb (batch_limit b) (fixed_len b));
    if (still : bool) then raise (Failed (SessionLifecycle gb_full)) else mret tt
  else mret tt.

(** [if self.len() >= self.batch_size { flush()?; }] *)
Definition flush_if_full (flush : cmd (C * B) Stop unit) : cmd (C * B) Stop unit :=
  full ← reading (λ b, Nat.leb (batch_limit b) (Gamepad_len b));
  if (full : bool) then flush else mret tt.

Definition store_fixed (frame : F) : cmd (C * B) Stop unit := λ '(c, b),
  if decide (fixed_len b < length (fixed_frames b))%nat
  then (Ok tt, (c, set_fixed (<[fixed_len b := frame]> (fixed_frames b)) (fixed_len b + 1) b))
  else (Panicked, (c, b)).

Definition gamepad_push_with (flush : cmd (C * B) Stop unit) (frame : F) : cmd (C * B) Stop unit :=
  fixed ← reading use_fixed;
  if (fixed : bool) then
    ensure_room flush;;
    store_fixed frame;;
    flush_if_full flush
  else
    updating (λ b, set_frames (frames b ++ [frame]) b);;
    flush_if_full flush.
Definition Gamepad_push : F → cmd (C * B) Stop unit := gamepad_push_with Gamepad_flush.
Definition Gamepad_try_push : F → cmd (C * B) Stop unit := gamepad_push_with Gamepad_try_flush.

Definition Gamepad_push_many (fs : list F) : cmd (C * B) Stop unit := for_each fs Gamepad_push.
Definition Gamepad_try_push_many (fs : list F) : cmd (C * B) Stop unit :=
  for_each fs Gamepad_try_push.

(** [copy_from_slice] into the array behind the frames there. *)
Definition copy_fixed (fs : list F) : cmd (C * B) Stop unit := λ '(c, b),
  if decide (fixed_len b + length fs ≤ length (fixed_frames b))%nat
  then (Ok tt, (c, set_fixed (take (fixed_len b) (fixed_frames b) ++ fs ++
                                drop (fixed_len b + length fs) (fixed_frames b))
                     (fixed_len b + length fs) b))
  else (Panicked, (c, b)).

(** The [while] loops over the frames left; every turn takes at least one of them.  After a
    flush there is room, so the subtractions do not wrap. *)
Fixpoint fixed_loop (fuel : nat) (flush : cmd (C * B) Stop unit) (fs : list F) :
    cmd (C * B) Stop unit :=
  match fuel with
  | O => unwind
  | Datatypes.S fuel =>
      match fs with
      | [] => mret tt
      | _ =>
          ensure_room flush;;
          room ← reading (λ b, (batch_limit b - fixed_len b)%nat);
          let n := Nat.min (length fs) room in
          copy_fixed (take n fs);;
          flush_if_full flush;;
          fixed_loop fuel flush (drop n fs)
      end
  end.

Fixpoint owned_loop (fuel : nat) (flush : cmd (C * B) Stop unit) (fs : list F) :
    cmd (C * B) Stop unit :=
  match fuel with
  | O => unwind
  | Datatypes.S fuel =>
      match fs with
      | [] => mret tt
      | _ =>
          flush_if_full flush;;
          room ← reading (λ b, (batch_limit b - length (frames b))%nat);
          let n := Nat.min (length fs) room in
          updating (λ b, set_frames (frames b ++ take n fs) b);;
          flush_if_full flush;;
          owned_loop fuel flush (drop n fs)
      end
  end.

Definition gamepad_slice_with (flush : cmd (C * B) Stop unit) (fs : list F) : cmd (C * B) Stop unit :=
  fixed ← reading use_fixed;
  if (fixed : bool) then fixed_loop (Datatypes.S (length fs)) flush fs
  else owned_loop (Datatypes.S (length fs)) flush fs.
Definition Gamepad_push_many_slice : list F → cmd (C * B) Stop unit :=
  gamepad_slice_with Gamepad_flush.
Definition Gamepad_try_push_many_slice : list F → cmd (C * B) Stop unit :=
  gamepad_slice_with Gamepad_try_flush.

Definition drop_gamepad_batcher : cmd (C * B) Stop unit := ignore_err Gamepad_try_flush.
End GamepadBatcher.

(** ** The two batchers *)

Section GamepadBatchers.
Context {W : Type} `{!MessageSink W}.
Abbreviation R := (Runtime W).

#[export] Instance GamepadFrameBatcher : GamepadBatchSink R GamepadFrameRaw := {
  gb_empty := GamepadFrame_EMPTY;
  gb_full := "frame batcher fixed buffer full (flush did not make space)";
  gb_blocking := mkSenders
    (λ dedupe frame, if dedupe then send_frame frame else send_frame_unchecked frame)
    (λ dedupe len frames, send_frame_batch_fixed_internal len frames dedupe)
    (λ dedupe frames, send_frame_batch_owned frames dedupe);
  gb_trying := mkSenders
    (λ dedupe frame, if dedupe then try_send_frame frame else try_send_frame_unchecked frame)
    (λ dedupe len frames,
       if dedupe then try_send_frame_batch_fixed len frames
       else try_send_frame_batch_fixed_unchecked len frames)
    (λ dedupe frames, try_send_frame_batch_owned frames dedupe) }.

#[export] Instance PackedGamepadFrameBatcher : GamepadBatchSink R bytes := {
  gb_empty := replicate 15 0;
  gb_full := "packed frame batcher fixed buffer full (flush did not make space)";
  gb_blocking := mkSenders (λ _, send_frame_packed) (λ _, send_frame_packed_batch_fixed)
    (λ _, send_packed_frame_batch_owned);
  gb_trying := mkSenders (λ _, try_send_frame_packed) (λ _, try_send_frame_packed_batch_fixed)
    (λ _, try_send_packed_frame_batch_owned) }.
End GamepadBatchers.

(** ** The methods of the batchers, type by type

    Those of keys, Android keys, mouse, scroll and packed gamepad frames, and the methods of
    [HidClient] that make a batcher. *)

Section Methods.
Context {W : Type} `{!MessageSink W}.
Abbreviation R := (Runtime W).

(** *** Batches of keys *)

Abbreviation KeyboardMethod := (cmd (R * Batcher KeyboardFrame) Stop unit).

Definition KeyboardFrameBatcher_new : Batcher KeyboardFrame := Batcher_new (C := R).
Definition KeyboardFrameBatcher_len : Batcher KeyboardFrame → nat := Batcher_len.
Definition KeyboardFrameBatcher_is_empty : Batcher KeyboardFrame → bool := Batcher_is_empty.
Definition KeyboardFrameBatcher_push : KeyboardFrame → KeyboardMethod := Batcher_push.
Definition KeyboardFrameBatcher_try_push : KeyboardFrame → KeyboardMethod := Batcher_try_push.
Definition KeyboardFrameBatcher_push_many : list KeyboardFrame → KeyboardMethod := Batcher_push_many.
Definition KeyboardFrameBatcher_push_many_slice : list KeyboardFrame → KeyboardMethod := Batcher_push_many_slice.
Definition KeyboardFrameBatcher_try_push_many : list KeyboardFrame → KeyboardMethod := Batcher_try_push_many.
Definition KeyboardFrameBatcher_try_push_many_slice : list KeyboardFrame → KeyboardMethod := Batcher_try_push_many_slice.
Definition KeyboardFrameBatcher_flush : KeyboardMethod := Batcher_flush.
Definition KeyboardFrameBatcher_try_flush : KeyboardMethod := Batcher_try_flush.
Definition KeyboardFrameBatcher_drop : KeyboardMethod := drop_batcher.

(** *** Batches of Android keys *)

Abbreviation AndroidKeyMethod := (cmd (R * Batcher AndroidKeyFrame) Stop unit).

Definition AndroidKeyFrameBatcher_new : Batcher AndroidKeyFrame := Batcher_new (C := R).
Definition AndroidKeyFrameBatcher_len : Batcher AndroidKeyFrame → nat := Batcher_len.
Definition AndroidKeyFrameBatcher_is_empty : Batcher AndroidKeyFrame → bool := Batcher_is_empty.
Definition AndroidKeyFrameBatcher_push : AndroidKeyFrame → AndroidKeyMethod := Batcher_push.
Definition AndroidKeyFrameBatcher_try_push : AndroidKeyFrame → AndroidKeyMethod := Batcher_try_push.
Definition AndroidKeyFrameBatcher_push_many : list AndroidKeyFrame → AndroidKeyMethod := Batcher_push_many.
Definition AndroidKeyFrameBatcher_push_many_slice : list AndroidKeyFrame → AndroidKeyMethod := Batcher_push_many_slice.
Definition AndroidKeyFrameBatcher_try_push_many : list AndroidKeyFrame → AndroidKeyMethod := Batcher_try_push_many.
Definition AndroidKeyFrameBatcher_try_push_many_slice : list AndroidKeyFrame → AndroidKeyMethod := Batcher_try_push_many_slice.
Definition AndroidKeyFrameBatcher_flush : AndroidKeyMethod := Batcher_flush.
Definition AndroidKeyFrameBatcher_try_flush : AndroidKeyMethod := Batcher_try_flush.
Definition AndroidKeyFrameBatcher_drop : AndroidKeyMethod := drop_batcher.

(** *** Batches of the mouse *)

Abbreviation MouseMethod := (cmd (R * Batcher MouseFrame) Stop unit).

Definition MouseFrameBatcher_new : Batcher MouseFrame := Batcher_new (C := R).
Definition MouseFrameBatcher_len : Batcher MouseFrame → nat := Batcher_len.
Definition MouseFrameBatcher_is_empty : Batcher MouseFrame → bool := Batcher_is_empty.
Definition MouseFrameBatcher_push : MouseFrame → MouseMethod := Batcher_push.
Definition MouseFrameBatcher_try_push : MouseFrame → MouseMethod := Batcher_try_push.
Definition MouseFrameBatcher_push_many : list MouseFrame → MouseMethod := Batcher_push_many.
Definition MouseFrameBatcher_push_many_slice : list MouseFrame → MouseMethod := Batcher_push_many_slice.
Definition MouseFrameBatcher_try_push_many : list MouseFrame → MouseMethod := Batcher_try_push_many.
Definition MouseFrameBatcher_try_push_many_slice : list MouseFrame → MouseMethod := Batcher_try_push_many_slice.
Definition MouseFrameBatcher_flush : MouseMethod := Batcher_flush.
Definition MouseFrameBatcher_try_flush : MouseMethod := Batcher_try_flush.
Definition MouseFrameBatcher_drop : MouseMethod := drop_batcher.

(** *** Batches of scrolling *)

Abbreviation ScrollMethod := (cmd (R * Batcher ScrollFrame) Stop unit).

Definition ScrollFrameBatcher_new : Batcher ScrollFrame := Batcher_new (C := R).
Definition ScrollFrameBatcher_len : Batcher ScrollFrame → nat := Batcher_len.
Definition ScrollFrameBatcher_is_empty : Batcher ScrollFrame → bool := Batcher_is_empty.
Definition ScrollFrameBatcher_push : ScrollFrame → ScrollMethod := Batcher_push.
Definition ScrollFrameBatcher_try_push : ScrollFrame → ScrollMethod := Batcher_try_push.
Definition ScrollFrameBatcher_push_many : list ScrollFrame → ScrollMethod := Batcher_push_many.
Definition ScrollFrameBatcher_push_many_slice : list ScrollFrame → ScrollMethod := Batcher_push_many_slice.
Definition ScrollFrameBatcher_try_push_many : list ScrollFrame → ScrollMethod := Batcher_try_push_many.
Definition ScrollFrameBatcher_try_push_many_slice : list ScrollFrame → ScrollMethod := Batcher_try_push_many_slice.
Definition ScrollFrameBatcher_flush : ScrollMethod := Batcher_flush.
Definition ScrollFrameBatcher_try_flush : ScrollMethod := Batcher_try_flush.
Definition ScrollFrameBatcher_drop : ScrollMethod := drop_batcher.

(** *** Batches of packed gamepad frames *)

Abbreviation PackedMethod := (cmd (R * GamepadBatcher bytes) Stop unit).

Definition PackedGamepadFrameBatcher_new : nat → GamepadBatcher bytes := gamepad_batcher (C := R) false.
Definition PackedGamepadFrameBatcher_len : GamepadBatcher bytes → nat := Gamepad_len.
Definition PackedGamepadFrameBatcher_is_empty : GamepadBatcher bytes → bool := Gamepad_is_empty.
Definition PackedGamepadFrameBatcher_push : bytes → PackedMethod := Gamepad_push.
Definition PackedGamepadFrameBatcher_try_push : bytes → PackedMethod := Gamepad_try_push.
Definition PackedGamepadFrameBatcher_push_many : list bytes → PackedMethod := Gamepad_push_many.
Definition PackedGamepadFrameBatcher_push_many_slice : list bytes → PackedMethod := Gamepad_push_many_slice.
Definition PackedGamepadFrameBatcher_try_push_many : list bytes → PackedMethod := Gamepad_try_push_many.
Definition PackedGamepadFrameBatcher_try_push_many_slice : list bytes → PackedMethod := Gamepad_try_push_many_slice.
Definition PackedGamepadFrameBatcher_flush : PackedMethod := Gamepad_flush.
Definition PackedGamepadFrameBatcher_try_flush : PackedMethod := Gamepad_try_flush.
Definition PackedGamepadFrameBatcher_drop : PackedMethod := drop_gamepad_batcher.

(** *** What the client makes *)

Definition mouse_frame_batcher : Batcher MouseFrame := MouseFrameBatcher_new.
Definition keyboard_frame_batcher : Batcher KeyboardFrame := KeyboardFrameBatcher_new.
Definition android_key_frame_batcher : Batcher AndroidKeyFrame := AndroidKeyFrameBatcher_new.
Definition scroll_frame_batcher : Batcher ScrollFrame := ScrollFrameBatcher_new.
Definition touch_frame_batcher : Batcher TouchFrame := Batcher_new (C := R).
End Methods.

(** ** What the gamepad batchers promise *)

(** The client's side: each kind of send hands its frames over, or fails and changes
    nothing. *)
Class LawfulGamepadSink (C F : Type) `{!GamepadBatchSink C F} := {
  gb_usable : C → Prop;
  gb_handed : C → list F;
  hands_over : ∀ {E}, list F → (E → Prop) → C → outcome E unit * C → Prop :=
    λ E fs refused c r,
      match r with
      | (Ok _, c') => gb_usable c' ∧ gb_handed c' = gb_handed c ++ fs
      | (Err e, c') => gb_usable c' ∧ gb_handed c' = gb_handed c ∧ refused e
      | (Panicked, _) => False
      end;
  honest : Senders C F → Prop := λ s, ∀ d c, gb_usable c →
    (∀ f, hands_over [f] (λ _, True) c (send_one s d f c)) ∧
    (∀ len fs, (2 ≤ len ≤ DIRECT_GAMEPAD_BATCH_FRAMES)%nat → length fs = DIRECT_GAMEPAD_BATCH_FRAMES →
       hands_over (take len fs) (λ _, True) c (send_fixed s d len fs c)) ∧
    (∀ fs, (2 ≤ length fs)%nat → hands_over fs (λ e, e.2 = fs) c (send_owned s d fs c));
  gb_blocking_ok : honest gb_blocking;
  gb_trying_ok : honest gb_trying;
}.

Section Keeps.
Context {C F : Type} `{!GamepadBatchSink C F, !LawfulGamepadSink C F}.
(** Whether the batcher uses its array. *)
Context (mode : bool).
Abbreviation B := (GamepadBatcher F).
Implicit Types b : B.
Implicit Types p : C * B.

Definition gamepad_buffered b : list F :=
  if use_fixed b then take (fixed_len b) (fixed_frames b) else frames b.

Definition gamepad_wf b : Prop :=
  use_fixed b = mode ∧
  (0 < batch_limit b)%nat ∧
  (mode = true →
     length (fixed_frames b) = DIRECT_GAMEPAD_BATCH_FRAMES ∧
     (fixed_len b ≤ batch_limit b ≤ DIRECT_GAMEPAD_BATCH_FRAMES)%nat).

Definition collecting p : Prop := gb_usable p.1 ∧ gamepad_wf p.2.
Definition gamepad_stream p : list F := gb_handed p.1 ++ gamepad_buffered p.2.

Abbreviation gives := (gives collecting gamepad_stream).

Lemma empty_array_length : length (empty_array (C := C)) = DIRECT_GAMEPAD_BATCH_FRAMES.
Proof. apply length_replicate. Qed.

(** A command that leaves the stream alone, and what else it achieves. *)
Definition settles (Q : C * B → Prop) (c : cmd (C * B) Stop unit) : Prop := ∀ p, collecting p →
  match c p with
  | (Ok _, p') => collecting p' ∧ gamepad_stream p' = gamepad_stream p ∧ Q p'
  | (Err _, p') => collecting p' ∧ gamepad_stream p' = gamepad_stream p
  | (Panicked, _) => False
  end.

Lemma settles_gives Q c : settles Q c → gives [] c.
Proof.
  intros Hc p Hp. specialize (Hc p Hp). destruct (c p) as [[[]|e|] p']; [| |done];
    [destruct Hc as (Hw & Hs & _)|destruct Hc as [Hw Hs]]; (split; [done|]); exists [];
    rewrite app_nil_r; by split; [apply takes_none|].
Qed.

(** What follows may rely on what was achieved. *)
Lemma settles_then Q c k fs p :
  settles Q c → collecting p →
  (∀ p', collecting p' → Q p' →
     collecting (k p').2 ∧
     ∃ taken, takes_from fs (k p').1 taken ∧ gamepad_stream (k p').2 = gamepad_stream p' ++ taken) →
  collecting ((c;; k) p).2 ∧
  ∃ taken, takes_from fs ((c;; k) p).1 taken ∧
           gamepad_stream ((c;; k) p).2 = gamepad_stream p ++ taken.
Proof.
  intros Hc Hp Hk. specialize (Hc p Hp). unfold mbind, cmd_bind.
  destruct (c p) as [[[]|e|] p1]; [| |done].
  - destruct Hc as (Hw & <- & HQ). by apply Hk.
  - destruct Hc as [Hw Hs]. split; [done|]. exists []. rewrite app_nil_r.
    by split; [apply takes_none|].
Qed.

Lemma wf_fixed fs n b :
  gamepad_wf b → length fs = DIRECT_GAMEPAD_BATCH_FRAMES → (n ≤ batch_limit b)%nat →
  gamepad_wf (set_fixed fs n b).
Proof.
  intros (Hu & Hl & Hw) Hfs Hn. split; [done|]. split; [done|]. intros Hm. destruct (Hw Hm).
  split; [done|cbn; lia].
Qed.

Lemma wf_frames fs b : gamepad_wf b → gamepad_wf (set_frames fs b).
Proof. done. Qed.

Lemma flush_fixed_settles s p :
  honest s → collecting p → mode = true →
  match flush_fixed s p with
  | (Ok _, p') => gb_usable p'.1 ∧ gb_handed p'.1 = gamepad_stream p ∧
                  ∃ fs, p'.2 = set_fixed fs 0 p.2 ∧ length fs = DIRECT_GAMEPAD_BATCH_FRAMES
  | (Err _, p') => gb_usable p'.1 ∧ gb_handed p'.1 = gb_handed p.1 ∧ p'.2 = p.2
  | (Panicked, _) => False
  end.
Proof.
  destruct p as [c b]. intros Hs [Hc (Hu & Hl & Hw)] Hm. cbn [fst snd] in *. destruct (Hw Hm) as [Hlen Hn].
  rewrite Hm in Hu.
  destruct (Hs (dedupe b) c Hc) as (Hone & Hfix & _).
  unfold flush_fixed, gamepad_stream, gamepad_buffered, sending. cbn [fst snd]. rewrite Hu.
  case_decide as H0.
  { rewrite H0, take_0, app_nil_r. split_and!; [done|done|]. exists (fixed_frames b).
    split; [|done]. destruct b; cbn in *. by subst. }
  case_decide as H1.
  - rewrite H1. destruct (fixed_frames b) as [|f fs] eqn:Ef; [done|]. cbn [lookup list_lookup].
    specialize (Hone f). destruct (send_one s (dedupe b) f c) as [[[]|e|] c']; [| |done]; cbn.
    + destruct Hone as [? ->]. split_and!; [done|done|]. by exists (f :: fs).
    + by destruct Hone as (? & ? & _).
  - specialize (Hfix (fixed_len b) (fixed_frames b) ltac:(lia) Hlen).
    destruct (send_fixed s (dedupe b) (fixed_len b) (fixed_frames b) c) as [[[]|e|] c']; [| |done]; cbn.
    + destruct Hfix as [? ->]. split_and!; [done|done|]. exists empty_array.
      split; [done|apply empty_array_length].
    + by destruct Hfix as (? & ? & _).
Qed.

Lemma flush_owned_settles s p :
  honest s → collecting p → mode = false →
  match flush_owned s p with
  | (Ok _, p') => gb_usable p'.1 ∧ gb_handed p'.1 = gamepad_stream p ∧ p'.2 = set_frames [] p.2
  | (Err _, p') => gb_usable p'.1 ∧ gb_handed p'.1 = gb_handed p.1 ∧ p'.2 = p.2
  | (Panicked, _) => False
  end.
Proof.
  destruct p as [c b]. intros Hs [Hc [Hu _]] Hm. cbn [fst snd] in *. rewrite Hm in Hu.
  destruct (Hs (dedupe b) c Hc) as (Hone & _ & Hown).
  unfold flush_owned, gamepad_stream, gamepad_buffered, sending. cbn [fst snd]. rewrite Hu.
  destruct (frames b) as [|f [|f' fs]] eqn:Ef.
  - rewrite app_nil_r. split_and!; [done|done|]. destruct b; cbn in *. by subst.
  - specialize (Hone f). destruct (send_one s (dedupe b) f c) as [[[]|e|] c']; [| |done]; cbn.
    + by destruct Hone as [? ->].
    + by destruct Hone as (? & ? & _).
  - specialize (Hown (f :: f' :: fs) ltac:(cbn; lia)).
    destruct (send_owned s (dedupe b) (f :: f' :: fs) c) as [[[]|[e fs']|] c']; [| |done]; cbn.
    + by destruct Hown as [? ->].
    + destruct Hown as (? & ? & Hfs). cbn in Hfs. subst. split_and!; [done|done|].
      destruct b; cbn in *. by subst.
Qed.

Lemma flush_settles s : honest s → settles (λ p, Gamepad_len p.2 = 0%nat) (gamepad_flush_with s).
Proof.
  intros Hs p Hp. pose proof Hp as [Hc Hw]. pose proof (proj1 Hw) as Hu. unfold gamepad_flush_with.
  rewrite Hu. destruct mode eqn:Hm; rewrite <-Hm in *.
  - pose proof (flush_fixed_settles s p Hs Hp Hm) as H. destruct (flush_fixed s p) as [[[]|e|] p']; [| |done].
    + destruct H as (Hc' & Hh & fs & Hb & Hfs).
      unfold Gamepad_len, gamepad_stream at 1, gamepad_buffered at 1. rewrite Hb, Hh. cbn.
      rewrite Hu, Hm, take_0, app_nil_r. split_and!; try done. split; [done|]. rewrite Hb.
      apply wf_fixed; [done|done|lia].
    + destruct H as (Hc' & Hh & Hb). unfold gamepad_stream. rewrite Hh, Hb. split; [|done].
      split; [done|by rewrite Hb].
  - pose proof (flush_owned_settles s p Hs Hp Hm) as H. destruct (flush_owned s p) as [[[]|e|] p']; [| |done].
    + destruct H as (Hc' & Hh & Hb).
      unfold Gamepad_len, gamepad_stream at 1, gamepad_buffered at 1. rewrite Hb, Hh. cbn.
      rewrite Hu, Hm, app_nil_r. split_and!; try done. split; [done|]. by rewrite Hb.
    + destruct H as (Hc' & Hh & Hb). unfold gamepad_stream. rewrite Hh, Hb. split; [|done].
      split; [done|by rewrite Hb].
Qed.

Lemma ensure_room_settles Q flush :
  settles Q flush → settles (λ p, (fixed_len p.2 < batch_limit p.2)%nat) (ensure_room flush).
Proof.
  intros Hf p Hp. unfold ensure_room, reading. run. destruct (Nat.leb_spec (batch_limit p.2) (fixed_len p.2)) as [|Hlt]; [|done].
  specialize (Hf p Hp). run. destruct (flush p) as [[[]|e|] p']; [|done|done].
  destruct Hf as (Hw & Hs & _).
  destruct (Nat.leb_spec (batch_limit p'.2) (fixed_len p'.2)); [done|by split_and!].
Qed.

Lemma flush_if_full_settles flush :
  settles (λ p, Gamepad_len p.2 = 0%nat) flush →
  settles (λ p, (Gamepad_len p.2 < batch_limit p.2)%nat) (flush_if_full flush).
Proof.
  intros Hf p Hp. unfold flush_if_full, reading. run.
  destruct (Nat.leb_spec (batch_limit p.2) (Gamepad_len p.2)) as [|Hlt]; [|done].
  specialize (Hf p Hp). destruct (flush p) as [[[]|e|] p']; [|done|done].
  destruct Hf as (Hw & Hs & H0). split_and!; [done..|]. rewrite H0. apply Hw.
Qed.

(** Writing into the buffer, where there is room. *)
Definition stores (fs : list F) (c : cmd (C * B) Stop unit) p : Prop :=
  ∃ p', c p = (Ok tt, p') ∧ collecting p' ∧ gamepad_stream p' = gamepad_stream p ++ fs.

Lemma store_fixed_run f p :
  collecting p → mode = true → (fixed_len p.2 < batch_limit p.2)%nat →
  stores [f] (store_fixed f) p.
Proof.
  destruct p as [c b]. intros [Hc Hw] Hm Hroom. cbn [fst snd] in *.
  pose proof (proj2 (proj2 Hw) Hm) as [Hlen Hn]. pose proof (eq_trans (proj1 Hw) Hm) as Hu. unfold store_fixed. eexists.
  split; [by rewrite decide_True by lia|]. split.
  - split; [done|]. apply wf_fixed; [done|by rewrite length_insert|lia].
  - unfold gamepad_stream, gamepad_buffered. cbn. rewrite Hu, <-app_assoc. f_equal.
    rewrite Nat.add_1_r, (take_S_r _ _ f) by (apply list_lookup_insert_eq; lia).
    by rewrite take_insert_ge.
Qed.

Lemma copy_fixed_run fs p :
  collecting p → mode = true → (fixed_len p.2 + length fs ≤ batch_limit p.2)%nat →
  stores fs (copy_fixed fs) p.
Proof.
  destruct p as [c b]. intros [Hc Hw] Hm Hroom. cbn [fst snd] in *.
  pose proof (proj2 (proj2 Hw) Hm) as [Hlen Hn]. pose proof (eq_trans (proj1 Hw) Hm) as Hu. unfold copy_fixed. eexists.
  split; [by rewrite decide_True by lia|]. split.
  - split; [done|]. apply wf_fixed; [done| |done]. rewrite !length_app, length_take, length_drop. lia.
  - unfold gamepad_stream, gamepad_buffered. cbn. rewrite Hu, <-app_assoc. f_equal.
    rewrite app_assoc, take_app_length'; [done|]. rewrite length_app, length_take. lia.
Qed.

Lemma append_run fs p :
  collecting p → mode = false → stores fs (updating (λ b, set_frames (frames b ++ fs) b)) p.
Proof.
  destruct p as [c b]. intros [Hc Hw] Hm. cbn [fst snd] in *. eexists. split; [reflexivity|].
  split; [by split|]. pose proof (eq_trans (proj1 Hw) Hm) as Hu. unfold gamepad_stream, gamepad_buffered. cbn. by rewrite Hu, app_assoc.
Qed.

(** A store, and what follows it. *)
Lemma stores_then c k fs fs' p :
  stores fs c p → gives fs' k →
  collecting ((c;; k) p).2 ∧
  ∃ taken, takes_from (fs ++ fs') ((c;; k) p).1 taken ∧
           gamepad_stream ((c;; k) p).2 = gamepad_stream p ++ taken.
Proof.
  intros (p' & Hp' & Hw & Hs) Hk. rewrite (bind_ok c (λ _, k) p tt p' Hp').
  destruct (Hk p' Hw) as (Hw2 & taken & (Hn & Hpre & Hall) & Hs2). split; [done|].
  exists (fs ++ taken). rewrite Hs2, Hs, app_assoc. split; [|done].
  split_and!; [done|by apply prefix_app|]. intros Ho. by rewrite Hall.
Qed.

Section Flush.
Context (flush : cmd (C * B) Stop unit) (Hflush : settles (λ p, Gamepad_len p.2 = 0%nat) flush).

Lemma full_gives : gives [] (flush_if_full flush).
Proof. eapply settles_gives. by apply flush_if_full_settles. Qed.

Lemma by_mode (c c' : cmd (C * B) Stop unit) fs :
  (mode = true → gives fs c) → (mode = false → gives fs c') →
  gives fs (fixed ← reading use_fixed; if (fixed : bool) then c else c').
Proof.
  intros Hc Hc' p Hp. rewrite (bind_ok (reading use_fixed) _ p _ p eq_refl).
  rewrite (proj1 (proj2 Hp)). destruct mode; [by apply Hc|by apply Hc'].
Qed.

Lemma gamepad_push_gives f : gives [f] (gamepad_push_with flush f).
Proof.
  apply by_mode; intros Hm p Hp.
  - eapply settles_then; [by eapply ensure_room_settles|done|]. intros p' Hp' Hroom.
    cbn beta in Hroom. apply (stores_then _ _ [f] []); [by apply store_fixed_run|apply full_gives].
  - apply (stores_then _ _ [f] []); [by apply append_run|apply full_gives].
Qed.

(** One turn of a loop takes some of the frames, the rest of the loop the others. *)
Lemma turn_gives (fs : list F) n (store loop : cmd (C * B) Stop unit) p :
  stores (take n fs) store p → gives (drop n fs) loop →
  collecting ((store;; flush_if_full flush;; loop) p).2 ∧
  ∃ taken, takes_from fs ((store;; flush_if_full flush;; loop) p).1 taken ∧
           gamepad_stream ((store;; flush_if_full flush;; loop) p).2 = gamepad_stream p ++ taken.
Proof.
  intros Hst Hloop. rewrite <-(take_drop n fs). apply stores_then; [done|].
  apply (gives_bind _ _ []); [apply full_gives|done].
Qed.

Lemma fixed_loop_gives fuel fs :
  mode = true → (length fs < fuel)%nat → gives fs (fixed_loop fuel flush fs).
Proof.
  intros Hm. revert fs. induction fuel as [|fuel IH]; intros fs Hfuel; [lia|].
  destruct fs as [|f fs']; [apply gives_ret|]. intros p Hp. cbn [fixed_loop].
  eapply settles_then; [by eapply ensure_room_settles|done|]. intros p' Hp' Hroom.
  cbn beta in Hroom. rewrite (bind_ok (reading _) _ p' _ p' eq_refl). cbn beta zeta.
  set (n := Nat.min _ _). assert (0 < n)%nat as Hn by (unfold n; cbn [length]; lia).
  apply (turn_gives (f :: fs') n).
  - apply copy_fixed_run; [done|done|]. rewrite length_take. lia.
  - apply IH. rewrite length_drop. cbn [length] in *. lia.
Qed.

Lemma owned_loop_gives fuel fs :
  mode = false → (length fs < fuel)%nat → gives fs (owned_loop fuel flush fs).
Proof.
  intros Hm. revert fs. induction fuel as [|fuel IH]; intros fs Hfuel; [lia|].
  destruct fs as [|f fs']; [apply gives_ret|]. intros p Hp. cbn [owned_loop].
  eapply settles_then; [by apply flush_if_full_settles|done|]. intros p' Hp' Hroom.
  cbn beta in Hroom. rewrite (bind_ok (reading _) _ p' _ p' eq_refl). cbn beta zeta.
  assert (Gamepad_len p'.2 = length (frames p'.2)) as Hlen.
  { unfold Gamepad_len. by rewrite (proj1 (proj2 Hp')), Hm. }
  set (n := Nat.min _ _). assert (0 < n)%nat as Hn by (unfold n; cbn [length]; lia).
  apply (turn_gives (f :: fs') n); [by apply append_run|].
  apply IH. rewrite length_drop. cbn [length] in *. lia.
Qed.

Lemma gamepad_slice_gives fs : gives fs (gamepad_slice_with flush fs).
Proof. apply by_mode; intros Hm; [apply fixed_loop_gives|apply owned_loop_gives]; (done || lia). Qed.
End Flush.

(** ** Histories of a gamepad batcher *)

Definition gamepad_batch (op : BatchOp) : cmd (C * B) Stop unit :=
  match op with
  | B_push f => Gamepad_push f
  | B_try_push f => Gamepad_try_push f
  | B_push_many fs => Gamepad_push_many fs
  | B_try_push_many fs => Gamepad_try_push_many fs
  | B_push_many_slice fs => Gamepad_push_many_slice fs
  | B_try_push_many_slice fs => Gamepad_try_push_many_slice fs
  | B_flush => Gamepad_flush
  | B_try_flush => Gamepad_try_flush
  end.

Fixpoint gamepad_batches (ops : list BatchOp) p : list (outcome Stop unit) * (C * B) :=
  match ops with
  | [] => ([], p)
  | op :: ops =>
      let '(o, p) := gamepad_batch op p in
      let '(os, p) := gamepad_batches ops p in
      (o :: os, p)
  end.

Lemma gamepad_batch_gives op : gives (offered op) (gamepad_batch op).
Proof.
  pose proof (flush_settles _ gb_blocking_ok) as Hb. pose proof (flush_settles _ gb_trying_ok) as Ht.
  destruct op; cbn [gamepad_batch offered];
    [by apply gamepad_push_gives|by apply gamepad_push_gives
    |apply push_many_gives; intros; by apply gamepad_push_gives
    |apply push_many_gives; intros; by apply gamepad_push_gives
    |by apply gamepad_slice_gives|by apply gamepad_slice_gives
    |by eapply settles_gives|by eapply settles_gives].
Qed.

Lemma gamepad_batches_keep ops p :
  collecting p →
  collecting (gamepad_batches ops p).2 ∧
  ∃ takens, Forall3 (λ op o taken, takes_from (offered op) o taken) ops (gamepad_batches ops p).1 takens ∧
    gamepad_stream (gamepad_batches ops p).2 = gamepad_stream p ++ concat takens.
Proof.
  revert p. induction ops as [|op ops IH]; intros p Hp; cbn [gamepad_batches].
  { split; [done|]. exists []. split; [constructor|]. by rewrite app_nil_r. }
  destruct (gamepad_batch_gives op p Hp) as (Hw & taken & Ht & Hs).
  destruct (gamepad_batch op p) as [o p1]. cbn [fst snd] in *.
  destruct (IH p1 Hw) as (Hw2 & takens & Hts & Hs2).
  destruct (gamepad_batches ops p1) as [os p2]. cbn [fst snd] in *.
  split; [done|]. exists (taken :: takens). split; [by constructor|].
  by rewrite Hs2, Hs, <-app_assoc.
Qed.
End Keeps.

(** A gamepad batcher neither loses nor repeats a frame, in either mode and with any
    batch size, over a client without a ring.  After any history of operations: none
    unwinds; each took all its frames if it returned [Ok] and a prefix of them otherwise
    (a push whose flush fails has taken its frame); the frames handed to the client followed
    by those buffered are the frames taken, in order. *)
Theorem gamepad_batcher_keeps_frames {C F} `{!GamepadBatchSink C F, !LawfulGamepadSink C F}
    (c : C) (d : bool) (n : nat) (ops : list (BatchOp (F := F))) (Hc : gb_usable c) :
  let os := (gamepad_batches ops (c, gamepad_batcher d n)).1 in
  let p := (gamepad_batches ops (c, gamepad_batcher d n)).2 in
  ∃ takens,
    Forall3 (λ op o taken, takes_from (offered op) o taken) ops os takens ∧
    gb_handed p.1 ++ gamepad_buffered p.2 = gb_handed c ++ concat takens.
Proof.
  intros os p. set (mode := use_fixed (gamepad_batcher (C := C) d n)).
  assert (collecting mode (c, gamepad_batcher d n)) as H0.
  { split; [done|]. split; [done|]. split; [cbn; lia|]. intros H%bool_decide_eq_true.
    split; [apply empty_array_length|cbn [snd fixed_len batch_limit gamepad_batcher]; lia]. }
  destruct (gamepad_batches_keep mode ops _ H0) as (_ & takens & Ht & Hs).
  exists takens. split; [done|]. etrans; [exact Hs|]. unfold gamepad_stream, gamepad_buffered.
  cbn [fst snd use_fixed gamepad_batcher fixed_len frames]. destruct (bool_decide _); by rewrite app_nil_r.
Qed.

(** ** The two clients *)

Section Instances.
Context {W : Type} `{!MessageSink W}.
Abbreviation R := (Runtime W).
Implicit Types r : R.

Lemma dispatcher_fast r : fast (dispatcher_turn r) = fast r.
Proof.
  unfold dispatcher_turn. destruct (receiving r); [|done]. destruct (channel r) as [|c q]; [done|].
  by destruct (dispatch_to_session c (threads r)) as [[[]|e|] d].
Qed.

Lemma events_fast es r : fast r = None → fast (run_events es r) = None.
Proof.
  revert r. induction es as [|e es IH]; intros r Hr; [done|]. cbn [run_events foldl]. apply IH.
  destruct e as [| |c]; cbn [run_event].
  - by rewrite dispatcher_fast.
  - unfold consumer_turn. by rewrite Hr.
  - unfold other_sends. destruct (_ && _); [|done]. by destruct c.
Qed.

(** A send on a client without a ring. *)
Definition channels {E} (c : HidCommand) (refused : E → Prop) (m : cmd R E unit) : Prop := ∀ r,
  fast r = None →
  match m r with
  | (Ok _, r') => fast r' = None ∧ queued r' = queued r ++ [c]
  | (Err e, r') => fast r' = None ∧ queued r' = queued r ∧ refused e
  | (Panicked, _) => False
  end.

Lemma interleave_fast {E} r :
  fast r = None →
  ∃ r', interleave (E := E) r = (Ok tt, r') ∧ fast r' = None ∧ queued r' = queued r.
Proof.
  intros Hr. destruct (interleave_run (E := E) r) as (r' & Hr' & Hq). exists r'. split_and!; [done| |done].
  unfold interleave in Hr'. cbn in Hr'. injection Hr' as <-. destruct (schedule r); [done|].
  by apply events_fast.
Qed.

Lemma tx_send_channels c : channels c (λ e, unsent e = c) (tx_send c).
Proof.
  intros r Hr. unfold tx_send. destruct (interleave_fast (E := TrySendError) r Hr) as (r1 & H1 & Hf & Hq).
  rewrite (bind_ok _ _ r tt r1 H1). run. rewrite <-Hq.
  set (r2 := if has_room r1 then r1 else dispatcher_turn r1).
  assert (queued r2 = queued r1 ∧ fast r2 = None) as [Hq2 Hf2].
  { unfold r2. destruct (has_room r1); [done|]. by rewrite dispatcher_queued, dispatcher_fast. }
  destruct (receiving r2); cbn; [by rewrite Hq2|done].
Qed.

Lemma tx_try_channels c : channels c (λ e, unsent e = c) (tx_try_send c).
Proof.
  intros r Hr. unfold tx_try_send.
  destruct (interleave_fast (E := TrySendError) r Hr) as (r1 & H1 & Hf & Hq).
  rewrite (bind_ok _ _ r tt r1 H1). run. rewrite <-Hq.
  destruct (receiving r1); cbn; [|done]. by destruct (has_room r1).
Qed.

Lemma map_err_channels {E E'} (f : E → E') c P m :
  channels c P m → channels c (λ _, True) (map_err f m).
Proof.
  intros Hm r Hr. specialize (Hm r Hr). unfold map_err, catch.
  destruct (m r) as [[[]|e|] r']; [done| |done]. cbn. by destruct Hm as (? & ? & _).
Qed.

Lemma catch_channels {E E'} (h : E → cmd R E' unit) c P Q m :
  (∀ e r, P e → ∃ e', h e r = (Err e', r) ∧ Q e') → channels c P m → channels c Q (catch m h).
Proof.
  intros Hh Hm r Hr. specialize (Hm r Hr). unfold catch.
  destruct (m r) as [[[]|e|] r']; [done| |done]. destruct Hm as (? & ? & HP).
  by destruct (Hh e r' HP) as (e' & -> & HQ).
Qed.

(** A ring push without a ring. *)
Lemma no_ring {E} c Q frame (k : option (outcome TryPushError unit) → cmd R E unit) :
  channels c Q (k None) → channels c Q (pushed ← ring_push frame; k pushed).
Proof.
  intros Hk r Hr. unfold ring_push. destruct (interleave_fast (E := E) r Hr) as (r1 & H1 & Hf & Hq).
  rewrite (cmd_bind_assoc _ _ _ r), (bind_ok _ _ r tt r1 H1). run. rewrite Hf, <-Hq. by apply Hk.
Qed.

Lemma channels_hand {E F} (frames_of : HidCommand → list F) cmd (P : E → Prop) m fs r :
  channels cmd P m → frames_of cmd = fs → fast r = None →
  match m r with
  | (Ok _, r') => fast r' = None ∧ queued r' ≫= frames_of = (queued r ≫= frames_of) ++ fs
  | (Err e, r') => fast r' = None ∧ queued r' ≫= frames_of = queued r ≫= frames_of ∧ P e
  | (Panicked, _) => False
  end.
Proof.
  intros Hm <- Hr. specialize (Hm r Hr). destruct (m r) as [[[]|e|] r']; [| |done].
  - destruct Hm as [? ->]. by rewrite bind_app, bind_singleton.
  - by destruct Hm as (? & -> & ?).
Qed.

Definition pad_frames (c : HidCommand) : list GamepadFrameRaw :=
  match c with
  | Hc_GamepadFrameRaw b lx ly rx ry lt rt => [mkFrame b lx ly rx ry lt rt]
  | Hc_GamepadFrameRawUnchecked f => [f]
  | Hc_GamepadFrameRawBatch fs | Hc_GamepadFrameRawBatchUnchecked fs => fs
  | Hc_GamepadFrameRawBatchFixed len fs | Hc_GamepadFrameRawBatchFixedUnchecked len fs =>
      take (Z.to_nat len) fs
  | _ => []
  end.
Definition packed_frames (c : HidCommand) : list bytes :=
  match c with
  | Hc_GamepadPackedFrame f => [f]
  | Hc_GamepadPackedFrameBatch fs => fs
  | Hc_GamepadPackedFrameBatchFixed len fs => take (Z.to_nat len) fs
  | _ => []
  end.

Lemma frame_cmd_frames f : pad_frames (frame_cmd f) = [f].
Proof. by destruct f. Qed.

Lemma batch_cmd_frames d fs : pad_frames (frame_batch_cmd fs d) = fs.
Proof. by destruct d. Qed.

Lemma wrapped_len len :
  (len ≤ DIRECT_GAMEPAD_BATCH_FRAMES)%nat → Z.to_nat (wrap 8 (Z.of_nat len)) = len.
Proof. intros H. rewrite (wrap_len _ _ H) by (cbv; lia). apply Nat2Z.id. Qed.

Lemma fixed_cmd_frames d len fs :
  (len ≤ DIRECT_GAMEPAD_BATCH_FRAMES)%nat → pad_frames (frame_batch_fixed_cmd d len fs) = take len fs.
Proof. intros H. destruct d; cbn; by rewrite wrapped_len. Qed.


Lemma send_channels c : channels c (λ _, True) (send c).
Proof. eapply map_err_channels, tx_send_channels. Qed.

Lemma try_channels c : channels c (λ _, True) (map_err back_pressure (tx_try_send c)).
Proof. eapply map_err_channels, tx_try_channels. Qed.

Lemma owned_channels d fs : channels (frame_batch_cmd fs d) (λ e, e.2 = fs) (send_frame_batch_owned fs d).
Proof.
  eapply catch_channels; [|apply tx_send_channels]. intros e r Hu. cbn beta in Hu. rewrite Hu.
  destruct d; cbn; by eexists.
Qed.

Lemma try_owned_channels d fs :
  channels (frame_batch_cmd fs d) (λ e, e.2 = fs) (try_send_frame_batch_owned fs d).
Proof.
  eapply catch_channels; [|apply tx_try_channels]. intros e r Hu. cbn beta in Hu. rewrite Hu.
  destruct d; cbn; by eexists.
Qed.

Lemma packed_owned_channels fs :
  channels (Hc_GamepadPackedFrameBatch fs) (λ e, e.2 = fs) (send_packed_frame_batch_owned fs).
Proof.
  eapply catch_channels; [|apply tx_send_channels]. intros e r Hu. cbn beta in Hu. rewrite Hu.
  cbn. by eexists.
Qed.

Lemma packed_try_owned_channels fs :
  channels (Hc_GamepadPackedFrameBatch fs) (λ e, e.2 = fs) (try_send_packed_frame_batch_owned fs).
Proof.
  eapply catch_channels; [|apply tx_try_channels]. intros e r Hu. cbn beta in Hu. rewrite Hu.
  cbn. by eexists.
Qed.

Lemma internal_run len fs d r :
  (2 ≤ len ≤ DIRECT_GAMEPAD_BATCH_FRAMES)%nat → fast r = None →
  send_frame_batch_fixed_internal len fs d r = send (frame_batch_fixed_cmd d len fs) r.
Proof.
  intros H Hr. unfold send_frame_batch_fixed_internal. rewrite !decide_False by lia. run.
  unfold is_gamepad_fast_path. by rewrite Hr.
Qed.

#[export] Instance Gamepad_lawful : LawfulGamepadSink R GamepadFrameRaw.
Proof.
  refine {| gb_usable r := fast r = None; gb_handed r := queued r ≫= pad_frames |};
    intros d r Hr; (split; [|split]); cbn [gb_blocking gb_trying GamepadFrameBatcher send_one send_fixed send_owned].
  - intros f. destruct d.
    + eapply channels_hand; [apply no_ring, send_channels|apply frame_cmd_frames|done].
    + eapply channels_hand; [apply no_ring, send_channels|done|done].
  - intros len fs Hlen _. rewrite internal_run by done.
    eapply channels_hand; [apply send_channels|apply fixed_cmd_frames; lia|done].
  - intros fs _. eapply channels_hand; [apply owned_channels|apply batch_cmd_frames|done].
  - intros f. destruct d.
    + eapply channels_hand; [apply no_ring, try_channels|apply frame_cmd_frames|done].
    + eapply channels_hand; [apply no_ring, try_channels|done|done].
  - intros len fs Hlen _. unfold try_send_frame_batch_fixed, try_send_frame_batch_fixed_unchecked,
      try_send_frame_batch_fixed_internal.
    destruct d; rewrite !decide_False by lia;
      (eapply channels_hand; [apply try_channels|apply fixed_cmd_frames; lia|done]).
  - intros fs _. eapply channels_hand; [apply try_owned_channels|apply batch_cmd_frames|done].
Defined.

#[export] Instance Packed_lawful : LawfulGamepadSink R bytes.
Proof.
  refine {| gb_usable r := fast r = None; gb_handed r := queued r ≫= packed_frames |};
    intros d r Hr; (split; [|split]);
    cbn [gb_blocking gb_trying PackedGamepadFrameBatcher send_one send_fixed send_owned].
  - intros f. eapply channels_hand; [apply send_channels|done|done].
  - intros len fs Hlen _. unfold send_frame_packed_batch_fixed, send_frame_packed_batch_fixed_internal.
    rewrite !decide_False by lia.
    eapply channels_hand; [apply send_channels|cbn; by rewrite wrapped_len by lia|done].
  - intros fs _. eapply channels_hand; [apply packed_owned_channels|done|done].
  - intros f. eapply channels_hand; [apply try_channels|done|done].
  - intros len fs Hlen _. unfold try_send_frame_packed_batch_fixed. rewrite !decide_False by lia.
    eapply channels_hand; [apply try_channels|cbn; by rewrite wrapped_len by lia|done].
  - intros fs _. eapply channels_hand; [apply packed_try_owned_channels|done|done].
Defined.
End Instances.

(** ** Witnesses *)

(** Batches of 40 frames, in a vector, for a channel that holds one command. *)
Definition sample_gamepad : list BatchOp :=
  [B_push_many_slice (replicate 50 (mkFrame 1 2 3 4 5 6 7));
   B_try_push_many (replicate 40 (mkFrame 7 6 5 4 3 2 1))].

Lemma gamepad_batcher_keeps_frames_witness :
  gb_usable (F := GamepadFrameRaw) narrow ∧
  let p := (gamepad_batches sample_gamepad (narrow, gamepad_batcher true 40)).2 in
  let os := (gamepad_batches sample_gamepad (narrow, gamepad_batcher true 40)).1 in
  Forall (λ o, o ≠ Panicked) os ∧
  gb_handed (F := GamepadFrameRaw) p.1 ++ gamepad_buffered p.2 =
    replicate 50 (mkFrame 1 2 3 4 5 6 7) ++ replicate 30 (mkFrame 7 6 5 4 3 2 1).
Proof.
  assert (gb_usable (F := GamepadFrameRaw) narrow) as Hu by done.
  split; [exact Hu|]. intros p os.
  destruct (gamepad_batcher_keeps_frames (F := GamepadFrameRaw) narrow true 40 sample_gamepad Hu)
    as (takens & Ht & _).
  split; [|by vm_compute].
  clear -Ht. fold os in Ht. induction Ht as [|op o taken ops os' takens [Hn _] _ IH]; [done|].
  by constructor.
Defined.

(** ** On a channel for two commands, as in the tests of [client.rs] *)

Definition two_slots : Runtime MsgLog := into_client_with_bound (open (mkLog []) kbd_only).2 2 [].
Definition A_down : KeyboardFrame := KeyboardFrame_new 4 true 0.
Definition B_down : KeyboardFrame := KeyboardFrame_new 5 true 0.

(** A full batch goes out when the next frame arrives, and a single frame as a single command. *)
Example keyboard_flushes_at_capacity :
  let full := (for_each (replicate KEYBOARD_BATCH_FRAMES A_down) KeyboardFrameBatcher_push
                 (two_slots, keyboard_frame_batcher)).2 in
  let more := (KeyboardFrameBatcher_push B_down full).2 in
  let done := (KeyboardFrameBatcher_flush more).2 in
  KeyboardFrameBatcher_len full.2 = KEYBOARD_BATCH_FRAMES ∧ channel full.1 = [] ∧
  KeyboardFrameBatcher_len more.2 = 1%nat ∧
  channel done.1 = [Hc_KeyBatchFixed (Z.of_nat KEYBOARD_BATCH_FRAMES) (replicate KEYBOARD_BATCH_FRAMES A_down);
                    Hc_Key 5 true 0].
Proof. vm_compute. auto. Qed.
