(* ===== verification/RingClient.v ===== *)
(** * Batching over the gamepad ring ([src/src/client.rs], [src/src/gamepad_ring.rs])

    A client made by [into_client_with_gamepad_ring] has a ring and a channel without a
    receiver.  Here: what its batcher does when the ring is full or is not used at all. *)

From stdpp Require Import gmap.
From S2P Require Import Prelude Words Errors Types Utf8 Float32 Message Transport Descriptor.
From S2P Require Import Coalesce Sink Session Commands Dispatcher GamepadRing Runtime Client.
From S2P Require Import FrameBatchers GamepadBatchers.
Local Open Scope Z_scope.

(** ** The ring as a queue *)

(** The ring holds [l], oldest first. *)
Definition holds (g : GamepadFrameRing) (l : list GamepadFrameRaw) : Prop :=
  ∃ t : nat,
    tail g = index t ∧ head g = index (t + length l) ∧ length (ring_slots g) = 8%nat ∧
    (length l ≤ 8)%nat ∧
    ∀ i fr, l !! i = Some fr → ring_slots g !! slot_of (Z.of_nat (t + i)) = Some (Some fr).

Lemma holds_new : holds Ring_new [].
Proof. exists 0%nat. split_and!; [done..|cbn; lia|done]. Qed.

Lemma push_holds fr g l :
  holds g l → (length l < 8)%nat →
  ∃ g', push fr g = (Ok tt, g') ∧ holds g' (l ++ [fr]).
Proof.
  intros (t & Ht & Hh & Hs & Hl & Hi) Hroom. unfold push. run. rewrite Ht, Hh.
  rewrite ring_full_spec by lia. rewrite bool_decide_eq_false_2 by lia. eexists. split; [done|].
  exists t. cbn. rewrite length_app, length_insert, index_succ. cbn [length].
  split_and!; [done|f_equal; lia|done|lia|].
  intros i f Hf. rewrite slot_of_index. destruct (decide (i = length l)) as [->|Hne].
  - rewrite lookup_app_r, Nat.sub_diag in Hf by lia. injection Hf as <-.
    apply list_lookup_insert_eq. rewrite Hs. apply slot_of_lt.
  - assert (i < length l)%nat as Hlt.
    { apply lookup_lt_Some in Hf. rewrite length_app in Hf. cbn in Hf. lia. }
    rewrite lookup_app_l in Hf by done. rewrite list_lookup_insert_ne; [by apply Hi|].
    intros H. apply eq_sym, slot_of_inj in H; lia.
Qed.

Lemma push_full fr g l : holds g l → length l = 8%nat → push fr g = (Err Full_ring, g).
Proof.
  intros (t & Ht & Hh & _) Hfull. unfold push. run. rewrite Ht, Hh.
  rewrite ring_full_spec by lia. by rewrite bool_decide_eq_true_2 by lia.
Qed.

Lemma pop_holds fr g l :
  holds g (fr :: l) → ∃ g', pop g = (Ok (Some fr), g') ∧ holds g' l.
Proof.
  intros (t & Ht & Hh & Hs & Hl & Hi). cbn [length] in *. unfold pop. run. rewrite Ht, Hh.
  rewrite decide_False by (intros H; apply eq_sym, index_small_eq in H; lia).
  unfold read_slot. rewrite slot_of_index. pose proof (Hi 0%nat fr eq_refl) as H0.
  rewrite Nat.add_0_r in H0. rewrite H0. cbn. eexists. split; [done|]. exists (S t). cbn.
  rewrite index_succ. split_and!; [done|rewrite Hh; f_equal; lia|done|lia|].
  intros i f Hf. rewrite plus_n_Sm. by apply Hi.
Qed.

Lemma pop_empty g : holds g [] → pop g = (Ok None, g).
Proof.
  intros (t & Ht & Hh & _). unfold pop. run. rewrite Ht, Hh. cbn [length].
  by rewrite Nat.add_0_r, decide_True.
Qed.

(** ** A client of the ring *)

Section RingClient.
Context {W : Type} `{!MessageSink W}.
Abbreviation R := (Runtime W).
Implicit Types r : R.

(** The consumer has not run yet, and the receiver of the channel was dropped. *)
Definition ringed (l : list GamepadFrameRaw) r : Prop :=
  receiving r = false ∧ schedule r = [] ∧ ∃ f, fast r = Some f ∧ holds (gamepad_ring f) l.

Lemma ring_push_room {E} fr l r :
  ringed l r → (length l < 8)%nat →
  ∃ r', ring_push (E := E) fr r = (Ok (Some (Ok tt)), r') ∧ ringed (l ++ [fr]) r'.
Proof.
  intros (Hr & Hs & f & Hf & Hl) Hroom. unfold ring_push, interleave. run. rewrite Hs, Hf.
  destruct (push_holds fr _ l Hl Hroom) as (g & Hg & Hl'). rewrite Hg. eexists. split; [done|].
  split; [done|]. split; [done|]. by eexists.
Qed.

Lemma ring_push_full {E} fr l r :
  ringed l r → length l = 8%nat →
  ∃ r', ring_push (E := E) fr r = (Ok (Some (Err Full_ring)), r') ∧ ringed l r'.
Proof.
  intros (Hr & Hs & f & Hf & Hl) Hfull. unfold ring_push, interleave. run. rewrite Hs, Hf.
  rewrite (push_full fr _ l Hl Hfull). eexists. split; [done|]. split; [done|]. split; [done|]. by eexists.
Qed.

Lemma push_or_spill_run fs rest l r :
  ringed l r → (length l ≤ 8)%nat →
  ∃ r', push_or_spill fs rest r = (Ok (rest ++ drop (8 - length l) fs), r') ∧
        ringed (l ++ take (8 - length l) fs) r'.
Proof.
  revert rest l r. induction fs as [|fr fs IH]; intros rest l r Hr Hl; cbn [push_or_spill].
  { exists r. rewrite drop_nil, take_nil, !app_nil_r. done. }
  destruct (decide (length l = 8%nat)) as [Hfull|Hroom].
  - destruct (ring_push_full (E := Stop) fr l r Hr Hfull) as (r1 & H1 & Hr1).
    rewrite (bind_ok _ _ r _ r1 H1). destruct (IH (rest ++ [fr]) l r1 Hr1 Hl) as (r' & Hp & Hr').
    exists r'. rewrite Hp. rewrite Hfull in *. rewrite Nat.sub_diag in *. rewrite <-app_assoc. done.
  - destruct (ring_push_room (E := Stop) fr l r Hr ltac:(lia)) as (r1 & H1 & Hr1).
    rewrite (bind_ok _ _ r _ r1 H1).
    destruct (IH rest (l ++ [fr]) r1 Hr1) as (r' & Hp & Hr').
    { rewrite length_app. cbn. lia. }
    exists r'. rewrite Hp. rewrite length_app in *. cbn [length] in *.
    destruct (8 - length l)%nat as [|k] eqn:Ek; [lia|].
    replace (8 - (length l + 1))%nat with k in * by lia. cbn [take drop]. rewrite <-app_assoc in Hr'. done.
Qed.

Lemma send_dead c l r :
  ringed l r → ∃ r', send c r = (Err (Failed (DispatcherDown "channel disconnected")), r') ∧ ringed l r'.
Proof.
  intros (Hr & Hs & f & Hf & Hl). unfold send, map_err, catch, tx_send, interleave. run. rewrite Hs.
  assert (∀ r1 : R, r1 = r → ∃ r', (Err (Failed (DispatcherDown "channel disconnected")), r1) = (Err (E := Stop) (A := unit) (Failed (DispatcherDown "channel disconnected")), r') ∧ ringed l r') as H.
  { intros r1 ->. exists r. split; [done|]. split; [done|]. split; [done|]. by exists f. }
  destruct (has_room r); unfold dispatcher_turn; rewrite ?Hr; cbn; rewrite ?Hr; by apply H.
Qed.

Lemma try_dead c l r :
  ringed l r →
  map_err back_pressure (tx_try_send c) r = (Err (Failed (DispatcherDown "channel disconnected")), r).
Proof.
  intros (Hr & Hs & _). unfold map_err, catch, tx_try_send, interleave. run. rewrite Hs. by rewrite Hr.
Qed.

Lemma ring_batch n fs d l r :
  ringed l r → (length l ≤ 8)%nat → (2 ≤ n ≤ DIRECT_GAMEPAD_BATCH_FRAMES)%nat →
  ∃ r', ringed (l ++ take (8 - length l) (take n fs)) r' ∧
    send_frame_batch_fixed_internal n fs d r =
      (if decide (drop (8 - length l) (take n fs) = []) then Ok tt
       else Err (Failed (DispatcherDown "channel disconnected")), r').
Proof.
  intros Hr Hl Hn. unfold send_frame_batch_fixed_internal. rewrite !decide_False by lia.
  rewrite (bind_ok (read is_gamepad_fast_path) _ r true r)
    by (destruct Hr as (_ & _ & f & Hf & _); cbn; unfold is_gamepad_fast_path; by rewrite Hf).
  destruct (push_or_spill_run (take n fs) [] l r Hr Hl) as (r1 & H1 & Hr1). cbn [app] in H1.
  rewrite (bind_ok _ _ r _ r1 H1). case_decide as Hd; [by exists r1|].
  match goal with |- context [send ?c r1] => destruct (send_dead c _ r1 Hr1) as (r2 & H2 & Hr2) end.
  by exists r2.
Qed.
End RingClient.

(** Batching over a full ring loses the boundary between sent and unsent.  When the
    consumer has not caught up, a flush of a batch puts the frames that fit into the ring and
    spills the rest to the channel, whose receiver does not exist: the call fails, and the
    batcher keeps all of the batch, so that the frames already in the ring are sent again by
    the next flush.  A batch that fits is queued in order and the buffer emptied.  Dropping
    the batcher instead, or flushing it without blocking, never looks at the ring: a batch of
    two frames or more is given up, and the drop does not say so. *)
Theorem ring_batch_resends {W} `{!MessageSink W} (l : list GamepadFrameRaw) (r : Runtime W)
    (b : GamepadBatcher GamepadFrameRaw)
    (Hr : ringed l r) (Hb : gamepad_wf true b) (Hlen : (2 ≤ fixed_len b)%nat) :
  let fs := gamepad_buffered b in
  let o := (Gamepad_flush (r, b)).1 in
  let p := (Gamepad_flush (r, b)).2 in
  ringed (l ++ take (8 - length l) fs) p.1 ∧
  (if decide (length l + length fs ≤ 8)%nat
   then o = Ok tt ∧ gamepad_buffered p.2 = []
   else o = Err (Failed (DispatcherDown "channel disconnected")) ∧ p.2 = b) ∧
  Gamepad_try_flush (r, b) = (Err (Failed (DispatcherDown "channel disconnected")), (r, b)) ∧
  drop_gamepad_batcher (r, b) = (Ok tt, (r, b)).
Proof.
  intros fs o p. subst o p.
  assert (length l ≤ 8)%nat as Hl by (destruct Hr as (_ & _ & f & _ & t & _ & _ & _ & Hl & _); done).
  destruct Hb as (Hu & _ & Hw). destruct (Hw eq_refl) as [Hsz Hn].
  assert (fs = take (fixed_len b) (fixed_frames b)) as Hfs by (unfold fs, gamepad_buffered; by rewrite Hu).
  assert (length fs = fixed_len b) as Hlfs by (rewrite Hfs, length_take; lia).
  assert (Gamepad_try_flush (r, b) = (Err (Failed (DispatcherDown "channel disconnected")), (r, b))) as Htry.
  { unfold Gamepad_try_flush, gamepad_flush_with, flush_fixed, sending. cbn [fst snd]. rewrite Hu.
    rewrite !decide_False by lia. cbn [send_fixed gb_trying GamepadFrameBatcher].
    unfold try_send_frame_batch_fixed, try_send_frame_batch_fixed_unchecked,
      try_send_frame_batch_fixed_internal.
    destruct (dedupe b); rewrite !decide_False by lia; by rewrite (try_dead _ l r Hr). }
  unfold Gamepad_flush, gamepad_flush_with, flush_fixed, sending. cbn [fst snd]. rewrite Hu.
  rewrite !(decide_False (P := fixed_len b = _)) by lia. cbn [send_fixed gb_blocking GamepadFrameBatcher].
  destruct (ring_batch (fixed_len b) (fixed_frames b) (dedupe b) l r Hr Hl ltac:(lia)) as (r' & Hr' & ->).
  rewrite <-Hfs in Hr' |- *. split_and!.
  - by destruct (decide (drop (8 - length l) fs = [])).
  - destruct (decide (drop (8 - length l) fs = [])) as [Hd|Hd].
    + rewrite decide_True; [|apply (f_equal length) in Hd; rewrite length_drop in Hd; cbn in Hd; lia].
      cbn. unfold gamepad_buffered. cbn. by rewrite Hu.
    + rewrite decide_False; [done|]. intros Hle. apply Hd, drop_ge. lia.
  - exact Htry.
  - unfold drop_gamepad_batcher, ignore_err. by rewrite Htry.
Qed.

(** ** Witnesses *)

Definition pad_at (x : Z) : GamepadFrameRaw := mkFrame 0 x 0 0 0 0 0.

(** A ring with six frames, and a batcher with four. *)
Definition behind : Runtime MsgLog :=
  (send_frame_batch (pad_at <$> [1; 2; 3; 4; 5; 6])
     (into_client_with_gamepad_ring (open (mkLog []) request_all).2 [])).2.
Definition four : GamepadBatcher GamepadFrameRaw :=
  (Gamepad_push_many (pad_at <$> [7; 8; 9; 10]) (behind, gamepad_batcher (C := Runtime MsgLog) true 5)).2.2.

Lemma behind_ringed : ringed (pad_at <$> [1; 2; 3; 4; 5; 6]) behind.
Proof.
  destruct (push_or_spill_run (W := MsgLog) (pad_at <$> [1; 2; 3; 4; 5; 6]) [] []
    (into_client_with_gamepad_ring (open (mkLog []) request_all).2 [])) as (r' & Hr & Hr').
  { split; [done|]. split; [done|]. eexists. split; [done|]. apply holds_new. }
  { cbn. lia. }
  replace behind with r'; [exact Hr'|].
  apply (f_equal snd) in Hr. cbn [snd] in Hr. rewrite <-Hr. by vm_compute.
Qed.

Lemma ring_batch_resends_witness :
  (Gamepad_flush (behind, four)).1 = Err (Failed (DispatcherDown "channel disconnected")) ∧
  ringed (pad_at <$> [1; 2; 3; 4; 5; 6; 7; 8]) (Gamepad_flush (behind, four)).2.1 ∧
  gamepad_buffered (Gamepad_flush (behind, four)).2.2 = pad_at <$> [7; 8; 9; 10].
Proof.
  assert (gamepad_wf true four) as Hb by (split; [done|]; split; [vm_compute; lia|]; intros _; vm_compute; lia).
  assert (2 ≤ fixed_len four)%nat as Hl by (vm_compute; lia).
  destruct (ring_batch_resends _ behind four behind_ringed Hb Hl) as (Hr & Ho & _).
  rewrite decide_False in Ho by (vm_compute; lia). destruct Ho as [Ho Hp].
  split; [exact Ho|]. split; [exact Hr|]. etrans; [by rewrite Hp|]. by vm_compute.
Defined.
