(* ===== verification/Utf8Lossy.v ===== *)
(** * Decoding bytes into strings: [String::from_utf8] and [from_utf8_lossy]

    Both walk the bytes character by character with [next_char].  Where that
    refuses, [error_len] is the [error_len()] of the standard library's [Utf8Error]:
    the length of the longest prefix of a character found there, or [None] when the
    input ends inside one.  [from_utf8] reports the first such place,
    [from_utf8_lossy] writes U+FFFD for each and goes on behind it. *)

From S2P Require Import Prelude Words Utf8 Format.
Local Open Scope Z_scope.

(** How many bytes a character starting with [b] has; 0 where no character does. *)
Definition char_width (b : Z) : nat :=
  if b <? 0x80 then 1 else if b <? 0xC2 then 0 else if b <? 0xE0 then 2
  else if b <? 0xF0 then 3 else if b <? 0xF5 then 4 else 0.

Definition within (lo hi b : Z) : bool := (lo <=? b) && (b <=? hi).

(** The second byte of a character: no overlong form, no surrogate, nothing above
    U+10FFFF. *)
Definition second_ok (b y : Z) : bool :=
  if b =? 0xE0 then within 0xA0 0xBF y
  else if b =? 0xED then within 0x80 0x9F y
  else if b =? 0xF0 then within 0x90 0xBF y
  else if b =? 0xF4 then within 0x80 0x8F y
  else within 0x80 0xBF y.

(** [n] continuation bytes are missing after [k] good bytes. *)
Fixpoint good_tail (n k : nat) (s : bytes) : option nat :=
  match n, s with
  | O, _ => Some k
  | S _, [] => None
  | S n, y :: s => if within 0x80 0xBF y then good_tail n (S k) s else Some k
  end.

Definition error_len (s : bytes) : option nat :=
  match s with
  | [] => None
  | b :: s =>
      match char_width b with
      | O | 1%nat => Some 1%nat
      | S (S n) =>
          match s with
          | [] => None
          | y :: s => if second_ok b y then good_tail n 2 s else Some 1%nat
          end
      end
  end.

(** [std::str::Utf8Error] and its [Display]. *)
Record Utf8Error : Set := mkUtf8Error { valid_up_to : nat; bad_len : option nat }.

#[export] Instance Utf8Error_eq_dec : EqDecision Utf8Error.
Proof. solve_decision. Defined.

Definition Utf8Error_display (e : Utf8Error) : string :=
  match bad_len e with
  | Some n => "invalid utf-8 sequence of " +:+ pretty n +:+ " bytes from index "
              +:+ pretty (valid_up_to e)
  | None => "incomplete utf-8 byte sequence from index " +:+ pretty (valid_up_to e)
  end.

(** The first place that is no character. *)
Fixpoint validate (fuel pos : nat) (s : bytes) : option Utf8Error :=
  match fuel, s with
  | O, _ | _, [] => None
  | S fuel, _ =>
      match next_char s with
      | Some (_, rest) => validate fuel (pos + (length s - length rest)) rest
      | None => Some (mkUtf8Error pos (error_len s))
      end
  end.

Definition from_utf8 (s : bytes) : outcome Utf8Error str :=
  match validate (length s) 0 s with
  | None => Ok s
  | Some e => Err e
  end.

(** [char::REPLACEMENT_CHARACTER] *)
Definition REPLACEMENT : Z := 0xFFFD.

Fixpoint lossy (fuel : nat) (s : bytes) : list Z :=
  match fuel, s with
  | O, _ | _, [] => []
  | S fuel, _ =>
      match next_char s with
      | Some (c, rest) => c :: lossy fuel rest
      | None =>
          REPLACEMENT ::
            match error_len s with
            | Some n => lossy fuel (drop n s)
            | None => []
            end
      end
  end.

Definition from_utf8_lossy (s : bytes) : str := encode (lossy (length s) s).

(** ** [next_char] reads what [encode_char] writes *)

Lemma continuation_inv b y :
  continuation b = Some y → b = 0x80 + y ∧ 0 ≤ y < 64.
Proof.
  unfold continuation. destruct (Z.leb_spec 0x80 b), (Z.ltb_spec b 0xC0); cbn; intros; simplify_eq; lia.
Qed.

Ltac bool_facts :=
  repeat match goal with
    | H : (_ <? _) = true |- _ => apply Z.ltb_lt in H
    | H : (_ <? _) = false |- _ => apply Z.ltb_ge in H
    | H : (_ <=? _) = true |- _ => apply Z.leb_le in H
    | H : (_ <=? _) = false |- _ => apply Z.leb_gt in H
    | H : _ && _ = true |- _ => apply andb_true_iff in H as [? ?]
    | H : bool_decide _ = true |- _ => apply bool_decide_eq_true in H
    end.

Lemma next_char_inv s c rest :
  is_bytes s → next_char s = Some (c, rest) →
  is_char c ∧ s = encode_char c ++ rest.
Proof.
  intros Hs H. destruct s as [|b s]; [done|]. cbn [next_char] in H.
  apply Forall_cons in Hs as [Hb _]. widths.
  unfold encode_char.
  destruct (b <? 0x80) eqn:E1; [injection H as <- <-; bool_facts; split; [unfold is_char; lia|]|].
  { by rewrite (proj2 (Z.ltb_lt _ _)). }
  destruct (b <? 0xC0) eqn:E2; [done|].
  destruct (b <? 0xE0) eqn:E3.
  { destruct s as [|y s]; [done|].
    apply bind_Some in H as (y' & [-> Hy]%continuation_inv & H). cbn in H.
    case_match; [|done]. injection H as <- <-. bool_facts. split; [unfold is_char; lia|].
    rewrite (proj2 (Z.ltb_ge _ _)), (proj2 (Z.ltb_lt _ 0x800)) by lia. cbn.
    repeat f_equal; Z.div_mod_to_equations; lia. }
  destruct (b <? 0xF0) eqn:E4.
  { destruct s as [|y [|z s]]; [done..|].
    apply bind_Some in H as (y' & [-> Hy]%continuation_inv & H).
    apply bind_Some in H as (z' & [-> Hz]%continuation_inv & H). cbn in H.
    case_match; [|done]. injection H as <- <-. bool_facts. split; [done|]. unfold is_char in *.
    rewrite (proj2 (Z.ltb_ge _ 0x80)), (proj2 (Z.ltb_ge _ 0x800)), (proj2 (Z.ltb_lt _ 0x10000)) by lia.
    cbn. repeat f_equal; Z.div_mod_to_equations; lia. }
  destruct s as [|y [|z [|w s]]]; [done..|].
  apply bind_Some in H as (y' & [-> Hy]%continuation_inv & H).
  apply bind_Some in H as (z' & [-> Hz]%continuation_inv & H).
  apply bind_Some in H as (w' & [-> Hw]%continuation_inv & H). cbn in H.
  case_match; [|done]. injection H as <- <-. bool_facts. split; [done|]. unfold is_char in *.
  rewrite (proj2 (Z.ltb_ge _ 0x80)), (proj2 (Z.ltb_ge _ 0x800)), (proj2 (Z.ltb_ge _ 0x10000)) by lia.
  cbn. repeat f_equal; Z.div_mod_to_equations; lia.
Qed.

Lemma next_char_shorter s c rest :
  is_bytes s → next_char s = Some (c, rest) → (length rest < length s)%nat ∧ is_bytes rest.
Proof.
  intros Hs H. destruct (next_char_inv _ _ _ Hs H) as [_ ->].
  apply Forall_app in Hs as [_ Hs]. split; [|done]. rewrite length_app.
  destruct (encode_char c) eqn:E; [by apply encode_char_nonempty in E|cbn; lia].
Qed.

(** ** [from_utf8] *)

Lemma is_str_nil : is_str [].
Proof. by exists []. Qed.

Lemma is_str_cons c s : is_char c → is_str s → is_str (encode_char c ++ s).
Proof. intros Hc (cs & Hcs & ->). exists (c :: cs). by split; [constructor|]. Qed.

Lemma is_str_tail c s : is_char c → is_str (encode_char c ++ s) → is_str s.
Proof.
  intros Hc ([|d cs] & Hcs & E).
  { apply app_nil in E as [?%encode_char_nonempty _]. done. }
  apply Forall_cons in Hcs as [Hd Hcs]. rewrite encode_cons in E.
  pose proof (next_char_encode c s Hc) as H. rewrite E, next_char_encode in H by done.
  simplify_eq. by exists cs.
Qed.

Lemma is_str_head s : is_str s → s ≠ [] → ∃ c rest, next_char s = Some (c, rest).
Proof.
  intros ([|c cs] & Hcs & ->) Hne; [done|]. apply Forall_cons in Hcs as [Hc _].
  exists c, (encode cs). by rewrite encode_cons, next_char_encode.
Qed.

(** It accepts exactly the strings. *)
Lemma validate_none fuel pos s :
  is_bytes s → (length s ≤ fuel)%nat → validate fuel pos s = None ↔ is_str s.
Proof.
  revert pos s. induction fuel as [|fuel IH]; intros pos s Hs Hf.
  { destruct s; [|cbn in Hf; lia]. split; [intros; apply is_str_nil|done]. }
  destruct s as [|b s]; [split; [intros; apply is_str_nil|done]|].
  cbn [validate]. destruct (next_char (b :: s)) as [[c rest]|] eqn:E.
  - destruct (next_char_shorter _ _ _ Hs E) as [Hl Hr].
    destruct (next_char_inv _ _ _ Hs E) as [Hc Heq]. rewrite IH by (done || lia).
    rewrite Heq. split; [by apply is_str_cons|by apply is_str_tail].
  - split; [done|]. intros H. destruct (is_str_head _ H) as (c & rest & ?); [done|congruence].
Qed.

Lemma from_utf8_ok s t : is_bytes s → from_utf8 s = Ok t ↔ t = s ∧ is_str s.
Proof.
  intros Hs. unfold from_utf8. rewrite <-(validate_none (length s) 0 s) by done.
  destruct (validate _ _ _); split; intros H; [done|by destruct H| |by destruct H as [-> _]].
  by simplify_eq.
Qed.

(** What comes before the reported place is a string, and no character starts there. *)
Lemma validate_some fuel pos s e :
  is_bytes s → validate fuel pos s = Some e →
  (pos ≤ valid_up_to e)%nat ∧
  is_str (take (valid_up_to e - pos) s) ∧
  next_char (drop (valid_up_to e - pos) s) = None ∧
  (valid_up_to e - pos < length s)%nat.
Proof.
  revert pos s. induction fuel as [|fuel IH]; intros pos s Hs H; [done|].
  destruct s as [|b s]; [done|]. cbn [validate] in H.
  destruct (next_char (b :: s)) as [[c rest]|] eqn:E; simplify_eq/=.
  - destruct (next_char_shorter _ _ _ Hs E) as [Hl Hr].
    destruct (next_char_inv _ _ _ Hs E) as [Hc Heq].
    destruct (IH _ _ Hr H) as (Hp & Hstr & Hnone & Hlen).
    assert (length (b :: s) = length (encode_char c) + length rest)%nat as Hsum
      by by rewrite Heq, length_app.
    cbn [length] in *. assert (pos + (S (length s) - length rest) = pos + length (encode_char c))%nat
      as Hpos by lia.
    rewrite Hpos in *. split; [lia|].
    replace (valid_up_to e - pos)%nat
      with (length (encode_char c) + (valid_up_to e - (pos + length (encode_char c))))%nat by lia.
    rewrite Heq, take_app_add, drop_app_add. split_and!; [by apply is_str_cons|done|lia].
  - rewrite Nat.sub_diag. split_and!; [done|apply is_str_nil|done|cbn; lia].
Qed.

Lemma from_utf8_err s e :
  is_bytes s → from_utf8 s = Err e →
  is_str (take (valid_up_to e) s) ∧ next_char (drop (valid_up_to e) s) = None ∧
  (valid_up_to e < length s)%nat.
Proof.
  intros Hs H. unfold from_utf8 in H. destruct (validate _ _ _) as [e'|] eqn:E; simplify_eq.
  apply validate_some in E as (_ & H1 & H2 & H3); [|done].
  by rewrite Nat.sub_0_r in *.
Qed.

Lemma from_utf8_total s : from_utf8 s ≠ Panicked.
Proof. unfold from_utf8. by case_match. Qed.

(** ** [from_utf8_lossy] *)

Lemma lossy_chars fuel s : is_bytes s → Forall is_char (lossy fuel s).
Proof.
  revert s. induction fuel as [|fuel IH]; intros s Hs; [constructor|].
  destruct s as [|b s]; [constructor|]. cbn [lossy].
  destruct (next_char (b :: s)) as [[c rest]|] eqn:E.
  - destruct (next_char_inv _ _ _ Hs E) as [Hc _].
    destruct (next_char_shorter _ _ _ Hs E) as [_ Hr]. constructor; auto.
  - constructor; [unfold is_char, REPLACEMENT; lia|]. destruct (error_len _); [|constructor].
    by apply IH, Forall_drop.
Qed.

(** Whatever the bytes, the result is a string. *)
Lemma from_utf8_lossy_is_str s : is_bytes s → is_str (from_utf8_lossy s).
Proof. intros Hs. exists (lossy (length s) s). split; [by apply lossy_chars|done]. Qed.

(** A string comes out as it went in. *)
Lemma lossy_encode fuel cs :
  (length cs ≤ fuel)%nat → Forall is_char cs → lossy fuel (encode cs) = cs.
Proof.
  intros Hf H. revert fuel Hf. induction H as [|c cs Hc _ IH]; intros fuel Hf.
  { by destruct fuel. }
  destruct fuel as [|fuel]; [cbn in Hf; lia|]. rewrite encode_cons. cbn [lossy].
  destruct (encode_char c ++ encode cs) as [|b l] eqn:E.
  { by apply app_nil in E as [?%encode_char_nonempty _]. }
  rewrite <-E, next_char_encode by done. rewrite IH; [done|cbn in Hf; lia].
Qed.

Lemma from_utf8_lossy_id s : is_str s → from_utf8_lossy s = s.
Proof.
  intros (cs & Hcs & ->). unfold from_utf8_lossy.
  by rewrite lossy_encode by (done || apply length_encode).
Qed.

Example lossy_example : from_utf8_lossy [0x50; 0xE0; 0x80; 0x69; 0xF0; 0x90]
  = [0x50] ++ encode_char REPLACEMENT ++ encode_char REPLACEMENT ++ [0x69]
    ++ encode_char REPLACEMENT.
Proof. reflexivity. Qed.

Example from_utf8_error_example : from_utf8 [0x50; 0xE2; 0x82; 0x69]
  = Err (mkUtf8Error 1 (Some 2%nat)).
Proof. reflexivity. Qed.
