(* ===== verification/FloatBits.v ===== *)
(** * The bits of an [f32]: [f32::from_bits] and [to_bits]

    The IEEE binary32 layout: sign, eight exponent bits, 23 mantissa bits.  NaNs are
    one value ([Float32]), so [from_bits] forgets their payload. *)

From S2P Require Import Prelude Words Float32.
Local Open Scope Z_scope.

Definition f32_from_bits (w : Z) : f32 :=
  let s := Z.testbit w 31 in
  let e := Z.shiftr w 23 mod 256 in
  let m := w mod 2 ^ 23 in
  if e =? 0 then
    match m with Zpos p => S754_finite s p (-149) | _ => S754_zero s end
  else if e =? 255 then
    if m =? 0 then S754_infinity s else S754_nan
  else
    match m + 2 ^ 23 with Zpos p => S754_finite s p (e - 150) | _ => S754_zero s end.

Definition sign_bit (s : bool) : Z := if s then 2 ^ 31 else 0.

Definition f32_to_bits (x : f32) : Z :=
  match x with
  | S754_zero s => sign_bit s
  | S754_infinity s => sign_bit s + 255 * 2 ^ 23
  | S754_nan => 0x7FC00000
  | S754_finite s m e =>
      if Z.pos m <? 2 ^ 23 then sign_bit s + Z.pos m
      else sign_bit s + (e + 150) * 2 ^ 23 + (Z.pos m - 2 ^ 23)
  end.

(** A value of the type: finite in canonical form, an infinity, or NaN. *)
Definition f32_wf (x : f32) : Prop :=
  match x with
  | S754_finite _ _ _ => finite32 x
  | _ => True
  end.
#[export] Instance f32_wf_dec x : Decision (f32_wf x).
Proof. destruct x; apply _. Defined.

Lemma testbit_31 w : 0 ≤ w < 2 ^ 32 → Z.testbit w 31 = (2 ^ 31 <=? w).
Proof.
  intros H. rewrite Z.testbit_odd, Z.shiftr_div_pow2 by lia.
  destruct (Z.leb_spec (2 ^ 31) w).
  - by replace (w / 2 ^ 31) with 1 by (Z.div_mod_to_equations; lia).
  - by rewrite Z.div_small by lia.
Qed.

(** The fields of a packed word. *)
Lemma bits_fields s e m :
  0 ≤ e < 256 → 0 ≤ m < 2 ^ 23 →
  let w := sign_bit s + e * 2 ^ 23 + m in
  Z.testbit w 31 = s ∧ Z.shiftr w 23 mod 256 = e ∧ w mod 2 ^ 23 = m ∧ u32 w.
Proof.
  intros He Hm w.
  assert (u32 w) as Hw by (subst w; destruct s; widths; cbn [sign_bit]; lia).
  split_and!; [| | |done].
  - rewrite testbit_31 by (unfold in_unsigned in Hw; lia). subst w.
    destruct s; cbn [sign_bit]; [apply Z.leb_le|apply Z.leb_gt]; lia.
  - rewrite Z.shiftr_div_pow2 by lia. subst w.
    destruct s; cbn [sign_bit]; Z.div_mod_to_equations; lia.
  - subst w. destruct s; cbn [sign_bit]; Z.div_mod_to_equations; lia.
Qed.

Lemma f32_to_bits_range x : f32_wf x → u32 (f32_to_bits x).
Proof.
  destruct x as [s|s| |s m e]; intros H; cbn [f32_to_bits]; widths;
    [destruct s; cbn [sign_bit]; lia..|lia|].
  destruct (finite32_bounds _ _ _ H) as (? & ? & ?).
  case_match; destruct s; cbn [sign_bit] in *; lia.
Qed.

Lemma f32_from_bits_wf w : f32_wf (f32_from_bits w).
Proof.
  unfold f32_from_bits. pose proof (Z.mod_pos_bound w (2 ^ 23) ltac:(lia)).
  pose proof (Z.mod_pos_bound (Z.shiftr w 23) 256 ltac:(lia)).
  destruct (Z.eqb_spec (Z.shiftr w 23 mod 256) 0).
  - destruct (w mod 2 ^ 23) eqn:E; [done| |done]. apply finite32_intro; lia.
  - destruct (Z.eqb_spec (Z.shiftr w 23 mod 256) 255); [by case_match|].
    destruct (w mod 2 ^ 23 + 2 ^ 23) eqn:E; [done| |done].
    apply finite32_intro; lia.
Qed.

(** Reading back what was written. *)
Lemma f32_from_to_bits x : f32_wf x → f32_from_bits (f32_to_bits x) = x.
Proof.
  intros H. unfold f32_from_bits.
  destruct x as [s|s| |s m e]; cbn [f32_to_bits].
  - pose proof (bits_fields s 0 0 ltac:(lia) ltac:(lia)) as (E1 & E2 & E3 & _).
    rewrite Z.add_0_r, Z.mul_0_l, Z.add_0_r in *. by rewrite E1, E2, E3.
  - pose proof (bits_fields s 255 0 ltac:(lia) ltac:(lia)) as (E1 & E2 & E3 & _).
    rewrite Z.add_0_r in *. by rewrite E1, E2, E3.
  - done.
  - destruct (finite32_bounds _ _ _ H) as (Hm & He & Hc).
    destruct (Z.ltb_spec (Z.pos m) (2 ^ 23)).
    + destruct Hc as [->|?]; [|lia].
      pose proof (bits_fields s 0 (Z.pos m) ltac:(lia) ltac:(lia)) as (E1 & E2 & E3 & _).
      rewrite Z.mul_0_l, Z.add_0_r in *. by rewrite E1, E2, E3.
    + pose proof (bits_fields s (e + 150) (Z.pos m - 2 ^ 23) ltac:(lia) ltac:(lia))
        as (E1 & E2 & E3 & _).
      rewrite E1, E2, E3. rewrite (proj2 (Z.eqb_neq _ 0)), (proj2 (Z.eqb_neq _ 255)) by lia.
      replace (Z.pos m - 2 ^ 23 + 2 ^ 23) with (Z.pos m) by lia.
      by replace (e + 150 - 150) with e by lia.
Qed.

Example f32_bits_one : f32_from_bits 0x3F800000 = f32_of_Z 1.
Proof. reflexivity. Qed.
