(* ===== verification/Io.v ===== *)
(** * Reading from a byte stream: [std::io::Read] and parsers over it

    A reader is any type with a [read_exact].  [LawfulRead] is what its documentation
    promises of a success; a [StreamReader] moreover fails only at the end of its
    bytes.  Parsers are commands over the reader, judged by four predicates, each with a
    rule per construct of the language:

    - [sound c G]: what [c] returns is described by the bytes it consumed;
    - [takes c bs a]: with [bs] next, [c] consumes exactly [bs] and returns [a];
    - [refuses c F]: an error of [c] is the reader's, or [F] of the bytes it consumed;
    - [steady c c2]: on a stream that goes on further [c2] does what [c] does, up to the
      end of [c]'s stream; neither unwinds.

    [takes] and [steady] together give [short_is_eof]: a cut-off message is an end of
    file, never a wrong message or another error. *)

From S2P Require Import Prelude Words.
Local Open Scope Z_scope.

(** [io::ErrorKind], the kinds the crate produces or tests. *)
Inductive ErrorKind : Set :=
  | UnexpectedEof
  | InvalidData
  | BrokenPipe
  | TimedOut
  | OtherKind (name : string).

#[export] Instance ErrorKind_eq_dec : EqDecision ErrorKind.
Proof. solve_decision. Defined.

(** [io::Error]: its kind and what its [Display] prints. *)
Record IoError : Set := mkIoError { io_kind : ErrorKind; io_text : string }.

#[export] Instance IoError_eq_dec : EqDecision IoError.
Proof. solve_decision. Defined.

(** [read_exact n] fills a buffer of [n] bytes and returns it. *)
Class Read (R : Type) := read_exact : nat → cmd R IoError bytes.

Class LawfulRead (R : Type) `{!Read R} := {
  unread : R → bytes;
  read_exact_ok n r b r' :
    read_exact n r = (Ok b, r') → unread r = b ++ unread r' ∧ length b = n;
  read_exact_returns n r : (read_exact n r).1 ≠ Panicked;
}.

Class StreamReader (R : Type) `{!Read R, !LawfulRead R} := {
  eof_error : IoError;
  eof_kind : io_kind eof_error = UnexpectedEof;
  read_exact_full n r :
    (n ≤ length (unread r))%nat → ∃ b r', read_exact n r = (Ok b, r');
  read_exact_short n r :
    (length (unread r) < n)%nat → ∃ r', read_exact n r = (Err eof_error, r');
}.

(** [&[u8]] and [io::Cursor<&[u8]>], as the bytes still to be read. *)
Definition slice_eof : IoError := mkIoError UnexpectedEof "failed to fill whole buffer".

#[export] Instance slice_read : Read bytes := λ n s,
  if decide (n ≤ length s)%nat then (Ok (take n s), drop n s) else (Err slice_eof, []).

#[export] Instance slice_lawful : LawfulRead bytes.
Proof.
  refine {| unread := λ s, s |}; unfold read_exact, slice_read.
  - intros n s b s' H. case_decide; simplify_eq. rewrite take_drop, length_take. split; [done|lia].
  - intros n s. by case_decide.
Defined.

#[export] Instance slice_stream : StreamReader bytes.
Proof.
  refine {| eof_error := slice_eof |}; unfold read_exact, slice_read; cbn; [done|..].
  - intros n s ?. rewrite decide_True by done. eauto.
  - intros n s ?. rewrite decide_False by lia. eauto.
Defined.

(** [for _ in 0..n { v.push(c?) }] *)
Fixpoint collect {S E A} (n : nat) (c : cmd S E A) : cmd S E (list A) :=
  match n with
  | O => mret []
  | Datatypes.S n => a ← c; l ← collect n c; mret (a :: l)
  end.

(** [uN::from_be_bytes] of the next bytes. *)
Definition read_be {R} `{!Read R} (n : nat) : cmd R IoError Z :=
  b ← read_exact n; mret (be_val b).

(** ** Commands over a reader *)

Section Parsers.
Context {R : Type} `{!Read R, !LawfulRead R}.
Implicit Types r : R.

Definition bytes_ahead r : Prop := is_bytes (unread r).

Definition sound {E A} (c : cmd R E A) (G : A → bytes → Prop) : Prop :=
  ∀ r a r', bytes_ahead r → c r = (Ok a, r') →
    ∃ bs, G a bs ∧ unread r = bs ++ unread r'.

Definition takes {E A} (c : cmd R E A) (bs : bytes) (a : A) : Prop :=
  ∀ r rest, unread r = bs ++ rest → ∃ r', c r = (Ok a, r') ∧ unread r' = rest.

Lemma bytes_ahead_app r bs rest : bytes_ahead r → unread r = bs ++ rest → is_bytes bs ∧ is_bytes rest.
Proof. unfold bytes_ahead. intros H E. rewrite E in H. by apply Forall_app in H. Qed.

(** *** Soundness *)

Lemma sound_ret {E A} (a : A) (G : A → bytes → Prop) : G a [] → sound (E := E) (mret a) G.
Proof. intros HG r a' r' _ [= <- <-]. by exists []. Qed.

Lemma sound_bind {E A B} (c : cmd R E A) (k : A → cmd R E B)
    (G : A → bytes → Prop) (K : B → bytes → Prop) :
  sound c G →
  (∀ a bs, G a bs → sound (k a) (λ b bs', K b (bs ++ bs'))) →
  sound (c ≫= k) K.
Proof.
  intros Hc Hk r b r'' Hr H. apply bind_ok_inv in H as (a & r' & H1 & H2).
  destruct (Hc r a r' Hr H1) as (bs & HG & E1).
  destruct (bytes_ahead_app _ _ _ Hr E1) as [_ Hr'].
  destruct (Hk a bs HG r' b r'' Hr' H2) as (bs' & HK & E2).
  exists (bs ++ bs'). by rewrite E1, E2, app_assoc.
Qed.

(** Two commands taken as one. *)
Lemma sound_group {E A B C} (c : cmd R E A) (d : A → cmd R E B) (k : B → cmd R E C)
    (G : B → bytes → Prop) (K : C → bytes → Prop) :
  sound (c ≫= d) G →
  (∀ b bs, G b bs → sound (k b) (λ x bs', K x (bs ++ bs'))) →
  sound (a ← c; b ← d a; k b) K.
Proof.
  intros Hc Hk r x r' Hr H. apply (sound_bind _ _ _ _ Hc Hk); [done|].
  rewrite (cmd_bind_assoc c d k r). exact H.
Qed.

Lemma sound_raise {E A} (e : E) (G : A → bytes → Prop) : sound (raise e) G.
Proof. by intros r a r' _ H. Qed.

Lemma sound_lift {E A} (o : outcome E A) (G : A → bytes → Prop) :
  (∀ a, o = Ok a → G a []) → sound (lift o) G.
Proof. intros HG r a r' _ [= Ho <-]. exists []. by split; [apply HG|]. Qed.

Lemma sound_weaken {E A} (c : cmd R E A) (G K : A → bytes → Prop) :
  sound c G → (∀ a bs, G a bs → K a bs) → sound c K.
Proof. intros Hc H r a r' Hr E1. destruct (Hc _ _ _ Hr E1) as (bs & ? & ?). eauto. Qed.

Lemma sound_map_err {E E' A} (f : E → E') (c : cmd R E A) (G : A → bytes → Prop) :
  sound c G → sound (map_err f c) G.
Proof.
  intros Hc r a r' Hr H. apply Hc; [done|]. unfold map_err, catch in H.
  by destruct (c r) as [[b|e|] r1]; simplify_eq/=.
Qed.

Lemma sound_read_exact n : sound (read_exact n) (λ b bs, b = bs ∧ length bs = n ∧ is_bytes bs).
Proof.
  intros r b r' Hr H. destruct (read_exact_ok _ _ _ _ H) as [E1 Hl].
  destruct (bytes_ahead_app _ _ _ Hr E1). eauto.
Qed.

Lemma sound_read_be n :
  sound (read_be n) (λ z bs, bs = be_bytes n z ∧ 0 ≤ z < 256 ^ Z.of_nat n).
Proof.
  eapply sound_bind; [apply sound_read_exact|]. intros b bs (-> & <- & Hb).
  apply sound_ret. rewrite app_nil_r, be_bytes_val by done. split; [done|].
  unfold be_val. rewrite <-(length_reverse bs). by apply le_val_range, Forall_reverse.
Qed.

(** The bytes of a list of items. *)
Definition listed {A} (G : A → bytes → Prop) (n : nat) (l : list A) (bs : bytes) : Prop :=
  length l = n ∧ ∃ bss, Forall2 G l bss ∧ bs = concat bss.

Lemma sound_collect {E A} (c : cmd R E A) (G : A → bytes → Prop) n :
  sound c G → sound (collect n c) (listed G n).
Proof.
  intros Hc. induction n as [|n IH]; cbn [collect].
  { apply sound_ret. split; [done|]. by exists []. }
  eapply sound_bind; [exact Hc|]. intros a bs Ha. eapply sound_bind; [exact IH|].
  intros l bs' (Hl & bss & HF & ->). apply sound_ret. rewrite app_nil_r.
  split; [cbn; by rewrite Hl|]. exists (bs :: bss). by split; [constructor|].
Qed.

(** *** Errors

    An error is one the reader returned, unchanged, or the parser's own, and then the
    bytes consumed are described by [F]. *)

Definition own_error (e : IoError) : Prop := ∃ n r r', read_exact n r = (Err e, r').

Definition refuses {A} (c : cmd R IoError A) (F : IoError → bytes → Prop) : Prop :=
  ∀ r e r', bytes_ahead r → c r = (Err e, r') →
    own_error e ∨ ∃ bs, F e bs ∧ unread r = bs ++ unread r'.

Lemma refuses_ret {A} (a : A) F : refuses (mret a) F.
Proof. by intros r e r' _ H. Qed.

Lemma refuses_raise {A} e (F : IoError → bytes → Prop) : F e [] → refuses (A := A) (raise e) F.
Proof. intros HF r e' r' _ [= <- <-]. right. by exists []. Qed.

Lemma refuses_read_exact n F : refuses (read_exact n) F.
Proof. intros r e r' _ H. left. by exists n, r, r'. Qed.

Lemma refuses_bind {A B} (c : cmd R IoError A) (k : A → cmd R IoError B)
    (G : A → bytes → Prop) (F : IoError → bytes → Prop) :
  refuses c F → sound c G →
  (∀ a bs, G a bs → refuses (k a) (λ e bs', F e (bs ++ bs'))) →
  refuses (c ≫= k) F.
Proof.
  intros Hc Hs Hk r e r' Hr H. unfold mbind, cmd_bind in H.
  destruct (c r) as [[a|e'|] r1] eqn:E; [|simplify_eq; by apply (Hc r)|done].
  destruct (Hs r a r1 Hr E) as (bs & HG & E1).
  destruct (bytes_ahead_app _ _ _ Hr E1) as [_ Hr1].
  destruct (Hk a bs HG r1 e r' Hr1 H) as [?|(bs' & HF & E2)]; [by left|right].
  exists (bs ++ bs'). by rewrite E1, E2, app_assoc.
Qed.

Lemma refuses_read_be n F : refuses (read_be n) F.
Proof.
  eapply refuses_bind; [apply refuses_read_exact|apply sound_read_exact|].
  intros. apply refuses_ret.
Qed.

(** *** Completeness *)

Lemma takes_ret {E A} (a : A) : takes (E := E) (mret a) [] a.
Proof. intros r rest H. by exists r. Qed.

Lemma takes_bind {E A B} (c : cmd R E A) (k : A → cmd R E B) b1 a b2 b :
  takes c b1 a → takes (k a) b2 b → takes (c ≫= k) (b1 ++ b2) b.
Proof.
  intros Hc Hk r rest H. rewrite <-app_assoc in H.
  destruct (Hc _ _ H) as (r' & E1 & H'). rewrite (bind_ok _ _ _ _ _ E1). by apply Hk.
Qed.

Lemma takes_last {E A B} (c : cmd R E A) (k : A → cmd R E B) bs a b :
  takes c bs a → takes (k a) [] b → takes (c ≫= k) bs b.
Proof. intros. rewrite <-(app_nil_r bs). by eapply takes_bind. Qed.

Lemma takes_map_err {E E' A} (f : E → E') (c : cmd R E A) bs a :
  takes c bs a → takes (map_err f c) bs a.
Proof.
  intros Hc r rest H. destruct (Hc _ _ H) as (r' & E1 & H'). exists r'.
  unfold map_err, catch. by rewrite E1.
Qed.

Lemma takes_collect {E A} (c : cmd R E A) l bss :
  Forall2 (λ a bs, takes c bs a) l bss → takes (collect (length l) c) (concat bss) l.
Proof.
  induction 1 as [|a bs l bss Ha _ IH]; cbn; [apply takes_ret|].
  eapply takes_bind; [exact Ha|]. eapply takes_last; [exact IH|]. apply takes_ret.
Qed.

(** With [bs] next, [c] fails with [e], having consumed [bs]. *)
Definition rejects {A} (c : cmd R IoError A) (bs : bytes) (e : IoError) : Prop :=
  ∀ r rest, unread r = bs ++ rest → ∃ r', c r = (Err e, r') ∧ unread r' = rest.

Lemma rejects_raise {A} e : rejects (A := A) (raise e) [] e.
Proof. intros r rest H. by exists r. Qed.

Lemma rejects_after {A B} (c : cmd R IoError A) (k : A → cmd R IoError B) b1 a b2 e :
  takes c b1 a → rejects (k a) b2 e → rejects (c ≫= k) (b1 ++ b2) e.
Proof.
  intros Hc Hk r rest H. rewrite <-app_assoc in H.
  destruct (Hc _ _ H) as (r' & E1 & H'). rewrite (bind_ok _ _ _ _ _ E1). by apply Hk.
Qed.

Lemma rejects_last {A B} (c : cmd R IoError A) (k : A → cmd R IoError B) bs a e :
  takes c bs a → rejects (k a) [] e → rejects (c ≫= k) bs e.
Proof. intros. rewrite <-(app_nil_r bs). by eapply rejects_after. Qed.

Lemma rejects_bind {A B} (c : cmd R IoError A) (k : A → cmd R IoError B) bs e :
  rejects c bs e → rejects (c ≫= k) bs e.
Proof.
  intros Hc r rest H. destruct (Hc _ _ H) as (r' & E1 & H'). exists r'.
  by rewrite (bind_err _ _ _ _ _ E1).
Qed.

(** ** Readers that fail only at the end *)

Section Streams.
Context `{!StreamReader R}.

Lemma takes_read_exact bs : takes (read_exact (length bs)) bs bs.
Proof.
  intros r rest H. destruct (read_exact_full (length bs) r) as (b & r' & E).
  { rewrite H, length_app. lia. }
  destruct (read_exact_ok _ _ _ _ E) as [E1 Hl]. rewrite H in E1.
  apply app_inj_1 in E1 as [-> ->]; [|done]. eauto.
Qed.

Lemma takes_read_be n z : 0 ≤ z < 256 ^ Z.of_nat n → takes (read_be n) (be_bytes n z) z.
Proof.
  intros Hz. unfold read_be. eapply takes_last.
  - rewrite <-(length_be_bytes n z) at 1. apply takes_read_exact.
  - rewrite be_val_bytes_id by done. apply takes_ret.
Qed.

End Streams.
End Parsers.

(** ** Two readers of one stream

    [steady c c2]: with the bytes of [r] ahead and perhaps more behind them, [c2] does
    what [c] does, unless [c] came to the end of the stream. *)

Section Steady.
Context {R R2 : Type} `{!Read R, !LawfulRead R, !StreamReader R}.
Context `{!Read R2, !LawfulRead R2, !StreamReader R2}.

Definition steady {A} (c : cmd R IoError A) (c2 : cmd R2 IoError A) : Prop := ∀ r r2 x,
  unread r2 = unread r ++ x →
  match c r with
  | (Ok a, r') => ∃ r2', c2 r2 = (Ok a, r2') ∧ unread r2' = unread r' ++ x
  | (Err e, _) => e = eof_error (R := R) ∨ ∃ r2', c2 r2 = (Err e, r2')
  | (Panicked, _) => False
  end.

Lemma steady_ret {A} (a : A) : steady (mret a) (mret a).
Proof. intros r r2 x H. by exists r2. Qed.

Lemma steady_raise {A} (e : IoError) : steady (A := A) (raise e) (raise e).
Proof. intros r r2 x H. cbn. eauto. Qed.

Lemma steady_bind {A B} (c : cmd R IoError A) (k : A → cmd R IoError B) c2 k2 :
  steady c c2 → (∀ a, steady (k a) (k2 a)) → steady (c ≫= k) (c2 ≫= k2).
Proof.
  intros Hc Hk r r2 x H. specialize (Hc r r2 x H). unfold mbind, cmd_bind.
  destruct (c r) as [[a|e|] r'].
  - destruct Hc as (r2' & -> & H'). by apply Hk.
  - destruct Hc as [?|(r2' & ->)]; eauto.
  - done.
Qed.

Lemma steady_read_exact n : steady (read_exact n) (read_exact n).
Proof.
  intros r r2 x H. destruct (read_exact n r) as [[b|e|] r'] eqn:E.
  - destruct (read_exact_ok _ _ _ _ E) as [E1 Hl].
    destruct (takes_read_exact b r2 (unread r' ++ x)) as (r2' & E2 & H2).
    { by rewrite H, E1, <-app_assoc. }
    rewrite Hl in E2. eauto.
  - left. destruct (decide (n ≤ length (unread r))%nat) as [Hn|Hn].
    + destruct (read_exact_full n r Hn) as (? & ? & ?). congruence.
    + destruct (read_exact_short n r ltac:(lia)) as (? & ?). congruence.
  - apply (read_exact_returns n r). by rewrite E.
Qed.

Lemma steady_read_be n : steady (read_be n) (read_be n).
Proof. apply steady_bind; [apply steady_read_exact|intros; apply steady_ret]. Qed.

Lemma steady_collect {A} (c : cmd R IoError A) c2 n :
  steady c c2 → steady (collect n c) (collect n c2).
Proof.
  intros Hc. induction n as [|n IH]; cbn [collect]; [apply steady_ret|].
  apply steady_bind; [done|]. intros a. apply steady_bind; [done|].
  intros l. apply steady_ret.
Qed.

(** A proper prefix of a message is an end of file. *)
Lemma short_is_eof {A} (c : cmd R IoError A) (c2 : cmd R2 IoError A) bs a r r2 x :
  steady c c2 → takes c2 bs a → unread r2 = bs → bs = unread r ++ x → x ≠ [] →
  ∃ r', c r = (Err (eof_error (R := R)), r').
Proof.
  intros Hs Ht Hr2 Hbs Hx. specialize (Hs r r2 x ltac:(congruence)).
  destruct (Ht r2 []) as (r2' & E2 & H2); [by rewrite Hr2, app_nil_r|].
  destruct (c r) as [[a'|e|] r'].
  - destruct Hs as (r2'' & E2' & H'). rewrite E2 in E2'. simplify_eq.
    rewrite H2 in H'. symmetry in H'. apply app_nil in H' as [_ ?]. done.
  - destruct Hs as [->|(r2'' & ?)]; [eauto|congruence].
  - done.
Qed.
End Steady.

(** What two readers of the same bytes return, except at the end of the stream. *)
Definition same_result {A} (eof eof' : IoError) (o o' : outcome IoError A) : Prop :=
  o' = o ∨ (o = Err eof ∧ o' = Err eof').

Lemma steady_same {R R2 A} `{StreamReader R} `{StreamReader R2}
    (c : cmd R IoError A) (c2 : cmd R2 IoError A) r r2 :
  steady c c2 → steady c2 c → unread r2 = unread r →
  same_result (eof_error (R := R)) (eof_error (R := R2)) (c r).1 (c2 r2).1 ∧
  (is_ok (c r).1 = true → unread (c2 r2).2 = unread (c r).2).
Proof.
  intros H1 H2 E. specialize (H1 r r2 [] ltac:(by rewrite app_nil_r)).
  specialize (H2 r2 r [] ltac:(by rewrite app_nil_r)). unfold same_result.
  destruct (c r) as [[a|e|] r']; [| |done].
  - destruct H1 as (r2' & -> & Hu). cbn. rewrite Hu, app_nil_r. split; [by left|done].
  - destruct H1 as [->|(r2' & ->)]; [|by split; [left|]].
    destruct (c2 r2) as [[a|e|] r2']; [by destruct H2 as (? & ? & _)| |done].
    split; [|done]. destruct H2 as [->|(? & [= ->])]; [by right|by left].
Qed.

(** Items written by a function. *)
Lemma Forall2_written {A} (P : A → Prop) (f : A → bytes) l bss :
  Forall2 (λ a bs, P a ∧ bs = f a) l bss ↔ Forall P l ∧ bss = f <$> l.
Proof.
  split.
  - induction 1 as [|a bs l bss [Ha ->] _ [Hl ->]]; [by split|]. by split; [constructor|].
  - intros [H ->]. by induction H; cbn; constructor.
Qed.

Lemma concat_fmap {A} (f : A → bytes) l : concat (f <$> l) = l ≫= f.
Proof. induction l; cbn; congruence. Qed.
