(* ===== verification/IoWrite.v ===== *)
(** * Transports from [std::io::Write] ([src/src/error.rs], [src/src/transport/mod.rs])

    Every [io::Write] is a [TransportWrite].  [Write] is the trait of the standard library
    and [LawfulWrite] its documented contract; its provided [write_all] is a loop over
    [write], which may take any part of the buffer or be interrupted.  What the crate asks of
    a transport, [LawfulTransport], is proved of all of them here. *)

From S2P Require Import Prelude Words Errors Types Message Transport Io.
Local Open Scope Z_scope.

Definition Interrupted : ErrorKind := OtherKind "Interrupted".
Definition write_zero : IoError := mkIoError (OtherKind "WriteZero") "failed to write whole buffer".

(** [patience] bounds how often the calls of one [write_all] are interrupted. *)
Class Write (T : Type) := {
  io_write : bytes → cmd T IoError nat;
  io_flush : cmd T IoError unit;
  patience : T → nat;
}.

Class LawfulWrite (T : Type) `{!Write T} := {
  sunk : T → bytes;
  io_write_ok b t n t' :
    io_write b t = (Ok n, t') → (n ≤ length b)%nat ∧ sunk t' = sunk t ++ take n b ∧ (patience t' ≤ patience t)%nat;
  io_write_err b t e t' : io_write b t = (Err e, t') → sunk t' = sunk t;
  io_write_interrupted b t e t' :
    io_write b t = (Err e, t') → io_kind e = Interrupted → (patience t' < patience t)%nat;
  io_write_returns b t : (io_write b t).1 ≠ Panicked;
  io_flush_sunk t : sunk (io_flush t).2 = sunk t;
}.

Section Write.
Context {T : Type} `{!Write T}.

Fixpoint write_loop (fuel : nat) (buf : bytes) : cmd T IoError unit := λ t,
  match fuel with
  | O => (Panicked, t)
  | S fuel =>
      match buf with
      | [] => (Ok tt, t)
      | _ =>
          match io_write buf t with
          | (Ok O, t) => (Err write_zero, t)
          | (Ok n, t) => write_loop fuel (drop n buf) t
          | (Err e, t) => if decide (io_kind e = Interrupted) then write_loop fuel buf t else (Err e, t)
          | (Panicked, t) => (Panicked, t)
          end
      end
  end.

(** The provided [io::Write::write_all]. *)
Definition io_write_all (buf : bytes) : cmd T IoError unit := λ t,
  write_loop (S (length buf + patience t)) buf t.

Definition transport_error (e : IoError) : Error := Transport (io_text e).

(** The blanket implementation. *)
#[export] Instance Write_transport : TransportWrite T := {
  write_all buf := map_err transport_error (io_write_all buf);
  flush := map_err transport_error io_flush;
}.

(** The loop ends, and leaves a prefix of the buffer in the sink: all of it if it succeeds. *)
Lemma write_loop_sinks `{!LawfulWrite T} fuel buf t :
  (length buf + patience t < fuel)%nat →
  let '(o, t') := write_loop fuel buf t in
  o ≠ Panicked ∧ ∃ n, sunk t' = sunk t ++ take n buf ∧ (o = Ok tt → (length buf ≤ n)%nat).
Proof.
  revert buf t. induction fuel as [|fuel IH]; intros buf t Hf; [lia|]. destruct buf as [|x buf].
  { split; [done|]. exists 0%nat. by rewrite app_nil_r. }
  cbn [write_loop]. set (b := x :: buf) in *.
  pose proof (io_write_returns b t) as Hret. destruct (io_write b t) as [[n|e|] t1] eqn:E; [..|by destruct (Hret eq_refl)].
  - destruct (io_write_ok _ _ _ _ E) as (Hn & Hs & Hp). destruct n as [|n].
    { split; [done|]. exists 0%nat. rewrite Hs. by split. }
    specialize (IH (drop (S n) b) t1). rewrite length_drop in IH.
    destruct (write_loop fuel (drop (S n) b) t1) as [o t']. destruct IH as (Ho & m & Hm & Hlen); [lia|].
    split; [done|]. exists (S n + m)%nat. split; [|intros H; specialize (Hlen H); lia].
    rewrite Hm, Hs, <-app_assoc. f_equal. apply take_take_drop.
  - destruct (decide (io_kind e = Interrupted)) as [Hi|Hi].
    + pose proof (io_write_interrupted _ _ _ _ E Hi) as Hp. specialize (IH b t1).
      destruct (write_loop fuel b t1) as [o t']. destruct IH as (Ho & m & Hm & Hlen); [lia|].
      split; [done|]. exists m. by rewrite Hm, (io_write_err _ _ _ _ E).
    + split; [done|]. exists 0%nat. by rewrite (io_write_err _ _ _ _ E), app_nil_r.
Qed.

Lemma write_all_sinks `{!LawfulWrite T} buf t :
  (write_all buf t).1 ≠ Panicked ∧
  ∃ n, sunk (write_all buf t).2 = sunk t ++ take n buf ∧ ((write_all buf t).1 = Ok tt → (length buf ≤ n)%nat).
Proof.
  pose proof (write_loop_sinks (S (length buf + patience t)) buf t ltac:(lia)) as H.
  unfold write_all, Write_transport, map_err, catch, io_write_all.
  destruct (write_loop _ buf t) as [[[]|e|] t']; destruct H as (Ho & n & Hs & Hl); [| |done];
    (split; [done|]; exists n; split; [exact Hs|]); [by intros _; apply Hl|done].
Qed.

#[export] Instance Write_lawful `{!LawfulWrite T} : LawfulTransport T.
Proof.
  refine {| wire := sunk |}.
  - intros t b t' E. destruct (write_all_sinks b t) as (_ & n & Hs & Hl). rewrite E in Hs, Hl.
    cbn [snd] in Hs. by rewrite take_ge in Hs by (by apply Hl).
  - intros t b o t' E _. destruct (write_all_sinks b t) as (_ & n & Hs & _). rewrite E in Hs. by exists n.
  - intros t. unfold flush, Write_transport, map_err, catch. pose proof (io_flush_sunk t) as H.
    by destruct (io_flush t) as [[]].
Defined.
End Write.

(** ** [open_tcp] *)

(** The resolver and the sockets of the system. *)
Class Network (N Addr Stream : Type) := {
  to_socket_addrs : list Z → Z → cmd N IoError (list Addr);
  tcp_connect : Addr → cmd N IoError Stream;
  set_nodelay : Stream → bool → cmd N IoError unit;
}.

Definition no_address : IoError := mkIoError (OtherKind "InvalidInput") "no address".

(** Only the first address is tried; that [set_nodelay] fails does not matter. *)
Definition open_tcp {N Addr Stream} `{!Network N Addr Stream} (host : list Z) (port : Z) : cmd N IoError Stream :=
  addrs ← to_socket_addrs host port;
  addr ← lift (ok_or (head addrs) no_address);
  stream ← tcp_connect addr;
  ignore_err (set_nodelay stream true);;
  mret stream.

(** ** A slow socket *)

(** It takes at most three bytes at a time, and the first call after a flush is interrupted. *)
Record Slow : Set := mkSlow { slow_bytes : bytes; slow_ready : bool }.

#[export] Instance Slow_write : Write Slow := {
  io_write b s :=
    if slow_ready s then (Ok (length (take 3 b)), mkSlow (slow_bytes s ++ take 3 b) true)
    else (Err (mkIoError Interrupted "interrupted"), mkSlow (slow_bytes s) true);
  io_flush := modify (λ s, mkSlow (slow_bytes s) false);
  patience s := if slow_ready s then 0%nat else 1%nat;
}.

#[export] Instance Slow_lawful : LawfulWrite Slow.
Proof.
  refine {| sunk := slow_bytes |}; intros *; try destruct t as [l []]; cbn; try (by intros; simplify_eq/=).
  - intros [= <- <-]. cbn. split_and!; [rewrite length_take; lia|f_equal; rewrite length_take|lia].
    destruct (decide (3 ≤ length b)%nat); [by rewrite Nat.min_l|]. by rewrite Nat.min_r, !take_ge by lia.
  - intros [= <- <-] _. cbn. lia.
Defined.

(** The bytes arrive whole. *)
Example slow_sends :
  send_one (Cm_SetDisplayPower true) (mkSlow [] false) = (Ok tt, mkSlow [10; 1] false) ∧
  ((write_all [1; 2; 3; 4; 5; 6; 7];; flush) (mkSlow [] false)).2 = mkSlow [1; 2; 3; 4; 5; 6; 7] false.
Proof. vm_compute. auto. Qed.
