(* ===== verification/AiSummary.v ===== *)
(** * Frame summaries and statistics of the on-device AI server ([src/src/ai/mod.rs])

    The parsers of the two extension payloads, over a cursor of the payload's bytes;
    the layout they read, written down independently ([frame_wire], [stats_wire]); and
    the envelope reader of this module. *)

From S2P Require Import Prelude Words Float32 FloatBits Format Decimal Errors Io.
Local Open Scope Z_scope.

Definition TYPE_FRAME_SUMMARY : Z := 3.
Definition TYPE_AI_STATS : Z := 4.

Definition FLAG_KEYFRAME : Z := Z.shiftl 1 0.
Definition FLAG_SCENE_CHANGE : Z := Z.shiftl 1 1.
Definition FLAG_MOTION : Z := Z.shiftl 1 2.
Definition FLAG_OBJECTS : Z := Z.shiftl 1 3.
Definition FLAG_TEXT : Z := Z.shiftl 1 4.
Definition FLAG_HAS_JPEG : Z := Z.shiftl 1 5.

Record MotionVector : Set := mkMotionVector { mv_x : Z; mv_y : Z; mv_dx : Z; mv_dy : Z }.
Record ObjectBox : Set := mkObjectBox
  { ob_x : Z; ob_y : Z; ob_w : Z; ob_h : Z; ob_class_id : Z; ob_confidence : Z }.
Record TextRegion : Set := mkTextRegion { tr_x : Z; tr_y : Z; tr_w : Z; tr_h : Z }.

Record FrameSummary : Set := mkFrameSummary
  { fs_timestamp_ms : Z; fs_frame_seq : Z; fs_width : Z; fs_height : Z; fs_flags : Z;
    fs_features : list f32; fs_motion : list MotionVector; fs_objects : list ObjectBox;
    fs_text_regions : list TextRegion }.

Record AiStats : Set := mkAiStats
  { st_uptime_ms : Z; st_frames_sampled : Z; st_frames_skipped_keyframe : Z;
    st_frames_yolo_inferred : Z; st_bytes_summary_emitted : Z; st_avg_latency_ms : f32;
    st_current_fps : f32 }.

Inductive DeviceEnvelope : Set :=
  | Frame (s : FrameSummary)
  | Stats (s : AiStats).

#[export] Instance MotionVector_eq_dec : EqDecision MotionVector.
Proof. solve_decision. Defined.
#[export] Instance ObjectBox_eq_dec : EqDecision ObjectBox.
Proof. solve_decision. Defined.
#[export] Instance TextRegion_eq_dec : EqDecision TextRegion.
Proof. solve_decision. Defined.
#[export] Instance FrameSummary_eq_dec : EqDecision FrameSummary.
Proof. solve_decision. Defined.
#[export] Instance AiStats_eq_dec : EqDecision AiStats.
Proof. solve_decision. Defined.

(** ** The accessors of [FrameSummary] *)

Definition is_keyframe (s : FrameSummary) : bool :=
  negb (Z.land (fs_flags s) FLAG_KEYFRAME =? 0).
Definition is_scene_change (s : FrameSummary) : bool :=
  negb (Z.land (fs_flags s) FLAG_SCENE_CHANGE =? 0).
Definition has_objects (s : FrameSummary) : bool :=
  match fs_objects s with [] => false | _ => true end.
Definition is_moving (s : FrameSummary) : bool :=
  match fs_motion s with [] => false | _ => true end.

Definition describe (s : FrameSummary) : string :=
  "frame#" +:+ pretty (fs_frame_seq s) +:+ " ts=" +:+ pretty (fs_timestamp_ms s) +:+ "ms "
  +:+ pretty (fs_width s) +:+ "x" +:+ pretty (fs_height s) +:+ " flags=0x" +:+ hex2 (fs_flags s)
  +:+ (if is_keyframe s then " KEYFRAME" else "")
  +:+ (if is_scene_change s then " SCENE_CHANGE" else "")
  +:+ (if is_moving s then " MOTION(" +:+ pretty (length (fs_motion s)) +:+ ")" else "")
  +:+ (if has_objects s then " OBJECTS(" +:+ pretty (length (fs_objects s)) +:+ ")" else "")
  +:+ match fs_text_regions s with
      | [] => "" | _ => " TEXT(" +:+ pretty (length (fs_text_regions s)) +:+ ")" end
  +:+ match fs_features s with
      | [] => "" | _ => " features_dim=" +:+ pretty (length (fs_features s)) end.

Definition AiStats_describe (s : AiStats) : string :=
  "uptime=" +:+ pretty (st_uptime_ms s / 1000) +:+ "s sampled=" +:+ pretty (st_frames_sampled s)
  +:+ " yolo=" +:+ pretty (st_frames_yolo_inferred s) +:+ " bytes=" +:+ pretty (st_bytes_summary_emitted s)
  +:+ " avg=" +:+ fmt_fixed 1 (st_avg_latency_ms s) +:+ "ms fps=" +:+ fmt_fixed 1 (st_current_fps s).

(** ** The big-endian readers, over the cursor *)

Abbreviation cursor := (cmd bytes IoError).

Definition io_err (e : IoError) : Error := Transport (io_text e).

Definition read_u8 : cursor Z := read_be 1.
Definition read_u16_be : cursor Z := read_be 2.
Definition read_i16_be : cursor Z := z ← read_be 2; mret (swrap 16 z).
Definition read_u32_be : cursor Z := read_be 4.
Definition read_u64_be : cursor Z := read_be 8.
Definition read_f32_be : cursor f32 := z ← read_be 4; mret (f32_from_bits z).

(** ** The parsers *)

Definition read_motion : cursor MotionVector :=
  x ← read_u16_be; y ← read_u16_be; dx ← read_i16_be; dy ← read_i16_be;
  mret (mkMotionVector x y dx dy).

Definition read_object : cursor ObjectBox :=
  x ← read_u16_be; y ← read_u16_be; w ← read_u16_be; h ← read_u16_be;
  class_id ← read_u8; confidence ← read_u8;
  mret (mkObjectBox x y w h class_id confidence).

Definition read_text_region : cursor TextRegion :=
  x ← read_u16_be; y ← read_u16_be; w ← read_u16_be; h ← read_u16_be;
  mret (mkTextRegion x y w h).

Definition read_frame_fields : cursor FrameSummary :=
  timestamp_ms ← read_u64_be;
  frame_seq ← read_u32_be;
  width ← read_u16_be;
  height ← read_u16_be;
  flags ← read_u8;
  feature_dim ← read_u16_be;
  features ← collect (Z.to_nat feature_dim) read_f32_be;
  num_motion ← read_u16_be;
  motion ← collect (Z.to_nat num_motion) read_motion;
  num_obj ← read_u16_be;
  objects ← collect (Z.to_nat num_obj) read_object;
  num_text ← read_u8;
  text_regions ← collect (Z.to_nat num_text) read_text_region;
  mret (mkFrameSummary timestamp_ms frame_seq width height flags features motion objects
          text_regions).

(** [while cur.position() < payload.len()]: the padding is read 64 bytes at a time.
    A turn reads at least a byte, so the length is more than enough fuel. *)
Fixpoint drain_fuel (fuel : nat) (rest : bytes) : bytes :=
  match fuel, rest with
  | O, _ | _, [] => rest
  | S fuel, _ =>
      let n := Nat.min 64 (length rest) in
      if Nat.eqb n 0 then rest else drain_fuel fuel (drop n rest)
  end.
Definition drain : cursor unit := modify (λ rest, drain_fuel (S (length rest)) rest).

(** Every read maps its error with [io_err], so the whole does. *)
Definition FrameSummary_parse (payload : bytes) : outcome Error FrameSummary :=
  (map_err io_err (s ← read_frame_fields; drain;; mret s) payload).1.

Definition read_stats_fields : cursor AiStats :=
  uptime_ms ← read_u64_be;
  frames_sampled ← read_u32_be;
  frames_skipped_keyframe ← read_u32_be;
  frames_yolo_inferred ← read_u32_be;
  bytes_summary_emitted ← read_u64_be;
  avg_latency_ms ← read_f32_be;
  current_fps ← read_f32_be;
  mret (mkAiStats uptime_ms frames_sampled frames_skipped_keyframe frames_yolo_inferred
          bytes_summary_emitted avg_latency_ms current_fps).

Definition AiStats_parse (payload : bytes) : outcome Error AiStats :=
  (map_err io_err read_stats_fields payload).1.

(** ** The envelope: type, length, payload *)

(** Both an unknown type and a stream that ends inside the header are [None]. *)
Definition read_device_envelope {R} `{!Read R} : cmd R Error (option DeviceEnvelope) :=
  header ← catch (b ← read_exact 5; mret (Some b)) (λ e,
    if decide (io_kind e = UnexpectedEof) then mret None else raise (io_err e));
  match header with
  | None => mret None
  | Some header =>
      let ty := default 0 (header !! 0%nat) in
      let len := be_val (take 4 (drop 1 header)) in
      payload ← map_err io_err (read_exact (Z.to_nat len));
      if ty =? TYPE_FRAME_SUMMARY then
        s ← lift (FrameSummary_parse payload); mret (Some (Frame s))
      else if ty =? TYPE_AI_STATS then
        s ← lift (AiStats_parse payload); mret (Some (Stats s))
      else mret None
  end.

(** ** The layout of the payloads *)

Definition vector_wire (v : MotionVector) : bytes :=
  be_bytes 2 (mv_x v) ++ be_bytes 2 (mv_y v) ++ be_bytes 2 (wrap 16 (mv_dx v))
  ++ be_bytes 2 (wrap 16 (mv_dy v)).
Definition object_wire (o : ObjectBox) : bytes :=
  be_bytes 2 (ob_x o) ++ be_bytes 2 (ob_y o) ++ be_bytes 2 (ob_w o) ++ be_bytes 2 (ob_h o)
  ++ be_bytes 1 (ob_class_id o) ++ be_bytes 1 (ob_confidence o).
Definition region_wire (t : TextRegion) : bytes :=
  be_bytes 2 (tr_x t) ++ be_bytes 2 (tr_y t) ++ be_bytes 2 (tr_w t) ++ be_bytes 2 (tr_h t).

Definition vector_wf (v : MotionVector) : Prop :=
  u16 (mv_x v) ∧ u16 (mv_y v) ∧ i16 (mv_dx v) ∧ i16 (mv_dy v).
Definition object_wf (o : ObjectBox) : Prop :=
  u16 (ob_x o) ∧ u16 (ob_y o) ∧ u16 (ob_w o) ∧ u16 (ob_h o) ∧
  u8 (ob_class_id o) ∧ u8 (ob_confidence o).
Definition region_wf (t : TextRegion) : Prop :=
  u16 (tr_x t) ∧ u16 (tr_y t) ∧ u16 (tr_w t) ∧ u16 (tr_h t).

(** A value of the Rust type whose lists fit their counters. *)
Definition FrameSummary_wf (s : FrameSummary) : Prop :=
  u64 (fs_timestamp_ms s) ∧ u32 (fs_frame_seq s) ∧ u16 (fs_width s) ∧ u16 (fs_height s) ∧
  u8 (fs_flags s) ∧ Forall f32_wf (fs_features s) ∧ Forall vector_wf (fs_motion s) ∧
  Forall object_wf (fs_objects s) ∧ Forall region_wf (fs_text_regions s) ∧
  u16 (Z.of_nat (length (fs_features s))) ∧ u16 (Z.of_nat (length (fs_motion s))) ∧
  u16 (Z.of_nat (length (fs_objects s))) ∧ u8 (Z.of_nat (length (fs_text_regions s))).

Definition AiStats_wf (s : AiStats) : Prop :=
  u64 (st_uptime_ms s) ∧ u32 (st_frames_sampled s) ∧ u32 (st_frames_skipped_keyframe s) ∧
  u32 (st_frames_yolo_inferred s) ∧ u64 (st_bytes_summary_emitted s) ∧
  f32_wf (st_avg_latency_ms s) ∧ f32_wf (st_current_fps s).

(** [ws] are bit patterns of the floats [xs]; a NaN has many. *)
Definition float_words (xs : list f32) (ws : list Z) : Prop :=
  Forall2 (λ x w, u32 w ∧ f32_from_bits w = x) xs ws.

Definition counted {A} (n : nat) (f : A → bytes) (l : list A) : bytes :=
  be_bytes n (Z.of_nat (length l)) ++ (l ≫= f).

Definition frame_layout (s : FrameSummary) (ws : list Z) : bytes :=
  be_bytes 8 (fs_timestamp_ms s) ++ be_bytes 4 (fs_frame_seq s) ++
  be_bytes 2 (fs_width s) ++ be_bytes 2 (fs_height s) ++ be_bytes 1 (fs_flags s) ++
  counted 2 (be_bytes 4) ws ++ counted 2 vector_wire (fs_motion s) ++
  counted 2 object_wire (fs_objects s) ++ counted 1 region_wire (fs_text_regions s).

Definition frame_wire (s : FrameSummary) (bs : bytes) : Prop :=
  FrameSummary_wf s ∧ ∃ ws, float_words (fs_features s) ws ∧ bs = frame_layout s ws.

Definition stats_layout (s : AiStats) (latency fps : Z) : bytes :=
  be_bytes 8 (st_uptime_ms s) ++ be_bytes 4 (st_frames_sampled s) ++
  be_bytes 4 (st_frames_skipped_keyframe s) ++ be_bytes 4 (st_frames_yolo_inferred s) ++
  be_bytes 8 (st_bytes_summary_emitted s) ++ be_bytes 4 latency ++ be_bytes 4 fps.

Definition stats_wire (s : AiStats) (bs : bytes) : Prop :=
  AiStats_wf s ∧ ∃ latency fps,
    float_words [st_avg_latency_ms s; st_current_fps s] [latency; fps] ∧
    bs = stats_layout s latency fps.

(** What a server writes. *)
Definition frame_bytes (s : FrameSummary) : bytes := frame_layout s (f32_to_bits <$> fs_features s).
Definition stats_bytes (s : AiStats) : bytes :=
  stats_layout s (f32_to_bits (st_avg_latency_ms s)) (f32_to_bits (st_current_fps s)).

(** ** The readers against the layout *)

Lemma sound_u8 : sound read_u8 (λ z bs, bs = be_bytes 1 z ∧ u8 z).
Proof. apply (sound_read_be 1). Qed.
Lemma sound_u16 : sound read_u16_be (λ z bs, bs = be_bytes 2 z ∧ u16 z).
Proof. apply (sound_read_be 2). Qed.
Lemma sound_u32 : sound read_u32_be (λ z bs, bs = be_bytes 4 z ∧ u32 z).
Proof. apply (sound_read_be 4). Qed.
Lemma sound_u64 : sound read_u64_be (λ z bs, bs = be_bytes 8 z ∧ u64 z).
Proof. apply (sound_read_be 8). Qed.

Lemma sound_i16 : sound read_i16_be (λ z bs, bs = be_bytes 2 (wrap 16 z) ∧ i16 z).
Proof.
  eapply sound_bind; [apply sound_u16|]. intros z bs [-> Hz]. apply sound_ret.
  rewrite app_nil_r, wrap_swrap by (done || lia). split; [done|by apply swrap_range].
Qed.

Lemma sound_f32 :
  sound read_f32_be (λ x bs, ∃ w, bs = be_bytes 4 w ∧ u32 w ∧ f32_from_bits w = x).
Proof.
  eapply sound_bind; [apply sound_u32|]. intros z bs [-> Hz]. apply sound_ret.
  rewrite app_nil_r. eauto.
Qed.

(** Peel one read off a soundness goal; the rest reads behind it. *)
Ltac sound_next lem := eapply sound_bind; [apply lem|cbv beta; intros].

Lemma sound_motion : sound read_motion (λ v bs, vector_wf v ∧ bs = vector_wire v).
Proof.
  unfold read_motion, vector_wf, vector_wire.
  sound_next sound_u16. sound_next sound_u16. sound_next sound_i16. sound_next sound_i16.
  apply sound_ret. destruct_and!. subst. by rewrite app_nil_r.
Qed.

Lemma sound_object : sound read_object (λ o bs, object_wf o ∧ bs = object_wire o).
Proof.
  unfold read_object, object_wf, object_wire.
  do 4 sound_next sound_u16. do 2 sound_next sound_u8.
  apply sound_ret. destruct_and!. subst. by rewrite app_nil_r.
Qed.

Lemma sound_region : sound read_text_region (λ t bs, region_wf t ∧ bs = region_wire t).
Proof.
  unfold read_text_region, region_wf, region_wire. do 4 sound_next sound_u16.
  apply sound_ret. destruct_and!. subst. by rewrite app_nil_r.
Qed.

(** A counter and its items. *)
Lemma sound_counted {A} n (c : cursor A) (P : A → Prop) (f : A → bytes) :
  sound c (λ a bs, P a ∧ bs = f a) →
  sound (count ← read_be n; collect (Z.to_nat count) c)
    (λ l bs, Forall P l ∧ 0 ≤ Z.of_nat (length l) < 256 ^ Z.of_nat n ∧ bs = counted n f l).
Proof.
  intros Hc. sound_next (sound_read_be n). destruct H as [-> Hn].
  eapply sound_weaken; [by apply sound_collect|].
  intros l bs' (Hl & bss & [HF ->]%Forall2_written & ->).
  unfold counted. rewrite Hl, Z2Nat.id, concat_fmap by lia. done.
Qed.

(** A counter and its floats, with the words they were read from. *)
Lemma sound_floats :
  sound (count ← read_u16_be; collect (Z.to_nat count) read_f32_be)
    (λ xs bs, ∃ ws, float_words xs ws ∧ u16 (Z.of_nat (length xs)) ∧
                    bs = counted 2 (be_bytes 4) ws).
Proof.
  sound_next sound_u16. destruct H as [-> Hn].
  eapply sound_weaken; [apply sound_collect, sound_f32|].
  intros xs bs' (Hl & bss & HF & ->).
  assert (∃ ws, float_words xs ws ∧ bss = be_bytes 4 <$> ws) as (ws & Hws & ->).
  { clear Hl. induction HF as [|x bs xs bss (w & -> & Hw & Hx) _ (ws & IH & ->)].
    { by exists []; split; [constructor|]. }
    exists (w :: ws). by split; [constructor|]. }
  exists ws. unfold counted, float_words in *. rewrite <-(Forall2_length _ _ _ Hws), Hl.
  rewrite Z2Nat.id, concat_fmap by (widths; lia). done.
Qed.

Ltac sound_group lem := eapply sound_group; [apply lem|cbv beta; intros].

Lemma sound_frame_fields : sound read_frame_fields frame_wire.
Proof.
  unfold read_frame_fields.
  sound_next sound_u64. sound_next sound_u32. do 2 sound_next sound_u16. sound_next sound_u8.
  sound_group sound_floats.
  sound_group (sound_counted 2 _ _ _ sound_motion).
  sound_group (sound_counted 2 _ _ _ sound_object).
  sound_group (sound_counted 1 _ _ _ sound_region).
  apply sound_ret. destruct_and!. subst.
  match goal with H : ∃ _, _ |- _ => destruct H as (ws & Hws & Hn & ->) end.
  split.
  - unfold FrameSummary_wf; cbn. split_and!; try done.
    clear -Hws. induction Hws as [|x w xs ws [_ <-] _ IH]; constructor; [|done].
    apply f32_from_bits_wf.
  - exists ws. split; [done|]. unfold frame_layout; cbn. by rewrite app_nil_r.
Qed.

Lemma sound_stats_fields : sound read_stats_fields stats_wire.
Proof.
  unfold read_stats_fields.
  sound_next sound_u64. do 3 sound_next sound_u32. sound_next sound_u64. do 2 sound_next sound_f32.
  apply sound_ret. destruct_and!. subst.
  destruct H4 as (w1 & -> & Hw1 & <-). destruct H5 as (w2 & -> & Hw2 & <-). split.
  - split_and!; [assumption..|apply f32_from_bits_wf|apply f32_from_bits_wf].
  - exists w1, w2. split; [by repeat first [apply Forall2_nil | apply Forall2_cons; split]|].
    unfold stats_layout. by rewrite app_nil_r.
Qed.

Lemma takes_u n z : in_unsigned (8 * Z.of_nat n) z → takes (R := bytes) (read_be n) (be_bytes n z) z.
Proof.
  intros Hz. apply takes_read_be. unfold in_unsigned in Hz. rewrite Z.pow_mul_r in Hz by lia.
  exact Hz.
Qed.

Lemma takes_i16 z : i16 z → takes read_i16_be (be_bytes 2 (wrap 16 z)) z.
Proof.
  intros Hz. unfold read_i16_be. eapply takes_last; [apply takes_u, wrap_range; lia|].
  rewrite swrap_wrap, swrap_small by (done || lia). apply takes_ret.
Qed.

Lemma takes_f32 x w : u32 w → f32_from_bits w = x → takes read_f32_be (be_bytes 4 w) x.
Proof.
  intros Hw <-. unfold read_f32_be. eapply takes_last; [by apply takes_u|]. apply takes_ret.
Qed.

Ltac takes_next lem := eapply takes_bind; [by apply lem|].

Lemma takes_motion v : vector_wf v → takes read_motion (vector_wire v) v.
Proof.
  intros (? & ? & ? & ?). destruct v. unfold read_motion, vector_wire.
  do 2 takes_next (takes_u 2). takes_next takes_i16. eapply takes_last; [by apply takes_i16|].
  apply takes_ret.
Qed.

Lemma takes_object o : object_wf o → takes read_object (object_wire o) o.
Proof.
  intros (? & ? & ? & ? & ? & ?). destruct o. unfold read_object, object_wire.
  do 4 takes_next (takes_u 2). takes_next (takes_u 1). eapply takes_last; [by apply (takes_u 1)|].
  apply takes_ret.
Qed.

Lemma takes_region t : region_wf t → takes read_text_region (region_wire t) t.
Proof.
  intros (? & ? & ? & ?). destruct t. unfold read_text_region, region_wire.
  do 3 takes_next (takes_u 2). eapply takes_last; [by apply (takes_u 2)|]. apply takes_ret.
Qed.

Lemma takes_items {A} (c : cursor A) (P : A → Prop) (f : A → bytes) l :
  (∀ a, P a → takes c (f a) a) → Forall P l →
  takes (collect (Z.to_nat (Z.of_nat (length l))) c) (l ≫= f) l.
Proof.
  intros Hc Hl. rewrite Nat2Z.id, <-concat_fmap. apply takes_collect.
  induction Hl; constructor; auto.
Qed.

Lemma takes_floats xs ws :
  float_words xs ws →
  takes (collect (Z.to_nat (Z.of_nat (length ws))) read_f32_be) (ws ≫= be_bytes 4) xs.
Proof.
  intros H. rewrite Nat2Z.id, <-concat_fmap, <-(Forall2_length _ _ _ H). apply takes_collect.
  induction H as [|x w xs ws [] _ IH]; constructor; [by apply takes_f32|done].
Qed.

Lemma takes_frame_fields s bs : frame_wire s bs → takes read_frame_fields bs s.
Proof.
  intros ((? & ? & ? & ? & ? & _ & Hm & Ho & Ht & ? & ? & ? & ?) & ws & Hws & ->).
  destruct s. cbn in *. rewrite (Forall2_length _ _ _ Hws) in *.
  unfold read_frame_fields, frame_layout, counted. cbn. rewrite <-!app_assoc.
  takes_next (takes_u 8). takes_next (takes_u 4). do 2 takes_next (takes_u 2).
  takes_next (takes_u 1).
  takes_next (takes_u 2). takes_next takes_floats.
  takes_next (takes_u 2). eapply takes_bind; [exact (takes_items _ _ _ _ takes_motion Hm)|].
  takes_next (takes_u 2). eapply takes_bind; [exact (takes_items _ _ _ _ takes_object Ho)|].
  takes_next (takes_u 1). eapply takes_last; [exact (takes_items _ _ _ _ takes_region Ht)|].
  apply takes_ret.
Qed.

Lemma takes_stats_fields s bs : stats_wire s bs → takes read_stats_fields bs s.
Proof.
  intros ((? & ? & ? & ? & ? & _ & _) & w1 & w2 & Hws & ->). destruct s. cbn in *.
  apply Forall2_cons in Hws as [[? ?] Hws]. apply Forall2_cons in Hws as [[? ?] _].
  unfold read_stats_fields, stats_layout. cbn.
  takes_next (takes_u 8). do 3 takes_next (takes_u 4). takes_next (takes_u 8).
  takes_next takes_f32. eapply takes_last; [by apply takes_f32|]. apply takes_ret.
Qed.

(** The cursor's only error is its end. *)
Definition only_eof {A} (c : cursor A) : Prop :=
  ∀ s, match (c s).1 with Ok _ => True | Err e => e = slice_eof | Panicked => False end.

Lemma only_eof_ret {A} (a : A) : only_eof (mret a).
Proof. by intros s. Qed.

Lemma only_eof_bind {A B} (c : cursor A) (k : A → cursor B) :
  only_eof c → (∀ a, only_eof (k a)) → only_eof (c ≫= k).
Proof.
  intros Hc Hk s. specialize (Hc s). unfold mbind, cmd_bind.
  destruct (c s) as [[a|e|] s']; [apply Hk|done|done].
Qed.

Lemma only_eof_read_be n : only_eof (read_be n).
Proof.
  apply only_eof_bind; [|intros; apply only_eof_ret].
  intros s. unfold read_exact, slice_read. by case_decide.
Qed.

Lemma only_eof_collect {A} (c : cursor A) n : only_eof c → only_eof (collect n c).
Proof.
  intros Hc. induction n as [|n IH]; [apply only_eof_ret|].
  apply only_eof_bind; [done|]. intros a. apply only_eof_bind; [done|].
  intros; apply only_eof_ret.
Qed.

Ltac only_eof := repeat first
  [ apply only_eof_ret | apply only_eof_read_be | apply only_eof_collect
  | apply only_eof_bind; [|intros] ].

Lemma only_eof_frame_fields : only_eof read_frame_fields.
Proof.
  unfold read_frame_fields, read_motion, read_object, read_text_region, read_f32_be, read_i16_be.
  only_eof.
Qed.

Lemma only_eof_stats_fields : only_eof read_stats_fields.
Proof. unfold read_stats_fields, read_f32_be. only_eof. Qed.

(** ** The parsers accept exactly the layouts *)

Lemma drain_fuel_empty fuel s : (length s < fuel)%nat → drain_fuel fuel s = [].
Proof.
  revert s. induction fuel as [|fuel IH]; intros s H; [lia|].
  destruct s as [|b s]; [done|]. cbn [drain_fuel].
  destruct (Nat.min 64 (length (b :: s))) as [|n] eqn:E; [cbn in E; lia|].
  cbn [Nat.eqb]. apply IH. rewrite length_drop. cbn [length] in *. lia.
Qed.

(** The padding loop reads to the end, whatever is there. *)
Lemma drain_run s : drain s = (Ok tt, []).
Proof. unfold drain. run. by rewrite drain_fuel_empty by lia. Qed.

Definition parse_failure : Error := Transport "failed to fill whole buffer".

Lemma parse_fields {A} (c : cursor A) (G : A → bytes → Prop) payload :
  is_bytes payload → sound c G → (∀ a bs, G a bs → takes c bs a) → only_eof c →
  match (map_err io_err c payload).1 with
  | Ok a => ∃ bs pad, G a bs ∧ payload = bs ++ pad
  | Err e => e = parse_failure ∧ ∀ a bs pad, G a bs → payload ≠ bs ++ pad
  | Panicked => False
  end.
Proof.
  intros Hb Hs Ht Ho. specialize (Ho payload). unfold map_err, catch.
  destruct (c payload) as [[a|e|] rest] eqn:E; cbn in Ho |- *; [| |done].
  - destruct (Hs payload a rest Hb E) as (bs & HG & Heq). eauto.
  - subst e. split; [done|]. intros a bs pad HG Heq.
    destruct (Ht a bs HG payload pad Heq) as (? & ? & _). congruence.
Qed.

Lemma FrameSummary_parse_spec payload :
  is_bytes payload →
  match FrameSummary_parse payload with
  | Ok s => ∃ bs pad, frame_wire s bs ∧ payload = bs ++ pad
  | Err e => e = parse_failure ∧ ∀ s bs pad, frame_wire s bs → payload ≠ bs ++ pad
  | Panicked => False
  end.
Proof.
  intros Hb.
  pose proof (parse_fields _ _ _ Hb sound_frame_fields takes_frame_fields only_eof_frame_fields) as H.
  unfold FrameSummary_parse. unfold map_err, catch in *. unfold mbind, cmd_bind.
  destruct (read_frame_fields payload) as [[a|e|] rest]; [|done|done].
  rewrite drain_run. exact H.
Qed.

Lemma AiStats_parse_spec payload :
  is_bytes payload →
  match AiStats_parse payload with
  | Ok s => ∃ bs pad, stats_wire s bs ∧ payload = bs ++ pad
  | Err e => e = parse_failure ∧ ∀ s bs pad, stats_wire s bs → payload ≠ bs ++ pad
  | Panicked => False
  end.
Proof.
  intros Hb. exact (parse_fields _ _ _ Hb sound_stats_fields takes_stats_fields only_eof_stats_fields).
Qed.

Lemma FrameSummary_parse_wire s bs pad :
  frame_wire s bs → FrameSummary_parse (bs ++ pad) = Ok s.
Proof.
  intros H. destruct (takes_frame_fields s bs H (bs ++ pad) pad eq_refl) as (rest & E & _).
  unfold FrameSummary_parse, map_err, catch, mbind, cmd_bind. by rewrite E, drain_run.
Qed.

Lemma AiStats_parse_wire s bs pad :
  stats_wire s bs → AiStats_parse (bs ++ pad) = Ok s.
Proof.
  intros H. destruct (takes_stats_fields s bs H (bs ++ pad) pad eq_refl) as (rest & E & _).
  unfold AiStats_parse, map_err, catch. by rewrite E.
Qed.

(** What a server writes has the layout. *)
Lemma float_words_bits xs : Forall f32_wf xs → float_words xs (f32_to_bits <$> xs).
Proof.
  induction 1; constructor; [|done].
  split; [by apply f32_to_bits_range|by apply f32_from_to_bits].
Qed.

Lemma frame_bytes_wire s : FrameSummary_wf s → frame_wire s (frame_bytes s).
Proof.
  intros H. split; [done|]. eexists; split; [|done]. apply float_words_bits, H.
Qed.

Lemma stats_bytes_wire s : AiStats_wf s → stats_wire s (stats_bytes s).
Proof.
  intros H. split; [done|]. eexists _, _; split; [|done].
  apply (float_words_bits [_; _]). repeat constructor; apply H.
Qed.

(** Both layouts are byte lists. *)
Lemma is_bytes_bind {A} (f : A → bytes) l : (∀ a, is_bytes (f a)) → is_bytes (l ≫= f).
Proof. intros Hf. induction l; [constructor|]. cbn. by apply Forall_app; split; [apply Hf|]. Qed.

Lemma frame_wire_bytes s bs : frame_wire s bs → is_bytes bs.
Proof.
  intros (_ & ws & _ & ->). unfold frame_layout, counted, is_bytes.
  repeat (apply Forall_app; split); try apply is_bytes_be_bytes;
    apply is_bytes_bind; intros; unfold vector_wire, object_wire, region_wire, is_bytes;
    repeat (apply Forall_app; split); apply is_bytes_be_bytes.
Qed.

Lemma stats_wire_bytes s bs : stats_wire s bs → is_bytes bs.
Proof.
  intros (_ & w1 & w2 & _ & ->). unfold stats_layout, is_bytes.
  repeat (apply Forall_app; split); apply is_bytes_be_bytes.
Qed.

(** Which AI payloads are accepted, and as what.  A payload parses exactly when it
    begins with the layout of a well-formed value (any bit patterns of its floats), and
    it parses to that value, whatever padding follows (the loop that skips it ends);
    any other payload is refused as cut short.  Neither parser unwinds. *)
Theorem ai_parsers_accept_layouts (payload : bytes) (Hb : is_bytes payload) :
  (match FrameSummary_parse payload with
   | Ok s => ∃ bs pad, frame_wire s bs ∧ payload = bs ++ pad
   | Err e => e = parse_failure ∧ ∀ s bs pad, frame_wire s bs → payload ≠ bs ++ pad
   | Panicked => False
   end) ∧
  (match AiStats_parse payload with
   | Ok s => ∃ bs pad, stats_wire s bs ∧ payload = bs ++ pad
   | Err e => e = parse_failure ∧ ∀ s bs pad, stats_wire s bs → payload ≠ bs ++ pad
   | Panicked => False
   end) ∧
  (∀ s bs pad, frame_wire s bs → payload = bs ++ pad → FrameSummary_parse payload = Ok s) ∧
  (∀ s bs pad, stats_wire s bs → payload = bs ++ pad → AiStats_parse payload = Ok s).
Proof.
  split_and!; [by apply FrameSummary_parse_spec|by apply AiStats_parse_spec|..];
    intros s bs pad Hw ->; [by apply FrameSummary_parse_wire|by apply AiStats_parse_wire].
Qed.

Definition sample_frame : FrameSummary :=
  mkFrameSummary 1700000000000 42 1080 2400 13 [f32_of_Z 1] [mkMotionVector 100 200 5 (-3)]
    [mkObjectBox 50 60 200 40 0 200] [].

Lemma sample_frame_wf : FrameSummary_wf sample_frame.
Proof. apply (bool_decide_unpack _). vm_compute. exact I. Qed.

Lemma ai_parsers_accept_layouts_witness :
  FrameSummary_parse (frame_bytes sample_frame ++ [0; 0; 0]) = Ok sample_frame.
Proof.
  apply (ai_parsers_accept_layouts (frame_bytes sample_frame ++ [0; 0; 0]))
    with (bs := frame_bytes sample_frame) (pad := [0; 0; 0]).
  - apply (bool_decide_unpack _). vm_compute. exact I.
  - apply frame_bytes_wire, sample_frame_wf.
  - reflexivity.
Defined.

(** ** The envelope *)

Section Envelope.
Context {R : Type} `{!Read R, !LawfulRead R, !StreamReader R}.

Definition envelope_result (ty : Z) (payload : bytes) : outcome Error (option DeviceEnvelope) :=
  if ty =? TYPE_FRAME_SUMMARY then s ← FrameSummary_parse payload; Ok (Some (Frame s))
  else if ty =? TYPE_AI_STATS then s ← AiStats_parse payload; Ok (Some (Stats s))
  else Ok None.

Lemma envelope_run ty payload rest (r : R) :
  u8 ty → u32 (Z.of_nat (length payload)) →
  unread r = (be_bytes 1 ty ++ be_bytes 4 (Z.of_nat (length payload))) ++ payload ++ rest →
  ∃ r', read_device_envelope r = (envelope_result ty payload, r') ∧ unread r' = rest.
Proof.
  intros Hty Hlen Hr. unfold read_device_envelope, catch, map_err, catch, mbind, cmd_bind.
  destruct (takes_read_exact _ r _ Hr) as (r1 & E1 & H1).
  rewrite length_app, !length_be_bytes in E1. cbn [Nat.add] in E1. rewrite E1.
  unfold mret, cmd_ret.
  cbv iota zeta. rewrite be_bytes_1 by done. cbn [app drop lookup list_lookup default from_option].
  rewrite drop_0, firstn_all2 by (rewrite length_be_bytes; lia). change (id ty) with ty.
  rewrite be_val_bytes_id by (widths; lia). rewrite Nat2Z.id.
  destruct (takes_read_exact _ r1 _ H1) as (r2 & E2 & H2). rewrite E2.
  exists r2. split; [|done]. unfold envelope_result, lift.
  destruct (ty =? TYPE_FRAME_SUMMARY); [by destruct (FrameSummary_parse payload)|].
  destruct (ty =? TYPE_AI_STATS); [by destruct (AiStats_parse payload)|done].
Qed.

(** The end of the stream, even inside a header, looks like an unknown message. *)
Lemma envelope_short (r : R) :
  (length (unread r) < 5)%nat → ∃ r', read_device_envelope r = (Ok None, r').
Proof.
  intros H. destruct (read_exact_short 5 r H) as (r' & E). exists r'.
  unfold read_device_envelope, catch, mbind, cmd_bind. rewrite E.
  by rewrite decide_True by apply eof_kind.
Qed.
End Envelope.
