(* ===== verification/Device.v ===== *)
(** * Messages from the device ([src/src/device.rs]): the decoders

    The native scrcpy messages and the AI extension's envelopes, read from any byte
    stream; the layout of each, written down independently ([message_wire],
    [event_wire]) and what a malformed message is ([malformed]). *)

From S2P Require Import Prelude Words Utf8 Utf8Lossy Format Float32 FloatBits Decimal Errors Io AiSummary.
Local Open Scope Z_scope.

Definition DEVICE_MSG_MAX_SIZE : Z := Z.shiftl 1 18.
Definition DEVICE_MSG_TEXT_MAX_LENGTH : Z := DEVICE_MSG_MAX_SIZE - 5.
Definition TYPE_CLIPBOARD : Z := 0.
Definition TYPE_ACK_CLIPBOARD : Z := 1.
Definition TYPE_UHID_OUTPUT : Z := 2.
Definition DEFAULT_DEVICE_MESSAGE_BOUND : nat := 64.
Definition DEVICE_NAME_FIELD_LENGTH : nat := 64.

Record ScrcpyControlPrefix : Set := mkControlPrefix
  { dummy_byte : Z; device_name : str; raw_device_name : bytes }.

Inductive DeviceMessage : Set :=
  | Clipboard (text : str)
  | AckClipboard (sequence : Z)
  | UhidOutput (id : Z) (data : bytes).

Inductive DeviceEvent : Set :=
  | Native (m : DeviceMessage)
  | Ev_FrameSummary (s : FrameSummary)
  | Ev_AiStats (s : AiStats)
  | UnknownEnvelope (msg_type : Z) (payload : bytes).

#[export] Instance DeviceMessage_eq_dec : EqDecision DeviceMessage.
Proof. solve_decision. Defined.
#[export] Instance DeviceEvent_eq_dec : EqDecision DeviceEvent.
Proof. solve_decision. Defined.

Definition DeviceMessage_msg_type (m : DeviceMessage) : Z :=
  match m with
  | Clipboard _ => TYPE_CLIPBOARD
  | AckClipboard _ => TYPE_ACK_CLIPBOARD
  | UhidOutput _ _ => TYPE_UHID_OUTPUT
  end.

Definition DeviceMessage_describe (m : DeviceMessage) : string :=
  match m with
  | Clipboard text => "DEVICE_MSG_CLIPBOARD len=" +:+ pretty (length text)
  | AckClipboard sequence => "DEVICE_MSG_ACK_CLIPBOARD seq=" +:+ pretty sequence
  | UhidOutput id data =>
      "DEVICE_MSG_UHID_OUTPUT id=" +:+ pretty id +:+ " size=" +:+ pretty (length data)
  end.

Definition DeviceEvent_msg_type (e : DeviceEvent) : Z :=
  match e with
  | Native m => DeviceMessage_msg_type m
  | Ev_FrameSummary _ => TYPE_FRAME_SUMMARY
  | Ev_AiStats _ => TYPE_AI_STATS
  | UnknownEnvelope msg_type _ => msg_type
  end.

Definition DeviceEvent_describe (e : DeviceEvent) : string :=
  match e with
  | Native m => DeviceMessage_describe m
  | Ev_FrameSummary s =>
      "DEVICE_EVT_FRAME_SUMMARY frame#" +:+ pretty (fs_frame_seq s) +:+ " " +:+ pretty (fs_width s)
      +:+ "x" +:+ pretty (fs_height s) +:+ " objects=" +:+ pretty (length (fs_objects s))
      +:+ " text=" +:+ pretty (length (fs_text_regions s))
  | Ev_AiStats s =>
      "DEVICE_EVT_AI_STATS sampled=" +:+ pretty (st_frames_sampled s) +:+ " fps="
      +:+ fmt_fixed 2 (st_current_fps s) +:+ " latency_ms=" +:+ fmt_fixed 2 (st_avg_latency_ms s)
  | UnknownEnvelope msg_type payload =>
      "DEVICE_EVT_UNKNOWN_ENVELOPE type=" +:+ pretty msg_type +:+ " len=" +:+ pretty (length payload)
  end.

(** [From<DeviceMessage>] *)
Definition DeviceEvent_from : DeviceMessage → DeviceEvent := Native.

(** ** The readers *)

Section Readers.
Context {R : Type} `{!Read R}.

Definition invalid_data (msg : string) : IoError := mkIoError InvalidData msg.
Definition ai_error_to_io (err : Error) : IoError := invalid_data (Error_display err).

Definition read_u8 : cmd R IoError Z := read_be 1.
Definition read_u16_be : cmd R IoError Z := read_be 2.
Definition read_u32_be : cmd R IoError Z := read_be 4.
Definition read_u64_be : cmd R IoError Z := read_be 8.

(** [let mut v = vec![0; len]; if len > 0 { reader.read_exact(&mut v)? }] *)
Definition read_payload (len : Z) : cmd R IoError bytes :=
  if 0 <? len then read_exact (Z.to_nat len) else mret [].

Definition too_large (what : string) (len : Z) : IoError :=
  invalid_data (what +:+ " payload too large: " +:+ pretty len +:+ " bytes (max "
                +:+ pretty DEVICE_MSG_TEXT_MAX_LENGTH +:+ ")").

Definition read_clipboard : cmd R IoError DeviceMessage :=
  len ← read_u32_be;
  if DEVICE_MSG_TEXT_MAX_LENGTH <? len then raise (too_large "clipboard" len)
  else
    payload ← read_payload len;
    match from_utf8 payload with
    | Ok text => mret (Clipboard text)
    | Err e => raise (invalid_data (Utf8Error_display e))
    | Panicked => unwind
    end.

Definition read_ack_clipboard : cmd R IoError DeviceMessage :=
  sequence ← read_u64_be; mret (AckClipboard sequence).

Definition read_uhid_output : cmd R IoError DeviceMessage :=
  id ← read_u16_be;
  size ← read_u16_be;
  if DEVICE_MSG_MAX_SIZE - 5 <? size then raise (too_large "uhid output" size)
  else
    data ← read_payload size;
    mret (UhidOutput id data).

Definition ai_result {A} (f : A → DeviceEvent) (o : outcome Error A) : cmd R IoError DeviceEvent :=
  match o with
  | Ok a => mret (f a)
  | Err e => raise (ai_error_to_io e)
  | Panicked => unwind
  end.

Definition read_ai_or_unknown_envelope (ty : Z) : cmd R IoError DeviceEvent :=
  len ← read_u32_be;
  if DEVICE_MSG_MAX_SIZE - 5 <? len then raise (too_large "device event" len)
  else
    payload ← read_payload len;
    if ty =? TYPE_FRAME_SUMMARY then ai_result Ev_FrameSummary (FrameSummary_parse payload)
    else if ty =? TYPE_AI_STATS then ai_result Ev_AiStats (AiStats_parse payload)
    else mret (UnknownEnvelope ty payload).

Definition read_device_message : cmd R IoError DeviceMessage :=
  ty ← read_u8;
  if ty =? TYPE_CLIPBOARD then read_clipboard
  else if ty =? TYPE_ACK_CLIPBOARD then read_ack_clipboard
  else if ty =? TYPE_UHID_OUTPUT then read_uhid_output
  else raise (invalid_data ("unknown device message type " +:+ pretty ty)).

Definition read_device_event : cmd R IoError DeviceEvent :=
  ty ← read_u8;
  if ty =? TYPE_CLIPBOARD then m ← read_clipboard; mret (Native m)
  else if ty =? TYPE_ACK_CLIPBOARD then m ← read_ack_clipboard; mret (Native m)
  else if ty =? TYPE_UHID_OUTPUT then m ← read_uhid_output; mret (Native m)
  else read_ai_or_unknown_envelope ty.

(** [raw.iter().position(|&b| b == 0).unwrap_or(64)] *)
Definition name_len (raw : bytes) : nat :=
  match list_find (λ b, b = 0) raw with
  | Some (i, _) => i
  | None => DEVICE_NAME_FIELD_LENGTH
  end.

(** The out-of-band prefix: a dummy byte and a name padded with zeros. *)
Definition read_scrcpy_control_prefix : cmd R IoError ScrcpyControlPrefix :=
  dummy_byte ← read_u8;
  raw_device_name ← read_exact DEVICE_NAME_FIELD_LENGTH;
  mret (mkControlPrefix dummy_byte
          (from_utf8_lossy (take (name_len raw_device_name) raw_device_name)) raw_device_name).

(** [DeviceMessageReceiver]: the reader and its methods. *)
Record DeviceMessageReceiver : Type := DeviceMessageReceiver_new { reader : R }.

Definition on_reader {A} (c : cmd R IoError A) : cmd DeviceMessageReceiver IoError A :=
  zoom reader (λ r _, DeviceMessageReceiver_new r) c.
Definition read_next : cmd DeviceMessageReceiver IoError DeviceMessage :=
  on_reader read_device_message.
Definition read_next_event : cmd DeviceMessageReceiver IoError DeviceEvent :=
  on_reader read_device_event.
Definition receiver_into_inner (rx : DeviceMessageReceiver) : R := reader rx.
End Readers.
Arguments DeviceMessageReceiver R : clear implicits.

(** ** The layout of the messages *)

Definition message_wf (m : DeviceMessage) : Prop :=
  match m with
  | Clipboard text => is_str text ∧ Z.of_nat (length text) ≤ DEVICE_MSG_TEXT_MAX_LENGTH
  | AckClipboard sequence => u64 sequence
  | UhidOutput id data => u16 id ∧ is_bytes data ∧ u16 (Z.of_nat (length data))
  end.

(** A length of [n] bytes and that many bytes. *)
Definition prefixed (n : nat) (l : bytes) : bytes := be_bytes n (Z.of_nat (length l)) ++ l.

Definition message_wire (m : DeviceMessage) : bytes :=
  be_bytes 1 (DeviceMessage_msg_type m) ++
  match m with
  | Clipboard text => prefixed 4 text
  | AckClipboard sequence => be_bytes 8 sequence
  | UhidOutput id data => be_bytes 2 id ++ prefixed 2 data
  end.

(** A payload an envelope can hold. *)
Definition fits_envelope (payload : bytes) : Prop :=
  is_bytes payload ∧ Z.of_nat (length payload) ≤ DEVICE_MSG_MAX_SIZE - 5.

Definition envelope (ty : Z) (payload : bytes) : bytes := be_bytes 1 ty ++ prefixed 4 payload.

Inductive event_wire : DeviceEvent → bytes → Prop :=
  | native_wire m : message_wf m → event_wire (Native m) (message_wire m)
  | summary_wire s bs pad :
      frame_wire s bs → fits_envelope (bs ++ pad) →
      event_wire (Ev_FrameSummary s) (envelope TYPE_FRAME_SUMMARY (bs ++ pad))
  | ai_stats_wire s bs pad :
      stats_wire s bs → fits_envelope (bs ++ pad) →
      event_wire (Ev_AiStats s) (envelope TYPE_AI_STATS (bs ++ pad))
  | unknown_wire ty payload :
      5 ≤ ty < 256 → fits_envelope payload →
      event_wire (UnknownEnvelope ty payload) (envelope ty payload).

(** What the readers refuse, with the bytes they consume and the error they give. *)
Inductive malformed : IoError → bytes → Prop :=
  | clipboard_too_large len :
      DEVICE_MSG_TEXT_MAX_LENGTH < len < 2 ^ 32 →
      malformed (too_large "clipboard" len) (be_bytes 1 TYPE_CLIPBOARD ++ be_bytes 4 len)
  | clipboard_not_utf8 payload e :
      fits_envelope payload → from_utf8 payload = Err e →
      malformed (invalid_data (Utf8Error_display e)) (envelope TYPE_CLIPBOARD payload)
  | envelope_too_large ty len :
      3 ≤ ty < 256 → DEVICE_MSG_MAX_SIZE - 5 < len < 2 ^ 32 →
      malformed (too_large "device event" len) (be_bytes 1 ty ++ be_bytes 4 len)
  | summary_cut_short payload :
      fits_envelope payload → (∀ s bs pad, frame_wire s bs → payload ≠ bs ++ pad) →
      malformed (ai_error_to_io parse_failure) (envelope TYPE_FRAME_SUMMARY payload)
  | stats_cut_short payload :
      fits_envelope payload → (∀ s bs pad, stats_wire s bs → payload ≠ bs ++ pad) →
      malformed (ai_error_to_io parse_failure) (envelope TYPE_AI_STATS payload).

(** ** The readers against the layout *)

Lemma max_payload_u32 n : n ≤ DEVICE_MSG_MAX_SIZE - 5 → n < 2 ^ 32.
Proof. unfold DEVICE_MSG_MAX_SIZE. change (Z.shiftl 1 18) with 262144. lia. Qed.

Section Sound.
Context {R : Type} `{!Read R, !LawfulRead R}.
Implicit Types r : R.

Lemma sound_read_payload len :
  0 ≤ len →
  sound (read_payload (R := R) len)
    (λ b bs, b = bs ∧ Z.of_nat (length bs) = len ∧ is_bytes bs).
Proof.
  intros Hlen. unfold read_payload. destruct (Z.ltb_spec 0 len).
  - eapply sound_weaken; [apply sound_read_exact|]. intros b bs (-> & Hl & Hb).
    split_and!; [done|lia|done].
  - apply sound_ret. split_and!; [done|cbn; lia|constructor].
Qed.

Lemma refuses_read_payload len F : refuses (read_payload (R := R) len) F.
Proof.
  unfold read_payload. case_match; [apply refuses_read_exact|apply refuses_ret].
Qed.

(** A length and the payload behind it: the check of the length, then its bytes. *)
Lemma sound_prefixed {B} n (too_long : Z → IoError) (max : Z) (k : bytes → cmd R IoError B)
    (K : B → bytes → Prop) :
  (∀ payload, is_bytes payload → Z.of_nat (length payload) ≤ max →
     sound (k payload) (λ b bs', K b (prefixed n payload ++ bs'))) →
  sound (len ← read_be n;
         if max <? len then raise (too_long len) else payload ← read_payload len; k payload) K.
Proof.
  intros Hk. sound_next (sound_read_be n). destruct H as [-> Hn].
  destruct (Z.ltb_spec max a); [apply sound_raise|].
  eapply sound_bind; [apply sound_read_payload; lia|]. intros payload bs (-> & <- & Hb).
  eapply sound_weaken; [by apply Hk|]. unfold prefixed. cbn. intros b bs'. by rewrite <-app_assoc.
Qed.

Lemma refuses_prefixed {B} n (too_long : Z → IoError) (max : Z) (k : bytes → cmd R IoError B)
    (F : IoError → bytes → Prop) :
  (∀ len, max < len < 256 ^ Z.of_nat n → F (too_long len) (be_bytes n len)) →
  (∀ payload, is_bytes payload → Z.of_nat (length payload) ≤ max →
     refuses (k payload) (λ e bs', F e (prefixed n payload ++ bs'))) →
  refuses (len ← read_be n;
           if max <? len then raise (too_long len) else payload ← read_payload len; k payload) F.
Proof.
  intros Hlong Hk. eapply refuses_bind; [apply refuses_read_be|apply sound_read_be|].
  intros len bs [-> Hn]. destruct (Z.ltb_spec max len).
  - apply refuses_raise. rewrite app_nil_r. apply Hlong. lia.
  - eapply refuses_bind; [apply refuses_read_payload|apply sound_read_payload; lia|].
    intros payload bs (-> & <- & Hb) r e r' Hr E.
    destruct (Hk bs Hb ltac:(lia) r e r' Hr E) as [?|(bs' & HF & ?)]; [by left|right].
    exists bs'. unfold prefixed in HF. by rewrite <-app_assoc in HF.
Qed.

Definition wired (m : DeviceMessage) (bs : bytes) : Prop :=
  message_wf m ∧ be_bytes 1 (DeviceMessage_msg_type m) ++ bs = message_wire m.

Lemma sound_clipboard :
  sound (read_clipboard (R := R)) (λ m bs, (∃ t, m = Clipboard t) ∧ wired m bs).
Proof.
  apply sound_prefixed. intros payload Hb Hl.
  destruct (from_utf8 payload) as [text|e|] eqn:E; [|apply sound_raise|by intros r a r' _ H].
  apply from_utf8_ok in E as [-> Hs]; [|done]. apply sound_ret. rewrite app_nil_r.
  split; [eauto|]. by split.
Qed.

Lemma sound_ack : sound (read_ack_clipboard (R := R)) (λ m bs, (∃ s, m = AckClipboard s) ∧ wired m bs).
Proof.
  sound_next (sound_read_be 8). destruct H as [-> H]. apply sound_ret. rewrite app_nil_r.
  split; [eauto|]. by split.
Qed.

Lemma sound_uhid :
  sound (read_uhid_output (R := R)) (λ m bs, (∃ i d, m = UhidOutput i d) ∧ wired m bs).
Proof.
  sound_next (sound_read_be 2). destruct H as [-> H].
  eapply sound_bind; [apply (sound_read_be 2)|]. intros size bs [-> Hn].
  destruct (_ <? size); [apply sound_raise|].
  eapply sound_bind; [apply sound_read_payload; widths; lia|]. intros data bs (-> & <- & Hb).
  apply sound_ret. rewrite app_nil_r. split; [eauto|]. by split.
Qed.

Lemma sound_envelope ty :
  3 ≤ ty < 256 →
  sound (read_ai_or_unknown_envelope (R := R) ty) (λ e bs, event_wire e (be_bytes 1 ty ++ bs)).
Proof.
  intros Hty. apply (sound_prefixed 4). intros payload Hb Hl.
  assert (fits_envelope payload) as Hfit by by split.
  destruct (Z.eqb_spec ty TYPE_FRAME_SUMMARY) as [->|Hf].
  { pose proof (FrameSummary_parse_spec payload Hb) as H. unfold ai_result.
    destruct (FrameSummary_parse payload) as [s|e|]; [|apply sound_raise|done].
    destruct H as (bs & pad & Hw & ->). apply sound_ret. rewrite app_nil_r.
    by apply summary_wire. }
  destruct (Z.eqb_spec ty TYPE_AI_STATS) as [->|Hs].
  { pose proof (AiStats_parse_spec payload Hb) as H. unfold ai_result.
    destruct (AiStats_parse payload) as [s|e|]; [|apply sound_raise|done].
    destruct H as (bs & pad & Hw & ->). apply sound_ret. rewrite app_nil_r.
    by apply ai_stats_wire. }
  apply sound_ret. rewrite app_nil_r. apply unknown_wire; [|done].
  unfold TYPE_FRAME_SUMMARY, TYPE_AI_STATS in *. lia.
Qed.

Lemma sound_native (c : cmd R IoError DeviceMessage) (Q : DeviceMessage → Prop) ty :
  (∀ m, Q m → DeviceMessage_msg_type m = ty) →
  sound c (λ m bs, Q m ∧ wired m bs) →
  sound (m ← c; mret (Native m)) (λ e bs, event_wire e (be_bytes 1 ty ++ bs)).
Proof.
  intros HQ Hc. eapply sound_bind; [exact Hc|]. intros m bs (HQm & Hwf & Hw).
  apply sound_ret. rewrite app_nil_r, <-(HQ m HQm), Hw. by constructor.
Qed.

(** The tag decides the reader of the rest. *)
Lemma tag_cases {P : Z → Prop} ty :
  u8 ty → P TYPE_CLIPBOARD → P TYPE_ACK_CLIPBOARD → P TYPE_UHID_OUTPUT →
  (∀ ty, 3 ≤ ty < 256 → P ty) → P ty.
Proof.
  unfold TYPE_CLIPBOARD, TYPE_ACK_CLIPBOARD, TYPE_UHID_OUTPUT. intros Hty H0 H1 H2 H3. widths.
  destruct (decide (ty = 0)) as [->|]; [done|]. destruct (decide (ty = 1)) as [->|]; [done|].
  destruct (decide (ty = 2)) as [->|]; [done|]. apply H3. lia.
Qed.

Lemma extension_tag {B} ty (a b c d : B) :
  3 ≤ ty < 256 →
  (if ty =? TYPE_CLIPBOARD then a else if ty =? TYPE_ACK_CLIPBOARD then b
   else if ty =? TYPE_UHID_OUTPUT then c else d) = d.
Proof.
  unfold TYPE_CLIPBOARD, TYPE_ACK_CLIPBOARD, TYPE_UHID_OUTPUT. intros H.
  by rewrite !(proj2 (Z.eqb_neq ty _)) by lia.
Qed.

Lemma sound_device_event : sound (read_device_event (R := R)) event_wire.
Proof.
  sound_next (sound_read_be 1). destruct H as [-> Hty]. change (u8 a) in Hty.
  revert a Hty. intros a Hty. pattern a. apply tag_cases; [done|..]; cbn beta.
  - eapply (sound_native _ (λ m, ∃ t, m = Clipboard t)); [by intros m [t ->]|].
    apply sound_clipboard.
  - eapply (sound_native _ (λ m, ∃ s, m = AckClipboard s)); [by intros m [t ->]|].
    apply sound_ack.
  - eapply (sound_native _ (λ m, ∃ i d, m = UhidOutput i d)); [by intros m (i & d & ->)|].
    apply sound_uhid.
  - intros ty H. rewrite extension_tag by done. by apply sound_envelope.
Qed.

Lemma sound_device_message :
  sound (read_device_message (R := R)) (λ m bs, event_wire (Native m) bs).
Proof.
  assert (∀ (c : cmd R IoError DeviceMessage) (Q : DeviceMessage → Prop) ty,
    (∀ m, Q m → DeviceMessage_msg_type m = ty) → sound c (λ m bs, Q m ∧ wired m bs) →
    sound c (λ m bs, event_wire (Native m) (be_bytes 1 ty ++ bs))) as Hnat.
  { intros c Q ty HQ Hc. eapply sound_weaken; [exact Hc|]. intros m bs (HQm & Hwf & Hw).
    rewrite <-(HQ m HQm), Hw. by constructor. }
  sound_next (sound_read_be 1). destruct H as [-> Hty]. change (u8 a) in Hty.
  pattern a. apply tag_cases; [done|..]; cbn beta.
  - eapply (Hnat _ (λ m, ∃ t, m = Clipboard t)); [by intros m [t ->]|]. apply sound_clipboard.
  - eapply (Hnat _ (λ m, ∃ s, m = AckClipboard s)); [by intros m [t ->]|]. apply sound_ack.
  - eapply (Hnat _ (λ m, ∃ i d, m = UhidOutput i d)); [by intros m (i & d & ->)|].
    apply sound_uhid.
  - intros ty H. rewrite extension_tag by done. apply sound_raise.
Qed.

(** *** Errors *)

Lemma refuses_no_error {A} (c : cmd R IoError A) (k : A → DeviceEvent) F :
  refuses c F → refuses (m ← c; mret (k m)) F.
Proof.
  intros Hc r e r' Hr H. unfold mbind, cmd_bind in H.
  destruct (c r) as [[a|e'|] r1] eqn:E; simplify_eq/=. by apply (Hc r).
Qed.

Lemma refuses_clipboard :
  refuses (read_clipboard (R := R)) (λ e bs, malformed e (be_bytes 1 TYPE_CLIPBOARD ++ bs)).
Proof.
  apply (refuses_prefixed 4).
  - intros len H. by apply clipboard_too_large.
  - intros payload Hb Hl. destruct (from_utf8 payload) as [text|e|] eqn:E.
    + apply refuses_ret.
    + apply refuses_raise. rewrite app_nil_r. apply clipboard_not_utf8; [by split|done].
    + by destruct (from_utf8_total payload).
Qed.

Lemma refuses_ack F : refuses (read_ack_clipboard (R := R)) F.
Proof.
  eapply refuses_bind; [apply refuses_read_be|apply sound_read_be|]. intros. apply refuses_ret.
Qed.

(** A 16-bit size is below the limit: the check of [read_uhid_output] never fires. *)
Lemma uhid_size_fits size : u16 size → (DEVICE_MSG_MAX_SIZE - 5 <? size) = false.
Proof. intros H. apply Z.ltb_ge. widths. vm_compute (DEVICE_MSG_MAX_SIZE - 5). lia. Qed.

Lemma refuses_uhid F : refuses (read_uhid_output (R := R)) F.
Proof.
  eapply refuses_bind; [apply refuses_read_be|apply (sound_read_be 2)|]. intros id bs _.
  eapply refuses_bind; [apply refuses_read_be|apply (sound_read_be 2)|]. intros size bs' [_ Hn].
  rewrite uhid_size_fits by done.
  eapply refuses_bind; [apply refuses_read_payload|apply sound_read_payload; widths; lia|].
  intros. apply refuses_ret.
Qed.

Lemma refuses_envelope ty :
  3 ≤ ty < 256 →
  refuses (read_ai_or_unknown_envelope (R := R) ty) (λ e bs, malformed e (be_bytes 1 ty ++ bs)).
Proof.
  intros Hty. apply (refuses_prefixed 4).
  - intros len H. by apply envelope_too_large.
  - intros payload Hb Hl. assert (fits_envelope payload) as Hfit by by split.
    destruct (Z.eqb_spec ty TYPE_FRAME_SUMMARY) as [->|Hf].
    { pose proof (FrameSummary_parse_spec payload Hb) as H. unfold ai_result.
      destruct (FrameSummary_parse payload) as [s|e|]; [apply refuses_ret| |done].
      destruct H as [-> H]. apply refuses_raise. rewrite app_nil_r. by apply summary_cut_short. }
    destruct (Z.eqb_spec ty TYPE_AI_STATS) as [->|Hs].
    { pose proof (AiStats_parse_spec payload Hb) as H. unfold ai_result.
      destruct (AiStats_parse payload) as [s|e|]; [apply refuses_ret| |done].
      destruct H as [-> H]. apply refuses_raise. rewrite app_nil_r. by apply stats_cut_short. }
    apply refuses_ret.
Qed.

Lemma refuses_device_event : refuses (read_device_event (R := R)) malformed.
Proof.
  eapply refuses_bind; [apply refuses_read_be|apply (sound_read_be 1)|].
  intros ty bs [-> Hty]. change (u8 ty) in Hty. pattern ty. apply tag_cases; [done|..]; cbn beta.
  - apply (refuses_no_error _ Native), refuses_clipboard.
  - apply (refuses_no_error _ Native), refuses_ack.
  - apply (refuses_no_error _ Native), refuses_uhid.
  - intros t Ht. rewrite extension_tag by done. by apply refuses_envelope.
Qed.
End Sound.

(** *** Streams *)

Section Streams.
Context {R : Type} `{!Read R, !LawfulRead R, !StreamReader R}.
Implicit Types r : R.

Lemma takes_word n z :
  in_unsigned (8 * Z.of_nat n) z → takes (R := R) (read_be n) (be_bytes n z) z.
Proof.
  intros Hz. apply takes_read_be. unfold in_unsigned in Hz. by rewrite Z.pow_mul_r in Hz by lia.
Qed.

Lemma takes_payload l : takes (read_payload (R := R) (Z.of_nat (length l))) l l.
Proof.
  unfold read_payload. destruct (Z.ltb_spec 0 (Z.of_nat (length l))).
  - rewrite Nat2Z.id. apply takes_read_exact.
  - destruct l; [apply takes_ret|cbn in *; lia].
Qed.

Lemma takes_prefixed {B} n (too_long : Z → IoError) (max : Z) (k : bytes → cmd R IoError B) l b :
  Z.of_nat (length l) ≤ max → Z.of_nat (length l) < 256 ^ Z.of_nat n → takes (k l) [] b →
  takes (len ← read_be n;
         if max <? len then raise (too_long len) else payload ← read_payload len; k payload)
    (prefixed n l) b.
Proof.
  intros Hmax Hn Hk. unfold prefixed. eapply takes_bind; [apply takes_read_be; lia|].
  rewrite (proj2 (Z.ltb_ge _ _)) by done. eapply takes_last; [apply takes_payload|done].
Qed.

Lemma takes_clipboard t :
  message_wf (Clipboard t) → takes (read_clipboard (R := R)) (prefixed 4 t) (Clipboard t).
Proof.
  intros [Ht Hl]. apply takes_prefixed; [done|by apply max_payload_u32|].
  rewrite (proj2 (from_utf8_ok t t (str_is_bytes t Ht))); [apply takes_ret|done].
Qed.

Lemma takes_ack s : u64 s → takes (read_ack_clipboard (R := R)) (be_bytes 8 s) (AckClipboard s).
Proof.
  intros Hs. unfold read_ack_clipboard. eapply takes_last; [by apply (takes_word 8)|].
  apply takes_ret.
Qed.

Lemma takes_uhid i d :
  message_wf (UhidOutput i d) →
  takes (read_uhid_output (R := R)) (be_bytes 2 i ++ prefixed 2 d) (UhidOutput i d).
Proof.
  intros (Hi & Hd & Hn). eapply takes_bind; [by apply (takes_word 2)|]. unfold prefixed.
  eapply takes_bind; [by apply (takes_word 2)|]. rewrite uhid_size_fits by done.
  eapply takes_last; [apply takes_payload|]. apply takes_ret.
Qed.

Lemma takes_native (c : cmd R IoError DeviceMessage) bs m :
  takes c bs m → takes (m ← c; mret (Native m)) bs (Native m).
Proof. intros H. eapply takes_last; [exact H|]. apply takes_ret. Qed.

Lemma takes_device_event e bs : event_wire e bs → takes (read_device_event (R := R)) bs e.
Proof.
  intros Hw. assert (∀ ty, 3 ≤ ty < 256 → ∀ p : bytes, fits_envelope p → ∀ e,
    takes (R := R) (if ty =? TYPE_FRAME_SUMMARY then ai_result Ev_FrameSummary (FrameSummary_parse p)
     else if ty =? TYPE_AI_STATS then ai_result Ev_AiStats (AiStats_parse p)
     else mret (UnknownEnvelope ty p)) [] e →
    takes (read_device_event (R := R)) (envelope ty p) e) as Henv.
  { intros ty Hty p [_ Hp] e' Hk. eapply takes_bind; [apply (takes_word 1); widths; lia|].
    rewrite extension_tag by done. apply takes_prefixed; [done|by apply max_payload_u32|done]. }
  destruct Hw as [[t|s|i d] H|s bs pad Hw Hf|s bs pad Hw Hf|ty p Hty Hp].
  - eapply takes_bind; [by apply (takes_word 1)|]. by apply takes_native, takes_clipboard.
  - eapply takes_bind; [by apply (takes_word 1)|]. by apply takes_native, takes_ack.
  - eapply takes_bind; [by apply (takes_word 1)|]. by apply takes_native, takes_uhid.
  - apply Henv; [done..|]. cbn [Z.eqb]. rewrite Z.eqb_refl, (FrameSummary_parse_wire s) by done.
    apply takes_ret.
  - apply Henv; [done..|]. change (TYPE_AI_STATS =? TYPE_FRAME_SUMMARY) with false. cbv iota.
    rewrite Z.eqb_refl, (AiStats_parse_wire s) by done. apply takes_ret.
  - apply Henv; [lia|done|]. unfold TYPE_FRAME_SUMMARY, TYPE_AI_STATS.
    rewrite !(proj2 (Z.eqb_neq ty _)) by lia. apply takes_ret.
Qed.

Lemma takes_device_message m :
  message_wf m → takes (read_device_message (R := R)) (message_wire m) m.
Proof.
  intros H. destruct m as [t|s|i d]; (eapply takes_bind; [by apply (takes_word 1)|]).
  - by apply takes_clipboard.
  - by apply takes_ack.
  - by apply takes_uhid.
Qed.

(** *** What the readers refuse *)

Lemma rejects_too_large {B} (too_long : Z → IoError) (max len : Z) (k : bytes → cmd R IoError B) :
  0 ≤ max < len → len < 2 ^ 32 →
  rejects (len ← read_u32_be;
           if max <? len then raise (too_long len) else payload ← read_payload len; k payload)
    (be_bytes 4 len) (too_long len).
Proof.
  intros Hmax Hlen. eapply rejects_last; [apply (takes_word 4); widths; lia|].
  rewrite (proj2 (Z.ltb_lt _ _)) by lia. apply rejects_raise.
Qed.

Lemma rejects_payload {B} (too_long : Z → IoError) (k : bytes → cmd R IoError B) l e :
  fits_envelope l → rejects (k l) [] e →
  rejects (len ← read_u32_be;
           if DEVICE_MSG_MAX_SIZE - 5 <? len then raise (too_long len)
           else payload ← read_payload len; k payload) (prefixed 4 l) e.
Proof.
  intros [_ Hl] Hk. pose proof (max_payload_u32 _ Hl). unfold prefixed.
  eapply rejects_after; [apply (takes_word 4); widths; lia|].
  rewrite (proj2 (Z.ltb_ge _ _)) by done. eapply rejects_last; [apply takes_payload|done].
Qed.

Lemma max_size_nonneg : 0 ≤ DEVICE_MSG_MAX_SIZE - 5.
Proof. by vm_compute. Qed.

Lemma parse_failure_err {A} (parse : bytes → outcome Error A) (G : A → bytes → Prop) payload :
  (match parse payload with
   | Ok s => ∃ bs pad, G s bs ∧ payload = bs ++ pad
   | Err e => e = parse_failure ∧ ∀ s bs pad, G s bs → payload ≠ bs ++ pad
   | Panicked => False
   end) →
  (∀ s bs pad, G s bs → payload ≠ bs ++ pad) → parse payload = Err parse_failure.
Proof.
  intros H Hno. destruct (parse payload) as [s|e|]; [|by destruct H as [-> _]|done].
  destruct H as (bs & pad & HG & E). by destruct (Hno s bs pad HG).
Qed.

Lemma rejects_malformed e bs : malformed e bs → rejects (read_device_event (R := R)) bs e.
Proof.
  pose proof max_size_nonneg as Hmax.
  assert (∀ ty, 3 ≤ ty < 256 → ∀ bs e, rejects (read_ai_or_unknown_envelope (R := R) ty) bs e →
    rejects (read_device_event (R := R)) (be_bytes 1 ty ++ bs) e) as Hext.
  { intros ty Hty bs' e' H. eapply rejects_after; [apply (takes_word 1); widths; lia|].
    by rewrite extension_tag. }
  destruct 1 as [len Hlen|p err Hp He|ty len Hty Hlen|p Hp Hno|p Hp Hno].
  - eapply rejects_after; [by apply (takes_word 1)|]. apply rejects_bind.
    apply (rejects_too_large (too_large "clipboard")); unfold DEVICE_MSG_TEXT_MAX_LENGTH in *; lia.
  - eapply rejects_after; [by apply (takes_word 1)|]. apply rejects_bind, rejects_payload; [done|].
    rewrite He. apply rejects_raise.
  - apply Hext; [done|]. apply (rejects_too_large (too_large "device event")); lia.
  - apply Hext; [done|]. apply rejects_payload; [done|]. rewrite Z.eqb_refl.
    rewrite (parse_failure_err _ _ _ (FrameSummary_parse_spec p (proj1 Hp)) Hno). apply rejects_raise.
  - apply Hext; [done|]. apply rejects_payload; [done|].
    change (TYPE_AI_STATS =? TYPE_FRAME_SUMMARY) with false. cbv iota. rewrite Z.eqb_refl.
    rewrite (parse_failure_err _ _ _ (AiStats_parse_spec p (proj1 Hp)) Hno). apply rejects_raise.
Qed.

Lemma takes_each {A} (c : cmd R IoError A) (G : A → bytes → Prop) l bss :
  (∀ a bs, G a bs → takes c bs a) → Forall2 G l bss →
  takes (collect (length l) c) (concat bss) l.
Proof. intros Hc H. apply takes_collect. eapply Forall2_impl; eauto. Qed.
End Streams.

(** *** Two readers *)

Section Steady.
Context {R R2 : Type} `{!Read R, !LawfulRead R, !StreamReader R}.
Context `{!Read R2, !LawfulRead R2, !StreamReader R2}.
Abbreviation steady2 c := (steady (R := R) (R2 := R2) c c).

Lemma steady_read_payload len : steady2 (read_payload len).
Proof. unfold read_payload. case_match; [apply steady_read_exact|apply steady_ret]. Qed.

Lemma steady_ai_result {A} (f : A → DeviceEvent) o : o ≠ Panicked → steady2 (ai_result f o).
Proof. intros Ho. destruct o; [apply steady_ret|apply steady_raise|done]. Qed.

Lemma only_eof_parse {A} (c : cursor A) payload :
  only_eof c → (map_err io_err c payload).1 ≠ Panicked.
Proof.
  intros H. specialize (H payload). unfold map_err, catch. by destruct (c payload) as [[a|e|] s].
Qed.

Lemma FrameSummary_parse_returns payload : FrameSummary_parse payload ≠ Panicked.
Proof.
  unfold FrameSummary_parse. apply only_eof_parse. apply only_eof_bind; [apply only_eof_frame_fields|].
  intros s. apply only_eof_bind; [by intros s'|]. intros; apply only_eof_ret.
Qed.

Lemma AiStats_parse_returns payload : AiStats_parse payload ≠ Panicked.
Proof. apply only_eof_parse, only_eof_stats_fields. Qed.

Ltac steady_step := first
  [ apply steady_ret | apply steady_raise | apply steady_read_be | apply steady_read_payload
  | apply steady_ai_result; first [apply FrameSummary_parse_returns | apply AiStats_parse_returns]
  | apply steady_bind; [|intros] ].

Lemma steady_clipboard : steady2 read_clipboard.
Proof.
  unfold read_clipboard. steady_step; [steady_step|]. case_match; [steady_step|].
  steady_step; [steady_step|]. destruct (from_utf8 a0) eqn:E; [steady_step..|].
  by destruct (from_utf8_total a0).
Qed.

Lemma steady_uhid : steady2 read_uhid_output.
Proof.
  unfold read_uhid_output. do 2 (steady_step; [steady_step|]). case_match; repeat steady_step.
Qed.

Lemma steady_envelope ty : steady2 (read_ai_or_unknown_envelope ty).
Proof.
  unfold read_ai_or_unknown_envelope. steady_step; [steady_step|]. case_match; [steady_step|].
  steady_step; [steady_step|]. repeat case_match; steady_step.
Qed.

Lemma steady_device_event : steady2 read_device_event.
Proof.
  unfold read_device_event, read_ack_clipboard. steady_step; [steady_step|].
  repeat case_match;
    repeat first [apply steady_envelope | apply steady_clipboard | apply steady_uhid | steady_step].
Qed.

Lemma steady_device_message : steady2 read_device_message.
Proof.
  unfold read_device_message, read_ack_clipboard. steady_step; [steady_step|].
  repeat case_match; repeat first [apply steady_clipboard | apply steady_uhid | steady_step].
Qed.
End Steady.

Lemma malformed_kind e bs : malformed e bs → io_kind e = InvalidData.
Proof. by destruct 1. Qed.

(** ** The control prefix *)

(** The name is the field up to its first zero, decoded lossily: a string always, the
    server's name if it was one without a zero. *)
Lemma control_prefix_read {R} `{StreamReader R} (r : R) dummy name pad rest :
  u8 dummy → is_str name → 0 ∉ name →
  (length name + length pad = DEVICE_NAME_FIELD_LENGTH)%nat → Forall (λ b, b = 0) pad →
  unread r = be_bytes 1 dummy ++ name ++ pad ++ rest →
  ∃ r', read_scrcpy_control_prefix r = (Ok (mkControlPrefix dummy name (name ++ pad)), r') ∧
        unread r' = rest.
Proof.
  intros Hd Hn H0 Hlen Hpad Hr. unfold read_scrcpy_control_prefix.
  assert (takes (R := R) read_scrcpy_control_prefix (be_bytes 1 dummy ++ name ++ pad)
    (mkControlPrefix dummy name (name ++ pad))) as Ht.
  { eapply takes_bind; [by apply (takes_word 1)|].
    rewrite <-Hlen, <-length_app. eapply takes_last; [apply takes_read_exact|].
    assert (take (name_len (name ++ pad)) (name ++ pad) = name) as ->.
    { unfold name_len. rewrite list_find_app_r by (apply list_find_None, Forall_forall; by intros x Hx ->).
      destruct pad as [|b pad].
      - cbn [list_find fmap option_fmap option_map]. rewrite app_nil_r, <-Hlen. cbn.
        by rewrite Nat.add_0_r, firstn_all.
      - apply Forall_cons in Hpad as [-> _]. cbn [list_find]. rewrite decide_True by done.
        cbn. by rewrite take_app_length. }
    rewrite from_utf8_lossy_id by done. apply takes_ret. }
  apply Ht. by rewrite Hr, <-!app_assoc.
Qed.

(** C13: device events survive the trip.  On a stream that holds the events [es] as a
    server writes them (any padding of the AI payloads, any bit pattern of a NaN), as
    many reads give exactly [es] and leave what follows; if that is the beginning of
    one more event, cut off anywhere, the next read is an end of file.  And only events
    are read: what a read returns is what the bytes it consumed stand for. *)
Theorem device_event_stream {R} `{StreamReader R} (es : list DeviceEvent) (bss : list bytes)
    (part : bytes) (r : R)
    (Hes : Forall2 event_wire es bss) (Hr : unread r = concat bss ++ part) :
  ∃ r', collect (length es) read_device_event r = (Ok es, r') ∧ unread r' = part ∧
  (∀ e more, event_wire e (part ++ more) → more ≠ [] →
     ∃ r'', read_device_event r' = (Err (eof_error (R := R)), r'')) ∧
  (∀ e r'', is_bytes part → read_device_event r' = (Ok e, r'') →
     ∃ bs, event_wire e bs ∧ part = bs ++ unread r'').
Proof.
  destruct (takes_each _ _ _ _ takes_device_event Hes r part Hr) as (r' & E & H').
  exists r'. split_and!; [done|done|..].
  - intros e more He Hm.
    eapply (short_is_eof (R2 := bytes) _ read_device_event (part ++ more) e r' (part ++ more) more);
      [apply steady_device_event|by apply takes_device_event|done|by rewrite H'|done].
  - intros e r'' Hb E'. destruct (sound_device_event r' e r'') as (bs & ? & ?);
      [by unfold bytes_ahead; rewrite H'|done|]. exists bs. by rewrite <-H'.
Qed.

Definition sample_events : list DeviceEvent :=
  [Native (AckClipboard 7); Ev_FrameSummary sample_frame; UnknownEnvelope 99 [1; 2; 3]].
Definition sample_stream : list bytes :=
  [message_wire (AckClipboard 7); envelope TYPE_FRAME_SUMMARY (frame_bytes sample_frame ++ [0]);
   envelope 99 [1; 2; 3]].

Lemma sample_stream_wire : Forall2 event_wire sample_events sample_stream.
Proof.
  repeat constructor; try (apply (bool_decide_unpack _); vm_compute; exact I).
  apply frame_bytes_wire, sample_frame_wf.
Qed.

Lemma device_event_stream_witness :
  ∃ s', collect 3 read_device_event (concat sample_stream ++ [2; 0; 7; 0]) = (Ok sample_events, s') ∧
        s' = [2; 0; 7; 0] ∧ ∃ s'', read_device_event s' = (Err slice_eof, s'').
Proof.
  pose proof (device_event_stream (R := bytes) sample_events sample_stream [2; 0; 7; 0]
    (concat sample_stream ++ [2; 0; 7; 0]) sample_stream_wire) as H.
  destruct (H eq_refl) as (s' & E & Hs & Hcut & _). clear H.
  exists s'. split; [exact E|]. split; [exact Hs|].
  apply (Hcut (Native (UhidOutput 7 [5])) [1; 5]); [|done].
  apply (native_wire (UhidOutput 7 [5])). apply (bool_decide_unpack _). vm_compute. exact I.
Defined.

(** C32: the errors of [read_device_event].  Over any lawful reader, an error is either one
    the reader itself returned, handed on unchanged, or [InvalidData] naming the
    malformed message that was just consumed: a length over the limit, a clipboard text
    that is not UTF-8, an AI payload cut short; nothing is refused for its type.  And
    every such message is refused, over a stream: with that error, and with the stream
    left behind it, so that reading can go on. *)
Theorem device_event_errors {R} `{!Read R, !LawfulRead R} :
  (∀ (r : R) e r', is_bytes (unread r) → read_device_event r = (Err e, r') →
     own_error (R := R) e ∨
     io_kind e = InvalidData ∧ ∃ bs, malformed e bs ∧ unread r = bs ++ unread r') ∧
  (∀ `{!StreamReader R} (r : R) e bs rest, malformed e bs → unread r = bs ++ rest →
     ∃ r', read_device_event r = (Err e, r') ∧ unread r' = rest).
Proof.
  split.
  - intros r e r' Hb E. destruct (refuses_device_event r e r' Hb E) as [?|(bs & Hm & ?)];
      [by left|right]. split; [by eapply malformed_kind|eauto].
  - intros Hst r e bs rest Hm. by apply rejects_malformed.
Qed.

Lemma device_event_errors_witness :
  ∃ s', read_device_event (R := bytes) [0; 255; 255; 255; 255; 1; 0]
        = (Err (too_large "clipboard" 4294967295), s') ∧ s' = [1; 0].
Proof.
  pose proof (device_event_errors (R := bytes)) as [_ H].
  apply (H slice_stream [0; 255; 255; 255; 255; 1; 0] _ [0; 255; 255; 255; 255] [1; 0]);
    [|reflexivity].
  exact (clipboard_too_large 4294967295
    (conj (eq_refl : (DEVICE_MSG_TEXT_MAX_LENGTH ?= 4294967295) = Lt) eq_refl)).
Defined.
