(* ===== verification/DevicePump.v ===== *)
(** * The background receivers ([src/src/device.rs]): reader threads over a channel

    A receiver thread reads messages until the first error and sends each result over a
    bounded channel.  The thread is proved against an interface, [LawfulSender]: what the
    sending half of a channel promises.  [Channel] implements it: the [sync_channel] of
    the standard library, whose consumer follows an arbitrary plan. *)

From S2P Require Import Prelude Words Utf8 Errors Io AiSummary Device.
Local Open Scope Z_scope.

(** ** The sending half of a channel *)

(** Why a [send] did not succeed: nobody will receive any more, or it never returned. *)
Inductive Unsent : Set :=
  | Disconnected
  | Asleep.

Class Sender (C A : Type) := send : A → cmd C Unsent unit.

Class LawfulSender (C A : Type) `{!Sender C A} := {
  accepted : C → list A;
  hung_up : C → bool;
  send_ok x c c' : send x c = (Ok tt, c') → accepted c' = accepted c ++ [x];
  send_unsent x c e c' : send x c = (Err e, c') → accepted c' = accepted c;
  send_disconnected x c c' : send x c = (Err Disconnected, c') → hung_up c' = true;
  send_returns x c : (send x c).1 ≠ Panicked;
}.

(** ** The threads *)

Record Pump (R C : Type) : Type := mkPump { pump_reader : R; pump_tx : C }.
Arguments mkPump {R C}. Arguments pump_reader {R C}. Arguments pump_tx {R C}.

(** How a thread may fail to end: asleep in a [send] for ever, or still running when the
    fuel is used up. *)
Inductive Halt : Set :=
  | StuckInSend
  | StillRunning.

Section Loops.
Context {R C A : Type} `{!Read R} `{!Sender C (outcome IoError A)}.

(** The two loops of the source, which differ in [read] only; the reader they return is
    the one in the final state. *)
Fixpoint reader_loop (read : cmd R IoError A) (fuel : nat) : cmd (Pump R C) Halt unit := λ p,
  match fuel with
  | O => (Err StillRunning, p)
  | S fuel =>
      match read (pump_reader p) with
      | (Ok msg, r) =>
          match send (Ok msg) (pump_tx p) with
          | (Ok _, c) => reader_loop read fuel (mkPump r c)
          | (Err Disconnected, c) => (Ok tt, mkPump r c)
          | (Err Asleep, c) => (Err StuckInSend, mkPump r c)
          | (Panicked, c) => (Panicked, mkPump r c)
          end
      | (Err e, r) =>
          match send (Err e) (pump_tx p) with
          | (Err Asleep, c) => (Err StuckInSend, mkPump r c)
          | (Panicked, c) => (Panicked, mkPump r c)
          | (_, c) => (Ok tt, mkPump r c)
          end
      | (Panicked, r) => (Panicked, mkPump r (pump_tx p))
      end
  end.
End Loops.

Definition device_message_loop {R C} `{!Read R, !Sender C (outcome IoError DeviceMessage)} :
    nat → cmd (Pump R C) Halt unit := reader_loop read_device_message.

Definition device_event_loop {R C} `{!Read R, !Sender C (outcome IoError DeviceEvent)} :
    nat → cmd (Pump R C) Halt unit := reader_loop read_device_event.

(** [DeviceMessagePump::join]: the reader comes back unless the thread panicked. *)
Definition pump_join {R C} (joined : outcome Halt unit * Pump R C) : outcome IoError R :=
  match joined with
  | (Panicked, _) => Err (mkIoError (OtherKind "Other") "device receiver thread panicked")
  | (_, p) => Ok (pump_reader p)
  end.

(** ** [mpsc::sync_channel]

    The consumer follows a plan.  Its steps up to the next [Yield] happen before a [send]
    looks at the channel; a [send] into a full channel sleeps while the plan goes on.
    With bound 0 a [send] completes when the consumer takes its message. *)

Inductive Act : Set := Take | HangUp | Yield.

Record Channel (A : Type) : Type := mkChannel
  { ch_bound : nat; ch_queue : list A; ch_taken : list A; ch_alive : bool; ch_plan : list Act }.
Arguments mkChannel {A}. Arguments ch_bound {A}. Arguments ch_queue {A}.
Arguments ch_taken {A}. Arguments ch_alive {A}. Arguments ch_plan {A}.

Definition sync_channel {A} (bound : nat) (plan : list Act) : Channel A :=
  mkChannel bound [] [] true plan.

Definition take_one {A} (c : Channel A) : Channel A :=
  match ch_alive c, ch_queue c with
  | true, x :: q => mkChannel (ch_bound c) q (ch_taken c ++ [x]) true (ch_plan c)
  | _, _ => c
  end.
Definition hang_up {A} (c : Channel A) : Channel A :=
  mkChannel (ch_bound c) (ch_queue c) (ch_taken c) false (ch_plan c).
Definition with_plan {A} (plan : list Act) (c : Channel A) : Channel A :=
  mkChannel (ch_bound c) (ch_queue c) (ch_taken c) (ch_alive c) plan.

Fixpoint run_plan {A} (plan : list Act) (c : Channel A) : Channel A :=
  match plan with
  | [] => with_plan [] c
  | Take :: plan => run_plan plan (take_one c)
  | HangUp :: plan => run_plan plan (hang_up c)
  | Yield :: plan => with_plan plan c
  end.

Definition enqueue {A} (x : A) (c : Channel A) : Channel A :=
  mkChannel (ch_bound c) (ch_queue c ++ [x]) (ch_taken c) (ch_alive c) (ch_plan c).

Fixpoint sleep {A} (plan : list Act) (x : A) (c : Channel A) : outcome Unsent unit * Channel A :=
  match plan with
  | [] => (Err Asleep, with_plan [] c)
  | Yield :: plan => sleep plan x c
  | HangUp :: plan => (Err Disconnected, with_plan plan (hang_up c))
  | Take :: plan => (Ok tt, with_plan plan (take_one (enqueue x c)))
  end.

#[export] Instance channel_sender {A} : Sender (Channel A) A := λ x c,
  let c := run_plan (ch_plan c) c in
  if negb (ch_alive c) then (Err Disconnected, c)
  else if decide (length (ch_queue c) < ch_bound c)%nat then (Ok tt, enqueue x c)
  else sleep (ch_plan c) x c.

(** The channel and the thread, as [spawn_device_message_receiver] and the others start
    them. *)
Definition spawn_device_message_receiver {R} (reader : R) (bound : nat) (plan : list Act) :
    Pump R (Channel (outcome IoError DeviceMessage)) := mkPump reader (sync_channel bound plan).
Definition spawn_default_device_message_receiver {R} (reader : R) (plan : list Act) :=
  spawn_device_message_receiver reader DEFAULT_DEVICE_MESSAGE_BOUND plan.
Definition spawn_device_event_receiver {R} (reader : R) (bound : nat) (plan : list Act) :
    Pump R (Channel (outcome IoError DeviceEvent)) := mkPump reader (sync_channel bound plan).
Definition spawn_default_device_event_receiver {R} (reader : R) (plan : list Act) :=
  spawn_device_event_receiver reader DEFAULT_DEVICE_MESSAGE_BOUND plan.

(** ** The standard channel is lawful *)

Section ChannelLaws.
Context {A : Type}.
Implicit Types c : Channel A.

Definition ch_accepted c : list A := ch_taken c ++ ch_queue c.

(** The queue never holds more than the bound. *)
Definition within_bound c : Prop := (length (ch_queue c) ≤ ch_bound c)%nat.

Lemma take_one_accepted c : ch_accepted (take_one c) = ch_accepted c.
Proof.
  unfold take_one, ch_accepted. destruct (ch_alive c), (ch_queue c) eqn:E; cbn; rewrite ?E; try done.
  by rewrite <-app_assoc.
Qed.

Lemma enqueue_accepted x c : ch_accepted (enqueue x c) = ch_accepted c ++ [x].
Proof. unfold ch_accepted. cbn. by rewrite app_assoc. Qed.

Lemma run_plan_kept plan c :
  let c' := run_plan plan c in
  ch_accepted c' = ch_accepted c ∧ ch_bound c' = ch_bound c ∧
  (length (ch_queue c') ≤ length (ch_queue c))%nat.
Proof.
  cbv zeta. revert c. induction plan as [|[] plan IH]; intros c; cbn [run_plan]; [done| | |done].
  - destruct (IH (take_one c)) as (-> & -> & Hl). rewrite take_one_accepted. split_and!; [done|..].
    + unfold take_one. by destruct (ch_alive c), (ch_queue c).
    + etrans; [exact Hl|]. unfold take_one.
      destruct (ch_alive c), (ch_queue c) eqn:E; cbn; rewrite ?E; cbn; lia.
  - apply (IH (hang_up c)).
Qed.

(** A [send] that is let through, one that finds nobody, one that sleeps for ever. *)
Lemma sleep_cases plan x c :
  ch_alive c = true →
  match sleep plan x c with
  | (Ok _, c') => ch_accepted c' = ch_accepted c ++ [x] ∧ ch_alive c' = true ∧
                  (length (ch_queue c') ≤ length (ch_queue c))%nat ∧ ch_bound c' = ch_bound c
  | (Err Disconnected, c') => ch_alive c' = false ∧ ch_accepted c' = ch_accepted c ∧
                  ch_queue c' = ch_queue c ∧ ch_bound c' = ch_bound c
  | (Err Asleep, c') => c' = with_plan [] c
  | (Panicked, _) => False
  end.
Proof.
  intros Ha. induction plan as [|[] plan IH]; cbn [sleep]; try done.
  change (ch_accepted (with_plan ?p ?c)) with (ch_accepted c).
  rewrite take_one_accepted, enqueue_accepted. unfold take_one, enqueue. cbn. rewrite Ha.
  destruct (ch_queue c) as [|y q]; cbn; [done|]. rewrite length_app. cbn. split_and!; [done..|lia|done].
Qed.

Lemma send_cases x c :
  within_bound c →
  match channel_sender x c with
  | (Ok _, c') => ch_accepted c' = ch_accepted c ++ [x] ∧ within_bound c' ∧ ch_bound c' = ch_bound c
  | (Err Disconnected, c') => ch_alive c' = false ∧ ch_accepted c' = ch_accepted c ∧
                              within_bound c' ∧ ch_bound c' = ch_bound c
  | (Err Asleep, c') => ch_accepted c' = ch_accepted c ∧ ch_alive c' = true ∧ ch_plan c' = [] ∧
                        length (ch_queue c') = ch_bound c' ∧ ch_bound c' = ch_bound c
  | (Panicked, _) => False
  end.
Proof.
  unfold within_bound. intros Hb. unfold channel_sender.
  destruct (run_plan_kept (ch_plan c) c) as (Ha & Hbd & Hl).
  destruct (run_plan (ch_plan c) c) as [b q t a p] eqn:E. cbn in Ha, Hbd, Hl. subst b.
  cbn [ch_alive]. destruct a; cbn [negb].
  - cbn [ch_queue ch_bound]. case_decide as Hroom.
    + rewrite enqueue_accepted. cbn. rewrite Ha, length_app. cbn. split_and!; [done|lia|done].
    + cbn [ch_plan].
      pose proof (sleep_cases p x (mkChannel (ch_bound c) q t true p) eq_refl) as H.
      destruct (sleep p x _) as [[u|[]|] c']; cbn in H.
      * destruct H as (-> & _ & H & ->). rewrite Ha. split_and!; [done|lia|done].
      * destruct H as (-> & -> & -> & ->). rewrite Ha. split_and!; [done|done|lia|done].
      * subst c'. cbn. rewrite Ha. split_and!; [done..|lia|done].
      * done.
  - cbn. rewrite Ha. split_and!; [done|done|lia|done].
Qed.
End ChannelLaws.

(** Without the bound, for the interface. *)
Lemma channel_send_spec {A} x (c : Channel A) :
  match channel_sender x c with
  | (Ok _, c') => ch_accepted c' = ch_accepted c ++ [x]
  | (Err e, c') => ch_accepted c' = ch_accepted c ∧ (e = Disconnected → ch_alive c' = false)
  | (Panicked, _) => False
  end.
Proof.
  unfold channel_sender. destruct (run_plan_kept (ch_plan c) c) as (Ha & _ & _).
  destruct (run_plan (ch_plan c) c) as [b q t a p] eqn:E. cbn in Ha. cbn [ch_alive]. destruct a; cbn [negb].
  - cbn [ch_queue ch_bound]. case_decide as Hroom; [rewrite enqueue_accepted; cbn; by rewrite Ha|]. cbn [ch_plan].
    pose proof (sleep_cases p x (mkChannel b q t true p) eq_refl) as H.
    destruct (sleep p x _) as [[u|[]|] c']; cbn in H; rewrite <-?Ha.
    + apply H.
    + by destruct H as (-> & -> & _).
    + by subst c'.
    + done.
  - cbn. by rewrite Ha.
Qed.

#[export] Instance channel_lawful {A} : LawfulSender (Channel A) A.
Proof.
  refine {| accepted := ch_accepted; hung_up := λ c, negb (ch_alive c) |};
    unfold send; intros x c *; pose proof (channel_send_spec x c) as H.
  - intros E. by rewrite E in H.
  - intros E. rewrite E in H. apply H.
  - intros E. rewrite E in H. destruct H as [_ ->]; done.
  - by destruct (channel_sender x c) as [[]].
Defined.

(** ** What a receiver thread delivers *)

Section Delivery.
Context {R C A : Type} `{!Read R, !Sender C (outcome IoError A), !LawfulSender C (outcome IoError A)}.
Context (read : cmd R IoError A).

(** Reading from [r] on gives [l], then the error [e]. *)
Inductive reads_until_error : R → list A → IoError → R → Prop :=
  | reads_stop r e r' : read r = (Err e, r') → reads_until_error r [] e r'
  | reads_more r a r1 l e r' :
      read r = (Ok a, r1) → reads_until_error r1 l e r' → reads_until_error r (a :: l) e r'.

Definition results (l : list A) (e : IoError) : list (outcome IoError A) := (Ok <$> l) ++ [Err e].

Lemma loop_delivers r l e r' :
  reads_until_error r l e r' → ∀ fuel c, (length l < fuel)%nat →
  let '(o, p) := reader_loop read fuel (mkPump r c) in
  (∃ sent, accepted (pump_tx p) = accepted c ++ sent ∧ sent `prefix_of` results l e) ∧
  match o with
  | Ok _ => hung_up (pump_tx p) = false →
            accepted (pump_tx p) = accepted c ++ results l e ∧ pump_reader p = r'
  | Err StuckInSend => True
  | _ => False
  end.
Proof.
  induction 1 as [r e r' E|r a r1 l e r' E _ IH]; intros [|fuel] c Hf; cbn in Hf; try lia.
  - cbn [reader_loop pump_reader pump_tx]. rewrite E.
    pose proof (send_returns (Err e) c) as Hret.
    destruct (send (Err e) c) as [[u|[]|] c'] eqn:Es; cbn; [destruct u| | |done].
    + rewrite (send_ok _ _ _ Es). split; [|done]. exists [Err e]. by split.
    + rewrite (send_unsent _ _ _ _ Es), (send_disconnected _ _ _ Es). split; [|done].
      exists []. rewrite app_nil_r. split; [done|apply prefix_nil].
    + rewrite (send_unsent _ _ _ _ Es). split; [|done].
      exists []. rewrite app_nil_r. split; [done|apply prefix_nil].
  - cbn [reader_loop pump_reader pump_tx]. rewrite E.
    pose proof (send_returns (Ok a) c) as Hret.
    destruct (send (Ok a) c) as [[u|[]|] c'] eqn:Es; cbn [pump_tx pump_reader]; [destruct u| | |done].
    + specialize (IH fuel c' ltac:(lia)). destruct (reader_loop read fuel (mkPump r1 c')) as [o p].
      rewrite (send_ok _ _ _ Es) in IH. destruct IH as [(sent & Ha & Hp) Ho]. split.
      * exists (Ok a :: sent). rewrite Ha, <-app_assoc. split; [done|]. by apply prefix_cons.
      * destruct o as [u|[]|]; [|done..]. intros Hh. destruct (Ho Hh) as [-> ?].
        by rewrite <-app_assoc.
    + rewrite (send_unsent _ _ _ _ Es), (send_disconnected _ _ _ Es). split; [|done].
      exists []. rewrite app_nil_r. split; [done|apply prefix_nil].
    + rewrite (send_unsent _ _ _ _ Es). split; [|done].
      exists []. rewrite app_nil_r. split; [done|apply prefix_nil].
Qed.
End Delivery.

(** A stream ends: reading messages of at least a byte each comes to an error. *)
Lemma stream_ends {R A} `{!Read R, !LawfulRead R} (read : cmd R IoError A) (G : A → bytes → Prop) :
  sound read G → (∀ a bs, G a bs → bs ≠ []) → (∀ r, (read r).1 ≠ Panicked) →
  ∀ r : R, is_bytes (unread r) →
  ∃ l e r', reads_until_error read r l e r' ∧ (length l ≤ length (unread r))%nat.
Proof.
  intros Hs Hne Hret r. remember (length (unread r)) as n eqn:Hn. revert r Hn.
  induction (lt_wf n) as [n _ IH]; intros r -> Hb. specialize (Hret r) as Hr.
  destruct (read r) as [[a|e|] r1] eqn:E; [| |done].
  - destruct (Hs r a r1 Hb E) as (bs & HG & Heq).
    destruct (bytes_ahead_app _ _ _ Hb Heq) as [_ Hb1].
    assert (length (unread r1) < length (unread r))%nat as Hlt.
    { rewrite Heq, length_app. specialize (Hne a bs HG). destruct bs; [done|cbn; lia]. }
    destruct (IH _ Hlt r1 eq_refl Hb1) as (l & e & r' & Hl & Hlen).
    exists (a :: l), e, r'. split; [by econstructor|cbn; lia].
  - exists [], e, r1. split; [by constructor|cbn; lia].
Qed.

Lemma event_wire_nonempty e bs : event_wire e bs → bs ≠ [].
Proof. intros H E. apply (f_equal length) in E. by destruct H. Qed.

Lemma device_event_returns {R} `{StreamReader R} (r : R) : (read_device_event r).1 ≠ Panicked.
Proof.
  pose proof (steady_device_event (R := R) (R2 := R) r r [] ltac:(by rewrite app_nil_r)) as Hs.
  by destruct (read_device_event r) as [[]].
Qed.

Lemma device_message_returns {R} `{StreamReader R} (r : R) : (read_device_message r).1 ≠ Panicked.
Proof.
  pose proof (steady_device_message (R := R) (R2 := R) r r [] ltac:(by rewrite app_nil_r)) as Hs.
  by destruct (read_device_message r) as [[]].
Qed.

(** Over the standard channel: the bound, and when the thread sleeps for ever. *)
Lemma channel_loop {R A} `{!Read R} (read : cmd R IoError A) fuel (p : Pump R (Channel (outcome IoError A))) :
  within_bound (pump_tx p) →
  let '(o, p') := reader_loop read fuel p in
  ch_bound (pump_tx p') = ch_bound (pump_tx p) ∧ within_bound (pump_tx p') ∧
  (o = Err StuckInSend → ch_alive (pump_tx p') = true ∧ ch_plan (pump_tx p') = [] ∧
                         length (ch_queue (pump_tx p')) = ch_bound (pump_tx p')).
Proof.
  revert p. induction fuel as [|fuel IH]; intros p Hb; [done|]. cbn [reader_loop].
  destruct (read (pump_reader p)) as [[a|e|] r]; [| |done];
    [pose proof (send_cases (Ok a) _ Hb) as H; unfold send;
       destruct (channel_sender (Ok a) (pump_tx p)) as [[u|[]|] c]
    |pose proof (send_cases (Err e) _ Hb) as H; unfold send;
       destruct (channel_sender (Err e) (pump_tx p)) as [[u|[]|] c]]; cbn; try done;
    try (destruct H as (_ & ? & ?); done); try (destruct H as (_ & _ & ? & ?); done);
    try (destruct H as (_ & ? & ? & Hl & Hbd); unfold within_bound; split_and!; [done|lia|done]).
  destruct H as (_ & Hw & Hbd). specialize (IH (mkPump r c) Hw).
  destruct (reader_loop read fuel (mkPump r c)) as [o p']. cbn in IH. by rewrite Hbd in IH.
Qed.

(** The contract of a receiver thread started on [r]: what it has handed to the channel,
    taken or queued, and how it ends. *)
Definition delivers {R A} `{!Read R} (read : cmd R IoError A)
    (joined : outcome Halt unit * Pump R (Channel (outcome IoError A))) (bound : nat) (r : R) : Prop :=
  let '(o, p) := joined in
  let ch := pump_tx p in
  ∃ l e r', reads_until_error read r l e r' ∧
    (ch_taken ch ++ ch_queue ch) `prefix_of` results l e ∧
    (length (ch_queue ch) ≤ bound)%nat ∧
    match o with
    | Ok _ => ch_alive ch = true → ch_taken ch ++ ch_queue ch = results l e ∧ pump_reader p = r'
    | Err StuckInSend =>
        ch_alive ch = true ∧ ch_plan ch = [] ∧ length (ch_queue ch) = bound
    | _ => False
    end.

Lemma loop_delivers_stream {R A} `{!Read R, !LawfulRead R} (read : cmd R IoError A)
    (G : A → bytes → Prop) (r : R) bound plan fuel :
  sound read G → (∀ a bs, G a bs → bs ≠ []) → (∀ r, (read r).1 ≠ Panicked) →
  is_bytes (unread r) → (length (unread r) < fuel)%nat →
  delivers read (reader_loop read fuel (mkPump r (sync_channel bound plan))) bound r.
Proof.
  intros Hs Hne Hret Hb Hf.
  destruct (stream_ends read G Hs Hne Hret r Hb) as (l & e & r' & Hl & Hlen).
  pose proof (loop_delivers (C := Channel (outcome IoError A)) read r l e r' Hl fuel
    (sync_channel bound plan) ltac:(lia)) as Hd.
  pose proof (channel_loop read fuel (mkPump r (sync_channel bound plan)) (Nat.le_0_l bound)) as Hc.
  unfold delivers. destruct (reader_loop read fuel _) as [o p].
  destruct Hd as [(sent & Ha & Hp) Ho]. destruct Hc as (Hbd & Hw & Hst). cbn in Ha, Hbd.
  unfold ch_accepted in Ha. unfold within_bound in Hw. rewrite Hbd in *.
  exists l, e, r'. rewrite Ha. split_and!; [done..|].
  destruct o as [u|[]|]; [| |done|done].
  - intros Halive. destruct Ho as [Hres ?]; [cbn; by rewrite Halive|]. cbn in Hres.
    unfold ch_accepted in Hres. by rewrite <-Hres, Ha.
  - by apply Hst.
Qed.

(** C15: the background receivers.  On any byte stream, whatever the bound of the channel
    and whatever its consumer does, and with fuel beyond the length of the stream: what
    the thread has put into the channel is a prefix of what the stream holds, in order
    (each message once, then the first error, nothing after it), and never more than the
    bound is waiting.  The thread ends; if the consumer has not hung up everything was
    delivered.  The one other outcome is that it sleeps for ever in a [send], the
    channel full and the consumer taking nothing more. *)
Theorem device_pump_delivers {R} `{StreamReader R} (r : R) (bound : nat) (plan : list Act) (fuel : nat)
    (Hr : is_bytes (unread r)) (Hf : (length (unread r) < fuel)%nat) :
  delivers read_device_event
    (device_event_loop fuel (spawn_device_event_receiver r bound plan)) bound r ∧
  delivers read_device_message
    (device_message_loop fuel (spawn_device_message_receiver r bound plan)) bound r.
Proof.
  split.
  - exact (loop_delivers_stream read_device_event event_wire r bound plan fuel sound_device_event
      event_wire_nonempty device_event_returns Hr Hf).
  - exact (loop_delivers_stream read_device_message (λ m, event_wire (Native m)) r bound plan fuel
      sound_device_message (λ m, event_wire_nonempty (Native m)) device_message_returns Hr Hf).
Qed.

(** A bound of 1 and a consumer that takes two messages of three results and then stops. *)
Definition slow_stream : bytes := concat sample_stream.
Definition slow_plan : list Act := [Yield; Yield; Take; Yield; Take; Yield].

Lemma device_pump_delivers_witness :
  (device_event_loop 100 (spawn_device_event_receiver slow_stream 1 slow_plan)).1 = Err StuckInSend ∧
  delivers read_device_event
    (device_event_loop 100 (spawn_device_event_receiver slow_stream 1 slow_plan)) 1 slow_stream.
Proof.
  split; [vm_compute; reflexivity|].
  apply (device_pump_delivers (R := bytes) slow_stream 1 slow_plan 100).
  - apply (bool_decide_unpack _). vm_compute. exact I.
  - apply Nat.ltb_lt. vm_compute. reflexivity.
Defined.
