(* ===== verification/LatestFrame.v ===== *)
(** * The latest-frame receiver ([src/src/device.rs])

    A pump thread reads device events and keeps the newest frame summary with a version
    number in a shared cell; readers look at it or wait for a change.  [Shared] is the
    cell, the pump and the other things a waiter meets: the number of handles on the
    cell, the clock (nanoseconds), and the schedule, which says how far the pump gets,
    and how much time passes, in each sleep of a waiter.  A condition variable may wake a
    waiter for nothing, which is a sleep in which the pump does not get on. *)

From S2P Require Import Prelude Words Utf8 Float32 FloatBits Errors Io AiSummary Device DevicePump.
Local Open Scope Z_scope.

(** ** Snapshots, boundaries, observations *)

Record LatestFrameSummarySnapshot : Set := mkSnapshot { sn_version : Z; sn_summary : FrameSummary }.
Record LatestFrameSummaryBoundary : Set := Boundary_new { bd_version : Z }.
Record LatestFrameSummaryObservation : Set := mkObservation
  { obs_boundary : LatestFrameSummaryBoundary; obs_snapshot : option LatestFrameSummarySnapshot }.

Abbreviation Snapshot := LatestFrameSummarySnapshot (only parsing).
Abbreviation Boundary := LatestFrameSummaryBoundary (only parsing).
Abbreviation Observation := LatestFrameSummaryObservation (only parsing).

#[export] Instance Snapshot_eq_dec : EqDecision LatestFrameSummarySnapshot.
Proof. solve_decision. Defined.

Definition snapshot_boundary (s : Snapshot) : Boundary := Boundary_new (sn_version s).
Definition Boundary_from_snapshot (s : Snapshot) : Boundary := snapshot_boundary s.
Definition Boundary_version (b : Boundary) : Z := bd_version b.
Definition Boundary_accepts (b : Boundary) (s : Snapshot) : bool := bd_version b <? sn_version s.

(** [from_parts] asserts, in debug builds, that the two parts agree. *)
Definition from_parts {E} (debug : bool) (b : Boundary) (s : option Snapshot) : outcome E Observation :=
  if debug && match s with
              | Some s => negb (sn_version s =? Boundary_version b)
              | None => false
              end
  then Panicked else Ok (mkObservation b s).
Definition at_boundary (b : Boundary) : Observation := mkObservation b None.
Definition at_version (version : Z) : Observation := at_boundary (Boundary_new version).
Definition Observation_from_snapshot (s : Snapshot) : Observation :=
  mkObservation (snapshot_boundary s) (Some s).
Definition boundary_version (o : Observation) : Z := Boundary_version (obs_boundary o).
Definition has_snapshot (o : Observation) : bool :=
  match obs_snapshot o with Some _ => true | None => false end.
Definition into_snapshot (o : Observation) : option Snapshot := obs_snapshot o.
Definition observation_summary (o : Observation) : option FrameSummary :=
  sn_summary <$> obs_snapshot o.
Definition Observation_accepts (o : Observation) (s : Snapshot) : bool :=
  Boundary_accepts (obs_boundary o) s.

(** [DeviceReadError] *)
Record DeviceReadError : Set := mkReadError { re_kind : ErrorKind; re_message : string }.
Definition from_io_error (e : IoError) : DeviceReadError := mkReadError (io_kind e) (io_text e).
Definition to_io_error (e : DeviceReadError) : IoError := mkIoError (re_kind e) (re_message e).

(** ** The cell *)

Record LatestFrameSummaryState : Set := mkLatest
  { latest : option LatestFrameSummarySnapshot; version : Z; terminal_error : option DeviceReadError }.
Definition Latest_default : LatestFrameSummaryState := mkLatest None 0 None.

Definition U64_MAX : Z := 2 ^ 64 - 1.

Definition store_summary (summary : FrameSummary) (s : LatestFrameSummaryState) :
    LatestFrameSummaryState :=
  let v := Z.min (version s + 1) U64_MAX in
  mkLatest (Some (mkSnapshot v summary)) v (terminal_error s).
Definition store_terminal_error (e : IoError) (s : LatestFrameSummaryState) :
    LatestFrameSummaryState :=
  mkLatest (latest s) (version s) (Some (from_io_error e)).

(** ** The pump *)

(** A sleep of a waiter: how many turns the pump makes meanwhile, how long it lasts. *)
Record Sleep : Set := mkSleep { turns : nat; lasts : Z }.

Record Shared (R : Type) : Type := mkShared
  { cell : LatestFrameSummaryState; source : R; pumping : bool; handles : nat;
    clock : Z; sleeps : list Sleep }.
Arguments mkShared {R}. Arguments cell {R}. Arguments source {R}. Arguments pumping {R}.
Arguments handles {R}. Arguments clock {R}. Arguments sleeps {R}.

(** How a wait ends without a snapshot: an error, or never. *)
Inductive Waiting : Set :=
  | Failed (e : IoError)
  | Blocked.

Section Receiver.
Context {R : Type} `{!Read R}.
Abbreviation W := (Shared R).
Implicit Types w : W.

Definition set_cell (s : LatestFrameSummaryState) (r : R) (on : bool) w : W :=
  mkShared s r on (handles w) (clock w) (sleeps w).
Definition set_sleeps (l : list Sleep) w : W :=
  mkShared (cell w) (source w) (pumping w) (handles w) (clock w) l.
Definition set_clock (t : Z) w : W :=
  mkShared (cell w) (source w) (pumping w) (handles w) t (sleeps w).
Definition set_handles (n : nat) w : W :=
  mkShared (cell w) (source w) (pumping w) n (clock w) (sleeps w).

(** [spawn_latest_frame_summary_receiver]: the caller's handle and the pump's. *)
Definition spawn_latest_frame_summary_receiver (reader : R) (t : Z) (l : list Sleep) : W :=
  mkShared Latest_default reader true 2 t l.

(** [clone] and [drop] of a handle. *)
Definition clone_handle w : W := set_handles (S (handles w)) w.
Definition drop_handle w : W := set_handles (pred (handles w)) w.

Definition is_abandoned w : bool := Nat.eqb (handles w) 1.

(** The pump ends: its own handle goes with it. *)
Definition pump_ends (s : LatestFrameSummaryState) (r : R) w : W :=
  drop_handle (set_cell s r false w).

(** One turn of [latest_frame_summary_loop]. *)
Definition pump_turn w : W :=
  if negb (pumping w) then w
  else if is_abandoned w then pump_ends (cell w) (source w) w
  else
    match read_device_event (source w) with
    | (Ok (Ev_FrameSummary summary), r) => set_cell (store_summary summary (cell w)) r true w
    | (Ok _, r) => set_cell (cell w) r true w
    | (Err e, r) => pump_ends (store_terminal_error e (cell w)) r w
    | (Panicked, r) => pump_ends (cell w) r w
    end.

Definition pump_turns (n : nat) w : W := Nat.iter n pump_turn w.

(** What happens in a sleep. *)
Definition pass (s : Sleep) w : W := pump_turns (turns s) (set_clock (clock w + lasts s) w).

(** ** Looking *)

Definition snapshot {E} : cmd W E (option Snapshot) := read (λ w, latest (cell w)).
Definition version_now {E} : cmd W E Z := read (λ w, version (cell w)).
Definition boundary {E} : cmd W E Boundary := v ← version_now; mret (Boundary_new v).
Definition observe {E} (debug : bool) : cmd W E Observation := λ w,
  (from_parts debug (Boundary_new (version (cell w))) (latest (cell w)), w).
Definition terminal_error_now {E} : cmd W E (option DeviceReadError) :=
  read (λ w, terminal_error (cell w)).
Definition snapshot_after_version {E} (after_version : Z) : cmd W E (option Snapshot) :=
  read (λ w, if after_version <? version (cell w) then latest (cell w) else None).
Definition snapshot_after_boundary {E} (b : Boundary) : cmd W E (option Snapshot) :=
  snapshot_after_version (Boundary_version b).
Definition snapshot_after_observation {E} (o : Observation) : cmd W E (option Snapshot) :=
  snapshot_after_boundary (obs_boundary o).

(** [opt.filter(p)] *)
Definition keep_if {A} (p : A → bool) (o : option A) : option A :=
  a ← o; if p a then Some a else None.

Definition newer_frame (min_frame_seq : Z) (s : Snapshot) : bool :=
  min_frame_seq <? fs_frame_seq (sn_summary s).
Definition later_frame (min_timestamp_ms : Z) (s : Snapshot) : bool :=
  min_timestamp_ms <? fs_timestamp_ms (sn_summary s).

Definition snapshot_matching {E} (p : Snapshot → bool) : cmd W E (option Snapshot) :=
  s ← snapshot; mret (keep_if p s).
Definition snapshot_after_frame_seq {E} (min_frame_seq : Z) : cmd W E (option Snapshot) :=
  s ← snapshot; mret (keep_if (newer_frame min_frame_seq) s).
Definition snapshot_after_timestamp {E} (min_timestamp_ms : Z) : cmd W E (option Snapshot) :=
  s ← snapshot; mret (keep_if (later_frame min_timestamp_ms) s).

(** ** Waiting

    The head of the two loops: an accepted snapshot, else the terminal error.  The
    predicate is a function of the snapshot. *)
Definition look (p : Snapshot → bool) (s : LatestFrameSummaryState) : option (outcome Waiting Snapshot) :=
  match keep_if p (latest s) with
  | Some snap => Some (Ok snap)
  | None =>
      match terminal_error s with
      | Some e => Some (Err (Failed (to_io_error e)))
      | None => None
      end
  end.

(** Each turn is a sleep of the schedule; after the last one nobody notifies again. *)
Fixpoint wait_turns (l : list Sleep) (p : Snapshot → bool) : cmd W Waiting Snapshot := λ w,
  match look p (cell w) with
  | Some o => (o, set_sleeps l w)
  | None =>
      match l with
      | [] => (Err Blocked, set_sleeps [] w)
      | s :: l => wait_turns l p (pass s w)
      end
  end.
Definition wait_matching (p : Snapshot → bool) : cmd W Waiting Snapshot :=
  λ w, wait_turns (sleeps w) p w.

Definition wait_next_matching (after_version : Z) (p : Snapshot → bool) : cmd W Waiting Snapshot :=
  wait_matching (λ s, (after_version <? sn_version s) && p s).
Definition wait_next (after_version : Z) : cmd W Waiting Snapshot :=
  wait_next_matching after_version (λ _, true).
Definition wait_next_after_boundary (b : Boundary) : cmd W Waiting Snapshot :=
  wait_next (Boundary_version b).
Definition wait_next_after_observation (o : Observation) : cmd W Waiting Snapshot :=
  wait_next_after_boundary (obs_boundary o).
Definition wait_next_matching_after_boundary (b : Boundary) (p : Snapshot → bool) :
    cmd W Waiting Snapshot := wait_next_matching (Boundary_version b) p.
Definition wait_next_matching_after_observation (o : Observation) (p : Snapshot → bool) :
    cmd W Waiting Snapshot := wait_next_matching_after_boundary (obs_boundary o) p.
Definition wait_first : cmd W Waiting Snapshot := wait_next 0.
Definition wait_after_frame_seq (min_frame_seq : Z) : cmd W Waiting Snapshot :=
  wait_matching (newer_frame min_frame_seq).
Definition wait_after_timestamp (min_timestamp_ms : Z) : cmd W Waiting Snapshot :=
  wait_matching (later_frame min_timestamp_ms).

(** ** Waiting until a deadline *)

(** [Instant + Duration] unwinds past the last representable instant ([i64] seconds). *)
Definition INSTANT_LIMIT : Z := 2 ^ 63 * 10 ^ 9.

Definition timed_out : IoError := mkIoError TimedOut "latest frame summary timeout".

(** [wait_timeout] wakes at the deadline at the latest when nobody notifies. *)
Fixpoint wait_turns_until (l : list Sleep) (deadline : Z) (p : Snapshot → bool) :
    cmd W Waiting Snapshot := λ w,
  match look p (cell w) with
  | Some o => (o, set_sleeps l w)
  | None =>
      if deadline <=? clock w then (Err (Failed timed_out), set_sleeps l w)
      else
        match l with
        | [] => (Err (Failed timed_out), set_sleeps [] (set_clock deadline w))
        | s :: l => wait_turns_until l deadline p (pass s w)
        end
  end.
Definition wait_matching_timeout (timeout : Z) (p : Snapshot → bool) : cmd W Waiting Snapshot := λ w,
  let deadline := clock w + timeout in
  if INSTANT_LIMIT <=? deadline then (Panicked, w)
  else wait_turns_until (sleeps w) deadline p w.

Definition wait_next_matching_timeout (after_version timeout : Z) (p : Snapshot → bool) :
    cmd W Waiting Snapshot :=
  wait_matching_timeout timeout (λ s, (after_version <? sn_version s) && p s).
Definition wait_next_timeout (after_version timeout : Z) : cmd W Waiting Snapshot :=
  wait_next_matching_timeout after_version timeout (λ _, true).
Definition wait_next_after_boundary_timeout (b : Boundary) (timeout : Z) : cmd W Waiting Snapshot :=
  wait_next_timeout (Boundary_version b) timeout.
Definition wait_next_after_observation_timeout (o : Observation) (timeout : Z) :
    cmd W Waiting Snapshot := wait_next_after_boundary_timeout (obs_boundary o) timeout.
Definition wait_next_matching_after_boundary_timeout (b : Boundary) (timeout : Z)
    (p : Snapshot → bool) : cmd W Waiting Snapshot :=
  wait_next_matching_timeout (Boundary_version b) timeout p.
Definition wait_next_matching_after_observation_timeout (o : Observation) (timeout : Z)
    (p : Snapshot → bool) : cmd W Waiting Snapshot :=
  wait_next_matching_after_boundary_timeout (obs_boundary o) timeout p.
Definition wait_first_timeout (timeout : Z) : cmd W Waiting Snapshot := wait_next_timeout 0 timeout.
Definition wait_after_frame_seq_timeout (min_frame_seq timeout : Z) : cmd W Waiting Snapshot :=
  wait_matching_timeout timeout (newer_frame min_frame_seq).
Definition wait_after_timestamp_timeout (min_timestamp_ms timeout : Z) : cmd W Waiting Snapshot :=
  wait_matching_timeout timeout (later_frame min_timestamp_ms).
End Receiver.

(** ** What the pump has stored *)

Definition summary_of (e : DeviceEvent) : option FrameSummary :=
  match e with Ev_FrameSummary s => Some s | _ => None end.
Definition summaries (es : list DeviceEvent) : list FrameSummary := omap summary_of es.

(** The abstract cell: the newest of the frames seen, numbered by how many there were. *)
Definition frames_cell (fs : list FrameSummary) : LatestFrameSummaryState :=
  let v := Z.min (Z.of_nat (length fs)) U64_MAX in
  mkLatest (mkSnapshot v <$> last fs) v None.

(** The cell after [k] turns over a stream of the events [es] that ends with [e]. *)
Definition pumped (k : nat) (es : list DeviceEvent) (e : IoError) : LatestFrameSummaryState :=
  if decide (k ≤ length es)%nat then frames_cell (summaries (take k es))
  else store_terminal_error e (frames_cell (summaries es)).

Definition take_event (s : LatestFrameSummaryState) (e : DeviceEvent) : LatestFrameSummaryState :=
  match e with Ev_FrameSummary f => store_summary f s | _ => s end.

Lemma store_frames fs f : store_summary f (frames_cell fs) = frames_cell (fs ++ [f]).
Proof.
  unfold store_summary, frames_cell. cbn. rewrite last_snoc, length_app. cbn.
  replace (Z.min (Z.min (Z.of_nat (length fs)) U64_MAX + 1) U64_MAX)
    with (Z.min (Z.of_nat (length fs + 1)) U64_MAX) by lia. done.
Qed.

Lemma take_events fs es :
  foldl take_event (frames_cell fs) es = frames_cell (fs ++ summaries es).
Proof.
  revert fs. induction es as [|e es IH]; intros fs; cbn; [by rewrite app_nil_r|].
  destruct e; cbn; rewrite ?store_frames, IH; try done. by rewrite <-app_assoc.
Qed.

Section Pump.
Context {R : Type} `{!Read R}.
Abbreviation W := (Shared R).
Abbreviation trace := (reads_until_error (R := R) read_device_event).
Implicit Types w : W.

Lemma pump_turns_succ n w : pump_turns (S n) w = pump_turns n (pump_turn w).
Proof. apply Nat.iter_succ_r. Qed.

Lemma pump_turns_add n m w : pump_turns (n + m) w = pump_turns m (pump_turns n w).
Proof. unfold pump_turns. rewrite Nat.add_comm. apply Nat.iter_add. Qed.

Lemma pump_turn_clock t w : pump_turn (set_clock t w) = set_clock t (pump_turn w).
Proof.
  unfold pump_turn, is_abandoned, pump_ends, drop_handle. cbn.
  destruct (negb (pumping w)); [done|]. destruct (handles w =? 1)%nat; [done|].
  by destruct (read_device_event (source w)) as [[[]|e|] r].
Qed.

Lemma pump_turns_clock n t w : pump_turns n (set_clock t w) = set_clock t (pump_turns n w).
Proof.
  revert w. induction n as [|n IH]; intros w; [done|].
  by rewrite !pump_turns_succ, pump_turn_clock, IH.
Qed.

Lemma pump_turn_sleeps w : sleeps (pump_turn w) = sleeps w ∧ clock (pump_turn w) = clock w.
Proof.
  unfold pump_turn, is_abandoned, pump_ends, drop_handle.
  destruct (negb (pumping w)); [done|]. destruct (handles w =? 1)%nat; [done|].
  by destruct (read_device_event (source w)) as [[[]|e|] r].
Qed.

Lemma pump_turns_sleeps n w : sleeps (pump_turns n w) = sleeps w ∧ clock (pump_turns n w) = clock w.
Proof.
  revert w. induction n as [|n IH]; intros w; [done|]. rewrite pump_turns_succ.
  destruct (IH (pump_turn w)) as [-> ->]. apply pump_turn_sleeps.
Qed.

(** A stopped pump does nothing. *)
Lemma pump_turns_stopped n w : pumping w = false → pump_turns n w = w.
Proof.
  intros H. induction n as [|n IH]; [done|]. rewrite pump_turns_succ.
  unfold pump_turn at 1. by rewrite H.
Qed.

Lemma pump_turns_cell n w es e r' :
  trace (source w) es e r' → pumping w = true → (2 ≤ handles w)%nat →
  cell (pump_turns n w) =
    if decide (n ≤ length es)%nat then foldl take_event (cell w) (take n es)
    else store_terminal_error e (foldl take_event (cell w) es).
Proof.
  intros H. revert n w H. induction es as [|ev es IH]; intros [|n] w H Hp Hh; try done.
  - inversion H; subst. rewrite decide_False by (cbn; lia). rewrite pump_turns_succ.
    unfold pump_turn, is_abandoned. rewrite Hp, (proj2 (Nat.eqb_neq _ 1)) by lia. cbn [negb].
    match goal with E : read_device_event _ = _ |- _ => rewrite E end.
    by rewrite pump_turns_stopped.
  - inversion H; subst. rewrite pump_turns_succ.
    assert (∃ w1, pump_turn w = w1 ∧ source w1 = r1 ∧ cell w1 = take_event (cell w) ev ∧
      pumping w1 = true ∧ handles w1 = handles w) as (w1 & -> & Hs & Hc & Hp1 & Hh1).
    { unfold pump_turn, is_abandoned. rewrite Hp, (proj2 (Nat.eqb_neq _ 1)) by lia. cbn [negb].
      match goal with E : read_device_event _ = _ |- _ => rewrite E end.
      destruct ev; eexists; split; [done| |done| |done| |done|]; done. }
    rewrite (IH n w1) by (rewrite ?Hs, ?Hh1; done). rewrite Hc. cbn [length take foldl].
    destruct (decide (n ≤ length es)%nat), (decide (S n ≤ S (length es))%nat); done || lia.
Qed.

Lemma spawn_cell n r t l es e r' :
  trace r es e r' →
  cell (pump_turns n (spawn_latest_frame_summary_receiver r t l)) = pumped n es e.
Proof.
  intros H. rewrite (pump_turns_cell n _ es e r') by done. unfold pumped.
  change (cell (spawn_latest_frame_summary_receiver r t l)) with (frames_cell []).
  case_decide; by rewrite take_events.
Qed.

(** ** The waits *)

Definition total (l : list Sleep) : nat := sum_list (turns <$> l).
Definition lapse (l : list Sleep) : Z := foldr Z.add 0 (lasts <$> l).

(** The state of affairs after the sleeps [l]. *)
Definition after (l : list Sleep) w : W := set_clock (clock w + lapse l) (pump_turns (total l) w).

Lemma after_nil w : after [] w = w.
Proof. unfold after, lapse. cbn. rewrite Z.add_0_r. by destruct w. Qed.

Lemma after_cons s l w : after l (pass s w) = after (s :: l) w.
Proof.
  unfold after, pass. rewrite pump_turns_clock. cbn [clock set_clock].
  rewrite pump_turns_clock, <-pump_turns_add. unfold total, lapse.
  cbn [fmap list_fmap sum_list foldr]. by rewrite Z.add_assoc.
Qed.

Lemma wait_turns_spec l p w :
  ∃ l1 l2, l = l1 ++ l2 ∧ (wait_turns l p w).2 = set_sleeps l2 (after l1 w) ∧
    match look p (cell (after l1 w)) with
    | Some o => (wait_turns l p w).1 = o
    | None => (wait_turns l p w).1 = Err Blocked ∧ l2 = []
    end.
Proof.
  revert w. induction l as [|s l IH]; intros w; cbn [wait_turns].
  - exists [], []. rewrite after_nil. by destruct (look p (cell w)).
  - destruct (look p (cell w)) as [o|] eqn:E.
    + exists [], (s :: l). rewrite after_nil, E. done.
    + destruct (IH (pass s w)) as (l1 & l2 & -> & H2 & H1). exists (s :: l1), l2.
      rewrite <-after_cons. done.
Qed.

Lemma wait_turns_until_spec l deadline p w :
  ∃ l1 l2, l = l1 ++ l2 ∧
    let w1 := after l1 w in
    let '(o, w') := wait_turns_until l deadline p w in
    match look p (cell w1) with
    | Some o' => o = o' ∧ w' = set_sleeps l2 w1
    | None => o = Err (Failed timed_out) ∧ cell w' = cell w1 ∧ deadline ≤ clock w'
    end.
Proof.
  revert w. induction l as [|s l IH]; intros w; cbn [wait_turns_until].
  - exists [], []. rewrite after_nil. cbv zeta. split; [done|].
    destruct (look p (cell w)); [done|]. by destruct (Z.leb_spec deadline (clock w)).
  - destruct (look p (cell w)) as [o|] eqn:E.
    { exists [], (s :: l). rewrite after_nil. cbv zeta. by rewrite E. }
    destruct (Z.leb_spec deadline (clock w)) as [?|Hd].
    { exists [], (s :: l). rewrite after_nil. cbv zeta. by rewrite E. }
    destruct (IH (pass s w)) as (l1 & l2 & -> & H). exists (s :: l1), l2.
    rewrite <-after_cons. done.
Qed.
End Pump.

Lemma turns_app l1 l2 : total (l1 ++ l2) = (total l1 + total l2)%nat.
Proof. induction l1 as [|s l1 IH]; [done|]. unfold total in *. cbn in *. lia. Qed.

Lemma to_from_io_error e : to_io_error (from_io_error e) = e.
Proof. by destruct e. Qed.

(** What [look] finds in a cell the pump has written. *)
Lemma look_pumped p k es e :
  let s := pumped k es e in
  match look p s with
  | Some (Ok sn) => latest s = Some sn ∧ p sn = true ∧ sn_version sn = version s
  | Some (Err (Failed e')) => e' = e ∧ (length es < k)%nat ∧ keep_if p (latest s) = None
  | Some _ => False
  | None => (k ≤ length es)%nat ∧ keep_if p (latest s) = None
  end.
Proof.
  cbv zeta. unfold look.
  assert (∀ sn, latest (pumped k es e) = Some sn → sn_version sn = version (pumped k es e)) as Hv.
  { intros sn. unfold pumped. destruct (decide _); unfold frames_cell; cbn;
      intros (f & _ & ->)%fmap_Some; done. }
  destruct (keep_if p (latest (pumped k es e))) as [sn|] eqn:E.
  - apply bind_Some in E as (sn' & El & Ep). destruct (p sn') eqn:Hp; simplify_eq. auto.
  - unfold pumped at 1. case_decide; cbn; [done|].
    rewrite to_from_io_error. split_and!; [done|lia|done].
Qed.

Section Waits.
Context {R : Type} `{!Read R}.

(** A receiver on [r], [n] turns after its pump was started. *)
Definition running (r : R) (n : nat) (t : Z) (l : list Sleep) : Shared R :=
  pump_turns n (spawn_latest_frame_summary_receiver r t l).

Lemma running_sleeps r n t l : sleeps (running r n t l) = l.
Proof.
  unfold running. by destruct (pump_turns_sleeps n (spawn_latest_frame_summary_receiver r t l)) as [-> _].
Qed.

Lemma running_cell r n t l es e r' l1 :
  reads_until_error read_device_event r es e r' →
  cell (after l1 (running r n t l)) = pumped (n + total l1) es e.
Proof.
  intros H. unfold after, running. cbn [cell set_clock]. rewrite <-pump_turns_add.
  by eapply spawn_cell.
Qed.

Lemma keep_if_none {A} (p : A → bool) o : keep_if p o = None ↔ (∀ a, o = Some a → p a = false).
Proof.
  unfold keep_if. destruct o as [a|]; cbn; [|done]. destruct (p a) eqn:E; split; try done.
  - intros H. by rewrite (H a) in E.
  - by intros _ a' [= <-].
Qed.

(** The newer-than predicate of the [wait_next] family. *)
Definition newer_than (v : Z) (p : LatestFrameSummarySnapshot → bool) (s : LatestFrameSummarySnapshot) : bool :=
  (v <? sn_version s) && p s.
End Waits.

(** C14: the latest-frame receiver and its waits without a deadline.  A waiter that starts
    at any point of the pump's run sees the cell as the stream has it at some later
    point [k]: the last of the frames so far, numbered by their count.  It returns a
    snapshot that is accepted, newer than asked for, and the newest there is; or, after
    the stream's end and only when nothing acceptable is there, the error that ended it.
    It never returns only if the pump makes no more turns than the stream has events. *)
Theorem wait_next_matching_outcome {R} `{!Read R} (r : R) (n : nat) (t : Z) (l : list Sleep)
    (v : Z) (p : LatestFrameSummarySnapshot → bool) es e r'
    (Hr : reads_until_error read_device_event r es e r') :
  let '(o, w') := wait_next_matching v p (running r n t l) in
  ∃ k, (n ≤ k ≤ n + total l)%nat ∧ cell w' = pumped k es e ∧
  match o with
  | Ok s => latest (cell w') = Some s ∧ version (cell w') = sn_version s ∧ v < sn_version s ∧ p s = true
  | Err (Failed e') =>
      e' = e ∧ (length es < k)%nat ∧ ∀ s, latest (cell w') = Some s → newer_than v p s = false
  | Err Blocked =>
      (n + total l ≤ length es)%nat ∧ ∀ s, latest (cell w') = Some s → newer_than v p s = false
  | Panicked => False
  end.
Proof.
  unfold wait_next_matching, wait_matching. rewrite running_sleeps.
  destruct (wait_turns_spec l (newer_than v p) (running r n t l)) as (l1 & l2 & -> & H2 & H1).
  unfold newer_than in H1, H2. destruct (wait_turns (l1 ++ l2) _ _) as [o w']. cbn [fst snd] in H1, H2. subst w'.
  exists (n + total l1)%nat. rewrite turns_app. cbn [cell set_sleeps].
  rewrite (running_cell _ _ _ _ _ _ _ _ Hr) in *. split; [lia|]. split; [done|].
  pose proof (look_pumped (newer_than v p) (n + total l1) es e) as Hl. cbv zeta in Hl.
  unfold newer_than in Hl at 1. destruct (look _ _) as [[sn|[e'|]|]|]; [| |done|done|].
  - subst o. destruct Hl as (Hlat & [Hv ?]%andb_true_iff & ?). apply Z.ltb_lt in Hv. done.
  - subst o. destruct Hl as (-> & ? & Hk). pose proof (proj1 (keep_if_none _ _) Hk). done.
  - destruct H1 as [-> ->]. destruct Hl as [? Hk]. pose proof (proj1 (keep_if_none _ _) Hk).
    split; [unfold total at 2; cbn; lia|done].
Qed.

(** The waits with a deadline always return.  Whatever the schedule, [wait_next] with
    a timeout ends with a newer accepted snapshot, the newest there is; or with the
    stream's error; or it has timed out: the deadline has passed by the clock and the
    cell holds nothing acceptable.  It unwinds exactly when the deadline is past the
    last instant, however soon a frame would come. *)
Theorem wait_next_matching_timeout_outcome {R} `{!Read R} (r : R) (n : nat) (t : Z) (l : list Sleep)
    (v timeout : Z) (p : LatestFrameSummarySnapshot → bool) es e r'
    (Hr : reads_until_error read_device_event r es e r') :
  let w := running r n t l in
  let '(o, w') := wait_next_matching_timeout v timeout p w in
  (o = Panicked ↔ INSTANT_LIMIT ≤ clock w + timeout) ∧
  ∃ k, (n ≤ k ≤ n + total l)%nat ∧ cell w' = pumped k es e ∧
  match o with
  | Ok s => latest (cell w') = Some s ∧ version (cell w') = sn_version s ∧ v < sn_version s ∧ p s = true
  | Err (Failed e') =>
      (∀ s, latest (cell w') = Some s → newer_than v p s = false) ∧
      (e' = e ∧ (length es < k)%nat ∨ e' = timed_out ∧ clock w + timeout ≤ clock w' ∧ (k ≤ length es)%nat)
  | Err Blocked => False
  | Panicked => True
  end.
Proof.
  cbv zeta. unfold wait_next_matching_timeout, wait_matching_timeout.
  destruct (Z.leb_spec INSTANT_LIMIT (clock (running r n t l) + timeout)) as [Hlim|Hlim].
  { split; [done|]. exists n. split; [lia|]. split; [|done].
    rewrite <-(after_nil (running r n t l)), (running_cell _ _ _ _ _ _ _ _ Hr).
    unfold total. cbn. by rewrite Nat.add_0_r. }
  rewrite running_sleeps.
  destruct (wait_turns_until_spec l (clock (running r n t l) + timeout) (newer_than v p)
    (running r n t l)) as (l1 & l2 & -> & H). cbv zeta in H. unfold newer_than in H.
  destruct (wait_turns_until (l1 ++ l2) _ _ _) as [o w'].
  rewrite turns_app. rewrite (running_cell _ _ _ _ _ _ _ _ Hr) in H.
  pose proof (look_pumped (newer_than v p) (n + total l1) es e) as Hl. cbv zeta in Hl.
  unfold newer_than in Hl at 1. destruct (look _ _) as [[sn|[e'|]|]|]; [| |done|done|].
  - destruct H as [-> ->]. destruct Hl as (Hlat & [Hv ?]%andb_true_iff & ?). apply Z.ltb_lt in Hv.
    split; [split; [done|lia]|]. exists (n + total l1)%nat. cbn [cell set_sleeps].
    rewrite (running_cell _ _ _ _ _ _ _ _ Hr). split; [lia|]. split; [done|]. done.
  - destruct H as [-> ->]. destruct Hl as (-> & ? & Hk). pose proof (proj1 (keep_if_none _ _) Hk).
    split; [split; [done|lia]|]. exists (n + total l1)%nat. cbn [cell set_sleeps].
    rewrite (running_cell _ _ _ _ _ _ _ _ Hr). split; [lia|]. split; [done|]. split; [done|by left].
  - destruct H as (-> & Hc & Hclk). destruct Hl as [? Hk]. pose proof (proj1 (keep_if_none _ _) Hk).
    split; [split; [done|lia]|]. exists (n + total l1)%nat. rewrite Hc.
    split; [lia|]. split; [done|]. split; [done|right]. done.
Qed.

(** A stream of one acknowledgement and two frames. *)
Definition two_frames : bytes :=
  message_wire (AckClipboard 7) ++
  envelope TYPE_FRAME_SUMMARY (frame_bytes sample_frame) ++
  envelope TYPE_FRAME_SUMMARY (frame_bytes sample_frame).

Lemma two_frames_read :
  reads_until_error read_device_event two_frames
    [Native (AckClipboard 7); Ev_FrameSummary sample_frame; Ev_FrameSummary sample_frame]
    slice_eof [].
Proof.
  eapply reads_more; [vm_compute; reflexivity|]. eapply reads_more; [vm_compute; reflexivity|].
  eapply reads_more; [vm_compute; reflexivity|]. apply reads_stop. vm_compute. reflexivity.
Qed.

(** Two turns before the wait, one in its sleep: the second frame. *)
Lemma wait_next_matching_outcome_witness :
  (wait_next_matching 1 (λ _, true) (running two_frames 2 0 [mkSleep 0 5; mkSleep 1 5])).1
  = Ok (mkSnapshot 2 sample_frame) ∧
  let '(o, w') := wait_next_matching 1 (λ _, true) (running two_frames 2 0 [mkSleep 0 5; mkSleep 1 5]) in
  ∃ k, (2 ≤ k ≤ 2 + 1)%nat ∧ cell w' = pumped k
    [Native (AckClipboard 7); Ev_FrameSummary sample_frame; Ev_FrameSummary sample_frame] slice_eof ∧
  match o with
  | Ok s => latest (cell w') = Some s ∧ version (cell w') = sn_version s ∧ 1 < sn_version s ∧ true = true
  | _ => True
  end.
Proof.
  split; [vm_compute; reflexivity|].
  pose proof (wait_next_matching_outcome two_frames 2 0 [mkSleep 0 5; mkSleep 1 5] 1 (λ _, true)
    _ _ _ two_frames_read) as H.
  destruct (wait_next_matching _ _ _) as [o w']. destruct H as (k & H1 & H2 & H3).
  exists k. split; [exact H1|]. split; [exact H2|]. destruct o; [exact H3|exact I|exact I].
Defined.

(** Nobody gets on with the stream: 12 nanoseconds are over after the third sleep. *)
Lemma wait_next_matching_timeout_outcome_witness :
  let '(o, w') := wait_next_matching_timeout 1 12 (λ _, true) (running two_frames 2 0 (replicate 5 (mkSleep 0 5))) in
  o = Err (Failed timed_out) ∧ 12 ≤ clock w' ∧ o ≠ Panicked.
Proof.
  pose proof (wait_next_matching_timeout_outcome two_frames 2 0 (replicate 5 (mkSleep 0 5)) 1 12
    (λ _, true) _ _ _ two_frames_read) as H. cbv zeta in H.
  assert ((wait_next_matching_timeout 1 12 (λ _, true)
    (running two_frames 2 0 (replicate 5 (mkSleep 0 5)))).1 = Err (Failed timed_out)) as Ho
    by (vm_compute; reflexivity).
  destruct (wait_next_matching_timeout _ _ _ _) as [o w']. cbn in Ho. subst o.
  destruct H as [Hp (k & _ & _ & _ & [[He _]|(_ & Hc & _)])]; [discriminate He|].
  split; [reflexivity|]. split; [exact Hc|]. discriminate.
Defined.

(** In a cell the pump has written the parts of an observation agree, so the debug
    assertion of [from_parts] holds. *)
Lemma observe_consistent {R} `{!Read R} {E} debug (w : Shared R) k es e :
  cell w = pumped k es e →
  ∃ o, observe (E := E) debug w = (Ok o, w) ∧ obs_snapshot o = latest (cell w) ∧
       boundary_version o = version (cell w) ∧
       ∀ s, obs_snapshot o = Some s → sn_version s = boundary_version o.
Proof.
  intros Hc. assert (∀ s, latest (cell w) = Some s → sn_version s = version (cell w)) as Hv.
  { rewrite Hc. unfold pumped. destruct (decide _); unfold frames_cell; cbn;
      intros s (f & _ & ->)%fmap_Some; done. }
  exists (mkObservation (Boundary_new (version (cell w))) (latest (cell w))).
  split_and!; [|done..]. unfold observe, from_parts. cbn.
  destruct (latest (cell w)) as [s|]; [|by rewrite andb_false_r].
  by rewrite (Hv s eq_refl), Z.eqb_refl, andb_false_r.
Qed.
