(* ===== verification/AsyncDevice.v ===== *)
(** * The asynchronous side ([src/src/async_device.rs])

    The decoders, receiver tasks and latest-frame receiver over [tokio].  What is
    [tokio]'s is a parameter: the stream is any [Read], the message channel any [Sender],
    the publishing half of the watch channel any [WatchSender], and the receiving half
    answers from a list of [Wake]s: the values later [changed().await]s find, the loss of
    the sender, the end of a timeout. *)

From S2P Require Import Prelude Words Utf8 Utf8Lossy Format Errors Io AiSummary Device DevicePump LatestFrame.
Local Open Scope Z_scope.

(** ** The decoders *)

Section Decoders.
Context {R : Type} `{!Read R}.

Definition read_u8_async : cmd R IoError Z := read_be 1.
Definition read_u16_be_async : cmd R IoError Z := read_be 2.
Definition read_u32_be_async : cmd R IoError Z := read_be 4.
Definition read_u64_be_async : cmd R IoError Z := read_be 8.

Definition read_clipboard_async : cmd R IoError DeviceMessage :=
  len ← read_u32_be_async;
  if DEVICE_MSG_TEXT_MAX_LENGTH <? len then raise (too_large "clipboard" len)
  else
    payload ← read_payload len;
    match from_utf8 payload with
    | Ok text => mret (Clipboard text)
    | Err e => raise (invalid_data (Utf8Error_display e))
    | Panicked => unwind
    end.

Definition read_ack_clipboard_async : cmd R IoError DeviceMessage :=
  sequence ← read_u64_be_async; mret (AckClipboard sequence).

Definition read_uhid_output_async : cmd R IoError DeviceMessage :=
  id ← read_u16_be_async;
  size ← read_u16_be_async;
  if DEVICE_MSG_MAX_SIZE - 5 <? size then raise (too_large "uhid output" size)
  else
    data ← read_payload size;
    mret (UhidOutput id data).

Definition read_ai_or_unknown_envelope_async (ty : Z) : cmd R IoError DeviceEvent :=
  len ← read_u32_be_async;
  if DEVICE_MSG_MAX_SIZE - 5 <? len then raise (too_large "device event" len)
  else
    payload ← read_payload len;
    if ty =? TYPE_FRAME_SUMMARY then ai_result Ev_FrameSummary (FrameSummary_parse payload)
    else if ty =? TYPE_AI_STATS then ai_result Ev_AiStats (AiStats_parse payload)
    else mret (UnknownEnvelope ty payload).

Definition read_device_message_async : cmd R IoError DeviceMessage :=
  ty ← read_u8_async;
  if ty =? TYPE_CLIPBOARD then read_clipboard_async
  else if ty =? TYPE_ACK_CLIPBOARD then read_ack_clipboard_async
  else if ty =? TYPE_UHID_OUTPUT then read_uhid_output_async
  else raise (invalid_data ("unknown device message type " +:+ pretty ty)).

Definition read_device_event_async : cmd R IoError DeviceEvent :=
  ty ← read_u8_async;
  if ty =? TYPE_CLIPBOARD then m ← read_clipboard_async; mret (Native m)
  else if ty =? TYPE_ACK_CLIPBOARD then m ← read_ack_clipboard_async; mret (Native m)
  else if ty =? TYPE_UHID_OUTPUT then m ← read_uhid_output_async; mret (Native m)
  else read_ai_or_unknown_envelope_async ty.

Definition read_scrcpy_control_prefix_async : cmd R IoError ScrcpyControlPrefix :=
  dummy_byte ← read_u8_async;
  raw_device_name ← read_exact DEVICE_NAME_FIELD_LENGTH;
  mret (mkControlPrefix dummy_byte
          (from_utf8_lossy (take (name_len raw_device_name) raw_device_name)) raw_device_name).

(** [AsyncDeviceMessageReceiver] *)
Record AsyncDeviceMessageReceiver : Type := AsyncDeviceMessageReceiver_new { async_reader : R }.
Definition read_next_async : cmd AsyncDeviceMessageReceiver IoError DeviceMessage :=
  zoom async_reader (λ r _, AsyncDeviceMessageReceiver_new r) read_device_message_async.
Definition read_next_event_async : cmd AsyncDeviceMessageReceiver IoError DeviceEvent :=
  zoom async_reader (λ r _, AsyncDeviceMessageReceiver_new r) read_device_event_async.
End Decoders.

(** ** The tasks *)

Section Tasks.
Context {R C : Type} `{!Read R}.

Definition async_device_message_loop `{!Sender C (outcome IoError DeviceMessage)} :
    nat → cmd (Pump R C) Halt unit := reader_loop read_device_message_async.
Definition async_device_event_loop `{!Sender C (outcome IoError DeviceEvent)} :
    nat → cmd (Pump R C) Halt unit := reader_loop read_device_event_async.
End Tasks.

(** ** The latest-frame task

    The state it publishes has the fields of the synchronous cell. *)
Definition AsyncLatestFrameSummaryState : Set := LatestFrameSummaryState.

(** The publishing half of a watch channel: how many receivers there are when asked;
    [send_replace], which always stores the value; [send], which does not when it finds no
    receiver.  [published] is what has been stored. *)
Class WatchSender (T : Type) := {
  receiver_count : T → nat * T;
  send_replace : AsyncLatestFrameSummaryState → T → T;
  watch_send : AsyncLatestFrameSummaryState → T → T;
}.
Class LawfulWatch (T : Type) `{!WatchSender T} := {
  published : T → list AsyncLatestFrameSummaryState;
  receiver_count_published t : published (receiver_count t).2 = published t;
  send_replace_published s t : published (send_replace s t) = published t ++ [s];
  watch_send_published s t :
    published (watch_send s t) = published t ++ [s] ∨
    published (watch_send s t) = published t ∧ (receiver_count t).1 = 0%nat;
}.

Section LatestTask.
Context {R T : Type} `{!Read R, !WatchSender T}.

Fixpoint async_latest_frame_summary_loop (fuel : nat) (state : AsyncLatestFrameSummaryState) :
    cmd (Pump R T) Halt unit := λ p,
  match fuel with
  | O => (Err StillRunning, p)
  | S fuel =>
      let '(n, tx) := receiver_count (pump_tx p) in
      if Nat.eqb n 0 then (Ok tt, mkPump (pump_reader p) tx)
      else
        match read_device_event_async (pump_reader p) with
        | (Ok (Ev_FrameSummary summary), r) =>
            let state := store_summary summary state in
            async_latest_frame_summary_loop fuel state (mkPump r (send_replace state tx))
        | (Ok _, r) => async_latest_frame_summary_loop fuel state (mkPump r tx)
        | (Err e, r) => (Ok tt, mkPump r (watch_send (store_terminal_error e state) tx))
        | (Panicked, r) => (Panicked, mkPump r tx)
        end
  end.

Definition spawn_async_latest_frame_summary_receiver (reader : R) (tx : T) (fuel : nat) :
    outcome Halt unit * Pump R T :=
  async_latest_frame_summary_loop fuel Latest_default (mkPump reader tx).
End LatestTask.

(** ** The latest-frame receiver *)

Inductive Wake : Set :=
  | Changed (s : AsyncLatestFrameSummaryState)
  | SenderGone
  | Elapsed.

(** What [borrow] shows, and what the coming waits find. *)
Record AsyncLatestFrameSummaryReceiver : Set := mkAsyncReceiver
  { shown : AsyncLatestFrameSummaryState; wakes : list Wake }.
Abbreviation AR := AsyncLatestFrameSummaryReceiver.

Definition async_snapshot {E} : cmd AR E (option Snapshot) := read (λ a, latest (shown a)).
Definition async_version {E} : cmd AR E Z := read (λ a, version (shown a)).
Definition async_boundary {E} : cmd AR E Boundary := v ← async_version; mret (Boundary_new v).
Definition async_observe {E} (debug : bool) : cmd AR E Observation := λ a,
  (from_parts debug (Boundary_new (version (shown a))) (latest (shown a)), a).
Definition async_terminal_error {E} : cmd AR E (option DeviceReadError) :=
  read (λ a, terminal_error (shown a)).
Definition async_snapshot_after_version {E} (after_version : Z) : cmd AR E (option Snapshot) :=
  read (λ a, if after_version <? version (shown a) then latest (shown a) else None).
Definition async_snapshot_after_boundary {E} (b : Boundary) : cmd AR E (option Snapshot) :=
  async_snapshot_after_version (Boundary_version b).
Definition async_snapshot_after_observation {E} (o : Observation) : cmd AR E (option Snapshot) :=
  async_snapshot_after_boundary (obs_boundary o).
Definition async_snapshot_matching {E} (p : Snapshot → bool) : cmd AR E (option Snapshot) :=
  s ← async_snapshot; mret (keep_if p s).
Definition async_snapshot_after_frame_seq {E} (min_frame_seq : Z) : cmd AR E (option Snapshot) :=
  s ← async_snapshot; mret (keep_if (newer_frame min_frame_seq) s).
Definition async_snapshot_after_timestamp {E} (min_timestamp_ms : Z) : cmd AR E (option Snapshot) :=
  s ← async_snapshot; mret (keep_if (later_frame min_timestamp_ms) s).

Definition receiver_closed : IoError := mkIoError BrokenPipe "async latest frame receiver closed".
Definition latest_frame_timeout_error : IoError :=
  mkIoError TimedOut "async latest frame summary timeout".

(** The loop; [timed]: run under [tokio::time::timeout], which gives up when the time has
    elapsed (and it will, when nothing else happens any more). *)
Fixpoint async_wait (timed : bool) (p : Snapshot → bool) (l : list Wake) (s : AsyncLatestFrameSummaryState) :
    outcome Waiting Snapshot * AR :=
  match look p s with
  | Some o => (o, mkAsyncReceiver s l)
  | None =>
      match l with
      | [] => (Err (if timed then Failed latest_frame_timeout_error else Blocked), mkAsyncReceiver s [])
      | Changed s' :: l => async_wait timed p l s'
      | SenderGone :: _ => (Err (Failed receiver_closed), mkAsyncReceiver s l)
      | Elapsed :: l =>
          if timed then (Err (Failed latest_frame_timeout_error), mkAsyncReceiver s l)
          else async_wait timed p l s
      end
  end.

Definition wait_matching_async (p : Snapshot → bool) : cmd AR Waiting Snapshot :=
  λ a, async_wait false p (wakes a) (shown a).
Definition wait_matching_timeout_async (p : Snapshot → bool) : cmd AR Waiting Snapshot :=
  λ a, async_wait true p (wakes a) (shown a).

Definition wait_next_matching_async (after_version : Z) (p : Snapshot → bool) : cmd AR Waiting Snapshot :=
  wait_matching_async (λ s, (after_version <? sn_version s) && p s).
Definition wait_next_async (after_version : Z) : cmd AR Waiting Snapshot :=
  wait_next_matching_async after_version (λ _, true).
Definition wait_next_after_boundary_async (b : Boundary) : cmd AR Waiting Snapshot :=
  wait_next_async (Boundary_version b).
Definition wait_next_after_observation_async (o : Observation) : cmd AR Waiting Snapshot :=
  wait_next_after_boundary_async (obs_boundary o).
Definition wait_next_matching_after_boundary_async (b : Boundary) (p : Snapshot → bool) :
    cmd AR Waiting Snapshot := wait_next_matching_async (Boundary_version b) p.
Definition wait_next_matching_after_observation_async (o : Observation) (p : Snapshot → bool) :
    cmd AR Waiting Snapshot := wait_next_matching_after_boundary_async (obs_boundary o) p.
Definition wait_first_async : cmd AR Waiting Snapshot := wait_next_async 0.
Definition wait_after_frame_seq_async (min_frame_seq : Z) : cmd AR Waiting Snapshot :=
  wait_matching_async (newer_frame min_frame_seq).
Definition wait_after_timestamp_async (min_timestamp_ms : Z) : cmd AR Waiting Snapshot :=
  wait_matching_async (later_frame min_timestamp_ms).

Definition wait_next_matching_timeout_async (after_version : Z) (p : Snapshot → bool) :
    cmd AR Waiting Snapshot :=
  wait_matching_timeout_async (λ s, (after_version <? sn_version s) && p s).
Definition wait_next_timeout_async (after_version : Z) : cmd AR Waiting Snapshot :=
  wait_next_matching_timeout_async after_version (λ _, true).
Definition wait_next_after_boundary_timeout_async (b : Boundary) : cmd AR Waiting Snapshot :=
  wait_next_timeout_async (Boundary_version b).
Definition wait_next_after_observation_timeout_async (o : Observation) : cmd AR Waiting Snapshot :=
  wait_next_after_boundary_timeout_async (obs_boundary o).
Definition wait_next_matching_after_boundary_timeout_async (b : Boundary) (p : Snapshot → bool) :
    cmd AR Waiting Snapshot := wait_next_matching_timeout_async (Boundary_version b) p.
Definition wait_next_matching_after_observation_timeout_async (o : Observation) (p : Snapshot → bool) :
    cmd AR Waiting Snapshot := wait_next_matching_after_boundary_timeout_async (obs_boundary o) p.
Definition wait_first_timeout_async : cmd AR Waiting Snapshot := wait_next_timeout_async 0.
Definition wait_after_frame_seq_timeout_async (min_frame_seq : Z) : cmd AR Waiting Snapshot :=
  wait_matching_timeout_async (newer_frame min_frame_seq).
Definition wait_after_timestamp_timeout_async (min_timestamp_ms : Z) : cmd AR Waiting Snapshot :=
  wait_matching_timeout_async (later_frame min_timestamp_ms).

(** ** The decoders agree with the synchronous ones *)

(** The asynchronous decoders read what the synchronous ones read.  Two streams with
    the same bytes ahead, one read by a thread and one by a task, give the same message,
    event or error (each its own end-of-file error), and after a success the same bytes
    are ahead of both. *)
Lemma async_decoders_agree {R R2} `{StreamReader R} `{StreamReader R2} (r : R) (r2 : R2)
    (Hr : unread r2 = unread r) :
  (same_result (eof_error (R := R)) (eof_error (R := R2))
     (read_device_event r).1 (read_device_event_async r2).1 ∧
   (is_ok (read_device_event r).1 = true →
    unread (read_device_event_async r2).2 = unread (read_device_event r).2)) ∧
  (same_result (eof_error (R := R)) (eof_error (R := R2))
     (read_device_message r).1 (read_device_message_async r2).1 ∧
   (is_ok (read_device_message r).1 = true →
    unread (read_device_message_async r2).2 = unread (read_device_message r).2)).
Proof.
  split; (apply steady_same; [| |exact Hr]);
    [apply steady_device_event|apply steady_device_event
    |apply steady_device_message|apply steady_device_message].
Qed.

(** A reader with [tokio]'s wording of the end of a stream. *)
Record AsyncSlice : Set := mkAsyncSlice { ahead : bytes }.
Definition early_eof : IoError := mkIoError UnexpectedEof "early eof".

#[export] Instance async_slice_read : Read AsyncSlice := λ n s,
  if decide (n ≤ length (ahead s))%nat
  then (Ok (take n (ahead s)), mkAsyncSlice (drop n (ahead s)))
  else (Err early_eof, mkAsyncSlice []).

#[export] Instance async_slice_lawful : LawfulRead AsyncSlice.
Proof.
  refine {| unread := ahead |}; unfold read_exact, async_slice_read.
  - intros n s b s' H. case_decide; simplify_eq. cbn. rewrite take_drop, length_take. split; [done|lia].
  - intros n s. by case_decide.
Defined.

#[export] Instance async_slice_stream : StreamReader AsyncSlice.
Proof.
  refine {| eof_error := early_eof |}; unfold read_exact, async_slice_read; cbn; [done|..].
  - intros n s ?. rewrite decide_True by done. eauto.
  - intros n s ?. rewrite decide_False by lia. eauto.
Defined.

Lemma async_decoders_agree_witness :
  same_result slice_eof early_eof (read_device_event (R := bytes) [1; 0; 0; 0]).1
    (read_device_event_async (mkAsyncSlice [1; 0; 0; 0])).1.
Proof.
  pose proof (async_decoders_agree (R := bytes) (R2 := AsyncSlice) [1; 0; 0; 0]
    (mkAsyncSlice [1; 0; 0; 0])) as H.
  exact (proj1 (proj1 (H eq_refl))).
Defined.

(** ** What the latest-frame task publishes *)

(** A state for each frame, and one with the error at the end. *)
Fixpoint publications (s : AsyncLatestFrameSummaryState) (es : list DeviceEvent) (e : IoError) :
    list AsyncLatestFrameSummaryState :=
  match es with
  | [] => [store_terminal_error e s]
  | Ev_FrameSummary f :: es => store_summary f s :: publications (store_summary f s) es e
  | _ :: es => publications s es e
  end.

Section Task.
Context {R T : Type} `{!Read R, !WatchSender T, !LawfulWatch T}.

Lemma async_loop_publishes (r : R) es e r' :
  reads_until_error read_device_event r es e r' → (∀ t : T, (receiver_count t).1 ≠ 0%nat) →
  ∀ fuel s (t : T), (length es < fuel)%nat →
  let '(o, p) := async_latest_frame_summary_loop fuel s (mkPump r t) in
  o = Ok tt ∧ published (pump_tx p) = published t ++ publications s es e ∧ pump_reader p = r'.
Proof.
  intros H Hall. induction H as [r e r' E|r ev r1 es e r' E _ IH]; intros [|fuel] s t Hf;
    cbn in Hf; try lia; cbn [async_latest_frame_summary_loop pump_tx pump_reader];
    pose proof (receiver_count_published t) as Hpub; pose proof (Hall t) as Hrx;
    destruct (receiver_count t) as [n tx]; cbn in Hpub, Hrx;
    rewrite (proj2 (Nat.eqb_neq n 0)) by done;
    change (read_device_event_async r) with (read_device_event r); rewrite E.
  - cbn. destruct (watch_send_published (store_terminal_error e s) tx) as [->|[_ H0]].
    + by rewrite Hpub.
    + by destruct (Hall tx).
  - destruct ev as [m|f|st|ty pl]; cbn [publications].
    2: { specialize (IH fuel (store_summary f s) (send_replace (store_summary f s) tx) ltac:(lia)).
         rewrite send_replace_published, Hpub, <-app_assoc in IH. exact IH. }
    all: specialize (IH fuel s tx ltac:(lia)); rewrite Hpub in IH; exact IH.
Qed.
End Task.

(** ** What a receiver sees of it

    [sees pubs ws]: the wakes [ws] of a receiver that has seen nothing of [pubs] yet.  A
    wake finds the newest value then, so earlier ones may be skipped; the sender's loss is
    only reported when nothing is left to see. *)
Inductive sees : list AsyncLatestFrameSummaryState → list Wake → Prop :=
  | sees_pending pubs : sees pubs []
  | sees_elapsed pubs ws : sees pubs ws → sees pubs (Elapsed :: ws)
  | sees_changed skipped s pubs ws : sees pubs ws → sees (skipped ++ s :: pubs) (Changed s :: ws)
  | sees_gone ws : sees [] (SenderGone :: ws).

(** The state after [k] events, and what is still to be published. *)
Definition cell_after (k : nat) (es : list DeviceEvent) : LatestFrameSummaryState :=
  foldl take_event Latest_default (take k es).

Lemma cell_after_pumped k es e : (k ≤ length es)%nat → cell_after k es = pumped k es e.
Proof.
  intros Hk. unfold cell_after, pumped. rewrite decide_True by done.
  change Latest_default with (frames_cell []). apply take_events.
Qed.

Lemma final_pumped es e : store_terminal_error e (cell_after (length es) es) = pumped (S (length es)) es e.
Proof.
  unfold cell_after, pumped. rewrite decide_False, firstn_all by lia.
  change Latest_default with (frames_cell []). by rewrite take_events.
Qed.

Lemma publications_split c es e skipped s pubs :
  publications c es e = skipped ++ s :: pubs →
  (∃ i, (i ≤ length es)%nat ∧ s = foldl take_event c (take i es) ∧
        pubs = publications s (drop i es) e) ∨
  (s = store_terminal_error e (foldl take_event c es) ∧ pubs = []).
Proof.
  revert c skipped. induction es as [|ev es IH]; intros c skipped H; cbn in H.
  - right. destruct skipped as [|x [|y l]]; by simplify_eq/=.
  - assert (publications (take_event c ev) es e = skipped ++ s :: pubs ∨
            skipped = [] ∧ s = take_event c ev ∧ pubs = publications s es e ∨
            ∃ l, publications (take_event c ev) es e = l ++ s :: pubs) as Hcase.
    { destruct ev; [by left| |by left|by left]. destruct skipped as [|x l]; cbn in H; simplify_eq;
        [by right; left|]. right. right. by exists l. }
    destruct Hcase as [H1|[(-> & -> & ->)|(l & H1)]].
    + destruct (IH _ _ H1) as [(i & ? & -> & ->)|[-> ->]]; [left|by right].
      exists (S i). cbn. split_and!; [lia|done|done].
    + left. exists 1%nat. cbn. rewrite take_0, drop_0. split_and!; [lia|done|done].
    + destruct (IH _ _ H1) as [(i & ? & -> & ->)|[-> ->]]; [left|by right].
      exists (S i). cbn. split_and!; [lia|done|done].
Qed.

(** Where a receiver is: behind the task, or at its end. *)
Definition at_point (es : list DeviceEvent) (e : IoError) (s : AsyncLatestFrameSummaryState)
    (pubs : list AsyncLatestFrameSummaryState) : Prop :=
  (∃ k, (k ≤ length es)%nat ∧ s = cell_after k es ∧ pubs = publications s (drop k es) e) ∨
  (s = pumped (S (length es)) es e ∧ pubs = []).

Lemma at_point_next es e s skipped s' pubs :
  at_point es e s (skipped ++ s' :: pubs) → at_point es e s' pubs.
Proof.
  intros [(k & Hk & -> & H)|[_ H]]; [|by destruct skipped].
  destruct (publications_split _ _ _ _ _ _ (eq_sym H)) as [(i & Hi & -> & ->)|[-> ->]].
  - left. rewrite length_drop in Hi. exists (k + i)%nat. unfold cell_after.
    rewrite <-foldl_app, <-drop_drop, take_take_drop. split_and!; [lia|done|done].
  - right. split; [|done]. unfold cell_after. rewrite <-foldl_app, take_drop.
    rewrite <-final_pumped. unfold cell_after. by rewrite firstn_all.
Qed.

Lemma at_point_pumped es e s pubs : at_point es e s pubs → ∃ k, s = pumped k es e.
Proof.
  intros [(k & Hk & -> & _)|[-> _]]; [|eauto]. exists k. by apply cell_after_pumped.
Qed.

Lemma publications_nonempty s es e : publications s es e ≠ [].
Proof. revert s. induction es as [|ev es IH]; intros c; [done|]. by destruct ev; cbn. Qed.

(** At the end a wait has an answer. *)
Lemma look_final p es e : look p (pumped (S (length es)) es e) ≠ None.
Proof.
  pose proof (look_pumped p (S (length es)) es e) as H. cbv zeta in H.
  destruct (look p _); [done|]. destruct H; lia.
Qed.

(** The states a receiver saw that started with [s] and consumed the wakes [ws]. *)
Definition changed_to (w : Wake) : option AsyncLatestFrameSummaryState :=
  match w with Changed s => Some s | _ => None end.
Definition seen (s : AsyncLatestFrameSummaryState) (ws : list Wake) : list AsyncLatestFrameSummaryState :=
  s :: omap changed_to ws.

(** A state with something to return: an acceptable frame, or the stream's error. *)
Definition answers (v : Z) (p : LatestFrameSummarySnapshot → bool) (s : AsyncLatestFrameSummaryState) : Prop :=
  (∃ sn, latest s = Some sn ∧ v < sn_version sn ∧ p sn = true) ∨ is_Some (terminal_error s).

Lemma look_none_answers v p s : look (newer_than v p) s = None → ¬ answers v p s.
Proof.
  unfold look. destruct (keep_if _ (latest s)) eqn:Ek; [done|]. pose proof (proj1 (keep_if_none _ _) Ek) as Hk.
  destruct (terminal_error s) eqn:Et; [done|]. intros _ [(sn & Hl & Hv & Hp)|[x Hx]]; [|congruence].
  specialize (Hk sn Hl). unfold newer_than in Hk. rewrite Hp, (proj2 (Z.ltb_lt _ _)) in Hk by done. done.
Qed.

(** Where a wait ends: it saw [ws] up to there, and nothing before had an answer. *)
Definition wait_ended (timed : bool) (p : Snapshot → bool) es e s ws
    (o : outcome Waiting Snapshot) (a : AR) (consumed : list Wake) (k : nat) : Prop :=
  ws = consumed ++ wakes a ∧ last (seen s consumed) = Some (shown a) ∧
  Forall (λ s, look p s = None) (removelast (seen s consumed)) ∧
  (timed = true → Elapsed ∈ consumed →
   o = Err (Failed latest_frame_timeout_error) ∧ ∃ l, consumed = l ++ [Elapsed] ∧ Elapsed ∉ l) ∧
  shown a = pumped k es e ∧
  match o with
  | Ok sn => latest (shown a) = Some sn ∧ p sn = true ∧ sn_version sn = version (shown a)
  | Err (Failed e') =>
      keep_if p (latest (shown a)) = None ∧
      (e' = e ∧ (length es < k)%nat ∨
       timed = true ∧ e' = latest_frame_timeout_error ∧ look p (shown a) = None ∧
       (last consumed = Some Elapsed ∨ wakes a = []))
  | Err Blocked => timed = false ∧ wakes a = [] ∧ look p (shown a) = None
  | Panicked => False
  end.

(** A wait that ends at once, and one that goes on. *)
Lemma ended_here timed p es e s ws k o :
  s = pumped k es e → look p s = Some o →
  wait_ended timed p es e s ws o (mkAsyncReceiver s ws) [] k.
Proof.
  intros Hk Ho. pose proof (look_pumped p k es e) as Hl. cbv zeta in Hl. rewrite <-Hk, Ho in Hl.
  split_and!; try done; [intros _ H; by apply elem_of_nil in H|].
  destruct o as [sn|[e'|]|]; [done| |done..]. destruct Hl as (? & ? & ?). by split; [|left].
Qed.

Lemma ended_later timed p es e s s' ws w o a consumed k :
  look p s = None → w = Changed s' ∨ w = Elapsed ∧ timed = false ∧ s' = s →
  wait_ended timed p es e s' ws o a consumed k →
  wait_ended timed p es e s (w :: ws) o a (w :: consumed) k.
Proof.
  intros Hs Hw (-> & Hlast & Hall & Hel & Hk & Ho). split; [done|].
  assert (last (seen s (w :: consumed)) = Some (shown a) ∧
          Forall (λ s, look p s = None) (removelast (seen s (w :: consumed)))) as [H1 H2].
  { destruct Hw as [->|(-> & _ & ->)]; [|done]. split; [exact Hlast|]. by constructor. }
  split; [done|]. split; [done|]. split_and!; [|done|].
  - intros Ht [<-|Hin]%elem_of_cons; [destruct Hw as [|(_ & ? & _)]; congruence|].
    destruct (Hel Ht Hin) as (Ho' & l & -> & Hl). split; [done|]. exists (w :: l). split; [done|].
    intros [<-|?]%elem_of_cons; [destruct Hw as [|(_ & ? & _)]; congruence|done].
  - destruct o as [sn|[e'|]|]; [done| |done..]. destruct Ho as [Hn [?|(Ht & He & Hl & Hc)]].
    + by split; [|left].
    + split; [done|]. right. split_and!; [done..|]. destruct Hc as [Hc|?]; [left|by right].
      by destruct consumed.
Qed.

Lemma async_wait_outcome timed p es e ws s pubs :
  sees pubs ws → at_point es e s pubs →
  let '(o, a) := async_wait timed p ws s in
  ∃ consumed k, wait_ended timed p es e s ws o a consumed k.
Proof.
  intros Hs. revert s. induction Hs as [pubs|pubs ws _ IH|skipped s' pubs ws _ IH|ws]; intros s Hp;
    cbn [async_wait]; destruct (at_point_pumped _ _ _ _ Hp) as [k Hk];
    destruct (look p s) as [o|] eqn:El;
    try (exists [], k; by apply ended_here);
    pose proof (look_pumped p k es e) as Hl; cbv zeta in Hl; rewrite <-Hk, El in Hl;
    destruct Hl as [Hkes Hnone].
  - exists [], k. unfold wait_ended. split_and!; try done; [intros _ H; by apply elem_of_nil in H|].
    destruct timed; [|done]. split; [done|]. right. by split_and!; [..|right].
  - destruct timed.
    + exists [Elapsed], k. unfold wait_ended. split_and!; try done.
      * intros _ _. split; [done|]. exists []. split; [done|]. apply not_elem_of_nil.
      * right. by split_and!; [..|left].
    + specialize (IH _ Hp). destruct (async_wait false p ws s) as [o a].
      destruct IH as (consumed & k' & IH). exists (Elapsed :: consumed), k'.
      eapply ended_later; [done| |exact IH]. by right.
  - apply at_point_next in Hp. specialize (IH _ Hp). destruct (async_wait timed p ws s') as [o a].
    destruct IH as (consumed & k' & IH). exists (Changed s' :: consumed), k'.
    eapply ended_later; [done| |exact IH]. by left.
  - destruct Hp as [(j & Hj & _ & Hn)|[Hs _]].
    + symmetry in Hn. by apply publications_nonempty in Hn.
    + exfalso. apply (look_final p es e). by rewrite <-Hs.
Qed.

(** C39: the asynchronous latest-frame receiver, end to end.  While a receiver exists the
    task ends with the stream, gives its reader back, and publishes one state per frame
    and one with the error.  Of a receiver that sees some of these, in order, a wait
    (timed or not) stops at the first state it sees that answers it - one whose newest
    frame is newer than asked for and accepted, or one with the stream's error - and
    passes over every other.  There it returns that frame; else, after the stream's end,
    the stream's error.  A timed wait times out when the time elapses before such a state is
    seen, or nothing more comes, and not sooner; an untimed one blocks only when nothing
    more comes and no state seen answers it.  None reports a closed sender. *)
Theorem async_latest_frame_outcome {R T} `{!Read R, !WatchSender T, !LawfulWatch T}
    (r : R) (t : T) (fuel : nat) (timed : bool) (v : Z) (p : LatestFrameSummarySnapshot → bool) es e r' ws
    (Hr : reads_until_error read_device_event r es e r')
    (Hrx : ∀ t : T, (receiver_count t).1 ≠ 0%nat) (Ht : published t = [])
    (Hf : (length es < fuel)%nat) :
  let '(done, task) := spawn_async_latest_frame_summary_receiver r t fuel in
  done = Ok tt ∧ pump_reader task = r' ∧ published (pump_tx task) = publications Latest_default es e ∧
  (sees (published (pump_tx task)) ws →
   let wait := if timed then wait_next_matching_timeout_async v p else wait_next_matching_async v p in
   let '(o, a) := wait (mkAsyncReceiver Latest_default ws) in
   ∃ consumed k,
     ws = consumed ++ wakes a ∧ last (seen Latest_default consumed) = Some (shown a) ∧
     Forall (λ s, ¬ answers v p s) (removelast (seen Latest_default consumed)) ∧
     (timed = true → Elapsed ∈ consumed →
      o = Err (Failed latest_frame_timeout_error) ∧ ∃ l, consumed = l ++ [Elapsed] ∧ Elapsed ∉ l) ∧
     shown a = pumped k es e ∧
   match o with
   | Ok s => latest (shown a) = Some s ∧ v < sn_version s ∧ p s = true ∧ version (shown a) = sn_version s
   | Err (Failed e') =>
       (∀ s, latest (shown a) = Some s → newer_than v p s = false) ∧
       (e' = e ∧ (length es < k)%nat ∨
        timed = true ∧ e' = latest_frame_timeout_error ∧ ¬ answers v p (shown a) ∧
        (last consumed = Some Elapsed ∨ wakes a = []))
   | Err Blocked => timed = false ∧ wakes a = [] ∧ ¬ answers v p (shown a)
   | Panicked => False
   end).
Proof.
  pose proof (async_loop_publishes r es e r' Hr Hrx fuel Latest_default t Hf) as H.
  unfold spawn_async_latest_frame_summary_receiver.
  destruct (async_latest_frame_summary_loop fuel Latest_default _) as [o task].
  destruct H as (-> & Hpub & ->). rewrite Ht in Hpub. cbn [app] in Hpub.
  split_and!; [done|done|done|]. rewrite Hpub. intros Hs.
  pose proof (async_wait_outcome timed (newer_than v p) es e ws Latest_default _ Hs) as Hw.
  assert (at_point es e Latest_default (publications Latest_default es e)) as Hat.
  { left. exists 0%nat. by split_and!; [lia| |]. }
  specialize (Hw Hat). cbv zeta.
  assert ((if timed then wait_next_matching_timeout_async v p else wait_next_matching_async v p)
    (mkAsyncReceiver Latest_default ws) = async_wait timed (newer_than v p) ws Latest_default) as ->
    by by destruct timed.
  destruct (async_wait _ _ _ _) as [o a]. destruct Hw as (consumed & k & Hc & Hl & Hall & Hel & Hk & Ho).
  exists consumed, k. split_and!; [done..| |done|done|].
  { eapply Forall_impl; [exact Hall|]. intros s. apply look_none_answers. }
  destruct o as [sn|[e'|]|]; [| | |done].
  - destruct Ho as (? & Hp & ?). unfold newer_than in Hp. apply andb_true_iff in Hp as [?%Z.ltb_lt ?]. done.
  - destruct Ho as [Hn Ho]. split; [exact (proj1 (keep_if_none _ _) Hn)|].
    destruct Ho as [?|(? & ? & ?%look_none_answers & ?)]; [by left|by right].
  - destruct Ho as (? & ? & ?%look_none_answers). done.
Qed.

(** A watch channel that keeps what it was sent, with one receiver. *)
Record History : Set := mkHistory { history : list AsyncLatestFrameSummaryState }.

#[export] Instance history_watch : WatchSender History := {|
  receiver_count := λ t, (1%nat, t);
  send_replace := λ s t, mkHistory (history t ++ [s]);
  watch_send := λ s t, mkHistory (history t ++ [s]);
|}.

#[export] Instance history_lawful : LawfulWatch History.
Proof. refine {| published := history |}; cbn; auto. Defined.

(** The receiver misses the first frame and sees the second. *)
Definition seen_second : list Wake :=
  [Elapsed; Changed (mkLatest (Some (mkSnapshot 2 sample_frame)) 2 None)].

Lemma async_latest_frame_outcome_witness :
  let '(done, task) := spawn_async_latest_frame_summary_receiver two_frames (mkHistory []) 10 in
  done = Ok tt ∧
  let '(o, a) := wait_next_matching_async 0 (λ _, true) (mkAsyncReceiver Latest_default seen_second) in
  o = Ok (mkSnapshot 2 sample_frame) ∧ version (shown a) = 2.
Proof.
  pose proof (async_latest_frame_outcome two_frames (mkHistory []) 10 false 0 (λ _, true) _ _ _
    seen_second two_frames_read (λ _, Nat.neq_succ_0 0) eq_refl ltac:(cbn; lia)) as H.
  destruct (spawn_async_latest_frame_summary_receiver two_frames (mkHistory []) 10) as [done task].
  destruct H as (Hd & _ & Hpub & H). split; [exact Hd|].
  assert (sees (published (pump_tx task)) seen_second) as Hs.
  { rewrite Hpub. apply sees_elapsed.
    exact (sees_changed [_] _ [_] [] (sees_pending _)). }
  specialize (H Hs). cbv zeta iota in H.
  assert ((wait_next_matching_async 0 (λ _, true) (mkAsyncReceiver Latest_default seen_second)).1
    = Ok (mkSnapshot 2 sample_frame)) as Ho by (vm_compute; reflexivity).
  destruct (wait_next_matching_async _ _ _) as [o a]. cbn in Ho. subst o.
  destruct H as (consumed & k & _ & _ & _ & _ & _ & _ & _ & _ & Hv). split; [reflexivity|exact Hv].
Defined.
