(* ===== verification/Frame.v ===== *)
(** * Length-prefixed frames ([src/android-hid-protocol/src/frame.rs])

    A frame is its payload; on the wire it is preceded by its length, four bytes in
    big-endian order.  A frame without payload ends a streamed reply. *)

From S2P Require Import Prelude Words Format Errors Io.
Local Open Scope Z_scope.

Definition HEADER_LEN : nat := 4.
Definition MAX_FRAME_LEN : Z := 16 * 1024 * 1024.

Record Frame : Set := Frame_new { payload : bytes }.

Definition from_static (payload : bytes) : Frame := Frame_new payload.
Definition frame_len (f : Frame) : Z := Z.of_nat (length (payload f)).
Definition is_empty (f : Frame) : bool :=
  match payload f with [] => true | _ => false end.
Definition is_terminator (f : Frame) : bool :=
  match payload f with [] => true | _ => false end.
Definition empty_marker : Frame := Frame_new [].

Inductive FrameError : Set :=
  | TooLarge (len : Z)
  | Truncated (declared available : Z).

Definition FrameError_display (e : FrameError) : string :=
  match e with
  | TooLarge len => "frame length " +:+ pretty len +:+ " exceeds cap " +:+ pretty MAX_FRAME_LEN
  | Truncated declared available =>
      "declared frame length " +:+ pretty declared +:+ " exceeds available " +:+ pretty available
  end.

Definition try_from_vec (b : bytes) : outcome FrameError Frame :=
  if MAX_FRAME_LEN <? Z.of_nat (length b) then Err (TooLarge (Z.of_nat (length b)))
  else Ok (Frame_new b).

(** [std::io::Write], as far as it is used. *)
Class Write (W : Type) := io_write_all : bytes → cmd W IoError unit.

(** Its documented contract: [put] is what has been written. *)
Class LawfulWrite (W : Type) `{!Write W} := {
  put : W → bytes;
  io_write_all_ok b w w' : io_write_all b w = (Ok tt, w') → put w' = put w ++ b;
  io_write_all_err b w e w' :
    io_write_all b w = (Err e, w') → ∃ n, put w' = put w ++ take n b;
}.

(** [Vec<u8>] *)
#[export] Instance vec_write : Write bytes := λ b w, (Ok tt, w ++ b).
#[export] Instance vec_lawful_write : LawfulWrite bytes.
Proof.
  refine {| put := λ w, w |}; unfold io_write_all, vec_write.
  - by intros b w w' [= <-].
  - by intros b w e w' H.
Defined.

Definition encode {W} `{!Write W} (f : Frame) : cmd W IoError unit :=
  if 2 ^ 32 <=? frame_len f then
    raise (mkIoError InvalidData
      ("frame payload " +:+ pretty (frame_len f) +:+ " bytes exceeds u32::MAX"))
  else
    io_write_all (be_bytes 4 (frame_len f));;
    io_write_all (payload f).

(** The two arms of the error match hand the error on alike. *)
Definition decode {R} `{!Read R} : cmd R IoError Frame :=
  header ← read_exact HEADER_LEN;
  let declared := be_val header in
  if declared =? 0 then mret empty_marker
  else if MAX_FRAME_LEN <? declared then
    raise (mkIoError InvalidData
      ("frame length " +:+ pretty declared +:+ " exceeds cap " +:+ pretty MAX_FRAME_LEN))
  else
    payload ← read_exact (Z.to_nat declared);
    mret (Frame_new payload).

(** ** The wire *)

Definition frame_wf (f : Frame) : Prop := is_bytes (payload f) ∧ frame_len f ≤ MAX_FRAME_LEN.
Definition frame_on_wire (f : Frame) : bytes := be_bytes 4 (frame_len f) ++ payload f.

Lemma max_frame_u32 n : n ≤ MAX_FRAME_LEN → n < 2 ^ 32.
Proof. unfold MAX_FRAME_LEN. lia. Qed.

(** What [encode] leaves in a writer: the frame, or a part of it and the writer's error. *)
Lemma encode_writes {W} `{!Write W, !LawfulWrite W} f (w : W) o w' :
  frame_len f < 2 ^ 32 → encode f w = (o, w') →
  match o with
  | Ok _ => put w' = put w ++ frame_on_wire f
  | Err _ => ∃ n, put w' = put w ++ take n (frame_on_wire f)
  | Panicked => True
  end.
Proof.
  intros Hf. unfold encode. rewrite (proj2 (Z.leb_gt _ _)) by done. unfold mbind, cmd_bind.
  destruct (io_write_all _ w) as [[[]|e|] w1] eqn:E1; intros H; [|simplify_eq..].
  - pose proof (io_write_all_ok _ _ _ E1) as H1.
    destruct o as [[]|e|]; [| |done].
    + rewrite (io_write_all_ok _ _ _ H), H1. unfold frame_on_wire. by rewrite app_assoc.
    + destruct (io_write_all_err _ _ _ _ H) as [n ->]. rewrite H1.
      exists (length (be_bytes 4 (frame_len f)) + n)%nat. unfold frame_on_wire.
      by rewrite take_app_add, app_assoc.
  - destruct (io_write_all_err _ _ _ _ E1) as [n ->]. exists (n `min` length (be_bytes 4 (frame_len f)))%nat.
    unfold frame_on_wire. rewrite take_app_le by lia. by rewrite <-take_take, firstn_all.
  - done.
Qed.

Section Decode.
Context {R : Type} `{!Read R, !LawfulRead R}.

Definition decoded (f : Frame) (bs : bytes) : Prop := frame_wf f ∧ bs = frame_on_wire f.

Lemma sound_decode : sound (decode (R := R)) decoded.
Proof.
  unfold decode, HEADER_LEN. eapply sound_bind; [apply sound_read_exact|].
  intros header bs (-> & Hl & Hb).
  assert (be_bytes 4 (be_val bs) = bs) as Hbe by (rewrite <-Hl; by apply be_bytes_val).
  pose proof (le_val_range (reverse bs) ltac:(by apply Forall_reverse)) as Hr.
  rewrite length_reverse, Hl in Hr. change (le_val (reverse bs)) with (be_val bs) in Hr. cbv zeta.
  destruct (Z.eqb_spec (be_val bs) 0) as [H0|H0].
  { apply sound_ret. rewrite app_nil_r. split; [split; [constructor|done]|].
    unfold frame_on_wire. cbn [frame_len empty_marker payload length]. rewrite app_nil_r.
    rewrite <-Hbe, H0. done. }
  destruct (Z.ltb_spec MAX_FRAME_LEN (be_val bs)); [apply sound_raise|].
  eapply sound_bind; [apply sound_read_exact|]. intros p bs' (-> & Hl' & Hb').
  apply sound_ret. rewrite app_nil_r.
  assert (frame_len (Frame_new bs') = be_val bs) as Hlen.
  { unfold frame_len. cbn. rewrite Hl'. lia. }
  split; [split; [done|by rewrite Hlen]|]. unfold frame_on_wire. by rewrite Hlen, Hbe.
Qed.
End Decode.

Section Streams.
Context {R : Type} `{!Read R, !LawfulRead R, !StreamReader R}.

Lemma takes_decode f : frame_wf f → takes (R := R) decode (frame_on_wire f) f.
Proof.
  intros [Hb Hlen]. pose proof (max_frame_u32 _ Hlen) as H32.
  assert (0 ≤ frame_len f) as Hpos by (unfold frame_len; lia).
  unfold decode, frame_on_wire. eapply takes_bind.
  { unfold HEADER_LEN. rewrite <-(length_be_bytes 4 (frame_len f)) at 1. apply takes_read_exact. }
  cbv zeta. rewrite be_val_bytes_id by (widths; lia).
  destruct (Z.eqb_spec (frame_len f) 0) as [H0|H0].
  { destruct f as [p]. unfold frame_len in H0. destruct p; [|cbn in H0; lia]. apply takes_ret. }
  rewrite (proj2 (Z.ltb_ge _ _)) by done. unfold frame_len at 1. rewrite Nat2Z.id.
  eapply takes_last; [apply takes_read_exact|]. destruct f. apply takes_ret.
Qed.

(** A declared length over the cap is refused when only the header has been read. *)
Lemma rejects_large n :
  MAX_FRAME_LEN < n < 2 ^ 32 →
  rejects (R := R) decode (be_bytes 4 n)
    (mkIoError InvalidData ("frame length " +:+ pretty n +:+ " exceeds cap " +:+ pretty MAX_FRAME_LEN)).
Proof.
  intros Hn. unfold decode. assert (0 < n) by (unfold MAX_FRAME_LEN in Hn; lia).
  eapply rejects_last.
  { unfold HEADER_LEN. rewrite <-(length_be_bytes 4 n) at 1. apply takes_read_exact. }
  cbv zeta. rewrite be_val_bytes_id by (widths; lia).
  rewrite (proj2 (Z.eqb_neq _ _)), (proj2 (Z.ltb_lt _ _)) by lia. apply rejects_raise.
Qed.
End Streams.

Lemma steady_decode {R R2} `{StreamReader R} `{StreamReader R2} :
  steady (R := R) (R2 := R2) decode decode.
Proof.
  unfold decode. apply steady_bind; [apply steady_read_exact|]. intros header. cbv zeta.
  case_match; [apply steady_ret|]. case_match; [apply steady_raise|].
  apply steady_bind; [apply steady_read_exact|]. intros; apply steady_ret.
Qed.

(** Encoding several frames in a row. *)
Lemma encode_all_vec (fs : list Frame) (w : bytes) :
  Forall frame_wf fs →
  for_each fs (λ f, encode f) w = (Ok tt, w ++ concat (frame_on_wire <$> fs)).
Proof.
  intros H. revert w. induction H as [|f fs [_ Hf] _ IH]; intros w.
  { cbn. by rewrite app_nil_r. }
  cbn [for_each fmap list_fmap concat]. unfold mbind, cmd_bind.
  assert (encode f w = (Ok tt, w ++ frame_on_wire f)) as ->.
  { unfold encode. rewrite (proj2 (Z.leb_gt _ _)) by by apply max_frame_u32.
    unfold mbind, cmd_bind, io_write_all, vec_write, frame_on_wire. by rewrite app_assoc. }
  rewrite IH. by rewrite app_assoc.
Qed.

(** Frames survive the trip.  Frames of at most 16 MiB encoded one after the other
    are decoded again, in the same number of reads, from any stream that carries the
    bytes, empty ones (the end of a streamed reply) included, and what follows them is
    left; a frame that is cut off anywhere is an end of file; a longer one is refused at
    its header; and whatever a read decodes is a frame of at most 16 MiB that was there,
    byte for byte. *)
Theorem frame_stream_roundtrip {R} `{StreamReader R} (fs : list Frame) (rest : bytes) (r : R)
    (Hfs : Forall frame_wf fs)
    (Hr : (for_each fs (λ f, encode f) (@nil Z)).2 ++ rest = unread r) :
  ∃ r', collect (length fs) decode r = (Ok fs, r') ∧ unread r' = rest ∧
  (∀ f more, frame_wf f → frame_on_wire f = rest ++ more → more ≠ [] →
     ∃ r'', decode r' = (Err (eof_error (R := R)), r'')) ∧
  (∀ n more, MAX_FRAME_LEN < n < 2 ^ 32 → rest = be_bytes 4 n ++ more →
     ∃ e r'', decode r' = (Err e, r'') ∧ io_kind e = InvalidData ∧ unread r'' = more) ∧
  (∀ f r'', is_bytes rest → decode r' = (Ok f, r'') →
     frame_wf f ∧ rest = frame_on_wire f ++ unread r'').
Proof.
  rewrite encode_all_vec in Hr by done. cbn [snd app] in Hr.
  assert (Forall2 (λ f bs, takes (R := R) decode bs f) fs (frame_on_wire <$> fs)) as Ht.
  { clear Hr. induction Hfs; constructor; [by apply takes_decode|done]. }
  destruct (takes_collect decode fs _ Ht r rest (eq_sym Hr)) as (r' & E & Hu).
  exists r'. split_and!; [done|done|..].
  - intros f more Hf Heq Hm.
    eapply (short_is_eof (R2 := bytes) _ decode (frame_on_wire f) f r' (frame_on_wire f) more);
      [apply steady_decode|by apply takes_decode|done|by rewrite Hu|done].
  - intros n more Hn Heq. destruct (rejects_large n Hn r' more) as (r'' & E' & H'').
    { by rewrite Hu. }
    eexists _, r''. by split_and!; [exact E'| |].
  - intros f r'' Hb E'. destruct (sound_decode r' f r'') as (bs & [? ->] & ?);
      [by unfold bytes_ahead; rewrite Hu|done|]. by rewrite <-Hu.
Qed.

Lemma frame_stream_roundtrip_witness :
  ∃ s', collect (S := bytes) 2 decode ([0; 0; 0; 2; 104; 105] ++ [0; 0; 0; 0] ++ [0; 0; 0; 9; 1])
        = (Ok [Frame_new [104; 105]; empty_marker], s') ∧ s' = [0; 0; 0; 9; 1].
Proof.
  pose proof (frame_stream_roundtrip (R := bytes) [Frame_new [104; 105]; empty_marker] [0; 0; 0; 9; 1]
    ([0; 0; 0; 2; 104; 105] ++ [0; 0; 0; 0] ++ [0; 0; 0; 9; 1])) as H.
  destruct H as (s' & E & Hs & _).
  - repeat constructor; unfold frame_len, MAX_FRAME_LEN; cbn; lia.
  - reflexivity.
  - exists s'. split; [exact E|exact Hs].
Defined.
