(* ===== verification/Verb.v ===== *)
(** * The verbs of the line protocol ([src/android-hid-protocol/src/verb.rs], [version.rs])

    Their wire names, the parser of the names, and which verbs answer with several
    frames.  A [&str] that is a verb's name is a Rocq [string] here. *)

From S2P Require Import Prelude.
Local Open Scope string_scope.

Inductive Verb : Set :=
  | Ping | Info | Quit | Dump | DumpActive | Screenshot
  | Stream | StreamH264 | StreamH265 | StreamTileJpeg | StreamTileH265 | Keyframe
  | Tap | Swipe | SwipeDir | Down | Move | Up
  | Scroll | Key | Text | WaitForIdle | WaitForText | WaitForActivity
  | TapAndDump | TapAndSettle | SelectAndTap | AiAnchorTap | TypeAndWait | ClickUntilText
  | DumpAndFrame | KeyframeAndWait | HevcParamSets | State | StateWatch | NodeClick
  | NodeLongClick | NodeSetText | NodeScroll | NodeFocus | Submit | PmList
  | PmPath | PmUninstall | PmGrant | PmRevoke | Deeplinks | Install
  | InstallMulti | Sms | Calls | Contacts | Calendar | ClipGet
  | ClipSet | ClipWatch | AmStart | AmForceStop | AmKill | AmBroadcast
  | Pull | Push | Getprop | Setprop | SettingsGet | SettingsPut
  | WmInfo | WmRotation | Dumpsys | Logcat | Shell | Monitor
  | Paste.

#[export] Instance Verb_eq_dec : EqDecision Verb.
Proof. solve_decision. Defined.

Inductive VerbParseError : Set := UnknownVerb (name : string).

Definition VerbParseError_display (e : VerbParseError) : string :=
  match e with UnknownVerb name => "unknown verb: " +:+ name end.

Definition as_str (v : Verb) : string :=
  match v with
  | Ping => "ping"
  | Info => "info"
  | Quit => "quit"
  | Dump => "dump"
  | DumpActive => "dump_active"
  | Screenshot => "screenshot"
  | Stream => "stream"
  | StreamH264 => "stream_h264"
  | StreamH265 => "stream_h265"
  | StreamTileJpeg => "stream_tilejpeg"
  | StreamTileH265 => "stream_tile_h265"
  | Keyframe => "keyframe"
  | Tap => "tap"
  | Swipe => "swipe"
  | SwipeDir => "swipe_dir"
  | Down => "down"
  | Move => "move"
  | Up => "up"
  | Scroll => "scroll"
  | Key => "key"
  | Text => "text"
  | WaitForIdle => "wait_for_idle"
  | WaitForText => "wait_for_text"
  | WaitForActivity => "wait_for_activity"
  | TapAndDump => "tap_and_dump"
  | TapAndSettle => "tap_and_settle"
  | SelectAndTap => "select_and_tap"
  | AiAnchorTap => "ai_anchor_tap"
  | TypeAndWait => "type_and_wait"
  | ClickUntilText => "click_until_text"
  | DumpAndFrame => "dump_and_frame"
  | KeyframeAndWait => "keyframe_and_wait"
  | HevcParamSets => "hevc_param_sets"
  | State => "state"
  | StateWatch => "state_watch"
  | NodeClick => "node_click"
  | NodeLongClick => "node_long_click"
  | NodeSetText => "node_set_text"
  | NodeScroll => "node_scroll"
  | NodeFocus => "node_focus"
  | Submit => "submit"
  | PmList => "pm_list"
  | PmPath => "pm_path"
  | PmUninstall => "pm_uninstall"
  | PmGrant => "pm_grant"
  | PmRevoke => "pm_revoke"
  | Deeplinks => "deeplinks"
  | Install => "install"
  | InstallMulti => "install_multi"
  | Sms => "sms"
  | Calls => "calls"
  | Contacts => "contacts"
  | Calendar => "calendar"
  | ClipGet => "clip_get"
  | ClipSet => "clip_set"
  | ClipWatch => "clip_watch"
  | AmStart => "am_start"
  | AmForceStop => "am_force_stop"
  | AmKill => "am_kill"
  | AmBroadcast => "am_broadcast"
  | Pull => "pull"
  | Push => "push"
  | Getprop => "getprop"
  | Setprop => "setprop"
  | SettingsGet => "settings_get"
  | SettingsPut => "settings_put"
  | WmInfo => "wm_info"
  | WmRotation => "wm_rotation"
  | Dumpsys => "dumpsys"
  | Logcat => "logcat"
  | Shell => "shell"
  | Monitor => "monitor"
  | Paste => "paste"
  end.

(** The arms of the match in [Verb::parse], tried in order. *)
Definition verb_names : list (string * Verb) :=
  [("ping", Ping); ("info", Info); ("quit", Quit); ("dump", Dump); ("dump_active", DumpActive);
   ("screenshot", Screenshot); ("stream", Stream); ("stream_h264", StreamH264);
   ("stream_h265", StreamH265); ("stream_tilejpeg", StreamTileJpeg);
   ("stream_tile_h265", StreamTileH265); ("keyframe", Keyframe); ("tap", Tap); ("swipe", Swipe);
   ("swipe_dir", SwipeDir); ("down", Down); ("move", Move); ("up", Up); ("scroll", Scroll);
   ("key", Key); ("text", Text); ("wait_for_idle", WaitForIdle); ("wait_for_text", WaitForText);
   ("wait_for_activity", WaitForActivity); ("tap_and_dump", TapAndDump);
   ("tap_and_settle", TapAndSettle); ("select_and_tap", SelectAndTap);
   ("ai_anchor_tap", AiAnchorTap); ("type_and_wait", TypeAndWait);
   ("click_until_text", ClickUntilText); ("dump_and_frame", DumpAndFrame);
   ("keyframe_and_wait", KeyframeAndWait); ("hevc_param_sets", HevcParamSets); ("state", State);
   ("state_watch", StateWatch); ("node_click", NodeClick); ("node_long_click", NodeLongClick);
   ("node_set_text", NodeSetText); ("node_scroll", NodeScroll); ("node_focus", NodeFocus);
   ("submit", Submit); ("pm_list", PmList); ("pm_path", PmPath); ("pm_uninstall", PmUninstall);
   ("pm_grant", PmGrant); ("pm_revoke", PmRevoke); ("deeplinks", Deeplinks);
   ("install", Install); ("install_multi", InstallMulti); ("sms", Sms); ("calls", Calls);
   ("contacts", Contacts); ("calendar", Calendar); ("clip_get", ClipGet); ("clip_set", ClipSet);
   ("clip_watch", ClipWatch); ("am_start", AmStart); ("am_force_stop", AmForceStop);
   ("am_kill", AmKill); ("am_broadcast", AmBroadcast); ("pull", Pull); ("push", Push);
   ("getprop", Getprop); ("setprop", Setprop); ("settings_get", SettingsGet);
   ("settings_put", SettingsPut); ("wm_info", WmInfo); ("wm_rotation", WmRotation);
   ("dumpsys", Dumpsys); ("logcat", Logcat); ("shell", Shell); ("monitor", Monitor);
   ("paste", Paste)].

Definition parse (s : string) : outcome VerbParseError Verb :=
  match list_find (λ arm, arm.1 = s) verb_names with
  | Some (_, (_, v)) => Ok v
  | None => Err (UnknownVerb s)
  end.

Definition is_streaming (v : Verb) : bool :=
  match v with
  | Stream | StreamH264 | StreamH265 | StreamTileJpeg | StreamTileH265 | Pull
  | Dumpsys | Logcat | Monitor | StateWatch | ClipWatch | Shell => true
  | _ => false
  end.

Definition is_unary (v : Verb) : bool := negb (is_streaming v).

(** [impl FromStr for Verb] *)
Definition from_str (s : string) : outcome VerbParseError Verb := parse s.

Definition PROTOCOL_VERSION : Z := 1.
Definition USER_AGENT : string := "android-hid-agent/0.1".

(** ** The names are a code *)

Lemma verb_names_spelled : Forall (λ arm, as_str arm.2 = arm.1) verb_names.
Proof. by repeat constructor. Qed.

Lemma parse_as_str v : parse (as_str v) = Ok v.
Proof. by destruct v. Qed.

#[export] Instance as_str_inj : Inj (=) (=) as_str.
Proof. intros v v' H. apply (f_equal parse) in H. rewrite !parse_as_str in H. by simplify_eq. Qed.

Lemma parse_inv s v : parse s = Ok v → as_str v = s.
Proof.
  unfold parse. destruct (list_find _ _) as [[i [name w]]|] eqn:E; intros H; simplify_eq.
  apply list_find_Some in E as (Hi & <- & _).
  exact (Forall_lookup_1 _ _ _ _ verb_names_spelled Hi).
Qed.

(** Parsing a name gives its verb and nothing else does; any other text is refused with
    that text. *)
Lemma parse_spec s :
  match parse s with
  | Ok v => as_str v = s
  | Err e => e = UnknownVerb s ∧ ∀ v, as_str v ≠ s
  | Panicked => False
  end.
Proof.
  destruct (parse s) as [v|e|] eqn:E.
  - by apply parse_inv.
  - split.
    + unfold parse in E. destruct (list_find _ _) as [[i [name w]]|]; by simplify_eq.
    + intros v <-. by rewrite parse_as_str in E.
  - unfold parse in E. by destruct (list_find _ _) as [[i [name w]]|].
Qed.
