(* ===== verification/ErrorFrame.v ===== *)
(** * Error codes and error frames ([src/android-hid-protocol/src/error.rs])

    A failed request is answered by a frame whose payload is [ERR:<TAG>[:<detail>]]. *)

From S2P Require Import Prelude Words Utf8 Utf8Lossy Format.
Local Open Scope Z_scope.

Definition ERR_PREFIX : bytes := ascii_bytes "ERR:".

Inductive ErrorCode : Set :=
  | Ok_code | UnknownCmd | BadArg | Timeout | NotFound | Ambiguous | Internal | OffScreen
  | SecureWindow.

#[export] Instance ErrorCode_eq_dec : EqDecision ErrorCode.
Proof. solve_decision. Defined.

Inductive ErrorCodeByteError : Set := UnknownByte (b : Z).

Definition as_byte (c : ErrorCode) : Z :=
  match c with
  | Ok_code => 0 | UnknownCmd => 1 | BadArg => 2 | Timeout => 3 | NotFound => 4
  | Ambiguous => 5 | Internal => 6 | OffScreen => 7 | SecureWindow => 8
  end.

Definition from_byte (b : Z) : outcome ErrorCodeByteError ErrorCode :=
  match b with
  | 0 => Ok Ok_code | 1 => Ok UnknownCmd | 2 => Ok BadArg | 3 => Ok Timeout | 4 => Ok NotFound
  | 5 => Ok Ambiguous | 6 => Ok Internal | 7 => Ok OffScreen | 8 => Ok SecureWindow
  | other => Err (UnknownByte other)
  end.

Definition as_tag (c : ErrorCode) : string :=
  match c with
  | Ok_code => "OK"
  | UnknownCmd => "UNKNOWN_CMD"
  | BadArg => "BAD_ARG"
  | Timeout => "TIMEOUT"
  | NotFound => "NOT_FOUND"
  | Ambiguous => "AMBIGUOUS"
  | Internal => "INTERNAL"
  | OffScreen => "OFF_SCREEN"
  | SecureWindow => "SECURE_WINDOW"
  end.

(** The arms of the match in [ErrorCode::from_tag], tried in order. *)
Definition tag_arms : list (bytes * ErrorCode) :=
  [(ascii_bytes "OK", Ok_code);
   (ascii_bytes "UNKNOWN_CMD", UnknownCmd);
   (ascii_bytes "BAD_ARG", BadArg);
   (ascii_bytes "TIMEOUT", Timeout);
   (ascii_bytes "NOT_FOUND", NotFound);
   (ascii_bytes "AMBIGUOUS", Ambiguous);
   (ascii_bytes "INTERNAL", Internal);
   (ascii_bytes "OFF_SCREEN", OffScreen);
   (ascii_bytes "SECURE_WINDOW", SecureWindow)].

Definition from_tag (tag : bytes) : option ErrorCode :=
  match list_find (λ arm, arm.1 = tag) tag_arms with
  | Some (_, (_, c)) => Some c
  | None => None
  end.

Record ErrorFrame : Set := ErrorFrame_new { ef_code : ErrorCode; ef_detail : str }.

#[export] Instance ErrorFrame_eq_dec : EqDecision ErrorFrame.
Proof. solve_decision. Defined.

Inductive ProtocolError : Set := UnknownCode (name : str).

(** [payload.strip_prefix(ERR_PREFIX)] *)
Definition strip_prefix (p s : bytes) : option bytes :=
  if decide (take (length p) s = p) then Some (drop (length p) s) else None.

Definition COLON : Z := 58.

(** The tag up to the first colon, and what follows it. *)
Definition split_colon (rest : bytes) : bytes * bytes :=
  match list_find (λ b, b = COLON) rest with
  | Some (idx, _) => (take idx rest, drop (idx + 1) rest)
  | None => (rest, [])
  end.

Definition ErrorFrame_parse (payload : bytes) : outcome ProtocolError (option ErrorFrame) :=
  match strip_prefix ERR_PREFIX payload with
  | None => Ok None
  | Some rest =>
      let '(tag, detail) := split_colon rest in
      match from_tag tag with
      | None => Err (UnknownCode (from_utf8_lossy tag))
      | Some code => Ok (Some (ErrorFrame_new code (from_utf8_lossy detail)))
      end
  end.

Definition ErrorFrame_encode (f : ErrorFrame) : bytes :=
  ERR_PREFIX ++ ascii_bytes (as_tag (ef_code f)) ++
  match ef_detail f with
  | [] => []
  | detail => COLON :: detail
  end.

(** ** Codes, bytes and tags *)

Lemma from_as_byte c : from_byte (as_byte c) = Ok c.
Proof. by destruct c. Qed.

(** Every byte decodes to the code it encodes, or is refused with itself. *)
Lemma from_byte_spec b :
  match from_byte b with
  | Ok c => as_byte c = b
  | Err e => e = UnknownByte b ∧ (b < 0 ∨ 8 < b)
  | Panicked => False
  end.
Proof.
  destruct (decide (0 ≤ b ≤ 8)) as [Hb|Hb].
  - assert (b = 0 ∨ b = 1 ∨ b = 2 ∨ b = 3 ∨ b = 4 ∨ b = 5 ∨ b = 6 ∨ b = 7 ∨ b = 8) as H by lia.
    by repeat destruct H as [->|H]; [..|subst].
  - assert (from_byte b = Err (UnknownByte b)) as ->.
    { destruct b as [|p|p]; [lia| |done].
      do 4 (destruct p as [p|p|]; try done; try lia). }
    split; [done|lia].
Qed.

Lemma tag_arms_spelled : Forall (λ arm, arm.1 = ascii_bytes (as_tag arm.2)) tag_arms.
Proof. by repeat constructor. Qed.

Lemma from_as_tag c : from_tag (ascii_bytes (as_tag c)) = Some c.
Proof. by destruct c. Qed.

Lemma from_tag_inv tag c : from_tag tag = Some c → tag = ascii_bytes (as_tag c).
Proof.
  unfold from_tag. destruct (list_find _ _) as [[i [name d]]|] eqn:E; intros H; simplify_eq.
  apply list_find_Some in E as (Hi & <- & _).
  exact (Forall_lookup_1 _ _ _ _ tag_arms_spelled Hi).
Qed.

Lemma tag_no_colon c : COLON ∉ ascii_bytes (as_tag c).
Proof. destruct c; apply (bool_decide_unpack _); by vm_compute. Qed.

(** ** Frames *)

Lemma split_colon_app tag detail :
  (COLON ∉ tag) → split_colon (tag ++ COLON :: detail) = (tag, detail).
Proof.
  intros H. unfold split_colon.
  rewrite list_find_app_r by (apply list_find_None, Forall_forall; by intros x Hx ->).
  cbn [list_find]. rewrite decide_True by done. cbn.
  by rewrite take_app_length, <-drop_drop, drop_app_length.
Qed.

Lemma split_colon_none tag : (COLON ∉ tag) → split_colon tag = (tag, []).
Proof.
  intros H. unfold split_colon.
  by rewrite (proj2 (list_find_None _ _)) by (apply Forall_forall; by intros x Hx ->).
Qed.

Lemma strip_prefix_app p s : strip_prefix p (p ++ s) = Some s.
Proof. unfold strip_prefix. by rewrite take_app_length, decide_True, drop_app_length. Qed.

Lemma strip_prefix_inv p s rest : strip_prefix p s = Some rest → s = p ++ rest.
Proof.
  unfold strip_prefix. case_decide as H; intros [= <-]. rewrite <-H at 1. by rewrite take_drop.
Qed.

(** What the encoder writes reads back, if the detail is a string. *)
Lemma parse_encode f : is_str (ef_detail f) → ErrorFrame_parse (ErrorFrame_encode f) = Ok (Some f).
Proof.
  intros Hd. unfold ErrorFrame_parse, ErrorFrame_encode. rewrite strip_prefix_app.
  destruct f as [c [|b d]]; cbn [ef_code ef_detail] in *.
  - rewrite app_nil_r, split_colon_none, from_as_tag by apply tag_no_colon. done.
  - rewrite split_colon_app, from_as_tag by apply tag_no_colon.
    by rewrite from_utf8_lossy_id.
Qed.

(** Error frames.  Over any payload: one without the prefix is no error frame; one with
    an unknown tag is refused with that tag, decoded lossily; any other is the tag's code
    and a detail that is always a string: the bytes behind the first colon, decoded
    lossily, unchanged if they were a string, and with them the frame encodes to the
    payload again, up to a colon with nothing behind it.  Encoding then parsing gives
    back every frame. *)
Theorem error_frame_roundtrip (payload : bytes) (f : ErrorFrame)
    (Hb : is_bytes payload) (Hf : is_str (ef_detail f)) :
  (match ErrorFrame_parse payload with
   | Ok None => ∀ rest, payload ≠ ERR_PREFIX ++ rest
   | Ok (Some g) =>
       ∃ detail, from_utf8_lossy detail = ef_detail g ∧ is_str (ef_detail g) ∧
         (payload = ErrorFrame_encode (ErrorFrame_new (ef_code g) detail) ∨
          detail = [] ∧ payload = ErrorFrame_encode g ++ [COLON]) ∧
         (is_str detail → ef_detail g = detail)
   | Err (UnknownCode name) =>
       ∃ tag rest, payload = ERR_PREFIX ++ tag ++ rest ∧ name = from_utf8_lossy tag ∧
         (COLON ∉ tag) ∧ (rest = [] ∨ ∃ d, rest = COLON :: d) ∧ ∀ c, tag ≠ ascii_bytes (as_tag c)
   | Panicked => False
   end) ∧
  ErrorFrame_parse (ErrorFrame_encode f) = Ok (Some f).
Proof.
  split; [|by apply parse_encode]. unfold ErrorFrame_parse.
  destruct (strip_prefix ERR_PREFIX payload) as [rest|] eqn:E.
  2: { intros rest ->. by rewrite strip_prefix_app in E. }
  apply strip_prefix_inv in E as ->. apply Forall_app in Hb as [_ Hb].
  assert (∃ tag tail, rest = tag ++ tail ∧ (COLON ∉ tag) ∧ (tail = [] ∨ ∃ d, tail = COLON :: d))
    as (tag & tail & -> & Hc & Ht).
  { destruct (list_find (λ b, b = COLON) rest) as [[i x]|] eqn:E.
    - apply list_find_Some in E as (Hi & -> & Hbefore). exists (take i rest), (drop i rest).
      rewrite take_drop. split_and!; [done| |right; exists (drop (S i) rest); by apply drop_S].
      intros (j & Hj)%list_elem_of_lookup. apply lookup_take_Some in Hj as [Hj ?].
      by apply (Hbefore j COLON).
    - exists rest, []. rewrite app_nil_r. split_and!; [done| |by left].
      intros Hin. apply list_find_None in E. rewrite Forall_forall in E. by apply (E COLON). }
  assert (split_colon (tag ++ tail) = (tag, drop 1 tail)) as ->.
  { destruct Ht as [->|[d ->]]; [by rewrite app_nil_r, split_colon_none|by apply split_colon_app]. }
  apply Forall_app in Hb as [Htag Htail].
  destruct (from_tag tag) as [c|] eqn:Et.
  - apply from_tag_inv in Et as ->. exists (drop 1 tail). cbn [ef_code ef_detail].
    split_and!; [done|by apply from_utf8_lossy_is_str, Forall_drop| |by apply from_utf8_lossy_id].
    unfold ErrorFrame_encode. cbn [ef_code ef_detail]. destruct Ht as [->|[d ->]]; [by left|].
    cbn [drop]. destruct d as [|b d]; [right|by left]. split; [done|]. cbn.
    by rewrite app_nil_r, <-?app_assoc.
  - exists tag, tail. split_and!; [done..|]. intros c ->. by rewrite from_as_tag in Et.
Qed.

Lemma error_frame_roundtrip_witness :
  ErrorFrame_parse (ascii_bytes "ERR:NOT_FOUND:no-such-app")
  = Ok (Some (ErrorFrame_new NotFound (ascii_bytes "no-such-app"))).
Proof.
  refine (proj2 (error_frame_roundtrip [] (ErrorFrame_new NotFound (ascii_bytes "no-such-app")) _ _)).
  - constructor.
  - apply ascii_is_str. repeat constructor; cbn; lia.
Defined.
