(* ===== verification/Kvs.v ===== *)
(** * Key-value lines ([src/android-hid-protocol/src/kvs.rs])

    A command is a verb and [key=value] tokens with ASCII whitespace between them, a
    value that needs it in double quotes.  [split_head] and [parse_kv] read such a line,
    [KvWriter] writes its tokens.  A [str] is its bytes; every slice [&s[a..b]] of the code
    unwinds off a character boundary, and that it never does is part of the theorems. *)

From S2P Require Import Prelude Words Utf8 Utf8Lossy Format.
Local Open Scope Z_scope.

(** ** What the code uses of [str] and [char] *)

Definition EQUALS : Z := 61.
Definition QUOTE : Z := 34.
Definition BACKSLASH : Z := 92.
Definition SPACE : Z := 32.

(** [u8::is_ascii_whitespace]: space, tab, line feed, form feed, carriage return. *)
Definition is_ascii_whitespace (b : Z) : bool :=
  bool_decide (b ∈ [9; 10; 12; 13; 32]).

(** [char::is_whitespace]: the Unicode property [White_Space]. *)
Definition is_whitespace (c : Z) : bool :=
  within 9 13 c || (c =? 0x20) || (c =? 0x85) || (c =? 0xA0) || (c =? 0x1680)
  || within 0x2000 0x200A c || (c =? 0x2028) || (c =? 0x2029) || (c =? 0x202F)
  || (c =? 0x205F) || (c =? 0x3000).

Fixpoint skip_while (p : Z → bool) (l : list Z) : list Z :=
  match l with
  | x :: l' => if p x then skip_while p l' else l
  | [] => []
  end.

(** [str::trim_start] and [str::trim]. *)
Definition trim_start (s : str) : str := encode (skip_while is_whitespace (default [] (chars s))).
Definition trim_end (s : str) : str :=
  encode (reverse (skip_while is_whitespace (reverse (default [] (chars s))))).
Definition trim (s : str) : str := trim_end (trim_start s).

(** [&s[n..]] and [&s[a..b]] *)
Definition str_suffix {E} (s : str) (n : nat) : outcome E str :=
  if is_char_boundary s n then Ok (drop n s) else Panicked.
Definition str_range {E} (s : str) (a b : nat) : outcome E str :=
  if (a <=? b)%nat && is_char_boundary s a && is_char_boundary s b
  then Ok (take (b - a) (drop a s)) else Panicked.

(** How many bytes pass before the first that satisfies [p], or before the end. *)
Fixpoint position_or_len (p : Z → bool) (s : bytes) : nat :=
  match s with
  | b :: s => if p b then O else S (position_or_len p s)
  | [] => O
  end.

(** ** The parser *)

(** The index [i] at which [split_one_token] ends the token. *)
Fixpoint token_end (s : bytes) : nat :=
  match s with
  | [] => O
  | b :: rest =>
      if is_ascii_whitespace b then O
      else if (b =? EQUALS) && bool_decide (head rest = Some QUOTE) then
        let j := (2 + position_or_len (Z.eqb QUOTE) (tail rest))%nat in
        if (j <? length s)%nat then S j else j
      else S (token_end rest)
  end.

Definition split_one_token {E} (s : str) : outcome E (str * str) :=
  let i := token_end s in
  let stop := (i + position_or_len (λ b, negb (is_ascii_whitespace b)) (drop i s))%nat in
  tok ← str_prefix s i;
  rest ← str_suffix s stop;
  mret (tok, rest).

(** Two bytes or more, the first and the last of them a quote. *)
Definition quoted (s : bytes) : bool :=
  (2 <=? length s)%nat && bool_decide (head s = Some QUOTE) && bool_decide (last s = Some QUOTE).

Definition split_kv {E} (token : str) : outcome E (str * str) :=
  match list_find (λ b, b = EQUALS) token with
  | None =>
      if quoted token then
        inner ← str_range token 1 (length token - 1);
        mret (inner, [])
      else mret (token, [])
  | Some (eq_idx, _) =>
      key ← str_prefix token eq_idx;
      value_raw ← str_suffix token (eq_idx + 1);
      if quoted value_raw then
        inner ← str_range value_raw 1 (length value_raw - 1);
        mret (key, inner)
      else mret (key, value_raw)
  end.

(** [TokenIter::next]: what it returns, and the new [rest].  Running out of fuel counts as
    an unwind, here and in [parse_kv]. *)
Fixpoint TokenIter_next {E} (fuel : nat) (rest : str) : outcome E (option (str * str) * str) :=
  match fuel with
  | O => Panicked
  | S fuel =>
      match trim_start rest with
      | [] => mret (None, [])
      | trimmed =>
          '(token, rest) ← split_one_token trimmed;
          match token with
          | [] => TokenIter_next fuel rest
          | _ => kv ← split_kv token; mret (Some kv, rest)
          end
      end
  end.

Fixpoint collect_kv {E} (fuel : nat) (rest : str) : outcome E (list (str * str)) :=
  match fuel with
  | O => Panicked
  | S fuel =>
      '(item, rest) ← TokenIter_next fuel rest;
      match item with
      | None => mret []
      | Some kv => kvs ← collect_kv fuel rest; mret (kv :: kvs)
      end
  end.

(** [parse_kv(input).collect()] *)
Definition parse_kv {E} (input : str) : outcome E (list (str * str)) :=
  collect_kv (2 + length input) input.

Definition split_head {E} (cmd : str) : outcome E (str * str) :=
  let trimmed := trim_start cmd in
  let stop := position_or_len is_ascii_whitespace trimmed in
  verb ← str_prefix trimmed stop;
  rest ← str_suffix trimmed stop;
  mret (verb, trim rest).

(** ** The writer *)

Definition needs_quoting (s : str) : bool :=
  existsb (λ b, is_ascii_whitespace b || (b =? EQUALS) || (b =? QUOTE)) s.

Definition quote_char (ch : Z) : bytes :=
  if ch =? QUOTE then [BACKSLASH; QUOTE] else encode_char ch.

Definition quote_value (s : str) : str :=
  if needs_quoting s then [QUOTE] ++ (default [] (chars s) ≫= quote_char) ++ [QUOTE] else s.

Record KvWriter : Set := mkKvWriter { kv_out : str; kv_needs_sep : bool }.

Definition KvWriter_new (out : str) : KvWriter := mkKvWriter out false.

(** [w.key(k).value(v)] *)
Definition KvPair_value (k v : str) (w : KvWriter) : KvWriter :=
  mkKvWriter (kv_out w ++ (if kv_needs_sep w then [SPACE] else []) ++ k ++ [EQUALS] ++ quote_value v)
    true.

Definition write_pairs (kvs : list (str * str)) (w : KvWriter) : KvWriter :=
  foldl (λ w kv, KvPair_value kv.1 kv.2 w) w kvs.

Example parse_kv_doc :
  parse_kv (E := Empty_set) (ascii_bytes "tap x=540  y=1200 e= =v ")
  = Ok [(ascii_bytes "tap", []); (ascii_bytes "x", ascii_bytes "540");
        (ascii_bytes "y", ascii_bytes "1200"); (ascii_bytes "e", []); ([], ascii_bytes "v")].
Proof. reflexivity. Qed.

(** A quote in a value is escaped by the writer, and the parser knows no escapes. *)
Example quote_is_lost :
  let value := [97; QUOTE; 32; 98] in
  parse_kv (E := Empty_set) (kv_out (write_pairs [([107], value)] (KvWriter_new [])))
  = Ok [([107], [97; BACKSLASH]); ([98; QUOTE], [])].
Proof. reflexivity. Qed.

(** ** Slices at ASCII bytes never unwind *)

Lemma encode_char_split c : encode_char c = [c] ∧ c < 0x80 ∨ 0x80 ≤ c ∧ Forall (λ b, 0x80 ≤ b) (encode_char c).
Proof.
  unfold encode_char. destruct (Z.ltb_spec c 0x80); [by left|right; split; [done|]].
  pose proof (Z.mod_pos_bound c 64). pose proof (Z.mod_pos_bound (c / 64) 64).
  pose proof (Z.mod_pos_bound (c / 4096) 64).
  repeat case_match; bool_facts;
    repeat constructor; try lia; Z.div_mod_to_equations; lia.
Qed.

Lemma is_str_app s t : is_str s → is_str t → is_str (s ++ t).
Proof.
  intros (cs & Hcs & ->) (ct & Hct & ->). exists (cs ++ ct). split; [by apply Forall_app|].
  unfold encode. by rewrite bind_app.
Qed.

(** A string is a string on both sides of an ASCII byte. *)
Lemma ascii_split pre a post :
  is_str (pre ++ a :: post) → 0 ≤ a < 0x80 → is_str pre ∧ is_str post.
Proof.
  intros (cs & Hcs & E) Ha. revert pre E. induction Hcs as [|c cs Hc Hcs IH]; intros pre E.
  { by destruct pre. }
  rewrite encode_cons in E. destruct (encode_char_split c) as [[Hone ?]|[? Hbig]].
  - rewrite Hone in E. destruct pre as [|x pre]; injection E as -> E; [subst post|].
    { split; [apply is_str_nil|by exists cs]. }
    destruct (IH pre) as [Hpre Hpost]; [done|]. split; [|done].
    change (is_str ([c] ++ pre)). rewrite <-Hone. by apply is_str_cons.
  - symmetry in E. apply app_eq_inv in E as [(k & Ek & Et)|(k & -> & Et)].
    + destruct k as [|x k].
      { rewrite app_nil_r in Ek. destruct (IH []) as [_ ?]; [done|]. subst pre.
        split; [|done]. rewrite <-(app_nil_r (encode_char c)). apply is_str_cons; [done|apply is_str_nil]. }
      rewrite Ek in Hbig. apply Forall_app in Hbig as [_ Hbig].
      apply Forall_cons in Hbig as [? _]. simplify_eq/=. lia.
    + destruct (IH k) as [Hpre Hpost]; [done|]. split; [by apply is_str_cons|done].
Qed.

(** [n] is a place where [s] can be sliced. *)
Definition cut (s : str) (n : nat) : Prop :=
  (n ≤ length s)%nat ∧ is_str (take n s) ∧ is_str (drop n s).

Lemma boundary_cut s n : cut s n → is_char_boundary s n = true.
Proof.
  intros (Hn & _ & cs & Hcs & E). unfold is_char_boundary. destruct n as [|n]; [done|].
  destruct (s !! S n) as [b|] eqn:Hb.
  - destruct cs as [|c cs].
    { apply (f_equal length) in E. rewrite length_drop in E. apply lookup_lt_Some in Hb.
      change (length (encode [])) with O in E. lia. }
    apply Forall_cons in Hcs as [Hc _].
    rewrite (drop_S _ _ _ Hb), encode_cons in E. unfold encode_char, is_char in *.
    repeat case_match; cbn in E; simplify_eq; bool_facts; apply orb_true_iff;
      (left; apply Z.ltb_lt; lia) || (right; apply Z.leb_le; Z.div_mod_to_equations; lia).
  - apply Nat.eqb_eq. apply lookup_ge_None in Hb. lia.
Qed.

Lemma prefix_cut {E} s n : cut s n → str_prefix (E := E) s n = Ok (take n s).
Proof. intros H. unfold str_prefix. by rewrite boundary_cut. Qed.
Lemma suffix_cut {E} s n : cut s n → str_suffix (E := E) s n = Ok (drop n s).
Proof. intros H. unfold str_suffix. by rewrite boundary_cut. Qed.
Lemma range_cut {E} s a b :
  (a ≤ b)%nat → cut s a → cut s b → str_range (E := E) s a b = Ok (take (b - a) (drop a s)).
Proof.
  intros Hab Ha Hb. unfold str_range. by rewrite (proj2 (Nat.leb_le _ _)), !boundary_cut.
Qed.

Lemma cut_all s : is_str s → cut s (length s).
Proof. intros H. split_and!; [done|by rewrite firstn_all|rewrite drop_all; apply is_str_nil]. Qed.

Lemma cut_app s t : is_str s → is_str t → cut (s ++ t) (length s).
Proof.
  intros Hs Ht. split_and!; [rewrite length_app; lia|by rewrite take_app_length|by rewrite drop_app_length].
Qed.

Lemma cut_at s n b : is_str s → s !! n = Some b → 0 ≤ b < 0x80 → cut s n ∧ cut s (S n).
Proof.
  intros Hs Hn Hb. pose proof (lookup_lt_Some _ _ _ Hn).
  rewrite <-(take_drop_middle s n b Hn) in Hs.
  destruct (ascii_split _ _ _ Hs Hb) as [H1 H2].
  assert (is_str [b]) as H3 by by apply ascii_is_str, Forall_singleton.
  split; split_and!; [lia|done| |lia| |done].
  - rewrite (drop_S _ _ _ Hn). by apply (is_str_app [b]).
  - rewrite (take_S_r _ _ _ Hn). by apply is_str_app.
Qed.

Lemma cut_drop s n m : cut s n → cut (drop n s) m → cut s (n + m).
Proof.
  intros (Hn & Hs & _) (Hm & Hs' & Ht). rewrite length_drop in Hm. split_and!; [lia| |].
  - rewrite <-(take_drop n s), take_app_add' by (rewrite length_take; lia). by apply is_str_app.
  - by rewrite <-drop_drop.
Qed.

Lemma ascii_whitespace_ascii b : is_ascii_whitespace b = true → 0 ≤ b < 0x80.
Proof.
  unfold is_ascii_whitespace. intros H. apply bool_decide_eq_true, list_elem_of_In in H. cbn in H. lia.
Qed.

(** ** No line makes the parser unwind, and it ends *)

Lemma position_le p s : (position_or_len p s ≤ length s)%nat.
Proof. induction s as [|b s IH]; cbn; [done|]. case_match; lia. Qed.

Lemma position_end p s :
  position_or_len p s = length s ∨ ∃ b, s !! position_or_len p s = Some b ∧ p b = true.
Proof.
  induction s as [|b s IH]; [by left|]. cbn. destruct (p b) eqn:Hp; [right; by exists b|].
  destruct IH as [->|(c & Hc & ?)]; [by left|right; by exists c].
Qed.

Lemma position_app p s t :
  Forall (λ b, p b = false) s → position_or_len p (s ++ t) = (length s + position_or_len p t)%nat.
Proof. induction 1 as [|b s Hb _ IH]; [done|]. cbn. by rewrite Hb, IH. Qed.

(** The run of bytes [position_or_len] passes can be cut off if they are ASCII. *)
Lemma cut_run p s :
  is_str s → (∀ b, p b = false → 0 ≤ b < 0x80) → cut s (position_or_len p s).
Proof.
  intros Hs Hp. destruct (position_or_len p s) as [|n] eqn:En.
  { split_and!; [lia|apply is_str_nil|done]. }
  assert (∃ b, s !! n = Some b ∧ p b = false) as (b & Hb & Hpb).
  { clear Hs. revert n En. induction s as [|b s IH]; intros n En; [done|]. cbn in En.
    destruct (p b) eqn:E; [done|]. injection En as <-.
    destruct (position_or_len p s) as [|m]; [by exists b|]. by apply (IH m). }
  by apply (cut_at s n b Hs Hb), Hp.
Qed.

Lemma cut_position p s :
  is_str s → (∀ b, p b = true → 0 ≤ b < 0x80) → cut s (position_or_len p s).
Proof.
  intros Hs Hp. destruct (position_end p s) as [->|(b & Hb & ?)]; [by apply cut_all|].
  apply (cut_at s _ b); auto.
Qed.

Lemma token_end_spec s :
  token_end s = length s ∨
  (∃ b, s !! token_end s = Some b ∧ is_ascii_whitespace b = true) ∨
  (∃ j, token_end s = S j ∧ s !! j = Some QUOTE).
Proof.
  induction s as [|b s IH]; [by left|]. cbn [token_end].
  destruct (is_ascii_whitespace b) eqn:Hws; [right; left; by exists b|].
  destruct ((b =? EQUALS) && _) eqn:Hq.
  - apply andb_true_iff in Hq as [_ Hq%bool_decide_eq_true].
    destruct s as [|q s]; [done|]. cbn [tail length].
    pose proof (position_le (Z.eqb QUOTE) s).
    destruct (position_end (Z.eqb QUOTE) s) as [->|(c & Hc & <-%Z.eqb_eq)].
    + left. by rewrite (proj2 (Nat.ltb_ge _ _)) by lia.
    + right; right. rewrite (proj2 (Nat.ltb_lt _ _)); [eexists; split; [done|exact Hc]|].
      apply lookup_lt_Some in Hc. lia.
  - destruct IH as [->|[(c & Hc & ?)|(j & -> & Hj)]]; [by left|right; left; by exists c|].
    right; right. by exists (S j).
Qed.

Lemma cut_token_end s : is_str s → cut s (token_end s).
Proof.
  intros Hs. destruct (token_end_spec s) as [->|[(b & Hb & Hws)|(j & -> & Hj)]].
  - by apply cut_all.
  - by apply (cut_at s _ b Hs Hb), ascii_whitespace_ascii.
  - by apply (cut_at s _ _ Hs Hj).
Qed.

Lemma token_end_0 b s : is_ascii_whitespace b = false → token_end (b :: s) ≠ O.
Proof. intros H. cbn. rewrite H. by repeat case_match. Qed.

(** A token is what comes before its end, the rest follows the whitespace behind it. *)
Lemma split_one_token_ok {E} s :
  is_str s →
  ∃ gap rest, split_one_token (E := E) s = Ok (take (token_end s) s, rest) ∧
    s = take (token_end s) s ++ gap ++ rest ∧ is_str (take (token_end s) s) ∧ is_str rest.
Proof.
  intros Hs. unfold split_one_token. pose proof (cut_token_end s Hs) as Hc.
  destruct Hc as (Hle & Htok & Hrest).
  pose (n := position_or_len (λ b, negb (is_ascii_whitespace b)) (drop (token_end s) s)).
  assert (cut (drop (token_end s) s) n) as Hgap.
  { apply cut_run; [done|]. intros b Hb%negb_false_iff. by apply ascii_whitespace_ascii. }
  rewrite prefix_cut by done. cbn [mbind outcome_bind]. fold n.
  rewrite suffix_cut by by apply cut_drop.
  eexists (take n (drop (token_end s) s)), _. split_and!; [done| |done|].
  - by rewrite <-drop_drop, !take_drop.
  - rewrite <-drop_drop. apply Hgap.
Qed.

Lemma str_range_quoted {E} s :
  is_str s → quoted s = true →
  ∃ inner, s = QUOTE :: inner ++ [QUOTE] ∧ is_str inner ∧
    str_range (E := E) s 1 (length s - 1) = Ok inner.
Proof.
  unfold quoted. intros Hs H. apply andb_true_iff in H as [[Hl%Nat.leb_le Hh]%andb_true_iff Ht].
  apply bool_decide_eq_true in Hh, Ht. destruct s as [|q s]; [done|]. cbn in Hh. simplify_eq.
  destruct s as [|b inner _] using rev_ind; [cbn in Hl; lia|].
  rewrite app_comm_cons, last_snoc in Ht. simplify_eq.
  assert (is_str (inner ++ [QUOTE])) as Hs' by by apply (ascii_split [] QUOTE) in Hs as [_ ?].
  exists inner. split_and!; [done|by apply ascii_split in Hs' as [? _]|].
  assert (length (QUOTE :: inner ++ [QUOTE]) - 1 = S (length inner))%nat as ->
    by (cbn; rewrite length_app; cbn; lia).
  rewrite range_cut; [| lia| |].
  - cbn [drop]. by rewrite drop_0, Nat.sub_succ, Nat.sub_0_r, take_app_length.
  - by apply (cut_at _ O QUOTE).
  - apply (cut_at _ (S (length inner)) QUOTE); [done| |done]. cbn. by apply list_lookup_middle.
Qed.

(** Splitting any token at its first [=]. *)
Lemma split_kv_ok {E} token :
  is_str token → ∃ k v, split_kv (E := E) token = Ok (k, v) ∧ is_str k ∧ is_str v.
Proof.
  intros Hs. unfold split_kv. destruct (list_find _ _) as [[i b]|] eqn:Ef.
  - apply list_find_Some in Ef as (Hi & -> & _).
    destruct (cut_at _ _ _ Hs Hi) as [H1 H2]; [done|].
    rewrite Nat.add_1_r, prefix_cut, suffix_cut by done. cbn [mbind outcome_bind].
    destruct (quoted _) eqn:Hq; [|exists (take i token), (drop (S i) token); split_and!; [done|apply H1|apply H2]].
    destruct (str_range_quoted (E := E) (drop (S i) token)) as (inner & _ & Hin & ->); [apply H2|done|].
    exists (take i token), inner. split_and!; [done|apply H1|done].
  - destruct (quoted token) eqn:Hq; [|exists token, []; by split_and!; [..|apply is_str_nil]].
    destruct (str_range_quoted (E := E) token Hs Hq) as (inner & _ & Hin & ->).
    exists inner, []. by split_and!; [..|apply is_str_nil].
Qed.

(** No whitespace character at the front. *)
Definition starts_clean (s : str) : Prop :=
  ∀ c rest, next_char s = Some (c, rest) → is_whitespace c = false.

Lemma starts_clean_cons c s : is_char c → is_whitespace c = false → starts_clean (encode_char c ++ s).
Proof. intros Hc Hw d rest H. rewrite next_char_encode in H by done. by simplify_eq. Qed.

Lemma ascii_whitespace_is_whitespace b : is_ascii_whitespace b = true → is_whitespace b = true.
Proof.
  unfold is_ascii_whitespace. intros H%bool_decide_eq_true. apply list_elem_of_In in H. cbn in H.
  by destruct H as [<-|[<-|[<-|[<-|[<-|[]]]]]].
Qed.

Lemma starts_clean_byte b s : starts_clean (b :: s) → is_ascii_whitespace b = false.
Proof.
  intros H. apply not_true_iff_false. intros Hb.
  specialize (H b s). rewrite (ascii_whitespace_is_whitespace b Hb) in H.
  apply ascii_whitespace_ascii in Hb. cbn [next_char] in H.
  rewrite (proj2 (Z.ltb_lt _ _)) in H by lia. by specialize (H eq_refl).
Qed.

Lemma trim_start_encode cs :
  Forall is_char cs → trim_start (encode cs) = encode (skip_while is_whitespace cs).
Proof. intros H. unfold trim_start. by rewrite chars_encode. Qed.

Lemma skip_while_suffix p l : ∃ pre, l = pre ++ skip_while p l.
Proof.
  induction l as [|x l [pre IH]]; [by exists []|]. cbn. case_match; [|by exists []].
  exists (x :: pre). cbn. by f_equal.
Qed.

Lemma trim_start_ok s :
  is_str s →
  is_str (trim_start s) ∧ starts_clean (trim_start s) ∧ (length (trim_start s) ≤ length s)%nat.
Proof.
  intros (cs & Hcs & ->). rewrite trim_start_encode by done. split_and!.
  - destruct (skip_while_suffix is_whitespace cs) as [pre E]. rewrite E in Hcs.
    apply Forall_app in Hcs as [_ Hcs]. eexists. by split; [exact Hcs|].
  - induction Hcs as [|c cs Hc Hcs IH]; [intros c rest H; done|]. cbn.
    destruct (is_whitespace c) eqn:Hw; [done|]. rewrite encode_cons. by apply starts_clean_cons.
  - destruct (skip_while_suffix is_whitespace cs) as [pre E]. rewrite E at 2.
    unfold encode. rewrite bind_app, length_app. lia.
Qed.

Lemma trim_start_clean s : is_str s → starts_clean s → trim_start s = s.
Proof.
  intros (cs & Hcs & ->) H. rewrite trim_start_encode by done.
  destruct Hcs as [|c cs Hc Hcs]; [done|]. cbn. rewrite encode_cons in *.
  by rewrite (H c (encode cs)) by by apply next_char_encode.
Qed.

Definition pair_of_strs (kv : str * str) : Prop := is_str kv.1 ∧ is_str kv.2.

(** What is left when the whitespace is gone starts a token, so that no step is idle and
    each shortens the line. *)
Lemma TokenIter_next_ok {E} fuel rest :
  is_str rest →
  ∃ item rest', TokenIter_next (E := E) (S fuel) rest = Ok (item, rest') ∧ is_str rest' ∧
    match item with
    | None => trim_start rest = []
    | Some kv => pair_of_strs kv ∧ (length rest' < length rest)%nat
    end.
Proof.
  intros Hs. cbn [TokenIter_next].
  destruct (trim_start_ok rest Hs) as (Ht & Hclean & Hlen).
  destruct (trim_start rest) as [|b s] eqn:Et; [by exists None, []; split_and!; [|apply is_str_nil|]|].
  pose proof (token_end_0 b s (starts_clean_byte _ _ Hclean)) as Hne.
  destruct (split_one_token_ok (E := E) (b :: s) Ht) as (gap & rest' & -> & Heq & Htok & Hrest).
  cbn [mbind outcome_bind].
  destruct (take _ (b :: s)) as [|x tok] eqn:Etok; [by destruct (token_end (b :: s))|].
  destruct (split_kv_ok (E := E) (x :: tok) Htok) as (k & v & -> & Hk & Hv).
  eexists (Some (k, v)), rest'. split_and!; [done..|].
  apply (f_equal length) in Heq. rewrite !length_app in Heq. cbn [length] in *. lia.
Qed.

Lemma collect_kv_ok {E} fuel rest :
  is_str rest → (S (length rest) < fuel)%nat →
  ∃ kvs, collect_kv (E := E) fuel rest = Ok kvs ∧ Forall pair_of_strs kvs.
Proof.
  revert rest. induction fuel as [|fuel IH]; intros rest Hs Hf; [lia|]. cbn [collect_kv].
  destruct fuel as [|fuel]; [lia|].
  destruct (TokenIter_next_ok (E := E) fuel rest Hs) as ([kv|] & rest' & -> & Hr & Hitem);
    cbn [mbind outcome_bind]; [|by exists []].
  destruct Hitem as [Hkv Hlt]. destruct (IH rest' Hr) as (kvs & -> & Hkvs); [lia|].
  exists (kv :: kvs). by split; [|constructor].
Qed.

Lemma trim_end_ok s : is_str s → is_str (trim_end s).
Proof.
  intros (cs & Hcs & ->). unfold trim_end. rewrite chars_encode by done. cbn [default].
  destruct (skip_while_suffix is_whitespace (reverse cs)) as [pre E].
  apply Forall_reverse in Hcs. rewrite E in Hcs. apply Forall_app in Hcs as [_ Hcs].
  eexists. split; [|done]. by apply Forall_reverse.
Qed.

Lemma split_head_ok {E} cmd :
  is_str cmd → ∃ verb rest, split_head (E := E) cmd = Ok (verb, rest) ∧ is_str verb ∧ is_str rest.
Proof.
  intros Hs. unfold split_head. destruct (trim_start_ok cmd Hs) as (Ht & _ & _).
  assert (cut (trim_start cmd) (position_or_len is_ascii_whitespace (trim_start cmd))) as Hc.
  { apply cut_position; [done|]. apply ascii_whitespace_ascii. }
  rewrite prefix_cut, suffix_cut by done. eexists _, _. split_and!; [done|apply Hc|].
  apply trim_end_ok, trim_start_ok, Hc.
Qed.

(** ** What the writer writes reads back *)

(** A key has no [=] and no ASCII whitespace, and no other whitespace in front; a value
    has no quote. *)
Definition key_ok (k : str) : Prop :=
  is_str k ∧ Forall (λ b, is_ascii_whitespace b = false ∧ b ≠ EQUALS) k ∧ starts_clean k.
Definition value_ok (v : str) : Prop := is_str v ∧ QUOTE ∉ v.
Definition pair_ok (kv : str * str) : Prop := key_ok kv.1 ∧ value_ok kv.2.

(** One token of the writer, and those after the first. *)
Definition token (kv : str * str) : str := kv.1 ++ EQUALS :: quote_value kv.2.
Definition more_tokens (kvs : list (str * str)) : str := kvs ≫= λ kv, SPACE :: token kv.

Lemma escape_id v : value_ok v → default [] (chars v) ≫= quote_char = v.
Proof.
  intros [(cs & Hcs & ->) Hq]. rewrite chars_encode by done. change (cs ≫= quote_char = encode cs).
  induction Hcs as [|c cs Hc Hcs IH]; [done|]. rewrite encode_cons in Hq |- *.
  apply not_elem_of_app in Hq as [Hq1 Hq2]. change (quote_char c ++ (cs ≫= quote_char) = encode_char c ++ encode cs).
  rewrite IH by done. f_equal.
  unfold quote_char. case_match eqn:E; [|done]. apply Z.eqb_eq in E as ->.
  exfalso. apply Hq1. by left.
Qed.

(** A value is written bare, or between two quotes. *)
Lemma quote_value_cases v :
  value_ok v →
  quote_value v = QUOTE :: v ++ [QUOTE] ∨
  quote_value v = v ∧ Forall (λ b, is_ascii_whitespace b = false ∧ b ≠ EQUALS ∧ b ≠ QUOTE) v.
Proof.
  intros Hv. unfold quote_value. destruct (needs_quoting v) eqn:E.
  - left. cbn. by rewrite escape_id.
  - right. split; [done|]. apply Forall_forall. intros b Hb.
    apply list_elem_of_In in Hb.
    assert (is_ascii_whitespace b || (b =? EQUALS) || (b =? QUOTE) = false) as H.
    { apply not_true_iff_false. intros Ht. apply not_true_iff_false in E. apply E.
      apply existsb_exists. by exists b. }
    apply orb_false_iff in H as [[? ?%Z.eqb_neq]%orb_false_iff ?%Z.eqb_neq]. done.
Qed.

Lemma is_str_ascii_cons b s : 0 ≤ b < 0x80 → is_str s → is_str (b :: s).
Proof. intros Hb Hs. apply (is_str_app [b]); [by apply ascii_is_str, Forall_singleton|done]. Qed.

Lemma quote_value_is_str v : value_ok v → is_str (quote_value v).
Proof.
  intros Hv. destruct (quote_value_cases v Hv) as [->|[-> _]]; [|apply Hv].
  apply is_str_ascii_cons; [done|]. apply is_str_app; [apply Hv|].
  by apply is_str_ascii_cons; [|apply is_str_nil].
Qed.

Lemma token_is_str kv : pair_ok kv → is_str (token kv).
Proof.
  intros [(Hk & _) Hv]. apply is_str_app; [done|].
  apply is_str_ascii_cons; [done|]. by apply quote_value_is_str.
Qed.

Lemma more_tokens_is_str kvs : Forall pair_ok kvs → is_str (more_tokens kvs).
Proof.
  induction 1 as [|kv kvs Hkv _ IH]; [apply is_str_nil|]. cbn.
  apply is_str_ascii_cons; [done|]. apply is_str_app; [by apply token_is_str|done].
Qed.

Lemma starts_clean_app s t :
  is_str s → starts_clean s → starts_clean t → starts_clean (s ++ t).
Proof.
  intros ([|c cs] & Hcs & ->) Hs Ht; [done|]. apply Forall_cons in Hcs as [Hc _].
  rewrite encode_cons, <-app_assoc in *. apply starts_clean_cons; [done|].
  apply (Hs c (encode cs)). by apply next_char_encode.
Qed.

Lemma token_starts_clean kv s : pair_ok kv → starts_clean (token kv ++ s).
Proof.
  intros [(Hk & _ & Hc) _]. unfold token. rewrite <-app_assoc.
  apply starts_clean_app; [done..|]. cbn. by intros c rest [= <- _].
Qed.

(** What may follow a token: nothing, or a space. *)
Definition gap_ok (s : bytes) : Prop := match s with [] => True | b :: _ => b = SPACE end.

Lemma token_end_word s t :
  Forall (λ b, is_ascii_whitespace b = false ∧ b ≠ EQUALS) s →
  token_end (s ++ t) = (length s + token_end t)%nat.
Proof.
  induction 1 as [|b s [Hw He%Z.eqb_neq] _ IH]; [done|]. cbn. by rewrite Hw, He, IH.
Qed.

Lemma token_end_gap s : gap_ok s → token_end s = O.
Proof. destruct s; [done|]. by intros ->. Qed.

Lemma token_end_token kv s :
  pair_ok kv → gap_ok s → token_end (token kv ++ s) = length (token kv).
Proof.
  intros [(_ & Hk & _) Hv] Hs. unfold token.
  rewrite <-app_assoc, length_app, token_end_word by done. f_equal.
  destruct (quote_value_cases _ Hv) as [->|[-> Hbare]]; destruct kv as [k v]; cbn [fst snd] in *.
  - cbn [app token_end head tail length]. rewrite <-app_assoc.
    rewrite position_app by (apply Forall_forall; intros b Hb; apply Z.eqb_neq; intros <-;
                             by destruct Hv).
    cbn [app position_or_len]. rewrite Z.eqb_refl, Nat.add_0_r.
    rewrite bool_decide_true by done. cbn [andb Z.eqb].
    rewrite !length_app. cbn [length].
    rewrite (proj2 (Nat.ltb_lt _ _)) by lia.
    change (is_ascii_whitespace EQUALS) with false. cbn -[Nat.add]. lia.
  - cbn [app token_end length].
    assert (bool_decide (head (v ++ s) = Some QUOTE) = false) as ->.
    { apply bool_decide_eq_false. destruct v as [|b v]; cbn.
      - by destruct s as [|b s]; [|intros [= ->]].
      - apply Forall_cons in Hbare as [(_ & _ & ?) _]. by intros [= ->]. }
    change (is_ascii_whitespace EQUALS) with false. rewrite andb_false_r. f_equal.
    rewrite token_end_word, token_end_gap by
      (done || (eapply Forall_impl; [exact Hbare|]; by intros b (? & ? & _))).
    lia.
Qed.

Lemma quoted_bare v : QUOTE ∉ v → quoted v = false.
Proof.
  intros Hv. unfold quoted. destruct v as [|b v]; [done|].
  rewrite (bool_decide_false (head _ = _)); [by rewrite andb_false_r|].
  cbn. intros [= ->]. apply Hv. by left.
Qed.

Lemma quoted_quoted v : quoted (QUOTE :: v ++ [QUOTE]) = true.
Proof.
  unfold quoted. rewrite app_comm_cons, last_snoc, !bool_decide_true, !andb_true_r by done.
  apply Nat.leb_le. cbn. rewrite length_app. cbn. lia.
Qed.

Lemma split_kv_token {E} kv : pair_ok kv → split_kv (E := E) (token kv) = Ok kv.
Proof.
  intros [(Hk & Hkey & _) Hv]. unfold split_kv, token. destruct kv as [k v]. cbn [fst snd] in *.
  rewrite list_find_app_r.
  2:{ apply list_find_None. eapply Forall_impl; [exact Hkey|]. by intros b [_ ?]. }
  cbn [list_find]. rewrite decide_True by done. cbn -[quote_value].
  pose proof (quote_value_is_str v Hv) as Hq.
  rewrite Nat.add_1_r.
  assert (is_str (EQUALS :: quote_value v)) as Hq' by by apply is_str_ascii_cons.
  destruct (cut_at (k ++ EQUALS :: quote_value v) (length k) EQUALS) as [Hc1 Hc2];
    [by apply is_str_app|by apply list_lookup_middle|done|].
  rewrite prefix_cut, suffix_cut by done. cbn [mbind outcome_bind].
  rewrite take_app_length, <-Nat.add_1_r, <-drop_drop, drop_app_length. cbn [drop].
  rewrite drop_0.
  destruct (quote_value_cases v Hv) as [E1|[E1 _]]; rewrite E1 in *.
  - rewrite quoted_quoted.
    destruct (str_range_quoted (E := E) (QUOTE :: v ++ [QUOTE])) as (inner & Heq & _ & ->);
      [done|apply quoted_quoted|].
    injection Heq as Heq%(inj (λ l, l ++ [QUOTE])). by subst.
  - by rewrite quoted_bare by apply Hv.
Qed.

Lemma gap_run s :
  starts_clean s → position_or_len (λ b, negb (is_ascii_whitespace b)) (SPACE :: s) = 1%nat.
Proof.
  intros Hs. cbn. destruct s as [|b s]; [done|]. cbn.
  by rewrite (starts_clean_byte b s Hs).
Qed.

(** One step reads one token of the writer and the space behind it. *)
Lemma next_token {E} fuel kv kvs :
  pair_ok kv → Forall pair_ok kvs →
  TokenIter_next (E := E) (S fuel) (token kv ++ more_tokens kvs) =
  Ok (Some kv, match kvs with [] => [] | kv' :: kvs => token kv' ++ more_tokens kvs end).
Proof.
  intros Hkv Hkvs. pose proof (token_is_str kv Hkv) as Ht.
  pose proof (more_tokens_is_str kvs Hkvs) as Hm.
  assert (gap_ok (more_tokens kvs)) as Hg by by destruct kvs.
  assert (is_str (token kv ++ more_tokens kvs)) as Hs by by apply is_str_app.
  cbn [TokenIter_next]. rewrite trim_start_clean by (done || by apply token_starts_clean).
  destruct (token kv ++ more_tokens kvs) as [|b s] eqn:Es.
  { apply (f_equal length) in Es. unfold token in Es. rewrite !length_app in Es. cbn in Es. lia. }
  rewrite <-Es in *. clear Es. unfold split_one_token. rewrite token_end_token by done.
  rewrite prefix_cut, drop_app_length, take_app_length by by apply cut_app. cbn [mbind outcome_bind].
  rewrite suffix_cut; [cbn [mbind outcome_bind mret outcome_ret]|].
  - destruct (token kv) as [|x tok] eqn:Et.
    { by unfold token in Et; destruct (kv.1). }
    rewrite <-Et, split_kv_token by done. cbn [mbind outcome_bind mret outcome_ret].
    do 2 f_equal. rewrite <-drop_drop, drop_app_length.
    destruct kvs as [|kv' kvs]; [done|]. apply Forall_cons in Hkvs as [Hkv' _].
    cbn [more_tokens mbind list_bind app]. rewrite gap_run by by apply token_starts_clean. done.
  - apply cut_drop; [by apply cut_app|]. rewrite drop_app_length.
    apply cut_run; [done|]. intros c Hc%negb_false_iff. by apply ascii_whitespace_ascii.
Qed.

Lemma collect_step {E} fuel rest kv rest' :
  TokenIter_next (E := E) fuel rest = Ok (Some kv, rest') →
  collect_kv (E := E) (S fuel) rest = (collect_kv fuel rest' ≫= λ kvs, mret (kv :: kvs)).
Proof. intros H. cbn [collect_kv]. by rewrite H. Qed.

Lemma collect_tokens {E} fuel kv kvs :
  pair_ok kv → Forall pair_ok kvs → (2 + length kvs < fuel)%nat →
  collect_kv (E := E) fuel (token kv ++ more_tokens kvs) = Ok (kv :: kvs).
Proof.
  intros Hkv Hkvs. revert kv Hkv fuel.
  induction Hkvs as [|kv' kvs Hkv' Hkvs IH]; intros kv Hkv fuel Hf;
    (destruct fuel as [|[|fuel]]; [cbn in Hf; lia..|]);
    erewrite collect_step by (apply next_token; [done|by try constructor]).
  - destruct fuel as [|fuel]; [cbn in Hf; lia|done].
  - by rewrite IH by (done || cbn [length] in Hf; lia).
Qed.

Lemma write_pairs_cons kv kvs w :
  write_pairs (kv :: kvs) w = write_pairs kvs (KvPair_value kv.1 kv.2 w).
Proof. done. Qed.

Lemma write_more kvs out :
  write_pairs kvs (mkKvWriter out true) = mkKvWriter (out ++ more_tokens kvs) true.
Proof.
  revert out. induction kvs as [|kv kvs IH]; intros out; [by cbn; rewrite app_nil_r|].
  rewrite write_pairs_cons. unfold KvPair_value. rewrite IH. f_equal. cbn. unfold token.
  rewrite <-!app_assoc. cbn. by rewrite <-!app_assoc.
Qed.

Lemma write_first kv kvs out :
  kv_out (write_pairs (kv :: kvs) (KvWriter_new out)) = out ++ token kv ++ more_tokens kvs.
Proof.
  rewrite write_pairs_cons. unfold KvPair_value, KvWriter_new. rewrite write_more. cbn. unfold token.
  rewrite <-!app_assoc. cbn. by rewrite <-?app_assoc.
Qed.

(** ** Behind the verb *)

(** Closes [is_str] of an ASCII literal. *)
Ltac ascii_str :=
  apply ascii_is_str; unfold is_ascii; apply (bool_decide_unpack _); vm_compute; exact I.

Lemma encode_eq cs ct :
  Forall is_char cs → Forall is_char ct → encode cs = encode ct → cs = ct.
Proof.
  intros H1 H2 E. apply (f_equal chars) in E. rewrite !chars_encode in E by done. by simplify_eq.
Qed.

Lemma trim_end_encode cs :
  Forall is_char cs →
  trim_end (encode cs) = encode (reverse (skip_while is_whitespace (reverse cs))).
Proof. intros H. unfold trim_end. by rewrite chars_encode. Qed.

(** Only the end of a string matters to [trim_end]. *)
Lemma trim_end_app s t :
  is_str s → is_str t → t ≠ [] → trim_end t = t → trim_end (s ++ t) = s ++ t.
Proof.
  intros (cs & Hcs & ->) (ct & Hct & ->) Hne H.
  rewrite trim_end_encode in H by done.
  assert (encode cs ++ encode ct = encode (cs ++ ct)) as -> by (unfold encode; by rewrite bind_app).
  rewrite trim_end_encode by by apply Forall_app.
  rewrite reverse_app. destruct (reverse ct) as [|c l] eqn:Er.
  { apply (f_equal reverse) in Er. rewrite reverse_involutive in Er. by subst. }
  cbn [app skip_while] in *. destruct (is_whitespace c).
  - destruct (skip_while_suffix is_whitespace l) as [pre El].
    apply encode_eq in H; [|apply Forall_reverse|done].
    + apply (f_equal reverse) in H. rewrite reverse_involutive, Er in H.
      apply (f_equal length) in H. rewrite El in H at 2. cbn in H. rewrite length_app in H. lia.
    + apply Forall_reverse in Hct. rewrite Er, El in Hct.
      by apply Forall_cons in Hct as [_ [_ Hct]%Forall_app].
  - f_equal. by rewrite app_comm_cons, <-Er, <-reverse_app, reverse_involutive.
Qed.

(** A value that the trimming of a line's end leaves alone. *)
Definition ends_clean (v : str) : Prop := needs_quoting v = true ∨ trim_end v = v.

Lemma token_nonempty kv : token kv ≠ [].
Proof. unfold token. by destruct (kv.1). Qed.

Lemma trim_end_token kv : pair_ok kv → ends_clean kv.2 → trim_end (token kv) = token kv.
Proof.
  intros [(Hk & _) Hv] Hc. unfold token. destruct kv as [k v]. cbn [fst snd] in *.
  assert (is_str (k ++ [EQUALS])) as Hk' by by apply is_str_app, ascii_is_str, Forall_singleton.
  destruct (quote_value_cases v Hv) as [E|[E Hbare]].
  - rewrite E. rewrite (app_assoc k [EQUALS; QUOTE] (v ++ [QUOTE]) : k ++ EQUALS :: QUOTE :: v ++ [QUOTE] = _).
    rewrite app_assoc. apply trim_end_app; [|by apply ascii_is_str, Forall_singleton|done..].
    apply is_str_app; [|apply Hv]. apply is_str_app; [done|ascii_str].
  - rewrite E. destruct Hc as [Hc|Hc].
    { unfold quote_value in E. rewrite Hc in E. apply (f_equal length) in E.
      rewrite escape_id, !length_app in E by done. cbn in E. lia. }
    destruct v as [|b v].
    + apply trim_end_app; [done|by apply ascii_is_str, Forall_singleton|done..].
    + rewrite (app_assoc k [EQUALS] (b :: v) : k ++ EQUALS :: b :: v = _).
      apply trim_end_app; [done|apply Hv|done|done].
Qed.

Lemma trim_end_tokens kv kvs :
  pair_ok kv → Forall pair_ok kvs → (∀ l, last (kv :: kvs) = Some l → ends_clean l.2) →
  trim_end (token kv ++ more_tokens kvs) = token kv ++ more_tokens kvs.
Proof.
  intros Hkv Hkvs. revert kv Hkv.
  induction Hkvs as [|kv' kvs Hkv' Hkvs IH]; intros kv Hkv Hl.
  { cbn. rewrite app_nil_r. by apply trim_end_token, Hl. }
  pose proof (token_is_str kv Hkv). pose proof (token_is_str kv' Hkv').
  pose proof (more_tokens_is_str kvs Hkvs).
  change (more_tokens (kv' :: kvs)) with ([SPACE] ++ (token kv' ++ more_tokens kvs)).
  rewrite app_assoc. apply trim_end_app.
  - apply is_str_app; [done|by apply ascii_is_str, Forall_singleton].
  - by apply is_str_app.
  - intros [? _]%app_nil. by eapply token_nonempty.
  - by apply IH.
Qed.

Lemma trim_start_space s : is_str s → trim_start (SPACE :: s) = trim_start s.
Proof.
  intros (cs & Hcs & ->). change (SPACE :: encode cs) with (encode (SPACE :: cs)).
  rewrite !trim_start_encode; [done|done|]. constructor; [by left|done].
Qed.

(** A verb is a word: not empty, no ASCII whitespace, no other whitespace in front. *)
Definition verb_ok (v : str) : Prop :=
  v ≠ [] ∧ is_str v ∧ Forall (λ b, is_ascii_whitespace b = false) v ∧ starts_clean v.

Lemma split_head_verb {E} verb s :
  verb_ok verb → is_str s → starts_clean s → trim_end s = s →
  split_head (E := E) (verb ++ SPACE :: s) = Ok (verb, s).
Proof.
  intros (Hne & Hv & Hw & Hc) Hs Hclean Hend. unfold split_head.
  assert (is_str (verb ++ SPACE :: s)) as Hline by (apply is_str_app; [|apply is_str_ascii_cons]; done).
  rewrite trim_start_clean; [|done|].
  - rewrite position_app by done. cbn [position_or_len]. rewrite Nat.add_0_r.
    destruct (cut_at (verb ++ SPACE :: s) (length verb) SPACE) as [Hcut _];
      [done|by apply list_lookup_middle|done|].
    rewrite prefix_cut, suffix_cut by done. rewrite take_app_length, drop_app_length.
    cbn [mbind outcome_bind]. unfold trim.
    by rewrite trim_start_space, trim_start_clean, Hend.
  - destruct Hv as ([|c cs] & Hcs & ->); [done|]. apply Forall_cons in Hcs as [Hch _].
    rewrite encode_cons, <-app_assoc in *. apply starts_clean_cons; [done|].
    apply (Hc c (encode cs)). by apply next_char_encode.
Qed.

(** C40: a command line reads back.  Pairs written behind a verb and a space come back
    with that verb, in order and with their values unquoted, if no key contains [=] or
    ASCII whitespace or starts with other whitespace, no value contains a quote, and the
    last value is quoted or does not end in whitespace outside ASCII, which the writer does
    not quote and the reader trims. *)
Theorem kv_line_roundtrip {E} (verb : str) (kvs : list (str * str))
    (Hverb : verb_ok verb) (Hkvs : Forall pair_ok kvs)
    (Hlast : ∀ kv, last kvs = Some kv → ends_clean kv.2) :
  ∃ rest,
    split_head (E := E) (kv_out (write_pairs kvs (KvWriter_new (verb ++ [SPACE])))) = Ok (verb, rest) ∧
    parse_kv (E := E) rest = Ok kvs.
Proof.
  destruct Hkvs as [|kv kvs Hkv Hkvs].
  { exists []. split; [|done]. apply (split_head_verb verb []); [done|apply is_str_nil|by intros c rest|done]. }
  exists (token kv ++ more_tokens kvs). rewrite write_first, <-app_assoc. split.
  - apply split_head_verb; [done| |by apply token_starts_clean|by apply trim_end_tokens].
    by apply is_str_app; [apply token_is_str|apply more_tokens_is_str].
  - apply collect_tokens; [done..|].
    assert (length kvs ≤ length (more_tokens kvs))%nat.
    { clear. induction kvs as [|kv kvs IH]; [done|].
      change (more_tokens (kv :: kvs)) with (SPACE :: token kv ++ more_tokens kvs).
      cbn [length]. rewrite length_app. lia. }
    pose proof (token_nonempty kv). destruct (token kv) eqn:Et; [done|].
    cbn [length app]. rewrite length_app. lia.
Qed.

Lemma kv_line_roundtrip_witness :
  ∃ rest,
    split_head (E := Empty_set) (ascii_bytes "tap x=540 e= text=" ++ [34; 97; 61; 32; 195; 169; 34])
    = Ok (ascii_bytes "tap", rest) ∧
    parse_kv (E := Empty_set) rest
    = Ok [(ascii_bytes "x", ascii_bytes "540"); (ascii_bytes "e", []);
          (ascii_bytes "text", [97; 61; 32; 195; 169])].
Proof.
  refine (kv_line_roundtrip (ascii_bytes "tap")
    [(ascii_bytes "x", ascii_bytes "540"); (ascii_bytes "e", []);
     (ascii_bytes "text", [97; 61; 32; 195; 169])] _ _ _).
  - split_and!; [done|ascii_str|by repeat constructor|].
    by intros c rest [= <- _].
  - assert (is_str [97; 61; 32; 195; 169]).
    { exists [97; 61; 32; 233]. split; [|done]. apply (bool_decide_unpack _); vm_compute; exact I. }
    repeat (apply Forall_cons; split); try apply Forall_nil_2;
      (split; [split; [|split]|split]); cbn;
      try done; try ascii_str; try (by intros c rest [= <- _]);
      apply (bool_decide_unpack _); vm_compute; exact I.
  - intros kv [= <-]. by left.
Defined.

(** Every line is read.  Whatever the line, both parsers return, without slicing a
    character in two, and what they return are strings; the parser of pairs makes progress
    with each token, so that fuel for its bytes is enough for all of them. *)
Theorem kvs_total {E} (line : str) (Hline : is_str line) :
  (∃ verb rest, split_head (E := E) line = Ok (verb, rest) ∧ is_str verb ∧ is_str rest) ∧
  (∃ kvs, parse_kv (E := E) line = Ok kvs ∧ Forall pair_of_strs kvs).
Proof. split; [by apply split_head_ok|]. apply collect_kv_ok; [done|lia]. Qed.

Lemma kvs_total_witness :
  ∃ kvs, parse_kv (E := Empty_set) (ascii_bytes "a=" ++ [34; 195; 169] ++ ascii_bytes " b") = Ok kvs ∧
         Forall pair_of_strs kvs.
Proof.
  refine (proj2 (kvs_total (ascii_bytes "a=" ++ [34; 195; 169] ++ ascii_bytes " b") _)).
  exists [97; 61; 34; 233; 32; 98]. split; [|done]. apply (bool_decide_unpack _); vm_compute; exact I.
Defined.
