(* ===== verification/KernelTypes.v ===== *)
(** * The planning crate's data ([ai-device-kernel/src/]: [ids.rs], [observation.rs],
    [predicate.rs], [action.rs], [plan.rs])

    Identifiers are the number inside the source's newtype.  Texts whose bytes matter are
    [str]; labels and error messages are [string].  The hash behind a screen fingerprint
    ([blake3], another crate) is a parameter. *)

From S2P Require Import Prelude Words Utf8 Float32 Format.
Local Open Scope Z_scope.

(** ** [ids.rs] *)

Abbreviation ActionId := Z (only parsing).
Abbreviation PlanId := Z (only parsing).
Abbreviation StepId := Z (only parsing).
Abbreviation PredicateHandle := Z (only parsing).
Abbreviation ScreenId := (list Z) (only parsing).

Definition ActionId_ZERO : ActionId := 0.
Definition PlanId_ZERO : PlanId := 0.
Definition StepId_ZERO : StepId := 0.
Definition PredicateHandle_ZERO : PredicateHandle := 0.
Definition ActionId_next (id : ActionId) : ActionId := wrap 64 (id + 1).
Definition PlanId_next (id : PlanId) : PlanId := wrap 64 (id + 1).
Definition ActionId_display (id : ActionId) : string := "action#" +:+ pretty id.
Definition PlanId_display (id : PlanId) : string := "plan#" +:+ pretty id.
Definition StepId_display (id : StepId) : string := "step#" +:+ pretty id.
Definition PredicateHandle_display (id : PredicateHandle) : string := "pred#" +:+ pretty id.

Definition ScreenId_UNKNOWN : ScreenId := replicate 16 0.

(** What [ScreenId::compute] feeds to the hash: each part behind its length. *)
Definition hash_part (part : bytes) : bytes := le_bytes 4 (wrap 32 (Z.of_nat (length part))) ++ part.
Definition screen_input (a11y_hash frame_phash : bytes) (pkg_activity : str) : bytes :=
  hash_part a11y_hash ++ hash_part frame_phash ++ hash_part pkg_activity.

Section ScreenIds.
Context (blake3 : bytes → bytes).
Definition compute (a11y_hash frame_phash : bytes) (pkg_activity : str) : ScreenId :=
  take 16 (blake3 (screen_input a11y_hash frame_phash pkg_activity)).
Definition from_focus (focus : str) : ScreenId := compute [] [] focus.
End ScreenIds.

(** [{b:02x}] of each byte. *)
Definition hex_nibble (n : Z) : Z := if n <? 10 then 48 + n else 87 + n.
Definition hex (id : ScreenId) : str := id ≫= λ b, [hex_nibble (b / 16); hex_nibble (b mod 16)].

(** ** [observation.rs] *)

Record A11yTree : Set := mkA11yTree
  { window_id : option Z; top_activity : option str; node_count : Z; json : str }.

Record FrameSnapshot : Set := mkFrameSnapshot
  { fs_width : Z; fs_height : Z; fs_codec : Z; fs_is_keyframe : bool; fs_pts : Z;
    fs_scene_change_score : f32; fs_png : option bytes }.

Definition FrameSnapshot_default : FrameSnapshot :=
  mkFrameSnapshot 0 0 0 false 0 (f32_of_Z 0) None.

Record DeviceState : Set := mkDeviceState
  { focused_window : Z; focused_node : Z; screen_on : bool; uptime_ms : Z }.

Definition DeviceState_unknown (uptime : Z) : DeviceState := mkDeviceState 0 (2 ^ 32 - 1) true uptime.

Record ForegroundApp : Set := mkForegroundApp
  { package : str; activity : str; focused : bool; since_ms : Z }.

Definition SLASH : Z := 47.
Definition app_component (a : ForegroundApp) : str := package a ++ [SLASH] ++ activity a.

Inductive DeviceEvent : Set :=
  | De_ActivityResumed (component : str)
  | De_ActivityPaused (component : str)
  | De_WindowFocusChanged (window : Z)
  | De_PackageAdded (pkg : str)
  | De_PackageRemoved (pkg : str)
  | De_ConfigurationChanged
  | De_SceneChangeDetected (score : f32)
  | De_NotificationPosted (key : str)
  | De_ClipboardChanged
  | De_ActionCompleted (action_id : ActionId) (landed : bool) (elapsed_ms : Z)
  | De_PlanCompleted (plan_id : PlanId) (all_landed : bool) (elapsed_ms : Z)
  | De_Uptime (uptime : Z).

Definition DeviceEvent_kind_label (ev : DeviceEvent) : string :=
  match ev with
  | De_ActivityResumed _ => "activity-resumed"
  | De_ActivityPaused _ => "activity-paused"
  | De_WindowFocusChanged _ => "window-focus-changed"
  | De_PackageAdded _ => "package-added"
  | De_PackageRemoved _ => "package-removed"
  | De_ConfigurationChanged => "configuration-changed"
  | De_SceneChangeDetected _ => "scene-change-detected"
  | De_NotificationPosted _ => "notification-posted"
  | De_ClipboardChanged => "clipboard-changed"
  | De_ActionCompleted _ _ _ => "action-completed"
  | De_PlanCompleted _ _ _ => "plan-completed"
  | De_Uptime _ => "uptime"
  end.

Record Observation : Set := mkObservation
  { seq : Z; timestamp_ms : Z; a11y : option A11yTree; frame : option FrameSnapshot;
    state : DeviceState; events : list DeviceEvent; foreground_app : option ForegroundApp }.

Definition Observation_default : Observation :=
  mkObservation 0 0 None None (DeviceState_unknown 0) [] None.
Definition is_header_only (o : Observation) : bool :=
  match a11y o, frame o with None, None => true | _, _ => false end.
Definition event_count (o : Observation) : nat := length (events o).

(** ** [predicate.rs] *)

Inductive EventKind : Set :=
  | K_ActivityResumed | K_ActivityPaused | K_WindowFocusChanged | K_PackageAdded | K_PackageRemoved
  | K_ConfigurationChanged | K_SceneChangeDetected | K_NotificationPosted | K_ClipboardChanged.

#[export] Instance EventKind_eq_dec : EqDecision EventKind.
Proof. solve_decision. Defined.

Definition from_event (ev : DeviceEvent) : option EventKind :=
  match ev with
  | De_ActivityResumed _ => Some K_ActivityResumed
  | De_ActivityPaused _ => Some K_ActivityPaused
  | De_WindowFocusChanged _ => Some K_WindowFocusChanged
  | De_PackageAdded _ => Some K_PackageAdded
  | De_PackageRemoved _ => Some K_PackageRemoved
  | De_ConfigurationChanged => Some K_ConfigurationChanged
  | De_SceneChangeDetected _ => Some K_SceneChangeDetected
  | De_NotificationPosted _ => Some K_NotificationPosted
  | De_ClipboardChanged => Some K_ClipboardChanged
  | De_ActionCompleted _ _ _ | De_PlanCompleted _ _ _ | De_Uptime _ => None
  end.

Definition EventKind_label (k : EventKind) : string :=
  match k with
  | K_ActivityResumed => "activity-resumed"
  | K_ActivityPaused => "activity-paused"
  | K_WindowFocusChanged => "window-focus-changed"
  | K_PackageAdded => "package-added"
  | K_PackageRemoved => "package-removed"
  | K_ConfigurationChanged => "configuration-changed"
  | K_SceneChangeDetected => "scene-change-detected"
  | K_NotificationPosted => "notification-posted"
  | K_ClipboardChanged => "clipboard-changed"
  end.

Inductive Predicate : Set :=
  | TextAppears (text : str) (node_id : option Z) (timeout : Z)
  | Activity (component : str) (timeout : Z)
  | SceneStable (duration_ms timeout : Z)
  | A11yIdle (duration_ms timeout : Z)
  | SelectorMatches (selector : str) (timeout : Z)
  | EventFires (kind : EventKind) (timeout : Z).

Definition timeout_ms (p : Predicate) : Z :=
  match p with
  | TextAppears _ _ t | Activity _ t | SceneStable _ t | A11yIdle _ t | SelectorMatches _ t
  | EventFires _ t => t
  end.

Definition Predicate_kind_label (p : Predicate) : string :=
  match p with
  | TextAppears _ _ _ => "text-appears"
  | Activity _ _ => "activity"
  | SceneStable _ _ => "scene-stable"
  | A11yIdle _ _ => "a11y-idle"
  | SelectorMatches _ _ => "selector-matches"
  | EventFires _ _ => "event-fires"
  end.

(** ** [action.rs] *)

Inductive AtomicErrorCode : Set :=
  | SelectorMiss | KernelError | Ec_Timeout | PermissionDenied | AppNotForeground | NotImplemented.

#[export] Instance AtomicErrorCode_eq_dec : EqDecision AtomicErrorCode.
Proof. solve_decision. Defined.

Definition code_as_str (c : AtomicErrorCode) : string :=
  match c with
  | SelectorMiss => "selector_miss"
  | KernelError => "kernel_error"
  | Ec_Timeout => "timeout"
  | PermissionDenied => "permission_denied"
  | AppNotForeground => "app_not_foreground"
  | NotImplemented => "not_implemented"
  end.

Inductive LaunchBy : Set :=
  | Lb_Component (component : str)
  | Lb_Package (package : str)
  | Lb_Intent (action : str) (data mime_type : option str).

Inductive ObservationComponent : Set := Oc_A11y | Oc_Frame | Oc_State | Oc_Events | Oc_ForceKeyframe.

Record Rect : Set := mkRect { rect_x : Z; rect_y : Z; rect_width : Z; rect_height : Z }.
Definition rect_is_valid (r : Rect) : bool := (0 <? rect_width r) && (0 <? rect_height r).

(** [i32::saturating_add], and [/ 2], which rounds toward zero. *)
Definition sat_i32 (z : Z) : Z := Z.max (- 2 ^ 31) (Z.min (2 ^ 31 - 1) z).
Definition rect_center (r : Rect) : Z * Z :=
  (sat_i32 (rect_x r + Z.quot (rect_width r) 2), sat_i32 (rect_y r + Z.quot (rect_height r) 2)).

Inductive Action : Set :=
  | Act_Tap (x y : Z) (deadline : Z)
  | Act_TapSelector (selector : str) (deadline : Z)
  | Act_TypeText (text : str) (deadline : Z)
  | Act_Key (code : Z) (deadline : Z)
  | Act_Swipe (x1 y1 x2 y2 : Z) (dur_ms : Z) (deadline : Z)
  | Act_GamepadFrame (report : bytes) (deadline : Z)
  | Act_Launch (target : str) (by_ : LaunchBy) (deadline : Z)
  | Act_SetClipboard (text : str) (paste : bool) (deadline : Z)
  | Act_Wait (predicate : Predicate) (deadline : Z)
  | Act_GetUiRepr (screen_id : option ScreenId) (deadline : Z)
  | Act_DumpObservation (components : list ObservationComponent) (deadline : Z)
  | Act_InjectRaw (raw : bytes) (deadline : Z)
  | Act_LocalizeText (query : str) (region : option Rect) (deadline : Z)
  | Act_DetectElement (class_name : str) (confidence_min : Z) (region : option Rect) (deadline : Z)
  | Act_Ground (text : str) (image_frame_id : Z) (deadline : Z)
  | Act_AskVisual (question : str) (image_frame_id : Z) (deadline : Z).

Definition deadline_ms (a : Action) : Z :=
  match a with
  | Act_Tap _ _ d | Act_TapSelector _ d | Act_TypeText _ d | Act_Key _ d | Act_Swipe _ _ _ _ _ d
  | Act_GamepadFrame _ d | Act_Launch _ _ d | Act_SetClipboard _ _ d | Act_Wait _ d
  | Act_GetUiRepr _ d | Act_DumpObservation _ d | Act_InjectRaw _ d | Act_LocalizeText _ _ d
  | Act_DetectElement _ _ _ d | Act_Ground _ _ d | Act_AskVisual _ _ d => d
  end.

Definition Action_kind_label (a : Action) : string :=
  match a with
  | Act_Tap _ _ _ => "tap"
  | Act_TapSelector _ _ => "tap-selector"
  | Act_TypeText _ _ => "type-text"
  | Act_Key _ _ => "key"
  | Act_Swipe _ _ _ _ _ _ => "swipe"
  | Act_GamepadFrame _ _ => "gamepad-frame"
  | Act_Launch _ _ _ => "launch"
  | Act_SetClipboard _ _ _ => "set-clipboard"
  | Act_Wait _ _ => "wait"
  | Act_GetUiRepr _ _ => "get-ui-repr"
  | Act_DumpObservation _ _ => "dump-observation"
  | Act_InjectRaw _ _ => "inject-raw"
  | Act_LocalizeText _ _ _ => "localize-text"
  | Act_DetectElement _ _ _ _ => "detect-element"
  | Act_Ground _ _ _ => "ground"
  | Act_AskVisual _ _ _ => "ask-visual"
  end.

Local Open Scope string_scope.
Definition capabilities (a : Action) : list string :=
  match a with
  | Act_Tap _ _ _ => ["input.motion_event"]
  | Act_TapSelector _ _ => ["a11y.resolve"; "input.motion_event"]
  | Act_TypeText _ _ => ["input.key_event"; "shell.ime"]
  | Act_Key _ _ => ["input.key_event"]
  | Act_Swipe _ _ _ _ _ _ => ["input.motion_event"]
  | Act_GamepadFrame _ _ | Act_InjectRaw _ _ => ["uhid.inject"]
  | Act_Launch _ _ _ => ["pm.start_activity"]
  | Act_SetClipboard _ _ _ => ["clipboard.set"; "shell.ime"]
  | Act_Wait _ _ => ["predicate.wait"]
  | Act_GetUiRepr _ _ | Act_DumpObservation _ _ => ["a11y.observe"; "frame.observe"]
  | Act_LocalizeText _ _ _ => ["frame.observe"; "litert.ocr"]
  | Act_DetectElement _ _ _ _ => ["frame.observe"; "litert.detect"]
  | Act_Ground _ _ _ => ["frame.observe"; "litert.ground"]
  | Act_AskVisual _ _ _ => ["frame.observe"; "litert.vqa"]
  end.
Local Close Scope string_scope.

Inductive A11yNodeChangeKind : Set := Added | Removed | TextChanged | VisibilityChanged | BoundsChanged.
Record A11yNodeDiff : Set := mkNodeDiff
  { nd_node_id : Z; nd_kind : A11yNodeChangeKind; nd_new_text : option str; nd_new_visible : option bool }.
Record FrameDiff : Set := mkFrameDiff
  { fd_total : f32; fd_regions : f32 * f32 * f32 * f32; fd_scene_change : f32; fd_source : FrameSnapshot }.
Record GroundTruth : Set := mkGroundTruth
  { gt_a11y_diff : list A11yNodeDiff; gt_frame_diff : option FrameDiff; gt_focus : option Z;
    gt_scene_change : f32; gt_events : list DeviceEvent }.
Definition GroundTruth_default : GroundTruth := mkGroundTruth [] None None (f32_of_Z 0) [].

Record ActionResult : Set := mkActionResult
  { ar_id : ActionId; ar_landed : bool; ar_ground_truth : GroundTruth; ar_elapsed_ms : Z;
    ar_code : option AtomicErrorCode; ar_retryable : bool }.
Definition ActionResult_default : ActionResult :=
  mkActionResult ActionId_ZERO false GroundTruth_default 0 None false.

Definition is_nil {A} (l : list A) : bool := match l with [] => true | _ => false end.
Definition is_some {A} (o : option A) : bool := match o with Some _ => true | None => false end.

Definition has_ground_truth (r : ActionResult) : bool :=
  ar_landed r && (negb (is_nil (gt_a11y_diff (ar_ground_truth r)))
                  || is_some (gt_frame_diff (ar_ground_truth r))
                  || negb (is_nil (gt_events (ar_ground_truth r)))).
Definition is_structured_failure (r : ActionResult) : bool := negb (ar_landed r) && is_some (ar_code r).

(** ** [plan.rs] *)

Record PlanStep : Set := mkPlanStep
  { step_id : StepId; action : Action; wait_before : option Predicate;
    verify_after : option Predicate; label : option string }.
Inductive PredicateResult : Set :=
  | Pr_Matched (handle : PredicateHandle) (elapsed_ms : Z)
  | Pr_Timeout (handle : PredicateHandle)
  | Pr_Cancelled (handle : PredicateHandle)
  | Pr_Unknown (handle : PredicateHandle).

Definition PlanStep_new (a : Action) : PlanStep := mkPlanStep StepId_ZERO a None None None.
Definition with_wait_before (p : Predicate) (s : PlanStep) : PlanStep :=
  mkPlanStep (step_id s) (action s) (Some p) (verify_after s) (label s).
Definition with_verify_after (p : Predicate) (s : PlanStep) : PlanStep :=
  mkPlanStep (step_id s) (action s) (wait_before s) (Some p) (label s).
Definition with_label (l : string) (s : PlanStep) : PlanStep :=
  mkPlanStep (step_id s) (action s) (wait_before s) (verify_after s) (Some l).

Definition PLAN_VERSION : string := "0.1.0".

Record Plan : Set := mkPlan
  { plan_version : string; plan_id : PlanId; steps : list PlanStep; abort_on_error : bool;
    checkpoint_every : Z }.
Definition Plan_new (ss : list PlanStep) : Plan := mkPlan PLAN_VERSION PlanId_ZERO ss true 0.
Definition with_abort (b : bool) (p : Plan) : Plan :=
  mkPlan (plan_version p) (plan_id p) (steps p) b (checkpoint_every p).
Definition with_checkpoint_every (n : Z) (p : Plan) : Plan :=
  mkPlan (plan_version p) (plan_id p) (steps p) (abort_on_error p) n.
(** [semver::Version::parse] is a parameter. *)
Definition version_parsed {Version : Type} (parse : string → option Version) (p : Plan) : option Version :=
  parse (plan_version p).
Definition default_plan_version_str : string := PLAN_VERSION.
Definition plan_len (p : Plan) : nat := length (steps p).
Definition plan_is_empty (p : Plan) : bool := is_nil (steps p).

Record StepResult : Set := mkStepResult
  { sr_step_id : StepId; sr_index : Z; sr_action_result : ActionResult; sr_landed : bool;
    sr_error : option string }.
Definition step_is_ok (s : StepResult) : bool :=
  sr_landed s && ar_landed (sr_action_result s) && negb (is_some (sr_error s)).

Record PlanResult : Set := mkPlanResult
  { pr_plan_id : PlanId; pr_steps : list StepResult; pr_final_observation : Observation;
    pr_total_elapsed_ms : Z; pr_all_landed : bool }.
Definition first_failure (r : PlanResult) : option nat :=
  fst <$> list_find (λ s, sr_landed s = false) (pr_steps r).
