(* ===== verification/Bounded.v ===== *)
(** * Bounded queues

    The planning crate keeps histories in a [VecDeque] that drops its oldest element when a
    push would exceed the capacity.  [bounded_push] is that step; what is kept is the end
    of what was pushed. *)

From S2P Require Import Prelude.

Section Bounded.
Context {A : Type}.
Implicit Types (q l : list A) (x : A).

(** [if q.len() >= cap { q.pop_front(); } q.push_back(x);] *)
Definition bounded_push (cap : nat) q x : list A :=
  (if cap <=? length q then tail q else q) ++ [x].

(** The last [n] elements. *)
Definition lastn (n : nat) l : list A := drop (length l - n) l.

Lemma length_lastn n l : length (lastn n l) = n `min` length l.
Proof. unfold lastn. rewrite length_drop. lia. Qed.

Lemma lastn_all n l : length l ≤ n → lastn n l = l.
Proof. intros H. unfold lastn. by replace (length l - n) with 0 by lia. Qed.

Lemma lastn_app n l k : n ≤ length k → lastn n (l ++ k) = lastn n k.
Proof.
  intros H. unfold lastn. rewrite length_app.
  replace (length l + length k - n) with (length l + (length k - n)) by lia.
  by rewrite <-drop_drop, drop_app_length.
Qed.

Lemma lastn_app_lastn n l k : lastn n (lastn n l ++ k) = lastn n (l ++ k).
Proof.
  unfold lastn. rewrite !length_app, length_drop.
  destruct (decide (length l ≤ n)) as [Hl|Hl].
  - replace (length l - n) with 0 by lia. rewrite drop_0. f_equal. lia.
  - set (d := length l - n).
    assert (l ++ k = take d l ++ (drop d l ++ k)) as -> by by rewrite app_assoc, take_drop.
    replace (length l + length k - n) with (length (take d l) + (length l - d + length k - n))
      by (rewrite length_take; lia).
    by rewrite <-drop_drop, drop_app_length.
Qed.

Lemma bounded_push_lastn cap q x :
  0 < cap → length q ≤ cap → bounded_push cap q x = lastn cap (q ++ [x]).
Proof.
  intros Hc Hq. unfold bounded_push, lastn. rewrite length_app. cbn.
  destruct (Nat.leb_spec cap (length q)).
  - replace (length q + 1 - cap) with 1 by lia. destruct q; [cbn in *; lia|done].
  - by replace (length q + 1 - cap) with 0 by lia.
Qed.

Lemma length_bounded_push cap q x :
  0 < cap → length q ≤ cap → length (bounded_push cap q x) ≤ cap.
Proof. intros. rewrite bounded_push_lastn, length_lastn by done. lia. Qed.

(** Pushing a whole list keeps the end of everything that was there. *)
Lemma foldl_bounded_push cap q l :
  0 < cap → length q ≤ cap → foldl (bounded_push cap) q l = lastn cap (q ++ l).
Proof.
  intros Hc. revert q. induction l as [|x l IH]; intros q Hq; cbn.
  { by rewrite app_nil_r, lastn_all. }
  rewrite IH by by apply length_bounded_push.
  rewrite bounded_push_lastn by done. by rewrite lastn_app_lastn, <-app_assoc.
Qed.

Lemma lastn_suffix n l : ∃ l', l = l' ++ lastn n l.
Proof. exists (take (length l - n) l). unfold lastn. by rewrite take_drop. Qed.

Lemma last_bounded_push cap q x : last (bounded_push cap q x) = Some x.
Proof. unfold bounded_push. by rewrite last_snoc. Qed.
End Bounded.

(** [l] is what is left of the history [full] at capacity [cap]. *)
Definition keeps_last {A} (cap : nat) (full l : list A) : Prop := l = lastn cap full.

Lemma keeps_last_push {A} cap (full l : list A) x :
  (0 < cap)%nat → keeps_last cap full l → keeps_last cap (full ++ [x]) (bounded_push cap l x).
Proof.
  intros Hc ->. unfold keeps_last.
  rewrite bounded_push_lastn by (rewrite ?length_lastn; lia). apply lastn_app_lastn.
Qed.

Lemma foldl_snoc {A B} (f : A → B → A) a l b : foldl f a (l ++ [b]) = f (foldl f a l) b.
Proof. by rewrite foldl_app. Qed.

Arguments bounded_push {A} cap q x : simpl never.
Arguments lastn {A} n l : simpl never.
