(* ===== verification/StreamEngine.v ===== *)
(** * The observation stream ([ai-device-kernel/src/stream_engine.rs])

    Each observation produced goes into a bounded history and into the bounded queue of
    every subscriber whose filter accepts it.  The subscribers are a [HashMap]; nothing
    here depends on the order in which it is walked. *)

From stdpp Require Import gmap.
From S2P Require Import Prelude Words Utf8 Float32 KernelTypes Bounded.
Local Open Scope Z_scope.

Definition SUBSCRIBER_QUEUE_CAP : nat := 256.
Definition HISTORY_CAP : nat := 512.

Record Subscriber : Set := mkSubscriber
  { sub_id : Z; last_seq : option Z; queue : list Observation; sub_filter : option (list EventKind);
    dropped : Z }.

Definition Subscriber_new (id : Z) : Subscriber := mkSubscriber id None [] None 0.
Definition with_filter (f : option (list EventKind)) (s : Subscriber) : Subscriber :=
  mkSubscriber (sub_id s) (last_seq s) (queue s) f (dropped s).

Definition poll (s : Subscriber) : option Observation * Subscriber :=
  match queue s with
  | [] => (None, s)
  | obs :: q => (Some obs, mkSubscriber (sub_id s) (Some (seq obs)) q (sub_filter s) (dropped s))
  end.

Definition pending (s : Subscriber) : nat := length (queue s).

(** Some event of the observation has one of the kinds. *)
Definition mentions (f : list EventKind) (obs : Observation) : bool :=
  existsb (λ ev, existsb (λ k, bool_decide (from_event ev = Some k)) f) (events obs).

Definition accepts (s : Subscriber) (obs : Observation) : bool :=
  match sub_filter s with
  | None => true
  | Some f => mentions f obs
  end.

Definition push (obs : Observation) (s : Subscriber) : bool * Subscriber :=
  if accepts s obs then
    (true, mkSubscriber (sub_id s) (last_seq s) (bounded_push SUBSCRIBER_QUEUE_CAP (queue s) obs)
             (sub_filter s)
             (if (SUBSCRIBER_QUEUE_CAP <=? length (queue s))%nat then wrap 64 (dropped s + 1)
              else dropped s))
  else (false, s).

Definition replay_from_history (history : list Observation) (since : Z) (s : Subscriber) : Subscriber :=
  foldl (λ s obs, if since <? seq obs then (push obs s).2 else s) s history.

Record StreamEngine : Type := mkStreamEngine
  { next_seq : Z; history : list Observation; subscribers : gmap Z Subscriber;
    next_subscriber_id : Z }.

Definition StreamEngine_new : StreamEngine := mkStreamEngine 0 [] ∅ 1.

Definition set_subscribers (m : gmap Z Subscriber) (e : StreamEngine) : StreamEngine :=
  mkStreamEngine (next_seq e) (history e) m (next_subscriber_id e).

Definition subscribe (since : Z) (f : option (list EventKind)) (e : StreamEngine) : Z * StreamEngine :=
  let id := next_subscriber_id e in
  let sub := replay_from_history (history e) since (with_filter f (Subscriber_new id)) in
  (id, mkStreamEngine (next_seq e) (history e) (<[id := sub]> (subscribers e)) (wrap 64 (id + 1))).

Definition unsubscribe (h : Z) (e : StreamEngine) : bool * StreamEngine :=
  (is_some (subscribers e !! h), set_subscribers (delete h (subscribers e)) e).

Definition produce (obs_factory : Z → Observation) (e : StreamEngine) : Z * StreamEngine :=
  let s := next_seq e in
  let obs := obs_factory s in
  (s, mkStreamEngine (wrap 64 (s + 1)) (bounded_push HISTORY_CAP (history e) obs)
        ((λ sub, (push obs sub).2) <$> subscribers e) (next_subscriber_id e)).

Definition subscriber (h : Z) (e : StreamEngine) : option Subscriber := subscribers e !! h.

(** [engine.subscriber_mut(h).and_then(|s| s.poll())] *)
Definition poll_subscriber (h : Z) (e : StreamEngine) : option Observation * StreamEngine :=
  match subscribers e !! h with
  | None => (None, e)
  | Some sub =>
      let '(o, sub) := poll sub in (o, set_subscribers (<[h := sub]> (subscribers e)) e)
  end.

Definition subscriber_count (e : StreamEngine) : nat := size (subscribers e).
Definition history_len (e : StreamEngine) : nat := length (history e).
Definition head_seq (e : StreamEngine) : option Z :=
  if next_seq e =? 0 then None else Some (next_seq e - 1).
Definition since_seq (since : Z) (e : StreamEngine) : list Observation :=
  filter (λ o, since < seq o) (history e).

(** [std::mem::discriminant] *)
Definition discriminant (ev : DeviceEvent) : nat :=
  match ev with
  | De_ActivityResumed _ => 0 | De_ActivityPaused _ => 1 | De_WindowFocusChanged _ => 2
  | De_PackageAdded _ => 3 | De_PackageRemoved _ => 4 | De_ConfigurationChanged => 5
  | De_SceneChangeDetected _ => 6 | De_NotificationPosted _ => 7 | De_ClipboardChanged => 8
  | De_ActionCompleted _ _ _ => 9 | De_PlanCompleted _ _ _ => 10 | De_Uptime _ => 11
  end.

Definition add_event (out : list DeviceEvent) (ev : DeviceEvent) : list DeviceEvent :=
  if existsb (λ e, (discriminant e =? discriminant ev)%nat) out then out else out ++ [ev].

Definition events_since (since : Z) (e : StreamEngine) : list DeviceEvent :=
  foldl (λ out obs, foldl add_event out (events obs)) [] (since_seq since e).

(** ** The owner's calls *)

Inductive StreamOp : Type :=
  | Op_produce (f : Z → Observation)
  | Op_poll (h : Z)
  | Op_subscribe (since : Z) (f : option (list EventKind))
  | Op_unsubscribe (h : Z).

Definition stream_op (op : StreamOp) (e : StreamEngine) : option Observation * StreamEngine :=
  match op with
  | Op_produce f => (None, (produce f e).2)
  | Op_poll h => poll_subscriber h e
  | Op_subscribe since f => (None, (subscribe since f e).2)
  | Op_unsubscribe h => (None, (unsubscribe h e).2)
  end.

(** Running calls: what each returned, the observations they produced, the final engine. *)
Fixpoint stream_run (ops : list StreamOp) (e : StreamEngine) :
    list (option Observation) * list Observation * StreamEngine :=
  match ops with
  | [] => ([], [], e)
  | op :: ops =>
      let made := match op with Op_produce f => [f (next_seq e)] | _ => [] end in
      let '(o, e) := stream_op op e in
      let '(os, produced, e) := stream_run ops e in
      (o :: os, made ++ produced, e)
  end.

(** What a subscriber got from its polls. *)
Definition received (h : Z) (ops : list StreamOp) (os : list (option Observation)) : list Observation :=
  omap (λ p, match p with (Op_poll h', Some o) => if h' =? h then Some o else None | _ => None end)
    (zip ops os).

Definition wanted (f : option (list EventKind)) (obs : Observation) : Prop :=
  match f with None => True | Some f => mentions f obs = true end.
#[export] Instance wanted_dec f obs : Decision (wanted f obs).
Proof. unfold wanted. destruct f; apply _. Defined.

(** ** A subscriber's queue *)

(** What the queue of a subscriber is, after [got] was delivered out of [stream]. *)
Record follows (f : option (list EventKind)) (stream got : list Observation) (s : Subscriber) : Prop := {
  f_filter : sub_filter s = f;
  f_bound : (length (queue s) ≤ SUBSCRIBER_QUEUE_CAP)%nat;
  f_end : queue s `suffix_of` stream;
  f_order : got ++ queue s `sublist_of` stream;
  f_count : ∃ lost, length stream = (length got + length (queue s) + lost)%nat ∧
                    dropped s = wrap 64 (Z.of_nat lost);
  f_last : last_seq s = seq <$> last got }.

Lemma accepts_wanted s obs : accepts s obs = bool_decide (wanted (sub_filter s) obs).
Proof. unfold accepts, wanted. destruct (sub_filter s); [|by rewrite bool_decide_true].
  case_bool_decide as H; [done|by apply not_true_iff_false]. Qed.

Lemma follows_new f id : follows f [] [] (with_filter f (Subscriber_new id)).
Proof. split; cbn; try done; [unfold SUBSCRIBER_QUEUE_CAP; lia|by exists 0%nat]. Qed.

Lemma follows_push f stream got s obs :
  follows f stream got s →
  follows f (stream ++ (if bool_decide (wanted f obs) then [obs] else [])) got (push obs s).2.
Proof.
  intros [Hf Hb He Ho (lost & Hc & Hd) Hl]. unfold push. rewrite accepts_wanted, Hf.
  case_bool_decide as Hw; [|rewrite app_nil_r; split; try done; by exists lost]. cbn [snd].
  pose proof (bounded_push_lastn SUBSCRIBER_QUEUE_CAP (queue s) obs) as Hq.
  rewrite Hq by (done || unfold SUBSCRIBER_QUEUE_CAP; lia). clear Hq.
  destruct (lastn_suffix SUBSCRIBER_QUEUE_CAP (queue s ++ [obs])) as [l El].
  split; cbn [sub_filter queue last_seq dropped]; [done|rewrite length_lastn; lia| | | |done].
  - transitivity (queue s ++ [obs]); [by exists l|]. destruct He as [k ->].
    exists k. by rewrite app_assoc.
  - transitivity (got ++ queue s ++ [obs]).
    + apply sublist_app; [done|]. rewrite El at 2. by apply sublist_inserts_l.
    + rewrite app_assoc. by apply sublist_app.
  - rewrite !length_app, length_lastn, length_app. cbn [length].
    destruct (Nat.leb_spec SUBSCRIBER_QUEUE_CAP (length (queue s))) as [Hfull|Hfull].
    + exists (S lost). split; [lia|]. by rewrite Hd, wrap_add, Nat2Z.inj_succ.
    + exists lost. split; [lia|done].
Qed.

Lemma follows_poll f stream got s :
  follows f stream got s →
  follows f stream (got ++ option_list (poll s).1) (poll s).2.
Proof.
  intros [Hf Hb He Ho Hc Hl]. unfold poll. destruct (queue s) as [|o q] eqn:Eq; cbn [fst snd option_list].
  { rewrite app_nil_r. split; rewrite ?Eq; done. }
  split; cbn [sub_filter queue last_seq dropped].
  - done.
  - cbn in Hb. lia.
  - etransitivity; [|exact He]. by exists [o].
  - by rewrite <-app_assoc.
  - destruct Hc as (lost & Hc & Hd). exists lost. rewrite length_app. cbn in *. split; [lia|done].
  - change (option_list (Some o)) with [o]. by rewrite last_snoc.
Qed.

(** The history behind [since], as a subscriber with filter [f] sees it. *)
Definition replayed (f : option (list EventKind)) (since : Z) (e : StreamEngine) : list Observation :=
  filter (wanted f) (since_seq since e).

Lemma follows_replay f since hist stream s :
  follows f stream [] s →
  follows f (stream ++ filter (wanted f) (filter (λ o, since < seq o) hist)) []
    (replay_from_history hist since s).
Proof.
  unfold replay_from_history. revert stream s. induction hist as [|o hist IH]; intros stream s H.
  { by rewrite app_nil_r. }
  cbn [foldl]. rewrite (filter_cons _ o). destruct (Z.ltb_spec since (seq o)) as [Hs|Hs].
  - rewrite decide_True, filter_cons by done.
    pose proof (IH _ _ (follows_push _ _ _ _ o H)) as H'. rewrite <-app_assoc in H'.
    case_bool_decide as Hw; by case_decide.
  - rewrite decide_False by lia. by apply IH.
Qed.

(** ** The engine *)

Definition engine_follows (h : Z) f stream got (e : StreamEngine) : Prop :=
  h < next_subscriber_id e ∧ ∃ s, subscribers e !! h = Some s ∧ follows f stream got s.

(** Only so many ids are left. *)
Definition ids_left (ops : list StreamOp) (e : StreamEngine) : Prop :=
  0 ≤ next_subscriber_id e ∧ next_subscriber_id e + Z.of_nat (length ops) < 2 ^ 64.

Lemma engine_follows_op h f stream got op e :
  engine_follows h f stream got e → 0 ≤ next_subscriber_id e → next_subscriber_id e + 1 < 2 ^ 64 →
  op ≠ Op_unsubscribe h →
  engine_follows h f
    (stream ++ filter (wanted f) (match op with Op_produce g => [g (next_seq e)] | _ => [] end))
    (got ++ match op with
            | Op_poll h' => if h' =? h then option_list (stream_op op e).1 else []
            | _ => []
            end) (stream_op op e).2.
Proof.
  intros (Hh & s & Hs & Hf) H0 Hid Hop. destruct op as [g|h'|since f'|h']; cbn [stream_op fst snd].
  - split; [done|]. exists (push (g (next_seq e)) s).2. unfold produce. cbn [snd subscribers].
    rewrite lookup_fmap, Hs, app_nil_r, filter_cons, filter_nil. split; [done|].
    pose proof (follows_push _ _ _ _ (g (next_seq e)) Hf) as H.
    case_bool_decide as Hw; case_decide; done.
  - rewrite filter_nil, app_nil_r. unfold poll_subscriber.
    destruct (Z.eqb_spec h' h) as [->|Hne].
    + rewrite Hs. pose proof (follows_poll _ _ _ _ Hf) as H. destruct (poll s) as [o s'].
      split; [done|]. exists s'. cbn. by rewrite lookup_insert_eq.
    + rewrite app_nil_r. destruct (subscribers e !! h') as [s'|]; [|split; [done|by exists s]].
      destruct (poll s') as [o s'']. split; [done|]. exists s. cbn. by rewrite lookup_insert_ne.
  - rewrite filter_nil, !app_nil_r. unfold subscribe. split; cbn [snd next_subscriber_id].
    + rewrite wrap_small by (widths; lia). lia.
    + exists s. cbn [subscribers]. rewrite lookup_insert_ne by lia. done.
  - rewrite filter_nil, !app_nil_r. split; [done|]. exists s. cbn.
    rewrite lookup_delete_ne; [done|]. by intros ->.
Qed.

Lemma ids_left_op op ops e :
  ids_left (op :: ops) e → ids_left ops (stream_op op e).2.
Proof.
  unfold ids_left. cbn [length]. intros [H0 H]. destruct op as [g|h'|since f'|h']; cbn.
  - lia.
  - unfold poll_subscriber. destruct (subscribers e !! h'); [|cbn; lia].
    destruct (poll _). cbn. lia.
  - rewrite wrap_small by (widths; lia). lia.
  - lia.
Qed.

Lemma received_cons h op ops o os :
  received h (op :: ops) (o :: os) =
  match op with Op_poll h' => if h' =? h then option_list o else [] | _ => [] end ++ received h ops os.
Proof.
  unfold received. cbn. destruct op as [g|h'| |]; try done.
  destruct o; [|by case_match]. by destruct (h' =? h).
Qed.

Lemma engine_follows_run h f stream got ops e :
  engine_follows h f stream got e → ids_left ops e → Op_unsubscribe h ∉ ops →
  let r := stream_run ops e in
  engine_follows h f (stream ++ filter (wanted f) r.1.2) (got ++ received h ops r.1.1) r.2.
Proof.
  revert stream got e. induction ops as [|op ops IH]; intros stream got e He Hids Hops.
  { cbn. by rewrite !app_nil_r. }
  apply not_elem_of_cons in Hops as [Hop Hops]. cbn [stream_run].
  pose proof (ids_left_op _ _ _ Hids) as Hids'. destruct Hids as [H0 Hid]. cbn [length] in Hid.
  pose proof (engine_follows_op h f stream got op e He H0 ltac:(lia) (not_eq_sym Hop)) as H1.
  destruct (stream_op op e) as [o e1]. cbn [fst snd] in *.
  specialize (IH _ _ _ H1 Hids' Hops). destruct (stream_run ops e1) as [[os produced] e2].
  cbn [fst snd] in *. rewrite received_cons, filter_app. by rewrite !app_assoc.
Qed.

(** ** The history *)

Lemma stream_op_history op e :
  (length (history e) ≤ HISTORY_CAP)%nat →
  history (stream_op op e).2 =
  lastn HISTORY_CAP (history e ++ match op with Op_produce f => [f (next_seq e)] | _ => [] end).
Proof.
  intros Hl. destruct op as [f|h|since f|h]; cbn [stream_op].
  - cbn. apply bounded_push_lastn; [unfold HISTORY_CAP; lia|done].
  - rewrite app_nil_r, lastn_all by done. unfold poll_subscriber.
    destruct (subscribers e !! h); [|done]. by destruct (poll _).
  - by rewrite app_nil_r, lastn_all.
  - by rewrite app_nil_r, lastn_all.
Qed.

Lemma stream_run_history ops e :
  (length (history e) ≤ HISTORY_CAP)%nat →
  history (stream_run ops e).2 = lastn HISTORY_CAP (history e ++ (stream_run ops e).1.2).
Proof.
  revert e. induction ops as [|op ops IH]; intros e Hl.
  { cbn. by rewrite app_nil_r, lastn_all. }
  cbn [stream_run]. pose proof (stream_op_history op e Hl) as H1.
  destruct (stream_op op e) as [o e1]. cbn [snd] in H1.
  assert (length (history e1) ≤ HISTORY_CAP)%nat as Hl1 by (rewrite H1, length_lastn; lia).
  specialize (IH e1 Hl1). destruct (stream_run ops e1) as [[os produced] e2]. cbn [fst snd] in *.
  by rewrite IH, H1, lastn_app_lastn, <-app_assoc.
Qed.

(** One event of each kind: the first. *)
Lemma add_event_spec out ev :
  ∃ more, add_event out ev = out ++ more ∧
    (more = [] ∧ discriminant ev ∈ discriminant <$> out ∨
     more = [ev] ∧ (discriminant ev ∉ discriminant <$> out)).
Proof.
  unfold add_event. destruct (existsb _ out) eqn:E.
  - exists []. rewrite app_nil_r. split; [done|left; split; [done|]].
    apply existsb_exists in E as (x & Hx & Heq%Nat.eqb_eq). rewrite <-Heq.
    by apply list_elem_of_fmap_2, list_elem_of_In.
  - exists [ev]. split; [done|right; split; [done|]].
    intros (x & Heq & Hx)%list_elem_of_fmap. apply not_true_iff_false in E. apply E.
    apply existsb_exists. exists x. split; [by apply list_elem_of_In|by apply Nat.eqb_eq].
Qed.

Lemma add_events_spec evs out :
  NoDup (discriminant <$> out) →
  let r := foldl add_event out evs in
  NoDup (discriminant <$> r) ∧ out `prefix_of` r ∧
  (∀ ev, ev ∈ evs → discriminant ev ∈ discriminant <$> r) ∧ (∀ ev, ev ∈ r → ev ∈ out ++ evs).
Proof.
  revert out. induction evs as [|ev evs IH]; intros out Hnd; cbn [foldl].
  { rewrite app_nil_r. split_and!; [done..|by intros ? ?%not_elem_of_nil|done]. }
  destruct (add_event_spec out ev) as (more & -> & Hmore).
  assert (NoDup (discriminant <$> out ++ more) ∧ discriminant ev ∈ discriminant <$> out ++ more)
    as [Hnd' Hev].
  { rewrite fmap_app. destruct Hmore as [[-> Hin]|[-> Hnin]].
    - rewrite app_nil_r. done.
    - split; [|apply elem_of_app; right; by left].
      apply NoDup_app. split_and!; [done| |apply NoDup_singleton].
      intros x Hx [->|Hx']%elem_of_cons; [done|by apply not_elem_of_nil in Hx']. }
  destruct (IH _ Hnd') as (H1 & H2 & H3 & H4). split_and!.
  - done.
  - etransitivity; [|exact H2]. by apply prefix_app_r.
  - intros ev' [->|Hin]%elem_of_cons; [|by apply H3].
    destruct H2 as [k ->]. rewrite fmap_app. apply elem_of_app. by left.
  - intros ev' Hin%H4. rewrite !elem_of_app in *. rewrite elem_of_cons.
    destruct Hin as [[Hin|Hin]|Hin]; [by left| |by right; right].
    destruct Hmore as [[-> _]|[-> _]]; [by apply not_elem_of_nil in Hin|].
    right; left. by apply list_elem_of_singleton in Hin.
Qed.

(** [events_since] lists one event of each kind that occurs, and nothing else. *)
Lemma events_since_spec since e :
  let evs := since_seq since e ≫= events in
  NoDup (discriminant <$> events_since since e) ∧
  (∀ ev, ev ∈ evs → discriminant ev ∈ discriminant <$> events_since since e) ∧
  (∀ ev, ev ∈ events_since since e → ev ∈ evs).
Proof.
  unfold events_since.
  assert (∀ (l : list Observation) out,
    foldl (λ out obs, foldl add_event out (events obs)) out l = foldl add_event out (l ≫= events)) as E.
  { induction l as [|o l IH]; intros out; [done|]. cbn. by rewrite foldl_app. }
  rewrite E. destruct (add_events_spec (since_seq since e ≫= events) []) as (H1 & _ & H2 & H3);
    [constructor|done].
Qed.

(** ** What a subscriber sees *)

Lemma sublist_full {A} (l k : list A) : l `sublist_of` k → length l = length k → l = k.
Proof.
  induction 1 as [|x l k _ IH|x l k H _]; intros Hl; [done| |].
  - f_equal. apply IH. cbn in Hl. lia.
  - apply sublist_length in H. cbn in Hl. lia.
Qed.

(** C20: a subscriber's stream.  Whatever the owner of an engine does after a [subscribe]
    (other subscribers included, this one kept), what the subscriber polled, followed by
    what is still queued for it, are observations its filter wants, those replayed from
    the history and then those produced, in order and none twice; the queue is the newest
    of them, at most 256; exactly the number counted in [dropped] is missing, so that
    nothing is while that is zero; and [last_seq] is that of the last poll. *)
Theorem subscriber_stream (e : StreamEngine) (since : Z) (f : option (list EventKind))
    (ops : list StreamOp)
    (Hids : ids_left (Op_subscribe since f :: ops) e)
    (Hops : Op_unsubscribe (subscribe since f e).1 ∉ ops) :
  let h := (subscribe since f e).1 in
  let r := stream_run ops (subscribe since f e).2 in
  let got := received h ops r.1.1 in
  let stream := replayed f since e ++ filter (wanted f) r.1.2 in
  ∃ s lost, subscriber h r.2 = Some s ∧
    queue s `suffix_of` stream ∧ (pending s ≤ SUBSCRIBER_QUEUE_CAP)%nat ∧
    got ++ queue s `sublist_of` stream ∧
    (length stream = length got + pending s + lost)%nat ∧ dropped s = wrap 64 (Z.of_nat lost) ∧
    (lost = 0%nat → got ++ queue s = stream) ∧
    last_seq s = seq <$> last got.
Proof.
  pose proof (ids_left_op (Op_subscribe since f) ops e Hids) as Hids'. cbn [stream_op snd] in Hids'.
  destruct Hids as [H0 Hid]. cbn [length] in Hid.
  assert (engine_follows (subscribe since f e).1 f (replayed f since e) [] (subscribe since f e).2) as He.
  { split; cbn.
    - rewrite wrap_small by (widths; lia). lia.
    - eexists. split; [by rewrite lookup_insert_eq|].
      apply (follows_replay f since (history e) []), follows_new. }
  intros h r got stream.
  pose proof (engine_follows_run _ _ _ _ _ _ He Hids' Hops) as Hrun. cbn [app] in Hrun.
  destruct Hrun as (_ & s & Hs & [_ Hb Hend Ho (lost & Hc & Hd) Hl]).
  exists s, lost. split_and!; [exact Hs|done..| |done].
  intros ->. apply sublist_full; [done|]. rewrite length_app.
  unfold stream, got, r, h. unfold pending in *. lia.
Qed.

Lemma subscriber_stream_witness :
  let tick n := mkObservation n 0 None None (DeviceState_unknown 0) [De_Uptime n] None in
  let ops := [Op_produce tick; Op_subscribe 0 None; Op_produce tick; Op_poll 1] in
  let r := stream_run ops (subscribe 0 None StreamEngine_new).2 in
  received 1 ops r.1.1 = [tick 0] ∧
  ∃ s, subscriber 1 r.2 = Some s ∧ [tick 0] ++ queue s = [tick 0; tick 1].
Proof.
  intros tick ops r.
  assert (received 1 ops r.1.1 = [tick 0]) as Hgot by reflexivity. split; [done|].
  destruct (subscriber_stream StreamEngine_new 0 None ops) as (s & lost & Hs & _ & _ & _ & Hc & _ & H & _).
  - split; vm_compute; [done|reflexivity].
  - intros Hin. unfold ops in Hin. rewrite !elem_of_cons in Hin.
    destruct Hin as [?|[?|[?|[?|Hin]]]]; try done. by apply not_elem_of_nil in Hin.
  - exists s. split; [exact Hs|]. apply H. vm_compute in Hs. injection Hs as <-.
    vm_compute in Hc. lia.
Defined.
