(* ===== verification/PredicateEngine.v ===== *)
(** * The predicate engine ([ai-device-kernel/src/predicate_engine.rs])

    A registry of predicates, each evaluated against every observation.  The registry is a
    [HashMap]: the order in which it is walked is a parameter, [HashOrder], and what
    callers learn from the results does not depend on it. *)

From stdpp Require Import gmap.
From S2P Require Import Prelude Words Utf8 Float32 KernelTypes.
Local Open Scope Z_scope.

(** The walk of a [HashMap]: its entries in some order. *)
Class HashOrder := hash_order : ∀ {V : Type}, gmap Z V → list (Z * V).
Class LawfulHashOrder `{!HashOrder} := {
  hash_order_perm {V} (m : gmap Z V) : hash_order m ≡ₚ map_to_list m }.

#[export] Instance map_order : HashOrder := λ V m, map_to_list m.
#[export] Instance map_order_lawful : LawfulHashOrder.
Proof. by split. Qed.

Record RegisteredPredicate : Set := mkRegistered { rp_handle : PredicateHandle; rp_predicate : Predicate }.
Definition rp_timeout_ms (r : RegisteredPredicate) : Z := timeout_ms (rp_predicate r).
Definition rp_kind_label (r : RegisteredPredicate) : string := Predicate_kind_label (rp_predicate r).

Inductive PredicateOutcome : Set := NoMatch | Matched.
#[export] Instance PredicateOutcome_eq_dec : EqDecision PredicateOutcome.
Proof. solve_decision. Defined.

Record PredicateEngine : Set := mkPredicateEngine
  { predicates : gmap Z RegisteredPredicate; next_handle : Z; registered_count : Z }.

Definition PredicateEngine_new : PredicateEngine := mkPredicateEngine ∅ 0 0.

Definition U32_MAX : Z := 2 ^ 32 - 1.

Definition register (p : Predicate) (e : PredicateEngine) : PredicateHandle * PredicateEngine :=
  let handle := next_handle e in
  (handle, mkPredicateEngine (<[handle := mkRegistered handle p]> (predicates e))
             (wrap 64 (handle + 1)) (Z.min U32_MAX (registered_count e + 1))).

Definition cancel (h : PredicateHandle) (e : PredicateEngine) : bool * PredicateEngine :=
  let removed := is_some (predicates e !! h) in
  (removed, mkPredicateEngine (delete h (predicates e)) (next_handle e)
              (if removed then Z.max 0 (registered_count e - 1) else registered_count e)).

Definition engine_get (h : PredicateHandle) (e : PredicateEngine) : option RegisteredPredicate :=
  predicates e !! h.
Definition engine_len (e : PredicateEngine) : nat := size (predicates e).
Definition engine_is_empty (e : PredicateEngine) : bool := bool_decide (predicates e = ∅).
Definition clear (e : PredicateEngine) : PredicateEngine := mkPredicateEngine ∅ (next_handle e) 0.

(** ** Evaluation *)

(** [str::contains] *)
Fixpoint contains (s pat : bytes) : bool :=
  bool_decide (pat `prefix_of` s) ||
  match s with
  | [] => false
  | _ :: s => contains s pat
  end.

Definition observation_contains_text (obs : Observation) (text : str) : bool :=
  match a11y obs with None => false | Some t => contains (json t) text end.

Definition observation_activity_matches (obs : Observation) (component : str) : bool :=
  match a11y obs ≫= top_activity with
  | None => false
  | Some top => bool_decide (top = component)
  end.

(** [0.05_f32] *)
Definition STABLE_SCORE : f32 := SpecFloat.S754_finite false 13421773 (-28).

Definition observation_has_scene_stable_event (obs : Observation) (duration_ms timeout : Z) : bool :=
  if timeout <? duration_ms then false
  else existsb (λ ev, match ev with
                      | De_SceneChangeDetected score => flt score STABLE_SCORE
                      | _ => false
                      end) (events obs).

Definition observation_has_a11y_idle_event (obs : Observation) (duration_ms timeout : Z) : bool :=
  if timeout <? duration_ms then false
  else existsb (λ ev, match ev with De_ConfigurationChanged => true | _ => false end) (events obs)
       || match a11y obs with Some t => 0 <? node_count t | None => false end.

Definition observation_selector_matches (obs : Observation) (selector : str) : bool :=
  match a11y obs with None => false | Some t => contains (json t) selector end.

Definition observation_contains_event_kind (obs : Observation) (kind : EventKind) : bool :=
  existsb (λ ev, bool_decide (from_event ev = Some kind)) (events obs).

Definition evaluate (obs : Observation) (p : Predicate) : PredicateOutcome :=
  match p with
  | TextAppears text _ _ => if observation_contains_text obs text then Matched else NoMatch
  | Activity component _ => if observation_activity_matches obs component then Matched else NoMatch
  | SceneStable duration timeout =>
      if observation_has_scene_stable_event obs duration timeout then Matched else NoMatch
  | A11yIdle duration timeout =>
      if observation_has_a11y_idle_event obs duration timeout then Matched else NoMatch
  | SelectorMatches selector _ => if observation_selector_matches obs selector then Matched else NoMatch
  | EventFires kind _ => if observation_contains_event_kind obs kind then Matched else NoMatch
  end.

Section Walk.
Context `{!HashOrder}.

Definition on_observation (obs : Observation) (e : PredicateEngine) :
    list (PredicateHandle * PredicateOutcome) :=
  (λ p, (p.1, evaluate obs (rp_predicate p.2))) <$> hash_order (predicates e).

Definition on_event_kind (kind : EventKind) (e : PredicateEngine) :
    list (PredicateHandle * PredicateOutcome) :=
  (λ p, (p.1, match rp_predicate p.2 with
              | EventFires want _ => if decide (want = kind) then Matched else NoMatch
              | _ => NoMatch
              end)) <$> hash_order (predicates e).

(** [results.iter().any(|(h, o)| *h == handle && matches!(o, Matched))] *)
Definition any_matched (handle : PredicateHandle) (results : list (PredicateHandle * PredicateOutcome)) :
    bool :=
  existsb (λ r, (r.1 =? handle) && bool_decide (r.2 = Matched)) results.
End Walk.

(** ** The meaning of a predicate *)

(** [pat] occurs in [s]. *)
Definition occurs (pat s : bytes) : Prop := ∃ l r, s = l ++ pat ++ r.

Lemma contains_spec s pat : contains s pat = true ↔ occurs pat s.
Proof.
  induction s as [|b s IH]; cbn; rewrite orb_true_iff, bool_decide_eq_true.
  - split.
    + intros [[r Hr]|?]; [|done]. by exists [], r.
    + intros (l & r & H). left. exists r. symmetry in H. apply app_nil in H as [-> H].
      by rewrite H.
  - rewrite IH. split.
    + intros [[r ->]|(l & r & ->)]; [by exists [], r|by exists (b :: l), r].
    + intros ([|x l] & r & H); [left; by exists r|right]. injection H as -> ->. by exists l, r.
Qed.

(** What each predicate asks of one observation. *)
Definition holds (obs : Observation) (p : Predicate) : Prop :=
  match p with
  | TextAppears text _ _ => ∃ t, a11y obs = Some t ∧ occurs text (json t)
  | Activity component _ => ∃ t, a11y obs = Some t ∧ top_activity t = Some component
  | SceneStable duration timeout =>
      duration ≤ timeout ∧ ∃ score, De_SceneChangeDetected score ∈ events obs ∧ flt score STABLE_SCORE = true
  | A11yIdle duration timeout =>
      duration ≤ timeout ∧
      (De_ConfigurationChanged ∈ events obs ∨ ∃ t, a11y obs = Some t ∧ 0 < node_count t)
  | SelectorMatches selector _ => ∃ t, a11y obs = Some t ∧ occurs selector (json t)
  | EventFires kind _ => ∃ ev, ev ∈ events obs ∧ from_event ev = Some kind
  end.

Lemma matched_if (b : bool) (P : Prop) :
  (b = true ↔ P) → (if b then Matched else NoMatch) = Matched ↔ P.
Proof. intros <-. by destruct b. Qed.

Lemma evaluate_holds obs p : evaluate obs p = Matched ↔ holds obs p.
Proof.
  destruct p as [text n t|component t|d t|d t|sel t|kind t]; cbn; apply matched_if.
  - unfold observation_contains_text. destruct (a11y obs) as [tree|]; cbn.
    + rewrite contains_spec. split; [by intros; exists tree|by intros (? & [= <-] & ?)].
    + split; [done|by intros (? & ? & _)].
  - unfold observation_activity_matches. destruct (a11y obs) as [tree|]; cbn.
    + destruct (top_activity tree) as [top|] eqn:Et.
      * rewrite bool_decide_eq_true. split; [intros ->; by exists tree|].
        intros (? & [= <-] & E). congruence.
      * split; [done|]. intros (? & [= <-] & E). congruence.
    + split; [done|by intros (? & ? & _)].
  - unfold observation_has_scene_stable_event. destruct (Z.ltb_spec t d).
    + split; [done|lia].
    + rewrite existsb_exists. split.
      * intros (ev & Hin & Hev). split; [done|]. destruct ev; try done. eexists.
        split; [by apply list_elem_of_In|done].
      * intros (_ & score & Hin & Hs). eexists. split; [by apply list_elem_of_In|done].
  - unfold observation_has_a11y_idle_event. destruct (Z.ltb_spec t d).
    + split; [done|lia].
    + rewrite orb_true_iff, existsb_exists. split.
      * intros [(ev & Hin & Hev)|Hn]; (split; [done|]).
        -- left. destruct ev; try done. by apply list_elem_of_In.
        -- right. destruct (a11y obs) as [tree|]; [|done]. exists tree. split; [done|].
           by apply Z.ltb_lt.
      * intros (_ & [Hin|(tree & -> & Hn)]).
        -- left. eexists. split; [by apply list_elem_of_In|done].
        -- right. by apply Z.ltb_lt.
  - unfold observation_selector_matches. destruct (a11y obs) as [tree|]; cbn.
    + rewrite contains_spec. split; [by intros; exists tree|by intros (? & [= <-] & ?)].
    + split; [done|by intros (? & ? & _)].
  - unfold observation_contains_event_kind. rewrite existsb_exists. split.
    + intros (ev & Hin & Hev%bool_decide_eq_true). exists ev. by rewrite list_elem_of_In.
    + intros (ev & Hin & Hev). exists ev. rewrite <-list_elem_of_In.
      by rewrite bool_decide_eq_true.
Qed.

(** ** The registry *)

(** Handles are spelled right, the counter counts, and new handles are new. *)
Record engine_wf (e : PredicateEngine) : Prop := {
  wf_next : 0 ≤ next_handle e;
  wf_handle h r : predicates e !! h = Some r → rp_handle r = h ∧ 0 ≤ h < next_handle e;
  wf_count : registered_count e = Z.of_nat (size (predicates e)) }.

(** The registry holds few enough predicates, and few enough were ever registered, for no
    counter to saturate or wrap in [n] more calls. *)
Definition room (n : nat) (e : PredicateEngine) : Prop :=
  next_handle e + Z.of_nat n < 2 ^ 64 ∧ Z.of_nat (size (predicates e) + n) ≤ U32_MAX.

Lemma engine_wf_new : engine_wf PredicateEngine_new.
Proof. split; cbn; [done|intros h r H; by rewrite lookup_empty in H|done]. Qed.

Lemma register_fresh e : engine_wf e → predicates e !! next_handle e = None.
Proof.
  intros He. destruct (predicates e !! next_handle e) as [r|] eqn:E; [|done].
  apply (wf_handle e He) in E. lia.
Qed.

Lemma register_wf p e :
  engine_wf e → room 1 e → engine_wf (register p e).2.
Proof.
  intros He [Hn Hs]. pose proof (register_fresh e He) as Hfresh. pose proof (wf_next e He).
  destruct He as [H0 Hh Hc]. unfold register. cbn [snd].
  split; cbn [next_handle predicates registered_count].
  - rewrite wrap_small by (widths; lia). lia.
  - intros h r. rewrite wrap_small by (widths; lia).
    intros [[<- <-]|[Hne Hr]]%lookup_insert_Some; cbn; [lia|]. apply Hh in Hr. lia.
  - rewrite map_size_insert_None by done. lia.
Qed.

Lemma cancel_wf h e : engine_wf e → engine_wf (cancel h e).2.
Proof.
  intros [H0 Hh Hc]. unfold cancel. cbn [snd]. split; cbn [next_handle predicates registered_count].
  - done.
  - intros h' r [_ Hr]%lookup_delete_Some. by apply Hh.
  - rewrite map_size_delete. destruct (predicates e !! h) as [r|] eqn:E; cbn [is_some]; [|done].
    assert (size (predicates e) ≠ 0%nat) by (rewrite map_size_ne_0_lookup; eauto). lia.
Qed.

(** A predicate registered and cancelled leaves only the handle used. *)
Lemma register_cancel p e :
  engine_wf e → room 1 e →
  predicates (cancel (next_handle e) (register p e).2).2 = predicates e ∧
  registered_count (cancel (next_handle e) (register p e).2).2 = registered_count e ∧
  next_handle (cancel (next_handle e) (register p e).2).2 = next_handle e + 1.
Proof.
  intros He [Hn Hs]. pose proof (register_fresh e He) as Hfresh. pose proof (wf_next e He).
  pose proof (wf_count e He). cbn. rewrite lookup_insert_eq. cbn. split_and!.
  - by apply delete_insert_id.
  - unfold U32_MAX in *. lia.
  - rewrite wrap_small by (widths; lia). done.
Qed.

Section WalkFacts.
Context `{!HashOrder, !LawfulHashOrder}.

(** Each registered predicate has its verdict in the results, once. *)
Lemma on_observation_in obs e h o :
  (h, o) ∈ on_observation obs e ↔ ∃ r, predicates e !! h = Some r ∧ o = evaluate obs (rp_predicate r).
Proof.
  unfold on_observation. rewrite list_elem_of_fmap. split.
  - intros ([h' r] & [= -> ->] & Hin). exists r.
    rewrite hash_order_perm, elem_of_map_to_list in Hin. done.
  - intros (r & Hr & ->). exists (h, r). split; [done|].
    by rewrite hash_order_perm, elem_of_map_to_list.
Qed.

Lemma on_observation_once obs e : NoDup (on_observation obs e).*1.
Proof.
  unfold on_observation. rewrite <-list_fmap_compose.
  rewrite (list_fmap_ext _ fst) by done. rewrite hash_order_perm. apply NoDup_fst_map_to_list.
Qed.

(** The caller's question about one handle. *)
Lemma any_matched_spec obs e h :
  any_matched h (on_observation obs e) = true ↔
  ∃ r, predicates e !! h = Some r ∧ holds obs (rp_predicate r).
Proof.
  unfold any_matched. rewrite existsb_exists. split.
  - intros ([h' o] & Hin & Hb). cbn in Hb.
    apply andb_true_iff in Hb as [->%Z.eqb_eq ->%bool_decide_eq_true].
    apply list_elem_of_In, on_observation_in in Hin as (r & Hr & Ho). exists r.
    by rewrite <-evaluate_holds.
  - intros (r & Hr & Hh%evaluate_holds). exists (h, evaluate obs (rp_predicate r)). split.
    + apply list_elem_of_In, on_observation_in. by exists r.
    + cbn. by rewrite Z.eqb_refl, bool_decide_true.
Qed.

Lemma any_matched_register obs p e :
  any_matched (next_handle e) (on_observation obs (register p e).2) = bool_decide (evaluate obs p = Matched).
Proof.
  apply eq_bool_prop_intro. rewrite !Is_true_true, any_matched_spec, bool_decide_eq_true, evaluate_holds.
  cbn. rewrite lookup_insert_eq. split; [by intros (r & [= <-] & Hr)|]. intros Hr. by eexists.
Qed.

(** [on_event_kind] asks what [on_observation] would of an observation with one event. *)
Lemma on_event_kind_in kind e h o :
  (h, o) ∈ on_event_kind kind e ↔
  ∃ r, predicates e !! h = Some r ∧
    (o = Matched ↔ ∃ t, rp_predicate r = EventFires kind t).
Proof.
  unfold on_event_kind. rewrite list_elem_of_fmap. split.
  - intros ([h' r] & [= -> ->] & Hin). exists r.
    rewrite hash_order_perm, elem_of_map_to_list in Hin. split; [done|]. cbn.
    destruct (rp_predicate r); try (split; [done|by intros [? ?]]).
    case_decide; split; try done; [intros _; subst; by eexists|intros [? ?]; by simplify_eq].
  - intros (r & Hr & Ho). exists (h, r). rewrite hash_order_perm, elem_of_map_to_list. split; [|done].
    cbn. f_equal. destruct (rp_predicate r) as [| | | | |want t] eqn:E;
      try (destruct o; [done|]; destruct (proj1 Ho eq_refl) as [? ?]; done).
    case_decide; subst; [by apply Ho; eexists|]. destruct o; [done|].
    destruct (proj1 Ho eq_refl) as [? ?]. by simplify_eq.
Qed.
End WalkFacts.
