(* ===== verification/PredicateWait.v ===== *)
(** * Waiting for a predicate ([ai-device-kernel/src/predicate_wait.rs])

    [wait_for] registers a predicate, passes observations from the host through the stream
    and the predicate engine, and returns at the first match, at the end of the
    observations, or when the deadline is past.  The host is arbitrary: its state, its
    closure [produce_one] and its clock (nanoseconds) are parameters.  A loop that has not
    ended after [fuel] turns gives [OutOfTurns]. *)

From stdpp Require Import gmap.
From S2P Require Import Prelude Words Utf8 Float32 KernelTypes Bounded StreamEngine PredicateEngine.
Local Open Scope Z_scope.

(** The two engines and the host. *)
Record World (H : Type) : Type := mkWorld
  { engine : PredicateEngine; stream : StreamEngine; host : H }.
Arguments mkWorld {H}.
Arguments engine {H}.
Arguments stream {H}.
Arguments host {H}.

Inductive Running : Set := OutOfTurns.

Inductive WaitOutcome : Set :=
  | Wo_Matched (elapsed : Z) | Wo_Timeout (elapsed : Z) | Wo_StreamClosed (elapsed : Z).

(** An [Instant] counts its seconds in 63 bits. *)
Definition INSTANT_LIMIT : Z := 2 ^ 63 * 10 ^ 9.

Section Wait.
Context {H : Type} `{!HashOrder}.
Context (produce_one : H → option Observation * H) (now : H → Z * H).
Implicit Type w : World H.

Definition set_host (h : H) w : World H := mkWorld (engine w) (stream w) h.

Definition register_world {E} (p : Predicate) : cmd (World H) E PredicateHandle := λ w,
  let '(handle, e) := register p (engine w) in (Ok handle, mkWorld e (stream w) (host w)).
Definition cancel_world {E} (handle : PredicateHandle) : cmd (World H) E bool := λ w,
  let '(removed, e) := cancel handle (engine w) in (Ok removed, mkWorld e (stream w) (host w)).
Definition on_host {E A} (f : H → A * H) : cmd (World H) E A := λ w,
  let '(a, h) := f (host w) in (Ok a, set_host h w).

(** [drain_observation()], and [stream.produce(|_| obs.clone())] on what it gave. *)
Definition take_observation {E} : cmd (World H) E (option Observation) := λ w,
  match produce_one (host w) with
  | (None, h) => (Ok None, set_host h w)
  | (Some obs, h) => (Ok (Some obs), mkWorld (engine w) (produce (λ _, obs) (stream w)).2 h)
  end.

(** One observation through both engines: does it match? *)
Definition turn {E} (handle : PredicateHandle) : cmd (World H) E (option bool) :=
  o ← take_observation;
  match o with
  | None => mret None
  | Some obs => read (λ w, Some (any_matched handle (on_observation obs (engine w))))
  end.

Definition since {E} (start : Z) : cmd (World H) E Z :=
  t ← on_host now; mret (Z.max 0 (t - start)).

Fixpoint wait_loop (fuel : nat) (handle : PredicateHandle) (start deadline : Z) :
    cmd (World H) Running WaitOutcome :=
  match fuel with
  | O => raise OutOfTurns
  | S fuel =>
      r ← turn handle;
      match r with
      | None => _ ← cancel_world handle; e ← since start; mret (Wo_StreamClosed e)
      | Some true => _ ← cancel_world handle; e ← since start; mret (Wo_Matched e)
      | Some false =>
          t ← on_host now;
          if deadline <=? t then _ ← cancel_world handle; e ← since start; mret (Wo_Timeout e)
          else wait_loop fuel handle start deadline
      end
  end.

Definition wait_for (fuel : nat) (p : Predicate) (timeout : Z) : cmd (World H) Running WaitOutcome :=
  start ← on_host now;
  handle ← register_world p;
  if INSTANT_LIMIT <=? start + timeout then unwind
  else wait_loop fuel handle start (start + timeout).

(** ** What a wait does *)

(** The observations of unsuccessful turns: none matches, and the clock was read before
    the deadline behind each. *)
Inductive waited (p : Predicate) (deadline : Z) : H → list Observation → H → Prop :=
  | waited_nil h : waited p deadline h [] h
  | waited_cons h obs h1 t h2 l h3 :
      produce_one h = (Some obs, h1) → ¬ holds obs p → now h1 = (t, h2) → t < deadline →
      waited p deadline h2 l h3 → waited p deadline h (obs :: l) h3.

Definition produce_all (l : list Observation) (s : StreamEngine) : StreamEngine :=
  foldl (λ s obs, (produce (λ _, obs) s).2) s l.

(** How a wait that ended did: behind the turns [l], at [last]. *)
Definition wait_ends (p : Predicate) (start deadline : Z) (h : H) (o : WaitOutcome)
    (seen : list Observation) : Prop :=
  ∃ l h1 t, waited p deadline h l h1 ∧
  match o with
  | Wo_StreamClosed e => seen = l ∧ e = Z.max 0 (t - start) ∧ (produce_one h1).1 = None ∧
                         (now (produce_one h1).2).1 = t
  | Wo_Matched e => ∃ obs h2, produce_one h1 = (Some obs, h2) ∧ holds obs p ∧ seen = l ++ [obs] ∧
                    e = Z.max 0 (t - start) ∧ (now h2).1 = t
  | Wo_Timeout e => ∃ obs h2 t' h3, produce_one h1 = (Some obs, h2) ∧ ¬ holds obs p ∧
                    now h2 = (t', h3) ∧ deadline ≤ t' ∧ seen = l ++ [obs] ∧
                    e = Z.max 0 (t - start) ∧ (now h3).1 = t
  end.

Context `{!LawfulHashOrder}.

(** The engine of a waiting host: the predicate is registered under [handle]. *)
Definition waiting_for (handle : PredicateHandle) (p : Predicate) w : Prop :=
  predicates (engine w) !! handle = Some (mkRegistered handle p).

Lemma turn_run {E} handle p w :
  waiting_for handle p w →
  turn (E := E) handle w =
  match produce_one (host w) with
  | (None, h) => (Ok None, set_host h w)
  | (Some obs, h) =>
      (Ok (Some (bool_decide (evaluate obs p = Matched))),
       mkWorld (engine w) (produce (λ _, obs) (stream w)).2 h)
  end.
Proof.
  intros Hw. unfold turn, take_observation, mbind, cmd_bind.
  destruct (produce_one (host w)) as [[obs|] h]; [|done]. cbn. do 3 f_equal.
  apply eq_bool_prop_intro.
  rewrite !Is_true_true, any_matched_spec, bool_decide_eq_true, evaluate_holds. split.
  - intros (r & Hr & Hh). unfold waiting_for in Hw. rewrite Hw in Hr. by simplify_eq.
  - intros Hh. exists (mkRegistered handle p). done.
Qed.

(** Every branch of the loop. *)
Lemma wait_loop_run fuel handle p start deadline w :
  waiting_for handle p w →
  match wait_loop fuel handle start deadline w with
  | (Ok o, w') =>
      ∃ seen, wait_ends p start deadline (host w) o seen ∧ engine w' = (cancel handle (engine w)).2 ∧
              stream w' = produce_all seen (stream w)
  | (Err OutOfTurns, w') =>
      ∃ l, length l = fuel ∧ waited p deadline (host w) l (host w') ∧ engine w' = engine w ∧
           stream w' = produce_all l (stream w)
  | (Panicked, _) => False
  end.
Proof.
  revert w. induction fuel as [|fuel IH]; intros w Hw.
  { exists []. by split_and!; [|constructor|..]. }
  cbn [wait_loop]. unfold mbind at 1, cmd_bind at 1. rewrite (turn_run _ p) by done.
  destruct (produce_one (host w)) as [[obs|] h1] eqn:Ep.
  2:{ unfold cancel_world, since, on_host, mbind, cmd_bind, mret, cmd_ret. cbn.
      destruct (now h1) as [t h2] eqn:En. cbn. exists []. split_and!; [|done..].
      exists [], (host w), t. split; [constructor|]. rewrite Ep. cbn. by rewrite En. }
  case_bool_decide as Hm.
  - unfold cancel_world, since, on_host, mbind, cmd_bind, mret, cmd_ret. cbn.
    destruct (now h1) as [t h2] eqn:En. cbn. exists [obs]. split_and!; [|done..].
    exists [], (host w), t. split; [constructor|]. exists obs, h1.
    rewrite En. split_and!; [done|by apply evaluate_holds|done..].
  - unfold mbind at 1, cmd_bind at 1, on_host at 1. cbn [host engine stream].
    destruct (now h1) as [t h2] eqn:En. rewrite evaluate_holds in Hm.
    destruct (Z.leb_spec deadline t) as [Hd|Hd].
    + unfold cancel_world, since, on_host, mbind, cmd_bind, mret, cmd_ret. cbn.
      destruct (now h2) as [t' h3] eqn:En'. cbn. exists [obs]. split_and!; [|done..].
      exists [], (host w), t'. split; [constructor|]. exists obs, h1, t, h2.
      rewrite En'. by split_and!.
    + specialize (IH (set_host h2 (mkWorld (engine w) (produce (λ _, obs) (stream w)).2 h1)) Hw).
      cbn [host engine stream set_host] in IH.
      destruct (wait_loop fuel handle start deadline _) as [[o|[]|] w']; [| |done].
      * destruct IH as (seen & (l & h' & t' & Hl & Ho) & He & Hs).
        exists (obs :: seen). split_and!; [|done..].
        exists (obs :: l), h', t'. split; [by econstructor|].
        destruct o as [e|e|e].
        -- destruct Ho as (obs' & h3 & ? & ? & -> & ? & ?). exists obs', h3. by split_and!.
        -- destruct Ho as (obs' & h3 & t3 & h4 & ? & ? & ? & ? & -> & ? & ?).
           exists obs', h3, t3, h4. by split_and!.
        -- destruct Ho as (-> & ? & ? & ?). by split_and!.
      * destruct IH as (l & Hl & Hwait & He & Hs). exists (obs :: l).
        split_and!; [cbn; by rewrite Hl|by econstructor|done..].
Qed.

(** C19: a wait.  Over any host, a wait ends with the first observation that satisfies the
    predicate, at the end of the observations, or behind an unsatisfying observation once
    the clock has reached the deadline; every observation up to there went into the stream,
    in order; the predicate is registered no longer, and the rest of the registry is as
    before.  Turns are only used up while none of this happens.  It unwinds exactly when
    the deadline is no instant. *)
Theorem wait_for_ends (fuel : nat) (p : Predicate) (timeout : Z) (w : World H)
    (Hw : engine_wf (engine w)) (Hroom : room 1 (engine w)) :
  let start := (now (host w)).1 in
  let h := (now (host w)).2 in
  match wait_for fuel p timeout w with
  | (Ok o, w') =>
      start + timeout < INSTANT_LIMIT ∧
      ∃ seen, wait_ends p start (start + timeout) h o seen ∧
        predicates (engine w') = predicates (engine w) ∧ engine_wf (engine w') ∧
        stream w' = produce_all seen (stream w)
  | (Err OutOfTurns, w') =>
      ∃ l, length l = fuel ∧ waited p (start + timeout) h l (host w')
  | (Panicked, _) => INSTANT_LIMIT ≤ start + timeout
  end.
Proof.
  intros start h. unfold wait_for, mbind, cmd_bind, on_host at 1, register_world.
  unfold start, h. destruct (now (host w)) as [t h1]. cbn [fst snd].
  pose proof (register_cancel p (engine w) Hw Hroom) as (Hp & _ & _).
  pose proof (register_wf p (engine w) Hw Hroom) as Hwf.
  destruct (register p (engine w)) as [handle e1] eqn:Er. cbn [engine stream host set_host fst snd] in *.
  rewrite Er. cbn [fst snd].
  assert (handle = next_handle (engine w)) as Hh by (unfold register in Er; congruence). 
  destruct (Z.leb_spec INSTANT_LIMIT (t + timeout)) as [Hl|Hl]; [done|].
  pose proof (wait_loop_run fuel handle p t (t + timeout) (mkWorld e1 (stream w) h1)) as Hrun.
  cbn [host engine stream] in Hrun.
  assert (waiting_for handle p (mkWorld e1 (stream w) h1)) as Hwait.
  { unfold waiting_for. cbn [engine]. unfold register in Er. injection Er as <- <-. cbn.
    by rewrite lookup_insert_eq. }
  specialize (Hrun Hwait).
  destruct (wait_loop _ _ _ _ _) as [[o|[]|] w']; [| |done].
  - split; [done|]. destruct Hrun as (seen & Ho & He & Hs). exists seen. split_and!; [done|..].
    + rewrite He, Hh. exact Hp.
    + rewrite He. by apply cancel_wf.
    + done.
  - destruct Hrun as (l & ? & ? & _). by exists l.
Qed.
End Wait.

(** A host with a list of observations and a clock that ticks at every reading. *)
Definition scripted : Type := list Observation * Z.
Definition next_scripted (h : scripted) : option Observation * scripted :=
  match h.1 with [] => (None, h) | obs :: l => (Some obs, (l, h.2)) end.
Definition tick (h : scripted) : Z * scripted := (h.2, (h.1, h.2 + 1)).

Definition event_observation (n : Z) (ev : DeviceEvent) : Observation :=
  mkObservation n 0 None None (DeviceState_unknown 0) [ev] None.

Lemma room_new n : (n < 1000)%nat → room n PredicateEngine_new.
Proof.
  intros H. unfold room, U32_MAX, PredicateEngine_new. cbn [next_handle predicates].
  rewrite map_size_empty. split; lia.
Qed.

Lemma wait_for_ends_witness :
  let p := EventFires K_ClipboardChanged 0 in
  let obs := [event_observation 0 (De_Uptime 0); event_observation 1 De_ClipboardChanged] in
  ∃ w' seen,
    wait_for next_scripted tick 5 p 100 (mkWorld PredicateEngine_new StreamEngine_new (obs, 7))
    = (Ok (Wo_Matched 2), w') ∧
    wait_ends next_scripted tick p 7 107 (obs, 8) (Wo_Matched 2) seen ∧
    predicates (engine w') = ∅.
Proof.
  intros p obs.
  pose proof (wait_for_ends next_scripted tick 5 p 100
    (mkWorld PredicateEngine_new StreamEngine_new (obs, 7)) engine_wf_new (room_new 1 ltac:(lia))) as H.
  assert ((wait_for next_scripted tick 5 p 100
             (mkWorld PredicateEngine_new StreamEngine_new (obs, 7))).1 = Ok (Wo_Matched 2)) as E
    by (vm_compute; reflexivity).
  destruct (wait_for _ _ _ _ _ _) as [o w']. cbn [fst] in E. subst o.
  destruct H as (_ & seen & Ho & He & _ & _). by exists w', seen.
Defined.
