(* ===== verification/PlanExecutor.v ===== *)
(** * The plan executor ([ai-device-kernel/src/plan_executor.rs])

    [execute] runs the steps of a plan: it waits for a step's precondition, has the host
    perform the action, takes one observation, checks the postcondition on it, and records
    the step.  The host's closures [execute_step] and [drain_observation] are parameters
    and share its state.  [fuel] bounds each wait for a precondition, which has no end of
    its own: the host is to end its observations. *)

From stdpp Require Import gmap.
From S2P Require Import Prelude Words Utf8 Float32 KernelTypes Bounded StreamEngine PredicateEngine PredicateWait.
Local Open Scope Z_scope.

Inductive PlanFailure : Set :=
  | WaitBeforeTimeout (step_index : Z) (id : StepId) (label : option string)
  | VerifyAfterMismatch (step_index : Z) (id : StepId) (label : option string)
  | ActionRefused (step_index : Z) (id : StepId) (reason : string)
  | Cancelled (step_index : Z) (id : StepId).

Definition PlanFailure_kind_label (f : PlanFailure) : string :=
  match f with
  | WaitBeforeTimeout _ _ _ => "wait-before-timeout"
  | VerifyAfterMismatch _ _ _ => "verify-after-mismatch"
  | ActionRefused _ _ _ => "action-refused"
  | Cancelled _ _ => "cancelled"
  end.

Record ExecutorCounters : Set := mkCounters { landed : Z; aborted : Z; skipped : Z; checkpoints : Z }.
Definition counters_default : ExecutorCounters := mkCounters 0 0 0 0.

(** The counters are [u32]s that wrap. *)
Definition add_landed (c : ExecutorCounters) : ExecutorCounters :=
  mkCounters (wrap 32 (landed c + 1)) (aborted c) (skipped c) (checkpoints c).
Definition add_aborted (c : ExecutorCounters) : ExecutorCounters :=
  mkCounters (landed c) (wrap 32 (aborted c + 1)) (skipped c) (checkpoints c).
Definition add_checkpoint (c : ExecutorCounters) : ExecutorCounters :=
  mkCounters (landed c) (aborted c) (skipped c) (wrap 32 (checkpoints c + 1)).

Inductive WaitStatus : Set := Ws_Matched | Ws_Closed.

(** How [execute] ends without a result: with a failure and the steps recorded so far, or
    not within the turns. *)
Inductive Stopped : Set :=
  | Failed (f : PlanFailure) (partial : list StepResult)
  | Waiting.

(** The local variables of [execute]. *)
Record Progress : Set := mkProgress
  { steps_out : list StepResult; counters : ExecutorCounters; final_obs : Observation }.

Section Execute.
Context {H : Type} `{!HashOrder}.
Context (execute_step : Action → H → (ActionResult + string) * H).
Context (drain_observation : H → option Observation * H).

Abbreviation take_obs := (take_observation drain_observation) (only parsing).
Abbreviation run := (cmd (World H) Stopped) (only parsing).

Fixpoint drain_until (fuel : nat) (handle : PredicateHandle) : run WaitStatus :=
  match fuel with
  | O => raise Waiting
  | S fuel =>
      r ← turn drain_observation handle;
      match r with
      | None => _ ← cancel_world handle; mret Ws_Closed
      | Some true => _ ← cancel_world handle; mret Ws_Matched
      | Some false => drain_until fuel handle
      end
  end.

Definition wait_for_predicate (fuel : nat) (p : Predicate) : run WaitStatus :=
  handle ← register_world p; drain_until fuel handle.

(** 1. [wait_before] *)
Definition await (fuel : nat) (index : Z) (step : PlanStep) (s : Progress) : run unit :=
  match wait_before step with
  | None => mret tt
  | Some p =>
      status ← wait_for_predicate fuel p;
      match status with
      | Ws_Matched => mret tt
      | Ws_Closed => raise (Failed (WaitBeforeTimeout index (step_id step) (label step)) (steps_out s))
      end
  end.

(** 2. the refusal of the action, when the plan goes on *)
Definition refusal (index : Z) (step : PlanStep) (reason : string) (s : Progress) : Progress :=
  mkProgress
    (steps_out s ++
     [mkStepResult (step_id step) index
        (mkActionResult 0 false GroundTruth_default 0 None false) false (Some reason)])
    (add_aborted (counters s)) (final_obs s).

(** 3. one observation, if there is one *)
Definition observe (s : Progress) : run Progress :=
  o ← take_obs;
  match o with
  | None => mret s
  | Some obs => mret (mkProgress (steps_out s) (counters s) obs)
  end.

(** 4. [verify_after] *)
Definition verify (index : Z) (step : PlanStep) (s : Progress) : run unit :=
  match verify_after step with
  | None => mret tt
  | Some p =>
      handle ← register_world p;
      matched ← read (λ w, any_matched handle (on_observation (final_obs s) (engine w)));
      _ ← cancel_world handle;
      if (matched : bool) then mret tt
      else raise (Failed (VerifyAfterMismatch index (step_id step) (label step)) (steps_out s))
  end.

(** 5. the record of the step *)
Definition record_step (index : Z) (step : PlanStep) (r : ActionResult) (s : Progress) : Progress :=
  mkProgress (steps_out s ++ [mkStepResult (step_id step) index r (ar_landed r) None])
    (if ar_landed r then add_landed (counters s) else add_aborted (counters s)) (final_obs s).

(** 6. the checkpoint *)
Definition produce_world {E} (f : Z → Observation) : cmd (World H) E unit := λ w,
  (Ok tt, mkWorld (engine w) (produce f (stream w)).2 (host w)).

Definition with_events (obs : Observation) (evs : list DeviceEvent) : Observation :=
  mkObservation (seq obs) (timestamp_ms obs) (a11y obs) (frame obs) (state obs) evs (foreground_app obs).

Definition checkpoint (every : Z) (plan_id : PlanId) (s : Progress) : run Progress :=
  if (0 <? every) && (landed (counters s) mod every =? 0) then
    _ ← produce_world (λ _, with_events (final_obs s)
                              (events (final_obs s) ++ [De_PlanCompleted plan_id false 0]));
    mret (mkProgress (steps_out s) (add_checkpoint (counters s)) (final_obs s))
  else mret s.

(** The body of the loop over the steps. *)
Definition run_step (fuel : nat) (plan : Plan) (plan_id : PlanId) (index : Z) (step : PlanStep)
    (s : Progress) : run Progress :=
  _ ← await fuel index step s;
  r ← on_host (execute_step (action step));
  match r with
  | inr reason =>
      if abort_on_error plan
      then raise (Failed (ActionRefused index (step_id step) reason) (steps_out s))
      else mret (refusal index step reason s)
  | inl result =>
      s ← observe s;
      _ ← verify index step s;
      s ← checkpoint (checkpoint_every plan) plan_id (record_step index step result s);
      if negb (ar_landed result) && abort_on_error plan
      then raise (Failed (Cancelled index (step_id step)) (steps_out s))
      else mret s
  end.

Fixpoint run_steps (fuel : nat) (plan : Plan) (plan_id : PlanId) (index : nat) (ss : list PlanStep)
    (s : Progress) : run Progress :=
  match ss with
  | [] => mret s
  | step :: ss =>
      s ← run_step fuel plan plan_id (wrap 32 (Z.of_nat index)) step s;
      run_steps fuel plan plan_id (S index) ss s
  end.

Definition execute (fuel : nat) (plan : Plan) (plan_id : PlanId) :
    run (PlanResult * ExecutorCounters) :=
  s ← run_steps fuel plan plan_id 0 (steps plan)
        (mkProgress [] counters_default Observation_default);
  s ← observe s;
  mret (mkPlanResult plan_id (steps_out s) (final_obs s)
          (Z.min U32_MAX (landed (counters s) * 1))
          (forallb sr_landed (steps_out s)),
        counters s).
End Execute.

