(* ===== verification/PlanRefinement.v ===== *)
(** * What the plan executor does, as its host sees it

    The trace of a plan - the observations the host delivered, or did not, the actions it was
    asked to perform, and the checkpoints - and the theorems that [PlanExecutor.execute] performs the steps of the
    plan in order, each with its wait before and its check after, and that it returns when
    the host's observations end. *)

From stdpp Require Import gmap.
From S2P Require Import Prelude Words Utf8 Float32 KernelTypes Bounded StreamEngine PredicateEngine PredicateWait PlanExecutor.
Local Open Scope Z_scope.

(** ** The trace *)

(** The host was asked for an observation and delivered one or had none, or was asked to
    perform an action; or the executor published a checkpoint, of which the host knows
    nothing. *)
Inductive Happened : Set :=
  | Saw (obs : Observation)
  | Nothing
  | Did (a : Action) (answer : ActionResult + string)
  | Marked (obs : Observation).

(** A host that also keeps the record. *)
Section Traced.
Context {H : Type} (execute_step : Action → H → (ActionResult + string) * H)
  (drain_observation : H → option Observation * H).
Definition traced_execute (a : Action) (t : H * list Happened) :
    (ActionResult + string) * (H * list Happened) :=
  let '(r, h) := execute_step a t.1 in (r, (h, t.2 ++ [Did a r])).
Definition traced_drain (t : H * list Happened) : option Observation * (H * list Happened) :=
  match drain_observation t.1 with
  | (Some obs, h) => (Some obs, (h, t.2 ++ [Saw obs]))
  | (None, h) => (None, (h, t.2 ++ [Nothing]))
  end.
End Traced.

Definition is_mark (x : Happened) : bool := match x with Marked _ => true | _ => false end.

(** What the host knows of a trace, and what the subscribers of the stream get of it. *)
Definition known (tr : list Happened) : list Happened := List.filter (λ x, negb (is_mark x)) tr.
Definition published (tr : list Happened) : list Observation :=
  omap (λ x, match x with Saw obs | Marked obs => Some obs | _ => None end) tr.
Definition publish (l : list Observation) (st : StreamEngine) : StreamEngine :=
  fold_left (λ st obs, (produce (λ _, obs) st).2) l st.
Definition marks_in (tr : list Happened) : nat := length (List.filter is_mark tr).

Lemma known_app tr tr' : known (tr ++ tr') = known tr ++ known tr'.
Proof. apply List.filter_app. Qed.
Lemma published_app tr tr' st : publish (published (tr ++ tr')) st = publish (published tr') (publish (published tr) st).
Proof. unfold published, publish. by rewrite omap_app, fold_left_app. Qed.
Lemma marks_in_app tr tr' : marks_in (tr ++ tr') = (marks_in tr + marks_in tr')%nat.
Proof. unfold marks_in. by rewrite List.filter_app, length_app. Qed.
Lemma known_saw l : known (Saw <$> l) = Saw <$> l.
Proof. induction l as [|o l IH]; [done|]. cbn. by f_equal. Qed.
Lemma published_saw l : published (Saw <$> l) = l.
Proof. induction l as [|o l IH]; [done|]. cbn. by f_equal. Qed.
Lemma marks_in_saw l : marks_in (Saw <$> l) = 0%nat.
Proof. by induction l. Qed.

(** Waiting for a predicate until an observation satisfies it. *)
Definition awaited (p : option Predicate) (tr : list Happened) : Prop :=
  match p with
  | None => tr = []
  | Some p => ∃ l obs, tr = Saw <$> (l ++ [obs]) ∧ Forall (λ o, ¬ holds o p) l ∧ holds obs p
  end.

Lemma awaited_unmarked p tr : awaited p tr → marks_in tr = 0%nat.
Proof. destruct p as [p|]; [|by intros ->]. intros (l & obs & -> & _). apply marks_in_saw. Qed.

(** Asking for an observation once. *)
Definition glimpse (final : Observation) (tr : list Happened) (final' : Observation) : Prop :=
  tr = [Nothing] ∧ final' = final ∨ tr = [Saw final'].

Definition verified (p : option Predicate) (final : Observation) : Prop :=
  match p with None => True | Some p => holds final p end.

Section Steps.
Context (plan : Plan) (plan_id : PlanId).

(** The checkpoint behind a step, when [n] steps have landed: the last observation with a
    completion event at its end. *)
Definition marks (n : nat) (final : Observation) : list Happened :=
  if decide (0 < checkpoint_every plan ∧ wrap 32 (Z.of_nat n) mod checkpoint_every plan = 0) then
    [Marked (mkObservation (seq final) (timestamp_ms final) (a11y final) (frame final) (state final)
               (events final ++ [De_PlanCompleted plan_id false 0]) (foreground_app final))]
  else [].

(** A step that is recorded: [n] steps have landed before, [final] is the last observation
    taken before, [final'] after. *)
Inductive step_done (index : Z) (step : PlanStep) (n : nat) (final : Observation) :
    list Happened → StepResult → Observation → Prop :=
  | done_performed tr1 r tr2 final' :
      awaited (wait_before step) tr1 → glimpse final tr2 final' →
      verified (verify_after step) final' → (abort_on_error plan = true → ar_landed r = true) →
      step_done index step n final
        (tr1 ++ Did (action step) (inl r) :: tr2 ++ marks (if ar_landed r then S n else n) final')
        (mkStepResult (step_id step) index r (ar_landed r) None) final'
  | done_refused tr1 reason :
      awaited (wait_before step) tr1 → abort_on_error plan = false →
      step_done index step n final (tr1 ++ [Did (action step) (inr reason)])
        (mkStepResult (step_id step) index ActionResult_default false (Some reason)) final.

(** A step that ends the plan, with what it still adds to the records. *)
Inductive step_fails (index : Z) (step : PlanStep) (n : nat) (final : Observation) :
    list Happened → PlanFailure → list StepResult → Prop :=
  | fails_wait p l :
      wait_before step = Some p → Forall (λ o, ¬ holds o p) l →
      step_fails index step n final ((Saw <$> l) ++ [Nothing]) (WaitBeforeTimeout index (step_id step) (label step)) []
  | fails_refused tr1 reason :
      awaited (wait_before step) tr1 → abort_on_error plan = true →
      step_fails index step n final (tr1 ++ [Did (action step) (inr reason)])
        (ActionRefused index (step_id step) reason) []
  | fails_verify p tr1 r tr2 final' :
      awaited (wait_before step) tr1 → glimpse final tr2 final' →
      verify_after step = Some p → ¬ holds final' p →
      step_fails index step n final (tr1 ++ Did (action step) (inl r) :: tr2)
        (VerifyAfterMismatch index (step_id step) (label step)) []
  | fails_cancelled tr1 r tr2 final' :
      awaited (wait_before step) tr1 → glimpse final tr2 final' →
      verified (verify_after step) final' → abort_on_error plan = true → ar_landed r = false →
      step_fails index step n final (tr1 ++ Did (action step) (inl r) :: tr2 ++ marks n final')
        (Cancelled index (step_id step)) [mkStepResult (step_id step) index r false None].

(** Steps that are recorded, from step number [i] on, [n] having landed before. *)
Inductive steps_done (i n : nat) (final : Observation) :
    list PlanStep → list Happened → list StepResult → Observation → Prop :=
  | steps_none : steps_done i n final [] [] [] final
  | steps_more step ss tr tr' r rs final1 final2 :
      step_done (wrap 32 (Z.of_nat i)) step n final tr r final1 →
      steps_done (S i) (if sr_landed r then S n else n) final1 ss tr' rs final2 →
      steps_done i n final (step :: ss) (tr ++ tr') (r :: rs) final2.
End Steps.

Definition landed_steps (rs : list StepResult) : nat := length (filter (λ r, sr_landed r = true) rs).

(** The counters count the records and [k] checkpoints. *)
Definition counts (rs : list StepResult) (k : nat) (c : ExecutorCounters) : Prop :=
  landed c = wrap 32 (Z.of_nat (landed_steps rs)) ∧
  aborted c = wrap 32 (Z.of_nat (length rs - landed_steps rs)) ∧ skipped c = 0 ∧
  checkpoints c = wrap 32 (Z.of_nat k).

Lemma landed_steps_le rs : (landed_steps rs ≤ length rs)%nat.
Proof. unfold landed_steps. apply length_filter. Qed.

Lemma landed_steps_snoc rs r :
  landed_steps (rs ++ [r]) = (landed_steps rs + if sr_landed r then 1 else 0)%nat.
Proof.
  unfold landed_steps. rewrite filter_app, length_app. f_equal. rewrite filter_cons, filter_nil.
  by case_decide as Hr; destruct (sr_landed r).
Qed.

Lemma wrap32_succ n : wrap 32 (wrap 32 (Z.of_nat n) + 1) = wrap 32 (Z.of_nat (S n)).
Proof. unfold wrap. rewrite Z.add_mod_idemp_l by done. f_equal. lia. Qed.

Lemma counts_snoc rs k c r :
  counts rs k c → counts (rs ++ [r]) k (if sr_landed r then add_landed c else add_aborted c).
Proof.
  intros (Hl & Ha & Hs & Hk). pose proof (landed_steps_le rs). unfold counts.
  rewrite landed_steps_snoc, length_app. cbn [length].
  destruct (sr_landed r); cbn [landed aborted skipped checkpoints add_landed add_aborted].
  - split_and!; [rewrite Hl, wrap32_succ; do 2 f_equal; lia|rewrite Ha; do 2 f_equal; lia|done|done].
  - split_and!; [rewrite Hl; do 2 f_equal; lia|rewrite Ha, wrap32_succ; do 2 f_equal; lia|done|done].
Qed.

(** ** The executor over a host with a record *)

(** The registry holds the same predicates, and at most [n] more were registered. *)
Definition kept {H} (n : nat) (w w' : World H) : Prop :=
  predicates (engine w') = predicates (engine w) ∧ engine_wf (engine w') ∧
  next_handle (engine w') ≤ next_handle (engine w) + Z.of_nat n.

Lemma kept_trans {H} n m (w1 w2 w3 : World H) : kept n w1 w2 → kept m w2 w3 → kept (n + m) w1 w3.
Proof. intros (E1 & _ & L1) (E2 & W2 & L2). split_and!; [congruence|done|lia]. Qed.

Lemma kept_room {H} n m (w w' : World H) : kept n w w' → room (n + m) (engine w) → room m (engine w').
Proof. intros (E & _ & L) [R1 R2]. rewrite <-E in R2. split; lia. Qed.

Lemma kept_refl {H} (w w' : World H) : engine_wf (engine w) → engine w' = engine w → kept 0 w w'.
Proof. intros Hw E. unfold kept. rewrite E. split_and!; [done|done|lia]. Qed.

Section Run.
Context {H : Type} `{!HashOrder, !LawfulHashOrder}.
Context (execute_step : Action → H → (ActionResult + string) * H)
  (drain_observation : H → option Observation * H).

Abbreviation execute_step' := (traced_execute execute_step).
Abbreviation drain' := (traced_drain drain_observation).
Abbreviation run := (cmd (World (H * list Happened)) Stopped).

(** [tr] happened: the host's record and the stream show it. *)
Definition happened (tr : list Happened) (w w' : World (H * list Happened)) : Prop :=
  (host w').2 = (host w).2 ++ known tr ∧ stream w' = publish (published tr) (stream w).

Lemma happened_nil w w' : host w' = host w → stream w' = stream w → happened [] w w'.
Proof. unfold happened. intros -> ->. by rewrite app_nil_r. Qed.

Lemma happened_app tr tr' w1 w2 w3 : happened tr w1 w2 → happened tr' w2 w3 → happened (tr ++ tr') w1 w3.
Proof.
  intros [Hh1 Hs1] [Hh2 Hs2]. unfold happened. by rewrite Hh2, Hh1, Hs2, Hs1, known_app, published_app, (assoc_L (++)).
Qed.

(** [m] ends with [Q] of its result and of what happened during it, fails with [F] of the
    failure, or runs out of turns with [W]; it leaves the registry as it was. *)
Definition does {A} (n : nat) (m : run A) (Q : A → list Happened → Prop)
    (F : PlanFailure → list StepResult → list Happened → Prop) (W : list Happened → Prop) : Prop :=
  ∀ w, engine_wf (engine w) → room n (engine w) →
  ∃ tr, happened tr w (m w).2 ∧
  match (m w).1 with
  | Ok a => kept n w (m w).2 ∧ Q a tr
  | Err (Failed f out) => kept n w (m w).2 ∧ F f out tr
  | Err Waiting => W tr
  | Panicked => False
  end.

Lemma does_ret {A} (a : A) (Q : A → list Happened → Prop) F W : Q a [] → does 0 (mret a) Q F W.
Proof.
  intros HQ w Hw _. exists []. split; [by apply happened_nil|]. split; [by apply kept_refl|done].
Qed.

Lemma does_raise {A} f out Q (F : _ → _ → _ → Prop) W : F f out [] → does (A := A) 0 (raise (Failed f out)) Q F W.
Proof.
  intros HF w Hw _. exists []. split; [by apply happened_nil|]. split; [by apply kept_refl|done].
Qed.

Lemma does_weaken {A} n n' (m : run A) (Q Q' : A → list Happened → Prop) (F F' : _ → _ → _ → Prop) (W W' : _ → Prop) :
  does n m Q F W → (n ≤ n')%nat → (∀ a tr, Q a tr → Q' a tr) →
  (∀ f out tr, F f out tr → F' f out tr) → (∀ tr, W tr → W' tr) → does n' m Q' F' W'.
Proof.
  intros Hm Hn HQ HF HW w Hw Hr.
  assert (room n (engine w)) as Hr' by (destruct Hr; split; lia).
  destruct (Hm w Hw Hr') as (tr & Htr & Hres). exists tr. split; [done|].
  assert (kept n w (m w).2 → kept n' w (m w).2) by (intros (? & ? & ?); split_and!; [done|done|lia]).
  destruct ((m w).1) as [a|[f out|]|]; [| |by apply HW|done];
    (destruct Hres as [Hkept Hq]; split; [by auto|by auto]).
Qed.

Lemma does_bind {A B} n n' (m : run A) (k : A → run B) Q Q' (F F' : _ → _ → _ → Prop) (W W' : _ → Prop) :
  does n m Q F W →
  (∀ a tr, Q a tr → does n' (k a) (λ b tr', Q' b (tr ++ tr')) (λ f out tr', F' f out (tr ++ tr'))
                         (λ tr', W' (tr ++ tr'))) →
  (∀ f out tr, F f out tr → F' f out tr) → (∀ tr, W tr → W' tr) →
  does (n + n') (m ≫= k) Q' F' W'.
Proof.
  intros Hm Hk HF HW w Hw Hr. unfold mbind, cmd_bind.
  assert (room n (engine w)) as Hr1 by (destruct Hr; split; lia).
  destruct (Hm w Hw Hr1) as (tr & Htr & Hres).
  destruct (m w) as [[a|[f out|]|] w1] eqn:Em; cbn [fst snd] in *; [| | |done].
  - destruct Hres as [Hkept HQ].
    destruct (Hk a tr HQ w1) as (tr' & Htr' & Hres').
    { apply Hkept. }
    { by apply (kept_room n n' w w1). }
    exists (tr ++ tr'). split; [by eapply happened_app|].
    destruct (k a w1) as [[b|[f out|]|] w2]; cbn [fst snd] in *; [| |done..];
      destruct Hres' as [Hkept' HQ']; (split; [by eapply kept_trans|done]).
  - exists tr. split; [done|]. destruct Hres as [(E & Hwf & L) Hf]. split; [|by apply HF].
    split_and!; [done|done|lia].
  - exists tr. split; [done|]. by apply HW.
Qed.

(** *** The operations *)

Context (plan : Plan) (plan_id : PlanId) (fuel : nat).

Lemma does_take :
  does 0 (take_observation drain')
    (λ o tr, tr = match o with Some obs => [Saw obs] | None => [Nothing] end) (λ _ _ _, False) (λ _, False).
Proof.
  intros w Hw _. unfold take_observation, traced_drain.
  destruct (drain_observation (host w).1) as [[obs|] h]; cbn.
  - exists [Saw obs]. split_and!; [done|by apply kept_refl|done].
  - exists [Nothing]. split_and!; [done|by apply kept_refl|done].
Qed.

Lemma does_observe s :
  does 0 (observe drain' s)
    (λ s' tr, steps_out s' = steps_out s ∧ counters s' = counters s ∧ glimpse (final_obs s) tr (final_obs s'))
    (λ _ _ _, False) (λ _, False).
Proof.
  apply (does_bind 0 0 _ _ _ _ _ _ _ _ does_take); [|done..].
  intros [obs|] tr ->; apply does_ret; split_and!; try done; [by right|by left].
Qed.

Lemma does_execute a :
  does 0 (on_host (execute_step' a)) (λ r tr, tr = [Did a r]) (λ _ _ _, False) (λ _, False).
Proof.
  intros w Hw _. unfold on_host, traced_execute.
  destruct (execute_step a (host w).1) as [r h]; cbn. exists [Did a r].
  split_and!; [done|by apply kept_refl|done].
Qed.

Lemma does_checkpoint s rs k n :
  counts rs k (counters s) → landed_steps rs = n →
  does 0 (checkpoint (checkpoint_every plan) plan_id s)
    (λ s' tr, tr = marks plan plan_id n (final_obs s) ∧ steps_out s' = steps_out s ∧ final_obs s' = final_obs s ∧
              counts rs (k + marks_in tr) (counters s')) (λ _ _ _, False) (λ _, False).
Proof.
  intros (Hl & Ha & Hs & Hk) <-. unfold checkpoint, marks. rewrite <-Hl.
  destruct (decide (0 < checkpoint_every plan ∧ landed (counters s) mod checkpoint_every plan = 0)) as [[Hp Hd]|Hn].
  - rewrite (proj2 (Z.ltb_lt _ _) Hp), (proj2 (Z.eqb_eq _ _) Hd). cbn [andb].
    intros w Hw _. eexists [Marked _]. split; [split; [by rewrite app_nil_r|done]|].
    split; [by apply kept_refl|]. split_and!; [done..|]. unfold counts. cbn -[wrap Z.of_nat].
    rewrite Hk, wrap32_succ, Nat.add_1_r. by split_and!.
  - replace ((0 <? checkpoint_every plan) && (landed (counters s) mod checkpoint_every plan =? 0)) with false.
    { apply does_ret. rewrite Nat.add_0_r. by split_and!. }
    symmetry. apply andb_false_iff. destruct (Z.ltb_spec 0 (checkpoint_every plan)); [right|by left].
    apply Z.eqb_neq. intros E. by apply Hn.
Qed.

(** The wait: unsatisfying observations, and how it ended. *)
Lemma drain_until_run turns handle p (w : World (H * list Happened)) :
  waiting_for handle p w →
  ∃ l, Forall (λ o, ¬ holds o p) l ∧
  match drain_until drain' turns handle w with
  | (Ok Ws_Matched, w') => ∃ obs, holds obs p ∧ engine w' = (cancel handle (engine w)).2 ∧
      happened (Saw <$> l ++ [obs]) w w'
  | (Ok Ws_Closed, w') => engine w' = (cancel handle (engine w)).2 ∧ happened ((Saw <$> l) ++ [Nothing]) w w'
  | (Err Waiting, w') => length l = turns ∧ happened (Saw <$> l) w w'
  | _ => False
  end.
Proof.
  revert w. induction turns as [|turns IH]; intros w Hw.
  { exists []. split; [constructor|]. split; [done|by apply happened_nil]. }
  cbn [drain_until]. unfold mbind at 1, cmd_bind at 1. rewrite (turn_run _ _ p) by done.
  unfold traced_drain at 1. destruct (drain_observation (host w).1) as [[obs|] h].
  2:{ exists []. by split; [constructor|]. }
  set (w1 := mkWorld (engine w) (produce (λ _, obs) (stream w)).2 (h, (host w).2 ++ [Saw obs])).
  assert (happened [Saw obs] w w1) as Hw1 by done.
  case_bool_decide as Hm.
  - exists []. split; [constructor|]. exists obs. by rewrite <-evaluate_holds.
  - rewrite evaluate_holds in Hm. destruct (IH w1 Hw) as (l & Hl & Hrun).
    exists (obs :: l). split; [by constructor|].
    destruct (drain_until drain' turns handle _) as [[[]|[]|] w'] eqn:E; [..|done].
    + destruct Hrun as (obs' & Hh & He & Ht). exists obs'. split_and!; [done|done|].
      exact (happened_app _ _ _ _ _ Hw1 Ht).
    + destruct Hrun as (He & Ht). split; [done|]. exact (happened_app _ _ _ _ _ Hw1 Ht).
    + done.
    + destruct Hrun as (Hn & Ht). split; [cbn; by rewrite Hn|]. exact (happened_app _ _ _ _ _ Hw1 Ht).
Qed.

Lemma kept_cancel p w (w' : World (H * list Happened)) :
  engine_wf (engine w) → room 1 (engine w) →
  engine w' = (cancel (next_handle (engine w)) (register p (engine w)).2).2 → kept 1 w w'.
Proof.
  intros Hw Hr E. destruct (register_cancel p (engine w) Hw Hr) as (Hp & _ & Hn).
  unfold kept. rewrite E, Hp, Hn. split_and!; [done| |lia]. by apply cancel_wf, register_wf.
Qed.

(** A predicate that an observation of [tr] has not satisfied for [fuel] turns. *)
Definition stuck (fuel : nat) (p : option Predicate) (tr : list Happened) : Prop :=
  ∃ q l, p = Some q ∧ length l = fuel ∧ Forall (λ o, ¬ holds o q) l ∧ tr = Saw <$> l.

Lemma does_await index step s :
  does 1 (await drain' fuel index step s)
    (λ _ tr, awaited (wait_before step) tr)
    (λ f out tr, (∀ n, step_fails plan plan_id index step n (final_obs s) tr f []) ∧ out = steps_out s)
    (stuck fuel (wait_before step)).
Proof.
  intros w Hw Hr. unfold await. destruct (wait_before step) as [p|] eqn:Ep.
  2:{ exists []. split; [by apply happened_nil|]. split; [|done].
      split_and!; [done|done|cbn; lia]. }
  unfold wait_for_predicate, register_world, mbind, cmd_bind.
  destruct (register p (engine w)) as [handle e1] eqn:Er. cbn [fst snd engine stream host].
  assert (handle = next_handle (engine w)) as Hh by (unfold register in Er; congruence).
  assert (e1 = (register p (engine w)).2) as He1 by (by rewrite Er).
  assert (waiting_for handle p (mkWorld e1 (stream w) (host w))) as Hwait.
  { unfold waiting_for. rewrite He1, Hh. cbn. apply lookup_insert_eq. }
  destruct (drain_until_run fuel handle p _ Hwait) as (l & Hl & Hrun).
  destruct (drain_until drain' fuel handle _) as [[[]|[]|] w'] eqn:E; cbn [engine host] in Hrun; [..|done].
  - destruct Hrun as (obs & Hobs & He & Ht). exists (Saw <$> l ++ [obs]). split; [done|]. cbn.
    split; [apply (kept_cancel p); [done|done|congruence]|]. by exists l, obs.
  - destruct Hrun as (He & Ht). exists ((Saw <$> l) ++ [Nothing]). split; [done|]. cbn.
    split; [apply (kept_cancel p); [done|done|congruence]|]. split; [intros n; by econstructor|done].
  - done.
  - destruct Hrun as (Hn & Ht). exists (Saw <$> l). split; [done|]. cbn. by exists p, l.
Qed.

Lemma does_verify index step s :
  does 1 (verify index step s) (λ _ tr, tr = [] ∧ verified (verify_after step) (final_obs s))
    (λ f out tr, tr = [] ∧ f = VerifyAfterMismatch index (step_id step) (label step) ∧ out = steps_out s ∧
                 ∃ p, verify_after step = Some p ∧ ¬ holds (final_obs s) p)
    (λ _, False).
Proof.
  intros w Hw Hr. exists []. unfold verify.
  destruct (verify_after step) as [p|]; cbn [verified].
  2:{ split; [by apply happened_nil|]. split; [split_and!; [done|done|cbn; lia]|done]. }
  unfold register_world, read, cancel_world, mbind, cmd_bind.
  destruct (register p (engine w)) as [handle e1] eqn:Er. cbn [fst snd engine stream host].
  assert (handle = next_handle (engine w)) as -> by (unfold register in Er; congruence).
  assert (e1 = (register p (engine w)).2) as -> by (by rewrite Er).
  rewrite any_matched_register.
  case_bool_decide as Hm; cbn; (split; [by apply happened_nil|]); (split; [by apply (kept_cancel p)|]).
  - split; [done|]. by apply evaluate_holds.
  - split_and!; try done. exists p. by rewrite <-evaluate_holds.
Qed.

(** Behind the observation: the check, the record and the checkpoint. *)
Lemma does_conclude index step r s k :
  counts (steps_out s) k (counters s) →
  let n := landed_steps (steps_out s) in
  does 1 (_ ← verify index step s;
          s ← checkpoint (checkpoint_every plan) plan_id (record_step index step r s);
          if negb (ar_landed r) && abort_on_error plan
          then raise (Failed (Cancelled index (step_id step)) (steps_out s)) else mret s)
    (λ s' tr, verified (verify_after step) (final_obs s) ∧ (abort_on_error plan = true → ar_landed r = true) ∧
       tr = marks plan plan_id (if ar_landed r then S n else n) (final_obs s) ∧ final_obs s' = final_obs s ∧
       steps_out s' = steps_out s ++ [mkStepResult (step_id step) index r (ar_landed r) None] ∧
       counts (steps_out s') (k + marks_in tr) (counters s'))
    (λ f out tr,
       tr = [] ∧ f = VerifyAfterMismatch index (step_id step) (label step) ∧ out = steps_out s ∧
         (∃ p, verify_after step = Some p ∧ ¬ holds (final_obs s) p) ∨
       verified (verify_after step) (final_obs s) ∧ abort_on_error plan = true ∧ ar_landed r = false ∧
         tr = marks plan plan_id n (final_obs s) ∧ f = Cancelled index (step_id step) ∧
         out = steps_out s ++ [mkStepResult (step_id step) index r false None])
    (λ _, False).
Proof.
  intros Hc n. apply (does_bind 1 0 _ _ _ _ _ _ _ _ (does_verify index step s)); [| |done].
  2:{ intros f out tr (-> & -> & -> & Hp). by left. }
  intros _ tr (-> & Hv). set (rec := mkStepResult (step_id step) index r (ar_landed r) None).
  assert (landed_steps (steps_out s ++ [rec]) = if ar_landed r then S n else n) as Hn.
  { rewrite landed_steps_snoc. subst rec n. cbn [sr_landed]. destruct (ar_landed r); lia. }
  pose proof (counts_snoc _ _ _ rec Hc) as Hc1.
  apply (does_bind 0 0 _ _ _ _ _ _ _ _ (does_checkpoint (record_step index step r s) _ k _ Hc1 Hn)); [|done..].
  intros s2 tr (Htr & Hout2 & Hf2 & Hc2). cbn [record_step steps_out final_obs counters] in Htr, Hout2, Hf2.
  destruct (negb (ar_landed r) && abort_on_error plan) eqn:Eb.
  - apply does_raise. apply andb_true_iff in Eb as [Er%negb_true_iff Ea]. right.
    rewrite app_nil_r. rewrite Er in Htr. cbn [app]. rewrite Hout2, Er. by split_and!.
  - apply does_ret. rewrite app_nil_r, Hout2. cbn [app]. split_and!; try done.
    intros Ea. rewrite Ea, andb_true_r in Eb. by apply negb_false_iff in Eb.
Qed.

Lemma does_step index step s k :
  counts (steps_out s) k (counters s) →
  let n := landed_steps (steps_out s) in
  does 2 (run_step execute_step' drain' fuel plan plan_id index step s)
    (λ s' tr, ∃ r, step_done plan plan_id index step n (final_obs s) tr r (final_obs s') ∧
       steps_out s' = steps_out s ++ [r] ∧ counts (steps_out s') (k + marks_in tr) (counters s'))
    (λ f out tr, ∃ extra, step_fails plan plan_id index step n (final_obs s) tr f extra ∧ out = steps_out s ++ extra)
    (stuck fuel (wait_before step)).
Proof.
  intros Hc n. unfold run_step.
  apply (does_bind 1 1 _ _ _ _ _ _ _ _ (does_await index step s)).
  2:{ intros f out tr [Hf ->]. exists []. by rewrite app_nil_r. }
  2:{ done. }
  intros _ tr1 Haw. assert (marks_in tr1 = 0%nat) as Hm1 by by apply awaited_unmarked in Haw.
  apply (does_bind 0 1 _ _ _ _ _ _ _ _ (does_execute (action step))); [|done..].
  intros [r|reason] tr ->.
  2:{ destruct (abort_on_error plan) eqn:Ea.
      - eapply does_weaken; [apply (does_raise _ _ (λ _ _, False)
          (λ f out tr, f = ActionRefused index (step_id step) reason ∧ out = steps_out s ∧ tr = []) (λ _, False))|..];
          [done|lia|done| |done].
        intros f out tr (-> & -> & ->). exists []. rewrite !app_nil_r. split; [|done]. by constructor.
      - eapply does_weaken; [apply (does_ret (refusal index step reason s)
          (λ s' tr, s' = refusal index step reason s ∧ tr = []) (λ _ _ _, False) (λ _, False))|..];
          [done|lia| |done|done].
        intros s' tr [-> ->]. eexists. rewrite !app_nil_r. split; [by constructor|].
        split; [done|]. rewrite marks_in_app, Hm1. cbn [marks_in List.filter is_mark length]. rewrite Nat.add_0_r.
        apply (counts_snoc _ _ _ (mkStepResult (step_id step) index ActionResult_default false (Some reason)) Hc). }
  apply (does_bind 0 1 _ _ _ _ _ _ _ _ (does_observe s)); [|done..].
  intros s1 tr2 (Hout & Hcs & Hg). assert (marks_in tr2 = 0%nat) as Hm2 by by destruct Hg as [[-> _]| ->].
  rewrite <-Hout, <-Hcs in Hc. subst n. rewrite <-!Hout.
  eapply does_weaken; [apply (does_conclude index step r s1 k Hc)|done|..]; [| |done].
  - intros s2 tr (Hv & Ha & -> & Hf & Ho & Hc2). eexists. rewrite Hf, Ho.
    split; [|split; [done|]].
    + by constructor.
    + rewrite Ho in Hc2. rewrite !marks_in_app, Hm1, Hm2. exact Hc2.
  - intros f out tr [(-> & -> & -> & p & Hp & Hn)|(Hv & Ha & Hr & -> & -> & ->)].
    + exists []. rewrite !app_nil_r. split; [|done]. by eapply fails_verify.
    + eexists. split; [|done]. by apply fails_cancelled.
Qed.

(** The steps of a plan up to one that ends it, in the way [last] says. *)
Definition steps_end (i n : nat) (final0 : Observation) (ss : list PlanStep)
    (last : Z → PlanStep → nat → Observation → list Happened → list StepResult → Prop)
    (tr : list Happened) (out : list StepResult) : Prop :=
  ∃ before step after tr1 tr2 rs final extra,
    ss = before ++ step :: after ∧ tr = tr1 ++ tr2 ∧ out = rs ++ extra ∧
    steps_done plan plan_id i n final0 before tr1 rs final ∧
    last (wrap 32 (Z.of_nat (i + length before))) step (n + landed_steps rs)%nat final tr2 extra.

Lemma steps_end_here i n final0 step ss (last : _ → _ → _ → _ → _ → _ → Prop) tr out :
  last (wrap 32 (Z.of_nat i)) step n final0 tr out → steps_end i n final0 (step :: ss) last tr out.
Proof.
  intros Hl. exists [], step, ss, [], tr, [], final0, out. split_and!; [done..|constructor|].
  by rewrite !Nat.add_0_r.
Qed.

Lemma landed_steps_cons r rs : landed_steps (r :: rs) = ((if sr_landed r then 1 else 0) + landed_steps rs)%nat.
Proof. unfold landed_steps. rewrite filter_cons. case_decide as Hr; destruct (sr_landed r); done. Qed.

Lemma steps_end_later i n final0 step ss last tr r final1 tr' out :
  step_done plan plan_id (wrap 32 (Z.of_nat i)) step n final0 tr r final1 →
  steps_end (S i) (if sr_landed r then S n else n) final1 ss last tr' out →
  steps_end i n final0 (step :: ss) last (tr ++ tr') (r :: out).
Proof.
  intros Hd (b & st & a & tr1 & tr2 & rs & fin & extra & -> & -> & -> & Hds & Hl).
  exists (step :: b), st, a, (tr ++ tr1), tr2, (r :: rs), fin, extra.
  split_and!; [done|by rewrite (assoc_L (++))|done|by econstructor|].
  cbn [length]. rewrite landed_steps_cons. replace (i + S (length b))%nat with (S i + length b)%nat by lia.
  replace (n + _)%nat with ((if sr_landed r then S n else n) + landed_steps rs)%nat; [done|].
  destruct (sr_landed r); lia.
Qed.

Lemma does_steps i ss s k :
  counts (steps_out s) k (counters s) →
  let n := landed_steps (steps_out s) in
  does (2 * length ss) (run_steps execute_step' drain' fuel plan plan_id i ss s)
    (λ s' tr, ∃ rs, steps_done plan plan_id i n (final_obs s) ss tr rs (final_obs s') ∧
       steps_out s' = steps_out s ++ rs ∧ counts (steps_out s') (k + marks_in tr) (counters s'))
    (λ f out tr, ∃ out', out = steps_out s ++ out' ∧
       steps_end i n (final_obs s) ss (λ j step n fin tr, step_fails plan plan_id j step n fin tr f) tr out')
    (λ tr, ∃ out', steps_end i n (final_obs s) ss (λ _ step _ _ tr _, stuck fuel (wait_before step) tr) tr out').
Proof.
  revert i s k. induction ss as [|step ss IH]; intros i s k Hc n.
  { apply does_ret. exists []. split; [constructor|]. by rewrite app_nil_r, Nat.add_0_r. }
  replace (2 * length (step :: ss))%nat with (2 + 2 * length ss)%nat by (cbn [length]; lia).
  cbn [run_steps].
  apply (does_bind 2 _ _ _ _ _ _ _ _ _ (does_step (wrap 32 (Z.of_nat i)) step s k Hc)).
  2:{ intros f out tr (extra & Hf & ->). exists extra. split; [done|]. by apply steps_end_here. }
  2:{ intros tr Hs. exists []. by apply steps_end_here. }
  intros s1 tr (r & Hd & Hout & Hc1).
  assert (landed_steps (steps_out s1) = if sr_landed r then S n else n) as Hn.
  { rewrite Hout, landed_steps_snoc. subst n. destruct (sr_landed r); lia. }
  eapply does_weaken; [by apply IH|done|..]; rewrite Hn.
  - intros s2 tr' (rs & Hds & Hout2 & Hc2). exists (r :: rs). split; [by econstructor|].
    rewrite marks_in_app, Nat.add_assoc, Hout2, Hout, <-(assoc_L (++)). split; [done|].
    by rewrite Hout2, Hout, <-(assoc_L (++)) in Hc2.
  - intros f out tr' (out' & -> & He). exists (r :: out'). rewrite Hout, <-(assoc_L (++)).
    split; [done|]. by eapply steps_end_later.
  - intros tr' (out' & He). exists (r :: out'). by eapply steps_end_later.
Qed.

(** C8: a plan.  Over any host, when [execute] gives a result, then what happened is the
    steps of the plan in order - each an awaited precondition, its action, one request for an
    observation that satisfies the postcondition, a checkpoint where one is due - and one last
    request for an observation.  The result lists one record per step, its counters count
    them and the checkpoints, it holds the last observation delivered, and it is landed when
    every step is.  When it fails, the steps before one were done and that step failed in the
    way the failure says - a wait only when the host had no observation left; the records so
    far come with it.  In both cases the predicate registry is as before.  It runs out of
    turns only where a precondition was not met by as many observations.  In all cases the
    stream was given the observations delivered and the checkpoints, in the order they
    happened, and nothing else. *)
Theorem execute_refines (w : World (H * list Happened))
    (Hw : engine_wf (engine w)) (Hroom : room (2 * length (steps plan)) (engine w)) :
  let '(o, w') := execute execute_step' drain' fuel plan plan_id w in
  ∃ tr, (host w').2 = (host w).2 ++ known tr ∧ stream w' = publish (published tr) (stream w) ∧
  match o with
  | Ok (result, c) =>
      predicates (engine w') = predicates (engine w) ∧ engine_wf (engine w') ∧
      (∃ tr1 tr2 final, tr = tr1 ++ tr2 ∧
         steps_done plan plan_id 0 0 Observation_default (steps plan) tr1 (pr_steps result) final ∧
         glimpse final tr2 (pr_final_observation result)) ∧
      counts (pr_steps result) (marks_in tr) c ∧ pr_total_elapsed_ms result = landed c ∧
      pr_plan_id result = plan_id ∧ pr_all_landed result = forallb sr_landed (pr_steps result)
  | Err (Failed f out) =>
      predicates (engine w') = predicates (engine w) ∧ engine_wf (engine w') ∧
      steps_end 0 0 Observation_default (steps plan)
        (λ j step n fin tr, step_fails plan plan_id j step n fin tr f) tr out
  | Err Waiting =>
      ∃ out, steps_end 0 0 Observation_default (steps plan)
               (λ _ step _ _ tr _, stuck fuel (wait_before step) tr) tr out
  | Panicked => False
  end.
Proof.
  assert (counts [] 0 counters_default) as Hc0 by done.
  assert (does (2 * length (steps plan) + 0) (execute execute_step' drain' fuel plan plan_id)
    (λ rc tr, (∃ tr1 tr2 final, tr = tr1 ++ tr2 ∧
         steps_done plan plan_id 0 0 Observation_default (steps plan) tr1 (pr_steps rc.1) final ∧
         glimpse final tr2 (pr_final_observation rc.1)) ∧
      counts (pr_steps rc.1) (marks_in tr) rc.2 ∧ pr_total_elapsed_ms rc.1 = landed rc.2 ∧
      pr_plan_id rc.1 = plan_id ∧ pr_all_landed rc.1 = forallb sr_landed (pr_steps rc.1))
    (λ f out tr, steps_end 0 0 Observation_default (steps plan)
       (λ j step n fin tr, step_fails plan plan_id j step n fin tr f) tr out)
    (λ tr, ∃ out, steps_end 0 0 Observation_default (steps plan)
               (λ _ step _ _ tr _, stuck fuel (wait_before step) tr) tr out)) as Hdoes.
  { unfold execute. eapply does_bind.
    { exact (does_steps 0 (steps plan) (mkProgress [] counters_default Observation_default) 0 Hc0). }
    2:{ by intros f out tr (out' & -> & He). }
    2:{ done. }
    intros s tr (rs & Hds & Hout & Hc). cbn [steps_out counters app] in Hout, Hc.
    apply (does_bind 0 0 _ _ _ _ _ _ _ _ (does_observe s)); [|done..].
    intros s' tr' (Hout' & Hc' & Hg). apply does_ret. rewrite app_nil_r.
    cbn [pr_steps pr_final_observation pr_total_elapsed_ms pr_plan_id pr_all_landed fst snd].
    assert (marks_in tr' = 0%nat) as Hm by by destruct Hg as [[-> _]| ->].
    rewrite <-Hout', <-Hc' in Hc. split_and!; [| | |done|done].
    - exists tr, tr', (final_obs s). rewrite Hout', Hout. by split_and!.
    - by rewrite marks_in_app, Hm, Nat.add_0_r.
    - rewrite Z.mul_1_r. destruct Hc as (-> & _). unfold U32_MAX, wrap.
      pose proof (Z.mod_pos_bound (Z.of_nat (landed_steps (steps_out s'))) (2 ^ 32)). lia. }
  destruct (execute execute_step' drain' fuel plan plan_id w) as [o w'] eqn:E.
  rewrite Nat.add_0_r in Hdoes. destruct (Hdoes w Hw Hroom) as (tr & [Htr Hst] & Hres).
  rewrite E in Htr, Hst, Hres. exists tr. split; [done|]. split; [done|]. cbn [fst snd] in Hres.
  destruct o as [[res c]|[f out|]|]; [| |done..];
    destruct Hres as ((Hp & Hwf & _) & Hq); (split; [done|]); (split; [done|exact Hq]).
Qed.
End Run.

(** ** Termination *)

(** A host whose observations end: [left] bounds how many are still to come. *)
Section Ends.
Context {H : Type} `{!HashOrder}.
Context (execute_step : Action → H → (ActionResult + string) * H)
  (drain_observation : H → option Observation * H) (left : H → nat).
Context (left_execute : ∀ a h, (left (execute_step a h).2 ≤ left h)%nat)
  (left_drain : ∀ h, match drain_observation h with
                     | (Some _, h') => (left h' < left h)%nat
                     | (None, h') => (left h' ≤ left h)%nat
                     end).

(** [m] does not run out of turns and does not unwind, nor add observations to come. *)
Definition returns {A} (fuel : nat) (m : cmd (World H) Stopped A) : Prop :=
  ∀ w, (left (host w) < fuel)%nat →
  (left (host (m w).2) ≤ left (host w))%nat ∧
  match (m w).1 with Ok _ | Err (Failed _ _) => True | _ => False end.

Lemma returns_same {A} fuel (m : cmd (World H) Stopped A) :
  (∀ w, host (m w).2 = host w ∧ match (m w).1 with Ok _ | Err (Failed _ _) => True | _ => False end) →
  returns fuel m.
Proof. intros Hm w _. destruct (Hm w) as [-> ?]. by split; [lia|]. Qed.

Lemma returns_bind {A B} fuel (m : cmd (World H) Stopped A) (k : A → cmd (World H) Stopped B) :
  returns fuel m → (∀ a, returns fuel (k a)) → returns fuel (m ≫= k).
Proof.
  intros Hm Hk w Hw. specialize (Hm w Hw). unfold mbind, cmd_bind.
  destruct (m w) as [[a|[f out|]|] w1]; cbn [fst snd] in *; destruct Hm as [Hle Hres]; try done.
  specialize (Hk a w1 ltac:(lia)) as [Hle' Hres']. split; [lia|done].
Qed.

Lemma returns_take fuel : returns fuel (take_observation drain_observation).
Proof.
  intros w _. unfold take_observation. pose proof (left_drain (host w)) as Hl.
  destruct (drain_observation (host w)) as [[obs|] h]; cbn; (split; [lia|done]).
Qed.

Lemma returns_drain fuel handle : returns fuel (drain_until drain_observation fuel handle).
Proof.
  induction fuel as [|fuel IH]; [by intros w ?%Nat.nlt_0_r|].
  intros w Hw. cbn [drain_until]. unfold mbind at 1 3, cmd_bind at 1 3, turn, take_observation.
  pose proof (left_drain (host w)) as Hl.
  unfold mbind, cmd_bind. destruct (drain_observation (host w)) as [[obs|] h]; cbn; [|by split; [lia|]].
  destruct (any_matched _ _); cbn; [by split; [lia|]|].
  destruct (IH (mkWorld (engine w) (produce (λ _, obs) (stream w)).2 h) ltac:(cbn; lia)) as [Hle Hres].
  cbn in Hle. split; [lia|done].
Qed.

Lemma returns_step fuel plan plan_id index step s :
  returns fuel (run_step execute_step drain_observation fuel plan plan_id index step s).
Proof.
  unfold run_step. apply returns_bind.
  { unfold await, wait_for_predicate. destruct (wait_before step) as [p|]; [|by apply returns_same].
    apply returns_bind; [apply returns_bind; [by apply returns_same|intros; apply returns_drain]|].
    intros []; by apply returns_same. }
  intros _. apply returns_bind.
  { intros w _. unfold on_host. pose proof (left_execute (action step) (host w)) as Hl.
    destruct (execute_step (action step) (host w)) as [r h]. by split. }
  intros [r|reason]; [|by destruct (abort_on_error plan); apply returns_same].
  apply returns_bind; [apply returns_bind; [apply returns_take|by intros []; apply returns_same]|].
  intros s1. apply returns_bind.
  { unfold verify. destruct (verify_after step) as [p|]; [|by apply returns_same].
    apply returns_same. intros w. unfold register_world, read, cancel_world, mbind, cmd_bind. cbn.
    by destruct (any_matched _ _). }
  intros _. apply returns_bind; [by apply returns_same; unfold checkpoint; destruct (_ && _)|].
  intros s2. by destruct (_ && _); apply returns_same.
Qed.

(** C9: the executor returns.  Over a host whose observations end - actions add none - a
    plan ends with a result or a failure, never waiting for ever or unwinding: as many
    turns per wait as there are observations to come, and one to notice their end, are
    enough. *)
Theorem execute_returns (fuel : nat) (plan : Plan) (plan_id : PlanId) (w : World H)
    (Hfuel : (left (host w) < fuel)%nat) :
  match (execute execute_step drain_observation fuel plan plan_id w).1 with
  | Ok _ | Err (Failed _ _) => True
  | _ => False
  end.
Proof.
  assert (returns fuel (execute execute_step drain_observation fuel plan plan_id)) as Hr.
  { unfold execute. apply returns_bind.
    - generalize (mkProgress [] counters_default Observation_default), O.
      induction (steps plan) as [|step ss IH]; intros s i; [by apply returns_same|].
      cbn [run_steps]. apply returns_bind; [apply returns_step|]. intros s1. apply IH.
    - intros s. apply returns_bind; [|by intros; apply returns_same].
      apply returns_bind; [apply returns_take|by intros []; apply returns_same]. }
  by destruct (Hr w Hfuel) as [_ ?].
Qed.
End Ends.

(** ** Examples *)

(** A host on which every action lands. *)
Definition always_lands (a : Action) (h : scripted) : (ActionResult + string) * scripted :=
  (inl (mkActionResult 7 true GroundTruth_default 1 None false), h).

Definition clipboard_plan : Plan :=
  with_checkpoint_every 1 (Plan_new [with_wait_before (EventFires K_ClipboardChanged 0) (PlanStep_new (Act_Tap 10 20 100));
            with_verify_after (EventFires K_ClipboardChanged 0) (PlanStep_new (Act_Tap 30 40 100))]).

Definition clipboard_host : scripted :=
  ([event_observation 0 (De_Uptime 0); event_observation 1 De_ClipboardChanged;
    event_observation 2 De_ClipboardChanged; event_observation 3 De_ClipboardChanged;
    event_observation 4 (De_Uptime 9)], 0).

Definition fresh_world {H} (h : H) : World H := mkWorld PredicateEngine_new StreamEngine_new h.

Lemma execute_refines_witness :
  let '(o, w') := execute (traced_execute always_lands) (traced_drain next_scripted) 9 clipboard_plan 3
                    (fresh_world (clipboard_host, [])) in
  ∃ result c tr1 tr2 final, o = Ok (result, c) ∧ length (pr_steps result) = 2%nat ∧
    steps_done clipboard_plan 3 0 0 Observation_default (steps clipboard_plan) tr1 (pr_steps result) final ∧
    (host w').2 = known (tr1 ++ tr2) ∧ landed c = 2 ∧ checkpoints c = 2.
Proof.
  pose proof (execute_refines always_lands next_scripted clipboard_plan 3 9
    (fresh_world (clipboard_host, [])) engine_wf_new (room_new 4 ltac:(lia))) as H.
  assert (∃ result c, (execute (traced_execute always_lands) (traced_drain next_scripted) 9 clipboard_plan 3
            (fresh_world (clipboard_host, []))).1 = Ok (result, c) ∧
          length (pr_steps result) = 2%nat ∧ landed c = 2 ∧ checkpoints c = 2) as (result & c & E & Hlen & Hc).
  { eexists _, _. split; [vm_compute; reflexivity|]. by split_and!. }
  destruct (execute _ _ 9 clipboard_plan 3 _) as [o w']. cbn [fst] in E. subst o.
  destruct H as (tr & Htr & _ & _ & _ & (tr1 & tr2 & final & -> & Hds & _) & _).
  exists result, c, tr1, tr2, final. destruct Hc as [Hl Hk]. repeat (split; [assumption || reflexivity|]). exact Hk.
Defined.

Lemma execute_returns_witness :
  match (execute always_lands next_scripted 6 clipboard_plan 3 (fresh_world clipboard_host)).1 with
  | Ok _ | Err (Failed _ _) => True
  | _ => False
  end.
Proof.
  apply (execute_returns always_lands next_scripted (λ h, length h.1)).
  - done.
  - intros [[|obs l] t]; unfold next_scripted; cbn [fst snd length]; lia.
  - cbn. lia.
Defined.
