(* ===== verification/StateModel.v ===== *)
(** * The kernel's state model ([ai-device-kernel/src/state.rs])

    The last observation and three bounded histories: observations, action results, plan
    results.  [usize] and the counters are unbounded here only where the code saturates. *)

From S2P Require Import Prelude Words Utf8 Float32 KernelTypes Bounded PredicateEngine.
Local Open Scope Z_scope.

Inductive LastInput : Set :=
  | Li_Tap (x y : Z)
  | Li_Swipe (x1 y1 x2 y2 : Z).

Record StateModel : Set := mkStateModel
  { last_input : option LastInput; last_observation : option Observation; predicate_set_size : Z;
    event_queue : list Observation; recent_action_results : list (ActionId * ActionResult);
    recent_plan_results : list (PlanId * PlanResult) }.

Definition EVENT_QUEUE_CAP : nat := 1024.
Definition ACTION_RESULT_CAP : nat := 256.
Definition PLAN_RESULT_CAP : nat := 64.

Definition StateModel_new : StateModel := mkStateModel None None 0 [] [] [].

Definition record_observation (obs : Observation) (s : StateModel) : StateModel :=
  mkStateModel (last_input s) (Some obs) (predicate_set_size s)
    (bounded_push EVENT_QUEUE_CAP (event_queue s) obs) (recent_action_results s) (recent_plan_results s).

Definition record_action_result (id : ActionId) (r : ActionResult) (s : StateModel) : StateModel :=
  mkStateModel (last_input s) (last_observation s) (predicate_set_size s) (event_queue s)
    (bounded_push ACTION_RESULT_CAP (recent_action_results s) (id, r)) (recent_plan_results s).

Definition record_plan_result (id : PlanId) (r : PlanResult) (s : StateModel) : StateModel :=
  mkStateModel (last_input s) (last_observation s) (predicate_set_size s) (event_queue s)
    (recent_action_results s) (bounded_push PLAN_RESULT_CAP (recent_plan_results s) (id, r)).

(** [.iter().rev().find(..).map(|(_, r)| r)] *)
Definition action_result (id : ActionId) (s : StateModel) : option ActionResult :=
  snd <$> find (λ p, p.1 =? id) (rev (recent_action_results s)).

Definition pending_predicates (s : StateModel) : Z := predicate_set_size s.

Definition with_pending (n : Z) (s : StateModel) : StateModel :=
  mkStateModel (last_input s) (last_observation s) n (event_queue s) (recent_action_results s)
    (recent_plan_results s).
Definition predicate_registered (s : StateModel) : StateModel :=
  with_pending (Z.min U32_MAX (predicate_set_size s + 1)) s.
Definition predicate_resolved (s : StateModel) : StateModel :=
  if 0 <? predicate_set_size s then with_pending (predicate_set_size s - 1) s else s.

Definition queue_len (s : StateModel) : nat := length (event_queue s).

(** [size_of::<(ActionId, ActionResult)>()] and its sibling depend on the compiler's layout. *)
Definition approx_memory_bytes (action_size plan_size : Z) (s : StateModel) : Z :=
  Z.of_nat (length (event_queue s)) * 256
  + Z.of_nat (length (recent_action_results s)) * action_size
  + Z.of_nat (length (recent_plan_results s)) * plan_size.

(** ** Histories *)

(** The operations on the state, and what a sequence of them recorded. *)
Inductive Recorded : Set :=
  | Observed (obs : Observation)
  | Acted (id : ActionId) (r : ActionResult)
  | Planned (id : PlanId) (r : PlanResult)
  | Registered
  | Resolved.

Definition record (s : StateModel) (op : Recorded) : StateModel :=
  match op with
  | Observed obs => record_observation obs s
  | Acted id r => record_action_result id r s
  | Planned id r => record_plan_result id r s
  | Registered => predicate_registered s
  | Resolved => predicate_resolved s
  end.

Definition observed (ops : list Recorded) : list Observation :=
  omap (λ op, match op with Observed obs => Some obs | _ => None end) ops.
Definition acted (ops : list Recorded) : list (ActionId * ActionResult) :=
  omap (λ op, match op with Acted id r => Some (id, r) | _ => None end) ops.
Definition planned (ops : list Recorded) : list (PlanId * PlanResult) :=
  omap (λ op, match op with Planned id r => Some (id, r) | _ => None end) ops.

(** [y] is the value of the last pair of [l] with key [k]. *)
Definition newest {A} (k : Z) (l : list (Z * A)) (y : option A) : Prop :=
  match y with
  | Some a => ∃ l1 l2, l = l1 ++ (k, a) :: l2 ∧ k ∉ l2.*1
  | None => k ∉ l.*1
  end.

Lemma find_rev_newest {A} (k : Z) (l : list (Z * A)) :
  newest k l (snd <$> find (λ p, p.1 =? k) (rev l)).
Proof.
  induction l as [|[k' a] l IH] using rev_ind; cbn; [apply not_elem_of_nil|].
  rewrite rev_app_distr. cbn. destruct (Z.eqb_spec k' k) as [->|Hne].
  - cbn. exists l, []. split; [done|apply not_elem_of_nil].
  - destruct (find _ (rev l)) as [[k2 b]|]; cbn in *.
    + destruct IH as (l1 & l2 & -> & Hl2). exists l1, (l2 ++ [(k', a)]).
      rewrite <-(assoc_L (++)). split; [done|]. rewrite fmap_app, not_elem_of_app. split; [done|].
      apply not_elem_of_cons; split; [cbn; congruence|apply not_elem_of_nil].
    + rewrite fmap_app, not_elem_of_app. split; [done|].
      apply not_elem_of_cons; split; [cbn; congruence|apply not_elem_of_nil].
Qed.

(** The state model forgets only what is old.  Behind any sequence of operations, the
    histories are the last 1024 observations, 256 action results and 64 plan results
    recorded, in order; the last observation is the one recorded last; an action's id finds
    the newest of the kept results with it, and nothing exactly when none is kept; the
    count of pending predicates is a [u32]. *)
Theorem state_keeps_recent (ops : list Recorded) :
  let s := foldl record StateModel_new ops in
  event_queue s = lastn EVENT_QUEUE_CAP (observed ops) ∧
  recent_action_results s = lastn ACTION_RESULT_CAP (acted ops) ∧
  recent_plan_results s = lastn PLAN_RESULT_CAP (planned ops) ∧
  last_observation s = last (observed ops) ∧
  0 ≤ pending_predicates s ≤ U32_MAX ∧
  ∀ id, newest id (lastn ACTION_RESULT_CAP (acted ops)) (action_result id s).
Proof.
  cbn zeta. set (s := foldl record StateModel_new ops).
  assert (keeps_last EVENT_QUEUE_CAP (observed ops) (event_queue s) ∧
          keeps_last ACTION_RESULT_CAP (acted ops) (recent_action_results s) ∧
          keeps_last PLAN_RESULT_CAP (planned ops) (recent_plan_results s) ∧
          last_observation s = last (observed ops) ∧ 0 ≤ pending_predicates s ≤ U32_MAX)
    as (He & Ha & Hp & Hl & Hn).
  2:{ unfold keeps_last in *. split_and!; try done; [lia..|]. intros id. rewrite <-Ha. apply find_rev_newest. }
  subst s. induction ops as [|op ops IH] using rev_ind; [done|].
  rewrite foldl_snoc. unfold observed, acted, planned in *. rewrite !omap_app.
  destruct IH as (He & Ha & Hp & Hl & Hn). unfold pending_predicates in *.
  destruct op as [obs|id r|id r| |]; cbn [record omap list_omap]; rewrite ?app_nil_r.
  - split_and!; [by apply keeps_last_push; [unfold EVENT_QUEUE_CAP; lia|]|done|done| |apply Hn|apply Hn].
    cbn. by rewrite last_snoc.
  - split_and!; [done|by apply keeps_last_push; [unfold ACTION_RESULT_CAP; lia|]|done|done|apply Hn|apply Hn].
  - split_and!; [done|done|by apply keeps_last_push; [unfold PLAN_RESULT_CAP; lia|]|done|apply Hn|apply Hn].
  - split_and!; [done..| |]; cbn; unfold U32_MAX in *; lia.
  - unfold predicate_resolved. destruct (Z.ltb_spec 0 (predicate_set_size (foldl record StateModel_new ops)));
      (split_and!; [done..| |]); cbn; lia.
Qed.
