(* ===== verification/SessionState.v ===== *)
(** * The working memory of one task ([ai-device-kernel/src/session_state.rs], [selector_cache.rs])

    Instants and durations are in nanoseconds; the clock's reading is an argument [now] of
    each method that asks for it.  [Instant] arithmetic beyond its range unwinds. *)

From stdpp Require Import gmap.
From S2P Require Import Prelude Words Utf8 Float32 KernelTypes Bounded PredicateWait Format.
Local Open Scope Z_scope.

Definition MAX_RECENT_ATOMICS : nat := 20.
Definition MAX_FOREGROUND_HISTORY : nat := 10.
Definition DEFAULT_DEADLINE : Z := 5 * 60 * 10 ^ 9.

Record TaskSpec : Set := mkTaskSpec
  { description : str; timeout : option Z; tags : list str }.

Record ChunkIndex : Set := mkChunkIndex { current : Z; total : Z }.
Definition is_exhausted (c : ChunkIndex) : bool := (0 <? total c) && (total c <=? current c).

Record AtomicRecord : Set := mkAtomicRecord
  { rec_id : ActionId; atomic : Action; result : ActionResult; ts_ms : Z }.

Record ResolvedTarget : Set := mkResolvedTarget
  { rt_selector : str; rt_node_id : Z; rt_bounds : Z * Z * Z * Z }.

Record SessionState : Set := mkSessionState
  { task : TaskSpec; scenario_progress : ChunkIndex; recent_atomics : list AtomicRecord;
    selector_cache : gmap str ResolvedTarget; foreground_app_history : list ForegroundApp;
    deadline_ms_since_epoch : Z; session_start : Z; epoch_anchor : Z }.

Definition NANOS_PER_MS : Z := 10 ^ 6.
(** [as_millis() as u64] *)
Definition millis (d : Z) : Z := wrap 64 (d / NANOS_PER_MS).
(** [Instant + Duration] *)
Definition instant_add (t d : Z) : outcome False Z :=
  if INSTANT_LIMIT <=? t + d then Panicked else Ok (t + d).

Definition SessionState_new (t : TaskSpec) (now : Z) : outcome False SessionState :=
  match instant_add now (default DEFAULT_DEADLINE (timeout t)) with
  | Ok deadline =>
      Ok (mkSessionState t (mkChunkIndex 0 0) [] ∅ [] (millis (deadline - now)) now now)
  | _ => Panicked
  end.

Definition SessionState_with_deadline (t : TaskSpec) (deadline now : Z) : SessionState :=
  mkSessionState t (mkChunkIndex 0 0) [] ∅ []
    (if now <=? deadline then millis (deadline - now) else 0) now now.

Definition record_atomic (id : ActionId) (a : Action) (r : ActionResult) (now : Z)
    (s : SessionState) : SessionState :=
  mkSessionState (task s) (scenario_progress s)
    (bounded_push MAX_RECENT_ATOMICS (recent_atomics s)
       (mkAtomicRecord id a r (millis (Z.max 0 (now - session_start s)))))
    (selector_cache s) (foreground_app_history s) (deadline_ms_since_epoch s) (session_start s)
    (epoch_anchor s).

Definition set_cache (c : gmap str ResolvedTarget) (s : SessionState) : SessionState :=
  mkSessionState (task s) (scenario_progress s) (recent_atomics s) c (foreground_app_history s)
    (deadline_ms_since_epoch s) (session_start s) (epoch_anchor s).

Definition cache_selector (sel : str) (t : ResolvedTarget) (s : SessionState) : SessionState :=
  set_cache (<[sel := t]> (selector_cache s)) s.
Definition invalidate_selector (sel : str) (s : SessionState) : bool * SessionState :=
  (is_some (selector_cache s !! sel), set_cache (delete sel (selector_cache s)) s).
Definition lookup_selector (sel : str) (s : SessionState) : option ResolvedTarget :=
  selector_cache s !! sel.

Definition record_foreground_app (app : ForegroundApp) (s : SessionState) : SessionState :=
  mkSessionState (task s) (scenario_progress s) (recent_atomics s) (selector_cache s)
    (bounded_push MAX_FOREGROUND_HISTORY (foreground_app_history s) app)
    (deadline_ms_since_epoch s) (session_start s) (epoch_anchor s).

Definition is_expired (s : SessionState) (now : Z) : outcome False bool :=
  match instant_add (epoch_anchor s) (deadline_ms_since_epoch s * NANOS_PER_MS) with
  | Ok deadline => Ok (deadline <? now)
  | _ => Panicked
  end.

Definition remaining (s : SessionState) (now : Z) : outcome False Z :=
  match instant_add (epoch_anchor s) (deadline_ms_since_epoch s * NANOS_PER_MS) with
  | Ok deadline => Ok (Z.max 0 (deadline - now))
  | _ => Panicked
  end.

Definition set_progress (c : ChunkIndex) (s : SessionState) : SessionState :=
  mkSessionState (task s) c (recent_atomics s) (selector_cache s) (foreground_app_history s)
    (deadline_ms_since_epoch s) (session_start s) (epoch_anchor s).

Definition advance_chunk (s : SessionState) : SessionState :=
  set_progress (mkChunkIndex (Z.min (2 ^ 32 - 1) (current (scenario_progress s) + 1))
                  (total (scenario_progress s))) s.
Definition set_total_chunks (n : Z) (s : SessionState) : SessionState :=
  set_progress (mkChunkIndex (current (scenario_progress s)) n) s.

Definition has_structured_failures (s : SessionState) : bool :=
  existsb (λ r, is_structured_failure (result r)) (recent_atomics s).

Definition is_selector_miss (r : ActionResult) : bool :=
  match ar_code r with Some SelectorMiss => true | _ => false end.
Definition selector_miss_count (s : SessionState) : Z :=
  wrap 32 (Z.of_nat (length (filter (λ r, is_selector_miss (result r) = true) (recent_atomics s)))).

(** ** [SelectorCache], a borrowed session *)

Definition record_hit (sel : str) (s : SessionState) : SessionState := s.
Definition record_miss_from_result (sel : str) (r : ActionResult) (s : SessionState) :
    bool * SessionState :=
  if is_selector_miss r then invalidate_selector sel s else (false, s).
Definition record_miss (sel : str) (s : SessionState) : bool * SessionState :=
  invalidate_selector sel s.
Definition lookup (sel : str) (s : SessionState) : option ResolvedTarget := lookup_selector sel s.

(** ** Runs *)

Inductive SessionOp : Set :=
  | RecordAtomic (id : ActionId) (a : Action) (r : ActionResult) (now : Z)
  | CacheSelector (sel : str) (t : ResolvedTarget)
  | MissFromResult (sel : str) (r : ActionResult)
  | Miss (sel : str)
  | Hit (sel : str)
  | Foreground (app : ForegroundApp)
  | AdvanceChunk
  | TotalChunks (n : Z).

Definition session_op (s : SessionState) (op : SessionOp) : SessionState :=
  match op with
  | RecordAtomic id a r now => record_atomic id a r now s
  | CacheSelector sel t => cache_selector sel t s
  | MissFromResult sel r => (record_miss_from_result sel r s).2
  | Miss sel => (record_miss sel s).2
  | Hit sel => record_hit sel s
  | Foreground app => record_foreground_app app s
  | AdvanceChunk => advance_chunk s
  | TotalChunks n => set_total_chunks n s
  end.

(** The records of a run that starts at [start]. *)
Definition atomics (start : Z) (ops : list SessionOp) : list AtomicRecord :=
  omap (λ op, match op with
              | RecordAtomic id a r now => Some (mkAtomicRecord id a r (millis (Z.max 0 (now - start))))
              | _ => None
              end) ops.
Definition foregrounds (ops : list SessionOp) : list ForegroundApp :=
  omap (λ op, match op with Foreground app => Some app | _ => None end) ops.

(** Does the operation drop the entry of a selector? *)
Definition drops (sel : str) (op : SessionOp) : Prop :=
  op = Miss sel ∨ ∃ r, op = MissFromResult sel r ∧ is_selector_miss r = true.

(** What a run leaves cached for [sel]: the target cached last, unless it missed since. *)
Definition still_cached (sel : str) (t : ResolvedTarget) (ops : list SessionOp) : Prop :=
  ∃ l1 l2, ops = l1 ++ CacheSelector sel t :: l2 ∧
    Forall (λ op, ¬ drops sel op ∧ ∀ t', op ≠ CacheSelector sel t') l2.

(** The widths and bounds of a session. *)
Record session_wf (s : SessionState) : Prop := {
  wf_atomics : (length (recent_atomics s) ≤ MAX_RECENT_ATOMICS)%nat;
  wf_apps : (length (foreground_app_history s) ≤ MAX_FOREGROUND_HISTORY)%nat;
  wf_current : 0 ≤ current (scenario_progress s) < 2 ^ 32;
  wf_deadline : 0 ≤ deadline_ms_since_epoch s < 2 ^ 64;
  wf_stamps : Forall (λ r, 0 ≤ ts_ms r < 2 ^ 64) (recent_atomics s) }.

Lemma millis_range d : 0 ≤ millis d < 2 ^ 64.
Proof. unfold millis, wrap. by apply Z.mod_pos_bound. Qed.

Lemma Forall_bounded_push {A} (P : A → Prop) cap l x : Forall P l → P x → Forall P (bounded_push cap l x).
Proof.
  intros Hl Hx. unfold bounded_push. apply Forall_app. split; [|by constructor].
  destruct (_ <=? _)%nat; [|done]. destruct l; [done|]. by inversion Hl.
Qed.

Lemma session_op_wf s op : session_wf s → session_wf (session_op s op).
Proof.
  intros [Ha Hf Hc Hd Hs]. pose proof (length_bounded_push (A := AtomicRecord)) as La.
  pose proof (length_bounded_push (A := ForegroundApp)) as Lf.
  assert (0 < MAX_RECENT_ATOMICS)%nat as H20 by (unfold MAX_RECENT_ATOMICS; lia).
  assert (0 < MAX_FOREGROUND_HISTORY)%nat as H10 by (unfold MAX_FOREGROUND_HISTORY; lia).
  destruct op; cbn [session_op]; unfold record_miss_from_result, record_miss, invalidate_selector;
    try by split.
  - split; [by apply La|done..|]. apply Forall_bounded_push; [done|]. apply millis_range.
  - destruct (is_selector_miss r); by split.
  - split; [done|by apply Lf|done..].
  - split; [done|done|cbn; lia|done..].
Qed.

Lemma session_new_wf t now s : SessionState_new t now = Ok s → session_wf s.
Proof.
  unfold SessionState_new, instant_add. destruct (_ <=? _); intros [= <-].
  split; cbn; [lia|lia|lia|apply millis_range|done].
Qed.

Lemma still_cached_snoc sel t ops op :
  (still_cached sel t (ops ++ [op]) ↔
   op = CacheSelector sel t ∨
   still_cached sel t ops ∧ ¬ drops sel op ∧ ∀ t', op ≠ CacheSelector sel t').
Proof.
  split.
  - intros (l1 & l2 & E & Hf). destruct l2 as [|x l2 _] using rev_ind.
    + apply app_inj_tail in E as [_ ->]. by left.
    + rewrite (app_comm_cons l2 [x]), (assoc_L (++)) in E. apply app_inj_tail in E as [-> ->].
      apply Forall_app in Hf as [Hf Hx]. inversion Hx; subst. right. split; [|done]. by exists l1, l2.
  - intros [->|((l1 & l2 & -> & Hf) & Hop)].
    + by exists ops, [].
    + exists l1, (l2 ++ [op]). rewrite <-(assoc_L (++)). split; [done|].
      apply Forall_app. by split; [|constructor].
Qed.

(** One operation changes what is cached for a selector as the run's meaning does. *)
Lemma lookup_step s op ops :
  (∀ sel t, lookup sel s = Some t ↔ still_cached sel t ops) →
  ∀ sel t, lookup sel (session_op s op) = Some t ↔ still_cached sel t (ops ++ [op]).
Proof.
  intros Hc sel t. rewrite still_cached_snoc, <-Hc. unfold lookup, lookup_selector in *.
  assert (∀ sel0, drops sel op ↔ sel = sel0 →
    delete sel0 (selector_cache s) !! sel = Some t ↔ selector_cache s !! sel = Some t ∧ ¬ drops sel op) as Hdel.
  { intros sel0 ->. rewrite lookup_delete_Some. split; intros [? ?]; split; congruence || done. }
  destruct op as [id a r now|sel0 t0|sel0 r|sel0|sel0|app| |n]; cbn.
  2:{ rewrite lookup_insert_Some. split.
      - intros [[-> ->]|[Hne Hs]]; [by left|right]. split; [done|].
        split; [intros [?|(? & ? & _)]; done|]. intros t' [= -> ->]. done.
      - intros [[= -> ->]|(Hs & _ & Hn)]; [by left|right]. split; [|done]. intros ->. by destruct (Hn t0). }
  2:{ unfold record_miss_from_result. destruct (is_selector_miss r) eqn:Em; cbn.
      - rewrite (Hdel sel0). 2:{ unfold drops. split; [intros [?|(? & [= -> ->] & _)]; done|].
          intros ->. right. by exists r. }
        split; [intros [? ?]; right; by split_and!|by intros [?|(? & ? & _)]].
      - split; [|by intros [?|(? & _)]]. intros Hs. right. split; [done|].
        split; [|done]. intros [?|(? & [= -> ->] & ?)]; congruence. }
  2:{ rewrite (Hdel sel0). 2:{ unfold drops. split; [intros [[= ->]|(? & ? & _)]; done|]. intros ->. by left. }
      split; [intros [? ?]; right; by split_and!|by intros [?|(? & ? & _)]]. }
  all: (split; [|by intros [?|(? & _)]]); intros Hs; right; (split; [done|]); (split; [|done]);
    by intros [?|(? & ? & _)].
Qed.

(** C34: the working memory of a task.  A new session, and any sequence of operations on it,
    stays within its bounds and widths; it holds the last 20 atomic records with their
    times and the last 10 foreground apps, in order; it finds for a selector exactly the
    target cached last, unless the selector missed since; its task, and its deadline, are
    those it was made with. *)
Theorem session_remembers (t : TaskSpec) (start : Z) (s0 : SessionState) (ops : list SessionOp)
    (Hnew : SessionState_new t start = Ok s0) :
  let s := foldl session_op s0 ops in
  session_wf s ∧
  recent_atomics s = lastn MAX_RECENT_ATOMICS (atomics start ops) ∧
  foreground_app_history s = lastn MAX_FOREGROUND_HISTORY (foregrounds ops) ∧
  (∀ sel target, lookup sel s = Some target ↔ still_cached sel target ops) ∧
  task s = t ∧ deadline_ms_since_epoch s = deadline_ms_since_epoch s0 ∧ epoch_anchor s = start.
Proof.
  cbn zeta. pose proof (session_new_wf t start s0 Hnew) as Hwf0.
  unfold SessionState_new, instant_add in Hnew. destruct (_ <=? _); [done|]. injection Hnew as <-.
  set (s0 := mkSessionState _ _ _ _ _ _ _ _) in *.
  assert (session_start (foldl session_op s0 ops) = start ∧
          session_wf (foldl session_op s0 ops) ∧
          keeps_last MAX_RECENT_ATOMICS (atomics start ops) (recent_atomics (foldl session_op s0 ops)) ∧
          keeps_last MAX_FOREGROUND_HISTORY (foregrounds ops) (foreground_app_history (foldl session_op s0 ops)) ∧
          (∀ sel target, lookup sel (foldl session_op s0 ops) = Some target ↔ still_cached sel target ops) ∧
          task (foldl session_op s0 ops) = t ∧
          deadline_ms_since_epoch (foldl session_op s0 ops) = deadline_ms_since_epoch s0 ∧
          epoch_anchor (foldl session_op s0 ops) = start) as (_ & Hs); [|exact Hs].
  induction ops as [|op ops IH] using rev_ind.
  { split_and!; try done. intros sel target. unfold lookup, lookup_selector, s0. cbn [foldl selector_cache].
    rewrite lookup_empty. split; [done|]. by intros ([|] & l2 & E & _). }
  rewrite foldl_snoc. set (s := foldl session_op s0 ops) in *.
  destruct IH as (Hst & Hwf & Ha & Hf & Hc & Ht & Hd & He).
  split; [by destruct op; cbn; unfold record_miss_from_result; try destruct (is_selector_miss _)|].
  split; [by apply session_op_wf|].
  unfold atomics, foregrounds in *. rewrite !omap_app.
  split; [destruct op; cbn; rewrite ?app_nil_r;
          (by rewrite Hst; apply keeps_last_push; [unfold MAX_RECENT_ATOMICS; lia|]) ||
          unfold record_miss_from_result; by try destruct (is_selector_miss _)|].
  split; [destruct op; cbn; rewrite ?app_nil_r;
          (by apply keeps_last_push; [unfold MAX_FOREGROUND_HISTORY; lia|]) ||
          unfold record_miss_from_result; by try destruct (is_selector_miss _)|].
  split; [by apply lookup_step|].
  by destruct op; cbn; unfold record_miss_from_result; try destruct (is_selector_miss _).
Qed.

Definition login_task : TaskSpec := mkTaskSpec (ascii_bytes "log in") (Some (7 * NANOS_PER_MS + 5)) [].
Definition ok_button : ResolvedTarget := mkResolvedTarget (ascii_bytes "#ok") 4 (1, 2, 3, 4).

Lemma session_remembers_witness :
  ∃ s0, SessionState_new login_task 100 = Ok s0 ∧ deadline_ms_since_epoch s0 = 7 ∧
    lookup (ascii_bytes "#ok")
      (foldl session_op s0 [Miss (ascii_bytes "#ok"); CacheSelector (ascii_bytes "#ok") ok_button; AdvanceChunk])
    = Some ok_button.
Proof.
  eexists. split; [vm_compute; reflexivity|]. split; [reflexivity|].
  apply (session_remembers login_task 100); [vm_compute; reflexivity|].
  exists [Miss (ascii_bytes "#ok")], [AdvanceChunk]. split; [reflexivity|].
  constructor; [|constructor]. split; [|discriminate]. intros [E|(r & E & _)]; discriminate.
Defined.

(** The deadline, rounded down to a millisecond, is the last instant that is not expired,
    and the first with nothing remaining. *)
Lemma session_expiry t start s now :
  SessionState_new t start = Ok s → 0 ≤ default DEFAULT_DEADLINE (timeout t) < 2 ^ 64 * NANOS_PER_MS →
  let deadline := start + default DEFAULT_DEADLINE (timeout t) / NANOS_PER_MS * NANOS_PER_MS in
  is_expired s now = Ok (bool_decide (deadline < now)) ∧
  remaining s now = Ok (Z.max 0 (deadline - now)).
Proof.
  unfold SessionState_new, instant_add. set (d := default _ _).
  destruct (Z.leb_spec INSTANT_LIMIT (start + d)) as [?|Hl]; intros [= <-] Hd. cbn zeta.
  unfold is_expired, remaining, instant_add. cbn [epoch_anchor deadline_ms_since_epoch].
  replace (start + d - start) with d by lia. unfold millis.
  assert (d / NANOS_PER_MS * NANOS_PER_MS ≤ d) as Hle.
  { pose proof (Z.mul_div_le d NANOS_PER_MS). unfold NANOS_PER_MS in *. lia. }
  assert (0 ≤ d / NANOS_PER_MS < 2 ^ 64) as Hr.
  { split; [apply Z.div_pos; [lia|done]|]. apply Z.div_lt_upper_bound; [done|lia]. }
  rewrite wrap_small by exact Hr.
  destruct (Z.leb_spec INSTANT_LIMIT (start + d / NANOS_PER_MS * NANOS_PER_MS)); [lia|].
  split; [|done]. f_equal.
  destruct (Z.ltb_spec (start + d / NANOS_PER_MS * NANOS_PER_MS) now);
    [by rewrite bool_decide_true|rewrite bool_decide_false; [done|lia]].
Qed.
