(* ===== verification/Egress.v ===== *)
(** * What may leave the device ([ai-device-kernel/src/egress.rs])

    [filter] clears the fields of an observation that a policy does not allow.  What leaves
    is stated field by field and as non-interference: two observations look the same from
    outside exactly when they agree on the allowed fields. *)

From S2P Require Import Prelude Words Utf8 Float32 KernelTypes.
Local Open Scope Z_scope.

Record EgressPolicy : Set := mkPolicy
  { allow_text : bool; allow_snapshot : bool; allow_history : bool }.

Definition EgressPolicy_default : EgressPolicy := mkPolicy true true false.
Definition DENY_ALL : EgressPolicy := mkPolicy false false false.

Definition is_lifecycle (ev : DeviceEvent) : bool :=
  match ev with De_Uptime _ | De_ConfigurationChanged => true | _ => false end.
Definition strip_lifecycle_events (evs : list DeviceEvent) : list DeviceEvent :=
  List.filter (λ ev, negb (is_lifecycle ev)) evs.

Definition without_png (f : FrameSnapshot) : FrameSnapshot :=
  mkFrameSnapshot (fs_width f) (fs_height f) (fs_codec f) (fs_is_keyframe f) (fs_pts f)
    (fs_scene_change_score f) None.

Definition egress_filter (p : EgressPolicy) (o : Observation) : Observation :=
  let evs := if negb (allow_history p) then [] else strip_lifecycle_events (events o) in
  mkObservation (seq o) (timestamp_ms o)
    (if negb (allow_text p) then None else a11y o)
    (if negb (allow_snapshot p) then without_png <$> frame o else frame o)
    (state o) evs
    (if negb (allow_text p) then None else foreground_app o).

Definition filter_clone (p : EgressPolicy) (o : Observation) : Observation := egress_filter p o.

Definition is_deny_all (p : EgressPolicy) : bool :=
  negb (allow_text p) && negb (allow_snapshot p) && negb (allow_history p).

Definition package_only (app : option ForegroundApp) : option ForegroundApp :=
  (λ a, mkForegroundApp (package a) [] (focused a) (since_ms a)) <$> app.

(** ** Non-interference *)

(** The events that may leave: what the apps and the user did, not the device's own
    life cycle. *)
Definition may_leave (ev : DeviceEvent) : Prop :=
  (∀ up, ev ≠ De_Uptime up) ∧ ev ≠ De_ConfigurationChanged.

#[export] Instance may_leave_dec ev : Decision (may_leave ev).
Proof.
  destruct ev; first [left; split; discriminate|right; intros [Hup Hconf]; first [exact (Hup _ eq_refl)|exact (Hconf eq_refl)]].
Defined.

(** The allowed fields of [o] are in [o'] unaltered, the others are empty there. *)
Definition lets_out (p : EgressPolicy) (o o' : Observation) : Prop :=
  seq o' = seq o ∧ timestamp_ms o' = timestamp_ms o ∧ state o' = state o ∧
  (if allow_text p then a11y o' = a11y o ∧ foreground_app o' = foreground_app o
   else a11y o' = None ∧ foreground_app o' = None) ∧
  (if allow_snapshot p then frame o' = frame o
   else (without_png <$> frame o') = (without_png <$> frame o) ∧ (frame o' ≫= fs_png) = None) ∧
  events o' = (if allow_history p then filter may_leave (events o) else []).

(** Two observations agree on all that a policy lets out. *)
Definition agree (p : EgressPolicy) (o1 o2 : Observation) : Prop :=
  seq o1 = seq o2 ∧ timestamp_ms o1 = timestamp_ms o2 ∧ state o1 = state o2 ∧
  (allow_text p = true → a11y o1 = a11y o2 ∧ foreground_app o1 = foreground_app o2) ∧
  (without_png <$> frame o1) = (without_png <$> frame o2) ∧
  (allow_snapshot p = true → (frame o1 ≫= fs_png) = (frame o2 ≫= fs_png)) ∧
  (allow_history p = true →
   filter may_leave (events o1) = filter may_leave (events o2)).

(** What a policy allows, another does too. *)
Definition allows_less (p q : EgressPolicy) : Prop :=
  (allow_text p → allow_text q) ∧ (allow_snapshot p → allow_snapshot q) ∧
  (allow_history p → allow_history q).

Lemma strip_filter evs : strip_lifecycle_events evs = filter may_leave evs.
Proof.
  induction evs as [|ev evs IH]; [done|]. rewrite filter_cons, <-IH.
  unfold strip_lifecycle_events. cbn [List.filter]. destruct ev; cbn [is_lifecycle negb]; case_decide as Hd;
    first [done|destruct (proj1 Hd _ eq_refl)|destruct (proj2 Hd eq_refl)|by destruct Hd; split].
Qed.

Lemma filter_lets_out p o : lets_out p o (filter_clone p o).
Proof.
  unfold lets_out, filter_clone, egress_filter. cbn.
  destruct (allow_text p), (allow_snapshot p), (allow_history p); cbn;
    rewrite ?strip_filter; split_and!; try done; by destruct (frame o) as [[]|].
Qed.

Lemma strip_idempotent evs :
  strip_lifecycle_events (strip_lifecycle_events evs) = strip_lifecycle_events evs.
Proof.
  unfold strip_lifecycle_events. induction evs as [|ev evs IH]; [done|].
  cbn. destruct (negb (is_lifecycle ev)) eqn:E; cbn; rewrite ?E, IH; done.
Qed.

Lemma frame_split (f1 f2 : option FrameSnapshot) :
  (without_png <$> f1) = (without_png <$> f2) → (f1 ≫= fs_png) = (f2 ≫= fs_png) → f1 = f2.
Proof.
  destruct f1 as [[]|], f2 as [[]|]; cbn; try done. intros [= -> -> -> -> -> ->] ->. done.
Qed.

(** Filtering with a stricter policy first or second is filtering with it alone. *)
Lemma filter_stricter p q o :
  allows_less p q →
  egress_filter p (egress_filter q o) = egress_filter p o ∧
  egress_filter q (egress_filter p o) = egress_filter p o.
Proof.
  destruct p as [[] [] []], q as [[] [] []]; intros (H1 & H2 & H3); cbn in *; try tauto;
    unfold egress_filter; cbn; rewrite ?strip_idempotent; (split; [|]); f_equal;
    destruct (frame o) as [[]|]; done.
Qed.

(** C27: the egress filter lets out what its policy allows and nothing else.  The allowed
    fields leave unaltered and the others empty - of an allowed history every event but
    [Uptime] and [ConfigurationChanged], in order; two observations are indistinguishable
    behind the filter exactly when they agree on that - a denied text, snapshot or history
    has no influence - and filtering again, with the policy or with a laxer one, changes
    nothing.  The sequence number, the time, the device state and the frame's metadata
    leave under every policy. *)
Theorem egress_noninterference (p : EgressPolicy) (o1 o2 : Observation) :
  lets_out p o1 (filter_clone p o1) ∧
  (filter_clone p o1 = filter_clone p o2 ↔ agree p o1 o2) ∧
  (∀ q, allows_less p q → egress_filter q (egress_filter p o1) = egress_filter p o1).
Proof.
  split; [apply filter_lets_out|]. split; [|intros q Hq; by apply filter_stricter].
  unfold filter_clone, egress_filter, agree. rewrite <-!strip_filter. split.
  - intros E. injection E as Es Et Ea Ef Est Ee Eg.
    split_and!; [done|done|done| | | |]; destruct (allow_text p), (allow_snapshot p), (allow_history p);
      cbn in *; try done; by rewrite ?Ef.
  - intros (-> & -> & -> & Ht & Hf & Hs & Hh).
    destruct (allow_text p), (allow_snapshot p), (allow_history p); cbn;
      try destruct (Ht eq_refl) as [-> ->]; try rewrite (Hh eq_refl); f_equal;
      try done; by apply frame_split; auto.
Qed.
