(* ===== verification/ChunkPlanner.v ===== *)
(** * Cutting plans into chunks ([ai-device-kernel/src/chunk_planner.rs]) *)

From S2P Require Import Prelude Words KernelTypes.
Local Open Scope Z_scope.

Definition MAX_CHUNK_SIZE : nat := 4.

Inductive ChunkError : Set :=
  | TooLarge (count max : nat)
  | MissingObserve
  | Empty.

Record Chunk : Set := mkChunk { ch_index : Z; ch_total : Z; ch_steps : list PlanStep }.

(** The loop takes at least one atomic each time: [total_atomics] turns are enough. *)
Fixpoint chunk_sizes (fuel : nat) (remaining : nat) : list nat :=
  match fuel with
  | O => []
  | S fuel =>
      if (0 <? remaining)%nat then
        let take := (remaining `min` MAX_CHUNK_SIZE)%nat in
        take :: chunk_sizes fuel (remaining - take)
      else []
  end.
Definition plan_chunk_size (total_atomics : nat) : list nat :=
  if (total_atomics =? 0)%nat then [] else chunk_sizes total_atomics total_atomics.

Definition is_observe_action (a : Action) : bool :=
  match a with Act_DumpObservation _ _ => true | _ => false end.

Definition validate_chunk (chunk : list PlanStep) : outcome ChunkError unit :=
  if is_nil chunk then Err Empty
  else if (MAX_CHUNK_SIZE <? length chunk)%nat then Err (TooLarge (length chunk) MAX_CHUNK_SIZE)
  else match last chunk with
       | None => Panicked
       | Some s => if is_observe_action (action s) then Ok tt else Err MissingObserve
       end.

Definition ends_with_observe (steps : list PlanStep) : bool :=
  match last steps with Some s => is_observe_action (action s) | None => false end.

(** The slice [&steps[offset..offset + n]] unwinds out of range. *)
Fixpoint cut (steps : list PlanStep) (total : Z) (i offset : nat) (sizes : list nat) :
    outcome ChunkError (list Chunk) :=
  match sizes with
  | [] => Ok []
  | n :: sizes =>
      if (length steps <? offset + n)%nat then Panicked
      else match cut steps total (S i) (offset + n) sizes with
           | Ok rest => Ok (mkChunk (wrap 32 (Z.of_nat i)) total (take n (drop offset steps)) :: rest)
           | o => o
           end
  end.

Definition observe_step : PlanStep := PlanStep_new (Act_DumpObservation [] 100).

Definition split_into_chunks (plan : Plan) : outcome ChunkError (list Chunk) :=
  if is_nil (steps plan) then Ok []
  else
    let all := if ends_with_observe (steps plan) then steps plan else steps plan ++ [observe_step] in
    let sizes := plan_chunk_size (length all) in
    cut all (wrap 32 (Z.of_nat (length sizes))) 0 0 sizes.

(** ** Sizes *)

(** [sizes] cuts [n]: full chunks, and a last one that is not empty. *)
Inductive cuts : nat → list nat → Prop :=
  | cuts_none : cuts 0 []
  | cuts_last n : (0 < n ≤ MAX_CHUNK_SIZE)%nat → cuts n [n]
  | cuts_more n ns : (0 < n)%nat → cuts n ns → cuts (MAX_CHUNK_SIZE + n) (MAX_CHUNK_SIZE :: ns).

Lemma chunk_sizes_cuts fuel n : (n ≤ fuel)%nat → cuts n (chunk_sizes fuel n).
Proof.
  revert n. induction fuel as [|fuel IH]; intros n Hn.
  { assert (n = 0)%nat as -> by lia. constructor. }
  cbn [chunk_sizes]. destruct (Nat.ltb_spec 0 n) as [Hp|]; [|assert (n = 0)%nat as -> by lia; constructor].
  destruct (decide (n ≤ MAX_CHUNK_SIZE)%nat) as [Hs|Hs]; unfold MAX_CHUNK_SIZE in *.
  - rewrite Nat.min_l by done. rewrite Nat.sub_diag. destruct fuel; by constructor.
  - rewrite Nat.min_r by lia. replace n with (MAX_CHUNK_SIZE + (n - 4))%nat at 1 by (unfold MAX_CHUNK_SIZE; lia).
    apply cuts_more; [lia|]. apply IH. lia.
Qed.

Lemma plan_chunk_size_cuts n : cuts n (plan_chunk_size n).
Proof.
  unfold plan_chunk_size. destruct (Nat.eqb_spec n 0) as [->|_]; [constructor|].
  by apply chunk_sizes_cuts.
Qed.

Lemma cuts_sum n ns : cuts n ns → sum_list ns = n.
Proof. induction 1; cbn; lia. Qed.

Lemma cuts_bounds n ns : cuts n ns → Forall (λ k, (0 < k ≤ MAX_CHUNK_SIZE)%nat) ns.
Proof. induction 1; constructor; try done; unfold MAX_CHUNK_SIZE; lia. Qed.

(** ** Chunks *)

(** The steps a plan is cut into: its own, ended by an observe step. *)
Definition chunked_steps (plan : Plan) : list PlanStep :=
  match steps plan with
  | [] => []
  | ss => if ends_with_observe ss then ss else ss ++ [observe_step]
  end.

Lemma cut_spec steps total i offset sizes :
  (offset + sum_list sizes = length steps)%nat →
  ∃ cs, cut steps total i offset sizes = Ok cs ∧
    mjoin (ch_steps <$> cs) = drop offset steps ∧
    ((λ c, length (ch_steps c)) <$> cs) = sizes ∧
    ((λ c, (ch_index c, ch_total c)) <$> cs) = imap (λ j _, (wrap 32 (Z.of_nat (i + j)), total)) sizes.
Proof.
  revert i offset. induction sizes as [|n sizes IH]; intros i offset Hs; cbn in Hs.
  { exists []. by rewrite drop_ge by lia. }
  destruct (IH (S i) (offset + n)%nat ltac:(lia)) as (cs & E & Hj & Hl & Hi).
  cbn [cut]. destruct (Nat.ltb_spec (length steps) (offset + n)); [lia|]. rewrite E.
  eexists. split; [done|]. rewrite !fmap_cons, Hl, Hi. split_and!; cbn [ch_steps ch_index ch_total].
  - change (take n (drop offset steps) ++ mjoin (ch_steps <$> cs) = drop offset steps).
    rewrite Hj, <-drop_drop. apply take_drop.
  - f_equal. rewrite length_take, length_drop. lia.
  - cbn. rewrite Nat.add_0_r. f_equal. apply imap_ext. intros j x _. cbn. by rewrite Nat.add_succ_r.
Qed.

Lemma ends_chunked plan : steps plan ≠ [] → ends_with_observe (chunked_steps plan) = true.
Proof.
  intros Hne. unfold chunked_steps. destruct (steps plan) as [|s ss]; [done|].
  destruct (ends_with_observe (s :: ss)) eqn:E; [done|]. unfold ends_with_observe. by rewrite last_snoc.
Qed.

Lemma chunked_length plan : (length (steps plan) ≤ length (chunked_steps plan))%nat.
Proof.
  unfold chunked_steps. destruct (steps plan); [done|]. destruct (ends_with_observe _); [done|].
  rewrite length_app. cbn. lia.
Qed.

Lemma split_run plan :
  split_into_chunks plan =
  cut (chunked_steps plan) (wrap 32 (Z.of_nat (length (plan_chunk_size (length (chunked_steps plan))))))
    0 0 (plan_chunk_size (length (chunked_steps plan))).
Proof. unfold split_into_chunks, chunked_steps. destruct (steps plan); [done|]. by destruct (ends_with_observe _). Qed.

(** What [validate_chunk] checks. *)
Lemma validate_chunk_ok c :
  validate_chunk c = Ok tt ↔ (length c ≤ MAX_CHUNK_SIZE)%nat ∧ ends_with_observe c = true.
Proof.
  unfold validate_chunk, ends_with_observe. destruct c as [|s c]; [by split; [|intros [_ ?]]|].
  cbn [is_nil]. destruct (Nat.ltb_spec MAX_CHUNK_SIZE (length (s :: c))); [by split; [|lia]|].
  destruct (last (s :: c)) as [l|]; [|by split; [|intros [_ ?]]].
  destruct (is_observe_action _); (split; [by intros|by intros [_ ?]]).
Qed.

Lemma ends_with_observe_app l c :
  c ≠ [] → ends_with_observe (l ++ c) = ends_with_observe c.
Proof.
  intros Hc. unfold ends_with_observe. rewrite last_app. destruct c as [|x c]; [done|].
  destruct (last (x :: c)) eqn:E; [done|]. by apply last_None in E.
Qed.

(** Chunks.  A plan is cut without a panic into chunks that are, end to end, its steps
    and - unless it ends with an observe step - one observe step more; an empty plan has
    none.  All chunks but the last have four steps, the last has one to four and passes
    [validate_chunk]; they are numbered from 0, with their number.  A chunk passes
    [validate_chunk] exactly when it ends with an observe step, which the chunks before the
    last are not made to. *)
Theorem split_into_chunks_covers (plan : Plan) :
  ∃ cs, split_into_chunks plan = Ok cs ∧
    mjoin (ch_steps <$> cs) = chunked_steps plan ∧
    cuts (length (chunked_steps plan)) ((λ c, length (ch_steps c)) <$> cs) ∧
    ((λ c, (ch_index c, ch_total c)) <$> cs) =
      imap (λ j _, (wrap 32 (Z.of_nat j), wrap 32 (Z.of_nat (length cs)))) cs ∧
    (∀ c, last cs = Some c → validate_chunk (ch_steps c) = Ok tt) ∧
    ∀ c, c ∈ cs → (validate_chunk (ch_steps c) = Ok tt ↔ ends_with_observe (ch_steps c) = true).
Proof.
  set (sizes := plan_chunk_size (length (chunked_steps plan))).
  pose proof (plan_chunk_size_cuts (length (chunked_steps plan))) as Hcuts. fold sizes in Hcuts.
  destruct (cut_spec (chunked_steps plan) (wrap 32 (Z.of_nat (length sizes))) 0 0 sizes) as (cs & E & Hj & Hl & Hi).
  { by rewrite (cuts_sum _ _ Hcuts). }
  rewrite drop_0 in Hj.
  assert (length sizes = length cs) as Hlen by (rewrite <-Hl; by rewrite length_fmap).
  assert (∀ c, c ∈ cs → (0 < length (ch_steps c) ≤ MAX_CHUNK_SIZE)%nat) as Hsz.
  { apply (cuts_bounds _ _) in Hcuts. rewrite <-Hl in Hcuts. rewrite Forall_fmap, Forall_forall in Hcuts.
    exact Hcuts. }
  exists cs. rewrite split_run. fold sizes. split_and!; [done|done|by rewrite Hl| | |].
  - rewrite Hi, Hlen, <-Hl. by rewrite imap_fmap.
  - intros c Hc. apply validate_chunk_ok. pose proof Hc as [cs' ->]%last_Some.
    assert (c ∈ cs' ++ [c]) as Hin by (apply elem_of_app; right; by apply list_elem_of_singleton).
    pose proof (Hsz c Hin) as Hb. split; [lia|].
    rewrite fmap_app, join_app in Hj. cbn in Hj. rewrite app_nil_r in Hj.
    rewrite <-(ends_with_observe_app (mjoin (ch_steps <$> cs'))) by (intros E'; rewrite E' in Hb; cbn in Hb; lia).
    rewrite Hj. apply ends_chunked. intros En. unfold chunked_steps in Hj. rewrite En in Hj.
    apply app_nil in Hj as [_ Hn]. rewrite Hn in Hb. cbn in Hb. lia.
  - intros c Hc. rewrite validate_chunk_ok. pose proof (Hsz c Hc). split; [by intros [_ ?]|by split; [lia|]].
Qed.
