(* ===== verification/Memory.v ===== *)
(** * What worked on a screen before ([ai-device-kernel/src/memory.rs])

    A cache from screen fingerprints to the actions tried there, with an LRU list: the
    source keeps a [HashMap] and a [VecDeque] side by side.  The specification is one list
    of entries in order of use, and the cache refines it. *)

From stdpp Require Import gmap.
From S2P Require Import Prelude Words Utf8 Float32 KernelTypes Bounded.
Local Open Scope Z_scope.

Record ActionSequence : Set := mkSequence { successes : list Action; failures : list (Action * string) }.
Definition ActionSequence_default : ActionSequence := mkSequence [] [].
Definition attempt_count (s : ActionSequence) : nat := length (successes s) + length (failures s).

Record Memory : Set := mkMemory
  { entries : gmap ScreenId ActionSequence; lru : list ScreenId; hit_count : Z; miss_count : Z }.

Definition MAX_ENTRIES : nat := 1024.
Definition Memory_new : Memory := mkMemory ∅ [] 0 0.

Definition memory_len (m : Memory) : nat := size (entries m).
Definition memory_is_empty (m : Memory) : bool := bool_decide (entries m = ∅).

(** [position] and [remove] take out the first occurrence only. *)
Fixpoint remove_first (id : ScreenId) (l : list ScreenId) : list ScreenId :=
  match l with
  | [] => []
  | x :: l => if decide (x = id) then l else x :: remove_first id l
  end.

Definition touch_lru (id : ScreenId) (m : Memory) : Memory :=
  mkMemory (entries m) (remove_first id (lru m) ++ [id]) (hit_count m) (miss_count m).

Definition memory_lookup (id : ScreenId) (m : Memory) : option ActionSequence * Memory :=
  if is_some (entries m !! id) then
    let m := touch_lru id (mkMemory (entries m) (lru m) (wrap 64 (hit_count m + 1)) (miss_count m)) in
    (entries m !! id, m)
  else (None, mkMemory (entries m) (lru m) (hit_count m) (wrap 64 (miss_count m + 1))).

Definition peek (id : ScreenId) (m : Memory) : option ActionSequence := entries m !! id.

(** The inner loop: victims that have no entry are skipped. *)
Fixpoint pop_victim (es : gmap ScreenId ActionSequence) (l : list ScreenId) :
    gmap ScreenId ActionSequence * list ScreenId :=
  match l with
  | [] => (es, [])
  | victim :: l => if is_some (es !! victim) then (delete victim es, l) else pop_victim es l
  end.

(** The outer loop.  Each turn removes an entry or is the last: as many turns as there are
    entries are enough. *)
Fixpoint evict (fuel : nat) (es : gmap ScreenId ActionSequence) (l : list ScreenId) :
    gmap ScreenId ActionSequence * list ScreenId :=
  match fuel with
  | O => (es, l)
  | S fuel =>
      if (MAX_ENTRIES <? size es)%nat then
        let '(es, l) := pop_victim es l in
        if (MAX_ENTRIES <? size es)%nat && is_nil l then (es, l) else evict fuel es l
      else (es, l)
  end.

Definition maybe_evict (m : Memory) : Memory :=
  let '(es, l) := evict (size (entries m)) (entries m) (lru m) in
  mkMemory es l (hit_count m) (miss_count m).

(** [entry(id).or_default()], changed by [f]; then both record methods alike. *)
Definition record_entry (id : ScreenId) (f : ActionSequence → ActionSequence) (m : Memory) : Memory :=
  let entry := default ActionSequence_default (entries m !! id) in
  maybe_evict (touch_lru id (mkMemory (<[id := f entry]> (entries m)) (lru m) (hit_count m) (miss_count m))).

Definition record_success (id : ScreenId) (a : Action) : Memory → Memory :=
  record_entry id (λ e, mkSequence (successes e ++ [a]) (failures e)).
Definition record_failure (id : ScreenId) (a : Action) (reason : string) : Memory → Memory :=
  record_entry id (λ e, mkSequence (successes e) (failures e ++ [(a, reason)])).

Definition reset_metrics (m : Memory) : Memory := mkMemory (entries m) (lru m) 0 0.

(** [as f32 / as f32] *)
Definition hit_rate (m : Memory) : option f32 :=
  let total := wrap 64 (hit_count m + miss_count m) in
  if total =? 0 then None else Some (fdiv (f32_of_Z (hit_count m)) (f32_of_Z total)).

(** A [ScreenId] is 16 bytes. *)
Definition memory_bytes (m : Memory) : Z :=
  Z.of_nat (size (entries m)) * 256 + Z.of_nat (length (lru m)) * 16.

(** ** The specification: one list, in order of use *)

Abbreviation uses := (list (ScreenId * ActionSequence)) (only parsing).

Fixpoint used (id : ScreenId) (l : uses) : option ActionSequence :=
  match l with
  | [] => None
  | (x, e) :: l => if decide (x = id) then Some e else used id l
  end.
Definition forget (id : ScreenId) (l : uses) : uses := filter (λ p, p.1 ≠ id) l.
Definition use_again (id : ScreenId) (e : ActionSequence) (l : uses) : uses := forget id l ++ [(id, e)].

(** The cache, and how many lookups hit and missed since the metrics were reset. *)
Record Lru : Set := mkLru { recent : uses; hits : Z; misses : Z }.

Inductive MemoryOp : Set :=
  | Lookup (id : ScreenId)
  | RecordSuccess (id : ScreenId) (a : Action)
  | RecordFailure (id : ScreenId) (a : Action) (reason : string)
  | ResetMetrics.

(** A record goes to the end of the list, from which the oldest entry drops. *)
Definition lru_record (id : ScreenId) (f : ActionSequence → ActionSequence) (s : Lru) : Lru :=
  mkLru (lastn MAX_ENTRIES (use_again id (f (default ActionSequence_default (used id (recent s)))) (recent s)))
    (hits s) (misses s).

Definition lru_op (op : MemoryOp) (s : Lru) : option ActionSequence * Lru :=
  match op with
  | Lookup id =>
      match used id (recent s) with
      | Some e => (Some e, mkLru (use_again id e (recent s)) (hits s + 1) (misses s))
      | None => (None, mkLru (recent s) (hits s) (misses s + 1))
      end
  | RecordSuccess id a => (None, lru_record id (λ e, mkSequence (successes e ++ [a]) (failures e)) s)
  | RecordFailure id a why =>
      (None, lru_record id (λ e, mkSequence (successes e) (failures e ++ [(a, why)])) s)
  | ResetMetrics => (None, mkLru (recent s) 0 0)
  end.

Definition memory_op (op : MemoryOp) (m : Memory) : option ActionSequence * Memory :=
  match op with
  | Lookup id => memory_lookup id m
  | RecordSuccess id a => (None, record_success id a m)
  | RecordFailure id a why => (None, record_failure id a why m)
  | ResetMetrics => (None, reset_metrics m)
  end.

(** The source's pair of a map and a list stands for the list of entries. *)
Record refines (m : Memory) (s : Lru) : Prop := {
  ref_entries : entries m = list_to_map (recent s);
  ref_lru : lru m = (recent s).*1;
  ref_nodup : NoDup (recent s).*1;
  ref_cap : (length (recent s) ≤ MAX_ENTRIES)%nat;
  ref_hits : hit_count m = wrap 64 (hits s);
  ref_misses : miss_count m = wrap 64 (misses s) }.

Lemma used_lookup (l : uses) id : (list_to_map l : gmap ScreenId ActionSequence) !! id = used id l.
Proof.
  induction l as [|[x e] l IH]; cbn; [apply lookup_empty|].
  destruct (decide (x = id)) as [->|Hne]; [apply lookup_insert_eq|]. by rewrite lookup_insert_ne.
Qed.

Lemma forget_cons (l : uses) id x e :
  forget id ((x, e) :: l) = if decide (x = id) then forget id l else (x, e) :: forget id l.
Proof.
  unfold forget. destruct (decide (x = id)) as [->|Hne].
  - by rewrite filter_cons_False by (cbn; tauto).
  - by rewrite filter_cons_True by done.
Qed.

Lemma forget_absent (l : uses) id : id ∉ l.*1 → forget id l = l.
Proof.
  induction l as [|[x e] l IH]; [done|]. cbn [fmap list_fmap fst]. intros [Hx Hl]%not_elem_of_cons.
  rewrite forget_cons, decide_False by done. by rewrite IH.
Qed.

Lemma remove_first_forget (l : uses) id : NoDup l.*1 → remove_first id l.*1 = (forget id l).*1.
Proof.
  induction l as [|[x e] l IH]; [done|]. cbn [fmap list_fmap fst remove_first].
  intros [Hx Hl]%NoDup_cons. rewrite forget_cons. destruct (decide (x = id)) as [->|Hne].
  - by rewrite forget_absent.
  - by rewrite IH.
Qed.

Lemma forget_fresh (l : uses) id : id ∉ (forget id l).*1.
Proof.
  intros ([x e] & -> & Hin)%list_elem_of_fmap. unfold forget in Hin.
  by apply list_elem_of_filter in Hin as [? _].
Qed.

Lemma forget_nodup (l : uses) id : NoDup l.*1 → NoDup (forget id l).*1.
Proof.
  induction l as [|[x e] l IH]; [done|]. cbn [fmap list_fmap fst]. intros [Hx Hl]%NoDup_cons.
  rewrite forget_cons. destruct (decide (x = id)) as [->|Hne]; [by apply IH|].
  cbn. constructor; [|by apply IH]. intros ([y f] & -> & Hin)%list_elem_of_fmap.
  apply Hx. apply list_elem_of_filter in Hin as [_ Hin]. apply list_elem_of_fmap. by exists (y, f).
Qed.

Lemma use_again_nodup (l : uses) id e : NoDup l.*1 → NoDup (use_again id e l).*1.
Proof.
  intros Hl. unfold use_again. rewrite fmap_app. apply NoDup_app. split_and!.
  - by apply forget_nodup.
  - intros x Hx ->%list_elem_of_singleton. by apply (forget_fresh l id).
  - apply NoDup_singleton.
Qed.

Lemma list_to_map_forget (l : uses) id :
  list_to_map (forget id l) = (delete id (list_to_map l) : gmap ScreenId ActionSequence).
Proof.
  induction l as [|[x e] l IH]; [symmetry; apply delete_empty|]. rewrite forget_cons. cbn.
  destruct (decide (x = id)) as [->|Hne].
  - by rewrite delete_insert_eq.
  - cbn. by rewrite delete_insert_ne, IH.
Qed.

Lemma list_to_map_use_again (l : uses) id e :
  NoDup l.*1 →
  list_to_map (use_again id e l) = (<[id := e]> (list_to_map l) : gmap ScreenId ActionSequence).
Proof.
  intros Hl. rewrite (list_to_map_proper (use_again id e l) ((id, e) :: forget id l)).
  - cbn. by rewrite list_to_map_forget, insert_delete_eq.
  - by apply use_again_nodup.
  - unfold use_again. symmetry. apply Permutation_cons_append.
Qed.

Lemma length_forget (l : uses) id : (length (forget id l) ≤ length l)%nat.
Proof. apply length_filter. Qed.

Lemma length_use_again (l : uses) id e :
  NoDup l.*1 → is_Some (used id l) → length (use_again id e l) = length l.
Proof.
  intros Hl [e0 He]. unfold use_again. rewrite length_app. cbn.
  induction l as [|[x f] l IH]; [done|]. rewrite forget_cons. cbn in *.
  apply NoDup_cons in Hl as [Hx Hl]. destruct (decide (x = id)) as [->|Hne].
  - rewrite forget_absent by done. lia.
  - cbn. rewrite IH by done. lia.
Qed.

(** ** The refinement *)

Lemma size_uses (l : uses) : NoDup l.*1 → size (list_to_map l : gmap ScreenId ActionSequence) = length l.
Proof. intros Hl. by rewrite map_size_list_to_map. Qed.

Lemma evict_small (fuel : nat) (es : gmap ScreenId ActionSequence) (l : list ScreenId) :
  (size es ≤ MAX_ENTRIES)%nat → evict fuel es l = (es, l).
Proof. intros Hs. destruct fuel; [done|]. cbn [evict]. by rewrite (proj2 (Nat.ltb_ge _ _) Hs). Qed.

(** The loop drops the oldest entry when there is one too many. *)
Lemma evict_uses (l : uses) :
  NoDup l.*1 → (length l ≤ S MAX_ENTRIES)%nat →
  evict (size (list_to_map l : gmap ScreenId ActionSequence)) (list_to_map l) l.*1 =
  (list_to_map (lastn MAX_ENTRIES l), (lastn MAX_ENTRIES l).*1).
Proof.
  intros Hl Hn. destruct (decide (length l ≤ MAX_ENTRIES)%nat) as [Hs|Hs].
  { rewrite lastn_all by done. apply evict_small. by rewrite size_uses. }
  destruct l as [|[x e] l]; [cbn in Hs; lia|].
  assert (length l = MAX_ENTRIES) as Hlen by (cbn in Hn, Hs; lia).
  assert (lastn MAX_ENTRIES ((x, e) :: l) = l) as ->.
  { unfold lastn. cbn [length]. by replace (S (length l) - MAX_ENTRIES)%nat with 1%nat by lia. }
  rewrite size_uses by done. cbn [fmap list_fmap fst] in *. apply NoDup_cons in Hl as [Hx Hl].
  cbn [length evict]. rewrite size_uses by (by constructor).
  cbn [length]. rewrite (proj2 (Nat.ltb_lt _ _)) by lia.
  assert (pop_victim (list_to_map ((x, e) :: l)) (x :: l.*1) = (list_to_map l, l.*1)) as ->.
  { change (list_to_map ((x, e) :: l)) with (<[x := e]> (list_to_map l) : gmap ScreenId ActionSequence).
    cbn [pop_victim]. rewrite lookup_insert_eq. cbn [is_some].
    by rewrite delete_insert_id by (by apply not_elem_of_list_to_map). }
  rewrite size_uses by done. rewrite Hlen, Nat.ltb_irrefl. cbn [andb]. apply evict_small.
  rewrite size_uses by done. lia.
Qed.

Lemma record_refines m s id f :
  refines m s → refines (record_entry id f m) (lru_record id f s).
Proof.
  intros [He Hlru Hnd Hcap Hh Hm]. unfold record_entry, maybe_evict, touch_lru, lru_record.
  cbn [entries lru hit_count miss_count]. rewrite He, used_lookup, Hlru, (remove_first_forget _ _ Hnd).
  set (e := f _). rewrite <-(list_to_map_use_again _ _ _ Hnd).
  change ((forget id (recent s)).*1 ++ [id]) with ((forget id (recent s)).*1 ++ [(id, e)].*1).
  rewrite <-fmap_app. change (forget id (recent s) ++ [(id, e)]) with (use_again id e (recent s)).
  pose proof (use_again_nodup (recent s) id e Hnd) as Hnd'.
  assert (length (use_again id e (recent s)) ≤ S MAX_ENTRIES)%nat as Hlen.
  { unfold use_again. rewrite length_app. pose proof (length_forget (recent s) id). cbn. lia. }
  rewrite evict_uses by done. split; cbn [entries lru hit_count miss_count recent hits misses]; try done.
  - destruct (lastn_suffix MAX_ENTRIES (use_again id e (recent s))) as [l' E]. rewrite E, fmap_app in Hnd'.
    by apply NoDup_app in Hnd' as (_ & _ & ?).
  - rewrite length_lastn. lia.
Qed.

Lemma lookup_refines m s id :
  refines m s →
  (memory_lookup id m).1 = (lru_op (Lookup id) s).1 ∧
  refines (memory_lookup id m).2 (lru_op (Lookup id) s).2.
Proof.
  intros [He Hlru Hnd Hcap Hh Hm]. unfold memory_lookup. cbn [lru_op].
  rewrite He, used_lookup. destruct (used id (recent s)) as [e|] eqn:Eu; cbn [is_some].
  - unfold touch_lru. cbn [fst snd entries lru hit_count miss_count]. rewrite ?He, ?used_lookup, ?Eu.
    split; [done|]. split; cbn [entries lru hit_count miss_count recent hits misses].
    + rewrite list_to_map_use_again by done. symmetry. apply insert_id. by rewrite used_lookup.
    + rewrite Hlru, remove_first_forget by done. unfold use_again. by rewrite fmap_app.
    + by apply use_again_nodup.
    + by rewrite length_use_again.
    + by rewrite Hh, wrap_add.
    + done.
  - split; [done|]. split; cbn; try done. by rewrite Hm, wrap_add.
Qed.

Fixpoint run_memory (ops : list MemoryOp) (m : Memory) : list (option ActionSequence) * Memory :=
  match ops with
  | [] => ([], m)
  | op :: ops => let '(o, m) := memory_op op m in let '(os, m) := run_memory ops m in (o :: os, m)
  end.
Fixpoint run_lru (ops : list MemoryOp) (s : Lru) : list (option ActionSequence) * Lru :=
  match ops with
  | [] => ([], s)
  | op :: ops => let '(o, s) := lru_op op s in let '(os, s) := run_lru ops s in (o :: os, s)
  end.

(** C21: the memory is an LRU cache.  Any sequence of operations on a new [Memory] gives the
    answers of one list of entries in order of use, where a lookup or a record moves its
    screen's entry to the end and a record that makes the list longer than 1024 drops the
    front; the map and the LRU list always hold the same screens, each once, and the
    counters count the hits and misses since the last reset, modulo [2^64]. *)
Theorem memory_refines_lru (ops : list MemoryOp) :
  let '(answers, m) := run_memory ops Memory_new in
  let '(expected, s) := run_lru ops (mkLru [] 0 0) in
  answers = expected ∧ refines m s ∧
  (memory_len m ≤ MAX_ENTRIES)%nat ∧ (∀ id, id ∈ lru m ↔ is_Some (peek id m)).
Proof.
  assert (∀ m s, refines m s →
    (run_memory ops m).1 = (run_lru ops s).1 ∧ refines (run_memory ops m).2 (run_lru ops s).2) as Hrun.
  { induction ops as [|op ops IH]; intros m s Hr; [done|]. cbn [run_memory run_lru].
    assert ((memory_op op m).1 = (lru_op op s).1 ∧ refines (memory_op op m).2 (lru_op op s).2) as [Ho Hr'].
    { destruct op as [id|id a|id a why|].
      - by apply lookup_refines.
      - split; [done|]. by apply record_refines.
      - split; [done|]. by apply record_refines.
      - split; [done|]. by destruct Hr. }
    destruct (memory_op op m) as [o m1], (lru_op op s) as [o' s1]. cbn in *. subst o'.
    specialize (IH m1 s1 Hr') as [IH1 IH2].
    destruct (run_memory ops m1), (run_lru ops s1). cbn in *. by subst. }
  destruct (Hrun Memory_new (mkLru [] 0 0)) as [Ha Hr]; [by split; cbn; try constructor; lia|].
  destruct (run_memory ops Memory_new) as [os m], (run_lru ops _) as [os' s]. cbn in Ha, Hr.
  destruct Hr as [He Hl Hnd Hcap Hh Hm]. split; [done|]. split; [by split|]. split.
  - unfold memory_len. by rewrite He, size_uses.
  - intros id. unfold peek. rewrite He, Hl, <-not_eq_None_Some, <-not_elem_of_list_to_map.
    destruct (decide (id ∈ (recent s).*1)); tauto.
Qed.
