(* ===== verification/KernelFrame.v ===== *)
(** * The kernel's wire frames ([ai-device-kernel/src/protocol.rs])

    A frame is a verb byte, a flag byte, the length of its payload as an unsigned LEB128
    number, and the payload: a request or a reply in the encoding of [postcard], another
    crate, whose two functions are parameters.  [usize] has 64 bits. *)

From S2P Require Import Prelude Words Utf8 Float32 KernelTypes.
Local Open Scope Z_scope.

(** ** Verbs and flags *)

Inductive Verb : Set := V_Action | V_Plan | V_Observe | V_Query | V_EndOfStream.
#[export] Instance Verb_eq_dec : EqDecision Verb.
Proof. solve_decision. Defined.

Definition verb_byte (v : Verb) : Z :=
  match v with
  | V_Action => 0x01
  | V_Plan => 0x02
  | V_Observe => 0x03
  | V_Query => 0x04
  | V_EndOfStream => 0x05
  end.

Definition verb_from_byte (b : Z) : option Verb :=
  if b =? 0x01 then Some V_Action
  else if b =? 0x02 then Some V_Plan
  else if b =? 0x03 then Some V_Observe
  else if b =? 0x04 then Some V_Query
  else if b =? 0x05 then Some V_EndOfStream
  else None.

Definition verb_as_str (v : Verb) : string :=
  match v with
  | V_Action => "action"
  | V_Plan => "plan"
  | V_Observe => "observe"
  | V_Query => "query"
  | V_EndOfStream => "end-of-stream"
  end.

(** [FrameFlags] is the byte inside the newtype. *)
Abbreviation FrameFlags := Z (only parsing).
Definition IDEMPOTENT : FrameFlags := 0x80.
Definition WAIT_GROUND_TRUTH : FrameFlags := 0x40.
Definition CHECKPOINT_EVERY_N : FrameFlags := 0x20.
Definition INCLUDES_FINAL_OBS : FrameFlags := 0x10.
Definition COMPRESSED : FrameFlags := 0x08.
Definition IS_ERROR : FrameFlags := 0x04.
Definition IS_END_OF_STREAM : FrameFlags := 0x02.
Definition IS_CHECKPOINT : FrameFlags := 0x01.

Definition from_bits (b : Z) : FrameFlags := b.
Definition bits (f : FrameFlags) : Z := f.
Definition flags_contains (f flag : FrameFlags) : bool := Z.land f flag =? flag.
Definition flags_set (flag f : FrameFlags) : FrameFlags := Z.lor f flag.
Definition flags_bitor (f g : FrameFlags) : FrameFlags := Z.lor f g.

(** ** Payloads *)

Inductive RequestPayload : Set :=
  | Rq_Action (id : ActionId) (a : Action)
  | Rq_Plan (id : PlanId) (p : Plan)
  | Rq_Observe (since_seq : Z) (filter : list EventKind)
  | Rq_Query (a11y frame state : bool)
  | Rq_EndOfStream.

Definition request_verb (p : RequestPayload) : Verb :=
  match p with
  | Rq_Action _ _ => V_Action
  | Rq_Plan _ _ => V_Plan
  | Rq_Observe _ _ => V_Observe
  | Rq_Query _ _ _ => V_Query
  | Rq_EndOfStream => V_EndOfStream
  end.

Inductive ReplyPayload : Set :=
  | Re_Action (r : ActionResult)
  | Re_Plan (r : PlanResult)
  | Re_Observation (o : Observation)
  | Re_Query (o : Observation)
  | Re_EndOfStream (final_seq : Z).

Definition reply_verb (p : ReplyPayload) : Verb :=
  match p with
  | Re_Action _ => V_Action
  | Re_Plan _ => V_Plan
  | Re_Observation _ => V_Observe
  | Re_EndOfStream _ => V_EndOfStream
  | Re_Query _ => V_Query
  end.

(** ** Unsigned LEB128 *)

Definition USIZE_BITS : Z := 64.

(** Ten turns shift 64 bits out. *)
Definition VARINT_FUEL : nat := 10.

Fixpoint varint_size_loop (fuel : nat) (n : Z) : nat :=
  match fuel with
  | O => 0
  | S fuel => if 0 <? n then S (varint_size_loop fuel (Z.shiftr n 7)) else 0
  end.
Definition varint_size (n : Z) : nat := if n =? 0 then 1 else varint_size_loop VARINT_FUEL n.

Fixpoint encode_varint_loop (fuel : nat) (n : Z) : bytes :=
  match fuel with
  | O => []
  | S fuel =>
      let b := Z.land n 0x7F in
      let n := Z.shiftr n 7 in
      if n =? 0 then [b] else Z.lor b 0x80 :: encode_varint_loop fuel n
  end.
Definition encode_varint (n : Z) : bytes := encode_varint_loop VARINT_FUEL n.

(** [value.checked_shl(shift)]: bits shifted out are lost. *)
Definition checked_shl (value shift : Z) : option Z :=
  if shift <? USIZE_BITS then Some (wrap 64 (Z.shiftl value shift)) else None.

Fixpoint decode_varint_loop (buf : bytes) (result shift : Z) (i : nat) : option (Z * nat) :=
  match buf with
  | [] => None
  | b :: buf =>
      let cont := negb (Z.land b 0x80 =? 0) in
      match checked_shl (Z.land b 0x7F) shift with
      | None => None
      | Some v =>
          let result := Z.lor result v in
          let shift := shift + 7 in
          if negb cont then Some (result, S i)
          else if USIZE_BITS <? shift then None
          else decode_varint_loop buf result shift (S i)
      end
  end.
Definition decode_varint (buf : bytes) : option (Z * nat) := decode_varint_loop buf 0 0 0.

(** ** Frames *)

Record Frame : Set := mkFrame { verb : Verb; flags : FrameFlags; payload : bytes }.

Definition frame_size (f : Frame) : nat :=
  2 + varint_size (Z.of_nat (length (payload f))) + length (payload f).

Definition frame_encode (f : Frame) : bytes :=
  verb_byte (verb f) :: bits (flags f) ::
  encode_varint (Z.of_nat (length (payload f))) ++ payload f.

(** [buf[lo..hi]] *)
Definition slice (lo hi : Z) (buf : bytes) : outcome False bytes :=
  if (hi <? lo) || (Z.of_nat (length buf) <? hi) then Panicked
  else Ok (take (Z.to_nat (hi - lo)) (drop (Z.to_nat lo) buf)).

(** The sum is a [usize] and wraps. *)
Definition frame_decode (buf : bytes) : outcome False (option Frame) :=
  match buf with
  | b0 :: b1 :: rest =>
      match verb_from_byte b0 with
      | None => Ok None
      | Some v =>
          match decode_varint rest with
          | None => Ok None
          | Some (payload_len, header_len) =>
              let total := wrap 64 (2 + Z.of_nat header_len + payload_len) in
              if Z.of_nat (length buf) <? total then Ok None
              else p ← slice (2 + Z.of_nat header_len) total buf;
                   mret (Some (mkFrame v (from_bits b1) p))
          end
      end
  | _ => Ok None
  end.

Section Postcard.
Context (request_bytes : RequestPayload → bytes) (reply_bytes : ReplyPayload → bytes)
  (request_from : bytes → option RequestPayload) (reply_from : bytes → option ReplyPayload).

Definition frame_request (p : RequestPayload) : Frame := mkFrame (request_verb p) 0 (request_bytes p).
Definition frame_reply (p : ReplyPayload) : Frame :=
  mkFrame (reply_verb p)
    (match p with Re_EndOfStream _ => flags_set IS_END_OF_STREAM 0 | _ => 0 end) (reply_bytes p).

Definition decode_request (f : Frame) : option RequestPayload := request_from (payload f).
Definition decode_reply (f : Frame) : option ReplyPayload := reply_from (payload f).
End Postcard.

(** ** LEB128 is read back *)

Lemma lor_disjoint a b k : 0 ≤ a < 2 ^ k → 0 ≤ k → Z.lor a (b * 2 ^ k) = a + b * 2 ^ k.
Proof.
  intros Ha Hk. rewrite <-Z.shiftl_mul_pow2 by done.
  assert (Z.land a (Z.shiftl b k) = 0) as Hz.
  { apply Z.bits_inj_iff. intros i. rewrite Z.land_spec, Z.bits_0.
    destruct (Z.leb_spec 0 i) as [Hi|Hi]; [|by rewrite Z.testbit_neg_r].
    destruct (Z.ltb_spec i k) as [Hik|Hik].
    - by rewrite Z.shiftl_spec_low, andb_false_r.
    - destruct (decide (a = 0)) as [->|Hn]; [by rewrite Z.bits_0|].
      rewrite (Z.bits_above_log2 a i); [done|lia|].
      apply (Z.lt_le_trans _ k); [|done]. apply Z.log2_lt_pow2; lia. }
  pose proof (Z.add_lor_land a (Z.shiftl b k)). lia.
Qed.

Lemma land_127 n : Z.land n 0x7F = n mod 2 ^ 7.
Proof. by rewrite <-Z.land_ones. Qed.

Lemma more_bit b : 0 ≤ b < 2 ^ 7 →
  Z.lor b 0x80 = b + 128 ∧ Z.land (Z.lor b 0x80) 0x80 = 0x80 ∧ Z.land (Z.lor b 0x80) 0x7F = b ∧
  Z.land b 0x80 = 0.
Proof.
  intros Hb. pose proof (lor_disjoint b 1 7 Hb ltac:(lia)) as E. change (1 * 2 ^ 7) with 0x80 in E.
  assert (Z.land b 0x80 = 0) as Hz by (pose proof (Z.add_lor_land b 0x80); lia).
  split_and!; [done| | |done].
  - by rewrite Z.land_lor_distr_l, Hz.
  - rewrite land_127, E. change 128 with (1 * 2 ^ 7). rewrite Z.mod_add by done. by apply Z.mod_small.
Qed.

Lemma shiftr_7 n : Z.shiftr n 7 = n / 2 ^ 7.
Proof. by apply Z.shiftr_div_pow2. Qed.

Lemma encode_varint_loop_cons fuel n :
  encode_varint_loop (S fuel) n =
  if n / 2 ^ 7 =? 0 then [n mod 2 ^ 7]
  else Z.lor (n mod 2 ^ 7) 0x80 :: encode_varint_loop fuel (n / 2 ^ 7).
Proof. cbn [encode_varint_loop]. by rewrite land_127, shiftr_7. Qed.

Lemma pow2_add a b : 0 ≤ a → 0 ≤ b → 2 ^ (a + b) = 2 ^ a * 2 ^ b.
Proof. intros. by apply Z.pow_add_r. Qed.

(** One byte more of the number, at [shift]. *)
Lemma decode_varint_byte (b : Z) buf result shift i :
  0 ≤ shift < USIZE_BITS → 0 ≤ result < 2 ^ shift → 0 ≤ b mod 2 ^ 7 * 2 ^ shift < 2 ^ 64 →
  decode_varint_loop (b :: buf) result shift i =
  (let result := result + b mod 2 ^ 7 * 2 ^ shift in
   if Z.land b 0x80 =? 0 then Some (result, S i)
   else if USIZE_BITS <? shift + 7 then None
   else decode_varint_loop buf result (shift + 7) (S i)).
Proof.
  intros Hs Hr Hv. cbn [decode_varint_loop]. unfold checked_shl.
  rewrite (proj2 (Z.ltb_lt _ _)) by lia. rewrite land_127, Z.shiftl_mul_pow2 by lia.
  rewrite (wrap_small 64) by (widths; lia). rewrite lor_disjoint by lia. by rewrite negb_involutive.
Qed.

Lemma decode_encode_loop fuel n result shift rest i :
  0 ≤ n < 2 ^ (7 * Z.of_nat (S fuel)) → 0 ≤ shift < USIZE_BITS → n < 2 ^ (USIZE_BITS - shift) →
  0 ≤ result < 2 ^ shift →
  decode_varint_loop (encode_varint_loop (S fuel) n ++ rest) result shift i =
  Some (result + n * 2 ^ shift, (i + length (encode_varint_loop (S fuel) n))%nat).
Proof.
  revert n result shift i. induction fuel as [|fuel IH]; intros n result shift i Hn Hs Hns Hr.
  all: rewrite encode_varint_loop_cons.
  all: pose proof (Z.mod_pos_bound n (2 ^ 7) ltac:(done)) as Hm.
  all: pose proof (Z.div_mod n (2 ^ 7) ltac:(done)) as Hdm.
  all: assert (n mod 2 ^ 7 * 2 ^ shift ≤ n * 2 ^ shift) as Hle
         by (apply Z.mul_le_mono_nonneg_r; [lia|]; pose proof (Z.div_pos n (2 ^ 7) ltac:(lia) ltac:(done)); lia).
  all: assert (n * 2 ^ shift < 2 ^ 64) as Hlt
         by (replace 64 with ((USIZE_BITS - shift) + shift) by (unfold USIZE_BITS; lia);
             rewrite pow2_add by lia; apply Z.mul_lt_mono_pos_r; [lia|done]).
  - assert (n / 2 ^ 7 = 0) as E by (apply Z.div_small; cbn in Hn; lia). rewrite E. cbn [Z.eqb app].
    rewrite decode_varint_byte; [|done|done|rewrite Z.mod_mod by done; split; lia].
    rewrite Z.mod_mod by done. destruct (more_bit _ Hm) as (_ & _ & _ & ->). cbn [Z.eqb length].
    do 2 f_equal; [|lia]. rewrite E in Hdm. lia.
  - destruct (Z.eqb_spec (n / 2 ^ 7) 0) as [E|E]; cbn [app].
    + rewrite decode_varint_byte; [|done|done|rewrite Z.mod_mod by done; split; lia].
      rewrite Z.mod_mod by done. destruct (more_bit _ Hm) as (_ & _ & _ & ->). cbn [Z.eqb length].
      do 2 f_equal; [|lia]. rewrite E in Hdm. lia.
    + destruct (more_bit _ Hm) as (_ & H80 & H7f & _). rewrite land_127 in H7f.
      rewrite decode_varint_byte; [|done|done|rewrite H7f; split; lia].
      rewrite H7f, H80. cbn [Z.eqb].
      assert (2 ^ 7 ≤ n) as H128.
      { destruct (Z.le_gt_cases (2 ^ 7) n); [done|]. rewrite Z.div_small in E by lia. done. }
      assert (7 < USIZE_BITS - shift) as Hsh by (apply (Z.pow_lt_mono_r_iff 2); lia).
      rewrite (proj2 (Z.ltb_ge _ _)) by lia. rewrite IH.
      * cbn [length]. do 2 f_equal; [|lia]. rewrite pow2_add by lia. rewrite Hdm at 3. ring.
      * split; [by apply Z.div_pos; lia|]. apply Z.div_lt_upper_bound; [done|].
        rewrite <-pow2_add by lia. replace (7 + 7 * Z.of_nat (S fuel)) with (7 * Z.of_nat (S (S fuel))) by lia. lia.
      * lia.
      * apply Z.div_lt_upper_bound; [done|]. rewrite <-pow2_add by lia.
        by replace (7 + (USIZE_BITS - (shift + 7))) with (USIZE_BITS - shift) by lia.
      * rewrite pow2_add by lia. split; [lia|]. nia.
Qed.

Definition usize (n : Z) : Prop := 0 ≤ n < 2 ^ 64.

Lemma encode_varint_decode n rest :
  usize n → decode_varint (encode_varint n ++ rest) = Some (n, length (encode_varint n)).
Proof.
  intros Hn. unfold decode_varint, encode_varint, VARINT_FUEL. unfold usize in Hn.
  rewrite decode_encode_loop; [|cbn in *; lia|done|exact (proj2 Hn)|done].
  do 2 f_equal. cbn. lia.
Qed.

Lemma length_encode_varint n : usize n → length (encode_varint n) = varint_size n.
Proof.
  intros Hn. unfold encode_varint, varint_size. destruct (Z.eqb_spec n 0) as [->|Hz]; [done|].
  assert (0 < n < 2 ^ (7 * Z.of_nat VARINT_FUEL)) as Hb by (unfold usize, VARINT_FUEL in *; cbn in *; lia).
  clear Hn Hz. revert n Hb. induction VARINT_FUEL as [|fuel IH]; intros n Hb; [cbn in Hb; lia|].
  rewrite encode_varint_loop_cons. cbn [varint_size_loop]. rewrite (proj2 (Z.ltb_lt _ _)) by lia.
  rewrite shiftr_7. pose proof (Z.div_pos n (2 ^ 7) ltac:(lia) ltac:(done)).
  destruct (Z.eqb_spec (n / 2 ^ 7) 0) as [->|E].
  - by destruct fuel.
  - cbn [length]. f_equal. apply IH. split; [lia|]. apply Z.div_lt_upper_bound; [done|].
    rewrite <-pow2_add by lia. replace (7 + 7 * Z.of_nat fuel) with (7 * Z.of_nat (S fuel)) by lia. lia.
Qed.

(** A byte that announces more. *)
Definition continues (b : Z) : Prop := Z.land b 0x80 ≠ 0.

Lemma encode_varint_ends fuel n : ∃ l x, encode_varint_loop (S fuel) n = l ++ [x] ∧ Forall continues l.
Proof.
  revert n. induction fuel as [|fuel IH]; intros n; rewrite encode_varint_loop_cons;
    destruct (_ =? 0); try by exists [], (n mod 2 ^ 7).
  - exists [], (Z.lor (n mod 2 ^ 7) 0x80). by split; [|constructor].
  - destruct (IH (n / 2 ^ 7)) as (l & x & -> & Hl). exists (Z.lor (n mod 2 ^ 7) 0x80 :: l), x.
    split; [done|]. constructor; [|done]. unfold continues.
    by destruct (more_bit _ (Z.mod_pos_bound n (2 ^ 7) ltac:(done))) as (_ & -> & _).
Qed.

Lemma decode_varint_unfinished l result shift i :
  Forall continues l → decode_varint_loop l result shift i = None.
Proof.
  intros Hl. revert result shift i. induction Hl as [|b l Hb Hl IH]; intros result shift i; [done|].
  cbn [decode_varint_loop]. rewrite (proj2 (Z.eqb_neq _ _) Hb). cbn [negb].
  destruct (checked_shl _ _); [|done]. by destruct (_ <? _).
Qed.

(** A number of which the end is missing is not decoded. *)
Lemma decode_varint_prefix n l l' :
  encode_varint n = l ++ l' → l' ≠ [] → decode_varint l = None.
Proof.
  intros E Hne. destruct (encode_varint_ends 9 n) as (k & x & E' & Hk).
  unfold encode_varint, VARINT_FUEL in E. rewrite E' in E.
  destruct l' as [|y l' _] using rev_ind; [done|].
  rewrite (assoc_L (++)) in E. apply app_inj_tail in E as [-> _].
  apply Forall_app in Hk as [Hl _]. by apply decode_varint_unfinished.
Qed.

(** ** What a decoded number can be *)

Lemma lor_bound a b : usize a → usize b → usize (Z.lor a b).
Proof.
  unfold usize. intros [Ha Ha'] [Hb Hb']. split; [by apply Z.lor_nonneg|].
  destruct (decide (Z.lor a b = 0)) as [->|Hn]; [done|].
  pose proof (proj2 (Z.lor_nonneg a b) (conj Ha Hb)).
  apply Z.log2_lt_pow2; [lia|]. rewrite Z.log2_lor by done.
  assert (∀ z, 0 ≤ z → z < 2 ^ 64 → Z.log2 z < 64) as Hlog.
  { intros z Hz Hz'. destruct (decide (z = 0)) as [->|]; [done|]. apply Z.log2_lt_pow2; lia. }
  by apply Z.max_lub_lt; apply Hlog.
Qed.

Lemma decode_varint_loop_bounds buf result i v h :
  usize result → decode_varint_loop buf result (7 * Z.of_nat i) i = Some (v, h) →
  usize v ∧ (h ≤ 10)%nat ∧ (h ≤ i + length buf)%nat.
Proof.
  revert result i. induction buf as [|b buf IH]; intros result i Hr; [done|].
  cbn [decode_varint_loop]. unfold checked_shl.
  destruct (Z.ltb_spec (7 * Z.of_nat i) USIZE_BITS) as [Hs|]; [|done]. unfold USIZE_BITS in *.
  assert (usize (Z.lor result (wrap 64 (Z.shiftl (Z.land b 127) (7 * Z.of_nat i))))) as Hr'.
  { apply lor_bound; [done|]. unfold usize, wrap. by apply Z.mod_pos_bound. }
  destruct (negb (negb _)).
  - intros [= <- <-]. cbn [length]. split_and!; [apply Hr'..|lia|lia].
  - destruct (64 <? 7 * Z.of_nat i + 7); [done|]. replace (7 * Z.of_nat i + 7) with (7 * Z.of_nat (S i)) by lia.
    intros E. apply IH in E as (Hv & Hh & Hl); [|done]. cbn [length]. split_and!; [apply Hv..|lia|lia].
Qed.

Lemma decode_varint_bounds buf v h :
  decode_varint buf = Some (v, h) → usize v ∧ (h ≤ 10)%nat ∧ (h ≤ length buf)%nat.
Proof. intros E. by apply (decode_varint_loop_bounds buf 0 0) in E. Qed.

(** ** Frames are read back *)

Lemma verb_byte_back v : verb_from_byte (verb_byte v) = Some v.
Proof. by destruct v. Qed.

Lemma slice_app (l buf rest : bytes) :
  slice (Z.of_nat (length l)) (Z.of_nat (length l + length buf)) (l ++ buf ++ rest) = Ok buf.
Proof.
  unfold slice. rewrite !length_app.
  rewrite (proj2 (Z.ltb_ge _ _)) by lia. rewrite (proj2 (Z.ltb_ge _ _)) by lia. cbn [orb].
  rewrite Nat2Z.id, drop_app_length.
  replace (Z.to_nat _) with (length buf) by lia. by rewrite take_app_length.
Qed.

(** A payload a [Vec] can hold, with its header. *)
Definition frame_fits (f : Frame) : Prop := Z.of_nat (length (payload f)) < 2 ^ 63.

Lemma frame_decode_encode f rest :
  frame_fits f → frame_decode (frame_encode f ++ rest) = Ok (Some f).
Proof.
  intros Hf. unfold frame_fits in Hf. destruct f as [v fl p]. cbn [payload] in Hf.
  unfold frame_encode, frame_decode, bits, from_bits. cbn [payload verb flags app].
  set (n := Z.of_nat (length p)). set (hd := encode_varint n).
  assert (usize n) as Hn by (unfold usize; lia).
  pose proof (encode_varint_decode n (p ++ rest) Hn) as Ed. fold hd in Ed.
  rewrite verb_byte_back, <-(assoc_L (++)), Ed.
  pose proof (encode_varint_decode n [] Hn) as Hb. apply decode_varint_bounds in Hb as (_ & Hb & _).
  fold hd in Hb.
  rewrite wrap_small by (widths; lia). cbn [length]. rewrite !length_app.
  rewrite (proj2 (Z.ltb_ge _ _)) by lia.
  pose proof (slice_app (verb_byte v :: fl :: hd) p rest) as Hs. cbn [app length] in Hs.
  replace (2 + Z.of_nat (length hd)) with (Z.of_nat (S (S (length hd)))) by lia.
  replace (Z.of_nat (S (S (length hd))) + n) with (Z.of_nat (S (S (length hd)) + length p)) by lia.
  by rewrite Hs.
Qed.

(** C23: frames.  A frame encodes to [encoded_size] bytes; they, whatever follows them, decode
    to the frame - every verb, flag byte and payload, the length behind one to ten LEB128
    bytes - and a frame cut short anywhere is answered with [None], never with another
    frame. *)
Theorem kernel_frame_roundtrip (f : Frame) (rest : bytes) (Hf : frame_fits f) :
  length (frame_encode f) = frame_size f ∧
  frame_decode (frame_encode f ++ rest) = Ok (Some f) ∧
  ∀ cut missing, frame_encode f = cut ++ missing → missing ≠ [] → frame_decode cut = Ok None.
Proof.
  assert (usize (Z.of_nat (length (payload f)))) as Hn by (unfold usize, frame_fits in *; lia).
  split_and!.
  - unfold frame_encode, frame_size. cbn [length]. rewrite length_app, length_encode_varint by done. lia.
  - by apply frame_decode_encode.
  - intros cut missing E Hne. unfold frame_encode in E.
    destruct cut as [|b0 [|b1 cut]]; [done|done|]. injection E as <- <- E. cbn [frame_decode].
    rewrite verb_byte_back. set (n := Z.of_nat (length (payload f))) in *.
    assert (n < 2 ^ 63) as Hnf by exact Hf.
    apply app_eq_inv in E as [(k & E1 & E2)|(k & E1 & E2)].
    + destruct k as [|x k].
      * rewrite app_nil_r in E1. cbn in E2. rewrite <-E1, <-(app_nil_r (encode_varint n)).
        rewrite encode_varint_decode by done. rewrite app_nil_r.
        pose proof (encode_varint_decode n [] Hn) as Hb. apply decode_varint_bounds in Hb as (_ & Hb & _).
        rewrite wrap_small by (unfold usize in Hn; widths; lia). cbn [length].
        assert (0 < length (payload f))%nat by (rewrite <-E2; by destruct missing; [|cbn; lia]).
        rewrite (proj2 (Z.ltb_lt _ _)) by lia. done.
      * by rewrite (decode_varint_prefix n cut (x :: k)).
    + rewrite E1, encode_varint_decode by done.
      pose proof (encode_varint_decode n [] Hn) as Hb. apply decode_varint_bounds in Hb as (_ & Hb & _).
      rewrite wrap_small by (unfold usize in Hn; widths; lia). cbn [length]. rewrite length_app.
      assert (length k < length (payload f))%nat
        by (rewrite E2, length_app; destruct missing; [done|cbn; lia]).
      rewrite (proj2 (Z.ltb_lt _ _)) by lia. done.
Qed.

Lemma kernel_frame_roundtrip_witness :
  let f := mkFrame V_Plan 0x20 (replicate 300 7) in
  length (frame_encode f) = 304%nat ∧ frame_decode (frame_encode f ++ [1; 2]) = Ok (Some f).
Proof.
  intros f. assert (frame_fits f) as Hf by (unfold frame_fits, f; cbn [payload]; rewrite length_replicate; lia).
  destruct (kernel_frame_roundtrip f [1; 2] Hf) as (Hl & Hd & _). split; [|exact Hd].
  rewrite Hl. vm_compute. reflexivity.
Defined.

(** What a frame's first bytes declare: a verb, a payload length, the length of the length. *)
Definition declares (buf : bytes) (v : Verb) (n : Z) (h : nat) : Prop :=
  ∃ b0 b1 rest, buf = b0 :: b1 :: rest ∧ verb_from_byte b0 = Some v ∧ decode_varint rest = Some (n, h).

(** C25: what decoding any bytes gives.  Bytes that do not start with a known verb, a flag
    byte and a finished length are answered with [None], and so are those of which the
    payload has not arrived; otherwise the frame is what they declare - except that a
    length of which the sum with the header is no [usize] panics: the sum wraps, passes the
    check that the payload has arrived, and the slice of the payload ends before it begins. *)
Theorem frame_decode_outcomes (buf : bytes) (Hlen : Z.of_nat (length buf) < 2 ^ 63) :
  (∀ v n h, declares buf v n h →
     if 2 ^ 64 <=? 2 + Z.of_nat h + n then frame_decode buf = Panicked
     else if Z.of_nat (length buf) <? 2 + Z.of_nat h + n then frame_decode buf = Ok None
     else ∃ p tail, frame_decode buf = Ok (Some (mkFrame v (nth 1 buf 0) p)) ∧
            Z.of_nat (length p) = n ∧ drop (2 + h) buf = p ++ tail) ∧
  ((∀ v n h, ¬ declares buf v n h) → frame_decode buf = Ok None).
Proof.
  split.
  - intros v n h (b0 & b1 & rest & -> & Ev & Ed). cbn [frame_decode]. rewrite Ev, Ed.
    pose proof (decode_varint_bounds _ _ _ Ed) as ([Hn Hn'] & Hh & Hhl). cbn [length] in Hlen.
    destruct (Z.leb_spec (2 ^ 64) (2 + Z.of_nat h + n)) as [Hbig|Hs].
    + assert (wrap 64 (2 + Z.of_nat h + n) = 2 + Z.of_nat h + n - 2 ^ 64) as ->.
      { unfold wrap. symmetry. apply (Z.mod_unique _ _ 1); lia. }
      cbn [length]. rewrite (proj2 (Z.ltb_ge _ _)) by lia.
      unfold slice. rewrite (proj2 (Z.ltb_lt _ _)) by lia. done.
    + rewrite wrap_small by (widths; lia).
      destruct (Z.ltb_spec (Z.of_nat (length (b0 :: b1 :: rest))) (2 + Z.of_nat h + n)) as [|Hle]; [done|].
      unfold slice. rewrite (proj2 (Z.ltb_ge _ _)) by lia. rewrite (proj2 (Z.ltb_ge _ _)) by lia.
      cbn [orb mbind outcome_bind mret outcome_ret length] in *.
      assert (Z.to_nat (2 + Z.of_nat h) = S (S h)) as -> by lia.
      replace (2 + Z.of_nat h + n - (2 + Z.of_nat h)) with n by lia. cbn [drop Nat.add nth].
      eexists _, (drop (Z.to_nat n) (drop h rest)). split; [done|].
      rewrite take_drop. split; [|done]. rewrite length_take, length_drop. lia.
  - intros Hd. destruct buf as [|b0 [|b1 rest]]; [done|done|]. cbn [frame_decode].
    destruct (verb_from_byte b0) as [v|] eqn:Ev; [|done].
    destruct (decode_varint rest) as [[n h]|] eqn:Ed; [|done].
    destruct (Hd v n h). by exists b0, b1, rest.
Qed.

(** Twelve bytes that panic. *)
Definition hostile_frame : bytes := [0x01; 0x00] ++ replicate 9 0xFF ++ [0x01].

Lemma frame_decode_outcomes_witness :
  declares hostile_frame V_Action (2 ^ 64 - 1) 10 ∧ frame_decode hostile_frame = Panicked.
Proof.
  assert (declares hostile_frame V_Action (2 ^ 64 - 1) 10) as Hd.
  { exists 0x01, 0x00, (replicate 9 0xFF ++ [0x01]). by vm_compute. }
  split; [exact Hd|].
  assert (Z.of_nat (length hostile_frame) < 2 ^ 63) as Hlen by reflexivity.
  exact (proj1 (frame_decode_outcomes hostile_frame Hlen) V_Action (2 ^ 64 - 1) 10%nat Hd).
Defined.

(** A payload travels through a frame, whatever [postcard] does, if it decodes what it
    encodes. *)
Section PostcardRoundtrip.
Context (request_bytes : RequestPayload → bytes) (reply_bytes : ReplyPayload → bytes)
  (request_from : bytes → option RequestPayload) (reply_from : bytes → option ReplyPayload).
Context (request_back : ∀ p, request_from (request_bytes p) = Some p)
  (reply_back : ∀ p, reply_from (reply_bytes p) = Some p).

Lemma request_travels p rest :
  frame_fits (frame_request request_bytes p) →
  ∃ f, frame_decode (frame_encode (frame_request request_bytes p) ++ rest) = Ok (Some f) ∧
    verb f = request_verb p ∧ decode_request request_from f = Some p.
Proof.
  intros Hf. eexists. split; [by apply frame_decode_encode|]. split; [done|apply request_back].
Qed.

Lemma reply_travels p rest :
  frame_fits (frame_reply reply_bytes p) →
  ∃ f, frame_decode (frame_encode (frame_reply reply_bytes p) ++ rest) = Ok (Some f) ∧
    verb f = reply_verb p ∧ decode_reply reply_from f = Some p ∧
    flags_contains (flags f) IS_END_OF_STREAM = bool_decide (reply_verb p = V_EndOfStream).
Proof.
  intros Hf. eexists. split; [by apply frame_decode_encode|]. split_and!; [done|apply reply_back|].
  by destruct p.
Qed.
End PostcardRoundtrip.
