(* ===== verification/Bridge.v ===== *)
(** * Actions become input ([ai-device-kernel/src/bridge.rs])

    [ActionInjector] performs the kernel's actions on a [HidSession] of the input crate
    (module [Session]), whose methods it calls.  Like the session it runs over any
    [MessageSink].  How long an action took ([Instant::elapsed]) is a parameter, and so is
    Rust's [Debug] text of a character. *)

From S2P Require Import Prelude Words Errors Types Utf8 Float32 Message Transport Coalesce Keyboard Sink Session Touch.
From S2P Require Import KernelTypes.
Local Open Scope Z_scope.

Record BridgeOutcome : Set := mkBridgeOutcome
  { bo_id : ActionId; bo_landed : bool; bo_elapsed : Z; bo_error : option string;
    bo_code : option AtomicErrorCode }.

Definition outcome_ok (id : ActionId) (elapsed : Z) : BridgeOutcome :=
  mkBridgeOutcome id true elapsed None None.
Definition rejected (id : ActionId) (code : AtomicErrorCode) (reason : string) : BridgeOutcome :=
  mkBridgeOutcome id false 0 (Some (code_as_str code +:+ ": " +:+ reason)) (Some code).

Definition retryable (o : BridgeOutcome) : bool :=
  match bo_code o with
  | Some (Ec_Timeout | KernelError | SelectorMiss) => true
  | _ => false
  end.

Definition classify_session_error (e : Error) : AtomicErrorCode :=
  match e with
  | ControlMessageTooLarge _ _ | NameTooLong _ | ReportDescTooLong _ | ScancodeOutOfRange _
  | PointerIdOutOfRange _ _ => PermissionDenied
  | UnknownGamepad _ | NoGamepadSlot | SessionLifecycle _ | PointerNotActive _
  | PointerAlreadyDown _ | BufferFullCritical | DispatcherDown _ => NotImplemented
  | AgentTimeout _ => Ec_Timeout
  | Transport _ => KernelError
  end.

Definition reject_session (id : ActionId) (e : Error) : BridgeOutcome :=
  rejected id (classify_session_error e) (Error_display e).

Definition PX_PER_STEP : Z := 40.
Definition MAX_STEPS : Z := 256.

(** [(b - a).unsigned_abs()], with the subtraction of [i32]. *)
Definition span (a b : Z) : Z := Z.abs (swrap 32 (b - a)).

Definition swipe_steps (x1 y1 x2 y2 dur_ms : Z) : Z :=
  let distance := Z.max (span x1 x2) (span y1 y2) in
  Z.max 2 (Z.min MAX_STEPS (Z.max (dur_ms / 16) (distance / PX_PER_STEP))).

Definition no_resolver : string :=
  "action requires daemon-side resolver or custom wire path; route via protocol::Frame::request".

Record ActionInjector (W : Type) : Type := mkInjector
  { session : HidSession W; next_id : Z; batch_depth : Z }.
Arguments mkInjector {W}.
Arguments session {W}.
Arguments next_id {W}.
Arguments batch_depth {W}.

Section Injector.
Context {W : Type} `{!MessageSink W}.
Context (took : ActionId → Z) (debug_char : Z → string).
Implicit Types i : ActionInjector W.

Definition set_session (s : HidSession W) i : ActionInjector W :=
  mkInjector s (next_id i) (batch_depth i).
Definition on_injector_session {A} (c : cmd (HidSession W) Error A) : cmd (ActionInjector W) Error A :=
  zoom session set_session c.

(** [ActionInjector::open]: the session, and [next_id] and [batch_depth] at zero. *)
Definition injector_open (l : W) (req : OpenRequest) : outcome Error unit * ActionInjector W :=
  let '(o, s) := open l req in (o, mkInjector s 0 0).
Definition injector_open_default (l : W) : outcome Error unit * ActionInjector W :=
  injector_open l request_none.

Definition injector_flush : cmd (ActionInjector W) Error Z := on_injector_session session_flush.
Definition into_session i : HidSession W := session i.

Definition maybe_flush : cmd (ActionInjector W) Error unit := λ i,
  (if batch_depth i =? 0 then _ ← injector_flush; mret tt else mret tt) i.

(** [if let Err(e) = .. { return reject_session(id, &e); }], and what follows. *)
Definition or_reject (id : ActionId) (r : cmd (ActionInjector W) Error unit)
    (k : cmd (ActionInjector W) Error BridgeOutcome) : cmd (ActionInjector W) Error BridgeOutcome := λ i,
  match r i with
  | (Ok _, i) => k i
  | (Err e, i) => (Ok (reject_session id e), i)
  | (Panicked, i) => (Panicked, i)
  end.

(** [match r { Ok(()) => BridgeOutcome::ok(..), Err(e) => reject_session(id, &e) }] *)
Definition conclude (id : ActionId) (r : cmd (ActionInjector W) Error unit) :
    cmd (ActionInjector W) Error BridgeOutcome :=
  or_reject id r (mret (outcome_ok id (took id))).

Definition bridge_tap (id : ActionId) (x y : Z) : cmd (ActionInjector W) Error BridgeOutcome :=
  conclude id (
    on_injector_session (inject_touch ACTION_DOWN 0 x y one);;
    on_injector_session (inject_touch ACTION_UP 0 x y zero);;
    maybe_flush).

Definition bridge_swipe (id : ActionId) (x1 y1 x2 y2 dur_ms : Z) :
    cmd (ActionInjector W) Error BridgeOutcome :=
  conclude id (
    on_injector_session (swipe (x1, y1) (x2, y2) (swipe_steps x1 y1 x2 y2 dur_ms));;
    maybe_flush).

(** The loop over the characters returns early. *)
Fixpoint type_chars (id : ActionId) (cs : list Z) : cmd (ActionInjector W) Error BridgeOutcome :=
  match cs with
  | [] => conclude id maybe_flush
  | ch :: cs =>
      match try_from_char ch with
      | (_, None) =>
          mret (rejected id PermissionDenied
                  ("char " +:+ debug_char ch +:+ " has no US-QWERTY scancode; use SetClipboard + paste"))
      | (mods, Some sc) =>
          or_reject id (on_injector_session (key (to_u8 sc) true mods))
            (or_reject id (on_injector_session (key (to_u8 sc) false mods)) (type_chars id cs))
      end
  end.
Definition bridge_type_text (id : ActionId) (text : str) : cmd (ActionInjector W) Error BridgeOutcome :=
  type_chars id (default [] (chars text)).

Definition press_key (id : ActionId) (code : Z) : cmd (ActionInjector W) Error BridgeOutcome :=
  conclude id (
    on_injector_session (inject_android_key_event KEY_ACTION_DOWN code 0 0);;
    on_injector_session (inject_android_key_event KEY_ACTION_UP code 0 0);;
    maybe_flush).

Definition gamepad_frame (id : ActionId) (report : bytes) : cmd (ActionInjector W) Error BridgeOutcome :=
  conclude id (on_injector_session (inject_raw_gamepad_report report);; maybe_flush).

Definition launch (id : ActionId) (target : str) : cmd (ActionInjector W) Error BridgeOutcome :=
  conclude id (on_injector_session (launch_app target);; maybe_flush).

Definition bridge_set_clipboard (id : ActionId) (text : str) (paste : bool) :
    cmd (ActionInjector W) Error BridgeOutcome :=
  conclude id (on_injector_session (set_clipboard text paste);; maybe_flush).

Definition inject_raw (id : ActionId) (raw : bytes) : cmd (ActionInjector W) Error BridgeOutcome :=
  conclude id (on_injector_session (inject_raw_gamepad_report raw);; maybe_flush).

(** [let id = ActionId(self.next_id); self.next_id = self.next_id.wrapping_add(1);] *)
Definition take_id : cmd (ActionInjector W) Error ActionId := λ i,
  (Ok (next_id i), mkInjector (session i) (wrap 64 (next_id i + 1)) (batch_depth i)).

Definition apply_action (a : Action) : cmd (ActionInjector W) Error BridgeOutcome :=
  id ← take_id;
  match a with
  | Act_Tap x y _ => bridge_tap id x y
  | Act_Swipe x1 y1 x2 y2 dur_ms _ => bridge_swipe id x1 y1 x2 y2 dur_ms
  | Act_TypeText text _ => bridge_type_text id text
  | Act_Key code _ => press_key id code
  | Act_GamepadFrame report _ => gamepad_frame id report
  | Act_Launch target _ _ => launch id target
  | Act_SetClipboard text paste _ => bridge_set_clipboard id text paste
  | Act_InjectRaw raw _ => inject_raw id raw
  | Act_TapSelector _ _ | Act_Wait _ _ | Act_GetUiRepr _ _ | Act_DumpObservation _ _
  | Act_LocalizeText _ _ _ | Act_DetectElement _ _ _ _ | Act_Ground _ _ _ | Act_AskVisual _ _ _ =>
      mret (rejected id NotImplemented no_resolver)
  end.

Definition set_depth (f : Z → Z) : cmd (ActionInjector W) Error unit :=
  modify (λ i, mkInjector (session i) (next_id i) (f (batch_depth i))).

(** The loop of [apply_many]: the outcomes, and the index of the failure it stops at. *)
Fixpoint apply_each (outcomes : list BridgeOutcome) (acts : list Action) :
    cmd (ActionInjector W) Error (list BridgeOutcome * option nat) :=
  match acts with
  | [] => mret (outcomes, None)
  | a :: acts =>
      o ← apply_action a;
      let outcomes := outcomes ++ [o] in
      if bo_landed o then apply_each outcomes acts
      else mret (outcomes, Some (length outcomes - 1)%nat)
  end.

Definition flush_id : ActionId := 2 ^ 64 - 1.

(** The terminal flush. *)
Definition land_batch (r : list BridgeOutcome * option nat) :
    cmd (ActionInjector W) Error (list BridgeOutcome * option nat) := λ i,
  if batch_depth i =? 0 then
    match injector_flush i with
    | (Ok _, i) => (Ok r, i)
    | (Err e, i) =>
        (Ok match r.2 with
            | None => (r.1 ++ [reject_session flush_id e], Some (length r.1))
            | Some _ => r
            end, i)
    | (Panicked, i) => (Panicked, i)
    end
  else (Ok r, i).

Definition apply_many (acts : list Action) :
    cmd (ActionInjector W) Error (list BridgeOutcome * option nat) :=
  set_depth (λ d, Z.min (2 ^ 32 - 1) (d + 1));;
  r ← apply_each [] acts;
  set_depth (λ d, Z.max 0 (d - 1));;
  land_batch r.
End Injector.
