(* ===== verification/BridgeRefinement.v ===== *)
(** * What the bridge puts on the wire

    [performs] and [batch] say what an action and a batch of actions mean to the device that
    reads the wire, without the code's own routines: which messages arrive, and why an action
    is rejected.  The bridge's code, run over the message log, has the effect [action_effect]
    computes; that effect is such a meaning ([action_effect_performs]), and by the session's
    refinement, over a healthy transport the bridge puts the frames of those messages on the
    wire, none left behind. *)

From stdpp Require Import pretty.
From S2P Require Import Prelude Words Errors Types Utf8 Float32 Message Transport Descriptor.
From S2P Require Import Keyboard Mouse Gamepad Coalesce Sink Session Touch Refinement SessionInv Lifecycle Typing Service.
From S2P Require Import KernelTypes Bridge.
Local Open Scope Z_scope.

Abbreviation LI := (ActionInjector MsgLog).

(** ** What an action means *)

(** Why an action is rejected: the code, and the text of the error. *)
Definition refusal : Set := AtomicErrorCode * string.

(** Finger 0 on the session's screen of 1080 by 1920; the pressure in 1/65536ths. *)
Definition finger (action x y pressure : Z) : Wire :=
  W_InjectTouch action 0 x y 1080 1920 pressure 0 0.

(** [x] is less than a pixel from the point [k/n] of the way from [a] to [b]. *)
Definition near_line (a b n k x : Z) : Prop := Z.abs (n * x - (a * (n - k) + b * k)) < n.

(** A swipe of [n] steps: a point for every 16 ms or 40 pixels, at least 2 and at most 256;
    [swrap 32] is the width of the differences. *)
Definition steps_of (x1 y1 x2 y2 dur_ms n : Z) : Prop :=
  n = Z.max 2 (Z.min 256 (Z.max (dur_ms / 16)
        (Z.max (Z.abs (swrap 32 (x2 - x1))) (Z.abs (swrap 32 (y2 - y1))) / 40))).

(** The points between the ends of the line; their distance from it is bounded up to half a
    million pixels out. *)
Definition between (x1 y1 x2 y2 n : Z) (points : list (Z * Z)) : Prop :=
  Z.of_nat (length points) = n - 1 ∧
  (Forall (λ c, Z.abs c ≤ 2 ^ 19) [x1; y1; x2; y2] → ∀ (k : nat) p, points !! k = Some p →
   near_line x1 x2 n (Z.of_nat k + 1) p.1 ∧ near_line y1 y2 n (Z.of_nat k + 1) p.2).

Section Meaning.
Context (took : ActionId → Z) (debug_char : Z → string) (req : OpenRequest).

(** [good] are the first characters of the text, all with a key; then it ends, or there is
    one without. *)
Definition typed_prefix (text : str) (good : list Z) (r : option refusal) : Prop :=
  Forall typeable good ∧
  match r with
  | None => characters text = good
  | Some (code, reason) => ∃ c rest, characters text = good ++ c :: rest ∧ ¬ typeable c ∧
      code = PermissionDenied ∧
      reason = "permission_denied: char " +:+ debug_char c +:+
               " has no US-QWERTY scancode; use SetClipboard + paste"
  end.

(** A device with a US layout that reads [ws] types [text], holding no key before or
    behind it: two reports of the keyboard for each character. *)
Definition types (ws : list Wire) (text : list Z) : Prop :=
  (∀ later, typed [] (ws ++ later) = text ++ typed [] later) ∧
  length ws = (2 * length text)%nat ∧
  Forall (λ w, ∃ report, w = W_UhidInput 1 report ∧ length report = 8%nat) ws.

(** A raw report goes to the gamepad, HID id 3, when it has one to 15 bytes. *)
Inductive sends_raw : bytes → list Wire → option refusal → Prop :=
  | R_empty :
      sends_raw [] [] (Some (NotImplemented, "not_implemented: session lifecycle error: raw gamepad report is empty"))
  | R_long report :
      15 < Z.of_nat (length report) →
      sends_raw report [] (Some (PermissionDenied,
        "permission_denied: control message too large: " +:+ pretty (Z.of_nat (length report)) +:+ " bytes (max 15)"))
  | R_no_gamepad report :
      0 < Z.of_nat (length report) ≤ 15 → or_gamepad req = false →
      sends_raw report [] (Some (NotImplemented, "not_implemented: session lifecycle error: gamepad not open"))
  | R_sent report :
      0 < Z.of_nat (length report) ≤ 15 → or_gamepad req = true →
      sends_raw report [W_UhidInput 3 report] None.

(** The messages of an action performed on a session opened by [req], and the reason when
    it is rejected. *)
Inductive performs : Action → list Wire → option refusal → Prop :=
  | P_tap x y t : performs (Act_Tap x y t) [finger 0 x y 65535; finger 1 x y 0] None
  | P_swipe x1 y1 x2 y2 dur_ms t n points :
      steps_of x1 y1 x2 y2 dur_ms n → between x1 y1 x2 y2 n points →
      performs (Act_Swipe x1 y1 x2 y2 dur_ms t)
        (finger 0 x1 y1 65535 :: ((λ p, finger 2 p.1 p.2 65535) <$> points)
         ++ [finger 2 x2 y2 65535; finger 1 x2 y2 0]) None
  | P_type text t good ws r :
      or_kbd req = true → typed_prefix text good r → types ws good →
      performs (Act_TypeText text t) ws r
  | P_type_nothing text t r :
      or_kbd req = false → typed_prefix text [] r → performs (Act_TypeText text t) [] r
  | P_no_keyboard text t c rest :
      or_kbd req = false → characters text = c :: rest → typeable c →
      performs (Act_TypeText text t) []
        (Some (NotImplemented, "not_implemented: session lifecycle error: keyboard not open"))
  | P_key code t :
      performs (Act_Key code t) [W_InjectKeycode 0 code 0 0; W_InjectKeycode 1 code 0 0] None
  | P_launch target by_ t : performs (Act_Launch target by_ t) [W_StartApp target] None
  | P_clipboard text paste t :
      performs (Act_SetClipboard text paste t)
        [W_SetClipboard 0 paste (take (Z.to_nat 262130) text)] None
  | P_raw a report ws r :
      (∃ t, a = Act_GamepadFrame report t ∨ a = Act_InjectRaw report t) →
      sends_raw report ws r → performs a ws r
  | P_unresolved a :
      match a with
      | Act_TapSelector _ _ | Act_Wait _ _ | Act_GetUiRepr _ _ | Act_DumpObservation _ _
      | Act_LocalizeText _ _ _ | Act_DetectElement _ _ _ _ | Act_Ground _ _ _
      | Act_AskVisual _ _ _ => True
      | _ => False
      end →
      performs a [] (Some (NotImplemented, "not_implemented: action requires daemon-side resolver or custom wire path; route via protocol::Frame::request")).

(** A batch from the id [id] on: what arrives, the outcomes, and the index of the rejected
    action, behind which nothing is done. *)
Inductive batch : ActionId → list Action → list Wire → list BridgeOutcome → option nat → Prop :=
  | B_nil id : batch id [] [] [] None
  | B_landed id a acts ws ws' os failed :
      performs a ws None → batch (wrap 64 (id + 1)) acts ws' os failed →
      batch id (a :: acts) (ws ++ ws') (mkBridgeOutcome id true (took id) None None :: os) (S <$> failed)
  | B_rejected id a acts ws code reason :
      performs a ws (Some (code, reason)) →
      batch id (a :: acts) ws [mkBridgeOutcome id false 0 (Some reason) (Some code)] (Some 0%nat).
End Meaning.

(** ** What the code does over the message log *)

Definition touch_of (s : L) (action x y : Z) (pressure : f32) : ControlMessage :=
  touch_msg action 0 x y pressure s.

(** A finger along a line: down, the interpolated points, the end, up. *)
Definition swipe_msgs (s : L) (from to : Z * Z) (steps : Z) : list ControlMessage :=
  touch_of s ACTION_DOWN from.1 from.2 one
  :: ((λ k, touch_of s ACTION_MOVE (interpolate from.1 to.1 k steps) (interpolate from.2 to.2 k steps) one)
      <$> seqZ 1 (steps - 1))
  ++ [touch_of s ACTION_MOVE to.1 to.2 one; touch_of s ACTION_UP to.1 to.2 zero].

Definition rejection : Set := AtomicErrorCode * string.
Definition session_rejection (e : Error) : rejection := (classify_session_error e, Error_display e).

Section Effect.
Context (took : ActionId → Z) (debug_char : Z → string).

(** Characters are typed up to the first without a key. *)
Fixpoint type_effect (keyboard : bool) (cs : list Z) : list ControlMessage * option rejection :=
  match cs with
  | [] => ([], None)
  | c :: cs =>
      if decide (typeable c) then
        if keyboard then
          let '(ms, r) := type_effect keyboard cs in (char_msgs c ++ ms, r)
        else ([], Some (session_rejection (SessionLifecycle "keyboard not open")))
      else ([], Some (PermissionDenied,
                      "char " +:+ debug_char c +:+ " has no US-QWERTY scancode; use SetClipboard + paste"))
  end.

Definition raw_effect (s : L) (report : bytes) : list ControlMessage * option rejection :=
  if decide (report = []) then ([], Some (session_rejection (SessionLifecycle "raw gamepad report is empty")))
  else if decide (HID_MAX_SIZE < length report)%nat then
    ([], Some (session_rejection (ControlMessageTooLarge (Z.of_nat (length report)) (Z.of_nat HID_MAX_SIZE))))
  else if closed s then ([], Some (session_rejection (SessionLifecycle "session closed")))
  else match gamepad_hid_id s with
       | None => ([], Some (session_rejection (SessionLifecycle "gamepad not open")))
       | Some id => ([input_msg id (Z.of_nat (length report)) report], None)
       end.

Definition action_effect (s : L) (a : Action) : list ControlMessage * option rejection :=
  match a with
  | Act_Tap x y _ => ([touch_of s ACTION_DOWN x y one; touch_of s ACTION_UP x y zero], None)
  | Act_Swipe x1 y1 x2 y2 dur_ms _ =>
      (swipe_msgs s (x1, y1) (x2, y2) (swipe_steps x1 y1 x2 y2 dur_ms), None)
  | Act_TypeText text _ => type_effect (is_some (kbd s)) (characters text)
  | Act_Key code _ =>
      ([Cm_InjectKeycode (mkInjectKeycode KEY_ACTION_DOWN code 0 0);
        Cm_InjectKeycode (mkInjectKeycode KEY_ACTION_UP code 0 0)], None)
  | Act_GamepadFrame report _ | Act_InjectRaw report _ => raw_effect s report
  | Act_Launch target _ _ => ([Cm_StartApp target], None)
  | Act_SetClipboard text paste _ => ([Cm_SetClipboard (mkSetClipboard 0 paste text)], None)
  | _ => ([], Some (NotImplemented, no_resolver))
  end.

Definition outcome_of (id : ActionId) (r : option rejection) : BridgeOutcome :=
  match r with
  | None => outcome_ok id (took id)
  | Some (code, reason) => rejected id code reason
  end.

(** A batch ends behind its first rejection. *)
Fixpoint batch_effect (s : L) (id : ActionId) (acts : list Action) :
    list ControlMessage * list BridgeOutcome :=
  match acts with
  | [] => ([], [])
  | a :: acts =>
      let '(ms, r) := action_effect s a in
      match r with
      | Some _ => (ms, [outcome_of id r])
      | None =>
          let '(ms', os) := batch_effect s (wrap 64 (id + 1)) acts in (ms ++ ms', outcome_of id r :: os)
      end
  end.
End Effect.

(** The index of the last outcome, when it is a failure. *)
Definition first_failure (os : list BridgeOutcome) : option nat :=
  match last os with
  | Some o => if bo_landed o then None else Some (length os - 1)%nat
  | None => None
  end.

(** ** The bridge over the message log *)

(** [s] differs from [s0] in its log, and its keyboard has no key down. *)
Definition steady (s0 s : L) : Prop :=
  screen_w s = screen_w s0 ∧ screen_h s = screen_h s0 ∧ gamepad_hid_id s = gamepad_hid_id s0 ∧
  closed s = closed s0 ∧ match kbd s0 with None => kbd s = None | Some _ => rested_session s end.

Lemma steady_say s0 s ms : steady s0 s → steady s0 (say ms s).
Proof. done. Qed.

Lemma touch_of_steady s0 s a x y p : steady s0 s → touch_of s a x y p = touch_of s0 a x y p.
Proof. intros (Hw & Hh & _). unfold touch_of, touch_msg. by rewrite Hw, Hh. Qed.

Section LogRun.
Context (took : ActionId → Z) (debug_char : Z → string).

Abbreviation apply' := (apply_action (W := MsgLog) took debug_char).

(** The injector's session says [ms]. *)
Definition injector_says (ms : list ControlMessage) (i : LI) : LI := set_session (say ms (session i)) i.

Lemma says_says ms ms' i : injector_says ms' (injector_says ms i) = injector_says (ms ++ ms') i.
Proof. unfold injector_says, set_session. cbn. by rewrite say_say. Qed.

Lemma says_nil i : injector_says [] i = i.
Proof. unfold injector_says. rewrite say_nil. by destruct i. Qed.

Lemma maybe_flush_says i : maybe_flush i = (Ok tt, injector_says [] i).
Proof. rewrite says_nil. unfold maybe_flush. destruct (batch_depth i =? 0); [|done]. by destruct i as [[] ? ?]. Qed.

Lemma on_session_says (c : cmd L Error unit) ms i :
  c (session i) = (Ok tt, say ms (session i)) → on_injector_session c i = (Ok tt, injector_says ms i).
Proof. intros Hc. unfold on_injector_session, zoom. by rewrite Hc. Qed.

Lemma conclude_says id (r : cmd LI Error unit) i i' :
  r i = (Ok tt, i') → conclude took id r i = (Ok (outcome_ok id (took id)), i').
Proof. intros Hr. unfold conclude, or_reject. by rewrite Hr. Qed.

Lemma swipe_says p (from to : Z * Z) steps (s : L) :
  2 ≤ steps → p = 0 →
  swipe_pointer p from to steps s = (Ok tt, say (swipe_msgs s from to steps) s).
Proof.
  intros Hs ->. unfold swipe_pointer. rewrite Z.max_l by done.
  rewrite (bind_ok _ _ _ _ _ (inject_touch_say _ _ _ _ _ _)).
  assert (∀ s : L, move_along 0 from to steps s =
    (Ok tt, say ((λ k, touch_of s ACTION_MOVE (interpolate from.1 to.1 k steps)
                         (interpolate from.2 to.2 k steps) one) <$> seqZ 1 (steps - 1)) s)) as Hm.
  { intros s1. unfold move_along. by apply (for_each_say (λ k s, touch_of s ACTION_MOVE
      (interpolate from.1 to.1 k steps) (interpolate from.2 to.2 k steps) one)). }
  rewrite (bind_ok _ _ _ _ _ (Hm _)).
  rewrite (bind_ok _ _ _ _ _ (inject_touch_say _ _ _ _ _ _)), inject_touch_say, !say_say.
  done.
Qed.

(** From [i] to [i'] the messages [ms] were said, and nothing else changed that matters. *)
Definition effected (s0 : L) (ms : list ControlMessage) (i i' : LI) : Prop :=
  msgs (session i') = msgs (session i) ++ ms ∧ steady s0 (session i') ∧
  next_id i' = next_id i ∧ batch_depth i' = batch_depth i.

Lemma effected_says s0 ms i : steady s0 (session i) → effected s0 ms i (injector_says ms i).
Proof. by intros Hs. Qed.

Lemma type_char_keys m sc (s s' : L) :
  type_char sc m s = (Ok tt, s') →
  ∃ s1, key (to_u8 sc) true m s = (Ok tt, s1) ∧ key (to_u8 sc) false m s1 = (Ok tt, s').
Proof.
  unfold type_char, mbind, cmd_bind. destruct (key (to_u8 sc) true m s) as [[[]|e|] s1]; [|done..].
  intros E. by exists s1.
Qed.

Lemma key_closed sc p m (s : L) :
  kbd s = None → key sc p m s = (Err (SessionLifecycle "keyboard not open"), s).
Proof. intros Hk. unfold key, on_kbd, mbind, cmd_bind. by rewrite Hk. Qed.

Lemma steady_typed s0 s s' k :
  steady s0 s → kbd s0 = Some k → rested_session s' → set_link (link s) (set_kbd (kbd s) s') = s →
  steady s0 s'.
Proof.
  intros (Hw & Hh & Hg & Hc & _) Hk Hr Hs. rewrite <-Hs in Hw, Hh, Hg, Hc. cbn in Hw, Hh, Hg, Hc.
  unfold steady. rewrite Hk. by split_and!.
Qed.

Lemma key_devices sc p m (s : L) :
  set_link (link s) (set_kbd (kbd s) (key sc p m s).2) = s.
Proof.
  unfold key, on_kbd, send, on_link, zoom, mbind, cmd_bind. destruct s as [l [k|]]; cbn; [|done].
  by destruct (key_event sc p m k) as [[]].
Qed.

Lemma type_chars_effect s0 id cs i :
  steady s0 (session i) → Forall (λ c, 0 ≤ c) cs →
  let '(ms, r) := type_effect debug_char (is_some (kbd s0)) cs in
  ∃ i', type_chars took debug_char id cs i = (Ok (outcome_of took id r), i') ∧ effected s0 ms i i'.
Proof.
  intros Hs Hcs. revert i Hs. induction Hcs as [|c cs Hc _ IH]; intros i Hs; cbn [type_effect type_chars].
  { eexists. split; [apply conclude_says, maybe_flush_says|]. by apply effected_says. }
  destruct (try_from_char c) as [m [sc|]] eqn:E.
  2:{ rewrite decide_False.
      - exists i. split; [done|]. unfold effected. by rewrite app_nil_r.
      - intros Ht. destruct (try_from_char_typeable c Hc Ht) as (m' & s' & E' & _). congruence. }
  destruct (try_from_char_usage c m sc Hc E) as (Ht & _ & Hm & Hsc).
  rewrite decide_True by done. pose proof Hs as (Hw & Hh & Hg & Hcl & Hk).
  destruct (kbd s0) as [k|] eqn:Ek; cbn [is_some] in *.
  2:{ exists i. unfold or_reject at 1, on_injector_session at 1, zoom. rewrite key_closed by done.
      split; [by destruct i|]. unfold effected. by rewrite app_nil_r. }
  destruct (type_char_say m sc (session i) Hk Hm) as (s2 & Htc & Hr2 & Hl2); [lia|].
  destruct (type_char_keys _ _ _ _ Htc) as (s1 & H1 & H2).
  assert (steady s0 s2) as Hs2.
  { pose proof (key_devices (to_u8 sc) true m (session i)) as D1. rewrite H1 in D1.
    pose proof (key_devices (to_u8 sc) false m s1) as D2. rewrite H2 in D2. cbn [snd] in D1, D2.
    apply (steady_typed s0 (session i) s2 k Hs Ek Hr2). rewrite <-D1 at 3. rewrite <-D2 at 1.
    by destruct s2, (session i), s1. }
  specialize (IH (set_session s2 (set_session s1 i)) Hs2).
  destruct (type_effect debug_char true cs) as [ms r]. destruct IH as (i' & Hrun & (Hms & Hs' & Hn & Hd)).
  exists i'. unfold or_reject, on_injector_session, zoom. rewrite H1. cbn [session set_session]. rewrite H2.
  split; [exact Hrun|]. split_and!; [|done|done|done].
  rewrite Hms. cbn [session set_session]. rewrite Hl2, <-app_assoc. f_equal.
  unfold char_msgs. by rewrite E.
Qed.

Lemma raw_effect_run s0 report id i :
  steady s0 (session i) →
  let '(ms, r) := raw_effect s0 report in
  ∃ i', conclude took id (on_injector_session (inject_raw_gamepad_report report);; maybe_flush) i
        = (Ok (outcome_of took id r), i') ∧ effected s0 ms i i'.
Proof.
  intros Hs. pose proof Hs as (_ & _ & Hg & Hc & _). unfold raw_effect.
  assert (∀ e, inject_raw_gamepad_report report (session i) = (Err e, session i) →
    conclude took id (on_injector_session (inject_raw_gamepad_report report);; maybe_flush) i
    = (Ok (outcome_of took id (Some (session_rejection e))), i)) as Herr.
  { intros e He. unfold conclude, or_reject, on_injector_session, zoom, mbind, cmd_bind. rewrite He. by destruct i. }
  assert (effected s0 [] i i) as Hi by (unfold effected; by rewrite app_nil_r).
  remember (inject_raw_gamepad_report report (session i)) as x eqn:Hx. symmetry in Hx.
  pose proof Hx as Hy. unfold inject_raw_gamepad_report in Hy.
  destruct (decide (report = [])) as [|Hne]; [exists i; split; [apply Herr; by rewrite <-Hy|done]|].
  destruct (decide (HID_MAX_SIZE < length report)%nat) as [|Hl]; [exists i; split; [apply Herr; by rewrite <-Hy|done]|].
  unfold get_gamepad_hid_id, mbind, cmd_bind in Hy. rewrite Hc, Hg in Hy.
  destruct (closed s0) eqn:Ecl; [exists i; split; [apply Herr; by rewrite <-Hy|done]|].
  destruct (gamepad_hid_id s0) as [hid|] eqn:Eg; [|exists i; split; [apply Herr; by rewrite <-Hy|done]].
  eexists. split; [|by apply effected_says]. apply conclude_says.
  assert (inject_raw_gamepad_report report (session i) =
          (Ok tt, say [input_msg hid (Z.of_nat (length report)) report] (session i))) as Hr.
  { unfold inject_raw_gamepad_report. rewrite !decide_False by done.
    unfold get_gamepad_hid_id, mbind, cmd_bind. rewrite Hc, Hg. cbn [ok_or].
    unfold HID_MAX_SIZE in Hl. rewrite wrap_small by (widths; lia).
    unfold on_link, zoom. cbn [sink_uhid_input Log_sink]. rewrite decide_False; [done|].
    unfold HID_MAX_SIZE. lia. }
  rewrite (bind_ok _ _ _ _ _ (on_session_says _ _ _ Hr)), maybe_flush_says, says_says. by rewrite app_nil_r.
Qed.

(** What the Rust types, and the limits of the wire, ask of an action. *)
Definition action_ok (a : Action) : Prop :=
  match a with
  | Act_Tap x y _ => i32 x ∧ i32 y
  | Act_Swipe x1 y1 x2 y2 dur_ms _ => i32 x1 ∧ i32 y1 ∧ i32 x2 ∧ i32 y2 ∧ u32 dur_ms
  | Act_TypeText text _ => is_str text
  | Act_Key code _ => u32 code
  | Act_GamepadFrame report _ | Act_InjectRaw report _ => is_bytes report
  | Act_Launch target _ _ => acceptable (Cm_StartApp target)
  | Act_SetClipboard text paste _ => acceptable (Cm_SetClipboard (mkSetClipboard 0 paste text))
  | _ => True
  end.

Lemma two_says (c d : cmd L Error unit) ms ms' i :
  (∀ s, c s = (Ok tt, say ms s)) → (∀ s, d s = (Ok tt, say ms' s)) → ∀ id,
  conclude took id (on_injector_session c;; on_injector_session d;; maybe_flush) i =
  (Ok (outcome_ok id (took id)), injector_says (ms ++ ms') i).
Proof.
  intros Hc Hd id. apply conclude_says.
  rewrite (bind_ok _ _ _ _ _ (on_session_says _ _ _ (Hc _))).
  rewrite (bind_ok _ _ _ _ _ (on_session_says _ _ _ (Hd _))).
  by rewrite maybe_flush_says, !says_says, app_nil_r.
Qed.

Lemma one_says (c : cmd L Error unit) ms i :
  c (session i) = (Ok tt, say ms (session i)) → ∀ id,
  conclude took id (on_injector_session c;; maybe_flush) i =
  (Ok (outcome_ok id (took id)), injector_says ms i).
Proof.
  intros Hc id. apply conclude_says.
  rewrite (bind_ok _ _ _ _ _ (on_session_says _ _ _ Hc)).
  by rewrite maybe_flush_says, says_says, app_nil_r.
Qed.

Lemma swipe_steps_range x1 y1 x2 y2 d : 2 ≤ swipe_steps x1 y1 x2 y2 d ≤ MAX_STEPS.
Proof. unfold swipe_steps, MAX_STEPS. lia. Qed.

Lemma swipe_msgs_steady s0 s from to n : steady s0 s → swipe_msgs s from to n = swipe_msgs s0 from to n.
Proof. intros (Hw & Hh & _). unfold swipe_msgs, touch_of, touch_msg. by rewrite Hw, Hh. Qed.

Lemma tap_effect id x y i :
  bridge_tap took id x y i =
  (Ok (outcome_ok id (took id)),
   injector_says [touch_of (session i) ACTION_DOWN x y one; touch_of (session i) ACTION_UP x y zero] i).
Proof.
  apply conclude_says.
  rewrite (bind_ok _ _ _ _ _ (on_session_says _ _ _ (inject_touch_say _ _ _ _ _ _))).
  rewrite (bind_ok _ _ _ _ _ (on_session_says _ _ _ (inject_touch_say _ _ _ _ _ _))).
  by rewrite maybe_flush_says, !says_says.
Qed.

Lemma apply_action_effect s0 a i :
  steady s0 (session i) → action_ok a →
  let '(ms, r) := action_effect debug_char s0 a in
  ∃ i', apply' a i = (Ok (outcome_of took (next_id i) r), i') ∧
        msgs (session i') = msgs (session i) ++ ms ∧ steady s0 (session i') ∧
        next_id i' = wrap 64 (next_id i + 1) ∧ batch_depth i' = batch_depth i.
Proof.
  intros Hs Ha. unfold apply_action, take_id, mbind, cmd_bind.
  set (j := mkInjector (session i) (wrap 64 (next_id i + 1)) (batch_depth i)).
  assert (steady s0 (session j)) as Hj by done.
  assert (∀ ms (c : cmd LI Error BridgeOutcome),
    c j = (Ok (outcome_ok (next_id i) (took (next_id i))), injector_says ms j) →
    ∃ i', c j = (Ok (outcome_of took (next_id i) None), i') ∧
        msgs (session i') = msgs (session i) ++ ms ∧ steady s0 (session i') ∧
        next_id i' = wrap 64 (next_id i + 1) ∧ batch_depth i' = batch_depth i) as Hok.
  { intros ms c Hc. by exists (injector_says ms j). }
  destruct a as [x y d|sel d|text d|code d|x1 y1 x2 y2 dur d|report d|target by_ d|text paste d|p d
    |sid d|comps d|raw d|q reg d|cn cm reg d|text fr d|q fr d]; cbn [action_effect];
    try (exists j; cbn; rewrite app_nil_r; by split_and!).
  - apply Hok. rewrite tap_effect. by rewrite !(touch_of_steady s0 _ _ _ _ _ Hj).
  - unfold bridge_type_text. pose proof (type_chars_effect s0 (next_id i) (characters text) j Hj) as Ht.
    destruct (type_effect _ _ _) as [ms r]. destruct Ht as (i' & Hrun & Hm & Hst & Hn & Hd).
    { by apply chars_range. }
    exists i'. by split_and!.
  - apply Hok. by apply (two_says _ _ [_] [_]).
  - apply Hok. rewrite <-(swipe_msgs_steady s0 (session j)) by done. apply one_says.
    apply swipe_says; [|done]. apply swipe_steps_range.
  - pose proof (raw_effect_run s0 report (next_id i) j Hj) as Hr.
    destruct (raw_effect s0 report) as [ms r]. destruct Hr as (i' & Hrun & Hm & Hst & Hn & Hd).
    exists i'. by split_and!.
  - apply Hok. by apply one_says.
  - apply Hok. by apply one_says.
  - pose proof (raw_effect_run s0 raw (next_id i) j Hj) as Hr.
    destruct (raw_effect s0 raw) as [ms r]. destruct Hr as (i' & Hrun & Hm & Hst & Hn & Hd).
    exists i'. by split_and!.
Qed.

Lemma outcome_of_landed id r : bo_landed (outcome_of took id r) = match r with None => true | _ => false end.
Proof. by destruct r as [[]|]. Qed.

Lemma first_failure_cons o os : bo_landed o = true → first_failure (o :: os) = S <$> first_failure os.
Proof.
  intros Ho. unfold first_failure. destruct os as [|o' os]; cbn [last]; [by rewrite Ho|].
  destruct (last (o' :: os)) as [x|] eqn:E; [|by apply last_None in E].
  destruct (bo_landed x); [done|]. cbn. by rewrite !Nat.sub_0_r.
Qed.

Lemma apply_each_effect s0 acts i done :
  steady s0 (session i) → Forall action_ok acts → 0 ≤ next_id i < 2 ^ 64 →
  let '(ms, os) := batch_effect took debug_char s0 (next_id i) acts in
  ∃ i', apply_each took debug_char done acts i =
          (Ok (done ++ os, (λ k, (length done + k)%nat) <$> first_failure os), i') ∧
        msgs (session i') = msgs (session i) ++ ms ∧ batch_depth i' = batch_depth i.
Proof.
  intros Hs Hacts. revert i done Hs. induction Hacts as [|a acts Ha _ IH]; intros i done Hs Hn;
    cbn [batch_effect apply_each].
  { exists i. by rewrite !app_nil_r. }
  pose proof (apply_action_effect s0 a i Hs Ha) as Hrun.
  destruct (action_effect debug_char s0 a) as [ms r].
  destruct Hrun as (i1 & Hrun & Hm & Hs1 & Hn1 & Hd1). unfold mbind, cmd_bind. rewrite Hrun.
  pose proof (outcome_of_landed (next_id i) r) as Hl.
  destruct r as [rej|]; rewrite Hl.
  - exists i1. split; [|done]. unfold mret, cmd_ret. do 3 f_equal. unfold first_failure. cbn [last length].
    rewrite Hl, length_app. cbn. f_equal. lia.
  - specialize (IH i1 (done ++ [outcome_of took (next_id i) None]) Hs1). rewrite Hn1 in IH.
    destruct (batch_effect took debug_char s0 (wrap 64 (next_id i + 1)) acts) as [ms' os].
    destruct IH as (i' & Hrun' & Hm' & Hd'); [unfold wrap; by apply Z.mod_pos_bound|].
    exists i'. split; [|split; [by rewrite Hm', Hm, <-app_assoc|by rewrite Hd', Hd1]].
    rewrite Hrun', <-app_assoc. do 3 f_equal. rewrite first_failure_cons by (by rewrite Hl).
    destruct (first_failure os) as [k|]; [|done]. cbn. f_equal. rewrite length_app. cbn. lia.
Qed.

Lemma apply_many_effect s0 acts i :
  steady s0 (session i) → Forall action_ok acts → 0 ≤ next_id i < 2 ^ 64 → batch_depth i = 0 →
  let '(ms, os) := batch_effect took debug_char s0 (next_id i) acts in
  ∃ i', apply_many took debug_char acts i = (Ok (os, first_failure os), i') ∧
        msgs (session i') = msgs (session i) ++ ms.
Proof.
  intros Hs Hacts Hn Hd. unfold apply_many, set_depth, modify, mbind, cmd_bind.
  pose proof (apply_each_effect s0 acts (mkInjector (session i) (next_id i) (Z.min (2 ^ 32 - 1) (batch_depth i + 1)))
    [] Hs Hacts Hn) as Hrun. cbn [next_id session batch_depth] in Hrun.
  destruct (batch_effect took debug_char s0 (next_id i) acts) as [ms os].
  destruct Hrun as (i1 & -> & Hm & Hd1). unfold land_batch. cbn [batch_depth]. rewrite Hd1, Hd.
  change (Z.max 0 (Z.min (2 ^ 32 - 1) (0 + 1) - 1) =? 0) with true. cbn [app length].
  assert (∀ j : LI, injector_flush j = (Ok 0, j)) as Hf by (by intros [[] ? ?]). rewrite Hf.
  eexists. split; [by destruct (first_failure os)|exact Hm].
Qed.
End LogRun.

(** ** The effect is the meaning *)

(** The session of [req], as far as the actions look at it. *)
Definition opened_as (req : OpenRequest) (s : L) : Prop :=
  screen_w s = 1080 ∧ screen_h s = 1920 ∧ is_some (kbd s) = or_kbd req ∧ closed s = false ∧
  gamepad_hid_id s = if or_gamepad req then Some 3 else None.

Lemma opened_for req : opened_as req (open (mkLog []) req).2.
Proof. by destruct req as [[] [] [] c w h]. Qed.

Section Means.
Context (took : ActionId → Z) (debug_char : Z → string) (req : OpenRequest) (s : L).
Hypothesis Hopen : opened_as req s.

Lemma touch_of_wire a x y p : wire_of (touch_of s a x y p) = finger a x y (pressure_fixed p).
Proof. destruct Hopen as (Hw & Hh & _). unfold touch_of, touch_msg, finger. cbn. by rewrite Hw, Hh. Qed.

Lemma touch_of_one a x y : wire_of (touch_of s a x y one) = finger a x y 65535.
Proof. by rewrite touch_of_wire. Qed.

Lemma touch_of_zero a x y : wire_of (touch_of s a x y zero) = finger a x y 0.
Proof. by rewrite touch_of_wire. Qed.

(** A rejection as the outcome words it. *)
Definition worded (r : rejection) : refusal := (r.1, code_as_str r.1 +:+ ": " +:+ r.2).

Lemma swipe_performs x1 y1 x2 y2 d t :
  performs debug_char req (Act_Swipe x1 y1 x2 y2 d t)
    (wire_of <$> swipe_msgs s (x1, y1) (x2, y2) (swipe_steps x1 y1 x2 y2 d)) None.
Proof.
  set (n := swipe_steps x1 y1 x2 y2 d). pose proof (swipe_steps_range x1 y1 x2 y2 d) as Hn. fold n in Hn.
  unfold MAX_STEPS in Hn.
  set (pts := (λ k, (interpolate x1 x2 k n, interpolate y1 y2 k n)) <$> seqZ 1 (n - 1)).
  assert (wire_of <$> swipe_msgs s (x1, y1) (x2, y2) n =
    finger 0 x1 y1 65535 :: ((λ p, finger 2 p.1 p.2 65535) <$> pts)
      ++ [finger 2 x2 y2 65535; finger 1 x2 y2 0]) as ->.
  { unfold swipe_msgs, pts. cbn [fst snd]. rewrite fmap_cons, fmap_app, touch_of_one. f_equal.
    rewrite <-!list_fmap_compose. f_equal.
    - apply list_fmap_ext. intros k z _. by apply touch_of_one.
    - cbn [fmap list_fmap]. by rewrite touch_of_one, touch_of_zero. }
  apply (P_swipe _ _ x1 y1 x2 y2 d t n pts); [done|]. split.
  { unfold pts. rewrite length_fmap, length_seqZ. lia. }
  intros Hb k p Hp. rewrite !Forall_cons in Hb. destruct Hb as (Hx1 & Hy1 & Hx2 & Hy2 & _).
  unfold pts in Hp. apply list_lookup_fmap_Some in Hp as (z & -> & Hz).
  apply lookup_seqZ in Hz as [-> Hk]. unfold near_line. cbn [fst snd].
  replace (Z.of_nat k + 1) with (1 + Z.of_nat k) by lia.
  split; apply interpolate_near; lia.
Qed.

Lemma types_nil : types [] [].
Proof. split_and!; [done..|by apply Forall_nil]. Qed.

Lemma types_app ws ws' a b : types ws a → types ws' b → types (ws ++ ws') (a ++ b).
Proof.
  intros (Ht & Hl & HF) (Ht' & Hl' & HF'). split_and!.
  - intros later. by rewrite <-!app_assoc, Ht, Ht'.
  - rewrite !length_app. lia.
  - by apply Forall_app.
Qed.

Lemma char_types c : 0 ≤ c → typeable c → types (wire_of <$> char_msgs c) [c].
Proof.
  intros Hc Ht. split.
  - intros later. by rewrite typed_char_then, decide_True.
  - destruct (char_wires c Hc Ht) as (m & sc & -> & _). split; [done|].
    repeat apply Forall_cons_2; [by eexists..|by apply Forall_nil].
Qed.

(** The characters typed before the text ends or one has no key. *)
Lemma type_effect_means cs :
  Forall (λ c, 0 ≤ c) cs →
  let '(ms, r) := type_effect debug_char true cs in
  ∃ good, types (wire_of <$> ms) good ∧ Forall typeable good ∧
    match r with
    | None => cs = good
    | Some e => ∃ c rest, cs = good ++ c :: rest ∧ ¬ typeable c ∧
        e = (PermissionDenied, "char " +:+ debug_char c +:+ " has no US-QWERTY scancode; use SetClipboard + paste")
    end.
Proof.
  induction 1 as [|c cs Hc _ IH]; cbn [type_effect].
  { exists []. by split; [apply types_nil|]. }
  case_decide as Ht.
  - destruct (type_effect debug_char true cs) as [ms r]. destruct IH as (good & Hty & Hg & Hr).
    exists (c :: good). rewrite fmap_app. split; [by apply (types_app _ _ [c]); [apply char_types|]|].
    split; [by apply Forall_cons|]. destruct r as [e|]; [|by subst].
    destruct Hr as (c' & rest & -> & Hr). by exists c', rest.
  - exists []. split; [apply types_nil|]. split; [by apply Forall_nil|]. by exists c, cs.
Qed.

Lemma type_performs text t :
  is_str text →
  let '(ms, r) := type_effect debug_char (or_kbd req) (characters text) in
  performs debug_char req (Act_TypeText text t) (wire_of <$> ms) (worded <$> r).
Proof.
  intros Hs. pose proof (chars_range text Hs) as Hcs. fold (characters text) in Hcs.
  destruct (or_kbd req) eqn:Hk.
  - pose proof (type_effect_means (characters text) Hcs) as H.
    destruct (type_effect debug_char true (characters text)) as [ms r]. destruct H as (good & Hty & Hg & Hr).
    apply (P_type _ _ text t good); [done| |done]. split; [done|].
    destruct r as [e|]; [|done]. destruct Hr as (c & rest & -> & Hn & ->). by exists c, rest.
  - destruct (characters text) as [|c rest] eqn:Ec; cbn [type_effect].
    { apply P_type_nothing; [done|]. by split. }
    case_decide as Ht; [by eapply P_no_keyboard|].
    apply P_type_nothing; [done|]. split; [by apply Forall_nil|]. by exists c, rest.
Qed.

Lemma raw_performs report :
  let '(ms, r) := raw_effect s report in sends_raw req report (wire_of <$> ms) (worded <$> r).
Proof.
  destruct Hopen as (_ & _ & _ & Hc & Hg). unfold raw_effect. rewrite Hc, Hg.
  case_decide as He; [subst; apply R_empty|]. case_decide as Hl; [apply R_long; unfold HID_MAX_SIZE in Hl; lia|].
  assert (0 < Z.of_nat (length report) ≤ 15) as Hr.
  { unfold HID_MAX_SIZE in Hl. destruct report; [done|]. cbn [length] in *. lia. }
  destruct (or_gamepad req) eqn:E; [|by apply R_no_gamepad].
  assert (wire_of (input_msg 3 (Z.of_nat (length report)) report) = W_UhidInput 3 report) as Hw.
  { cbn. f_equal. rewrite Nat2Z.id, Nat.min_l by (unfold HID_MAX_SIZE; lia).
    rewrite take_fixed_data by (unfold HID_MAX_SIZE; lia). by apply firstn_all2. }
  cbn [fmap list_fmap]. rewrite Hw. by apply R_sent.
Qed.

(** What the code does is what the action means. *)
Lemma action_effect_performs a :
  action_ok a →
  let '(ms, r) := action_effect debug_char s a in
  performs debug_char req a (wire_of <$> ms) (worded <$> r).
Proof.
  intros Ha. pose proof Hopen as (_ & _ & Hk & _).
  assert (∀ report, (∃ t, a = Act_GamepadFrame report t ∨ a = Act_InjectRaw report t) →
    let '(ms, r) := raw_effect s report in performs debug_char req a (wire_of <$> ms) (worded <$> r)) as Hraw.
  { intros report Hr. pose proof (raw_performs report) as H. destruct (raw_effect s report) as [ms r].
    by apply (P_raw _ _ a report). }
  destruct a as [x y d|sel d|text d|code d|x1 y1 x2 y2 dur d|report d|target by_ d|text paste d|p d
    |sid d|comps d|raw d|q reg d|cn cm reg d|text fr d|q fr d]; cbn [action_effect];
    try (by apply P_unresolved).
  - cbn [fmap list_fmap]. rewrite touch_of_one, touch_of_zero. apply P_tap.
  - rewrite Hk. by apply type_performs.
  - apply P_key.
  - apply swipe_performs.
  - apply Hraw. by exists d; left.
  - apply P_launch.
  - cbn [fmap list_fmap wire_of]. unfold text_of. cbn [sc_text]. case_decide as Hl; [apply P_clipboard|].
    change SET_CLIPBOARD_TEXT_MAX with 262130 in Hl.
    assert (take (Z.to_nat 262130) text = text) as Ht by (apply firstn_all2; lia).
    pose proof (P_clipboard debug_char req text paste d) as Hp. by rewrite Ht in Hp.
  - apply Hraw. by exists d; right.
Qed.

Lemma batch_effect_means id acts :
  Forall action_ok acts →
  let '(ms, os) := batch_effect took debug_char s id acts in
  batch took debug_char req id acts (wire_of <$> ms) os (first_failure os).
Proof.
  intros Hacts. revert id. induction Hacts as [|a acts Ha _ IH]; intros id; cbn [batch_effect]; [apply B_nil|].
  pose proof (action_effect_performs a Ha) as H. destruct (action_effect debug_char s a) as [ms r].
  destruct r as [[code reason]|].
  - by apply (B_rejected _ _ _ id a acts _ code).
  - specialize (IH (wrap 64 (id + 1))).
    destruct (batch_effect took debug_char s (wrap 64 (id + 1)) acts) as [ms' os].
    rewrite fmap_app, first_failure_cons by done. by apply B_landed.
Qed.
End Means.

(** ** Over a healthy transport *)

Section BridgeSim.
Context {W : Type} `{!MessageSink W, !ReliableSink W} (base : bytes).
Context (took : ActionId → Z) (debug_char : Z → string).

(** The sessions are related, and the rest of the injectors is the same. *)
Definition injectors (i : ActionInjector W) (l : LI) : Prop :=
  related base (session i) (session l) ∧ next_id i = next_id l ∧ batch_depth i = batch_depth l.

Abbreviation isim := (sim injectors (λ l : LI, msgs (session l))).

Lemma in_session_isim {A} (c : cmd (HidSession W) Error A) (d : cmd L Error A) :
  sim (related base) msgs c d → isim (on_injector_session c) (on_injector_session d).
Proof. apply sim_zoom; [done|by intros i l [H _]|]. by intros i l s1 s2 (_ & ? & ?) Hx. Qed.

Lemma maybe_flush_isim : isim maybe_flush maybe_flush.
Proof.
  unfold maybe_flush.
  apply (sim_state _ _ (λ i, batch_depth i =? 0) (λ l, batch_depth l =? 0)
    (λ b, if b then _ ← injector_flush; mret tt else mret tt)
    (λ b, if b then _ ← injector_flush; mret tt else mret tt)).
  - by intros i l (_ & _ & ->).
  - intros []; [|apply sim_ret].
    eapply sim_ext; [| |apply (in_session_isim _ _ (session_flush_sim base))]; intros i;
      unfold injector_flush, on_injector_session, zoom, mbind, cmd_bind;
      by destruct (session_flush (session i)) as [[]].
Qed.

Lemma or_reject_isim id (c : cmd (ActionInjector W) Error unit) (d : cmd LI Error unit) k h :
  isim c d → isim k h → isim (or_reject id c k) (or_reject id d h).
Proof.
  intros [Hd Hc] [Hh Hk]. split.
  - intros l. specialize (Hd l). unfold or_reject. destruct (d l) as [[a|e|] l1]; [|done..].
    etrans; [exact Hd|apply Hh].
  - intros i l Hr HF. specialize (Hc i l Hr). unfold or_reject in *.
    destruct (d l) as [[a|e|] l1]; cbn [fst snd] in *; (destruct Hc as [Ho HR];
      [first [exact HF|eapply Forall_grows; [apply Hh|exact HF]]|]);
      destruct (c i) as [o' i1]; cbn [fst snd] in *; subst o'; [by apply Hk|done..].
Qed.

Lemma conclude_isim id (c : cmd (ActionInjector W) Error unit) (d : cmd LI Error unit) :
  isim c d → isim (conclude took id c) (conclude took id d).
Proof. intros H. apply or_reject_isim; [done|apply sim_ret]. Qed.

Lemma call_isim c : isim (on_injector_session (run_call c)) (on_injector_session (run_call c)).
Proof. apply in_session_isim, run_call_sim. Qed.

Lemma type_chars_isim id cs : isim (type_chars took debug_char id cs) (type_chars took debug_char id cs).
Proof.
  induction cs as [|c cs IH]; cbn [type_chars]; [apply conclude_isim, maybe_flush_isim|].
  destruct (try_from_char c) as [m [sc|]]; [|apply sim_ret].
  apply or_reject_isim; [apply (call_isim (C_key (to_u8 sc) true m))|].
  apply or_reject_isim; [apply (call_isim (C_key (to_u8 sc) false m))|done].
Qed.

(** A call, or two, and the flush behind them. *)
Lemma call_flush_isim id c :
  isim (conclude took id (on_injector_session (run_call c);; maybe_flush))
       (conclude took id (on_injector_session (run_call c);; maybe_flush)).
Proof.
  apply conclude_isim, sim_bind; [apply call_isim|intros _; apply maybe_flush_isim].
Qed.

Lemma calls_flush_isim id c c' :
  isim (conclude took id (on_injector_session (run_call c);; on_injector_session (run_call c');; maybe_flush))
       (conclude took id (on_injector_session (run_call c);; on_injector_session (run_call c');; maybe_flush)).
Proof.
  apply conclude_isim, sim_bind; [apply call_isim|intros _].
  apply sim_bind; [apply call_isim|intros _; apply maybe_flush_isim].
Qed.

Lemma apply_action_isim a : isim (apply_action took debug_char a) (apply_action took debug_char a).
Proof.
  apply sim_bind.
  { apply sim_silent; [done|]. intros i l (Hr & Hn & Hd). cbn. rewrite Hn. by split_and!. }
  intros id. destruct a; try apply sim_ret.
  - apply (calls_flush_isim id (C_inject_touch ACTION_DOWN 0 x y one) (C_inject_touch ACTION_UP 0 x y zero)).
  - apply type_chars_isim.
  - apply (calls_flush_isim id (C_send _) (C_send _)).
  - apply (call_flush_isim id (C_swipe_pointer 0 (x1, y1) (x2, y2) _)).
  - apply (call_flush_isim id (C_inject_raw_gamepad_report report)).
  - apply (call_flush_isim id (C_send _)).
  - apply (call_flush_isim id (C_send _)).
  - apply (call_flush_isim id (C_inject_raw_gamepad_report raw)).
Qed.

Lemma apply_each_isim acts done :
  isim (apply_each took debug_char done acts) (apply_each took debug_char done acts).
Proof.
  revert done. induction acts as [|a acts IH]; intros done; cbn [apply_each]; [apply sim_ret|].
  apply sim_bind; [apply apply_action_isim|]. intros o. destruct (bo_landed o); [apply IH|apply sim_ret].
Qed.

Lemma set_depth_isim f : isim (set_depth f) (set_depth f).
Proof.
  apply sim_silent; [done|]. intros i l (Hr & Hn & Hd). split; [done|].
  split; [exact Hr|]. split; [exact Hn|]. cbn. by rewrite Hd.
Qed.

(** A flush that succeeds leaves the result alone. *)
Lemma land_batch_isim r : isim (land_batch r) (land_batch r).
Proof.
  assert (∀ l : LI, injector_flush l = (Ok 0, l)) as Hl by (by intros [[] ? ?]).
  apply sim_silent.
  - intros l. unfold land_batch. rewrite Hl. by destruct (batch_depth l =? 0).
  - intros i l (Hrel & Hn & Hd). unfold land_batch. rewrite Hd, Hl.
    destruct (batch_depth l =? 0); [|done].
    destruct Hrel as (Hdev & Hw & fs & Hfs & Hs).
    destruct (sink_flush_ok (link (session i)) Hw) as (n & w' & H & Hw' & Hs').
    unfold injector_flush, on_injector_session, session_flush, on_link, zoom. rewrite H.
    split; [done|]. split; [|done]. split; [exact Hdev|]. split; [done|]. exists fs. split; [done|].
    cbn. by rewrite Hs'.
Qed.

Lemma apply_many_isim acts : isim (apply_many took debug_char acts) (apply_many took debug_char acts).
Proof.
  unfold apply_many. apply sim_bind; [apply set_depth_isim|intros _].
  apply sim_bind; [apply apply_each_isim|]. intros r.
  apply sim_bind; [apply set_depth_isim|intros _; apply land_batch_isim].
Qed.

(** The injector's depth is its log's. *)
Lemma depth_back acts i l :
  injectors i l → Forall acceptable (msgs (session (apply_each took debug_char [] acts l).2)) →
  batch_depth (apply_each took debug_char [] acts i).2 = batch_depth (apply_each took debug_char [] acts l).2.
Proof. intros Hr HF. destruct (apply_each_isim acts []) as [_ H]. by destruct (H i l Hr HF) as [_ (_ & _ & ?)]. Qed.
End BridgeSim.

Abbreviation ikeeps := (keeps (E := Error) (λ i : LI, session_ok (session i)) (λ _, True)).

Lemma on_injector_keeps (c : cmd L Error unit) : skeeps any c → ikeeps (on_injector_session c).
Proof. intros Hc. by apply (keeps_zoom _ session_ok). Qed.

Section BridgeKeeps.
Context (took : ActionId → Z) (debug_char : Z → string).

Lemma maybe_flush_keeps : ikeeps maybe_flush.
Proof. intros i Hi. by rewrite maybe_flush_says, says_nil. Qed.

Lemma or_reject_keeps id (c : cmd LI Error unit) k : ikeeps c → ikeeps k → ikeeps (or_reject id c k).
Proof.
  intros Hc Hk i Hi. specialize (Hc i Hi) as [Hc _]. unfold or_reject.
  destruct (c i) as [[a|e|] i1]; [by apply Hk|done..].
Qed.

Lemma conclude_keeps id (c : cmd LI Error unit) : ikeeps c → ikeeps (conclude took id c).
Proof. intros Hc. apply or_reject_keeps; [done|by apply keeps_ret]. Qed.

Lemma call_keeps c (k : cmd LI Error unit) :
  call_ok c → ikeeps k → ikeeps (on_injector_session (run_call c);; k).
Proof.
  intros Hc Hk. eapply keeps_bind; [by apply on_injector_keeps, run_call_keeps|]. by intros _ _.
Qed.

Lemma type_chars_keeps id cs : Forall (λ c, 0 ≤ c) cs → ikeeps (type_chars took debug_char id cs).
Proof.
  induction 1 as [|c cs Hc _ IH]; cbn [type_chars]; [apply conclude_keeps, maybe_flush_keeps|].
  destruct (try_from_char c) as [m [sc|]] eqn:E; [|by apply keeps_ret].
  destruct (try_from_char_usage c m sc Hc E) as (_ & _ & Hm & Hsc).
  assert (u8 (to_u8 sc)) as Hu by (widths; lia).
  apply or_reject_keeps; [by apply on_injector_keeps, (run_call_keeps (C_key (to_u8 sc) true m))|].
  apply or_reject_keeps; [by apply on_injector_keeps, (run_call_keeps (C_key (to_u8 sc) false m))|done].
Qed.

Lemma apply_action_keeps a : action_ok a → ikeeps (apply_action took debug_char a).
Proof.
  intros Ha. apply (keeps_bind _ (λ _, True)); [by intros i Hi|]. intros id _.
  pose proof maybe_flush_keeps as Hf.
  destruct a; cbn [action_ok] in Ha; try (by apply keeps_ret); destruct_and?.
  - apply conclude_keeps, (call_keeps (C_inject_touch ACTION_DOWN 0 x y one)); [by split_and!|].
    by apply (call_keeps (C_inject_touch ACTION_UP 0 x y zero)); [split_and!|].
  - by apply type_chars_keeps, chars_range.
  - apply conclude_keeps, (call_keeps (C_send _)); [by split; [split_and!|]|].
    by apply (call_keeps (C_send _)); [split; [split_and!|]|].
  - by apply conclude_keeps, (call_keeps (C_swipe_pointer 0 (x1, y1) (x2, y2) _)); [split_and!|].
  - by apply conclude_keeps, (call_keeps (C_inject_raw_gamepad_report report)).
  - by apply conclude_keeps, (call_keeps (C_send _)).
  - by apply conclude_keeps, (call_keeps (C_send _)).
  - by apply conclude_keeps, (call_keeps (C_inject_raw_gamepad_report raw)).
Qed.

Lemma apply_each_keeps acts done : Forall action_ok acts → ikeeps (apply_each took debug_char done acts).
Proof.
  intros Hacts. revert done. induction Hacts as [|a acts Ha _ IH]; intros done; cbn [apply_each];
    [by apply keeps_ret|].
  eapply keeps_bind; [by apply apply_action_keeps|]. intros o _. destruct (bo_landed o); [apply IH|by apply keeps_ret].
Qed.
End BridgeKeeps.

(** ** Batches *)

Lemma opened_session req :
  let s := (open (mkLog []) req).2 in session_ok s ∧ steady s s ∧ msgs s = creates req.
Proof.
  cbn zeta. destruct (open_log req) as (Ho & _ & Hm). split; [|split; [|done]].
  - destruct (open_devices_keeps req _ new_session_ok) as [H _]. unfold open in *.
    by destruct (open_devices req (new_session (mkLog []))) as [[[]|e|] s1].
  - unfold steady. split_and!; [done..|]. destruct req as [[] [] [] c w h]; cbn; try done;
      exists Keyboard_new; by split.
Qed.

(** The injector inside [apply_many]. *)
Definition one_deep {W} (i : ActionInjector W) : ActionInjector W :=
  mkInjector (session i) (next_id i) (Z.min (2 ^ 32 - 1) (batch_depth i + 1)).
Definition out_again {W} (i : ActionInjector W) : ActionInjector W :=
  mkInjector (session i) (next_id i) (Z.max 0 (batch_depth i - 1)).

Lemma apply_many_run {W} `{!MessageSink W} took dc acts (i : ActionInjector W) :
  apply_many took dc acts i =
  match apply_each took dc [] acts (one_deep i) with
  | (Ok r, i1) => land_batch r (out_again i1)
  | (Err e, i1) => (Err e, i1)
  | (Panicked, i1) => (Panicked, i1)
  end.
Proof.
  unfold apply_many, set_depth, modify, mbind, cmd_bind. fold (one_deep i).
  by destruct (apply_each took dc [] acts (one_deep i)) as [[r|e|] i1].
Qed.

Lemma apply_many_log took dc acts (j : LI) :
  msgs (session (apply_many took dc acts j).2) = msgs (session (apply_each took dc [] acts (one_deep j)).2).
Proof.
  rewrite apply_many_run. destruct (apply_each took dc [] acts (one_deep j)) as [[r|e|] j1]; [|done..].
  unfold land_batch. assert (∀ k : LI, injector_flush k = (Ok 0, k)) as Hf by (by intros [[] ? ?]).
  rewrite Hf. by destruct (batch_depth (out_again j1) =? 0).
Qed.

Lemma apply_each_depth took dc s0 acts (j : LI) :
  steady s0 (session j) → Forall action_ok acts → 0 ≤ next_id j < 2 ^ 64 →
  batch_depth (apply_each took dc [] acts j).2 = batch_depth j.
Proof.
  intros Hs Hacts Hn. pose proof (apply_each_effect took dc s0 acts j [] Hs Hacts Hn) as Hrun.
  destruct (batch_effect took dc s0 (next_id j) acts) as [ms os]. destruct Hrun as (j' & -> & _ & Hd). exact Hd.
Qed.

Section Delivery.
Context {T : Type} `{!TransportWrite T, !LawfulTransport T, !ReliableTransport T}.
Context (took : ActionId → Z) (debug_char : Z → string).

Lemma land_batch_flushed r (i : ActionInjector (CoalescingWriter T)) :
  batch_depth i = 0 → pending (link (session (land_batch r i).2)) = [].
Proof.
  intros Hd. unfold land_batch. rewrite Hd. cbn [Z.eqb].
  unfold injector_flush, on_injector_session, session_flush, on_link, zoom. cbn [sink_flush Coalescing_sink].
  pose proof (flush_now_reliable (link (session i))) as Hok.
  pose proof (flush_now_spec (link (session i))) as (_ & _ & Hm).
  destruct (flush_now (link (session i))) as [[n|e|] w]; [|done..]. apply Hm.
Qed.

Lemma apply_many_flushed acts (i : ActionInjector (CoalescingWriter T)) :
  batch_depth (apply_each took debug_char [] acts (one_deep i)).2 = 1 →
  is_ok (apply_many took debug_char acts i).1 = true →
  pending (link (session (apply_many took debug_char acts i).2)) = [].
Proof.
  rewrite apply_many_run. destruct (apply_each took debug_char [] acts (one_deep i)) as [[r|e|] i1]; [|done..].
  cbn [snd]. intros Hd _. apply land_batch_flushed. unfold out_again. cbn [batch_depth]. by rewrite Hd.
Qed.

(** C7: what a batch of actions does, end to end.  The arguments are those the Rust types
    allow, and a Launch target and a clipboard text are ones the serializer accepts (a target
    of at most 255 bytes; a clipboard text that is not cut inside a character, where the
    serializer panics).  Over a transport that never fails, [apply_many] on a newly opened
    injector gives one outcome per action up to the first that is rejected, with the ids 0, 1
    and so on, the rejection's code and text, and the index of that action; and the bytes the
    device has received then decode to the creation of the devices asked for, and behind it
    exactly the messages that [batch] says the actions mean, with none left in the writer's
    buffer.  A tap is a finger down and up at its point.  A swipe is a finger down at its
    start, 1 to 255 moves to points in between, each less than a pixel from the exact line
    when the ends are within 2^19 pixels of the origin, a move to its end and the finger up
    there.  A text is what a US-layout device types: its characters up to the first without a
    key, which is the rejection; without a keyboard nothing is typed.  A raw report of 1 to 15
    bytes is that report of the gamepad, and is rejected unsent otherwise or without a
    gamepad; the actions without a path on the wire are rejected and send nothing. *)
Theorem apply_many_delivers (t : T) (clk : nat → Z) (req : OpenRequest) (acts : list Action)
    (Hacts : Forall action_ok acts) :
  let '(o, i) := apply_many took debug_char acts (injector_open (connect t req clk) req).2 in
  ∃ ws os failed stream,
    batch took debug_char req 0 acts ws os failed ∧
    o = Ok (os, failed) ∧ pending (link (session i)) = [] ∧
    wire (transport (link (session i))) = wire t ++ stream ∧
    decode_all stream = Some ((wire_of <$> creates req) ++ ws).
Proof.
  destruct (opened_session req) as (Hsok & Hst & Hcr). pose proof (opened_for req) as Hop.
  destruct (open_related t clk req) as (_ & _ & Hrel).
  unfold injector_open. destruct (open (connect t req clk) req) as [o0 s], (open (mkLog []) req) as [o1 l].
  cbn [snd] in *. set (i := mkInjector s 0 0). set (j := mkInjector l 0 0 : LI).
  assert (injectors (wire t) i j) as Hij by done.
  pose proof (apply_many_effect took debug_char l acts j Hst Hacts ltac:(done) eq_refl) as Heff.
  pose proof (batch_effect_means took debug_char req l Hop 0 acts Hacts) as Hb.
  cbn [next_id j] in Heff. destruct (batch_effect took debug_char l 0 acts) as [ms os].
  destruct Heff as (j' & Hlog & Hms). cbn [session j] in Hms. rewrite Hcr in Hms.
  pose proof (apply_each_keeps took debug_char acts [] Hacts (one_deep j) Hsok) as [Hk _].
  pose proof (apply_each_depth took debug_char l acts (one_deep j) Hst Hacts ltac:(done)) as Hdepth.
  assert (Forall acceptable (msgs (session (apply_each took debug_char [] acts (one_deep j)).2))) as Hacc1
    by apply Hk.
  assert (Forall acceptable (msgs (session j'))) as Hacc.
  { pose proof (apply_many_log took debug_char acts j) as E. rewrite Hlog in E. cbn [snd] in E. by rewrite E. }
  destruct (apply_many_isim (wire t) took debug_char acts) as [_ Hsim].
  specialize (Hsim i j Hij). rewrite Hlog in Hsim. cbn [fst snd] in Hsim.
  destruct (Hsim Hacc) as [Ho ((_ & Hw & fs & Hfs & Hsent) & _)].
  assert (pending (link (session (apply_many took debug_char acts i).2)) = []) as Hp.
  { apply apply_many_flushed; [|rewrite Ho; done].
    rewrite (depth_back (wire t) took debug_char acts (one_deep i) (one_deep j)); [exact Hdepth|done|done]. }
  destruct (apply_many took debug_char acts i) as [o i']. cbn [fst snd] in *.
  exists (wire_of <$> ms), os, (first_failure os), fs. split; [done|]. split; [done|]. split; [done|]. split.
  - change (sent (link (session i'))) with (wire (transport (link (session i'))) ++ pending (link (session i'))) in Hsent.
    by rewrite Hp, app_nil_r in Hsent.
  - assert (Forall ControlMessage_wf (msgs (session j')) ∧ Forall encodable (msgs (session j'))) as [Hwf He].
    { split; (eapply Forall_impl; [exact Hacc|]); by intros m []. }
    destruct (decode_frames _ Hwf He) as (fs' & Hfs' & Hdec).
    change (frames (msgs (session j')) = Ok fs) in Hfs. rewrite Hfs in Hfs'. injection Hfs' as <-.
    by rewrite <-fmap_app, <-Hms.
Qed.
End Delivery.

Definition sample_actions : list Action :=
  [Act_Tap 10 20 100; Act_TypeText [72; 105] 100; Act_InjectRaw [] 100; Act_Tap 1 1 100].

Lemma apply_many_delivers_witness :
  let '(o, i) := apply_many (λ _, 3) (λ _, "?") sample_actions
                   (injector_open (connect (mkMock []) request_all (λ _, 0)) request_all).2 in
  match o with Ok (os, failed) => length os = 3%nat ∧ failed = Some 2%nat | _ => False end ∧
  ∃ ws os failed stream,
    batch (λ _, 3) (λ _, "?") request_all 0 sample_actions ws os failed ∧
    o = Ok (os, failed) ∧ pending (link (session i)) = [] ∧
    wire (transport (link (session i))) = wire (mkMock []) ++ stream ∧
    decode_all stream = Some ((wire_of <$> creates request_all) ++ ws).
Proof.
  assert (Forall action_ok sample_actions) as Hacts.
  { repeat apply Forall_cons_2; [| | | |apply Forall_nil_2]; cbn [action_ok].
    - split; widths; lia.
    - exists [72; 105]. split; [|reflexivity]. apply (bool_decide_unpack _). vm_compute. exact I.
    - apply Forall_nil_2.
    - split; widths; lia. }
  pose proof (apply_many_delivers (λ _, 3) (λ _, "?") (mkMock []) (λ _, 0) request_all sample_actions Hacts) as H.
  set (r := apply_many _ _ sample_actions _) in *.
  assert (match r.1 with Ok (os, failed) => length os = 3%nat ∧ failed = Some 2%nat | _ => False end) as Hr
    by (vm_compute; split; reflexivity).
  clearbody r. destruct r as [o i]. by split.
Defined.
