(* ===== verification/Bench.v ===== *)
(** * The micro-benchmark ([ai-device-kernel/src/bin/adk-bench.rs])

    The canonical plan is run over [MockTransport] and the latencies of its actions are
    reported.  How long an action took, in nanoseconds, is the bridge's parameter. *)

From Stdlib Require Import Sorted Ascii.
From stdpp Require Import sorting.
From S2P Require Import Prelude Words Errors Types Utf8 Float32 Format Decimal Message Transport.
From S2P Require Import Coalesce Keyboard Sink Session Refinement SessionInv Lifecycle Service ErrorFrame KernelTypes Bridge.
From S2P Require Import BridgeRefinement.
Local Open Scope Z_scope.

Definition ITERATIONS_DEFAULT : Z := 1000.

Definition canonical_plan : list Action :=
  [Act_Tap 540 1200 1000; Act_Swipe 540 800 540 200 320 1000;
   Act_TypeText (ascii_bytes "abcdefghij") 1000; Act_Key 4 1000;
   Act_GamepadFrame (replicate 15 0) 1000].

(** ** Sampling *)

Section Sampling.
Context {W : Type} `{!MessageSink W} (took : ActionId → Z) (debug_char : Z → string).

(** The inner loop: the latencies of the actions that landed. *)
Fixpoint sample_plan (plan : list Action) (samples : list Z) : cmd (ActionInjector W) Error (list Z) :=
  match plan with
  | [] => mret samples
  | a :: plan =>
      o ← apply_action took debug_char a;
      sample_plan plan (if bo_landed o then samples ++ [bo_elapsed o] else samples)
  end.

Fixpoint sample_all (iterations : nat) (plan : list Action) (samples : list Z) :
    cmd (ActionInjector W) Error (list Z) :=
  match iterations with
  | O => mret samples
  | S iterations => samples ← sample_plan plan samples; sample_all iterations plan samples
  end.
End Sampling.

(** [Vec::with_capacity] unwinds when the bytes exceed [isize::MAX]; a [Duration] has 16. *)
Definition capacity_fits (n : Z) : bool := 16 * n <? 2 ^ 63.

Definition run (took : ActionId → Z) (debug_char : Z → string) (clk : nat → Z) (iterations : Z) :
    outcome Error (list Z) :=
  match injector_open (connect Mock_new request_all clk) request_all with
  | (Ok _, injector) =>
      if capacity_fits (wrap 64 (iterations * Z.of_nat (length canonical_plan))) then
        (sample_all took debug_char (Z.to_nat iterations) canonical_plan [] injector).1
      else Panicked
  | _ => Panicked
  end.

(** ** Percentiles *)

(** A literal [n / 100]. *)
Definition hundredths (n : Z) : f64 := f64_div (f64_of_Z n) (f64_of_Z 100).

Definition percentile {E} (sorted : list Z) (pct : f64) : outcome E Z :=
  if is_nil sorted then Ok 0
  else
    let len := Z.of_nat (length sorted) in
    let idx := f64_as_usize (f64_round (f64_mul (f64_sub (f64_of_Z len) (f64_of_Z 1)) pct)) in
    or_panic (sorted !! Z.to_nat (Z.min idx (len - 1))).

Example percentile_examples :
  percentile (E := Z) (seqZ 1 100) (hundredths 99) = Ok 99 ∧
  percentile (E := Z) (seqZ 1 100) (hundredths 50) = Ok 51 ∧     (* 49.5 rounds up *)
  percentile (E := Z) [7] (hundredths 95) = Ok 7 ∧ percentile (E := Z) [] (hundredths 95) = Ok 0.
Proof. vm_compute. auto. Qed.

(** ** The report *)

Inductive Line : Set := Stdout (s : string) | Stderr (s : string).

(** What is printed is the state, and [exit] the error. *)
Abbreviation printing A := (cmd (list Line) Z A).
Definition println (s : string) : printing unit := modify (λ ls, ls ++ [Stdout s]).
Definition eprintln (s : string) : printing unit := modify (λ ls, ls ++ [Stderr s]).
Definition exit {A} (code : Z) : printing A := raise code.

Definition NANOS_PER_SEC : Z := 10 ^ 9.
(** [samples.iter().sum()]: the seconds are a [u64]. *)
Definition sum_durations {E} (samples : list Z) : outcome E Z :=
  let total := foldr Z.add 0 samples in
  if total <? 2 ^ 64 * NANOS_PER_SEC then Ok total else Panicked.

Definition mean_of {E} (total : Z) (samples : list Z) : outcome E Z :=
  if is_nil samples then Ok 0
  else
    let n := wrap 32 (Z.of_nat (length samples)) in
    if n =? 0 then Panicked else Ok (total / n).

(** [as_micros() as f64], [as_secs_f64()] *)
Definition micros (d : Z) : f64 := f64_of_Z (d / 1000).
Definition as_secs_f64 (d : Z) : f64 :=
  f64_add (f64_of_Z (d / NANOS_PER_SEC)) (f64_div (f64_of_Z (d mod NANOS_PER_SEC)) (f64_of_Z NANOS_PER_SEC)).
Definition as_ms (d : Z) : string := fmt_fixed 2 (f64_mul (as_secs_f64 d) (f64_of_Z 1000)).

(** [{:>5.1}] *)
Definition pad_left (n : nat) (s : string) : string := Nat.iter (n - String.length s) (String " "%char) s.
Definition column (d : Z) : string := pad_left 5 (fmt_fixed 1 (micros d)).

Definition SLO : Z := 5000 * 1000.
Definition slo_text (p99 : Z) (relation : string) : string :=
  "p99 = " +:+ fmt_fixed 1 (micros p99) +:+ " µs " +:+ relation +:+ " SLO " +:+ fmt_fixed 1 (micros SLO) +:+ " µs".

(** The slice is sorted in place: the sorted samples are returned. *)
Definition print_report (samples : list Z) (iterations : Z) (plan_len : nat) : printing (list Z) :=
  let samples := merge_sort Z.le samples in
  p50 ← lift (percentile samples (hundredths 50));
  p95 ← lift (percentile samples (hundredths 95));
  p99 ← lift (percentile samples (hundredths 99));
  let max := default 0 (last samples) in
  total ← lift (sum_durations samples);
  mean ← lift (mean_of total samples);
  println "== adk-bench: intent→UHID hot path ==";;
  println ("iterations      : " +:+ pretty iterations);;
  println ("plan_len        : " +:+ pretty plan_len);;
  println ("landed_samples  : " +:+ pretty (length samples));;
  println ("latency (µs)    : mean " +:+ column mean +:+ "  p50 " +:+ column p50 +:+ "  p95 " +:+ column p95
           +:+ "  p99 " +:+ column p99 +:+ "  max " +:+ column max);;
  println ("total wall      : " +:+ as_ms total +:+ " ms");;
  if SLO <? p99 then eprintln ("FAIL: " +:+ slo_text p99 "exceeds");; exit 2
  else println ("OK   : " +:+ slo_text p99 "within");; mret samples.

(** ** The program *)

Fixpoint bench_args (iterations : Z) (args : list str) : printing Z :=
  match args with
  | [] => mret iterations
  | arg :: args =>
      match strip_prefix (ascii_bytes "--iterations=") arg with
      | Some rest => bench_args (default ITERATIONS_DEFAULT (parse_unsigned 64 rest)) args
      | None =>
          if decide (arg = ascii_bytes "--quick") then bench_args 100 args
          else if decide (arg = ascii_bytes "--help" ∨ arg = ascii_bytes "-h") then
            println "adk-bench [--iterations=N] [--quick]";;
            println ("  default: " +:+ pretty ITERATIONS_DEFAULT +:+ " iterations");;
            println "  --quick: 100 iterations (for CI smoke)";;
            exit 0
          else bench_args iterations args
      end
  end.

(** [wall] is the time [run] took. *)
Definition bench_main (took : ActionId → Z) (debug_char : Z → string) (clk : nat → Z) (wall : Z)
    (argv : list str) : printing unit :=
  iterations ← bench_args ITERATIONS_DEFAULT (drop 1 argv);
  samples ← catch (lift (run took debug_char clk iterations)) (λ _, unwind);
  samples ← print_report samples iterations (length canonical_plan);
  println ("wall clock      : " +:+ as_ms wall +:+ " ms total, "
           +:+ fmt_fixed 1 (f64_div (f64_of_Z wall) (f64_of_Z (Z.max (Z.of_nat (length samples)) 1)))
           +:+ " ns / sample").

(** The usage in the file's own documentation has no effect. *)
Example iterations_with_a_space :
  bench_args ITERATIONS_DEFAULT [ascii_bytes "--iterations"; ascii_bytes "5"] [] = (Ok 1000, []) ∧
  bench_args ITERATIONS_DEFAULT [ascii_bytes "--iterations=5"] [] = (Ok 5, []).
Proof. split; reflexivity. Qed.

(** ** Every action lands *)

Section Lands.
Context (took : ActionId → Z) (debug_char : Z → string).

Definition lands (s : L) (a : Action) : Prop := action_ok a ∧ (action_effect debug_char s a).2 = None.

Lemma sample_plan_lands s0 plan samples (i : LI) :
  steady s0 (session i) → Forall (lands s0) plan → 0 ≤ next_id i → next_id i + Z.of_nat (length plan) < 2 ^ 64 →
  ∃ i', sample_plan took debug_char plan samples i =
          (Ok (samples ++ (took <$> seqZ (next_id i) (Z.of_nat (length plan)))), i') ∧
        steady s0 (session i') ∧ next_id i' = next_id i + Z.of_nat (length plan).
Proof.
  intros Hs Hp. revert samples i Hs. induction Hp as [|a plan [Ha He] _ IH]; intros samples i Hs Hn Hl; cbn [sample_plan].
  { exists i. cbn. rewrite app_nil_r. split_and!; [done..|lia]. }
  cbn [length] in Hl. pose proof (apply_action_effect took debug_char s0 a i Hs Ha) as Hrun.
  destruct (action_effect debug_char s0 a) as [ms r]. cbn [snd] in He. subst r.
  destruct Hrun as (i1 & Hrun & _ & Hs1 & Hn1 & _). rewrite (bind_ok _ _ _ _ _ Hrun). cbn [outcome_of outcome_ok bo_landed bo_elapsed].
  rewrite wrap_small in Hn1 by (widths; lia).
  destruct (IH (samples ++ [took (next_id i)]) i1 Hs1) as (i2 & Hrun2 & Hs2 & Hn2); [lia..|].
  exists i2. rewrite Hrun2, Hn1, <-app_assoc. cbn [length]. split_and!; [|done|lia].
  rewrite (seqZ_cons (next_id i)) by lia. cbn. do 5 f_equal. rewrite <-Z.add_1_r. do 2 f_equal; lia.
Qed.

Lemma sample_all_lands s0 n plan samples (i : LI) :
  steady s0 (session i) → Forall (lands s0) plan → 0 ≤ next_id i →
  next_id i + Z.of_nat (n * length plan) < 2 ^ 64 →
  ∃ i', sample_all took debug_char n plan samples i =
          (Ok (samples ++ (took <$> seqZ (next_id i) (Z.of_nat (n * length plan)))), i').
Proof.
  intros Hs Hp. revert samples i Hs. induction n as [|n IH]; intros samples i Hs Hn Hl; cbn [sample_all].
  { exists i. cbn. by rewrite app_nil_r. }
  destruct (sample_plan_lands s0 plan samples i Hs Hp Hn) as (i1 & Hrun & Hs1 & Hn1); [lia|].
  rewrite (bind_ok _ _ _ _ _ Hrun). destruct (IH (samples ++ (took <$> seqZ (next_id i) (Z.of_nat (length plan)))) i1 Hs1) as (i2 & ->); [lia..|].
  exists i2.
  rewrite Hn1, <-app_assoc, <-fmap_app, <-seqZ_app by lia. do 5 f_equal. lia.
Qed.

Lemma sample_plan_keeps plan samples : Forall action_ok plan → 
  keeps (E := Error) (λ i : LI, session_ok (session i)) (λ _, True) (sample_plan took debug_char plan samples).
Proof.
  intros Hp. revert samples. induction Hp as [|a plan Ha _ IH]; intros samples; cbn [sample_plan]; [by apply keeps_ret|].
  eapply keeps_bind; [by apply apply_action_keeps|]. intros o _. apply IH.
Qed.

Lemma sample_all_keeps n plan samples : Forall action_ok plan →
  keeps (E := Error) (λ i : LI, session_ok (session i)) (λ _, True) (sample_all took debug_char n plan samples).
Proof.
  intros Hp. revert samples. induction n as [|n IH]; intros samples; cbn [sample_all]; [by apply keeps_ret|].
  eapply keeps_bind; [by apply sample_plan_keeps|]. intros o _. apply IH.
Qed.

Section Healthy.
Context {W : Type} `{!MessageSink W, !ReliableSink W} (base : bytes).
Abbreviation isim := (sim (injectors (W := W) base) (λ l : LI, msgs (session l))).

Lemma sample_plan_isim plan samples :
  isim (sample_plan took debug_char plan samples) (sample_plan took debug_char plan samples).
Proof.
  revert samples. induction plan as [|a plan IH]; intros samples; cbn [sample_plan]; [apply sim_ret|].
  apply sim_bind; [apply apply_action_isim|]. intros o. apply IH.
Qed.

Lemma sample_all_isim n plan samples :
  isim (sample_all took debug_char n plan samples) (sample_all took debug_char n plan samples).
Proof.
  revert samples. induction n as [|n IH]; intros samples; cbn [sample_all]; [apply sim_ret|].
  apply sim_bind; [apply sample_plan_isim|]. intros o. apply IH.
Qed.
End Healthy.
End Lands.

Lemma canonical_lands dc : Forall (lands dc (open (mkLog []) request_all).2) canonical_plan.
Proof.
  unfold canonical_plan. repeat apply Forall_cons_2; [| | | | |apply Forall_nil_2]; (split; [cbn [action_ok]|vm_compute; reflexivity]).
  - split; widths; lia.
  - split_and!; widths; lia.
  - exists (ascii_bytes "abcdefghij"). split; [|reflexivity]. apply (bool_decide_unpack _). vm_compute. exact I.
  - widths; lia.
  - apply (bool_decide_unpack _). vm_compute. exact I.
Qed.

(** Every action of the canonical plan lands, in every iteration: no sample is missing. *)
Lemma run_lands took dc clk n :
  0 ≤ n → capacity_fits (5 * n) = true → run took dc clk n = Ok (took <$> seqZ 0 (5 * n)).
Proof.
  intros Hn Hcap. unfold run. destruct (opened_session request_all) as (Hsok & Hst & _).
  destruct (open_related Mock_new clk request_all) as (Ho & _ & Hrel). unfold injector_open.
  pose proof (canonical_lands dc) as Hlands.
  destruct (open (connect Mock_new request_all clk) request_all) as [o s], (open (mkLog []) request_all) as [o1 l] eqn:El.
  cbn [fst snd] in *. subst o.
  change (length canonical_plan) with 5%nat.
  assert (16 * (5 * n) < 2 ^ 63) as Hb by (by apply Z.ltb_lt). rewrite wrap_small by (widths; lia).
  replace (n * Z.of_nat 5) with (5 * n) by lia. rewrite Hcap.
  set (i := mkInjector s 0 0). set (j := mkInjector l 0 0 : LI).
  assert (injectors (wire Mock_new) i j) as Hij by done.
  destruct (sample_all_lands took dc l (Z.to_nat n) canonical_plan [] j Hst Hlands) as (j' & Hlog); [done| |].
  { change (length canonical_plan) with 5%nat. cbn [next_id j]. lia. }
  assert (Forall action_ok canonical_plan) as Hok by (eapply Forall_impl; [exact Hlands|]; by intros a []).
  pose proof (sample_all_keeps took dc (Z.to_nat n) canonical_plan [] Hok j Hsok) as [Hk _].
  destruct (sample_all_isim took dc (wire Mock_new) (Z.to_nat n) canonical_plan []) as [_ Hsim].
  destruct (Hsim i j Hij) as [-> _]; [apply Hk|]. rewrite Hlog. cbn [fst app next_id j].
  change (length canonical_plan) with 5%nat. do 3 f_equal. lia.
Qed.

(** ** The verdict *)

(** A percentile of some samples is one of them: the index never leaves the slice. *)
Lemma percentile_member {E} (sorted : list Z) pct :
  sorted ≠ [] → ∃ d, percentile (E := E) sorted pct = Ok d ∧ d ∈ sorted.
Proof.
  intros Hne. unfold percentile. destruct sorted as [|x l]; [done|]. cbn [is_nil]. set (xs := x :: l).
  set (idx := f64_as_usize _). assert (0 ≤ idx) as Hi.
  { unfold idx, f64_as_usize. apply cast_sat_range. done. }
  assert (0 < length xs)%nat as Hl by (subst xs; cbn; lia).
  destruct (lookup_lt_is_Some_2 xs (Z.to_nat (Z.min idx (Z.of_nat (length xs) - 1)))) as [d Hd]; [lia|].
  exists d. rewrite Hd. split; [done|]. by apply list_elem_of_lookup_2 in Hd.
Qed.

Lemma sum_bound (xs : list Z) b :
  Forall (λ d, 0 ≤ d < b) xs → 0 ≤ foldr Z.add 0 xs ≤ b * Z.of_nat (length xs).
Proof. induction 1 as [|d xs Hd _ IH]; cbn [foldr length]; lia. Qed.

(** The program exits with 2 exactly when the 99th percentile is over the objective. *)
Lemma print_report_verdict samples iterations plan_len ls :
  Forall (λ d, 0 ≤ d < 2 ^ 60) samples → Z.of_nat (length samples) < 2 ^ 32 →
  ∃ p99, percentile (E := Z) (merge_sort Z.le samples) (hundredths 99) = Ok p99 ∧
    (p99 ∈ samples ∨ samples = [] ∧ p99 = 0) ∧
    (print_report samples iterations plan_len ls).1 =
      if SLO <? p99 then Err 2 else Ok (merge_sort Z.le samples).
Proof.
  intros Hd Hl. unfold print_report. pose proof (merge_sort_Permutation Z.le samples) as Hperm.
  assert (∀ pct, ∃ p, percentile (E := Z) (merge_sort Z.le samples) pct = Ok p ∧
    (p ∈ samples ∨ samples = [] ∧ p = 0)) as Hpct.
  { intros pct. destruct samples as [|x xs]; [exists 0; by auto|].
    destruct (percentile_member (E := Z) (merge_sort Z.le (x :: xs)) pct) as (p & Hp & Hin).
    - intros E. rewrite E in Hperm. by apply Permutation_nil_cons in Hperm.
    - exists p. split; [done|]. left. by rewrite <-Hperm. }
  destruct (Hpct (hundredths 99)) as (p99 & E99 & Hin), (Hpct (hundredths 50)) as (p50 & E50 & _),
    (Hpct (hundredths 95)) as (p95 & E95 & _).
  exists p99. split; [done|]. split; [done|].
  set (sorted := merge_sort Z.le samples) in *. assert (length sorted = length samples) as El by (by apply Permutation_length).
  assert (∃ t, sum_durations (E := Z) sorted = Ok t) as [t Et].
  { unfold sum_durations. rewrite <-Hperm in Hd. pose proof (sum_bound _ _ Hd) as Hs. rewrite El in Hs.
    exists (foldr Z.add 0 sorted). rewrite (proj2 (Z.ltb_lt _ _)); [done|]. unfold NANOS_PER_SEC. lia. }
  assert (∃ m, mean_of (E := Z) t sorted = Ok m) as [m Em].
  { unfold mean_of. destruct sorted as [|x xs] eqn:Es; [by eexists|]. cbn [is_nil].
    rewrite El, wrap_small by (widths; lia). rewrite <-El. by eexists. }
  unfold lift, mbind, cmd_bind. rewrite E50, E95, E99, Et, Em. cbn. by destruct (SLO <? p99).
Qed.

(** The whole program, given a number of iterations: it runs them all, and its exit tells
    whether the objective was met. *)
Lemma bench_verdict took dc clk wall argv n :
  bench_args ITERATIONS_DEFAULT (drop 1 argv) [] = (Ok n, []) → 0 ≤ n → 5 * n < 2 ^ 32 →
  (∀ id, 0 ≤ took id < 2 ^ 60) →
  ∃ p99, percentile (E := Z) (merge_sort Z.le (took <$> seqZ 0 (5 * n))) (hundredths 99) = Ok p99 ∧
    (bench_main took dc clk wall argv []).1 = if SLO <? p99 then Err 2 else Ok tt.
Proof.
  intros Hargs Hn Hb Htook. unfold bench_main. rewrite (bind_ok _ _ _ _ _ Hargs).
  assert (capacity_fits (5 * n) = true) as Hcap by (apply Z.ltb_lt; lia).
  unfold catch, lift, mbind, cmd_bind. rewrite (run_lands took dc clk n Hn Hcap).
  destruct (print_report_verdict (took <$> seqZ 0 (5 * n)) n (length canonical_plan) []) as (p99 & Hp & _ & Hr).
  - apply Forall_fmap, Forall_forall. intros id _. apply Htook.
  - rewrite length_fmap, length_seqZ. lia.
  - exists p99. split; [done|]. destruct (print_report _ _ _ _) as [o ls]. cbn [fst] in Hr. subst o.
    by destruct (SLO <? p99).
Qed.
