(* ===== verification/Capability.v ===== *)
(** * Capabilities ([ai-device-kernel/src/capability.rs])

    The registry of what the daemon can do, by name.  A [dyn Capability] is a record of
    the trait's methods. *)

From stdpp Require Import gmap.
From S2P Require Import Prelude Words KernelTypes.
Local Open Scope Z_scope.

Abbreviation CapabilityName := string (only parsing).

Inductive CapabilityError : Set :=
  | Unknown (name : CapabilityName)
  | Refused (name : CapabilityName) (reason : string).

Inductive CapabilityOutput : Set :=
  | Executed
  | Out_Refused (reason : string).

(** [execute] gets the context's [elapsed_ms]. *)
Record Capability : Set := mkCapability
  { cap_name : CapabilityName; allowed_in_profile : string → bool;
    cap_execute : Z → option string → outcome CapabilityError CapabilityOutput }.

Record CapabilityRegistry : Set := mkRegistry { caps : gmap CapabilityName Capability }.

Definition CapabilityRegistry_new : CapabilityRegistry := mkRegistry ∅.

(** Both panics are programming errors; the second comes behind the insertion. *)
Definition register_capability (c : Capability) : cmd CapabilityRegistry False unit := λ r,
  if bool_decide (cap_name c = ""%string) then (Panicked, r)
  else
    let r' := mkRegistry (<[cap_name c := c]> (caps r)) in
    (if is_some (caps r !! cap_name c) then Panicked else Ok tt, r').

Definition get_capability (name : CapabilityName) (r : CapabilityRegistry) : option Capability :=
  caps r !! name.
Definition registry_len (r : CapabilityRegistry) : nat := size (caps r).
Definition registry_is_empty (r : CapabilityRegistry) : bool := bool_decide (caps r = ∅).
(** In the map's order. *)
Definition registry_iter (r : CapabilityRegistry) : list (CapabilityName * Capability) :=
  map_to_list (caps r).

Local Open Scope string_scope.
Definition ALL_CAPABILITY_NAMES : list CapabilityName :=
  ["input.motion_event"; "input.key_event"; "uhid.inject"; "a11y.resolve"; "a11y.observe";
   "frame.observe"; "shell.ime"; "pm.start_activity"; "clipboard.set"; "predicate.wait";
   "litert.ocr"; "litert.detect"; "litert.ground"; "litert.vqa"].
Local Close Scope string_scope.

(** ** Names *)

(** Registering capabilities one by one. *)
Definition register_all (cs : list Capability) : cmd CapabilityRegistry False unit :=
  for_each cs register_capability.

Lemma register_capability_new c r :
  cap_name c ≠ ""%string → caps r !! cap_name c = None →
  register_capability c r = (Ok tt, mkRegistry (<[cap_name c := c]> (caps r))).
Proof. intros Hn Hf. unfold register_capability. by rewrite bool_decide_false, Hf. Qed.

(** Registration is refused with a panic for an empty or a taken name, and only then. *)
Lemma register_capability_panics c r :
  (register_capability c r).1 = Panicked ↔ cap_name c = ""%string ∨ is_Some (caps r !! cap_name c).
Proof.
  unfold register_capability. case_bool_decide as Hn; cbn [fst]; [by split; [left|]|].
  destruct (caps r !! cap_name c); cbn.
  - by split; [right|].
  - split; [done|]. by intros [?|[? ?]].
Qed.

Lemma register_all_run cs r :
  NoDup (cap_name <$> cs) → Forall (λ c, cap_name c ≠ ""%string ∧ caps r !! cap_name c = None) cs →
  ∃ r', register_all cs r = (Ok tt, r') ∧
    ∀ n c, get_capability n r' = Some c ↔ (c ∈ cs ∧ cap_name c = n) ∨ get_capability n r = Some c.
Proof.
  revert r. induction cs as [|c cs IH]; intros r Hnd Hf.
  { exists r. split; [done|]. intros n c. split; [by right|]. by intros [[[]%not_elem_of_nil _]|]. }
  cbn [fmap list_fmap] in Hnd. apply NoDup_cons in Hnd as [Hc Hnd].
  apply Forall_cons in Hf as [[Hne Hfree] Hf].
  unfold register_all. rewrite for_each_cons, (register_capability_new c r Hne Hfree).
  destruct (IH (mkRegistry (<[cap_name c := c]> (caps r)))) as (r' & Hrun & Hget); [done| |].
  { rewrite Forall_forall in *. intros d Hd. destruct (Hf d Hd) as [Hdn Hdf]. split; [done|].
    cbn [caps]. rewrite lookup_insert_ne; [done|]. intros E. apply Hc. apply list_elem_of_fmap. by exists d. }
  exists r'. split; [exact Hrun|]. intros n d. rewrite Hget. unfold get_capability. cbn [caps].
  rewrite lookup_insert_Some, elem_of_cons. split.
  - intros [[Hd Hn]|[[Hn ->]|[_ Hd]]]; [left; split; [by right|done]|left; split; [by left|done]|by right].
  - intros [[[->|Hd] Hn]|Hd]; [right; by left|by left|].
    right. right. split; [|done]. intros E. rewrite E, Hd in Hfree. done.
Qed.

(** C35: capability names are well typed.  Every capability an action asks for is one of the
    names the crate lists, the list names each once and none is empty; so a daemon that
    registers a capability per listed name, in whatever order, meets no panic, and finds a
    capability of the right name for everything any action asks for. *)
Theorem capabilities_registered (cs : list Capability)
    (Hall : (cap_name <$> cs) ≡ₚ ALL_CAPABILITY_NAMES) :
  ∃ r, register_all cs CapabilityRegistry_new = (Ok tt, r) ∧
    registry_len r = length ALL_CAPABILITY_NAMES ∧
    ∀ a, Forall (λ n, n ∈ ALL_CAPABILITY_NAMES ∧
                      ∃ c, get_capability n r = Some c ∧ cap_name c = n) (capabilities a).
Proof.
  assert (NoDup ALL_CAPABILITY_NAMES) as Hnd by (apply (bool_decide_unpack _); vm_compute; exact I).
  assert (""%string ∉ ALL_CAPABILITY_NAMES) as Hne by (apply (bool_decide_unpack _); vm_compute; exact I).
  rewrite <-Hall in Hnd.
  destruct (register_all_run cs CapabilityRegistry_new Hnd) as (r & Hrun & Hget).
  { rewrite Forall_forall. intros c Hc. split; [|apply lookup_empty].
    intros E. apply Hne. rewrite <-E, <-Hall. apply list_elem_of_fmap. by exists c. }
  assert (∀ n, n ∈ ALL_CAPABILITY_NAMES → ∃ c, get_capability n r = Some c ∧ cap_name c = n) as Hfind.
  { intros n Hn. rewrite <-Hall in Hn. apply list_elem_of_fmap in Hn as (c & -> & Hc).
    exists c. split; [|done]. apply Hget. by left. }
  exists r. split; [done|]. split.
  - unfold registry_len. rewrite <-Hall, length_fmap.
    assert (((λ c, (cap_name c, c)) <$> cs).*1 = cap_name <$> cs) as Hfst
      by (rewrite <-list_fmap_compose; by apply list_fmap_ext).
    assert (caps r = list_to_map ((λ c, (cap_name c, c)) <$> cs)) as ->.
    { apply map_eq. intros n. apply option_eq. intros c. change (caps r !! n) with (get_capability n r).
      rewrite Hget, <-elem_of_list_to_map by (by rewrite Hfst). rewrite list_elem_of_fmap. split.
      - intros [[Hc <-]|E]; [by exists c|]. unfold get_capability in E. cbn in E. by rewrite lookup_empty in E.
      - intros (d & [= -> ->] & Hd). by left. }
    by rewrite map_size_list_to_map, length_fmap by (by rewrite Hfst).
  - intros a. apply Forall_forall. intros n Hn. assert (n ∈ ALL_CAPABILITY_NAMES) as Hin; [|by split; [|apply Hfind]].
    revert n Hn. apply Forall_forall.
    destruct a; cbn [capabilities]; apply (bool_decide_unpack _); vm_compute; exact I.
Qed.

Definition grant (n : CapabilityName) : Capability :=
  mkCapability n (λ _, true) (λ _ _, Ok Executed).

Lemma capabilities_registered_witness :
  ∃ r, register_all (grant <$> reverse ALL_CAPABILITY_NAMES) CapabilityRegistry_new = (Ok tt, r) ∧
    registry_len r = 14%nat ∧
    ∃ c, get_capability "uhid.inject" r = Some c ∧ cap_name c = "uhid.inject"%string.
Proof.
  destruct (capabilities_registered (grant <$> reverse ALL_CAPABILITY_NAMES)) as (r & Hrun & Hlen & Ha).
  - rewrite <-list_fmap_compose, list_fmap_id. apply reverse_Permutation.
  - exists r. split; [exact Hrun|]. split; [exact Hlen|].
    specialize (Ha (Act_InjectRaw [] 0)). cbn [capabilities] in Ha. apply Forall_cons in Ha as [[_ Hc] _]. exact Hc.
Defined.
