(* ===== verification/ScenarioLibrary.v ===== *)
(** * Known scenarios ([ai-device-kernel/src/scenario_library.rs], [cold_start.rs], and the
      adapters of [llm_deployment.rs], [mock_llm.rs], [cloud_llm.rs], [on_device_llm.rs])

    A [BTreeMap] is a [gmap] walked in the order of its keys.  The process-wide counter of
    scenario ids is passed along, the wall clock is an argument. *)

From stdpp Require Import gmap sorting.
From Stdlib Require Import Floats.SpecFloat.
From S2P Require Import Prelude Words Utf8 Float32 Format KernelTypes Bounded.
Local Open Scope Z_scope.

Definition MAX_LIBRARY_SIZE : nat := 1000.

(** [0.95_f32], [0.05_f32], [0.1_f32] *)
Definition PROMOTE_SUCCESS_RATE : f32 := S754_finite false 15938355 (-24).
Definition PROMOTE_MISS_RATE_CEIL : f32 := S754_finite false 13421773 (-28).
Definition ALPHA : f32 := S754_finite false 13421773 (-27).

(** [<=] of [f32] *)
Definition fle (x y : f32) : bool := SFleb x y.

Inductive ScenarioKind : Set := Sk_Template | Sk_Recording | Sk_Deprecated.
#[export] Instance ScenarioKind_eq_dec : EqDecision ScenarioKind.
Proof. solve_decision. Defined.

Abbreviation ScenarioId := Z (only parsing).
Definition ScenarioId_display (id : ScenarioId) : string := "scenario#" +:+ pretty id.

Record ScenarioEntry : Set := mkEntry
  { se_id : ScenarioId; se_kind : ScenarioKind; se_plan : Plan; success_rate : f32; miss_rate : f32;
    use_count : Z; created_at_ms : Z; last_used_at_ms : Z }.

Record ScenarioLibrary : Set := mkLibrary
  { entries : gmap Z ScenarioEntry; plan_to_scenario : gmap Z ScenarioId }.

Definition ScenarioLibrary_new : ScenarioLibrary := mkLibrary ∅ ∅.

(** The walk of a [BTreeMap]. *)
Definition by_key {V : Type} (p q : Z * V) : Prop := p.1 ≤ q.1.
#[export] Instance by_key_dec {V} (p q : Z * V) : Decision (by_key p q).
Proof. unfold by_key. apply _. Defined.
Definition walk {V : Type} (m : gmap Z V) : list (Z * V) := merge_sort by_key (map_to_list m).

Definition library_len (l : ScenarioLibrary) : nat := size (entries l).
Definition library_is_empty (l : ScenarioLibrary) : bool := bool_decide (entries l = ∅).
Definition count_kind (k : ScenarioKind) (l : ScenarioLibrary) : nat :=
  length (filter (λ p, se_kind p.2 = k) (walk (entries l))).
Definition template_count : ScenarioLibrary → nat := count_kind Sk_Template.
Definition recording_count : ScenarioLibrary → nat := count_kind Sk_Recording.

(** [min_by_key]: the first of the least. *)
Fixpoint min_by {A : Type} (key : A → Z) (l : list A) : option A :=
  match l with
  | [] => None
  | x :: l =>
      match min_by key l with
      | None => Some x
      | Some y => if key x <=? key y then Some x else Some y
      end
  end.

Definition oldest (es : gmap Z ScenarioEntry) : option ScenarioId :=
  fst <$> min_by (λ p, last_used_at_ms p.2) (walk es).

(** [ScenarioId::new()]: the counter's value, and the counter counted up. *)
Definition ScenarioId_new (counter : Z) : ScenarioId * Z := (counter, wrap 64 (counter + 1)).

Definition library_add (kind : ScenarioKind) (plan : Plan) (now_ms : Z) (counter : Z)
    (l : ScenarioLibrary) : ScenarioId * Z * ScenarioLibrary :=
  let es := if (MAX_LIBRARY_SIZE <=? size (entries l))%nat then
              match oldest (entries l) with Some id => delete id (entries l) | None => entries l end
            else entries l in
  let '(id, counter) := ScenarioId_new counter in
  let entry := mkEntry id kind plan (f32_of_Z 1) (f32_of_Z 0) 0 now_ms now_ms in
  (id, counter, mkLibrary (<[id := entry]> es) (<[plan_id plan := id]> (plan_to_scenario l))).

Definition library_lookup (p : PlanId) (l : ScenarioLibrary) : option ScenarioEntry :=
  id ← plan_to_scenario l !! p; entries l !! id.

(** One step of the moving averages. *)
Definition toward (hit : bool) (rate : f32) : f32 :=
  let kept := fmul rate (fsub (f32_of_Z 1) ALPHA) in
  if hit then fadd kept ALPHA else kept.

Definition update_entry (success : bool) (now_ms : Z) (e : ScenarioEntry) : ScenarioEntry :=
  mkEntry (se_id e) (se_kind e) (se_plan e) (toward success (success_rate e))
    (toward (negb success) (miss_rate e)) (wrap 64 (use_count e + 1)) (created_at_ms e) now_ms.

Definition set_entries (es : gmap Z ScenarioEntry) (l : ScenarioLibrary) : ScenarioLibrary :=
  mkLibrary es (plan_to_scenario l).

Definition update_outcome (p : PlanId) (success : bool) (now_ms : Z) (l : ScenarioLibrary) :
    ScenarioLibrary :=
  match plan_to_scenario l !! p with
  | None => l
  | Some id =>
      match entries l !! id with
      | None => l
      | Some e => set_entries (<[id := update_entry success now_ms e]> (entries l)) l
      end
  end.
Definition library_record_success (p : PlanId) (now_ms : Z) : ScenarioLibrary → ScenarioLibrary :=
  update_outcome p true now_ms.
Definition library_record_miss (p : PlanId) (now_ms : Z) : ScenarioLibrary → ScenarioLibrary :=
  update_outcome p false now_ms.

Definition set_kind (k : ScenarioKind) (e : ScenarioEntry) : ScenarioEntry :=
  mkEntry (se_id e) k (se_plan e) (success_rate e) (miss_rate e) (use_count e) (created_at_ms e)
    (last_used_at_ms e).

Definition ready (e : ScenarioEntry) : bool :=
  fle PROMOTE_SUCCESS_RATE (success_rate e) && fle (miss_rate e) PROMOTE_MISS_RATE_CEIL
  && (10 <=? use_count e).

(** [get_mut(&entry.id)]: the id inside the entry, not the key. *)
Definition promote_if_ready (p : PlanId) (l : ScenarioLibrary) : option ScenarioId * ScenarioLibrary :=
  match library_lookup p l with
  | None => (None, l)
  | Some e =>
      if ready e then (Some (se_id e), set_entries (alter (set_kind Sk_Template) (se_id e) (entries l)) l)
      else (None, l)
  end.

Definition demote (id : ScenarioId) (l : ScenarioLibrary) : bool * ScenarioLibrary :=
  match entries l !! id with
  | Some e =>
      if decide (se_kind e = Sk_Template)
      then (true, set_entries (<[id := set_kind Sk_Deprecated e]> (entries l)) l)
      else (false, l)
  | None => (false, l)
  end.

Definition select (p : PlanId) (l : ScenarioLibrary) : option ScenarioEntry := library_lookup p l.

(** [ScenarioLibrary::select_first] of [cold_start.rs]: the recording with the least id. *)
Definition select_first (l : ScenarioLibrary) : option ScenarioId :=
  se_id <$> find (λ e, bool_decide (se_kind e = Sk_Recording)) (walk (entries l)).*2.

(** ** Language models *)

Inductive DeploymentKind : Set := OnDevice | Hybrid | CloudOnly.
Inductive Provider : Set := Anthropic | OpenAI.
Record ModelSpec : Set := mkModelSpec
  { model_name : string; context_window : Z; weights_path : option string }.
Definition ModelSpec_default : ModelSpec := mkModelSpec "stub-on-device" 4096 None.
Record CloudModelSpec : Set := mkCloudModelSpec
  { provider : Provider; model_id : string; api_key_env : string; base_url : option string }.
Definition default_anthropic : CloudModelSpec :=
  mkCloudModelSpec Anthropic "claude-sonnet-4-20250514" "ANTHROPIC_API_KEY" None.
Record EscalationPolicy : Set := mkEscalation { selector_miss_threshold : Z; on_timeout : bool }.
Definition EscalationPolicy_default : EscalationPolicy := mkEscalation 2 true.
Record LlmDeployment : Set := mkDeployment
  { dep_kind : DeploymentKind; on_device : ModelSpec; cloud : CloudModelSpec;
    escalation : EscalationPolicy }.
Definition LlmDeployment_default : LlmDeployment :=
  mkDeployment Hybrid ModelSpec_default default_anthropic EscalationPolicy_default.

(** The trait [LlmAdapter]. *)
Class LlmAdapter (M : Type) := {
  llm_plan : Observation → cmd M False Plan;
  llm_reset : M → M;
  llm_name : string;
}.

Record CloudLlmAdapter : Set := mkCloud { deployment : LlmDeployment }.
Definition CloudLlmAdapter_default : CloudLlmAdapter := mkCloud LlmDeployment_default.
#[export] Instance Cloud_adapter : LlmAdapter CloudLlmAdapter := {
  llm_plan _ := mret (Plan_new []); llm_reset m := m; llm_name := "CloudLlmAdapter(stub)" }.

Record StubOnDeviceLlm : Set := mkStub { model_spec : ModelSpec }.
Definition StubOnDeviceLlm_default : StubOnDeviceLlm := mkStub ModelSpec_default.
#[export] Instance Stub_adapter : LlmAdapter StubOnDeviceLlm := {
  llm_plan _ := mret (Plan_new []); llm_reset m := m; llm_name := "StubOnDeviceLlm" }.

(** [MockFixtures] reads the fixtures from a directory. *)
Record MockLlmAdapter : Set := mkMockLlm { dir : str; fixtures : list Plan; cursor : Z; call_count : Z }.
Definition mock_len (m : MockLlmAdapter) : nat := length (fixtures m).
Definition mock_is_empty (m : MockLlmAdapter) : bool := is_nil (fixtures m).
Definition mock_plan : cmd MockLlmAdapter False Plan := λ m,
  let m := mkMockLlm (dir m) (fixtures m) (cursor m) (wrap 64 (call_count m + 1)) in
  let n := Z.of_nat (length (fixtures m)) in
  if is_nil (fixtures m) then (Ok (Plan_new []), m)
  else match fixtures m !! Z.to_nat (cursor m mod n) with
       | None => (Panicked, m)
       | Some p => (Ok p, mkMockLlm (dir m) (fixtures m) (wrap 64 (cursor m + 1) mod n) (call_count m))
       end.
#[export] Instance Mock_adapter : LlmAdapter MockLlmAdapter := {
  llm_plan _ := mock_plan; llm_reset m := mkMockLlm (dir m) (fixtures m) 0 0; llm_name := "MockLlmAdapter" }.

(** ** Cold start *)

Inductive StartPath : Set :=
  | ShipTimeTemplate (id : ScenarioId)
  | PerUserPreference (plan : Z)
  | PerDeviceRecording (id : ScenarioId)
  | FreshPlan.

Record ColdStartStrategy : Set := mkColdStart
  { ship_time : list Plan; per_user : gmap str Plan; per_device : ScenarioLibrary;
    scenario_library : ScenarioLibrary; cs_deployment : LlmDeployment }.

Definition ColdStartStrategy_new (d : LlmDeployment) : ColdStartStrategy :=
  mkColdStart [] ∅ ScenarioLibrary_new ScenarioLibrary_new d.

Definition add_ship_time_template (plan : Plan) (now_ms counter : Z) (c : ColdStartStrategy) :
    ScenarioId * Z * ColdStartStrategy :=
  let '(id, counter, l) := library_add Sk_Template plan now_ms counter (scenario_library c) in
  (id, counter, mkColdStart (ship_time c ++ [plan]) (per_user c) (per_device c) l (cs_deployment c)).

Definition set_per_user_preference (user : str) (plan : Plan) (c : ColdStartStrategy) : ColdStartStrategy :=
  mkColdStart (ship_time c) (<[user := plan]> (per_user c)) (per_device c) (scenario_library c)
    (cs_deployment c).

Definition ship_time_count (c : ColdStartStrategy) : nat := length (ship_time c).
Definition per_user_count (c : ColdStartStrategy) : nat := size (per_user c).

Definition start (task : option str) (c : ColdStartStrategy) : StartPath :=
  match task ≫= λ user, per_user c !! user with
  | Some plan => PerUserPreference (plan_id plan)
  | None =>
      match head (ship_time c) ≫= λ plan, library_lookup (plan_id plan) (scenario_library c) with
      | Some e => ShipTimeTemplate (se_id e)
      | None =>
          match select_first (per_device c) with
          | Some id => PerDeviceRecording id
          | None => FreshPlan
          end
      end
  end.

Definition record_outcome (p : PlanId) (success : bool) (now_ms : Z) (c : ColdStartStrategy) :
    option ScenarioId * ColdStartStrategy :=
  let l := if success then library_record_success p now_ms (scenario_library c)
           else library_record_miss p now_ms (scenario_library c) in
  let '(id, l) := promote_if_ready p l in
  (id, mkColdStart (ship_time c) (per_user c) (per_device c) l (cs_deployment c)).

#[export] Instance Cold_adapter : LlmAdapter ColdStartStrategy := {
  llm_plan _ := mret (Plan_new []); llm_reset c := c; llm_name := "ColdStartStrategy" }.

(** ** The library's invariant *)

Record library_wf (counter : Z) (l : ScenarioLibrary) : Prop := {
  wf_counter : 1 ≤ counter;
  wf_entry id e : entries l !! id = Some e → se_id e = id ∧ 1 ≤ id < counter;
  wf_plan p id : plan_to_scenario l !! p = Some id →
    1 ≤ id < counter ∧ ∀ e, entries l !! id = Some e → plan_id (se_plan e) = p;
  wf_size : (size (entries l) ≤ MAX_LIBRARY_SIZE)%nat }.

Lemma library_wf_new : library_wf 1 ScenarioLibrary_new.
Proof.
  split; [lia|..].
  - intros id e E. exact (False_ind _ (lookup_empty_Some id e E)).
  - intros p id E. exact (False_ind _ (lookup_empty_Some p id E)).
  - cbn. rewrite map_size_empty. unfold MAX_LIBRARY_SIZE. lia.
Qed.

Lemma walk_in {V} (m : gmap Z V) p : p ∈ walk m ↔ m !! p.1 = Some p.2.
Proof. unfold walk. rewrite merge_sort_Permutation. destruct p. apply elem_of_map_to_list. Qed.

Lemma min_by_spec {A} (key : A → Z) l x : min_by key l = Some x → x ∈ l ∧ ∀ y, y ∈ l → key x ≤ key y.
Proof.
  revert x. induction l as [|a l IH]; intros x; cbn; [done|].
  destruct (min_by key l) as [y|] eqn:E.
  - destruct (IH y eq_refl) as [Hy Hmin]. destruct (Z.leb_spec (key a) (key y)) as [Hle|Hlt]; intros [= <-].
    + split; [by left|]. intros z [->|Hz]%elem_of_cons; [done|]. etrans; [exact Hle|by apply Hmin].
    + split; [by right|]. intros z [->|Hz]%elem_of_cons; [lia|by apply Hmin].
  - intros [= <-]. split; [by left|]. intros z [->|Hz]%elem_of_cons; [done|].
    destruct l as [|b l]; [by apply not_elem_of_nil in Hz|]. cbn in E. by destruct (min_by key l); [case_match|].
Qed.

Lemma min_by_none {A} (key : A → Z) l : min_by key l = None → l = [].
Proof. destruct l as [|a l]; [done|]. cbn. destruct (min_by key l); [by case_match|done]. Qed.

(** The entry evicted is one used least recently. *)
Lemma oldest_spec es :
  es ≠ ∅ → ∃ id e, oldest es = Some id ∧ es !! id = Some e ∧
    ∀ id' e', es !! id' = Some e' → last_used_at_ms e ≤ last_used_at_ms e'.
Proof.
  intros Hne. unfold oldest. destruct (min_by _ (walk es)) as [[id e]|] eqn:E.
  - destruct (min_by_spec _ _ _ E) as [Hin Hmin]. apply walk_in in Hin. exists id, e.
    split_and!; [done|done|]. intros id' e' He. by apply (Hmin (id', e')), walk_in.
  - apply min_by_none in E. destruct Hne. apply map_empty. intros id.
    destruct (es !! id) as [e|] eqn:He; [|done]. exfalso.
    apply (not_elem_of_nil (id, e)). rewrite <-E. by apply walk_in.
Qed.

(** What is left behind an eviction. *)
Lemma add_room l :
  (size (entries l) ≤ MAX_LIBRARY_SIZE)%nat →
  ∃ es, (if (MAX_LIBRARY_SIZE <=? size (entries l))%nat then
           match oldest (entries l) with Some id => delete id (entries l) | None => entries l end
         else entries l) = es ∧ (size es < MAX_LIBRARY_SIZE)%nat ∧ es ⊆ entries l.
Proof.
  intros Hs. destruct (Nat.leb_spec MAX_LIBRARY_SIZE (size (entries l))) as [Hge|Hlt]; [|by exists (entries l)].
  assert (size (entries l) ≠ 0%nat) as Hnz by (unfold MAX_LIBRARY_SIZE in *; lia).
  destruct (oldest_spec (entries l)) as (id & e & -> & He & _).
  { intros E. rewrite E, map_size_empty in Hnz. done. }
  exists (delete id (entries l)). split; [done|]. split; [|apply delete_subseteq].
  rewrite map_size_delete, He. lia.
Qed.

Lemma library_add_wf kind plan now counter l :
  library_wf counter l → counter + 1 < 2 ^ 64 →
  let '(id, counter', l') := library_add kind plan now counter l in
  id = counter ∧ counter' = counter + 1 ∧ library_wf counter' l' ∧
  plan_to_scenario l' = <[plan_id plan := id]> (plan_to_scenario l) ∧
  library_lookup (plan_id plan) l' = Some (mkEntry id kind plan (f32_of_Z 1) (f32_of_Z 0) 0 now now).
Proof.
  intros [Hc He Hp Hs] Hlt. unfold library_add. destruct (add_room l Hs) as (es & -> & Hsz & Hsub).
  unfold ScenarioId_new. rewrite wrap_small by (widths; lia). split; [done|]. split; [done|].
  assert (es !! counter = None) as Hfresh.
  { destruct (es !! counter) as [e|] eqn:E; [|done]. apply (lookup_weaken _ _ _ _ E) in Hsub.
    apply He in Hsub. lia. }
  split; [split|].
  - lia.
  - intros id e. cbn [entries]. intros [[<- <-]|[Hne E]]%lookup_insert_Some; [cbn; lia|].
    apply (lookup_weaken _ _ _ _ E) in Hsub. apply He in Hsub. lia.
  - intros p id. cbn [entries plan_to_scenario]. intros [[<- <-]|[Hne E]]%lookup_insert_Some.
    + split; [lia|]. intros e. rewrite lookup_insert_eq. by intros [= <-].
    + apply Hp in E as [Hid Hplan]. split; [lia|]. intros e.
      rewrite lookup_insert_ne by lia. intros E. apply Hplan. by apply (lookup_weaken _ _ _ _ E).
  - cbn [entries]. rewrite map_size_insert_None by done. lia.
  - split; [done|]. unfold library_lookup. cbn. rewrite lookup_insert_eq. cbn. apply lookup_insert_eq.
Qed.

(** Replacing an entry by one with its id and plan. *)
Lemma replace_wf counter l id e e' :
  library_wf counter l → entries l !! id = Some e → se_id e' = se_id e → se_plan e' = se_plan e →
  library_wf counter (set_entries (<[id := e']> (entries l)) l).
Proof.
  intros [Hc He Hp Hs] E Hid Hplan. split; cbn [entries plan_to_scenario set_entries]; [done|..].
  - intros id' e2. intros [[<- <-]|[Hne E2]]%lookup_insert_Some; [rewrite Hid; by apply He|by apply He].
  - intros p id' Hl. apply Hp in Hl as [Hr Hpl]. split; [done|]. intros e2.
    intros [[<- <-]|[Hne E2]]%lookup_insert_Some; [rewrite Hplan; by apply Hpl|by apply Hpl].
  - by rewrite map_size_insert_Some.
Qed.

Lemma update_outcome_wf counter p b now l : library_wf counter l → library_wf counter (update_outcome p b now l).
Proof.
  intros Hl. unfold update_outcome. destruct (plan_to_scenario l !! p) as [id|]; [|done].
  destruct (entries l !! id) as [e|] eqn:E; [|done]. by apply (replace_wf _ _ _ e).
Qed.

Lemma library_lookup_entry p l e :
  library_lookup p l = Some e → ∃ id, plan_to_scenario l !! p = Some id ∧ entries l !! id = Some e.
Proof. unfold library_lookup. destruct (plan_to_scenario l !! p) as [id|]; [|done]. cbn. intros E. by exists id. Qed.

Lemma promote_wf counter p l : library_wf counter l → library_wf counter (promote_if_ready p l).2.
Proof.
  intros Hl. unfold promote_if_ready. destruct (library_lookup p l) as [e|] eqn:E; [|done].
  destruct (ready e); [|done]. apply library_lookup_entry in E as (id & _ & E).
  pose proof (wf_entry _ _ Hl _ _ E) as [Hid _]. cbn [snd]. rewrite Hid.
  replace (alter (set_kind Sk_Template) id (entries l)) with (<[id := set_kind Sk_Template e]> (entries l)).
  - by apply (replace_wf _ _ _ e).
  - apply map_eq. intros k. destruct (decide (k = id)) as [->|Hne].
    + by rewrite lookup_insert_eq, lookup_alter_eq, E.
    + by rewrite lookup_insert_ne, lookup_alter_ne.
Qed.

Lemma demote_wf counter id l : library_wf counter l → library_wf counter (demote id l).2.
Proof.
  intros Hl. unfold demote. destruct (entries l !! id) as [e|] eqn:E; [|done].
  destruct (decide _); [|done]. by apply (replace_wf _ _ _ e).
Qed.

(** ** Runs *)

Inductive LibraryOp : Set :=
  | Add (kind : ScenarioKind) (plan : Plan) (now_ms : Z)
  | Outcome (p : PlanId) (success : bool) (now_ms : Z)
  | Promote (p : PlanId)
  | Demote (id : ScenarioId).

(** The library, the counter, and the plans added with the ids they got. *)
Definition library_op (s : ScenarioLibrary * Z * list (PlanId * ScenarioId)) (op : LibraryOp) :
    ScenarioLibrary * Z * list (PlanId * ScenarioId) :=
  let '(l, counter, added) := s in
  match op with
  | Add kind plan now =>
      let '(id, counter, l) := library_add kind plan now counter l in
      (l, counter, added ++ [(plan_id plan, id)])
  | Outcome p b now => (update_outcome p b now l, counter, added)
  | Promote p => ((promote_if_ready p l).2, counter, added)
  | Demote id => ((demote id l).2, counter, added)
  end.

(** The id that the last addition of [p] got. *)
Definition added_last (p : PlanId) (added : list (PlanId * ScenarioId)) (id : ScenarioId) : Prop :=
  ∃ l1 l2, added = l1 ++ (p, id) :: l2 ∧ p ∉ l2.*1.

Lemma added_last_snoc p added q x id :
  added_last p (added ++ [(q, x)]) id ↔ (p = q ∧ id = x) ∨ (p ≠ q ∧ added_last p added id).
Proof.
  split.
  - intros (l1 & l2 & E & Hl2). destruct l2 as [|y l2 _] using rev_ind.
    { apply app_inj_tail in E as [_ [= <- <-]]. by left. }
    rewrite app_comm_cons, (assoc_L (++)) in E. apply app_inj_tail in E as [-> <-].
    rewrite fmap_app, not_elem_of_app in Hl2. destruct Hl2 as [Hl2 Hq]. right. split.
    + intros ->. apply Hq. by left.
    + by exists l1, l2.
  - intros [[-> ->]|[Hne (l1 & l2 & -> & Hl2)]].
    + exists added, []. split; [done|apply not_elem_of_nil].
    + exists l1, (l2 ++ [(q, x)]). rewrite <-(assoc_L (++)). split; [done|].
      rewrite fmap_app, not_elem_of_app. split; [done|]. cbn.
      apply not_elem_of_cons. split; [done|apply not_elem_of_nil].
Qed.

(** The library behind additions [added]. *)
Record library_tracks (counter : Z) (added : list (PlanId * ScenarioId)) (l : ScenarioLibrary) : Prop := {
  tr_wf : library_wf counter l;
  tr_nodup : NoDup added.*2;
  tr_ids id : id ∈ added.*2 → id < counter;
  tr_index p id : plan_to_scenario l !! p = Some id ↔ added_last p added id;
  tr_size : (size (entries l) ≤ length added)%nat;
  tr_newest p id : last added = Some (p, id) → id ∈ dom (entries l);
  tr_room : (length added ≤ MAX_LIBRARY_SIZE)%nat → ∀ id, id ∈ added.*2 → id ∈ dom (entries l) }.

Lemma library_tracks_new : library_tracks 1 [] ScenarioLibrary_new.
Proof.
  split; [apply library_wf_new|apply NoDup_nil_2|by intros id ?%not_elem_of_nil| |cbn; by rewrite map_size_empty|done|].
  - intros p id. split; [intros E; exact (False_ind _ (lookup_empty_Some p id E))|].
    by intros (l1 & l2 & E & _); destruct l1.
  - by intros _ id ?%not_elem_of_nil.
Qed.

Lemma library_tracks_add kind plan now counter added l :
  library_tracks counter added l → counter + 1 < 2 ^ 64 →
  let '(id, counter', l') := library_add kind plan now counter l in
  counter' = counter + 1 ∧ library_tracks counter' (added ++ [(plan_id plan, id)]) l'.
Proof.
  intros [Hwf Hnd Hlt Hp Hsz Hnew Hroom] Hc.
  pose proof (library_add_wf kind plan now counter l Hwf Hc) as Hadd.
  assert (let '(id, _, l') := library_add kind plan now counter l in
    dom (entries l') ⊆ {[id]} ∪ dom (entries l) ∧ id ∈ dom (entries l') ∧
    ((size (entries l) < MAX_LIBRARY_SIZE)%nat → dom (entries l) ⊆ dom (entries l'))) as Hdom.
  { unfold library_add. destruct (add_room l (wf_size _ _ Hwf)) as (es & Ees & _ & Hsub%subseteq_dom).
    rewrite Ees. cbn [ScenarioId_new entries]. rewrite dom_insert_L. split_and!; [set_solver..|].
    intros Hr. rewrite (proj2 (Nat.leb_gt _ _)) in Ees by done. subst es. set_solver. }
  destruct (library_add kind plan now counter l) as [[id counter'] l'].
  destruct Hadd as (-> & -> & Hwf' & Hpl & _), Hdom as (Hup & Hin & Hkeep).
  split; [done|]. split; [done|..]; try (rewrite fmap_app; cbn [fmap list_fmap snd]).
  - apply NoDup_app. split_and!; [done| |apply NoDup_singleton].
    intros x Hx ->%list_elem_of_singleton. specialize (Hlt _ Hx). lia.
  - intros x [Hx|Hx%list_elem_of_singleton]%elem_of_app; [specialize (Hlt _ Hx)|subst]; lia.
  - intros p id. rewrite Hpl, added_last_snoc, lookup_insert_Some, Hp.
    split; intros [[? ?]|[? ?]]; subst; auto.
  - rewrite length_app. cbn [length]. apply subseteq_size in Hup.
    assert (size ({[counter]} ∪ dom (entries l)) ≤ 1 + size (entries l))%nat as Hu.
    { rewrite <-(size_dom (D := gset Z) (entries l)), <-(size_singleton (C := gset Z) counter).
      rewrite size_union_alt. apply Nat.add_le_mono_l, subseteq_size. set_solver. }
    rewrite size_dom in Hup. lia.
  - intros p id. rewrite last_snoc. by intros [= _ <-].
  - rewrite length_app. cbn [length]. intros Hr id [Hid|Hid%list_elem_of_singleton]%elem_of_app; [|by subst].
    apply Hkeep; [lia|]. apply Hroom; [lia|done].
Qed.

(** An operation that changes neither the index nor which entries there are. *)
Definition same_keys (l l' : ScenarioLibrary) : Prop :=
  plan_to_scenario l' = plan_to_scenario l ∧ dom (entries l') = dom (entries l).

Lemma library_tracks_same counter added l l' :
  library_tracks counter added l → library_wf counter l' → same_keys l l' →
  library_tracks counter added l'.
Proof.
  intros [Hwf Hnd Hlt Hp Hsz Hnew Hroom] Hwf' [E Ed]. split; rewrite ?E, ?Ed; try done.
  by rewrite <-(size_dom (D := gset Z)), Ed, size_dom.
Qed.

Lemma replace_keys l id e e' : entries l !! id = Some e → same_keys l (set_entries (<[id := e']> (entries l)) l).
Proof. intros E. split; [done|]. cbn. rewrite dom_insert_lookup_L; [done|by exists e]. Qed.

Lemma update_outcome_keys p b now l : same_keys l (update_outcome p b now l).
Proof.
  unfold update_outcome. destruct (plan_to_scenario l !! p) as [id|]; [|done].
  destruct (entries l !! id) as [e|] eqn:E; [|done]. by eapply replace_keys.
Qed.

Lemma promote_keys p l : same_keys l (promote_if_ready p l).2.
Proof.
  unfold promote_if_ready. destruct (library_lookup p l) as [e|]; [|done].
  destruct (ready e); [|done]. split; [done|]. cbn. apply dom_alter_L.
Qed.

Lemma demote_keys id l : same_keys l (demote id l).2.
Proof.
  unfold demote. destruct (entries l !! id) as [e|] eqn:E; [|done].
  destruct (decide _); [|done]. by eapply replace_keys.
Qed.

Lemma library_tracks_op op counter added l :
  library_tracks counter added l → counter + 1 < 2 ^ 64 →
  let '(l', counter', added') := library_op (l, counter, added) op in
  counter' ≤ counter + 1 ∧ library_tracks counter' added' l'.
Proof.
  intros Ht Hc. pose proof (tr_wf _ _ _ Ht) as Hwf.
  destruct op as [kind plan now|p b now|p|id]; cbn [library_op].
  - pose proof (library_tracks_add kind plan now counter added l Ht Hc) as Hadd.
    destruct (library_add kind plan now counter l) as [[id counter'] l']. destruct Hadd as [-> ?]. by split.
  - split; [lia|]. apply (library_tracks_same _ _ l); [done|by apply update_outcome_wf|apply update_outcome_keys].
  - split; [lia|]. apply (library_tracks_same _ _ l); [done|by apply promote_wf|apply promote_keys].
  - split; [lia|]. apply (library_tracks_same _ _ l); [done|by apply demote_wf|apply demote_keys].
Qed.

(** C33: the library finds what was added.  Behind any sequence of operations on an empty
    library, it holds at most 1000 entries, and no id was given twice.  A plan's lookup
    gives an entry of that very plan, under the id its last addition got, and never another
    plan's, also behind evictions.  The plan added last is always found, and as long as no
    more than 1000 were added every plan is. *)
Theorem library_finds_added (ops : list LibraryOp) (Hn : Z.of_nat (length ops) < 2 ^ 64 - 2) :
  let '(l, counter, added) := foldl library_op (ScenarioLibrary_new, 1, []) ops in
  (library_len l ≤ MAX_LIBRARY_SIZE)%nat ∧ NoDup added.*2 ∧
  (∀ p e, library_lookup p l = Some e → plan_id (se_plan e) = p ∧ added_last p added (se_id e)) ∧
  ∀ p id, added_last p added id →
    (length added ≤ MAX_LIBRARY_SIZE)%nat ∨ last added = Some (p, id) →
    ∃ e, library_lookup p l = Some e ∧ se_id e = id.
Proof.
  assert (let '(l, counter, added) := foldl library_op (ScenarioLibrary_new, 1, []) ops in
    counter ≤ 1 + Z.of_nat (length ops) ∧ library_tracks counter added l) as H.
  { induction ops as [|op ops IH] using rev_ind; [split; [done|apply library_tracks_new]|].
    rewrite foldl_snoc. rewrite length_app in *. cbn [length] in *.
    destruct (foldl library_op _ ops) as [[l counter] added]. destruct IH as [Hc Ht]; [lia|].
    pose proof (library_tracks_op op counter added l Ht ltac:(lia)) as Hop.
    destruct (library_op (l, counter, added) op) as [[l' counter'] added'].
    destruct Hop. split; [lia|done]. }
  destruct (foldl library_op _ ops) as [[l counter] added].
  destruct H as [_ [Hwf Hnd Hlt Hp Hsz Hnew Hroom]]. split; [apply Hwf|]. split; [done|]. split.
  - intros p e E. apply library_lookup_entry in E as (id & Hid & He).
    pose proof (wf_entry _ _ Hwf _ _ He) as [-> _]. split; [by apply (wf_plan _ _ Hwf _ _ Hid)|by apply Hp].
  - intros p id Ha Hwhen. assert (id ∈ dom (entries l)) as [e He]%elem_of_dom.
    { destruct Hwhen as [Hr|Hl]; [|by apply (Hnew p)]. apply Hroom; [done|].
      destruct Ha as (l1 & l2 & -> & _). rewrite fmap_app. apply elem_of_app. right. by left. }
    exists e. unfold library_lookup. rewrite (proj2 (Hp p id) Ha). split; [done|]. by apply (wf_entry _ _ Hwf).
Qed.

Definition numbered_plan (n : Z) : Plan := mkPlan PLAN_VERSION n [] true 0.

Lemma library_finds_added_witness :
  let '(l, _, added) := foldl library_op (ScenarioLibrary_new, 1, [])
    [Add Sk_Recording (numbered_plan 7) 10; Add Sk_Template (numbered_plan 8) 11; Outcome 7 true 20] in
  ∃ e, library_lookup 7 l = Some e ∧ se_id e = 1 ∧ plan_id (se_plan e) = 7.
Proof.
  pose proof (library_finds_added
    [Add Sk_Recording (numbered_plan 7) 10; Add Sk_Template (numbered_plan 8) 11; Outcome 7 true 20]
    ltac:(reflexivity)) as H.
  assert ((foldl library_op (ScenarioLibrary_new, 1, [])
    [Add Sk_Recording (numbered_plan 7) 10; Add Sk_Template (numbered_plan 8) 11; Outcome 7 true 20]).2
    = [(7, 1); (8, 2)]) as E by (vm_compute; reflexivity).
  destruct (foldl library_op _ _) as [[l c] added]. destruct H as (_ & _ & Hp & Hf). cbn [snd] in E.
  rewrite E in Hp, Hf. destruct (Hf 7 1) as (e & Hl & He).
  - exists [], [(8, 2)]. split; [reflexivity|]. apply (bool_decide_unpack _). vm_compute. exact I.
  - left. apply (bool_decide_unpack _). vm_compute. exact I.
  - exists e. split; [exact Hl|]. split; [exact He|]. exact (proj1 (Hp 7 e Hl)).
Defined.

(** Promotion and demotion.  An entry is promoted exactly when its averages and its use
    count allow it, whatever its kind was - a demoted one too. *)
Lemma promote_spec p l e :
  library_lookup p l = Some e → (promote_if_ready p l).1 = if ready e then Some (se_id e) else None.
Proof. intros E. unfold promote_if_ready. rewrite E. by destruct (ready e). Qed.

Lemma demote_spec id l :
  (demote id l).1 = true ↔ ∃ e, entries l !! id = Some e ∧ se_kind e = Sk_Template.
Proof.
  unfold demote. destruct (entries l !! id) as [e|]; [|by split; [|intros (? & ? & _)]].
  destruct (decide (se_kind e = Sk_Template)); cbn; (split; [|intros (? & [= <-] & ?)]); try done. by exists e.
Qed.

(** ** Cold start: the user's plan, the first ship-time template, a recording, or nothing *)
Lemma start_order task c :
  match start task c with
  | PerUserPreference n => ∃ user plan, task = Some user ∧ per_user c !! user = Some plan ∧ n = plan_id plan
  | ShipTimeTemplate id =>
      (∀ user, task = Some user → per_user c !! user = None) ∧
      ∃ plan rest e, ship_time c = plan :: rest ∧
        library_lookup (plan_id plan) (scenario_library c) = Some e ∧ id = se_id e
  | PerDeviceRecording id =>
      (∀ user, task = Some user → per_user c !! user = None) ∧ select_first (per_device c) = Some id
  | FreshPlan =>
      (∀ user, task = Some user → per_user c !! user = None) ∧ select_first (per_device c) = None
  end.
Proof.
  unfold start. destruct (task ≫= λ user, per_user c !! user) as [plan|] eqn:Eu.
  { destruct task as [user|]; [|done]. by exists user, plan. }
  assert (∀ user, task = Some user → per_user c !! user = None) as Hu by (by intros user ->).
  destruct (head (ship_time c) ≫= _) as [e|] eqn:Es.
  { split; [done|]. destruct (ship_time c) as [|plan rest]; [done|]. by exists plan, rest, e. }
  destruct (select_first (per_device c)) eqn:Ed; by split.
Qed.

(** ** The mock model plays its fixtures round and round *)
Lemma mock_plan_cycles m :
  fixtures m ≠ [] → Z.of_nat (length (fixtures m)) < 2 ^ 63 → 0 ≤ cursor m < Z.of_nat (length (fixtures m)) →
  ∃ p m', mock_plan m = (Ok p, m') ∧ fixtures m !! Z.to_nat (cursor m) = Some p ∧
    fixtures m' = fixtures m ∧ cursor m' = (cursor m + 1) mod Z.of_nat (length (fixtures m)).
Proof.
  intros Hne Hlen Hc. unfold mock_plan. cbn [fixtures cursor].
  assert (is_nil (fixtures m) = false) as -> by (by destruct (fixtures m)).
  rewrite (Z.mod_small (cursor m)) by done. rewrite (wrap_small 64 (cursor m + 1)) by (widths; lia).
  destruct (lookup_lt_is_Some_2 (fixtures m) (Z.to_nat (cursor m))) as [p Hp]; [lia|].
  rewrite Hp. by eexists _, _.
Qed.
