(* ===== verification/MockFixtures.v ===== *)
(** * Fixtures of plans ([ai-device-kernel/src/json.rs], [mock_llm.rs])

    The JSON boundary, over [serde_json] as a parameter, and the loading of a directory of
    plans by [MockLlmAdapter].  A path is the text of its bytes. *)

From Stdlib Require Import Sorted.
From stdpp Require Import gmap sorting.
From S2P Require Import Prelude Words Utf8 Format Io KernelTypes ScenarioLibrary.
Local Open Scope Z_scope.

(** ** [parse_and_validate] *)

Inductive JsonError : Set :=
  | Deserialize (line column : Z) (message : string)
  | SchemaViolation (path message : string)
  | Empty.

(** [serde_json]: bytes to a [Value], with what its errors tell. *)
Class SerdeJson := {
  Value : Type; SerdeError : Type;
  from_slice : bytes → Value + SerdeError;
  error_line : SerdeError → Z; error_column : SerdeError → Z; error_text : SerdeError → string;
}.

Section Json.
Context `{sj : SerdeJson}.

Definition deserialize_error (e : SerdeError) : JsonError :=
  Deserialize (error_line e) (error_column e) (error_text e).

Definition parse_and_validate {T : Type} (from_value : Value → T + SerdeError) (b : bytes) : outcome JsonError T :=
  if is_nil b then Err Empty
  else match from_slice b with
       | inr e => Err (deserialize_error e)
       | inl v => match from_value v with inr e => Err (deserialize_error e) | inl t => Ok t end
       end.

(** Despite its name it validates nothing against a schema. *)
Lemma parse_and_validate_outcomes {T} (from_value : Value → T + SerdeError) b :
  match parse_and_validate from_value b with
  | Ok t => b ≠ [] ∧ ∃ v, from_slice b = inl v ∧ from_value v = inl t
  | Err Empty => b = []
  | Err (Deserialize _ _ _) => b ≠ []
  | Err (SchemaViolation _ _) | Panicked => False
  end.
Proof.
  unfold parse_and_validate. destruct b as [|x b]; [done|]. cbn [is_nil].
  destruct (from_slice (x :: b)) as [v|e] eqn:Ev; [|done].
  destruct (from_value v) as [t|e] eqn:Et; [|done]. split; [done|]. by exists v.
Qed.
End Json.

(** ** Files *)

(** [std::fs]: the paths in a directory as it gives them, and the bytes of a file. *)
Class Files (H : Type) := {
  read_dir : str → H → (list (str + IoError) + IoError) * H;
  read_file : str → H → (bytes + IoError) * H;
}.

(** [Path::extension]: what follows the last dot of the last component, unless that dot
    begins it.  An entry of a directory has a last component. *)
Definition SLASH : Z := 47.
Definition DOT : Z := 46.

Fixpoint after_last (c : Z) (s : str) : option str :=
  match s with
  | [] => None
  | b :: s =>
      match after_last c s with
      | Some rest => Some rest
      | None => if b =? c then Some s else None
      end
  end.
Definition file_name (path : str) : str := default path (after_last SLASH path).
Definition extension (path : str) : option str :=
  match file_name path with
  | [] => None
  | _ :: name => after_last DOT name
  end.

Example extension_examples :
  extension (ascii_bytes "fix/plan.json") = Some (ascii_bytes "json") ∧
  extension (ascii_bytes "fix/.json") = None ∧ extension (ascii_bytes "a.d/plan") = None ∧
  extension (ascii_bytes "plan.json.") = Some [].
Proof. vm_compute. auto. Qed.

(** ** The adapter's fixtures *)

Inductive MockLlmError : Set :=
  | Mle_Io (path : str) (source : IoError)
  | Mle_Empty (dir : str)
  | Mle_Schema (path : str) (source : JsonError).

(** [sort_by_key], which is stable. *)
Section Sort.
Context {A : Type} (key : A → Z).
Fixpoint insert_by (x : A) (l : list A) : list A :=
  match l with
  | [] => [x]
  | y :: l => if key x <=? key y then x :: y :: l else y :: insert_by x l
  end.
Definition sort_by_key (l : list A) : list A := foldr insert_by [] l.

Definition key_le (x y : A) : Prop := key x ≤ key y.

Lemma insert_by_perm x l : insert_by x l ≡ₚ x :: l.
Proof.
  induction l as [|y l IH]; cbn; [done|]. destruct (key x <=? key y); [done|]. rewrite IH. apply Permutation_swap.
Qed.

Lemma sort_by_key_perm l : sort_by_key l ≡ₚ l.
Proof. induction l as [|x l IH]; cbn; [done|]. by rewrite insert_by_perm, IH. Qed.

Lemma insert_by_sorted x l : StronglySorted key_le l → StronglySorted key_le (insert_by x l).
Proof.
  induction 1 as [|y l Hs IH Hy]; cbn; [by repeat constructor|]. destruct (Z.leb_spec (key x) (key y)) as [Hle|Hlt].
  - constructor; [by constructor|]. constructor; [exact Hle|]. eapply Forall_impl; [exact Hy|].
    unfold key_le. lia.
  - constructor; [exact IH|]. rewrite insert_by_perm. constructor; [unfold key_le; lia|exact Hy].
Qed.

Lemma sort_by_key_sorted l : StronglySorted key_le (sort_by_key l).
Proof. induction l as [|x l IH]; cbn; [constructor|]. by apply insert_by_sorted. Qed.

(** Lists with the same elements sort to the same list, if no two share a key. *)
Lemma sort_by_key_unique l l' : NoDup (key <$> l) → l ≡ₚ l' → sort_by_key l = sort_by_key l'.
Proof.
  intros Hnd Hp. apply (StronglySorted_unique_strong key_le).
  - intros x y Hx Hy Hxy Hyx. rewrite sort_by_key_perm in Hx. rewrite sort_by_key_perm, <-Hp in Hy.
    assert (key x = key y) as E by (unfold key_le in *; lia). clear -Hnd Hx Hy E.
    apply list_elem_of_lookup in Hx as [i Hi], Hy as [j Hj].
    assert (i = j) as ->; [|congruence]. apply (NoDup_lookup _ _ _ (key x) Hnd); rewrite list_lookup_fmap.
    + by rewrite Hi.
    + by rewrite Hj, E.
  - apply sort_by_key_sorted.
  - apply sort_by_key_sorted.
  - by rewrite !sort_by_key_perm.
Qed.
End Sort.

Section Fixtures.
Context {H : Type} `{!Files H, sj : SerdeJson} (plan_from_value : Value → Plan + SerdeError).

Definition JSON : str := ascii_bytes "json".

Definition load_fixture (path : str) : cmd H MockLlmError Plan := λ h,
  let '(r, h) := read_file path h in
  match r with
  | inr e => (Err (Mle_Io path e), h)
  | inl b =>
      match parse_and_validate plan_from_value b with
      | Ok p => (Ok p, h)
      | Err e => (Err (Mle_Schema path e), h)
      | Panicked => (Panicked, h)
      end
  end.

(** The loop over the entries. *)
Fixpoint load_entries (dir : str) (entries : list (str + IoError)) (acc : list Plan) : cmd H MockLlmError (list Plan) :=
  match entries with
  | [] => mret acc
  | inr e :: _ => raise (Mle_Io dir e)
  | inl path :: entries =>
      if decide (extension path = Some JSON) then
        plan ← load_fixture path; load_entries dir entries (acc ++ [plan])
      else load_entries dir entries acc
  end.

Definition try_new (dir : str) : cmd H MockLlmError MockLlmAdapter := λ h,
  let '(r, h) := read_dir dir h in
  match r with
  | inr e => (Err (Mle_Io dir e), h)
  | inl entries =>
      (plans ← load_entries dir entries [];
       let fixtures := sort_by_key plan_id plans in
       if is_nil fixtures then raise (Mle_Empty dir) else mret (mkMockLlm dir fixtures 0 0)) h
  end.

(** [new]: any error panics. *)
Definition MockLlmAdapter_new (dir : str) : cmd H MockLlmError MockLlmAdapter := catch (try_new dir) (λ _, unwind).

(** ** What is loaded *)

(** The files do not change while they are read. *)
Context (contents : str → bytes) (Hread : ∀ path h, read_file path h = (inl (contents path), h)).

Definition is_json (path : str) : bool := bool_decide (extension path = Some JSON).

Lemma load_entries_ok dir paths (plans : str → Plan) acc h :
  (∀ path, path ∈ paths → is_json path = true → parse_and_validate plan_from_value (contents path) = Ok (plans path)) →
  load_entries dir (inl <$> paths) acc h = (Ok (acc ++ (plans <$> List.filter is_json paths)), h).
Proof.
  revert acc. induction paths as [|path paths IH]; intros acc Hp; cbn [fmap list_fmap load_entries List.filter].
  { by rewrite app_nil_r. }
  pose proof (Hp path ltac:(by left)) as Hpath. destruct (is_json path) eqn:E; unfold is_json in E.
  - apply bool_decide_eq_true in E. rewrite decide_True by done. unfold mbind, cmd_bind, load_fixture. rewrite Hread, (Hpath eq_refl).
    rewrite IH by (intros; apply Hp; [by right|done]). cbn. by rewrite <-(assoc_L (++)).
  - apply bool_decide_eq_false in E. rewrite decide_False by done. apply IH. intros; apply Hp; [by right|done].
Qed.

(** The fixtures are the plans in the [.json] files, in the order of their ids: when no two
    share an id, the order of the directory does not matter. *)
Lemma try_new_deterministic dir dir' paths paths' (plans : str → Plan) h h' h1 h1' m m' :
  read_dir dir h = (inl (inl <$> paths), h1) → read_dir dir' h' = (inl (inl <$> paths'), h1') →
  paths ≡ₚ paths' →
  (∀ path, path ∈ paths → is_json path = true → parse_and_validate plan_from_value (contents path) = Ok (plans path)) →
  NoDup (plan_id ∘ plans <$> List.filter is_json paths) →
  try_new dir h = (Ok m, h1) → try_new dir' h' = (Ok m', h1') → fixtures m = fixtures m'.
Proof.
  intros Hd Hd' Hperm Hp Hnd. unfold try_new. rewrite Hd, Hd'. unfold mbind, cmd_bind.
  rewrite !(load_entries_ok _ _ plans) by (intros path Hin; apply Hp; first [done|by rewrite Hperm]). cbn [app].
  assert (plans <$> List.filter is_json paths ≡ₚ plans <$> List.filter is_json paths') as HP.
  { f_equiv. clear -Hperm. induction Hperm as [|x l l' _ IH|x y l|l1 l2 l3 _ IH1 _ IH2]; cbn.
    - done.
    - destruct (is_json x); [by constructor|done].
    - destruct (is_json x), (is_json y); try done. apply Permutation_swap.
    - by etrans. }
  rewrite list_fmap_compose in Hnd. rewrite <-(sort_by_key_unique plan_id _ _ Hnd HP).
  destruct (is_nil _); [done|]. by intros [= <-] [= <-].
Qed.
End Fixtures.
