(* ===== verification/UiRepr.v ===== *)
(** * The screen as HTML for a language model ([ai-device-kernel/src/ui_repr.rs])

    [to_html] prints a screen; [read_screen] is a reader of what it prints, and reading
    back shows that no text of an app can forge a node or hide one. *)

From S2P Require Import Prelude Words Utf8 Float32 Format KernelTypes.
Local Open Scope Z_scope.

Inductive UiReprClass : Set :=
  | Ui_Button | Ui_EditText | Ui_TextView | Ui_ImageView | Ui_Switch | Ui_CheckBox | Ui_Spinner
  | Ui_ScrollView | Ui_LinearLayout | Ui_RelativeLayout | Ui_WebView | Ui_RecyclerView
  | Ui_Other (name : str).

Record UiReprNode : Set := mkUiNode
  { node_id : option str; node_class : UiReprClass; node_text : option str;
    content_desc : option str; interactive : bool }.

Definition text_size (t : option str) : nat := match t with Some t => length t + 4 | None => 0 end.
Definition approx_size (n : UiReprNode) : nat :=
  32 + text_size (node_id n) + text_size (node_text n) + text_size (content_desc n).

(** [s.rsplit('.').next()] *)
Definition DOT : Z := 46.
Fixpoint after_last_dot (s : str) : option str :=
  match s with
  | [] => None
  | b :: s => match after_last_dot s with
              | Some r => Some r
              | None => if b =? DOT then Some s else None
              end
  end.
Definition simple_name (s : str) : str := default s (after_last_dot s).

(** The class names of Android's widgets. *)
Definition widget_names : list (str * UiReprClass) :=
  [(ascii_bytes "Button", Ui_Button); (ascii_bytes "EditText", Ui_EditText);
   (ascii_bytes "TextView", Ui_TextView); (ascii_bytes "ImageView", Ui_ImageView);
   (ascii_bytes "Switch", Ui_Switch); (ascii_bytes "CheckBox", Ui_CheckBox);
   (ascii_bytes "Spinner", Ui_Spinner); (ascii_bytes "ScrollView", Ui_ScrollView);
   (ascii_bytes "LinearLayout", Ui_LinearLayout); (ascii_bytes "RelativeLayout", Ui_RelativeLayout);
   (ascii_bytes "WebView", Ui_WebView); (ascii_bytes "RecyclerView", Ui_RecyclerView)].

Definition from_a11y_class (s : str) : UiReprClass :=
  let simple := simple_name s in
  match find (λ p, bool_decide (p.1 = simple)) widget_names with
  | Some p => p.2
  | None => Ui_Other simple
  end.

Record UiReprHtml : Set := mkUiHtml
  { ui_screen : str; ui_screen_id : option ScreenId; ui_nodes : list UiReprNode; ui_truncated : bool }.

Definition MAX_NODES : nat := 64.
Definition MAX_TEXT_BYTES : nat := 64.

Definition approx_html_size (u : UiReprHtml) : nat :=
  length (ui_screen u) + 32 + sum_list (approx_size <$> ui_nodes u).

Definition AMP : bytes := ascii_bytes "&amp;".
Definition LT : bytes := ascii_bytes "&lt;".
Definition GT : bytes := ascii_bytes "&gt;".
Definition QUOT : bytes := ascii_bytes "&quot;".
Definition QUOTE : Z := 34.

Definition escape_char (c : Z) : bytes :=
  if c =? 38 then AMP
  else if c =? 60 then LT
  else if c =? 62 then GT
  else if c =? QUOTE then QUOT
  else encode_char c.
Definition escape_html (s : str) : bytes := default [] (chars s) ≫= escape_char.

Definition node_class_name (c : UiReprClass) : bytes :=
  match c with
  | Ui_Button => ascii_bytes "button"
  | Ui_EditText => ascii_bytes "edit"
  | Ui_TextView => ascii_bytes "text"
  | Ui_ImageView => ascii_bytes "img"
  | Ui_Switch => ascii_bytes "switch"
  | Ui_CheckBox => ascii_bytes "checkbox"
  | Ui_Spinner => ascii_bytes "spinner"
  | Ui_ScrollView => ascii_bytes "scroll"
  | Ui_LinearLayout => ascii_bytes "linearlayout"
  | Ui_RelativeLayout => ascii_bytes "relativelayout"
  | Ui_WebView => ascii_bytes "webview"
  | Ui_RecyclerView => ascii_bytes "recycler"
  | Ui_Other _ => ascii_bytes "node"
  end.

(** [ name="value"], when there is a value. *)
Definition attribute (name : bytes) (value : option str) : bytes :=
  match value with
  | Some v => name ++ [QUOTE] ++ escape_html v ++ [QUOTE]
  | None => []
  end.

Definition ID : bytes := ascii_bytes " id=".
Definition CLASS : bytes := ascii_bytes " class=".
Definition TEXT : bytes := ascii_bytes " text=".
Definition DESC : bytes := ascii_bytes " desc=".
Definition INTERACTIVE : bytes := ascii_bytes " interactive".

Definition other_name (c : UiReprClass) : option str :=
  match c with Ui_Other s => Some s | _ => None end.

Definition node_html (n : UiReprNode) : bytes :=
  ascii_bytes "<" ++ node_class_name (node_class n) ++ attribute ID (node_id n) ++
  attribute CLASS (other_name (node_class n)) ++ attribute TEXT (node_text n) ++
  attribute DESC (content_desc n) ++ (if interactive n then INTERACTIVE else []) ++ ascii_bytes "/>".

Definition SCREEN : bytes := ascii_bytes "<screen pkg=" ++ [QUOTE].
Definition TRUNCATED : bytes := ascii_bytes "<!-- truncated -->".
Definition END : bytes := ascii_bytes "</screen>".

Definition to_html (u : UiReprHtml) : bytes :=
  SCREEN ++ escape_html (ui_screen u) ++ [QUOTE] ++ ascii_bytes ">" ++
  (ui_nodes u ≫= node_html) ++ (if ui_truncated u then TRUNCATED else []) ++ END.

(** The encoder does not fill in nodes yet. *)
Definition encode_tree (t : A11yTree) : UiReprHtml :=
  mkUiHtml (default [] (top_activity t)) None [] false.

(** ** A reader *)

Fixpoint expect (lit s : bytes) : option bytes :=
  match lit, s with
  | [], _ => Some s
  | a :: lit, b :: s => if a =? b then expect lit s else None
  | _ :: _, [] => None
  end.

(** Up to the next quote, which it drops. *)
Fixpoint until_quote (s : bytes) : option (bytes * bytes) :=
  match s with
  | [] => None
  | b :: s => if b =? QUOTE then Some ([], s)
              else '(v, s) ← until_quote s; Some (b :: v, s)
  end.

Definition entities : list (bytes * Z) := [(AMP, 38); (LT, 60); (GT, 62); (QUOT, QUOTE)].

Fixpoint unescape (fuel : nat) (s : bytes) : bytes :=
  match fuel, s with
  | S fuel, b :: r =>
      if b =? 38 then
        match expect AMP s, expect LT s, expect GT s, expect QUOT s with
        | Some r, _, _, _ => 38 :: unescape fuel r
        | _, Some r, _, _ => 60 :: unescape fuel r
        | _, _, Some r, _ => 62 :: unescape fuel r
        | _, _, _, Some r => QUOTE :: unescape fuel r
        | _, _, _, _ => b :: unescape fuel r
        end
      else b :: unescape fuel r
  | _, _ => []
  end.

Definition read_value (s : bytes) : option (str * bytes) :=
  '(v, s) ← until_quote s; Some (unescape (length v) v, s).

Definition read_attribute (name : bytes) (s : bytes) : option (option str * bytes) :=
  match expect (name ++ [QUOTE]) s with
  | Some r => '(v, r) ← read_value r; Some (Some v, r)
  | None => Some (None, s)
  end.

(** The name of a tag ends before a blank or a slash. *)
Fixpoint read_name (s : bytes) : bytes * bytes :=
  match s with
  | [] => ([], [])
  | b :: r => if (b =? 32) || (b =? 47) then ([], s) else let '(n, r) := read_name r in (b :: n, r)
  end.

Definition plain_classes : list UiReprClass := widget_names.*2.

Definition read_class (name : bytes) (other : option str) : option UiReprClass :=
  match other with
  | Some s => Some (Ui_Other s)
  | None => find (λ c, bool_decide (node_class_name c = name)) plain_classes
  end.

Definition read_node (s : bytes) : option (UiReprNode * bytes) :=
  s ← expect (ascii_bytes "<") s;
  let '(name, s) := read_name s in
  '(id, s) ← read_attribute ID s;
  '(other, s) ← read_attribute CLASS s;
  '(text, s) ← read_attribute TEXT s;
  '(desc, s) ← read_attribute DESC s;
  let '(act, s) := match expect INTERACTIVE s with Some s => (true, s) | None => (false, s) end in
  s ← expect (ascii_bytes "/>") s;
  c ← read_class name other;
  Some (mkUiNode id c text desc act, s).

Fixpoint read_nodes (fuel : nat) (s : bytes) : option (list UiReprNode * bool) :=
  match fuel with
  | O => None
  | S fuel =>
      match expect END s, expect TRUNCATED s with
      | Some [], _ => Some ([], false)
      | _, Some r => match expect END r with Some [] => Some ([], true) | _ => None end
      | _, None => '(n, s) ← read_node s; '(ns, b) ← read_nodes fuel s; Some (n :: ns, b)
      end
  end.

Definition read_screen (s : bytes) : option (str * list UiReprNode * bool) :=
  r ← expect SCREEN s;
  '(screen, r) ← read_value r;
  r ← expect (ascii_bytes ">") r;
  '(ns, b) ← read_nodes (length r) r;
  Some (screen, ns, b).

(** ** Escaping *)

Lemma expect_app lit s : expect lit (lit ++ s) = Some s.
Proof. induction lit as [|a lit IH]; [done|]. cbn. by rewrite Z.eqb_refl. Qed.

Lemma encode_char_high c : 0x80 ≤ c → is_char c → Forall (λ b, 0x80 ≤ b) (encode_char c).
Proof.
  intros Hc Hch. unfold is_char in Hch. unfold encode_char. rewrite (proj2 (Z.ltb_ge _ _)) by done.
  assert (∀ z, 0 ≤ z mod 64) as Hm by (intros z; apply Z.mod_pos_bound; lia).
  assert (∀ k, 0 < k → 0 ≤ c / k) as Hd by (intros k Hk; apply Z.div_pos; lia).
  pose proof (Hm c). pose proof (Hm (c / 64)). pose proof (Hm (c / 4096)).
  pose proof (Hd 64 ltac:(lia)). pose proof (Hd 4096 ltac:(lia)). pose proof (Hd 262144 ltac:(lia)).
  repeat destruct (_ <? _); repeat (apply Forall_cons_2; [lia|]); apply Forall_nil_2.
Qed.

(** A character that is not escaped has none of the special bytes. *)
Lemma encode_char_plain c :
  is_char c → c ≠ 38 → c ≠ QUOTE → Forall (λ b, b ≠ 38 ∧ b ≠ QUOTE) (encode_char c).
Proof.
  intros Hc H1 H2. destruct (Z.lt_ge_cases c 0x80) as [Hl|Hg].
  - unfold encode_char. rewrite (proj2 (Z.ltb_lt _ _)) by done. by repeat constructor.
  - eapply Forall_impl; [by apply encode_char_high|]. intros b Hb. cbn in Hb |- *. unfold QUOTE. lia.
Qed.

Lemma escape_char_no_quote c : is_char c → Forall (λ b, b ≠ QUOTE) (escape_char c).
Proof.
  intros Hc. unfold escape_char.
  destruct (Z.eqb_spec c 38); [by repeat constructor|]. destruct (Z.eqb_spec c 60); [by repeat constructor|].
  destruct (Z.eqb_spec c 62); [by repeat constructor|]. destruct (Z.eqb_spec c QUOTE); [by repeat constructor|].
  eapply Forall_impl; [by apply encode_char_plain|]. by intros b [_ ?].
Qed.

Lemma unescape_plain l fuel s :
  Forall (λ b, b ≠ 38 ∧ b ≠ QUOTE) l → unescape (length l + fuel) (l ++ s) = l ++ unescape fuel s.
Proof.
  induction 1 as [|b l [Hb _] _ IH]; [done|]. cbn [length app Nat.add unescape].
  rewrite (proj2 (Z.eqb_neq _ _) Hb). by rewrite IH.
Qed.

(** An entity is one character. *)
Lemma unescape_entity fuel s :
  unescape (S fuel) (AMP ++ s) = 38 :: unescape fuel s ∧
  unescape (S fuel) (LT ++ s) = 60 :: unescape fuel s ∧
  unescape (S fuel) (GT ++ s) = 62 :: unescape fuel s ∧
  unescape (S fuel) (QUOT ++ s) = QUOTE :: unescape fuel s.
Proof. by split_and!. Qed.

Lemma unescape_escape cs fuel :
  Forall is_char cs → (length (cs ≫= escape_char) ≤ fuel)%nat →
  unescape fuel (cs ≫= escape_char) = encode cs.
Proof.
  intros Hcs. revert fuel. induction Hcs as [|c cs Hc _ IH]; intros fuel Hf; [by destruct fuel|].
  rewrite encode_cons. rewrite bind_cons in *. rewrite length_app in Hf.
  unfold escape_char at 1 in Hf. unfold escape_char at 1.
  destruct (Z.eqb_spec c 38) as [->|H1].
  { destruct fuel as [|fuel]; [cbn in Hf; lia|]. destruct (unescape_entity fuel (cs ≫= escape_char)) as (-> & _).
    rewrite IH; [done|cbn in Hf; lia]. }
  destruct (Z.eqb_spec c 60) as [->|H2].
  { destruct fuel as [|fuel]; [cbn in Hf; lia|]. destruct (unescape_entity fuel (cs ≫= escape_char)) as (_ & -> & _).
    rewrite IH; [done|cbn in Hf; lia]. }
  destruct (Z.eqb_spec c 62) as [->|H3].
  { destruct fuel as [|fuel]; [cbn in Hf; lia|]. destruct (unescape_entity fuel (cs ≫= escape_char)) as (_ & _ & -> & _).
    rewrite IH; [done|cbn in Hf; lia]. }
  destruct (Z.eqb_spec c QUOTE) as [->|H4].
  { destruct fuel as [|fuel]; [cbn in Hf; lia|]. destruct (unescape_entity fuel (cs ≫= escape_char)) as (_ & _ & _ & ->).
    rewrite IH; [done|cbn in Hf; lia]. }
  replace fuel with (length (encode_char c) + (fuel - length (encode_char c)))%nat by lia.
  rewrite unescape_plain by (by apply encode_char_plain). rewrite IH; [done|lia].
Qed.

Lemma until_quote_spec v s : Forall (λ b, b ≠ QUOTE) v → until_quote (v ++ QUOTE :: s) = Some (v, s).
Proof.
  induction 1 as [|b v Hb _ IH]; [done|]. cbn [app until_quote]. rewrite (proj2 (Z.eqb_neq _ _) Hb).
  by rewrite IH.
Qed.

Lemma escaped_no_quote cs : Forall is_char cs → Forall (λ b, b ≠ QUOTE) (cs ≫= escape_char).
Proof.
  induction 1 as [|c cs Hc _ IH]; [apply Forall_nil_2|]. rewrite bind_cons. apply Forall_app.
  split; [by apply escape_char_no_quote|done].
Qed.

(** An escaped value in quotes is read back, whatever it is. *)
Lemma read_value_escape v s :
  is_str v → read_value (escape_html v ++ [QUOTE] ++ s) = Some (v, s).
Proof.
  intros (cs & Hcs & ->). unfold escape_html. rewrite chars_encode by done. cbn [default].
  unfold read_value. cbn [app]. rewrite until_quote_spec.
  - cbn. by rewrite unescape_escape.
  - by apply escaped_no_quote.
Qed.

(** ** Nodes *)

Definition str_ok (t : option str) : Prop := match t with Some t => is_str t | None => True end.
Definition node_ok (n : UiReprNode) : Prop :=
  str_ok (node_id n) ∧ str_ok (other_name (node_class n)) ∧ str_ok (node_text n) ∧ str_ok (content_desc n).

(** What can follow an attribute: another one, the flag or the end of the tag. *)
Definition tail_of (n : UiReprNode) : bytes := (if interactive n then INTERACTIVE else []) ++ ascii_bytes "/>".

(** [s] does not start with the attribute [name]. *)
Definition not_next (name s : bytes) : Prop := expect (name ++ [QUOTE]) s = None.

Lemma read_attribute_back name v s :
  str_ok v → not_next name s → read_attribute name (attribute name v ++ s) = Some (v, s).
Proof.
  intros Hv Hn. unfold read_attribute, attribute. destruct v as [v|]; [|by rewrite app_nil_l, Hn].
  rewrite (assoc_L (++) name [QUOTE] (escape_html v ++ [QUOTE])), <-!(assoc_L (++)), (assoc_L (++) name), expect_app.
  by rewrite read_value_escape.
Qed.

Lemma attribute_other name name' v s :
  (∀ r, not_next name (name' ++ [QUOTE] ++ r)) → not_next name s → not_next name (attribute name' v ++ s).
Proof.
  intros Hd Hn. destruct v as [v|]; [|done]. cbn [attribute]. rewrite <-!(assoc_L (++)). apply Hd.
Qed.

Lemma tail_next name n s :
  name = ID ∨ name = CLASS ∨ name = TEXT ∨ name = DESC → not_next name (tail_of n ++ s).
Proof. intros [->|[->|[->| ->]]]; unfold tail_of; by destruct (interactive n). Qed.

Lemma read_name_back c s :
  (∃ r, s = 32 :: r ∨ s = 47 :: r) → read_name (node_class_name c ++ s) = (node_class_name c, s).
Proof. intros (r & [-> | ->]); by destruct c. Qed.

Lemma read_class_back c : read_class (node_class_name c) (other_name c) = Some c.
Proof. by destruct c. Qed.

Lemma attribute_starts name v s r0 :
  (∃ r, name = 32 :: r) → (∃ r, s = 32 :: r ∨ s = 47 :: r) → attribute name v ++ s = r0 →
  ∃ r, r0 = 32 :: r ∨ r0 = 47 :: r.
Proof. intros (r & ->) Hs <-. destruct v as [v|]; [|done]. eexists. by left. Qed.

Lemma read_node_back n s : node_ok n → read_node (node_html n ++ s) = Some (n, s).
Proof.
  intros (Hid & Hcl & Htx & Hde). unfold node_html. rewrite <-!(assoc_L (++)).
  set (s4 := tail_of n ++ s).
  assert ((if interactive n then INTERACTIVE else []) ++ ascii_bytes "/>" ++ s = s4) as ->
    by (unfold s4, tail_of; by rewrite <-(assoc_L (++))).
  set (s3 := attribute DESC (content_desc n) ++ s4). set (s2 := attribute TEXT (node_text n) ++ s3).
  set (s1 := attribute CLASS (other_name (node_class n)) ++ s2).
  assert (∃ r, s4 = 32 :: r ∨ s4 = 47 :: r) as H4 by (unfold s4, tail_of; destruct (interactive n); eexists; [by left|by right]).
  unfold read_node. rewrite expect_app. cbn [mbind option_bind].
  rewrite read_name_back.
  2:{ eapply (attribute_starts ID); [by eexists| |done]. eapply (attribute_starts CLASS); [by eexists| |done].
      eapply (attribute_starts TEXT); [by eexists| |done]. by eapply (attribute_starts DESC); [by eexists| |]. }
  assert (∀ name, name = ID ∨ name = CLASS ∨ name = TEXT ∨ name = DESC → not_next name s4) as N4
    by (intros name; apply tail_next).
  rewrite read_attribute_back; [|done|].
  2:{ apply attribute_other; [done|]. apply attribute_other; [done|]. apply attribute_other; [done|]. apply N4. tauto. }
  cbn [mbind option_bind]. unfold s1. rewrite read_attribute_back; [|done|].
  2:{ apply attribute_other; [done|]. apply attribute_other; [done|]. apply N4. tauto. }
  cbn [mbind option_bind]. unfold s2. rewrite read_attribute_back; [|done|].
  2:{ apply attribute_other; [done|]. apply N4. tauto. }
  cbn [mbind option_bind]. unfold s3. rewrite read_attribute_back; [|done|apply N4; tauto].
  cbn [mbind option_bind]. unfold s4, tail_of.
  destruct (interactive n) eqn:Ei.
  - rewrite <-(assoc_L (++)), expect_app, expect_app. cbn [mbind option_bind]. rewrite read_class_back.
    cbn. rewrite <-Ei. by destruct n.
  - rewrite app_nil_l. change (expect INTERACTIVE (ascii_bytes "/>" ++ s)) with (@None bytes).
    cbv beta iota. rewrite expect_app. cbn [mbind option_bind]. rewrite read_class_back. cbn. rewrite <-Ei. by destruct n.
Qed.

(** ** Screens *)

Lemma node_not_end n s : expect END (node_html n ++ s) = None ∧ expect TRUNCATED (node_html n ++ s) = None.
Proof. unfold node_html. rewrite <-!(assoc_L (++)). by destruct (node_class n). Qed.

Lemma node_html_length n : (1 ≤ length (node_html n))%nat.
Proof. unfold node_html. cbn. lia. Qed.

Lemma read_nodes_back ns (b : bool) fuel :
  Forall node_ok ns → (length ns < fuel)%nat →
  read_nodes fuel ((ns ≫= node_html) ++ (if b then TRUNCATED else []) ++ END) = Some (ns, b).
Proof.
  intros Hns. revert fuel. induction Hns as [|n ns Hn _ IH]; intros fuel Hf;
    (destruct fuel as [|fuel]; [cbn in Hf; lia|]); cbn [read_nodes].
  { by destruct b. }
  rewrite bind_cons, <-(assoc_L (++)). destruct (node_not_end n ((ns ≫= node_html) ++ (if b then TRUNCATED else []) ++ END)) as [-> ->].
  rewrite read_node_back by done. cbn [mbind option_bind]. rewrite IH by (cbn in Hf; lia). done.
Qed.

Lemma nodes_length ns : (length ns ≤ length (ns ≫= node_html))%nat.
Proof.
  induction ns as [|n ns IH]; [done|]. rewrite bind_cons, length_app. cbn [length].
  pose proof (node_html_length n). lia.
Qed.

(** C26: the screen as printed can be read back.  Whatever the texts, descriptions, ids and
    class names an app shows - quotes, angle brackets and ampersands included - a reader of
    the tags gets from [to_html] the screen's name, every node with each of its attributes,
    and whether it was truncated: no text forges a node, hides one, or runs into another. *)
Theorem to_html_reads_back (u : UiReprHtml) (Hs : is_str (ui_screen u))
    (Hn : Forall node_ok (ui_nodes u)) :
  read_screen (to_html u) = Some (ui_screen u, ui_nodes u, ui_truncated u).
Proof.
  unfold read_screen, to_html. rewrite expect_app. cbn [mbind option_bind].
  rewrite read_value_escape by done. cbn [mbind option_bind]. rewrite expect_app. cbn [mbind option_bind].
  rewrite read_nodes_back; [done|done|].
  rewrite !length_app. pose proof (nodes_length (ui_nodes u)). cbn [length]. unfold END. cbn. lia.
Qed.

(** A button whose text closes its tag. *)
Definition hostile_button : UiReprNode :=
  mkUiNode (Some (ascii_bytes "ok")) (Ui_Other (ascii_bytes "x&y"))
    (Some ([QUOTE] ++ ascii_bytes "/></screen><button")) None true.

Lemma to_html_reads_back_witness :
  read_screen (to_html (mkUiHtml (ascii_bytes "com.app") None [hostile_button] true)) =
  Some (ascii_bytes "com.app", [hostile_button], true).
Proof.
  assert (∀ s, is_ascii s → is_str s) as Ha by apply ascii_is_str.
  apply (to_html_reads_back (mkUiHtml (ascii_bytes "com.app") None [hostile_button] true)).
  - apply Ha. apply (bool_decide_unpack _). vm_compute. exact I.
  - apply Forall_cons_2; [|apply Forall_nil_2]. split; [|split; [|split; [|exact I]]]; apply Ha;
      apply (bool_decide_unpack _); vm_compute; exact I.
Defined.
