(* ===== verification/MemoryStore.v ===== *)
(** * The memory on disk ([ai-device-kernel/src/memory_sqlite.rs])

    The memory is kept in a table of a SQLite database, a row per screen: opened, it is
    replayed into a new [Memory]; a screen's row is replaced when the screen is persisted.
    [rusqlite] is the interface [Sqlite], [postcard] the interface [Postcard]. *)

From stdpp Require Import gmap.
From S2P Require Import Prelude Words Utf8 KernelTypes Bounded Memory.
Local Open Scope Z_scope.

(** ** [rusqlite] *)

(** Connections and statements over the files of [H].  [query] reads all rows; a column is
    read as a [Vec<u8>]. *)
Class Sqlite (H : Type) := {
  Conn : Type; Row : Type; SqlError : Type;
  ToSqlConversionFailure : string → SqlError;
  connection_open : str → H → (Conn + SqlError) * H;
  execute_batch : Conn → string → H → (unit + SqlError) * H;
  query : Conn → string → H → (list Row + SqlError) * H;
  row_get : nat → Row → bytes + SqlError;
  execute : Conn → string → list bytes → H → (unit + SqlError) * H;
}.
Arguments Conn H {_}.
Arguments Row H {_}.
Arguments SqlError H {_}.

Definition SCHEMA : string :=
"
        CREATE TABLE IF NOT EXISTS screens (
            screen_id BLOB PRIMARY KEY,
            successes BLOB NOT NULL,
            failures  BLOB NOT NULL
        );
        ".
Definition SELECT_SCREENS : string := "SELECT screen_id, successes, failures FROM screens".
Definition REPLACE_SCREEN : string :=
  "INSERT OR REPLACE INTO screens (screen_id, successes, failures) VALUES (?1, ?2, ?3)".

(** [postcard] on the two lists of an entry. *)
Class Postcard := {
  successes_to : list Action → bytes + string;
  successes_from : bytes → option (list Action);
  failures_to : list (Action * string) → bytes + string;
  failures_from : bytes → option (list (Action * string));
}.
Class LawfulPostcard `{!Postcard} := {
  successes_back l b : successes_to l = inl b → successes_from b = Some l;
  failures_back l b : failures_to l = inl b → failures_from b = Some l;
}.

Section Store.
Context {H : Type} `{!Sqlite H, pc : Postcard}.

(** A [rusqlite::Result] under [?]. *)
Definition result {S E A} (r : A + E) : cmd S E A :=
  match r with inl a => mret a | inr e => raise e end.
Definition on_db {A} (f : H → (A + SqlError H) * H) : cmd H (SqlError H) A := λ h,
  let '(r, h) := f h in result r h.

(** An id of another length is taken for sixteen zeros. *)
Definition row_id (b : bytes) : ScreenId := if decide (length b = 16%nat) then b else replicate 16 0.

Definition hydrate_row (m : Memory) (row : Row H) : cmd H (SqlError H) Memory :=
  id ← result (row_get 0 row);
  ss ← result (row_get 1 row);
  fs ← result (row_get 2 row);
  let sid := row_id id in
  let m := fold_left (λ m s, record_success sid s m) (default [] (successes_from ss)) m in
  mret (fold_left (λ m f, record_failure sid f.1 f.2 m) (default [] (failures_from fs)) m).

Fixpoint hydrate (rows : list (Row H)) (m : Memory) : cmd H (SqlError H) Memory :=
  match rows with
  | [] => mret m
  | row :: rows => m ← hydrate_row m row; hydrate rows m
  end.

Definition open_memory (path : str) : cmd H (SqlError H) (Conn H * Memory) :=
  conn ← on_db (connection_open path);
  on_db (execute_batch conn SCHEMA);;
  rows ← on_db (query conn SELECT_SCREENS);
  m ← hydrate rows Memory_new;
  mret (conn, m).

Definition persist_screen (conn : Conn H) (sid : ScreenId) (entry : ActionSequence) : cmd H (SqlError H) unit :=
  ss ← map_err ToSqlConversionFailure (result (successes_to (successes entry)));
  fs ← map_err ToSqlConversionFailure (result (failures_to (failures entry)));
  on_db (execute conn REPLACE_SCREEN [sid; ss; fs]).

(** What a recorded success does to the memory and its database, as the daemon does it. *)
Definition learn (conn : Conn H) (sid : ScreenId) (a : Action) (m : Memory) : cmd H (SqlError H) Memory :=
  let m := record_success sid a m in
  match peek sid m with
  | Some entry => persist_screen conn sid entry;; mret m
  | None => mret m
  end.

Fixpoint learn_all (conn : Conn H) (l : list (ScreenId * Action)) (m : Memory) : cmd H (SqlError H) Memory :=
  match l with
  | [] => mret m
  | (sid, a) :: l => m ← learn conn sid a m; learn_all conn l m
  end.
End Store.

(** ** What SQL promises

    [screens p h] is the table in the file [p], empty where there is none. *)
Class LawfulSqlite (H : Type) `{!Sqlite H} := {
  path_of : Conn H → str;
  screens : str → H → gmap bytes (bytes * bytes);
  open_keeps p h c h' : connection_open p h = (inl c, h') → path_of c = p ∧ screens p h' = screens p h;
  schema_keeps c h h' :
    execute_batch c SCHEMA h = (inl tt, h') → screens (path_of c) h' = screens (path_of c) h;
  query_rows c h rows h' :
    query c SELECT_SCREENS h = (inl rows, h') →
    screens (path_of c) h' = screens (path_of c) h ∧
    ∃ l, l ≡ₚ map_to_list (screens (path_of c) h) ∧
      Forall2 (λ row r, row_get 0 row = inl r.1 ∧ row_get 1 row = inl r.2.1 ∧ row_get 2 row = inl r.2.2) rows l;
  replace_row c k s f h h' :
    execute c REPLACE_SCREEN [k; s; f] h = (inl tt, h') →
    screens (path_of c) h' = <[k := (s, f)]> (screens (path_of c) h);
}.

Lemma size_insert_ge {A} (t : gmap bytes A) k v : (size t ≤ size (<[k := v]> t))%nat.
Proof. destruct (t !! k) as [w|] eqn:E; [rewrite map_size_insert_Some by by exists w|rewrite map_size_insert_None by done]; lia. Qed.

(** ** Replaying an entry *)

Lemma lastn_snoc {A} n (l : list A) x : lastn (S n) (l ++ [x]) = lastn n l ++ [x].
Proof.
  unfold lastn. rewrite length_app. cbn [length]. replace (length l + 1 - S n)%nat with (length l - n)%nat by lia.
  rewrite drop_app. by replace (length l - n - length l)%nat with 0%nat by lia.
Qed.

Lemma lastn_keys {A B} n (l : list (A * B)) x : x ∈ (lastn n l).*1 → x ∈ l.*1.
Proof. destruct (lastn_suffix n l) as [l' E]. rewrite E at 2. rewrite fmap_app. intros Hx; apply elem_of_app; by right. Qed.

Lemma used_last (l : list (ScreenId * ActionSequence)) id e : id ∉ l.*1 → used id (l ++ [(id, e)]) = Some e.
Proof.
  induction l as [|[x f] l IH]; cbn [fmap list_fmap fst app used].
  - by rewrite decide_True.
  - intros [Hx Hl]%not_elem_of_cons. rewrite decide_False by done. by apply IH.
Qed.

Lemma used_absent (l : list (ScreenId * ActionSequence)) id : id ∉ l.*1 → used id l = None.
Proof.
  induction l as [|[x f] l IH]; cbn [fmap list_fmap fst used]; [done|].
  intros [Hx Hl]%not_elem_of_cons. rewrite decide_False by done. by apply IH.
Qed.

Lemma use_again_last l id e e' : id ∉ l.*1 → use_again id e' (l ++ [(id, e)]) = l ++ [(id, e')].
Proof.
  intros Hid. unfold use_again, forget. rewrite filter_app. fold (forget id l). rewrite forget_absent by done.
  rewrite (filter_cons_False _ (id, e) []) by (cbn; tauto). by rewrite filter_nil, app_nil_r.
Qed.

(** The screens [l] are replayed, and of the screen [id] the entry [e]. *)
Definition replaying (l : list (ScreenId * ActionSequence)) (id : ScreenId) (e : ActionSequence) (m : Memory) : Prop :=
  refines m (mkLru (lastn MAX_ENTRIES (if decide (attempt_count e = 0%nat) then l else l ++ [(id, e)])) 0 0).

Lemma no_attempts e : attempt_count e = 0%nat → e = ActionSequence_default.
Proof. destruct e as [[|a ss] [|f fs]]; done. Qed.

Lemma max_entries_pos : ∃ n, MAX_ENTRIES = S n.
Proof. eexists. vm_compute. reflexivity. Qed.

Lemma replaying_record l id e f m :
  id ∉ l.*1 → attempt_count (f e) ≠ 0%nat → replaying l id e m → replaying l id (f e) (record_entry id f m).
Proof.
  unfold replaying. intros Hid Hf Hr%(λ H, record_refines m _ id f H). rewrite (decide_False (P := attempt_count (f e) = _)) by done.
  revert Hr. unfold lru_record. cbn [recent hits misses].
  destruct (decide (attempt_count e = 0%nat)) as [->%no_attempts|_].
  - rewrite used_absent by by intros ?%lastn_keys. cbn [default from_option]. unfold use_again.
    rewrite forget_absent by by intros ?%lastn_keys. by rewrite lastn_app_lastn.
  - destruct max_entries_pos as [n ->]. rewrite !lastn_snoc. rewrite used_last by by intros ?%lastn_keys. cbn [default from_option].
    rewrite use_again_last by by intros ?%lastn_keys. rewrite lastn_snoc.
    rewrite (lastn_all _ (lastn _ l)) by (rewrite length_lastn; lia). done.
Qed.

Lemma attempt_count_app ss fs ss' fs' :
  attempt_count (mkSequence (ss ++ ss') (fs ++ fs')) =
  (attempt_count (mkSequence ss fs) + attempt_count (mkSequence ss' fs'))%nat.
Proof. unfold attempt_count. cbn. rewrite !length_app. lia. Qed.

Lemma replaying_entry l id e m :
  id ∉ l.*1 → refines m (mkLru (lastn MAX_ENTRIES l) 0 0) →
  replaying l id e (fold_left (λ m f, record_failure id f.1 f.2 m) (failures e)
    (fold_left (λ m s, record_success id s m) (successes e) m)).
Proof.
  intros Hid Hm. destruct e as [ss fs]. cbn [successes failures].
  assert (∀ ss ss0 m, replaying l id (mkSequence ss0 []) m →
    replaying l id (mkSequence (ss0 ++ ss) []) (fold_left (λ m s, record_success id s m) ss m)) as Hss.
  { clear -Hid. intros ss. induction ss as [|s ss IH]; intros ss0 m Hm; cbn [fold_left]; [by rewrite app_nil_r|].
    replace (ss0 ++ s :: ss) with ((ss0 ++ [s]) ++ ss) by by rewrite <-(assoc_L (++)). apply IH.
    apply (replaying_record l id (mkSequence ss0 []) (λ e, mkSequence (successes e ++ [s]) (failures e))); [done| |done].
    unfold attempt_count. cbn. rewrite length_app. cbn. lia. }
  assert (∀ fs fs0 m, replaying l id (mkSequence ss fs0) m →
    replaying l id (mkSequence ss (fs0 ++ fs)) (fold_left (λ m f, record_failure id f.1 f.2 m) fs m)) as Hfs.
  { clear -Hid. intros fs. induction fs as [|[a why] fs IH]; intros fs0 m Hm; cbn [fold_left]; [by rewrite app_nil_r|].
    replace (fs0 ++ (a, why) :: fs) with ((fs0 ++ [(a, why)]) ++ fs) by by rewrite <-(assoc_L (++)). apply IH.
    apply (replaying_record l id (mkSequence ss fs0) (λ e, mkSequence (successes e) (failures e ++ [(a, why)]))); [done| |done].
    unfold attempt_count. cbn. rewrite length_app. cbn. lia. }
  apply (Hfs fs []), (Hss ss []). unfold replaying. by rewrite decide_True.
Qed.

Lemma new_refines : refines Memory_new (mkLru (lastn MAX_ENTRIES []) 0 0).
Proof.
  rewrite lastn_all by apply Nat.le_0_l.
  split; [done|done|apply NoDup_nil_2|apply Nat.le_0_l|done|done].
Qed.

Section Survives.
Context {H : Type} `{!Sqlite H, !LawfulSqlite H, pc : Postcard, pc_lawful : !LawfulPostcard}.

(** What a row holds: an entry that has been tried. *)
Definition row_tells (id : ScreenId) (r : bytes * bytes) (e : ActionSequence) : Prop :=
  length id = 16%nat ∧ attempt_count e ≠ 0%nat ∧
  successes_from r.1 = Some (successes e) ∧ failures_from r.2 = Some (failures e).

(** The table holds the entries [es], a row each. *)
Definition tells (t : gmap bytes (bytes * bytes)) (es : gmap ScreenId ActionSequence) : Prop :=
  ∀ id, match t !! id, es !! id with
        | Some r, Some e => row_tells id r e
        | None, None => True
        | _, _ => False
        end.

Lemma tells_size t es : tells t es → size t = size es.
Proof.
  intros Ht. rewrite <-!size_dom. f_equal. apply set_eq. intros id. rewrite !elem_of_dom.
  specialize (Ht id). destruct (t !! id), (es !! id); try done; split; intros []; eauto; done.
Qed.

Lemma tells_insert t es id r e : tells t es → row_tells id r e → tells (<[id := r]> t) (<[id := e]> es).
Proof.
  intros Ht Hr id'. destruct (decide (id' = id)) as [->|Hne].
  - by rewrite !lookup_insert_eq.
  - rewrite !lookup_insert_ne by done. apply Ht.
Qed.

Definition reads (row : Row H) (r : bytes * (bytes * bytes)) : Prop :=
  row_get 0 row = inl r.1 ∧ row_get 1 row = inl r.2.1 ∧ row_get 2 row = inl r.2.2.

Lemma hydrate_row_run row id r e l m h :
  reads row (id, r) → row_tells id r e → id ∉ l.*1 → refines m (mkLru (lastn MAX_ENTRIES l) 0 0) →
  ∃ m', hydrate_row m row h = (Ok m', h) ∧
    refines m' (mkLru (lastn MAX_ENTRIES (l ++ [(id, e)])) 0 0).
Proof.
  intros (H0 & H1 & H2) (Hl & He & Hs & Hf) Hid Hm. unfold hydrate_row. rewrite H0, H1, H2. cbn [fst snd].
  assert (row_id id = id) as Eid by (unfold row_id; by rewrite decide_True).
  cbn in Hs, Hf. unfold mbind, cmd_bind, result, mret, cmd_ret. rewrite Eid, Hs, Hf. cbn [default from_option].
  eexists. split; [done|].
  pose proof (replaying_entry l id e m Hid Hm) as Hr. unfold replaying in Hr. by rewrite decide_False in Hr.
Qed.

Lemma hydrate_run rows k l m h :
  Forall2 (λ row p, ∃ r, reads row (p.1, r) ∧ row_tells p.1 r p.2) rows k →
  NoDup (l ++ k).*1 → refines m (mkLru (lastn MAX_ENTRIES l) 0 0) →
  ∃ m', hydrate rows m h = (Ok m', h) ∧
    refines m' (mkLru (lastn MAX_ENTRIES (l ++ k)) 0 0).
Proof.
  intros Hk. revert l m. induction Hk as [|row [id e] rows k (r & Hr & He) _ IH]; intros l m Hnd Hm; cbn [hydrate].
  { exists m. rewrite app_nil_r. done. }
  replace (l ++ (id, e) :: k) with ((l ++ [(id, e)]) ++ k) in * by by rewrite <-(assoc_L (++)).
  destruct (hydrate_row_run row id r e l m h) as (m1 & E1 & Hm1); [done..| |done|].
  { rewrite !fmap_app in Hnd. apply NoDup_app in Hnd as (Hnd & _ & _). apply NoDup_app in Hnd as (_ & Hnd & _).
    intros Hin. apply (Hnd id Hin). by apply list_elem_of_singleton. }
  rewrite (bind_ok _ _ _ _ _ E1). by apply IH.
Qed.
(** The entries in the order of the rows [l]. *)
Definition in_order (es : gmap ScreenId ActionSequence) (l : list (bytes * (bytes * bytes))) :
    list (ScreenId * ActionSequence) :=
  (λ r, (r.1, default ActionSequence_default (es !! r.1))) <$> l.

Lemma in_order_keys es l : (in_order es l).*1 = l.*1.
Proof. unfold in_order. by rewrite <-list_fmap_compose. Qed.

Lemma in_order_map t es l :
  tells t es → l ≡ₚ map_to_list t → NoDup (in_order es l).*1 ∧ list_to_map (in_order es l) = es.
Proof.
  intros Ht Hl. assert (NoDup (in_order es l).*1) as Hnd.
  { rewrite in_order_keys, Hl. apply NoDup_fst_map_to_list. }
  split; [done|]. apply map_eq. intros id. specialize (Ht id). destruct (es !! id) as [e|] eqn:Ee.
  - apply elem_of_list_to_map_1; [done|]. destruct (t !! id) as [r|] eqn:Et; [|done].
    apply list_elem_of_fmap. exists (id, r). cbn. rewrite Ee. split; [done|]. rewrite Hl. by apply elem_of_map_to_list.
  - apply not_elem_of_list_to_map_1. rewrite in_order_keys, Hl. intros ([id' r] & -> & Hin)%list_elem_of_fmap.
    apply elem_of_map_to_list in Hin. cbn in *. by rewrite Hin in Ht.
Qed.

Lemma on_db_ok {A} (f : H → (A + SqlError H) * H) h a h' : on_db f h = (Ok a, h') → f h = (inl a, h').
Proof. unfold on_db. destruct (f h) as [[b|e] h1]; [by intros [= -> ->]|done]. Qed.

Lemma open_memory_run p h es c m h' :
  tells (screens p h) es → open_memory p h = (Ok (c, m), h') →
  path_of c = p ∧ screens p h' = screens p h ∧
  ∃ k, NoDup k.*1 ∧ list_to_map k = es ∧ refines m (mkLru (lastn MAX_ENTRIES k) 0 0).
Proof.
  intros Ht Hrun. apply bind_ok_inv in Hrun as (c' & h1 & H1%on_db_ok%open_keeps & Hrun). destruct H1 as [Hp H1].
  apply bind_ok_inv in Hrun as ([] & h2 & H2%on_db_ok%schema_keeps & Hrun). rewrite Hp, H1 in H2.
  apply bind_ok_inv in Hrun as (rows & h3 & H3%on_db_ok%query_rows & Hrun).
  destruct H3 as (H3 & l & Hl & Hrows). rewrite Hp, H2 in H3, Hl.
  destruct (in_order_map _ _ _ Ht Hl) as [Hnd Hes].
  destruct (hydrate_run rows (in_order es l) [] Memory_new h3) as (m' & E & Hm); [|done|exact new_refines|].
  { assert (Forall (λ r, screens p h !! r.1 = Some r.2) l) as Hin.
    { apply Forall_forall. intros [id r] Hr. rewrite Hl in Hr. by apply elem_of_map_to_list in Hr. }
    clear -Ht Hrows Hin. induction Hrows as [|row [id r] rows l Hr _ IH]; [constructor|].
    apply Forall_cons in Hin as [Hid Hin]. constructor; [|by apply IH]. cbn in *. exists r. split; [done|].
    specialize (Ht id). rewrite Hid in Ht. by destruct (es !! id). }
  rewrite (bind_ok _ _ _ _ _ E) in Hrun. injection Hrun as -> -> ->. split_and!; [done..|].
  by exists (in_order es l).
Qed.
(** ** Learning *)

Definition add_success (e : ActionSequence) (a : Action) : ActionSequence :=
  mkSequence (successes e ++ [a]) (failures e).

(** What is known after [l]. *)
Definition learned (l : list (ScreenId * Action)) (es : gmap ScreenId ActionSequence) : gmap ScreenId ActionSequence :=
  fold_left (λ es p, <[p.1 := add_success (default ActionSequence_default (es !! p.1)) p.2]> es) l es.

(** A memory as the operations leave it. *)
Definition sound (m : Memory) : Prop := ∃ s, refines m s.

Lemma record_success_sound id a m : sound m → sound (record_success id a m).
Proof. intros [s Hs]. eexists. by apply record_refines. Qed.

(** What was just recorded is not evicted. *)
Lemma record_success_peek id a m :
  sound m → peek id (record_success id a m) = Some (add_success (default ActionSequence_default (entries m !! id)) a).
Proof.
  intros [s Hs]. set (f := λ e, add_success e a).
  pose proof (record_refines m s id f Hs) as [He _ Hnd _ _ _]. unfold peek, record_success.
  change (λ e : ActionSequence, _) with f. rewrite He. apply elem_of_list_to_map_1; [done|].
  rewrite (ref_entries m s Hs), used_lookup. unfold lru_record, use_again. cbn [recent].
  destruct max_entries_pos as [n ->]. rewrite lastn_snoc. apply elem_of_app. right. by apply list_elem_of_singleton.
Qed.

Lemma record_success_entries id a m :
  let es := <[id := add_success (default ActionSequence_default (entries m !! id)) a]> (entries m) in
  (size es ≤ MAX_ENTRIES)%nat → entries (record_success id a m) = es.
Proof. intros es Hs. unfold record_success, record_entry, maybe_evict. cbn. by rewrite evict_small. Qed.

Lemma learn_run c id a m h m' h' :
  length id = 16%nat → sound m → learn c id a m h = (Ok m', h') →
  let e := add_success (default ActionSequence_default (entries m !! id)) a in
  m' = record_success id a m ∧ ∃ r, row_tells id r e ∧ screens (path_of c) h' = <[id := r]> (screens (path_of c) h).
Proof.
  intros Hid Hm Hrun e. unfold learn in Hrun. rewrite record_success_peek in Hrun by done. fold e in Hrun.
  apply bind_ok_inv in Hrun as (u & h1 & Hp & [= <- <-]). split; [done|]. unfold persist_screen in Hp.
  destruct (successes_to (successes e)) as [ss|why] eqn:Es; [|done].
  destruct (failures_to (failures e)) as [fs|why] eqn:Ef; [|done].
  destruct u. apply (on_db_ok (execute c REPLACE_SCREEN [id; ss; fs])), replace_row in Hp.
  exists (ss, fs). split; [|done]. split_and!; [done| |by apply successes_back|by apply failures_back].
  unfold attempt_count, e. cbn. rewrite length_app. cbn. lia.
Qed.

Lemma learned_size l es : (size es ≤ size (learned l es))%nat.
Proof.
  revert es. induction l as [|[id a] l IH]; intros es; [done|]. cbn [learned fold_left fst snd].
  etrans; [|apply IH]. apply size_insert_ge.
Qed.

Lemma learn_all_run c l m h m' h' :
  Forall (λ p, length p.1 = 16%nat) l → sound m → (size (learned l (entries m)) ≤ MAX_ENTRIES)%nat →
  learn_all c l m h = (Ok m', h') → tells (screens (path_of c) h) (entries m) →
  entries m' = learned l (entries m) ∧ tells (screens (path_of c) h') (entries m').
Proof.
  intros Hl. revert m h. induction Hl as [|[id a] l Hid _ IH]; intros m h Hm Hcap Hrun Ht.
  { injection Hrun as <- <-. done. }
  apply bind_ok_inv in Hrun as (m1 & h1 & (-> & r & Hr & E)%learn_run & Hrun); [|done..].
  change (learned ((id, a) :: l) (entries m))
    with (learned l (<[id := add_success (default ActionSequence_default (entries m !! id)) a]> (entries m))) in *.
  assert (entries (record_success id a m) = <[id := add_success (default ActionSequence_default (entries m !! id)) a]> (entries m))
    as He by (apply record_success_entries; etrans; [apply learned_size|exact Hcap]).
  rewrite <-He in *. apply (IH (record_success id a m) h1); [by apply record_success_sound|done|done|].
  rewrite E, He. by apply tells_insert.
Qed.

(** C22: the memory survives a restart.  From a database that tells some entries - an empty
    one, or what this very code left - [open] gives an LRU cache of them, of which the last
    1024 rows stay in memory.  Whatever successes are recorded and persisted from then on,
    as long as there are at most 1024 screens the memory holds what it was opened with and
    what was learned, and a daemon that opens the file again starts with the same entries. *)
Theorem memory_survives (p : str) (h h1 h2 : H) (es : gmap ScreenId ActionSequence) (c : Conn H)
    (m m' : Memory) (l : list (ScreenId * Action))
    (Htells : tells (screens p h) es) (Hopen : open_memory p h = (Ok (c, m), h1))
    (Hids : Forall (λ p, length p.1 = 16%nat) l) (Hlearn : learn_all c l m h1 = (Ok m', h2)) :
  (∃ k, NoDup k.*1 ∧ list_to_map k = es ∧ refines m (mkLru (lastn MAX_ENTRIES k) 0 0)) ∧
  ((size (learned l es) ≤ MAX_ENTRIES)%nat →
   entries m = es ∧ entries m' = learned l es ∧
   ∀ c' m'' h3, open_memory p h2 = (Ok (c', m''), h3) → entries m'' = learned l es).
Proof.
  apply open_memory_run with (es := es) in Hopen as (Hc & Hs & k & Hnd & Hk & Hm); [|done].
  split; [by exists k|]. intros Hcap.
  assert (∀ es k m, NoDup k.*1 → list_to_map k = es → refines m (mkLru (lastn MAX_ENTRIES k) 0 0) →
    (size es ≤ MAX_ENTRIES)%nat → entries m = es) as Hall.
  { clear. intros es k m Hnd <- Hm Hs. rewrite (ref_entries _ _ Hm). cbn [recent]. rewrite lastn_all; [done|].
    by rewrite <-size_uses. }
  assert (entries m = es) as He by (eapply Hall; [done..|]; etrans; [apply learned_size|exact Hcap]).
  rewrite <-He in *. apply learn_all_run in Hlearn as [Hm' Ht]; [|done|by eexists|done|by rewrite Hc, Hs].
  split_and!; [done..|]. rewrite Hc, Hm' in Ht. intros c' m'' h3 Ho.
  apply open_memory_run with (es := learned l (entries m)) in Ho as (_ & _ & k' & Hnd' & Hk' & Hr); [|done].
  by eapply Hall.
Qed.
End Survives.

(** ** A database of one table *)

#[export] Instance one_table : Sqlite (gmap bytes (bytes * bytes)) := {
  Conn := str; Row := bytes * (bytes * bytes); SqlError := string;
  ToSqlConversionFailure := id;
  connection_open p t := (inl p, t);
  execute_batch _ _ t := (inl tt, t);
  query _ _ t := (inl (map_to_list t), t);
  row_get i r := inl match i with O => r.1 | 1%nat => r.2.1 | _ => r.2.2 end;
  execute _ _ values t :=
    match values with [k; s; f] => (inl tt, <[k := (s, f)]> t) | _ => (inr "parameters"%string, t) end }.

#[export] Instance one_table_lawful : LawfulSqlite (gmap bytes (bytes * bytes)).
Proof.
  refine {| path_of c := c; screens _ t := t |}; cbn.
  - by intros p h c h' [= <- <-].
  - by intros c h h' [= <-].
  - intros c h rows h' [= <- <-]. split; [done|]. exists (map_to_list h). split; [done|].
    apply Forall_Forall2_diag, Forall_true. by intros [k [s f]].
  - by intros c k s f h h' [= <-].
Defined.

(** Taps, three bytes each; no failures. *)
Fixpoint taps_to (l : list Action) : bytes + string :=
  match l with
  | [] => inl []
  | Act_Tap x y d :: l => match taps_to l with inl b => inl (x :: y :: d :: b) | inr e => inr e end
  | _ => inr "not a tap"%string
  end.
Fixpoint taps_from (b : bytes) : option (list Action) :=
  match b with
  | [] => Some []
  | x :: y :: d :: b => cons (Act_Tap x y d) <$> taps_from b
  | _ => None
  end.
Definition none_to (l : list (Action * string)) : bytes + string :=
  match l with [] => inl [] | _ => inr "a failure"%string end.
Definition none_from (b : bytes) : option (list (Action * string)) := Some [].

#[export] Instance taps_postcard : Postcard := {
  successes_to := taps_to; successes_from := taps_from; failures_to := none_to; failures_from := none_from }.

Lemma taps_back l b : taps_to l = inl b → taps_from b = Some l.
Proof.
  revert b. induction l as [|a l IH]; intros b; [by intros [= <-]|]. destruct a; try done. cbn.
  destruct (taps_to l) as [b'|]; [|done]. intros [= <-]. cbn. by rewrite (IH b').
Qed.
Lemma none_back l b : none_to l = inl b → none_from b = Some l.
Proof. by destruct l. Qed.
#[export] Instance taps_lawful : LawfulPostcard.
Proof. split; [exact taps_back|exact none_back]. Qed.

Definition tapped : ScreenId := replicate 16 7.
Definition scratch : Conn (gmap bytes (bytes * bytes)) := [1].

Lemma memory_survives_witness :
  let t0 : gmap bytes (bytes * bytes) := ∅ in
  let opened := open_memory [1] t0 in
  let run := learn_all scratch [(tapped, Act_Tap 1 2 3); (tapped, Act_Tap 4 5 6)] Memory_new t0 in
  let again := open_memory [1] run.2 in
  ∃ m'', again.1 = Ok (scratch, m'') ∧ peek tapped m'' = Some (mkSequence [Act_Tap 1 2 3; Act_Tap 4 5 6] []).
Proof.
  intros t0 opened run again.
  assert (∃ m'', again.1 = Ok (scratch, m'')) as [m'' Em] by (vm_compute; by eexists). exists m''. split; [done|].
  assert (∃ m', run.1 = Ok m') as [m' Er] by (vm_compute; by eexists).
  assert (tells (screens [1] t0) ∅) as Ht.
  { intros id. unfold t0. cbn. by rewrite !lookup_empty. }
  assert (opened = (Ok (scratch, Memory_new), t0)) as Eo by (vm_compute; reflexivity).
  assert (run = (Ok m', run.2)) as E1 by (rewrite <-Er; apply surjective_pairing).
  assert (again = (Ok (scratch, m''), again.2)) as E2 by (rewrite <-Em; apply surjective_pairing).
  destruct (memory_survives [1] t0 t0 run.2 ∅ scratch
    Memory_new m' [(tapped, Act_Tap 1 2 3); (tapped, Act_Tap 4 5 6)] Ht Eo ltac:(repeat constructor) E1) as [_ Hs].
  destruct Hs as (_ & _ & Hs); [apply (bool_decide_unpack _); vm_compute; exact I|].
  unfold peek. rewrite (Hs _ _ _ E2). vm_compute. reflexivity.
Defined.
