(* ===== verification/Threads.v ===== *)
(** * Threads over a shared state

    A thread is a program of atomic accesses: to the state it shares with the other threads,
    and to its own.  What is read and written under a lock is one access.  [alone] runs a
    thread by itself; [pool_run] runs any number of them, an access at a time, in an
    arbitrary order.  [safe] is a rely-guarantee logic for one thread, and [pool_safe] its
    soundness: what it shows holds among whatever other threads there are. *)

From S2P Require Import Prelude.

Section Threads.
Context {D S E : Type}.

Inductive prog (A : Type) : Type :=
  | Ret (a : A)
  | Shared {X : Type} (c : cmd D E X) (k : X → prog A)
  | Own {X : Type} (c : cmd S E X) (k : X → prog A).
Arguments Ret {A}.
Arguments Shared {A X}.
Arguments Own {A X}.

Fixpoint then_prog {A B} (k : A → prog B) (p : prog A) : prog B :=
  match p with
  | Ret a => k a
  | Shared c k' => Shared c (λ x, then_prog k (k' x))
  | Own c k' => Own c (λ x, then_prog k (k' x))
  end.
#[export] Instance prog_ret : MRet prog := λ A a, Ret a.
#[export] Instance prog_bind : MBind prog := λ A B k p, then_prog k p.

(** One access. *)
Definition atomically {A} (c : cmd D E A) : prog A := Shared c Ret.
Definition own {A} (c : cmd S E A) : prog A := Own c Ret.

(** ** A thread by itself *)

Fixpoint alone {A} (p : prog A) : cmd (D * S) E A :=
  match p with
  | Ret a => mret a
  | Shared c k => λ ds,
      match c ds.1 with
      | (Ok x, d) => alone (k x) (d, ds.2)
      | (Err e, d) => (Err e, (d, ds.2))
      | (Panicked, d) => (Panicked, (d, ds.2))
      end
  | Own c k => λ ds,
      match c ds.2 with
      | (Ok x, s) => alone (k x) (ds.1, s)
      | (Err e, s) => (Err e, (ds.1, s))
      | (Panicked, s) => (Panicked, (ds.1, s))
      end
  end.

Lemma alone_bind {A B} (p : prog A) (k : A → prog B) ds :
  alone (p ≫= k) ds = (alone p ≫= λ a, alone (k a)) ds.
Proof.
  unfold mbind, cmd_bind, prog_bind. revert ds.
  induction p as [a|X c k' IH|X c k' IH]; intros ds; cbn [then_prog alone]; [done|..].
  - destruct (c ds.1) as [[x|e|] d]; [apply IH|done..].
  - destruct (c ds.2) as [[x|e|] s]; [apply IH|done..].
Qed.

Lemma alone_ok {A B} (p : prog A) (k : A → prog B) ds a ds' :
  alone p ds = (Ok a, ds') → alone (p ≫= k) ds = alone (k a) ds'.
Proof. intros E1. by rewrite alone_bind, (bind_ok _ _ _ _ _ E1). Qed.

Lemma alone_err {A B} (p : prog A) (k : A → prog B) ds e ds' :
  alone p ds = (Err e, ds') → alone (p ≫= k) ds = (Err e, ds').
Proof. intros E1. by rewrite alone_bind, (bind_err _ _ _ _ _ E1). Qed.

Lemma alone_ok_inv {A B} (p : prog A) (k : A → prog B) ds b ds'' :
  alone (p ≫= k) ds = (Ok b, ds'') → ∃ a ds', alone p ds = (Ok a, ds') ∧ alone (k a) ds' = (Ok b, ds'').
Proof. rewrite alone_bind. apply bind_ok_inv. Qed.

Lemma alone_atomically {A} (c : cmd D E A) d s : alone (atomically c) (d, s) = ((c d).1, ((c d).2, s)).
Proof. cbn. by destruct (c d) as [[x|e|] d']. Qed.

(** ** Threads together *)

(** A thread that started on [began] has [own_state] now; it is done when what is left is
    [Ok (Ret tt)], and failed when it is an error. *)
Record Thread : Type := mkThread { began : S; left : outcome E (prog unit); own_state : S }.

(** A thread that unwinds ends the process. *)
Record Pool : Type := mkPool { shared : D; threads : list Thread; running : bool }.

(** An access of a thread; the flag says whether the process lives on. *)
Definition thread_turn (d : D) (t : Thread) : D * Thread * bool :=
  match left t with
  | Ok (Shared c k) =>
      match c d with
      | (Ok x, d) => (d, mkThread (began t) (Ok (k x)) (own_state t), true)
      | (Err e, d) => (d, mkThread (began t) (Err e) (own_state t), true)
      | (Panicked, d) => (d, mkThread (began t) Panicked (own_state t), false)
      end
  | Ok (Own c k) =>
      match c (own_state t) with
      | (Ok x, s) => (d, mkThread (began t) (Ok (k x)) s, true)
      | (Err e, s) => (d, mkThread (began t) (Err e) s, true)
      | (Panicked, s) => (d, mkThread (began t) Panicked s, false)
      end
  | _ => (d, t, true)
  end.

Definition turn (i : nat) (w : Pool) : Pool :=
  match threads w !! i with
  | Some t => let '(d, t, lives) := thread_turn (shared w) t in mkPool d (<[i := t]> (threads w)) lives
  | None => w
  end.

(** What the world decides: who comes, who cannot, and whose turn it is. *)
Inductive Event : Type := Comes (s : S) | Comes_not | Turn (i : nat).

Definition pool_step (body : prog unit) (w : Pool) (ev : Event) : Pool :=
  if running w then
    match ev with
    | Comes s => mkPool (shared w) (threads w ++ [mkThread s (Ok body) s]) true
    | Comes_not => w
    | Turn i => turn i w
    end
  else w.

Definition pool_run (body : prog unit) (evs : list Event) (w : Pool) : Pool := fold_left (pool_step body) evs w.

(** What a thread begins with and its turns keep holds of every thread. *)
Lemma pool_threads (P : Thread → Prop) (body : prog unit) evs :
  (∀ s, P (mkThread s (Ok body) s)) → (∀ d t, P t → P (thread_turn d t).1.2) →
  ∀ w, Forall P (threads w) → Forall P (threads (pool_run body evs w)).
Proof.
  intros Hbody Hturn. unfold pool_run. induction evs as [|ev evs IH]; intros w Hw; [done|]. cbn [fold_left].
  apply IH. unfold pool_step. destruct (running w); [|done]. destruct ev as [s| |i]; [|done|].
  - apply Forall_app. split; [done|]. by repeat constructor.
  - unfold turn. destruct (threads w !! i) as [t|] eqn:Et; [|done]. specialize (Hturn (shared w) t).
    destruct (thread_turn (shared w) t) as [[d t'] lives]. cbn in *.
    apply Forall_insert; [done|]. apply Hturn. by eapply Forall_lookup_1 in Hw.
Qed.

(** ** Rely and guarantee

    [inv n d] ties the shared state to a ghost [n], [knows g n] is what a thread may rely on,
    whose own ghost is [g], and [moves g n g' n'] is what it may do to both. *)

Section Logic.
Context {G N : Type} (inv : N → D → Prop) (knows : G → N → Prop) (moves : G → N → G → N → Prop).
Context (fails : E → Prop).

Fixpoint safe {A} (p : prog A) (Q : A → G → S → Prop) (g : G) (s : S) : Prop :=
  match p with
  | Ret a => Q a g s
  | Shared c k => ∀ d n, inv n d → knows g n →
      match c d with
      | (Ok x, d') => ∃ g' n', inv n' d' ∧ moves g n g' n' ∧ safe (k x) Q g' s
      | (Err e, d') => fails e ∧ ∃ n', inv n' d' ∧ moves g n g n'
      | (Panicked, _) => True
      end
  | Own c k =>
      match c s with
      | (Ok x, s') => safe (k x) Q g s'
      | (Err e, _) => fails e
      | (Panicked, _) => True
      end
  end.

Lemma safe_mono {A} (p : prog A) (Q Q' : A → G → S → Prop) g s :
  (∀ a g s, Q a g s → Q' a g s) → safe p Q g s → safe p Q' g s.
Proof.
  intros HQ. revert g s. induction p as [a|X c k IH|X c k IH]; intros g s; cbn [safe]; [apply HQ|..].
  - intros Hp d n Hi Hk. specialize (Hp d n Hi Hk). destruct (c d) as [[x|e|] d']; [|done..].
    destruct Hp as (g' & n' & Hi' & Hm & Hp). exists g', n'. split_and!; [done..|by apply IH].
  - destruct (c s) as [[x|e|] s']; [apply IH|done..].
Qed.

Lemma safe_bind {A B} (p : prog A) (k : A → prog B) (Q : B → G → S → Prop) g s :
  safe p (λ a, safe (k a) Q) g s → safe (p ≫= k) Q g s.
Proof.
  unfold mbind, prog_bind. revert g s.
  induction p as [a|X c k' IH|X c k' IH]; intros g s; cbn [safe then_prog]; [done|..].
  - intros Hp d n Hi Hk. specialize (Hp d n Hi Hk). destruct (c d) as [[x|e|] d']; [|done..].
    destruct Hp as (g' & n' & Hi' & Hm & Hp). exists g', n'. split_and!; [done..|by apply IH].
  - destruct (c s) as [[x|e|] s']; [apply IH|done..].
Qed.

(** The usual way to use the two. *)
Lemma safe_then {A B} (p : prog A) (k : A → prog B) (P : A → G → S → Prop) (Q : B → G → S → Prop) g s :
  safe p P g s → (∀ a g s, P a g s → safe (k a) Q g s) → safe (p ≫= k) Q g s.
Proof. intros Hp Hk. apply safe_bind. by eapply safe_mono. Qed.

(** *** A pool of safe threads *)

Context (whole : list G → N → Prop).
Context (moves_knows : ∀ g n g' n', knows g n → moves g n g' n' → knows g' n').
Context (moves_others : ∀ g n g' n' h, moves g n g' n' → knows h n → knows h n').
Context (moves_whole : ∀ gs i g n g' n', whole gs n → gs !! i = Some g → moves g n g' n' → whole (<[i := g']> gs) n').

(** [Q] of what a thread began on, and of its end. *)
Definition thread_safe (Q : S → G → S → Prop) (t : Thread) (g : G) : Prop :=
  match left t with
  | Ok p => safe p (λ _, Q (began t)) g (own_state t)
  | Err e => fails e
  | Panicked => True
  end.

Definition pool_ok (Q : S → G → S → Prop) (w : Pool) : Prop :=
  ∃ gs n, (running w = true → inv n (shared w)) ∧ whole gs n ∧ Forall (λ g, knows g n) gs ∧
    Forall2 (thread_safe Q) (threads w) gs.

Lemma Forall2_insert_l {A B} (R : A → B → Prop) l k i x y :
  Forall2 R l k → k !! i = Some y → R x y → Forall2 R (<[i := x]> l) k.
Proof. intros HR Hy Hx. rewrite <-(list_insert_id k i y Hy). by apply Forall2_insert. Qed.

Lemma turn_ok (Q : S → G → S → Prop) i (w : Pool) :
  running w = true → pool_ok Q w → pool_ok Q (turn i w).
Proof.
  intros Hrun (gs & n & Hi & Hw & Hk & Hts). pose proof (Hi Hrun) as Hin. unfold turn.
  destruct (threads w !! i) as [t|] eqn:Et; [|by exists gs, n].
  destruct (Forall2_lookup_l _ _ _ _ _ Hts Et) as (g & Eg & Ht).
  pose proof (Forall_lookup_1 _ _ _ _ Hk Eg) as Hg. pose proof Ht as Hsame. unfold thread_safe in Ht. unfold thread_turn.
  assert (∀ d' t' g' n', inv n' d' → moves g n g' n' → thread_safe Q t' g' →
    pool_ok Q (mkPool d' (<[i := t']> (threads w)) true)) as Hgo.
  { intros d' t' g' n' Hi' Hm Ht'. exists (<[i := g']> gs), n'. split_and!; cbn; [done| | |by apply Forall2_insert].
    - exact (moves_whole _ _ _ _ _ _ Hw Eg Hm).
    - apply Forall_insert; [|exact (moves_knows _ _ _ _ Hg Hm)].
      apply (Forall_impl _ _ _ Hk). intros h. exact (moves_others _ _ _ _ h Hm). }
  assert (∀ d' t' lives, (lives = true → d' = shared w) → thread_safe Q t' g →
    pool_ok Q (mkPool d' (<[i := t']> (threads w)) lives)) as Hstay.
  { intros d' t' lives Hd Ht'. exists gs, n. split_and!; [|done|done|by eapply Forall2_insert_l]. cbn.
    intros Hl. by rewrite (Hd Hl). }
  destruct (left t) as [[[]|X c k|X c k]|e|] eqn:El; try (by apply Hstay); cbn [safe] in Ht.
  - specialize (Ht (shared w) n Hin Hg). destruct (c (shared w)) as [[x|e|] d'].
    + destruct Ht as (g' & n' & Hi' & Hm & Hp). by eapply Hgo.
    + destruct Ht as (He & n' & Hi' & Hm). by eapply Hgo.
    + by apply Hstay.
  - destruct (c (own_state t)) as [[x|e|] s']; by apply Hstay.
Qed.

(** A thread that begins when the ghost is [n] begins with [fresh n]. *)
Lemma pool_safe (body : prog unit) (Q : S → G → S → Prop) (fresh : N → G) evs :
  (∀ s n, safe body (λ _, Q s) (fresh n) s) → (∀ n, knows (fresh n) n) →
  (∀ gs n, whole gs n → whole (gs ++ [fresh n]) n) →
  ∀ w, pool_ok Q w → pool_ok Q (pool_run body evs w).
Proof.
  intros Hbody Hfresh Hwhole. unfold pool_run. induction evs as [|ev evs IH]; intros w Hw; [done|]. cbn [fold_left].
  apply IH. unfold pool_step. destruct (running w) eqn:Hrun; [|done]. destruct ev as [s| |i]; [|done|by apply turn_ok].
  destruct Hw as (gs & n & Hi & Hw & Hk & Hts). exists (gs ++ [fresh n]), n. split_and!; cbn.
  - intros _. by apply Hi.
  - by apply Hwhole.
  - apply Forall_app. split; [done|]. by constructor.
  - apply Forall2_app; [done|]. constructor; [|constructor]. apply Hbody.
Qed.
End Logic.
End Threads.
Arguments Ret {D S E A}.
Arguments Shared {D S E A X}.
Arguments Own {D S E A X}.
