(* ===== verification/AdkText.v ===== *)
(** * What the daemon reads out of texts ([ai-device-kernel/src/bin/adk.rs])

    The daemon asks the device with [dumpsys] and [screencap] and looks for what it needs
    in their output: the focused app, the size of a PNG, the lines of a screen.  Its
    predicates are checks of such a text.  A [str] is its bytes. *)

From S2P Require Import Prelude Words Utf8 Utf8Lossy Format Float32 ErrorFrame Kvs KernelTypes PredicateEngine UiRepr.
Local Open Scope Z_scope.

(** ** What the code uses of [str] *)

Definition LF : Z := 10.
Definition CR : Z := 13.

(** A line that ended with a line feed loses a carriage return before it. *)
Definition drop_cr (line : str) : str :=
  match last line with
  | Some b => if b =? CR then removelast line else line
  | None => line
  end.

(** [str::lines]; nothing follows the last line feed. *)
Fixpoint lines_from (line s : str) : list str :=
  match s with
  | [] => if is_nil line then [] else [line]
  | b :: s => if b =? LF then drop_cr line :: lines_from [] s else lines_from (line ++ [b]) s
  end.
Definition lines (s : str) : list str := lines_from [] s.

(** [str::split_whitespace] *)
Fixpoint words_from (word cs : list Z) : list str :=
  match cs with
  | [] => if is_nil word then [] else [encode word]
  | c :: cs =>
      if is_whitespace c
      then (if is_nil word then words_from [] cs else encode word :: words_from [] cs)
      else words_from (word ++ [c]) cs
  end.
Definition split_whitespace (s : str) : list str := words_from [] (default [] (chars s)).

(** ** The focused app *)

Definition FOCUSED_APP : str := ascii_bytes "mFocusedApp=".

Definition focused_in_line (line : str) : option str :=
  match strip_prefix FOCUSED_APP (trim_start line) with
  | Some rest => split_whitespace rest !! 2%nat
  | None => None
  end.

Definition first_some {A B} (f : A → option B) : list A → option B :=
  fix go l :=
    match l with
    | [] => None
    | a :: l => match f a with Some b => Some b | None => go l end
    end.

Definition parse_focused_app (dumpsys_output : str) : option str :=
  first_some focused_in_line (lines dumpsys_output).

(** ** PNG *)

Definition PNG_MAGIC : bytes := [0x89; 0x50; 0x4E; 0x47; 0x0D; 0x0A; 0x1A; 0x0A].
Definition IHDR : bytes := [0x49; 0x48; 0x44; 0x52].

(** [u32::from_be_bytes] of four bytes at [n]. *)
Definition be32_at (n : nat) (b : bytes) : Z := be_val (take 4 (drop n b)).
Definition u16_of (z : Z) : option Z := if z <? 2 ^ 16 then Some z else None.

Definition read_png_dimensions (b : bytes) : option (Z * Z) :=
  if (length b <? 24)%nat then None
  else if decide (take 8 b = PNG_MAGIC) then
    if be32_at 8 b =? 13 then
      if decide (take 4 (drop 12 b) = IHDR) then
        w ← u16_of (be32_at 16 b); h ← u16_of (be32_at 20 b); Some (w, h)
      else None
    else None
  else None.

(** ** Predicates *)

Definition check_predicate (p : Predicate) (focused_app : option str) (dumpsys_text : str) : bool :=
  match p with
  | Activity component _ => bool_decide (focused_app = Some component)
  | TextAppears text _ _ => contains dumpsys_text text
  | SelectorMatches selector _ => contains dumpsys_text selector
  | SceneStable _ _ | A11yIdle _ _ | EventFires _ _ => true
  end.

Definition predicate_timeout_ms (p : Predicate) : Z :=
  match p with
  | Activity _ t | TextAppears _ _ t | SelectorMatches _ t | SceneStable _ t | A11yIdle _ t
  | EventFires _ t => t
  end.

(** ** A screen as HTML *)

Definition has (s : str) (what : string) : bool := contains s (ascii_bytes what).

Definition line_class (trimmed : str) : UiReprClass :=
  if has trimmed "Button" then Ui_Button
  else if has trimmed "EditText" then Ui_EditText
  else if has trimmed "ImageView" then Ui_ImageView
  else Ui_TextView.

Definition line_node (idx : nat) (trimmed : str) : UiReprNode :=
  let class := line_class trimmed in
  mkUiNode (Some (ascii_bytes ("n" +:+ pretty (Z.of_nat idx)))) class
    (Some (encode (take 64 (default [] (chars trimmed))))) None
    (has trimmed "clickable=true" || has trimmed "focusable=true"
     || match class with Ui_Button | Ui_EditText => true | _ => false end).

Fixpoint line_nodes (idx : nat) (nodes : list UiReprNode) (ls : list str) : list UiReprNode :=
  match ls with
  | [] => nodes
  | line :: ls =>
      let trimmed := trim line in
      if is_nil trimmed || is_some (strip_prefix (ascii_bytes "mCurrentFocus") trimmed)
      then line_nodes (S idx) nodes ls
      else
        let nodes := nodes ++ [line_node idx trimmed] in
        if (64 <=? length nodes)%nat then nodes else line_nodes (S idx) nodes ls
  end.

Definition build_ui_repr_html (focused_app : option str) (dumpsys_text : str) : UiReprHtml :=
  mkUiHtml (default [] focused_app) None (line_nodes 0 [] (take 64 (lines dumpsys_text))) false.

(** ** Lines and words *)

Lemma lines_from_line line s acc :
  LF ∉ line → lines_from acc (line ++ LF :: s) = drop_cr (acc ++ line) :: lines_from [] s.
Proof.
  revert acc. induction line as [|b line IH]; intros acc Hl; cbn [app lines_from].
  - by rewrite Z.eqb_refl, app_nil_r.
  - apply not_elem_of_cons in Hl as [Hb Hl]. rewrite (proj2 (Z.eqb_neq _ _)) by congruence.
    rewrite IH by done. by rewrite <-(assoc_L (++)).
Qed.

Lemma lines_line line s : LF ∉ line → lines (line ++ LF :: s) = drop_cr line :: lines s.
Proof. apply (lines_from_line line s []). Qed.

(** A word ends at a whitespace. *)
Lemma words_from_word w c cs acc :
  Forall (λ x, is_whitespace x = false) w → is_whitespace c = true → acc ++ w ≠ [] →
  words_from acc (w ++ c :: cs) = encode (acc ++ w) :: words_from [] cs.
Proof.
  intros Hw Hc. revert acc. induction Hw as [|x w Hx _ IH]; intros acc Hne; cbn [app words_from].
  - rewrite Hc, app_nil_r in *. by destruct acc.
  - rewrite Hx, IH; rewrite <-(assoc_L (++)); [done|by destruct acc].
Qed.

(** A word of characters. *)
Definition word (w : list Z) : Prop := w ≠ [] ∧ Forall is_char w ∧ Forall (λ x, is_whitespace x = false) w.

Lemma split_third u v w cs :
  word u → word v → word w → Forall is_char cs →
  split_whitespace (encode (u ++ SPACE :: v ++ SPACE :: w ++ SPACE :: cs)) !! 2%nat = Some (encode w).
Proof.
  intros (Hu & Hcu & Hwu) (Hv & Hcv & Hwv) (Hw & Hcw & Hww) Hcs.
  assert (is_char SPACE) as Hsp by (apply (bool_decide_unpack _); vm_compute; exact I).
  unfold split_whitespace. rewrite chars_encode
    by (repeat (apply Forall_app; split; [done|]; apply Forall_cons; split; [done|]); done).
  cbn [default from_option id]. rewrite (words_from_word u SPACE _ []) by done.
  rewrite (words_from_word v SPACE _ []) by done. rewrite (words_from_word w SPACE _ []) by done. done.
Qed.

(** What [dumpsys] prints for the focused app, behind lines that do not say it, is found. *)
Lemma parse_focused_app_finds pre u v w cs s :
  Forall (λ l, (LF ∉ l) ∧ focused_in_line (drop_cr l) = None) pre →
  word u → word v → word w → Forall is_char cs →
  let line := FOCUSED_APP ++ encode (u ++ SPACE :: v ++ SPACE :: w ++ SPACE :: cs) in
  LF ∉ line → last line ≠ Some CR →
  parse_focused_app (concat (((λ l, l ++ [LF]) <$> pre)) ++ line ++ LF :: s) = Some (encode w).
Proof.
  intros Hpre Hu Hv Hw Hcs line Hl Hcr. unfold parse_focused_app.
  induction Hpre as [|l pre [Hlf Hno] _ IH]; cbn [fmap list_fmap concat app].
  - rewrite lines_line by done. cbn [first_some]. assert (drop_cr line = line) as ->.
    { unfold drop_cr. destruct (last line) as [b|]; [|done]. destruct (Z.eqb_spec b CR); [congruence|done]. }
    assert (focused_in_line line = Some (encode w)) as ->; [|done].
    unfold focused_in_line. rewrite trim_start_clean.
    + unfold line. rewrite strip_prefix_app. by apply split_third.
    + apply is_str_app; [by apply ascii_is_str; apply (bool_decide_unpack _); vm_compute|].
      eexists. split; [|done].
      assert (is_char SPACE) as Hsp by (apply (bool_decide_unpack _); vm_compute; exact I).
      destruct Hu as (_ & ? & _), Hv as (_ & ? & _), Hw as (_ & ? & _).
      repeat (apply Forall_app; split; [done|]; apply Forall_cons; split; [done|]); done.
    + apply (starts_clean_cons 109 (drop 1 FOCUSED_APP ++ _)); apply (bool_decide_unpack _); vm_compute; exact I.
  - rewrite <-!(assoc_L (++)). cbn [app]. rewrite lines_line by done. cbn [first_some]. by rewrite Hno.
Qed.
