(* ===== verification/AdkDaemon.v ===== *)
(** * The daemon ([ai-device-kernel/src/bin/adk.rs])

    A connection to the daemon is a thread ([Threads]): it reads a request, has the device
    perform it - through the bridge to a scrcpy server, or by asking [adb] - and writes
    its replies. What is outside is an interface: [Host] runs processes, tells the time
    and sleeps, [Sqlite] keeps the database; the TCP stream to the scrcpy server becomes
    the sink of a session. Waits that the clock ends take fuel. Diagnostics on stderr are
    left out. *)

From stdpp Require Import gmap.
From S2P Require Import Prelude Words Io Frame.
From S2P Require Import Errors Types Utf8 Utf8Lossy Format Float32 Message Transport Coalesce Sink Session.
From S2P Require Import Device KernelTypes Bounded StreamEngine Memory MemoryStore StateModel SessionState KernelFrame Bridge UiRepr AdkText Threads.
Local Open Scope Z_scope.

(** ** Outside *)

(** [Command::output]: no process, or its status and what it printed. *)
Inductive AdbRun : Set :=
  | Spawn_failed (e : str)
  | Exited (success : bool) (stdout stderr : bytes).

Class Host (H : Type) := {
  run_adb : list str → H → AdbRun * H;
  instant_now : H → Z * H;                                    (* nanoseconds *)
  unix_ms : H → Z * H;                                        (* 0 before 1970 *)
  thread_sleep : Z → H → H;                                   (* milliseconds *)
}.

(** A [TcpStream]: [read_exact], [write_all] and [flush]. *)
Class Socket (S : Type) `{!Read S, !Write S} := sock_flush : cmd S IoError unit.

(** How a connection ends early: with an I/O error, or not within the turns. *)
Inductive Ended : Set := Ended_Io (e : IoError) | Ended_OutOfTurns.

(** ** Flags *)

Record Flags : Set := mkFlags
  { port : Z; device : option str; no_adb : bool; state_db : option str;
    scrcpy_host : str; scrcpy_port : Z }.

(** [str::parse::<u16>()] *)
Definition parse_u16 : str → option Z := parse_unsigned 16.

Definition default_flags (adb_serial : option str) : Flags :=
  mkFlags 9008 adb_serial false None (ascii_bytes "127.0.0.1") 27183.

Definition set_port (n : Z) (f : Flags) : Flags :=
  mkFlags n (device f) (no_adb f) (state_db f) (scrcpy_host f) (scrcpy_port f).
Definition set_device (d : str) (f : Flags) : Flags :=
  mkFlags (port f) (Some d) (no_adb f) (state_db f) (scrcpy_host f) (scrcpy_port f).
Definition set_no_adb (f : Flags) : Flags :=
  mkFlags (port f) (device f) true (state_db f) (scrcpy_host f) (scrcpy_port f).
Definition set_state_db (p : str) (f : Flags) : Flags :=
  mkFlags (port f) (device f) (no_adb f) (Some p) (scrcpy_host f) (scrcpy_port f).
Definition set_scrcpy_host (h : str) (f : Flags) : Flags :=
  mkFlags (port f) (device f) (no_adb f) (state_db f) h (scrcpy_port f).
Definition set_scrcpy_port (n : Z) (f : Flags) : Flags :=
  mkFlags (port f) (device f) (no_adb f) (state_db f) (scrcpy_host f) n.

Definition EXIT_USAGE : Z := 2.

(** The arguments behind the program's name.  [Err] is [process::exit]. *)
Fixpoint parse_args (f : Flags) (args : list str) : outcome Z Flags :=
  match args with
  | [] => Ok f
  | a :: args =>
      if decide (a = ascii_bytes "--no-adb") then parse_args (set_no_adb f) args
      else
        match args with
        | [] => Err EXIT_USAGE
        | v :: args =>
            if decide (a = ascii_bytes "--port") then
              match parse_u16 v with Some n => parse_args (set_port n f) args | None => Panicked end
            else if decide (a = ascii_bytes "--device") then parse_args (set_device v f) args
            else if decide (a = ascii_bytes "--state-db") then parse_args (set_state_db v f) args
            else if decide (a = ascii_bytes "--scrcpy-host") then parse_args (set_scrcpy_host v f) args
            else if decide (a = ascii_bytes "--scrcpy-port") then
              match parse_u16 v with Some n => parse_args (set_scrcpy_port n f) args | None => Panicked end
            else Err EXIT_USAGE
        end
  end.

Definition Flags_parse (adb_serial : option str) (argv : list str) : outcome Z Flags :=
  parse_args (default_flags adb_serial) (drop 1 argv).

(** ** Constants *)

Definition DUMPSYS : str := ascii_bytes "dumpsys window | grep -E 'mCurrentFocus|mFocusedApp'".
Definition WAIT_CAP : Z := 5000.
Definition WAIT_PAUSE : Z := 100.
Definition WAIT_BEFORE_CAP : Z := 3000.
Definition WAIT_BEFORE_PAUSE : Z := 80.
Definition OBSERVE_PAUSE : Z := 150.

(** [0.3_f32] and [0.5_f32]; [0.1_f32] *)
Definition TAP_CHANGE : f32 := SpecFloat.S754_finite false 10066330 (-25).
Definition SWIPE_CHANGE : f32 := SpecFloat.S754_finite false 8388608 (-24).
Definition WAIT_CHANGE : f32 := SpecFloat.S754_finite false 13421773 (-27).

(** A text as the [string] of its bytes. *)
Definition text_of (s : str) : string := foldr (λ b t, String (Ascii.ascii_of_N (Z.to_N b)) t) EmptyString s.

(** The session the daemon opens: a keyboard and a gamepad, coalescing for a millisecond. *)
Definition bridge_request : OpenRequest := mkOpenRequest true false true true 1000000 4096.

Definition uses_scrcpy_bridge (a : Action) : bool :=
  match a with
  | Act_Tap _ _ _ | Act_Swipe _ _ _ _ _ _ | Act_TypeText _ _ | Act_Key _ _ | Act_Launch _ _ _
  | Act_SetClipboard _ _ _ | Act_GamepadFrame _ _ | Act_InjectRaw _ _ => true
  | _ => false
  end.

Definition action_result_from_bridge (o : BridgeOutcome) : ActionResult :=
  mkActionResult (bo_id o) (bo_landed o) GroundTruth_default (wrap 32 (bo_elapsed o / NANOS_PER_MS))
    (if bo_landed o then None else Some (default KernelError (bo_code o))) (retryable o).

Definition scene_change (score : f32) : GroundTruth :=
  mkGroundTruth [] None None score [].

(** A result with [..Default::default()]: no code, not retryable. *)
Definition plain_result (id : ActionId) (landed : bool) (gt : GroundTruth) (elapsed : Z) : ActionResult :=
  mkActionResult id landed gt elapsed None false.

(** ** The daemon's state *)

Record SharedState (H W C : Type) : Type := mkShared
  { sh_state : StateModel; sh_stream : StreamEngine; sh_memory : Memory; sqlite : option C;
    sqlite_path : option str; raw_injector : option (ActionInjector W); started_ms : Z;
    obs_seq : Z;                                              (* the static [OBS_SEQ] *)
    outside : H }.
Arguments mkShared {H W C}.
Arguments sh_state {H W C}.
Arguments sh_stream {H W C}.
Arguments sh_memory {H W C}.
Arguments sqlite {H W C}.
Arguments sqlite_path {H W C}.
Arguments raw_injector {H W C}.
Arguments started_ms {H W C}.
Arguments obs_seq {H W C}.
Arguments outside {H W C}.

Section Daemon.
Context {H : Type} `{!Host H, !Sqlite H, pc : Postcard}.
Context {T W : Type} `{!Read T, !MessageSink W}.
Context (open_tcp : str → Z → H → (T + IoError) * H) (session_over : T → OpenRequest → W).
Context (took : ActionId → Z) (debug_char : Z → string) (blake3 : bytes → bytes).
Context (request_from : bytes → option RequestPayload) (postcard_error : bytes → string)
  (reply_bytes : ReplyPayload → bytes).
Context {S : Type} `{!Read S, !Write S, !Socket S}.
Abbreviation D := (SharedState H W (Conn H)).
Abbreviation P := (prog (D := D) (S := S) (E := Ended)).
Implicit Types d : D.

Definition set_outside (h : H) d : D :=
  mkShared (sh_state d) (sh_stream d) (sh_memory d) (sqlite d) (sqlite_path d) (raw_injector d)
    (started_ms d) (obs_seq d) h.
Definition set_memory (m : Memory) d : D :=
  mkShared (sh_state d) (sh_stream d) m (sqlite d) (sqlite_path d) (raw_injector d)
    (started_ms d) (obs_seq d) (outside d).
Definition set_state (s : StateModel) d : D :=
  mkShared s (sh_stream d) (sh_memory d) (sqlite d) (sqlite_path d) (raw_injector d)
    (started_ms d) (obs_seq d) (outside d).
Definition set_stream (s : StreamEngine) d : D :=
  mkShared (sh_state d) s (sh_memory d) (sqlite d) (sqlite_path d) (raw_injector d)
    (started_ms d) (obs_seq d) (outside d).
Definition set_injector (i : option (ActionInjector W)) d : D :=
  mkShared (sh_state d) (sh_stream d) (sh_memory d) (sqlite d) (sqlite_path d) i
    (started_ms d) (obs_seq d) (outside d).
Definition set_seq (n : Z) d : D :=
  mkShared (sh_state d) (sh_stream d) (sh_memory d) (sqlite d) (sqlite_path d) (raw_injector d)
    (started_ms d) n (outside d).

Definition on_outside {A} (f : H → A * H) : cmd D Ended A := λ d,
  let '(a, h) := f (outside d) in (Ok a, set_outside h d).

Definition SharedState_new (db : option str) (h : H) : D :=
  let '(started, h) := unix_ms h in
  let '(mem, conn, h) :=
    match db with
    | Some p => match open_memory p h with
                | (Ok (conn, m), h) => (m, Some conn, h)
                | (_, h) => (Memory_new, None, h)
                end
    | None => (Memory_new, None, h)
    end in
  mkShared StateModel_new StreamEngine_new mem conn db None started 0 h.

(** [OBS_SEQ.fetch_add(1) + 1] *)
Definition next_obs_seq : cmd D Ended Z := λ d,
  let n := wrap 64 (obs_seq d + 1) in (Ok n, set_seq n d).

(** One call of the outside. *)
Definition ask {A} (f : H → A * H) : P A := atomically (on_outside f).

Definition uptime_ms : P Z :=
  now ← ask unix_ms; started ← atomically (read started_ms); mret (Z.max 0 (now - started)).

(** [start.elapsed().as_millis()] *)
Definition elapsed_since (start : Z) : P Z :=
  now ← ask instant_now; mret (Z.max 0 (now - start) / NANOS_PER_MS).

Definition pause (ms : Z) : P unit := ask (λ h, (tt, thread_sleep ms h)).

(** The database is written when there is a connection and a path; a failure is only printed. *)
Definition memory_success (sid : ScreenId) (a : Action) : cmd D Ended unit := λ d,
  let m := Memory.record_success sid a (sh_memory d) in
  let h := match sqlite d, sqlite_path d, peek sid m with
           | Some conn, Some _, Some entry => (persist_screen conn sid entry (outside d)).2
           | _, _, _ => outside d
           end in
  (Ok tt, set_outside h (set_memory m d)).

(** ** [adb] *)

Definition adb_args (fl : Flags) (args : list str) : list str :=
  match device fl with Some dev => ascii_bytes "-s" :: dev :: args | None => args end.

Definition adb_shell (fl : Flags) (command : str) : P (str + str) :=
  if no_adb fl then mret (inl [])
  else
    r ← ask (run_adb (adb_args fl [ascii_bytes "shell"; command]));
    mret match r with
         | Spawn_failed e => inr (ascii_bytes "adb spawn failed: " ++ e)
         | Exited false _ stderr =>
             inr (ascii_bytes "adb shell " ++ command ++ ascii_bytes " failed: " ++ from_utf8_lossy stderr)
         | Exited true stdout _ => inl (Kvs.trim (from_utf8_lossy stdout))
         end.

Definition adb_screencap (fl : Flags) : P (bytes + str) :=
  if no_adb fl then mret (inl [])
  else
    r ← ask (run_adb (adb_args fl [ascii_bytes "exec-out"; ascii_bytes "screencap"; ascii_bytes "-p"]));
    mret match r with
         | Spawn_failed e => inr (ascii_bytes "adb screencap failed: " ++ e)
         | Exited false _ stderr => inr (ascii_bytes "adb screencap failed: " ++ from_utf8_lossy stderr)
         | Exited true stdout _ =>
             if (length stdout <? 8)%nat then inr (ascii_bytes "empty screencap") else inl stdout
         end.

(** [adb_shell(..).unwrap_or_default()], and the focused app in it. *)
Definition dumpsys (fl : Flags) : P (option str * str) :=
  r ← adb_shell fl DUMPSYS;
  let out := match r with inl out => out | inr _ => [] end in
  mret (parse_focused_app out, out).

(** ** The bridge *)

Definition connect_error (fl : Flags) (e : IoError) : string :=
  "connect scrcpy control socket " +:+ text_of (scrcpy_host fl) +:+ ":" +:+ pretty (scrcpy_port fl)
  +:+ " failed: " +:+ io_text e +:+ "; run adb forward tcp:" +:+ pretty (scrcpy_port fl)
  +:+ " localabstract:scrcpy and start scrcpy-server control=true".

(** [None] when there is an injector now, or why there is none. *)
Definition ensure_raw_injector (fl : Flags) : cmd D Ended (option string) :=
  g ← read raw_injector;
  match g with
  | Some _ => mret None
  | None =>
      if no_adb fl then mret (Some "raw UHID injection is disabled in --no-adb mode"%string)
      else
        c ← on_outside (open_tcp (scrcpy_host fl) (scrcpy_port fl));
        match c with
        | inr e => mret (Some (connect_error fl e))
        | inl stream =>
            match read_scrcpy_control_prefix stream with
            | (Panicked, _) => unwind
            | (Err e, _) => mret (Some ("read scrcpy control prefix failed: " +:+ io_text e))
            | (Ok _, stream) =>
                match injector_open (session_over stream bridge_request) bridge_request with
                | (Panicked, _) => unwind
                | (Err e, _) => mret (Some ("open UHID action bridge failed: " +:+ Error_display e))
                | (Ok _, i) => modify (set_injector (Some i));; mret None
                end
            end
        end
  end.

(** [guard.as_mut().expect(..).apply(action)]; [apply] returns no [Result]. *)
Definition injector_apply (a : Action) : cmd D Ended BridgeOutcome := λ d,
  match raw_injector d with
  | None => (Panicked, d)
  | Some i =>
      match apply_action took debug_char a i with
      | (Ok o, i) => (Ok o, set_injector (Some i) d)
      | (_, i) => (Panicked, set_injector (Some i) d)
      end
  end.

Definition execute_raw_bridge_action (fl : Flags) (a : Action) (id : ActionId) : cmd D Ended BridgeOutcome :=
  r ← ensure_raw_injector fl;
  match r with
  | None =>
      o ← injector_apply a;
      mret (mkBridgeOutcome id (bo_landed o) (bo_elapsed o) (bo_error o) (bo_code o))
  | Some reason =>
      mret (mkBridgeOutcome id false 0 (Some (code_as_str KernelError +:+ ": " +:+ reason)) (Some KernelError))
  end.

(** ** Actions *)

(** The loop of [Action::Wait], and that of [wait_before]. *)
Fixpoint poll_until (fuel : nat) (fl : Flags) (p : Predicate) (t0 cap ms : Z) : P bool :=
  match fuel with
  | O => atomically (raise Ended_OutOfTurns)
  | Datatypes.S fuel =>
      e ← elapsed_since t0;
      if e <? cap then
        r ← dumpsys fl;
        if check_predicate p r.1 r.2 then mret true
        else pause ms;; poll_until fuel fl p t0 cap ms
      else mret false
  end.

Definition wait_until (fuel : nat) (fl : Flags) (p : Predicate) (cap ms : Z) : P bool :=
  let cap := Z.min (predicate_timeout_ms p) cap in
  t0 ← ask instant_now;
  poll_until fuel fl p t0 cap ms.

(** [match adb_shell(flags, &cmd) { Ok(_) => (true, ..), Err(e) => (false, ..) }] *)
Definition by_shell (fl : Flags) (command : str) (gt : GroundTruth) : P (option (bool * GroundTruth)) :=
  r ← adb_shell fl command;
  mret (Some match r with inl _ => (true, gt) | inr _ => (false, GroundTruth_default) end).

Definition words (l : list string) : str := ascii_bytes (String.concat " " l).

(** The [match] on an action that does not take the bridge; [None] is its early return.
    The arms of the others are never reached. *)
Definition shell_arm (fuel : nat) (fl : Flags) (a : Action) : P (option (bool * GroundTruth)) :=
  match a with
  | Act_Tap x y _ =>
      by_shell fl (words ["input"; "tap"; pretty x; pretty y]%string) (scene_change TAP_CHANGE)
  | Act_Swipe x1 y1 x2 y2 dur_ms _ =>
      by_shell fl (words ["input"; "swipe"; pretty x1; pretty y1; pretty x2; pretty y2; pretty dur_ms]%string)
        (scene_change SWIPE_CHANGE)
  | Act_Key code _ => by_shell fl (words ["input"; "keyevent"; pretty code]%string) GroundTruth_default
  | Act_TypeText text _ =>
      if forallb (λ b, b <? 128) text
      then by_shell fl (ascii_bytes "input text " ++ text) GroundTruth_default
      else mret None
  | Act_DumpObservation _ _ =>
      mret (Some (true, mkGroundTruth [mkNodeDiff 0 BoundsChanged None None] None (Some 0) (f32_of_Z 0) []))
  | Act_GetUiRepr _ _ => mret (Some (true, GroundTruth_default))
  | Act_Wait p _ =>
      satisfied ← wait_until fuel fl p WAIT_CAP WAIT_PAUSE;
      mret (Some (satisfied, scene_change WAIT_CHANGE))
  | Act_LocalizeText _ _ _ | Act_DetectElement _ _ _ _ => mret (Some (true, GroundTruth_default))
  | Act_Ground _ _ _ | Act_AskVisual _ _ _ | Act_TapSelector _ _ => mret (Some (false, GroundTruth_default))
  | Act_Launch _ _ _ | Act_SetClipboard _ _ _ | Act_GamepadFrame _ _ | Act_InjectRaw _ _ => atomically unwind
  end.

(** What a landed action leaves: the memory of the focused screen, and the state model. *)
Definition remember (fl : Flags) (a : Action) (r : ActionResult) : P unit :=
  f ← dumpsys fl;
  match f.1 with
  | Some focus => atomically (memory_success (from_focus blake3 focus) a)
  | None => mret tt
  end;;
  atomically (modify (λ d, set_state (record_action_result (ar_id r) r (sh_state d)) d)).

Definition execute_action (fuel : nat) (fl : Flags) (a : Action) : P ActionResult :=
  start ← ask instant_now;
  id ← atomically next_obs_seq;
  if uses_scrcpy_bridge a then
    o ← atomically (execute_raw_bridge_action fl a id);
    mret (action_result_from_bridge o)
  else
    arm ← shell_arm fuel fl a;
    e ← elapsed_since start;
    match arm with
    | None => mret (plain_result id false GroundTruth_default (wrap 32 e))
    | Some (landed, gt) =>
        let r := plain_result id landed gt (wrap 32 e) in
        (if landed then remember fl a r else mret tt);;
        mret r
    end.

(** ** Observations *)

Definition screen_frame (seq : Z) (screencap : bytes + str) : option FrameSnapshot :=
  match screencap with
  | inl b => (λ wh, mkFrameSnapshot wh.1 wh.2 1 true seq (f32_of_Z 0) None) <$> read_png_dimensions b
  | inr _ => None
  end.

(** Under the lock of the stream, inside which that of the state is taken. *)
Definition publish (obs : Observation) : cmd D Ended unit :=
  modify (λ d, set_stream (produce (λ _, obs) (sh_stream d)).2 d);;
  modify (λ d, set_state (record_observation obs (sh_state d)) d).

Definition build_observation (fl : Flags) : P Observation :=
  seq ← atomically next_obs_seq;
  out ← dumpsys fl;
  cap ← adb_screencap fl;
  up1 ← uptime_ms;
  up2 ← uptime_ms;
  up3 ← uptime_ms;
  let obs := mkObservation seq up2 (Some (mkA11yTree (Some 0) out.1 0 out.2)) (screen_frame seq cap)
               (DeviceState_unknown up1) [De_Uptime up3] None in
  atomically (publish obs);;
  mret obs.

(** ** The connection *)

Definition on_sock {A} (c : cmd S IoError A) : P A := own (map_err Ended_Io c).

(** The loop over the bytes of the length; [len_buf] has room for ten. *)
Fixpoint read_len (room : nat) (len_buf : bytes) : cmd S IoError Z :=
  match room with
  | O => unwind
  | Datatypes.S room =>
      one ← read_exact 1;
      let len_buf := len_buf ++ one in
      match decode_varint len_buf with
      | Some (value, _) => mret value
      | None =>
          if (10 <=? length len_buf)%nat then raise (mkIoError InvalidData "varint > 10 B")
          else read_len room len_buf
      end
  end.

(** [vec![0u8; payload_len]] unwinds for a length no allocation can have. *)
Definition read_request : cmd S IoError RequestPayload :=
  header ← read_exact 2;
  match verb_from_byte (nth 0 header 0) with
  | None => raise (mkIoError InvalidData "unknown verb")
  | Some v =>
      payload_len ← read_len 10 [];
      if 2 ^ 63 <=? payload_len then unwind
      else
        p ← read_exact (Z.to_nat payload_len);
        match decode_request request_from (mkFrame v 0 p) with
        | Some r => mret r
        | None => raise (mkIoError InvalidData (postcard_error p))
        end
  end.

Definition write_frame (f : KernelFrame.Frame) : cmd S IoError unit :=
  io_write_all (frame_encode f);; sock_flush.

Definition write_reply (r : ReplyPayload) : cmd S IoError unit := write_frame (frame_reply reply_bytes r).

Definition handle_observe (fl : Flags) (since : Z) (filter : list EventKind) : P unit :=
  atomically (modify (λ d, set_stream (subscribe since None (sh_stream d)).2 d));;
  obs1 ← build_observation fl;
  on_sock (write_reply (Re_Observation obs1));;
  pause OBSERVE_PAUSE;;
  obs2 ← build_observation fl;
  on_sock (write_reply (Re_Observation obs2));;
  on_sock (write_reply (Re_EndOfStream (seq obs2))).

(** *** Plans *)

(** A step that is not matched in time runs all the same. *)
Definition before_step (fuel : nat) (fl : Flags) (step : PlanStep) : P unit :=
  match wait_before step with
  | None => mret tt
  | Some p => _ ← wait_until fuel fl p WAIT_BEFORE_CAP WAIT_BEFORE_PAUSE; mret tt
  end.

Definition verified (fl : Flags) (step : PlanStep) : P bool :=
  match verify_after step with
  | None => mret true
  | Some p => out ← dumpsys fl; mret (check_predicate p out.1 out.2)
  end.

Definition step_record (index : Z) (step : PlanStep) (r : ActionResult) (ok : bool) : StepResult :=
  let landed := ar_landed r && ok in
  mkStepResult (step_id step) index r landed
    (if landed then None
     else if negb (ar_landed r) then Some "action refused"%string else Some "verify_after failed"%string).

Definition perform_step (fuel : nat) (fl : Flags) (index : Z) (step : PlanStep) : P StepResult :=
  before_step fuel fl step;;
  r ← execute_action fuel fl (action step);
  ok ← verified fl step;
  mret (step_record index step r ok).

Definition checkpoint_frame (obs : Observation) : KernelFrame.Frame :=
  let f := frame_reply reply_bytes (Re_Observation obs) in
  mkFrame (verb f) (flags_set IS_CHECKPOINT (flags f)) (KernelFrame.payload f).

Definition checkpoint_due (every : Z) (done : nat) : bool :=
  (0 <? every) && (wrap 32 (Z.of_nat done) mod every =? 0).

Definition emit_checkpoint (fl : Flags) (every : Z) (done : nat) : P unit :=
  if checkpoint_due every done then
    obs ← build_observation fl;
    on_sock (write_frame (checkpoint_frame obs))
  else mret tt.

(** The loop over the steps, with the variables [results] and [all_landed]. *)
Fixpoint plan_steps (fuel : nat) (fl : Flags) (plan : Plan) (index : nat) (ss : list PlanStep)
    (results : list StepResult) (all_landed : bool) : P (list StepResult * bool) :=
  match ss with
  | [] => mret (results, all_landed)
  | step :: ss =>
      r ← perform_step fuel fl (wrap 32 (Z.of_nat index)) step;
      let results := results ++ [r] in
      if negb (sr_landed r) && abort_on_error plan then mret (results, false)
      else
        emit_checkpoint fl (checkpoint_every plan) (length results);;
        plan_steps fuel fl plan (Datatypes.S index) ss results (all_landed && sr_landed r)
  end.

Definition handle_plan (fuel : nat) (fl : Flags) (id : PlanId) (plan : Plan) : P unit :=
  start ← ask instant_now;
  rs ← plan_steps fuel fl plan 0 (steps plan) [] true;
  e ← elapsed_since start;
  obs ← build_observation fl;
  on_sock (write_reply (Re_Plan (mkPlanResult id rs.1 obs (wrap 32 e) rs.2))).

(** What a query was not asked for is blanked. *)
Definition query_reply (want_a11y want_frame want_state : bool) (obs : Observation) : Observation :=
  mkObservation (seq obs) (timestamp_ms obs) (if want_a11y then a11y obs else None)
    (if want_frame then frame obs else None)
    (if want_state then state obs else DeviceState_unknown 0) [] None.

(** For [GetUiRepr] the HTML form is built, printed and dropped. *)
Definition handle_action (fuel : nat) (fl : Flags) (a : Action) : P unit :=
  r ← execute_action fuel fl a;
  match a with
  | Act_GetUiRepr _ _ =>
      out ← dumpsys fl;
      let _ := approx_html_size (build_ui_repr_html out.1 out.2) in mret tt
  | _ => mret tt
  end;;
  on_sock (write_reply (Re_Action r)).

Definition handle_connection (fuel : nat) (fl : Flags) : P unit :=
  request ← on_sock read_request;
  match request with
  | Rq_Action _ a => handle_action fuel fl a
  | Rq_Plan id plan => handle_plan fuel fl id plan
  | Rq_Query wa wf ws =>
      obs ← build_observation fl;
      on_sock (write_reply (Re_Query (query_reply wa wf ws obs)))
  | Rq_Observe since filter => handle_observe fl since filter
  | Rq_EndOfStream =>
      n ← atomically next_obs_seq;
      on_sock (write_reply (Re_EndOfStream (wrap 64 (n - 1))))
  end.

(** [main] behind its flags and the bound listener: an accepted socket is served by a thread
    of its own, a failed accept is only printed. *)
Definition serve (fuel : nat) (fl : Flags) (evs : list (Event (S := S))) (h : H) : Pool (D := D) (S := S) (E := Ended) :=
  pool_run (handle_connection fuel fl) evs (mkPool (SharedState_new (state_db fl) h) [] true).
End Daemon.
