(* ===== verification/AdkRequest.v ===== *)
(** * Requests are read as they were written *)

From S2P Require Import Prelude Words Io Frame.
From S2P Require Import KernelTypes KernelFrame AdkDaemon.
Local Open Scope Z_scope.

Section Reading.
Context {S : Type} `{!Read S, !LawfulRead S, !StreamReader S}.
Context (request_from : bytes → option RequestPayload) (postcard_error : bytes → string).
Abbreviation read_request := (read_request request_from postcard_error).

Lemma takes_one b : takes (R := S) (read_exact 1) [b] [b].
Proof. exact (takes_read_exact [b]). Qed.

Lemma length_varint_10 n : usize n → (length (encode_varint n) ≤ 10)%nat.
Proof.
  intros Hn. pose proof (encode_varint_decode n [] Hn) as E. by apply decode_varint_bounds in E as (_ & ? & _).
Qed.

(** The loop has read [l] of the length, [l'] is to come. *)
Lemma read_len_rest n l l' :
  usize n → encode_varint n = l ++ l' → l' ≠ [] →
  takes (R := S) (read_len (10 - length l) l) l' n.
Proof.
  intros Hn. revert l. induction l' as [|b l' IH]; intros l E Hne; [done|].
  pose proof (length_varint_10 n Hn) as Hlen. rewrite E, length_app in Hlen. cbn [length] in Hlen.
  replace (10 - length l)%nat with (Datatypes.S (9 - length l)) by lia. cbn [read_len].
  change (b :: l') with ([b] ++ l'). eapply takes_bind; [apply takes_one|].
  destruct l' as [|b' l'].
  - rewrite <-E, <-(app_nil_r (encode_varint n)), encode_varint_decode by done. apply takes_ret.
  - rewrite (decode_varint_prefix n (l ++ [b]) (b' :: l')) by (rewrite <-?(assoc_L (++)); done).
    cbn [length] in Hlen. rewrite (proj2 (Nat.leb_gt _ _)) by (rewrite length_app; cbn; lia).
    replace (9 - length l)%nat with (10 - length (l ++ [b]))%nat by (rewrite length_app; cbn; lia).
    apply IH; [by rewrite <-(assoc_L (++))|done].
Qed.

Lemma read_len_takes n : usize n → takes (R := S) (read_len 10 []) (encode_varint n) n.
Proof.
  intros Hn. apply (read_len_rest n []); [done|done|]. intros E.
  pose proof (encode_varint_decode n [] Hn) as Hd. by rewrite E in Hd.
Qed.

Lemma read_len_short n l l' missing (s : S) :
  usize n → encode_varint n = l ++ l' ++ missing → missing ≠ [] → unread s = l' →
  ∃ s', read_len (10 - length l) l s = (Err eof_error, s').
Proof.
  intros Hn. revert l s. induction l' as [|b l' IH]; intros l s E Hne Hs;
    pose proof (length_varint_10 n Hn) as Hlen; rewrite E, !length_app in Hlen; cbn [length] in Hlen;
    replace (10 - length l)%nat with (Datatypes.S (9 - length l)) by (destruct missing; [done|cbn in Hlen; lia]);
    cbn [read_len].
  - destruct (read_exact_short 1 s) as (s' & Es); [rewrite Hs; cbn; lia|].
    exists s'. by rewrite (bind_err _ _ _ _ _ Es).
  - destruct (takes_one b s l' Hs) as (s' & Es & Hs'). rewrite (bind_ok _ _ _ _ _ Es).
    cbn [app] in E. rewrite (decode_varint_prefix n (l ++ [b]) (l' ++ missing));
      [|by rewrite <-(assoc_L (++))|by destruct l'].
    rewrite (proj2 (Nat.leb_gt _ _)) by (rewrite length_app; cbn; destruct missing; [done|cbn in Hlen; lia]).
    replace (9 - length l)%nat with (10 - length (l ++ [b]))%nat by (rewrite length_app; cbn; lia).
    apply IH; [by rewrite <-(assoc_L (++))|done|done].
Qed.

Lemma read_request_takes f p :
  frame_fits f → request_from (payload f) = Some p → takes (R := S) read_request (frame_encode f) p.
Proof.
  intros Hf Hp. unfold AdkDaemon.read_request, frame_encode.
  change (verb_byte (verb f) :: bits (flags f) :: encode_varint (Z.of_nat (length (payload f))) ++ payload f)
    with ([verb_byte (verb f); bits (flags f)] ++ encode_varint (Z.of_nat (length (payload f))) ++ payload f).
  eapply takes_bind; [exact (takes_read_exact [_; _])|]. cbn [nth]. rewrite verb_byte_back.
  unfold frame_fits in Hf. eapply takes_bind; [apply read_len_takes; unfold usize; lia|].
  rewrite (proj2 (Z.leb_gt _ _)) by done. rewrite Nat2Z.id.
  eapply takes_last; [apply takes_read_exact|]. unfold decode_request. cbn [payload]. rewrite Hp. apply takes_ret.
Qed.

Lemma read_request_short f (s : S) cut missing :
  frame_fits f → frame_encode f = cut ++ missing → missing ≠ [] → unread s = cut →
  ∃ s', read_request s = (Err eof_error, s').
Proof.
  intros Hf E Hne Hs. unfold AdkDaemon.read_request, frame_encode, frame_fits in *.
  destruct (decide (2 ≤ length cut)%nat) as [Hc|Hc].
  2:{ destruct (read_exact_short 2 s) as (s' & Es); [rewrite Hs; lia|]. exists s'.
      by rewrite (bind_err _ _ _ _ _ Es). }
  destruct cut as [|b0 [|b1 cut]]; [cbn in Hc; lia..|]. injection E as <- <- E.
  destruct (takes_read_exact [verb_byte (verb f); bits (flags f)] s cut Hs) as (s1 & Es1 & Hs1).
  cbn [length] in Es1. rewrite (bind_ok _ _ _ _ _ Es1). cbn [nth]. rewrite verb_byte_back.
  set (n := Z.of_nat (length (payload f))) in *. assert (usize n) as Hn by (unfold usize; lia).
  apply app_eq_inv in E as [(k & E1 & E2)|(k & E1 & E2)].
  - destruct k as [|x k].
    + rewrite app_nil_r in E1. cbn in E2. subst cut missing.
      destruct (read_len_takes n Hn s1 []) as (s2 & Es2 & Hs2); [by rewrite app_nil_r|].
      rewrite (bind_ok _ _ _ _ _ Es2), (proj2 (Z.leb_gt _ _)) by done.
      destruct (read_exact_short (Z.to_nat n) s2) as (s3 & Es3).
      { rewrite Hs2. unfold n. rewrite Nat2Z.id. destruct (payload f); [done|cbn; lia]. }
      exists s3. by rewrite (bind_err _ _ _ _ _ Es3).
    + destruct (read_len_short n [] cut (x :: k) s1 Hn E1 ltac:(done) Hs1) as (s2 & Es2).
      exists s2. by rewrite (bind_err _ _ _ _ _ Es2).
  - rewrite E1 in Hs1. destruct (read_len_takes n Hn s1 k Hs1) as (s2 & Es2 & Hs2).
    rewrite (bind_ok _ _ _ _ _ Es2), (proj2 (Z.leb_gt _ _)) by done.
    destruct (read_exact_short (Z.to_nat n) s2) as (s3 & Es3).
    { rewrite Hs2. unfold n. rewrite Nat2Z.id, E2, length_app. destruct missing; [done|cbn; lia]. }
    exists s3. by rewrite (bind_err _ _ _ _ _ Es3).
Qed.

(** The outcomes of the loop over the length. *)
Lemma read_len_outcomes room l (s : S) :
  (room + length l = 10)%nat → (length l < 10)%nat →
  match read_len room l s with
  | (Ok n, s') => ∃ l' h, unread s = l' ++ unread s' ∧ decode_varint (l ++ l') = Some (n, h)
  | (Err _, _) => True
  | (Panicked, _) => False
  end.
Proof.
  revert l s. induction room as [|room IH]; intros l s Hr Hl; [lia|]. cbn [read_len].
  unfold mbind, cmd_bind. pose proof (read_exact_returns 1 s) as Hp.
  destruct (read_exact 1 s) as [[one|e|] s1] eqn:Es; [|done..].
  apply read_exact_ok in Es as [Es Hone].
  destruct (decode_varint (l ++ one)) as [[n h]|] eqn:Ed; [by exists one, h|].
  destruct (Nat.leb_spec 10 (length (l ++ one))) as [|Hlt]; [done|].
  rewrite length_app in Hlt. specialize (IH (l ++ one) s1). rewrite length_app in IH.
  specialize (IH ltac:(lia) ltac:(lia)). destruct (read_len room (l ++ one) s1) as [[n|e|] s2]; [|done..].
  destruct IH as (l' & h & E & Hd). exists (one ++ l'), h. by rewrite Es, E, !(assoc_L (++)).
Qed.

(** What the first bytes of a request declare. *)
Definition request_head (b : bytes) (n : Z) (rest : bytes) : Prop :=
  ∃ b0 b1 len h, b = b0 :: b1 :: len ++ rest ∧ is_Some (verb_from_byte b0) ∧ decode_varint len = Some (n, h).

Lemma read_request_outcomes (s : S) :
  match read_request s with
  | (Ok q, s') => ∃ n p, request_head (unread s) n (p ++ unread s') ∧ n = Z.of_nat (length p) ∧ request_from p = Some q
  | (Err _, _) => True
  | (Panicked, s') => ∃ n, request_head (unread s) n (unread s') ∧ 2 ^ 63 ≤ n
  end.
Proof.
  unfold AdkDaemon.read_request. unfold mbind at 1, cmd_bind at 1. pose proof (read_exact_returns 2 s) as Hp.
  destruct (read_exact 2 s) as [[hd|e|] s1] eqn:Es; [|done..].
  apply read_exact_ok in Es as [Es Hhd]. destruct hd as [|b0 [|b1 [|]]]; [done..| |done]. cbn [nth].
  destruct (verb_from_byte b0) as [v|] eqn:Ev; [|done].
  unfold mbind at 1, cmd_bind at 1. pose proof (read_len_outcomes 10 [] s1 eq_refl ltac:(cbn; lia)) as Hlen.
  destruct (read_len 10 [] s1) as [[n|e|] s2]; [|done..]. destruct Hlen as (len & h & E2 & Hd). cbn [app] in Hd.
  assert (∀ rest, unread s2 = rest → request_head (unread s) n rest) as Hhead.
  { intros rest <-. exists b0, b1, len, h. rewrite Es, E2. by split_and!. }
  destruct (Z.leb_spec (2 ^ 63) n) as [Hbig|Hsmall]; [exists n; split; [by apply Hhead|done]|].
  unfold mbind at 1, cmd_bind at 1. pose proof (read_exact_returns (Z.to_nat n) s2) as Hp2.
  destruct (read_exact (Z.to_nat n) s2) as [[p|e|] s3] eqn:Ep; [|done..].
  apply read_exact_ok in Ep as [Ep Hl]. unfold decode_request. cbn [payload].
  destruct (request_from p) as [q|] eqn:Eq; [|done]. exists n, p. split; [by apply Hhead|]. split; [|done].
  apply decode_varint_bounds in Hd as ([Hn _] & _). lia.
Qed.
End Reading.

(** C24: requests travel to the daemon.  It reads from its socket exactly the request a host
    wrote as a frame - byte by byte where the length is - and leaves what follows; a request
    that breaks off anywhere is an end of file.  Whatever the bytes, what it reads is decoded
    from the payload of a frame with a known verb (which is not compared with the request's),
    and it unwinds only for a length of [2^63] or more. *)
Theorem request_read {S} `{StreamReader S} (request_bytes : RequestPayload → bytes)
    (request_from : bytes → option RequestPayload) (postcard_error : bytes → string) (p : RequestPayload)
    (Hback : request_from (request_bytes p) = Some p) (Hfits : frame_fits (frame_request request_bytes p)) :
  (∀ (s : S) rest, unread s = frame_encode (frame_request request_bytes p) ++ rest →
     ∃ s', read_request request_from postcard_error s = (Ok p, s') ∧ unread s' = rest) ∧
  (∀ (s : S) missing, frame_encode (frame_request request_bytes p) = unread s ++ missing → missing ≠ [] →
     ∃ s', read_request request_from postcard_error s = (Err eof_error, s')) ∧
  ∀ s : S,
    match read_request request_from postcard_error s with
    | (Ok q, s') => ∃ n p, request_head (unread s) n (p ++ unread s') ∧ n = Z.of_nat (length p) ∧ request_from p = Some q
    | (Err _, _) => True
    | (Panicked, s') => ∃ n, request_head (unread s) n (unread s') ∧ 2 ^ 63 ≤ n
    end.
Proof.
  split_and!.
  - intros s rest. by apply (read_request_takes request_from postcard_error (frame_request request_bytes p)).
  - intros s missing E Hne. by eapply (read_request_short request_from postcard_error (frame_request request_bytes p)).
  - apply read_request_outcomes.
Qed.

(** A query, and a toy encoding of requests. *)
Definition query_bytes (p : RequestPayload) : bytes :=
  match p with Rq_Query a f s => [Z.b2z a; Z.b2z f; Z.b2z s] | _ => [] end.
Definition query_from (b : bytes) : option RequestPayload :=
  match b with [a; f; s] => Some (Rq_Query (a =? 1) (f =? 1) (s =? 1)) | _ => None end.

Lemma request_read_witness :
  let p := Rq_Query true false true in
  let sent := frame_encode (frame_request query_bytes p) in
  ∃ s', read_request (S := bytes) query_from (λ _, "bad"%string) (sent ++ [9; 9]) = (Ok p, s') ∧ s' = [9; 9].
Proof.
  intros p sent.
  assert (query_from (query_bytes p) = Some p) as Hback by reflexivity.
  assert (frame_fits (frame_request query_bytes p)) as Hfits by (vm_compute; reflexivity).
  exact (proj1 (request_read query_bytes query_from (λ _, "bad"%string) p Hback Hfits) (sent ++ [9; 9]) [9; 9] eq_refl).
Defined.
