(* ===== verification/AdkWorld.v ===== *)
(** * What the daemon relies on outside, and a device to try it on *)

From S2P Require Import Prelude Words Io Frame.
From S2P Require Import Errors Utf8 Format Sink Session.
From S2P Require Import KernelTypes Memory MemoryStore SessionState KernelFrame AdkDaemon.
Local Open Scope Z_scope.

(** A socket does not write while it reads, and a flush writes nothing new. *)
Class LawfulSocket (S : Type) `{!Read S, !Write S, !LawfulWrite S, !Socket S} := {
  read_keeps_put n (s : S) : put (read_exact n s).2 = put s;
  flush_keeps_put (s : S) : put (sock_flush s).2 = put s;
}.

(** Time passes: the clock is read between two moments, nothing turns it back, and a sleep
    is at least as long as asked for. *)
Class LawfulHost (H : Type) `{!Host H} := {
  time : H → Z;
  unix_time h : time h ≤ time (unix_ms h).2;
  instant_between h : time h ≤ (instant_now h).1 ≤ time (instant_now h).2;
  run_adb_time l h : time h ≤ time (run_adb l h).2;
  sleep_time ms h : time h + ms * NANOS_PER_MS ≤ time (thread_sleep ms h);
}.

(** Nor does the database turn it back. *)
Class TimelySqlite (H : Type) `{!Host H, !LawfulHost H, !Sqlite H} :=
  execute_time conn sql values h : time h ≤ time (execute (H := H) conn sql values h).2.

(** ** A scripted device

    Its state is the time; it prints one focused app whatever it is asked. *)

Definition main_focused : str := ascii_bytes "  mFocusedApp=ActivityRecord{5f1 u0 com.app/.Main t7}".

#[export] Instance scripted_device : Host Z := {
  run_adb _ t := (Exited true main_focused [], t);
  instant_now t := (t, t);
  unix_ms t := (t / NANOS_PER_MS, t);
  thread_sleep ms t := t + Z.max 0 ms * NANOS_PER_MS }.

(** It has no database. *)
#[export] Instance scripted_sqlite : Sqlite Z := {
  Conn := Empty_set; Row := Empty_set; SqlError := string;
  ToSqlConversionFailure := id;
  connection_open _ t := (inr "no database"%string, t);
  execute_batch _ _ t := (inl tt, t);
  query _ _ t := (inl [], t);
  row_get _ r := match r with end;
  execute _ _ _ t := (inl tt, t) }.

#[export] Instance scripted_lawful : LawfulHost Z.
Proof.
  refine {| time := λ t, t |}; cbn; [lia|lia|lia|]. intros ms t. apply Z.add_le_mono_l.
  apply Z.mul_le_mono_nonneg_r; [done|lia].
Defined.

#[export] Instance scripted_timely : TimelySqlite Z.
Proof. intros conn sql values h. reflexivity. Defined.

(** A socket as the bytes to come and the bytes written. *)
#[export] Instance pipe_read : Read (bytes * bytes) := λ n s,
  let '(o, rest) := read_exact n s.1 in (o, (rest, s.2)).
#[export] Instance pipe_write : Write (bytes * bytes) := λ b s, (Ok tt, (s.1, s.2 ++ b)).
#[export] Instance pipe_flush : Socket (bytes * bytes) := λ s, (Ok tt, s).

#[export] Instance pipe_lawful_read : LawfulRead (bytes * bytes).
Proof.
  refine {| unread := fst |}; intros n [r w]; unfold read_exact at 1, pipe_read; cbn [fst snd].
  - intros b s'. destruct (read_exact n r) as [o r'] eqn:E. intros Hs. simplify_eq.
    exact (read_exact_ok n r b r' E).
  - pose proof (read_exact_returns n r) as Hr. by destruct (read_exact n r) as [[b|e|] r'].
Defined.
#[export] Instance pipe_lawful_write : LawfulWrite (bytes * bytes).
Proof.
  refine {| put := snd |}; unfold io_write_all, pipe_write.
  - by intros b w w' [= <-].
  - by intros b w e w' E.
Defined.
#[export] Instance pipe_lawful : LawfulSocket (bytes * bytes).
Proof. split; [|done]. intros n [r w]. unfold read_exact at 1, pipe_read; cbn [fst snd]. by destruct (read_exact n r). Qed.

(** No scrcpy server listens. *)
Definition nobody : str → Z → Z → (bytes + IoError) * Z :=
  λ _ _ t, (inr (mkIoError (OtherKind "connection refused") "connection refused"), t).
Definition to_log : bytes → OpenRequest → MsgLog := λ _ _, mkLog [].

Definition plain_flags : Flags := default_flags None.
Definition fresh_daemon : SharedState Z MsgLog (Conn Z) := SharedState_new None 0.
