(* ===== verification/AdkService.v ===== *)
(** * What the daemon does with a request *)

From stdpp Require Import gmap.
From S2P Require Import Prelude Words Io Frame.
From S2P Require Import Errors Types Utf8 Utf8Lossy Format Float32 Message Transport Coalesce Sink Session.
From S2P Require Import KernelTypes Bounded StreamEngine Memory MemoryStore StateModel SessionState KernelFrame Bridge AdkText Threads AdkDaemon AdkRequest AdkWorld.
Local Open Scope Z_scope.

Section Service.
Context {H : Type} `{!Host H, !Sqlite H, pc : Postcard}.
Context {T W : Type} `{!Read T, !MessageSink W}.
Context (open_tcp : str → Z → H → (T + IoError) * H) (session_over : T → OpenRequest → W).
Context (took : ActionId → Z) (debug_char : Z → string) (blake3 : bytes → bytes).
Context (request_from : bytes → option RequestPayload) (postcard_error : bytes → string)
  (reply_bytes : ReplyPayload → bytes).
Context {S : Type} `{!Read S, !Write S, !Socket S}.
Abbreviation D := (SharedState H W (Conn H)).
Abbreviation P := (prog (D := D) (S := S) (E := Ended)).
Implicit Types (d : D) (s : S).
Abbreviation execute_action := (execute_action open_tcp session_over took debug_char blake3).

(** ** Commands that only ask the outside *)

(** By itself [p] always answers, and changes nothing of the daemon's own. *)
Definition asks {A} (p : P A) : Prop := ∀ d s, ∃ a h, alone p (d, s) = (Ok a, (set_outside h d, s)).

Lemma set_outside_twice h h' d : set_outside h (set_outside h' d) = set_outside h d.
Proof. done. Qed.
Lemma set_outside_same d : set_outside (outside d) d = d.
Proof. by destruct d. Qed.

Lemma asks_ret {A} (a : A) : asks (mret a).
Proof. intros d s. exists a, (outside d). by rewrite set_outside_same. Qed.

Lemma asks_bind {A B} (p : P A) (k : A → P B) : asks p → (∀ a, asks (k a)) → asks (p ≫= k).
Proof.
  intros Hp Hk d s. destruct (Hp d s) as (a & h & E). destruct (Hk a (set_outside h d) s) as (b & h' & E').
  exists b, h'. rewrite (alone_ok _ _ _ _ _ E), E'. by rewrite set_outside_twice.
Qed.

Lemma asks_ask {A} (f : H → A * H) : asks (ask f).
Proof.
  intros d s. unfold ask. rewrite alone_atomically. unfold on_outside.
  destruct (f (outside d)) as [a h]. by exists a, h.
Qed.

Lemma ask_run {A} (f : H → A * H) d s :
  alone (ask f) (d, s) = (Ok (f (outside d)).1, (set_outside (f (outside d)).2 d, s)).
Proof. unfold ask. rewrite alone_atomically. unfold on_outside. by destruct (f (outside d)). Qed.

Lemma elapsed_since_run start d s :
  alone (elapsed_since start) (d, s) =
    (Ok (Z.max 0 ((instant_now (outside d)).1 - start) / NANOS_PER_MS),
     (set_outside (instant_now (outside d)).2 d, s)).
Proof. unfold elapsed_since. by rewrite (alone_ok _ _ _ _ _ (ask_run instant_now d s)). Qed.

Lemma asks_read {A} (f : D → A) : asks (atomically (read f)).
Proof. intros d s. exists (f d), (outside d). by rewrite set_outside_same. Qed.

Lemma asks_adb_shell fl command : asks (adb_shell fl command).
Proof.
  unfold adb_shell. destruct (no_adb fl); [apply asks_ret|].
  apply asks_bind; [apply asks_ask|]. intros r. apply asks_ret.
Qed.

Lemma asks_adb_screencap fl : asks (adb_screencap fl).
Proof.
  unfold adb_screencap. destruct (no_adb fl); [apply asks_ret|].
  apply asks_bind; [apply asks_ask|]. intros r. apply asks_ret.
Qed.

Lemma asks_dumpsys fl : asks (dumpsys fl).
Proof. apply asks_bind; [apply asks_adb_shell|]. intros r. apply asks_ret. Qed.

Lemma asks_elapsed start : asks (elapsed_since start).
Proof. apply asks_bind; [apply asks_ask|]. intros now. apply asks_ret. Qed.

Lemma asks_pause ms : asks (pause ms).
Proof. apply asks_ask. Qed.

(** Running an asking program first. *)
Lemma asks_run {A B} (p : P A) (k : A → P B) d s b ds' :
  asks p → alone (p ≫= k) (d, s) = (Ok b, ds') →
  ∃ a h, alone p (d, s) = (Ok a, (set_outside h d, s)) ∧ alone (k a) (set_outside h d, s) = (Ok b, ds').
Proof.
  intros Hp E. destruct (Hp d s) as (a & h & Ea). exists a, h. split; [done|].
  by rewrite (alone_ok _ _ _ _ _ Ea) in E.
Qed.

(** ** Waiting *)

(** A wait changes nothing either, and ends or runs out of turns. *)
Lemma poll_until_outer fuel fl p t0 cap ms d s :
  ∃ h, alone (poll_until fuel fl p t0 cap ms) (d, s) = (Err Ended_OutOfTurns, (set_outside h d, s)) ∨
       ∃ b, alone (poll_until fuel fl p t0 cap ms) (d, s) = (Ok b, (set_outside h d, s)).
Proof.
  revert d. induction fuel as [|fuel IH]; intros d; cbn [poll_until].
  { exists (outside d). left. by rewrite set_outside_same. }
  destruct (asks_elapsed t0 d s) as (e & h1 & E1). rewrite (alone_ok _ _ _ _ _ E1).
  destruct (e <? cap); [|exists h1; right; by exists false].
  destruct (asks_dumpsys fl (set_outside h1 d) s) as (r & h2 & E2). rewrite (alone_ok _ _ _ _ _ E2).
  destruct (check_predicate p r.1 r.2); [exists h2; right; by exists true|].
  destruct (asks_pause ms (set_outside h2 (set_outside h1 d)) s) as (u & h3 & E3).
  rewrite (alone_ok _ _ _ _ _ E3), !set_outside_twice.
  destruct (IH (set_outside h3 d)) as (h & [E|(b & E)]); exists h; [left|right; exists b]; by rewrite E.
Qed.

Lemma wait_until_outer fuel fl p cap ms d s :
  ∃ h, alone (wait_until fuel fl p cap ms) (d, s) = (Err Ended_OutOfTurns, (set_outside h d, s)) ∨
       ∃ b, alone (wait_until fuel fl p cap ms) (d, s) = (Ok b, (set_outside h d, s)).
Proof.
  unfold wait_until. destruct (asks_ask instant_now d s) as (t0 & h0 & E). rewrite (alone_ok _ _ _ _ _ E).
  destruct (poll_until_outer fuel fl p t0 (Z.min (predicate_timeout_ms p) cap) ms (set_outside h0 d) s)
    as (h & [E'|(b & E')]); exists h; [left|right; exists b]; by rewrite E'.
Qed.

(** ** Actions *)

(** An action that does not take the bridge does all it does outside. *)
Lemma shell_arm_outer fuel fl a d s :
  uses_scrcpy_bridge a = false →
  ∃ h, alone (shell_arm fuel fl a) (d, s) = (Err Ended_OutOfTurns, (set_outside h d, s)) ∨
       ∃ r, alone (shell_arm fuel fl a) (d, s) = (Ok r, (set_outside h d, s)).
Proof.
  intros Ha. destruct a; try discriminate; cbn [shell_arm];
    try (exists (outside d); right; eexists; cbn; by rewrite set_outside_same).
  destruct (wait_until_outer fuel fl predicate WAIT_CAP WAIT_PAUSE d s) as (h & [E|(b & E)]); exists h.
  - left. by rewrite (alone_err _ _ _ _ _ E).
  - right. eexists. by rewrite (alone_ok _ _ _ _ _ E).
Qed.

(** What the bridge leaves alone. *)
Definition same_records d d' : Prop :=
  sh_state d' = sh_state d ∧ sh_stream d' = sh_stream d ∧ sh_memory d' = sh_memory d ∧ obs_seq d' = obs_seq d.

Lemma ensure_raw_injector_run fl d r d' :
  ensure_raw_injector open_tcp session_over fl d = (Ok r, d') →
  same_records d d' ∧ (∀ i, raw_injector d = Some i → r = None ∧ raw_injector d' = Some i).
Proof.
  unfold ensure_raw_injector. unfold mbind at 1, cmd_bind at 1. cbn [read].
  destruct (raw_injector d) as [i|] eqn:Ei; [intros [= <- <-]; split; [done|]; by intros ? [= <-]|].
  destruct (no_adb fl); [by intros [= <- <-]|].
  unfold mbind at 1, cmd_bind at 1, on_outside. destruct (open_tcp _ _ _) as [[stream|e] h]; [|by intros [= <- <-]].
  destruct (Device.read_scrcpy_control_prefix stream) as [[pre|e|] stream']; [|by intros [= <- <-]|done].
  destruct (injector_open _ _) as [[u|e|] i]; [|by intros [= <- <-]|done].
  unfold mbind, cmd_bind. cbn. by intros [= <- <-].
Qed.

Lemma raw_bridge_run fl a id d o d' :
  execute_raw_bridge_action open_tcp session_over took debug_char fl a id d = (Ok o, d') →
  same_records d d' ∧ bo_id o = id ∧
  ∀ i, raw_injector d = Some i → ∃ o' i',
    apply_action took debug_char a i = (Ok o', i') ∧ raw_injector d' = Some i' ∧
    ar_landed (action_result_from_bridge o) = bo_landed o'.
Proof.
  intros Hrun. apply bind_ok_inv in Hrun as (r & d1 & He & Hrun).
  apply ensure_raw_injector_run in He as [Hsame Hi].
  destruct r as [reason|].
  - injection Hrun as <- <-. split_and!; [done..|]. intros i E. by destruct (Hi i E).
  - apply bind_ok_inv in Hrun as (o1 & d2 & Ha & [= <- <-]). unfold injector_apply in Ha.
    destruct (raw_injector d1) as [i1|] eqn:E1; [|done].
    destruct (apply_action took debug_char a i1) as [[o2|e|] i2] eqn:E2; [|done..]. injection Ha as <- <-.
    split_and!; [done..|]. intros i E. destruct (Hi i E) as [_ E']. injection E' as <-.
    by exists o2, i2.
Qed.

(** The screen's text that [adb] gives at a moment of the outside, and the focus in it. *)
Definition screen_text (fl : Flags) (h : H) : str :=
  if no_adb fl then []
  else match (run_adb (adb_args fl [ascii_bytes "shell"; DUMPSYS]) h).1 with
       | Exited true stdout _ => Kvs.trim (from_utf8_lossy stdout)
       | _ => []
       end.
Definition focus_on_screen (fl : Flags) (h : H) : option str := parse_focused_app (screen_text fl h).

Lemma dumpsys_run fl d s :
  ∃ h, alone (dumpsys fl) (d, s) =
    (Ok (focus_on_screen fl (outside d), screen_text fl (outside d)), (set_outside h d, s)).
Proof.
  unfold dumpsys, adb_shell, focus_on_screen, screen_text. destruct (no_adb fl).
  - exists (outside d). by rewrite set_outside_same.
  - eexists. erewrite alone_ok; [|erewrite alone_ok by apply ask_run; reflexivity].
    by destruct (run_adb _ (outside d)).1 as [e|[] out err].
Qed.

(** The memory after a success that leaves the outside at [h]. *)
Definition learned_at (fl : Flags) (a : Action) (h : H) (m : Memory) : Memory :=
  match focus_on_screen fl h with
  | Some focus => record_success (from_focus blake3 focus) a m
  | None => m
  end.

Lemma remember_run fl a r d s u d' s' :
  alone (remember blake3 fl a r) (d, s) = (Ok u, (d', s')) →
  obs_seq d' = obs_seq d ∧ sh_stream d' = sh_stream d ∧ raw_injector d' = raw_injector d ∧
  sh_state d' = record_action_result (ar_id r) r (sh_state d) ∧
  sh_memory d' = learned_at fl a (outside d) (sh_memory d).
Proof.
  unfold remember, learned_at. intros Hrun. destruct (dumpsys_run fl d s) as (h & Ed).
  rewrite (alone_ok _ _ _ _ _ Ed) in Hrun. destruct (focus_on_screen fl (outside d)) as [focus|];
    cbn in Hrun; by injection Hrun as <- <- <-.
Qed.

(** While the database works, what the daemon does on a success is [learn]. *)
Lemma memory_success_learns sid a d conn p m h :
  sqlite d = Some conn → sqlite_path d = Some p → learn conn sid a (sh_memory d) (outside d) = (Ok m, h) →
  memory_success sid a d = (Ok tt, set_outside h (set_memory m d)).
Proof.
  intros Hc Hp. unfold memory_success, learn. rewrite Hc, Hp.
  destruct (peek sid (record_success sid a (sh_memory d))) as [e|]; [|by intros [= <- <-]].
  intros Hl. apply bind_ok_inv in Hl as (u & h' & E & [= <- <-]). by rewrite E.
Qed.

(** C17: what executing an action leaves behind, when no other connection interferes.
    Every action takes the next sequence number
    as its id.  One that goes over the bridge is applied by the injector, which is kept from
    the first one on; it is never remembered, and has an error code exactly when it does not
    land.  Any other lands exactly when its arm says so, and is remembered exactly when it
    lands: in the state model, and in the memory under the screen that [adb] shows in focus
    when the arm is done (if it shows one, else not in the memory); it never has a code. *)
Theorem execute_action_leaves (fuel : nat) (fl : Flags) (a : Action) (d d' : D) (s s' : S) (r : ActionResult)
    (Hrun : alone (execute_action fuel fl a) (d, s) = (Ok r, (d', s'))) :
  ar_id r = wrap 64 (obs_seq d + 1) ∧ obs_seq d' = ar_id r ∧ sh_stream d' = sh_stream d ∧
  if uses_scrcpy_bridge a then
    sh_state d' = sh_state d ∧ sh_memory d' = sh_memory d ∧
    is_structured_failure r = negb (ar_landed r) ∧
    ∀ i, raw_injector d = Some i → ∃ o i',
      apply_action took debug_char a i = (Ok o, i') ∧ raw_injector d' = Some i' ∧ ar_landed r = bo_landed o
  else
    is_structured_failure r = false ∧ raw_injector d' = raw_injector d ∧
    sh_state d' = (if ar_landed r then record_action_result (ar_id r) r (sh_state d) else sh_state d) ∧
    let started := set_seq (ar_id r) (set_outside (instant_now (outside d)).2 d) in
    ∃ landing h,
      alone (shell_arm fuel fl a) (started, s) = (Ok landing, (set_outside h started, s)) ∧
      ar_landed r = from_option fst false landing ∧
      sh_memory d' = (if ar_landed r then learned_at fl a (instant_now h).2 (sh_memory d) else sh_memory d).
Proof.
  unfold AdkDaemon.execute_action in Hrun. rewrite (alone_ok _ _ _ _ _ (ask_run instant_now d s)) in Hrun.
  apply alone_ok_inv in Hrun as (n & [d1 s1] & E1 & Hrun). rewrite alone_atomically in E1. cbn in E1.
  injection E1 as Hn Hd <-. set (h0 := (instant_now (outside d)).2) in *. subst d1. rewrite Hn in Hrun |- *.
  set (d1 := set_seq n (set_outside h0 d)) in *.
  destruct (uses_scrcpy_bridge a) eqn:Ha.
  - apply alone_ok_inv in Hrun as (o & [d2 s2] & Hb & [= <- <- <-]). rewrite alone_atomically in Hb.
    injection Hb as Ho Hd2 _. destruct (raw_bridge_run fl a n d1 o d2) as ((Hs & Hst & Hm & Hq) & Hid & Hinj).
    { rewrite <-Ho, <-Hd2. apply surjective_pairing. }
    assert (ar_id (action_result_from_bridge o) = n) as -> by exact Hid.
    split_and!; [done|exact Hq|exact Hst|exact Hs|exact Hm| |exact Hinj].
    unfold is_structured_failure, action_result_from_bridge. cbn. by destruct (bo_landed o).
  - destruct (shell_arm_outer fuel fl a d1 s Ha) as (h & [E|(arm & E)]);
      [by rewrite (alone_err _ _ _ _ _ E) in Hrun|rewrite (alone_ok _ _ _ _ _ E) in Hrun].
    rewrite (alone_ok _ _ _ _ _ (elapsed_since_run _ _ _)) in Hrun. destruct arm as [[[] gt]|].
    + apply alone_ok_inv in Hrun as (u & [d2 s2] & Hrem & [= <- <- <-]).
      apply remember_run in Hrem as (Hq & Hst & Hi & Hs & Hm).
      split_and!; [done..|]. exists (Some (true, gt)), h. by split_and!.
    + injection Hrun as <- <- <-. split_and!; [done..|]. exists (Some (false, gt)), h. by split_and!.
    + injection Hrun as <- <- <-. split_and!; [done..|]. exists None, h. by split_and!.
Qed.
End Service.

Definition first_result : ActionResult := plain_result 1 true GroundTruth_default 0.

Lemma execute_action_leaves_witness :
  let a := Act_GetUiRepr None 50 in
  let nothing : bytes * bytes := ([], []) in
  let run := alone (execute_action nobody to_log (λ _, 0) (λ _, ""%string) (λ b, b) 1 plain_flags a)
    (fresh_daemon, nothing) in
  run.1 = Ok first_result ∧ sh_state run.2.1 = record_action_result 1 first_result StateModel_new.
Proof.
  intros a nothing run.
  assert (run.1 = Ok first_result) as E1 by (vm_compute; reflexivity).
  assert (run = (Ok first_result, (run.2.1, run.2.2))) as E
    by (rewrite <-E1, <-surjective_pairing; apply surjective_pairing).
  destruct (execute_action_leaves nobody to_log (λ _, 0) (λ _, ""%string) (λ b, b) 1 plain_flags a
    fresh_daemon run.2.1 nothing run.2.2 first_result E) as (_ & _ & _ & _ & _ & Hs & _).
  split; [exact E1|exact Hs].
Defined.
