(* ===== verification/AdkReplies.v ===== *)
(** * What the daemon answers

    However the accesses of its connections interleave, a connection is answered as its
    request asks, and the numbers of observations and actions are each given out once.  A
    connection's ghost is the list of the numbers it was given, the pool's is how many were. *)

From Stdlib Require Import Sorted.
From stdpp Require Import gmap.
From S2P Require Import Prelude Words Io Frame.
From S2P Require Import Errors Types Utf8 Format Float32 Message Transport Coalesce Sink Session.
From S2P Require Import KernelTypes Bounded StreamEngine Memory MemoryStore StateModel SessionState KernelFrame Bridge AdkText Threads AdkDaemon AdkRequest AdkWorld AdkService.
Local Open Scope Z_scope.

(** ** The run of a plan, as a host sees it *)

(** The record of step [i] of a plan. *)
Record records (i : nat) (step : PlanStep) (r : StepResult) : Prop := {
  rec_id : sr_step_id r = step_id step;
  rec_index : sr_index r = wrap 32 (Z.of_nat i);
  rec_error : sr_landed r = true ↔ sr_error r = None;
  rec_landed : sr_landed r = true → ar_landed (sr_action_result r) = true;
  rec_unverified : verify_after step = None → sr_landed r = ar_landed (sr_action_result r) }.

(** Was the run cut off by a step that did not land? *)
Definition aborted (plan : Plan) (rs : list StepResult) : bool :=
  abort_on_error plan && negb (forallb sr_landed rs).

(** The records [rs] of the steps [ss], of which the first is number [i]. *)
Definition plan_ran (plan : Plan) (i : nat) (ss : list PlanStep) (rs : list StepResult) : Prop :=
  (∀ k r, rs !! k = Some r → ∃ step, ss !! k = Some step ∧ records (i + k) step r) ∧
  if aborted plan rs
  then ∃ l r, rs = l ++ [r] ∧ forallb sr_landed l = true ∧ sr_landed r = false
  else length rs = length ss.

(** The numbers of records after which a checkpoint is due; none behind the step that
    aborts. *)
Definition checkpoints_due (plan : Plan) (first : nat) (rs : list StepResult) : list nat :=
  List.filter (checkpoint_due (checkpoint_every plan))
    (List.seq first (if aborted plan rs then pred (length rs) else length rs)).

Lemma plan_ran_nil plan i : plan_ran plan i [] [].
Proof. split; [done|]. unfold aborted. cbn. by rewrite andb_false_r. Qed.

Lemma plan_ran_abort plan i step ss r :
  abort_on_error plan = true → sr_landed r = false → records i step r → plan_ran plan i (step :: ss) [r].
Proof.
  intros Ha Hl Hr. split.
  - intros [|k] r'; cbn; [|done]. intros [= <-]. exists step. by rewrite Nat.add_0_r.
  - unfold aborted. cbn. rewrite Ha, Hl. by exists [], r.
Qed.

Lemma aborted_cons plan r rs :
  negb (sr_landed r) && abort_on_error plan = false → aborted plan (r :: rs) = aborted plan rs.
Proof. unfold aborted. cbn. by destruct (sr_landed r), (abort_on_error plan). Qed.

Lemma plan_ran_cons plan i step ss r rs :
  negb (sr_landed r) && abort_on_error plan = false → records i step r →
  plan_ran plan (S i) ss rs → plan_ran plan i (step :: ss) (r :: rs).
Proof.
  intros Hgo Hr [Hrs Hend]. split.
  - intros [|k] r'; cbn; [intros [= <-]; exists step; by rewrite Nat.add_0_r|].
    intros E. destruct (Hrs k r' E) as (step' & Es & Hr'). exists step'. split; [done|].
    by rewrite Nat.add_succ_r.
  - rewrite aborted_cons by done. destruct (aborted plan rs) eqn:Ea; [|cbn; by rewrite Hend].
    destruct Hend as (l & r' & -> & Hl & Hr'). exists (r :: l), r'. split; [done|]. split; [|done].
    cbn. rewrite Hl, andb_true_r. unfold aborted in Ea. apply andb_true_iff in Ea as [Ea _].
    rewrite Ea, andb_true_r in Hgo. by apply negb_false_iff in Hgo.
Qed.

Lemma checkpoints_cons plan n r rs :
  negb (sr_landed r) && abort_on_error plan = false →
  (aborted plan rs = true → rs ≠ []) →
  checkpoints_due plan n (r :: rs) =
  (if checkpoint_due (checkpoint_every plan) n then [n] else []) ++ checkpoints_due plan (S n) rs.
Proof.
  intros Hgo Hne. unfold checkpoints_due. rewrite aborted_cons by done.
  destruct (aborted plan rs).
  - destruct rs as [|r' rs]; [by destruct Hne|]. cbn [length pred List.seq List.filter].
    by destruct (checkpoint_due _ n).
  - cbn [length List.seq List.filter]. by destruct (checkpoint_due _ n).
Qed.

(** ** Numbers *)

Definition inv_seq {H W C} (n : Z) (d : SharedState H W C) : Prop := obs_seq d = wrap 64 n.
Definition up_to (g : list Z) (n : Z) : Prop := Forall (λ m, m ≤ n) g.
Definition takes_number (g : list Z) (n : Z) (g' : list Z) (n' : Z) : Prop :=
  g' = g ∧ n' = n ∨ n' = n + 1 ∧ g' = g ++ [n'].
Definition any_failure (e : Ended) : Prop := True.

(** Every number was given to one connection, in order. *)
Definition given_once (gs : list (list Z)) (n : Z) : Prop :=
  0 ≤ n ∧ concat gs ≡ₚ seqZ 1 n ∧ Forall (StronglySorted Z.lt) gs.

Lemma StronglySorted_snoc (l : list Z) x :
  StronglySorted Z.lt l → Forall (λ y, y < x) l → StronglySorted Z.lt (l ++ [x]).
Proof.
  induction 1 as [|y l Hs IH Hy]; cbn; [by repeat constructor|]. intros [Hx Hl]%Forall_cons.
  constructor; [by apply IH|]. apply Forall_app. by split; [|constructor].
Qed.

Lemma up_to_moves g n g' n' : up_to g n → takes_number g n g' n' → up_to g' n'.
Proof.
  intros Hg [[-> ->]|[-> ->]]; [done|]. apply Forall_app. split; [|by repeat constructor].
  eapply Forall_impl; [exact Hg|]. cbn. lia.
Qed.

Lemma up_to_others g n g' n' h : takes_number g n g' n' → up_to h n → up_to h n'.
Proof. intros [[-> ->]|[-> _]] Hh; [done|]. eapply Forall_impl; [exact Hh|]. cbn. lia. Qed.

Lemma given_once_moves gs i g n g' n' :
  given_once gs n → gs !! i = Some g → takes_number g n g' n' → given_once (<[i := g']> gs) n'.
Proof.
  intros (Hn & Hp & Hs) Hi [[-> ->]|[-> ->]]; [by rewrite list_insert_id|].
  assert (gs = take i gs ++ g :: drop (Datatypes.S i) gs) as E by by rewrite take_drop_middle.
  assert (Forall (λ m, m < n + 1) g) as Hg.
  { apply Forall_forall. intros m Hm. assert (m ∈ seqZ 1 n) as Hin.
    { rewrite <-Hp. apply list_elem_of_In, in_concat. exists g. split; [|by apply list_elem_of_In].
      apply list_elem_of_In. by eapply list_elem_of_lookup_2. }
    apply elem_of_seqZ in Hin. lia. }
  split; [lia|]. split.
  - rewrite (insert_take_drop gs i (g ++ [n + 1])) by by eapply lookup_lt_Some.
    rewrite seqZ_app, <-Hp by lia. rewrite E at 3. rewrite !concat_app. cbn [concat].
    replace (1 + n) with (n + 1) by lia. cbn. rewrite <-!(assoc_L (++)). do 2 f_equiv.
    apply Permutation_app_comm.
  - apply Forall_insert; [done|]. apply StronglySorted_snoc; [by eapply Forall_lookup_1 in Hs|done].
Qed.

Section Replies.
Context {H : Type} `{!Host H, !Sqlite H, pc : Postcard}.
Context {T W : Type} `{!Read T, !MessageSink W}.
Context (open_tcp : str → Z → H → (T + IoError) * H) (session_over : T → OpenRequest → W).
Context (took : ActionId → Z) (debug_char : Z → string) (blake3 : bytes → bytes).
Context (request_from : bytes → option RequestPayload) (postcard_error : bytes → string)
  (reply_bytes : ReplyPayload → bytes).
Context {S : Type} `{!Read S, !LawfulRead S, !Write S, !LawfulWrite S, !Socket S, !LawfulSocket S}.
Abbreviation D := (SharedState H W (Conn H)).
Abbreviation P := (prog (D := D) (S := S) (E := Ended)).
Abbreviation reply r := (frame_reply reply_bytes r) (only parsing).
Implicit Types (d : D) (s : S) (g : list Z).

Abbreviation numbered := (safe (D := D) (S := S) inv_seq up_to takes_number any_failure).

(** ** Rules *)

(** [p] takes no number and leaves the socket alone. *)
Definition quiet {A} (p : P A) : Prop :=
  ∀ (Q : A → list Z → S → Prop) g s, (∀ a, Q a g s) → numbered p Q g s.

Lemma quiet_ret {A} (a : A) : quiet (mret a).
Proof. intros Q g s HQ. apply HQ. Qed.

Lemma quiet_bind {A B} (p : P A) (k : A → P B) : quiet p → (∀ a, quiet (k a)) → quiet (p ≫= k).
Proof. intros Hp Hk Q g s HQ. apply safe_bind, Hp. intros a. by apply Hk. Qed.

Lemma quiet_atomically {A} (c : cmd D Ended A) : (∀ d, obs_seq (c d).2 = obs_seq d) → quiet (atomically c).
Proof.
  intros Hc Q g s HQ d n Hi Hk. specialize (Hc d). destruct (c d) as [[a|e|] d']; cbn in Hc; [| |done].
  - exists g, n. split_and!; [by unfold inv_seq; rewrite Hc|by left|apply HQ].
  - split; [done|]. exists n. split; [by unfold inv_seq; rewrite Hc|by left].
Qed.

Lemma quiet_ask {A} (f : H → A * H) : quiet (ask f).
Proof. apply quiet_atomically. intros d. unfold on_outside. by destruct (f (outside d)). Qed.

Lemma quiet_then {A B} (p : P A) (k : A → P B) Q g s :
  quiet p → (∀ a, numbered (k a) Q g s) → numbered (p ≫= k) Q g s.
Proof. intros Hp Hk. by apply safe_bind, Hp. Qed.

Lemma next_number_rule (Q : Z → list Z → S → Prop) g s :
  (∀ n, Q (wrap 64 n) (g ++ [n]) s) → numbered (atomically next_obs_seq) Q g s.
Proof.
  intros HQ d n Hi Hk. cbn. exists (g ++ [n + 1]), (n + 1). unfold inv_seq in Hi.
  assert (wrap 64 (obs_seq d + 1) = wrap 64 (n + 1)) as -> by (by rewrite Hi, wrap_add).
  split_and!; [done|by right|apply HQ].
Qed.

(** What a thread has written since [s]. *)
Definition wrote (fs : list KernelFrame.Frame) s s' : Prop := put s' = put s ++ concat (frame_encode <$> fs).

Lemma wrote_nil s s' : put s' = put s → wrote [] s s'.
Proof. unfold wrote. cbn. by rewrite app_nil_r. Qed.

Lemma wrote_app fs gs s s' s'' : wrote fs s s' → wrote gs s' s'' → wrote (fs ++ gs) s s''.
Proof. unfold wrote. intros H1 H2. by rewrite H2, H1, fmap_app, concat_app, (assoc_L (++)). Qed.

Lemma write_rule f (Q : unit → list Z → S → Prop) g s :
  (∀ s', wrote [f] s s' → Q tt g s') → numbered (on_sock (write_frame f)) Q g s.
Proof.
  intros HQ. unfold on_sock, own. cbn [safe]. unfold map_err, catch, write_frame, mbind, cmd_bind.
  destruct (io_write_all (frame_encode f) s) as [[[]|e|] s1] eqn:E1; [|done..].
  pose proof (flush_keeps_put s1) as Hf. destruct (sock_flush s1) as [[[]|e|] s2]; [|done..].
  apply HQ. apply io_write_all_ok in E1. unfold wrote. cbn in *. by rewrite Hf, E1, app_nil_r.
Qed.

(** ** Actions and observations *)

Lemma quiet_adb_shell fl command : quiet (adb_shell fl command).
Proof.
  unfold adb_shell. destruct (no_adb fl); [apply quiet_ret|]. apply quiet_bind; [apply quiet_ask|].
  intros r. apply quiet_ret.
Qed.

Lemma quiet_adb_screencap fl : quiet (adb_screencap fl).
Proof.
  unfold adb_screencap. destruct (no_adb fl); [apply quiet_ret|]. apply quiet_bind; [apply quiet_ask|].
  intros r. apply quiet_ret.
Qed.

Lemma quiet_dumpsys fl : quiet (dumpsys fl).
Proof. apply quiet_bind; [apply quiet_adb_shell|]. intros r. apply quiet_ret. Qed.

Lemma quiet_elapsed t : quiet (elapsed_since t).
Proof. apply quiet_bind; [apply quiet_ask|]. intros now. apply quiet_ret. Qed.

Lemma quiet_uptime : quiet uptime_ms.
Proof.
  apply quiet_bind; [apply quiet_ask|]. intros now. apply quiet_bind; [by apply quiet_atomically|].
  intros t. apply quiet_ret.
Qed.

Lemma quiet_wait_until fuel fl p cap ms : quiet (wait_until fuel fl p cap ms).
Proof.
  apply quiet_bind; [apply quiet_ask|]. intros t0. generalize (Z.min (predicate_timeout_ms p) cap). intros cap'.
  induction fuel as [|fuel IH]; cbn [poll_until]; [by apply quiet_atomically|].
  apply quiet_bind; [apply quiet_elapsed|]. intros e. destruct (e <? cap'); [|apply quiet_ret].
  apply quiet_bind; [apply quiet_dumpsys|]. intros r. destruct (check_predicate p r.1 r.2); [apply quiet_ret|].
  apply quiet_bind; [apply quiet_ask|]. done.
Qed.

Lemma quiet_by_shell fl command gt : quiet (by_shell fl command gt).
Proof. apply quiet_bind; [apply quiet_adb_shell|]. intros r. apply quiet_ret. Qed.

Lemma quiet_shell_arm fuel fl a : quiet (shell_arm fuel fl a).
Proof.
  destruct a; cbn [shell_arm]; try apply quiet_ret; try apply quiet_by_shell; try by apply quiet_atomically.
  - destruct (forallb _ _); [apply quiet_by_shell|apply quiet_ret].
  - apply quiet_bind; [apply quiet_wait_until|]. intros b. apply quiet_ret.
Qed.

Lemma quiet_remember fl a r : quiet (remember blake3 fl a r).
Proof.
  apply quiet_bind; [apply quiet_dumpsys|]. intros [[focus|] out]; (apply quiet_bind; [|by intros; apply quiet_atomically]).
  - by apply quiet_atomically.
  - apply quiet_ret.
Qed.

Definition same_seq d d' : Prop := obs_seq d' = obs_seq d.
#[local] Instance same_seq_pre : PreOrder same_seq.
Proof. split; [done|]. unfold same_seq. intros d1 d2 d3. congruence. Qed.

Lemma on_outside_stable {A} (f : H → A * H) : stable same_seq (on_outside f).
Proof. intros d. unfold on_outside. by destruct (f (outside d)). Qed.

Lemma raw_bridge_stable fl a id :
  stable same_seq (execute_raw_bridge_action open_tcp session_over took debug_char fl a id).
Proof.
  apply stable_bind; [apply _| |intros [reason|]; [apply stable_ret, _|]; apply stable_bind; [apply _| |intros o; apply stable_ret, _]].
  - apply stable_bind; [apply _|apply stable_read, _|]. intros [i|]; [apply stable_ret, _|].
    destruct (no_adb fl); [apply stable_ret, _|]. apply stable_bind; [apply _|apply on_outside_stable|].
    intros [stream|e]; [|apply stable_ret, _].
    destruct (Device.read_scrcpy_control_prefix stream) as [[pre|e|] st]; [|done..].
    by destruct (injector_open _ _) as [[u|e|] i].
  - intros d. unfold injector_apply. destruct (raw_injector d) as [i|]; [|done].
    by destruct (apply_action took debug_char a i) as [[o|e|] i'].
Qed.

Lemma execute_action_rule fuel fl a (Q : ActionResult → list Z → S → Prop) g s :
  (∀ r n, ar_id r = wrap 64 n → Q r (g ++ [n]) s) →
  numbered (execute_action open_tcp session_over took debug_char blake3 fuel fl a) Q g s.
Proof.
  intros HQ. apply quiet_then; [apply quiet_ask|]. intros start.
  apply safe_bind, next_number_rule. intros n. destruct (uses_scrcpy_bridge a).
  - intros d m Hi Hk. pose proof (raw_bridge_stable fl a (wrap 64 n) d) as Hs. unfold same_seq in Hs.
    destruct (execute_raw_bridge_action _ _ _ _ fl a (wrap 64 n) d) as [[o|e|] d'] eqn:Eo; [| |done]; cbn in Hs.
    + exists (g ++ [n]), m. split_and!; [by unfold inv_seq; rewrite Hs|by left|]. apply HQ. cbn.
      by apply raw_bridge_run in Eo as (_ & -> & _).
    + split; [done|]. exists m. split; [by unfold inv_seq; rewrite Hs|by left].
  - apply quiet_then; [apply quiet_shell_arm|]. intros arm. apply quiet_then; [apply quiet_elapsed|]. intros e.
    destruct arm as [[landed gt]|]; [|by apply HQ].
    apply quiet_then; [destruct landed; [apply quiet_remember|apply quiet_ret]|]. intros u. by apply HQ.
Qed.

Lemma build_observation_rule fl (Q : Observation → list Z → S → Prop) g s :
  (∀ obs n, seq obs = wrap 64 n → Q obs (g ++ [n]) s) → numbered (build_observation fl) Q g s.
Proof.
  intros HQ. apply safe_bind, next_number_rule. intros n.
  apply quiet_then; [apply quiet_dumpsys|]. intros out. apply quiet_then; [apply quiet_adb_screencap|]. intros cap.
  do 3 (apply quiet_then; [apply quiet_uptime|]; intros ?).
  apply quiet_then; [by apply quiet_atomically|]. intros u. by apply HQ.
Qed.

(** ** Plans *)

Lemma perform_step_rule fuel fl i step (Q : StepResult → list Z → S → Prop) g s :
  (∀ r n, records i step r → ar_id (sr_action_result r) = wrap 64 n → Q r (g ++ [n]) s) →
  numbered (perform_step open_tcp session_over took debug_char blake3 fuel fl (wrap 32 (Z.of_nat i)) step) Q g s.
Proof.
  intros HQ. apply quiet_then.
  { unfold before_step. destruct (wait_before step); [|apply quiet_ret].
    apply quiet_bind; [apply quiet_wait_until|]. intros b. apply quiet_ret. }
  intros u. apply safe_bind, execute_action_rule. intros ar n Hn.
  assert (∀ ok, (verify_after step = None → ok = true) → records i step (step_record (wrap 32 (Z.of_nat i)) step ar ok)) as Hrec.
  { intros ok Hok. unfold step_record. split; cbn; [done|done|..].
    - by destruct (ar_landed ar), ok.
    - by destruct (ar_landed ar).
    - intros E. rewrite (Hok E). apply andb_true_r. }
  unfold verified. destruct (verify_after step) as [p|]; apply safe_bind.
  - apply quiet_bind; [apply quiet_dumpsys|intros out; apply quiet_ret|]. intros ok. by apply HQ; [apply Hrec|].
  - by apply HQ; [apply Hrec|].
Qed.

(** The numbers of a plan: an id for each step, and one for each observation, in order. *)
Record plan_numbers (ids seqs g : list Z) : Prop := {
  pn_all : wrap 64 <$> g ≡ₚ ids ++ seqs;
  pn_ids : sublist ids (wrap 64 <$> g);
  pn_seqs : sublist seqs (wrap 64 <$> g) }.

Lemma plan_numbers_app ids seqs g ids' seqs' g' :
  plan_numbers ids seqs g → plan_numbers ids' seqs' g' → plan_numbers (ids ++ ids') (seqs ++ seqs') (g ++ g').
Proof.
  intros [Ha Hi Hs] [Ha' Hi' Hs']. split; rewrite fmap_app; [|by apply sublist_app..].
  rewrite Ha, Ha'. rewrite <-!(assoc_L (++)). f_equiv. rewrite !(assoc_L (++)). f_equiv. apply Permutation_app_comm.
Qed.

Lemma plan_numbers_id n : plan_numbers [wrap 64 n] [] [n].
Proof. split; cbn; [done|done|apply sublist_nil_l]. Qed.
Lemma plan_numbers_seq n : plan_numbers [] [wrap 64 n] [n].
Proof. split; cbn; [done|apply sublist_nil_l|done]. Qed.
Lemma plan_numbers_nil : plan_numbers [] [] [].
Proof. by split. Qed.

(** What running some steps has done to a thread. *)
Definition ran (ids seqs : list Z) (fs : list KernelFrame.Frame) (g : list Z) s (g' : list Z) s' : Prop :=
  ∃ new, g' = g ++ new ∧ plan_numbers ids seqs new ∧ wrote fs s s'.

Lemma ran_trans ids seqs fs ids' seqs' fs' g s g' s' g'' s'' :
  ran ids seqs fs g s g' s' → ran ids' seqs' fs' g' s' g'' s'' →
  ran (ids ++ ids') (seqs ++ seqs') (fs ++ fs') g s g'' s''.
Proof.
  intros (n1 & -> & Hn1 & Hw1) (n2 & -> & Hn2 & Hw2). exists (n1 ++ n2).
  split_and!; [by rewrite (assoc_L (++))|by apply plan_numbers_app|by eapply wrote_app].
Qed.

Lemma emit_checkpoint_rule fl every k (Q : unit → list Z → S → Prop) g s :
  (∀ (cps : list Observation) g' s', ran [] (seq <$> cps) (checkpoint_frame reply_bytes <$> cps) g s g' s' →
     length cps = length (if checkpoint_due every k then [k] else []) → Q tt g' s') →
  numbered (emit_checkpoint reply_bytes fl every k) Q g s.
Proof.
  intros HQ. unfold emit_checkpoint. destruct (checkpoint_due every k).
  - apply safe_bind, build_observation_rule. intros obs n Hn. apply write_rule. intros s' Hw.
    apply (HQ [obs]); [|done]. exists [n]. split_and!; [done| |done]. cbn. rewrite Hn. apply plan_numbers_seq.
  - apply (HQ []); [|done]. exists []. rewrite app_nil_r. split_and!; [done|apply plan_numbers_nil|by apply wrote_nil].
Qed.

Abbreviation result_ids rs := ((λ r, ar_id (sr_action_result r)) <$> rs) (only parsing).

Lemma plan_steps_rule fuel fl plan i ss done all (Q : list StepResult * bool → list Z → S → Prop) g s :
  (∀ new (cps : list Observation) g' s', plan_ran plan i ss new →
     ran (result_ids new) (seq <$> cps) (checkpoint_frame reply_bytes <$> cps) g s g' s' →
     length cps = length (checkpoints_due plan (Datatypes.S (length done)) new) →
     Q (done ++ new, all && forallb sr_landed new) g' s') →
  numbered (plan_steps open_tcp session_over took debug_char blake3 reply_bytes fuel fl plan i ss done all) Q g s.
Proof.
  revert i done all g s Q. induction ss as [|step ss IH]; intros i done all g s Q HQ; cbn [plan_steps].
  { specialize (HQ [] [] g s). rewrite app_nil_r, andb_true_r in HQ. apply HQ; [apply plan_ran_nil| |].
    - exists []. rewrite app_nil_r. split_and!; [done|apply plan_numbers_nil|by apply wrote_nil].
    - unfold checkpoints_due. by destruct (aborted plan []). }
  apply safe_bind, perform_step_rule. intros r n Hr Hn.
  assert (ran [ar_id (sr_action_result r)] [] [] g s (g ++ [n]) s) as Hran1.
  { exists [n]. rewrite Hn. split_and!; [done|apply plan_numbers_id|by apply wrote_nil]. }
  destruct (negb (sr_landed r) && abort_on_error plan) eqn:Hgo.
  - apply andb_true_iff in Hgo as [Hl%negb_true_iff Ha]. specialize (HQ [r] [] (g ++ [n]) s).
    cbn [forallb] in HQ. rewrite Hl, andb_false_r in HQ. apply HQ; [by apply plan_ran_abort|done|].
    unfold checkpoints_due, aborted. cbn. by rewrite Ha, Hl.
  - apply safe_bind, emit_checkpoint_rule. intros cps g2 s2 Hran2 Hlen2. apply IH.
    intros new cps' g3 s3 Hplan Hran3 Hlen3.
    specialize (HQ (r :: new) (cps ++ cps') g3 s3). cbn [forallb] in HQ.
    rewrite <-(assoc_L (++)), <-andb_assoc. apply HQ; [by apply plan_ran_cons|..].
    + rewrite !fmap_app. apply (ran_trans [_] [] [] _ _ _ _ _ _ _ _ _ Hran1 (ran_trans [] _ _ _ _ _ _ _ _ _ _ _ Hran2 Hran3)).
    + rewrite !length_app in *. cbn [length] in *. rewrite Nat.add_1_r in Hlen2, Hlen3.
      rewrite checkpoints_cons, length_app; [by rewrite Hlen2, Hlen3|done|].
      intros Ea. destruct Hplan as [_ Hend]. rewrite Ea in Hend. destruct Hend as (l & r' & -> & _). by destruct l.
Qed.

(** ** The connection *)

(** What answers each request, with the numbers the connection is given. *)
Inductive answers : RequestPayload → list KernelFrame.Frame → list Z → Prop :=
  | ans_action id a r n : ar_id r = wrap 64 n → answers (Rq_Action id a) [reply (Re_Action r)] [n]
  | ans_plan id plan rs (cps : list Observation) final e g :
      plan_ran plan 0 (steps plan) rs → length cps = length (checkpoints_due plan 1 rs) →
      plan_numbers (result_ids rs) (seq <$> cps ++ [final]) g →
      answers (Rq_Plan id plan)
        ((checkpoint_frame reply_bytes <$> cps) ++
         [reply (Re_Plan (mkPlanResult id rs final e (forallb sr_landed rs)))]) g
  | ans_query wa wf ws obs n :
      seq obs = wrap 64 n → answers (Rq_Query wa wf ws) [reply (Re_Query (query_reply wa wf ws obs))] [n]
  | ans_observe since filter o1 o2 n1 n2 :
      seq o1 = wrap 64 n1 → seq o2 = wrap 64 n2 →
      answers (Rq_Observe since filter)
        [reply (Re_Observation o1); reply (Re_Observation o2); reply (Re_EndOfStream (seq o2))] [n1; n2]
  | ans_end n : answers Rq_EndOfStream [reply (Re_EndOfStream (wrap 64 (wrap 64 n - 1)))] [n].

(** A connection that began on [s0] has been answered. *)
Definition answered (s0 : S) (g : list Z) s : Prop :=
  ∃ q s1 fs, read_request request_from postcard_error s0 = (Ok q, s1) ∧ answers q fs g ∧
    put s = put s0 ++ concat (frame_encode <$> fs).

Lemma read_len_put room l (s : S) : put (read_len room l s).2 = put s.
Proof.
  revert l s. induction room as [|room IH]; intros l s; [done|]. cbn [read_len].
  unfold mbind, cmd_bind. pose proof (read_keeps_put 1 s) as Hp.
  destruct (read_exact 1 s) as [[one|e|] s1]; [|done..]. cbn [snd] in Hp. rewrite <-Hp.
  destruct (decode_varint (l ++ one)) as [[n h]|]; [done|]. destruct (10 <=? _)%nat; [done|]. apply IH.
Qed.

Lemma read_request_put (s : S) : put (read_request request_from postcard_error s).2 = put s.
Proof.
  unfold read_request. unfold mbind at 1, cmd_bind at 1. pose proof (read_keeps_put 2 s) as Hp.
  destruct (read_exact 2 s) as [[hd|e|] s1]; [|done..]. cbn [snd] in Hp. rewrite <-Hp.
  destruct (verb_from_byte (nth 0 hd 0)) as [v|]; [|done].
  unfold mbind at 1, cmd_bind at 1. pose proof (read_len_put 10 [] s1) as Hl.
  destruct (read_len 10 [] s1) as [[n|e|] s2]; [|done..]. cbn [snd] in Hl. rewrite <-Hl.
  destruct (2 ^ 63 <=? n); [done|].
  unfold mbind at 1, cmd_bind at 1. pose proof (read_keeps_put (Z.to_nat n) s2) as Hn.
  destruct (read_exact (Z.to_nat n) s2) as [[b|e|] s3]; [|done..]. cbn [snd] in Hn. rewrite <-Hn.
  by destruct (decode_request request_from _).
Qed.

Lemma handle_action_rule fuel fl id a g s :
  numbered (handle_action open_tcp session_over took debug_char blake3 reply_bytes fuel fl a)
    (λ _ g' s', ∃ fs new, g' = g ++ new ∧ answers (Rq_Action id a) fs new ∧ wrote fs s s') g s.
Proof.
  apply safe_bind, execute_action_rule. intros r n Hn. apply quiet_then.
  { destruct a; try apply quiet_ret. apply quiet_bind; [apply quiet_dumpsys|]. intros out. apply quiet_ret. }
  intros u. apply write_rule. intros s' Hw. eexists _, [n]. by split_and!; [|constructor|].
Qed.

Lemma handle_plan_rule fuel fl id plan g s :
  numbered (handle_plan open_tcp session_over took debug_char blake3 reply_bytes fuel fl id plan)
    (λ _ g' s', ∃ fs new, g' = g ++ new ∧ answers (Rq_Plan id plan) fs new ∧ wrote fs s s') g s.
Proof.
  apply quiet_then; [apply quiet_ask|]. intros start. apply safe_bind, plan_steps_rule.
  intros rs cps g1 s1 Hplan (new & -> & Hnum & Hw1) Hlen. cbn [app length andb] in *.
  apply quiet_then; [apply quiet_elapsed|]. intros e. apply safe_bind, build_observation_rule. intros obs n Hn.
  apply write_rule. intros s2 Hw2. eexists _, (new ++ [n]). split_and!; [by rewrite (assoc_L (++))| |by eapply wrote_app].
  constructor; [done|done|]. rewrite fmap_app. cbn. rewrite Hn.
  pose proof (plan_numbers_app _ _ _ _ _ _ Hnum (plan_numbers_seq n)) as Hall. by rewrite app_nil_r in Hall.
Qed.

Lemma handle_observe_rule fl since filter g s :
  numbered (handle_observe reply_bytes fl since filter)
    (λ _ g' s', ∃ fs new, g' = g ++ new ∧ answers (Rq_Observe since filter) fs new ∧ wrote fs s s') g s.
Proof.
  apply quiet_then; [by apply quiet_atomically|]. intros u1. apply safe_bind, build_observation_rule. intros o1 n1 H1.
  apply safe_bind, write_rule. intros s1 Hw1. apply quiet_then; [apply quiet_ask|]. intros u2.
  apply safe_bind, build_observation_rule. intros o2 n2 H2. apply safe_bind, write_rule. intros s2 Hw2.
  apply write_rule. intros s3 Hw3. eexists _, [n1; n2]. split_and!; [by rewrite <-(assoc_L (++))|by constructor|].
  apply (wrote_app [_] _ _ s1); [done|]. by apply (wrote_app [_] _ _ s2).
Qed.

Lemma handle_connection_rule fuel fl s :
  numbered (handle_connection open_tcp session_over took debug_char blake3 request_from postcard_error reply_bytes fuel fl)
    (λ _, answered s) [] s.
Proof.
  unfold handle_connection. apply safe_bind. unfold on_sock, own. cbn [safe]. unfold map_err, catch.
  pose proof (read_request_put s) as Hput.
  destruct (read_request request_from postcard_error s) as [[q|e|] s1] eqn:Eq; [|done..]. cbn in Hput.
  assert (∀ g s', (∃ fs new, g = [] ++ new ∧ answers q fs new ∧ wrote fs s1 s') → answered s g s') as Hdone.
  { intros g s' (fs & new & Hg & Ha & Hw). cbn in Hg. subst g. exists q, s1, fs. split_and!; [done|done|]. by rewrite Hw, Hput. }
  destruct q as [id a|id plan|since filter|wa wf ws|]; (eapply safe_mono; [intros a' g' s' Hx; exact (Hdone g' s' Hx)|]).
  - apply handle_action_rule.
  - apply handle_plan_rule.
  - apply handle_observe_rule.
  - apply safe_bind, build_observation_rule. intros obs n Hn. apply write_rule. intros s' Hw.
    eexists _, [n]. by split_and!; [|constructor|].
  - apply safe_bind, next_number_rule. intros n. apply write_rule. intros s' Hw.
    eexists _, [n]. by split_and!; [|constructor|].
Qed.
End Replies.
