(* ===== verification/AdkEnds.v ===== *)
(** * Connections come to an end

    The waits of the daemon end because time passes: each turn sleeps.  51 turns are
    enough: 5 seconds in turns of 100 ms, and the turn that sees them gone.  A connection's
    ghost is the time it last saw, the pool's is the time. *)

From S2P Require Import Prelude Words Io Frame.
From S2P Require Import Errors Types Utf8 Format Float32 Message Transport Coalesce Sink Session.
From S2P Require Import KernelTypes Bounded StreamEngine Memory MemoryStore StateModel SessionState KernelFrame Bridge AdkText Threads AdkDaemon AdkRequest AdkWorld.
Local Open Scope Z_scope.

Definition seen (g n : Z) : Prop := g ≤ n.
Definition time_passes (g n g' n' : Z) : Prop := n ≤ n' ∧ g' ≤ n'.
Definition not_out_of_turns (e : Ended) : Prop := e ≠ Ended_OutOfTurns.

Section Ends.
Context {H : Type} `{!Host H, !LawfulHost H, !Sqlite H, !TimelySqlite H, pc : Postcard}.
Context {T W : Type} `{!Read T, !MessageSink W}.
Context (open_tcp : str → Z → H → (T + IoError) * H) (session_over : T → OpenRequest → W).
Context (Htcp : ∀ host port h, time h ≤ time (open_tcp host port h).2).
Context (took : ActionId → Z) (debug_char : Z → string) (blake3 : bytes → bytes).
Context (request_from : bytes → option RequestPayload) (postcard_error : bytes → string)
  (reply_bytes : ReplyPayload → bytes).
Context {S : Type} `{!Read S, !Write S, !Socket S}.
Abbreviation D := (SharedState H W (Conn H)).
Abbreviation P := (prog (D := D) (S := S) (E := Ended)).
Implicit Types (d : D) (s : S).

Definition at_time (n : Z) (d : D) : Prop := time (outside d) = n.
Abbreviation timed := (safe (D := D) (S := S) at_time seen time_passes not_out_of_turns).

(** ** Rules *)

Definition later d d' : Prop := time (outside d) ≤ time (outside d').
#[local] Instance later_pre : PreOrder later.
Proof. split; [by intros d; unfold later|]. unfold later. intros d1 d2 d3. lia. Qed.

(** [p] ends, and time has not gone back. *)
Definition ends {A} (p : P A) : Prop :=
  ∀ (Q : A → Z → S → Prop) g s, (∀ a g' s', g ≤ g' → Q a g' s') → timed p Q g s.

Lemma ends_ret {A} (a : A) : ends (mret a).
Proof. intros Q g s HQ. by apply HQ. Qed.

Lemma ends_bind {A B} (p : P A) (k : A → P B) : ends p → (∀ a, ends (k a)) → ends (p ≫= k).
Proof.
  intros Hp Hk Q g s HQ. apply safe_bind, Hp. intros a g1 s1 H1. apply Hk. intros b g2 s2 H2. apply HQ. lia.
Qed.

Lemma ends_atomically {A} (c : cmd D Ended A) :
  stable later c → (∀ d, (c d).1 ≠ Err Ended_OutOfTurns) → ends (atomically c).
Proof.
  intros Hc He Q g s HQ d n Hi Hk. specialize (Hc d). specialize (He d). unfold later, at_time, seen in *.
  destruct (c d) as [[a|e|] d']; cbn in *; [| |done].
  - exists (time (outside d')), (time (outside d')). split_and!; [done|split; lia|apply HQ; lia].
  - split; [by intros ->|]. exists (time (outside d')). split; [done|split; lia].
Qed.

Lemma ends_on_sock {A} (c : cmd S IoError A) : ends (on_sock c).
Proof.
  intros Q g s HQ. unfold on_sock, own. cbn [safe]. unfold map_err, catch.
  destruct (c s) as [[a|e|] s']; [by apply HQ|done|done].
Qed.

Lemma on_outside_later {A} (f : H → A * H) : (∀ h, time h ≤ time (f h).2) → stable later (on_outside f).
Proof.
  intros Hf d. specialize (Hf (outside d)). unfold on_outside, later. by destruct (f (outside d)).
Qed.

Lemma ends_ask {A} (f : H → A * H) : (∀ h, time h ≤ time (f h).2) → ends (ask f).
Proof.
  intros Hf. apply ends_atomically; [by apply on_outside_later|]. intros d. unfold on_outside. by destruct (f (outside d)).
Qed.

Lemma instant_later h : time h ≤ time (instant_now h).2.
Proof. pose proof (instant_between h). lia. Qed.

Lemma ends_inside {A} (c : cmd D Ended A) :
  (∀ d, outside (c d).2 = outside d ∧ (c d).1 ≠ Err Ended_OutOfTurns) → ends (atomically c).
Proof.
  intros Hc. apply ends_atomically; [|apply Hc]. intros d. unfold later. by rewrite (proj1 (Hc d)).
Qed.

Lemma ends_adb_shell fl command : ends (adb_shell fl command).
Proof.
  unfold adb_shell. destruct (no_adb fl); [apply ends_ret|].
  apply ends_bind; [apply ends_ask, run_adb_time|]. intros r. apply ends_ret.
Qed.

Lemma ends_adb_screencap fl : ends (adb_screencap fl).
Proof.
  unfold adb_screencap. destruct (no_adb fl); [apply ends_ret|].
  apply ends_bind; [apply ends_ask, run_adb_time|]. intros r. apply ends_ret.
Qed.

Lemma ends_dumpsys fl : ends (dumpsys fl).
Proof. apply ends_bind; [apply ends_adb_shell|]. intros r. apply ends_ret. Qed.

Lemma ends_elapsed t0 : ends (elapsed_since t0).
Proof. apply ends_bind; [apply ends_ask, instant_later|]. intros now. apply ends_ret. Qed.

Lemma ends_uptime : ends uptime_ms.
Proof.
  apply ends_bind; [apply ends_ask, unix_time|]. intros now. apply ends_bind; [by apply ends_inside|].
  intros t. apply ends_ret.
Qed.

(** ** Waiting *)

Lemma elapsed_rule t0 (Q : Z → Z → S → Prop) g s :
  (∀ e g', g ≤ g' → (g - t0) / NANOS_PER_MS ≤ e → Q e g' s) → timed (elapsed_since t0) Q g s.
Proof.
  intros HQ. apply safe_bind. unfold ask, atomically, on_outside. cbn [safe]. intros d n Hi Hk. unfold at_time, seen in *.
  pose proof (instant_between (outside d)) as Hb. destruct (instant_now (outside d)) as [now h]. cbn in *.
  exists g, (time h). split_and!; [done|split; lia|]. apply HQ; [done|]. apply Z.div_le_mono; [done|lia].
Qed.

Lemma pause_rule ms (Q : unit → Z → S → Prop) g s :
  0 ≤ ms → (∀ g', g + ms * NANOS_PER_MS ≤ g' → Q tt g' s) → timed (pause ms) Q g s.
Proof.
  intros Hms HQ. unfold pause, ask, atomically, on_outside. cbn [safe]. intros d n Hi Hk. unfold at_time, seen in *.
  pose proof (sleep_time ms (outside d)) as Hs. cbn in *. exists (time (thread_sleep ms (outside d))), (time (thread_sleep ms (outside d))).
  unfold NANOS_PER_MS in *. split_and!; [done|split; lia|apply HQ; lia].
Qed.

Lemma poll_until_ends fuel fl p t0 cap ms (Q : bool → Z → S → Prop) g s (k : Z) :
  0 < ms → 0 ≤ k → t0 + k * ms * NANOS_PER_MS ≤ g → cap ≤ (k + Z.of_nat fuel) * ms →
  (∀ b g' s', g ≤ g' → Q b g' s') → timed (poll_until (Datatypes.S fuel) fl p t0 cap ms) Q g s.
Proof.
  intros Hms. revert g s k. induction fuel as [|fuel IH]; intros g s k Hk Ht Hcap HQ;
    apply safe_bind, elapsed_rule; intros e g1 Hg1 He;
    assert (k * ms ≤ e)
      by (etrans; [|exact He]; apply Z.div_le_lower_bound; [done|unfold NANOS_PER_MS in *; lia]);
    destruct (Z.ltb_spec e cap); try (apply HQ; lia); [lia|].
  apply safe_bind, ends_dumpsys. intros r g2 s2 Hg2. destruct (check_predicate p r.1 r.2); [apply HQ; lia|].
  apply safe_bind, pause_rule; [lia|]. intros g3 Hg3. unfold NANOS_PER_MS in *.
  apply (IH g3 s2 (k + 1)); [lia..|]. intros b g4 s4 Hg4. apply HQ. lia.
Qed.

Lemma ends_wait_until fuel fl p cap ms :
  (50 < fuel)%nat → 0 < ms → cap ≤ 50 * ms → ends (wait_until fuel fl p cap ms).
Proof.
  intros Hf Hms Hcap Q g s HQ. apply safe_bind. unfold ask, atomically, on_outside. cbn [safe].
  intros d n Hi Hk. unfold at_time, seen in *. pose proof (instant_between (outside d)) as Hb.
  destruct (instant_now (outside d)) as [t0 h]. cbn in *. exists (time h), (time h). split_and!; [done|split; lia|].
  replace fuel with (Datatypes.S (fuel - 1)) by lia.
  assert (50 * ms ≤ Z.of_nat (fuel - 1) * ms) by (apply Z.mul_le_mono_nonneg_r; lia).
  apply (poll_until_ends _ _ _ _ _ _ _ _ _ 0); [done|done|lia|lia|]. intros b g' s' Hg. apply HQ. lia.
Qed.

(** ** Everything else takes no turns *)

Lemma ends_by_shell fl command gt : ends (by_shell fl command gt).
Proof. apply ends_bind; [apply ends_adb_shell|]. intros r. apply ends_ret. Qed.

Lemma ends_shell_arm fuel fl a : (50 < fuel)%nat → ends (shell_arm fuel fl a).
Proof.
  intros Hf. destruct a; cbn [shell_arm]; try apply ends_ret; try apply ends_by_shell;
    try by apply ends_inside.
  - destruct (forallb _ _); [apply ends_by_shell|apply ends_ret].
  - apply ends_bind; [by apply ends_wait_until|]. intros b. apply ends_ret.
Qed.

Lemma persist_screen_time conn sid entry h : time h ≤ time (persist_screen conn sid entry h).2.
Proof.
  unfold persist_screen. destruct (successes_to (successes entry)) as [ss|e]; [|done].
  destruct (failures_to (failures entry)) as [fs|e]; [|done].
  unfold on_db, mbind, cmd_bind, map_err, catch, MemoryStore.result, mret, cmd_ret.
  pose proof (execute_time conn REPLACE_SCREEN [sid; ss; fs] h) as Ht.
  by destruct (execute conn REPLACE_SCREEN [sid; ss; fs] h) as [[u|e] h'].
Qed.

Lemma ends_remember fl a r : ends (remember blake3 fl a r).
Proof.
  apply ends_bind; [apply ends_dumpsys|]. intros [[focus|] out];
    (apply ends_bind; [|by intros; apply ends_inside]); [|apply ends_ret].
  apply ends_atomically; [|done]. intros d. unfold later, memory_success. cbn.
  destruct (sqlite d) as [conn|], (sqlite_path d); try done.
  destruct (peek _ (record_success _ a (sh_memory d))); [apply persist_screen_time|done].
Qed.

Lemma never_bind {A B} (c : cmd D Ended A) (k : A → cmd D Ended B) :
  (∀ d, (c d).1 ≠ Err Ended_OutOfTurns) → (∀ a d, (k a d).1 ≠ Err Ended_OutOfTurns) →
  ∀ d, ((c ≫= k) d).1 ≠ Err Ended_OutOfTurns.
Proof.
  intros Hc Hk d. specialize (Hc d). unfold mbind, cmd_bind. destruct (c d) as [[a|e|] d']; cbn in *; [apply Hk| |done].
  intros E. apply Hc. by injection E as ->.
Qed.

Lemma raw_bridge_ends fl a id :
  ends (atomically (execute_raw_bridge_action open_tcp session_over took debug_char fl a id)).
Proof.
  apply ends_atomically.
  - apply stable_bind; [apply _| |intros [reason|]; [apply stable_ret, _|]; apply stable_bind; [apply _| |intros o; apply stable_ret, _]].
    + apply stable_bind; [apply _|apply stable_read, _|]. intros [i|]; [apply stable_ret, _|].
      destruct (no_adb fl); [apply stable_ret, _|]. apply stable_bind; [apply _|apply on_outside_later, Htcp|].
      intros [stream|e]; [|apply stable_ret, _].
      destruct (Device.read_scrcpy_control_prefix stream) as [[pre|e|] st]; [|intros d; apply Z.le_refl..].
      destruct (injector_open _ _) as [[u|e|] i]; intros d; apply Z.le_refl.
    + intros d. unfold injector_apply. destruct (raw_injector d) as [i|]; [|apply Z.le_refl].
      destruct (apply_action took debug_char a i) as [[o|e|] i']; apply Z.le_refl.
  - apply never_bind; [|intros [reason|]; [done|]; apply never_bind; [|done]].
    + apply never_bind; [done|]. intros [i|]; [done|]. destruct (no_adb fl); [done|]. apply never_bind.
      { intros d. unfold on_outside. by destruct (open_tcp _ _ _). }
      intros [stream|e]; [|done].
      destruct (Device.read_scrcpy_control_prefix stream) as [[pre|e|] st]; [|done..].
      by destruct (injector_open _ _) as [[u|e|] i].
    + intros d. unfold injector_apply. destruct (raw_injector d) as [i|]; [|done].
      by destruct (apply_action took debug_char a i) as [[o|e|] i'].
Qed.

Lemma ends_execute_action fuel fl a :
  (50 < fuel)%nat → ends (execute_action open_tcp session_over took debug_char blake3 fuel fl a).
Proof.
  intros Hf. apply ends_bind; [apply ends_ask, instant_later|]. intros start.
  apply ends_bind; [by apply ends_inside|]. intros id. destruct (uses_scrcpy_bridge a).
  - apply ends_bind; [apply raw_bridge_ends|]. intros o. apply ends_ret.
  - apply ends_bind; [by apply ends_shell_arm|]. intros arm. apply ends_bind; [apply ends_elapsed|]. intros e.
    destruct arm as [[landed gt]|]; [|apply ends_ret]. apply ends_bind; [|intros u; apply ends_ret].
    destruct landed; [apply ends_remember|apply ends_ret].
Qed.

Lemma ends_build_observation fl : ends (build_observation fl).
Proof.
  apply ends_bind; [by apply ends_inside|]. intros n.
  apply ends_bind; [apply ends_dumpsys|]. intros out. apply ends_bind; [apply ends_adb_screencap|]. intros cap.
  do 3 (apply ends_bind; [apply ends_uptime|]; intros ?).
  apply ends_bind; [by apply ends_inside|]. intros u. apply ends_ret.
Qed.

(** ** The connection *)

Lemma ends_perform_step fuel fl i step :
  (50 < fuel)%nat → ends (perform_step open_tcp session_over took debug_char blake3 fuel fl i step).
Proof.
  intros Hf. apply ends_bind.
  { unfold before_step. destruct (wait_before step); [|apply ends_ret].
    apply ends_bind; [by apply ends_wait_until|]. intros b. apply ends_ret. }
  intros u. apply ends_bind; [by apply ends_execute_action|]. intros r. apply ends_bind; [|intros ok; apply ends_ret].
  unfold verified. destruct (verify_after step); [|apply ends_ret].
  apply ends_bind; [apply ends_dumpsys|]. intros out. apply ends_ret.
Qed.

Lemma ends_plan_steps fuel fl plan i ss done all :
  (50 < fuel)%nat →
  ends (plan_steps open_tcp session_over took debug_char blake3 reply_bytes fuel fl plan i ss done all).
Proof.
  intros Hf. revert i done all. induction ss as [|step ss IH]; intros i done all; cbn [plan_steps]; [apply ends_ret|].
  apply ends_bind; [by apply ends_perform_step|]. intros r. destruct (_ && _); [apply ends_ret|].
  apply ends_bind; [|intros u; apply IH]. unfold emit_checkpoint. destruct (checkpoint_due _ _); [|apply ends_ret].
  apply ends_bind; [apply ends_build_observation|]. intros obs. apply ends_on_sock.
Qed.

Lemma ends_handle_connection fuel fl :
  (50 < fuel)%nat →
  ends (handle_connection open_tcp session_over took debug_char blake3 request_from postcard_error reply_bytes fuel fl).
Proof.
  intros Hf. apply ends_bind; [apply ends_on_sock|]. intros [id a|id plan|since filter|wa wf ws|].
  - apply ends_bind; [by apply ends_execute_action|]. intros r. apply ends_bind; [|intros u; apply ends_on_sock].
    destruct a; try apply ends_ret. apply ends_bind; [apply ends_dumpsys|]. intros out. apply ends_ret.
  - apply ends_bind; [apply ends_ask, instant_later|]. intros start. apply ends_bind; [by apply ends_plan_steps|]. intros rs.
    apply ends_bind; [apply ends_elapsed|]. intros e. apply ends_bind; [apply ends_build_observation|]. intros obs.
    apply ends_on_sock.
  - apply ends_bind; [by apply ends_inside|]. intros u1. apply ends_bind; [apply ends_build_observation|]. intros o1.
    apply ends_bind; [apply ends_on_sock|]. intros u2.
    apply ends_bind.
    { intros Q g s HQ. apply pause_rule; [done|]. intros g' Hg. apply HQ. unfold NANOS_PER_MS, OBSERVE_PAUSE in Hg. lia. }
    intros u3. apply ends_bind; [apply ends_build_observation|]. intros o2.
    apply ends_bind; [apply ends_on_sock|]. intros u4. apply ends_on_sock.
  - apply ends_bind; [apply ends_build_observation|]. intros obs. apply ends_on_sock.
  - apply ends_bind; [by apply ends_inside|]. intros n. apply ends_on_sock.
Qed.

(** C18: the connections come to an end.  On a host where time passes - nothing turns it back,
    a sleep takes as long as asked - no connection ever runs out of the turns of its waits,
    whatever the device answers and whatever the other connections do meanwhile: 51 turns of
    each wait are enough for any request. *)
Theorem connection_ends (fuel : nat) (fl : Flags) (evs : list (Event (S := S))) (h : H)
    (Hfuel : (50 < fuel)%nat) :
  Forall (λ t, left t ≠ Err Ended_OutOfTurns)
    (threads (serve open_tcp session_over took debug_char blake3 request_from postcard_error reply_bytes
       fuel fl evs h)).
Proof.
  assert (pool_ok at_time seen time_passes not_out_of_turns (λ _ _, True) (λ _ _ _, True)
    (serve open_tcp session_over took debug_char blake3 request_from postcard_error reply_bytes fuel fl evs h))
    as (gs & n & _ & _ & _ & Hts).
  - unfold serve. apply pool_safe with (fresh := λ n, n); unfold seen, time_passes; [lia|lia|done| |done|done|].
    + intros s n. by apply ends_handle_connection.
    + exists [], (time (outside (SharedState_new (W := W) (state_db fl) h))). by split_and!.
  - apply Forall_forall. intros t Ht. apply list_elem_of_lookup_1 in Ht as [i Hi].
    destruct (Forall2_lookup_l _ _ _ _ _ Hts Hi) as (g & _ & Hsafe). unfold thread_safe in Hsafe.
    intros E. rewrite E in Hsafe. by apply Hsafe.
Qed.
End Ends.

(** A wait that is never satisfied, while another host asks. *)
Definition waiting : bytes * bytes := (frame_encode (frame_request query_bytes Rq_EndOfStream), []).

Lemma connection_ends_witness :
  Forall (λ t, left t ≠ Err Ended_OutOfTurns)
    (threads (serve nobody to_log (λ _, 0) (λ _, ""%string) (λ b, b) query_from (λ _, ""%string) (λ _, [])
       51 plain_flags [Comes waiting; Comes waiting; Turn 1; Turn 0; Turn 0] 0)).
Proof.
  assert (50 < 51)%nat as Hf by lia.
  assert (∀ host port h, time h ≤ time (nobody host port h).2) as Htcp by (intros host port h; reflexivity).
  exact (connection_ends nobody to_log Htcp (λ _, 0) (λ _, ""%string) (λ b, b) query_from (λ _, ""%string) (λ _, [])
    51 plain_flags [Comes waiting; Comes waiting; Turn 1; Turn 0; Turn 0] 0 Hf).
Defined.
